(* ===== verification/_CoqProject ===== *)
-Q . S2P
Prelude.v
Lzf.v
Cipher.v
AesTab.v
Aes.v
HashStream.v
Sha1.v
Md5.v
Hash.v
Mac.v
Compress.v
LzfStream.v
LzfStreamProofs.v
Chunk.v
Effects.v
Sql.v
SqlConn.v
SqlRows.v
Pk.v
Cache.v
CacheProofs.v
CacheModes.v
CacheModesProofs.v
CacheVerdict.v
Image.v
ImageProofs.v
Disk.v
Lockfile.v
Util.v
Config.v
Transport.v
Hoard.v
HoardProofs.v
HoardChunks.v
Supply.v
HoardAdmin.v
HoardModes.v
HoardCompact.v
HoardTruncate.v
HoardCheck.v
Upload.v
UploadProofs.v
HoardShared.v
HoardIndex.v
HoardInit.v
Cmdline.v
CmdlineProofs.v
Frame.v
Fuse.v
FuseProofs.v
