(* ===== verification/Prelude.v ===== *)
(** * A verification library for OpenISR

    OpenISR keeps the disk of a virtual machine (a parcel) on a server as encrypted chunks.  The
    client's parcelkeeper presents it as a virtual disk: chunks are fetched on demand, kept in a
    local cache file with an SQLite index and keyring, decrypted into memory, changed, and written
    back encrypted under keys derived from their contents.  This library models the C code that
    does so, from the cipher to the virtual disk, and proves it correct.

    ** The parts, and how they fit together

    The crypto library (src/crypto) provides AES in CBC mode, SHA-1, MD5, HMAC and compression;
    libutil (src/libutil/chunk.c) combines them into the encoding of a chunk: compress, hash to get
    the key, encrypt, hash to get the tag.  The parcelkeeper (src/parcelkeeper) stores encoded
    chunks in the local cache (cache.c) in transactions of SQLite (src/sqlite/wrapper.c), gets
    missing ones from the hoard cache that parcels share (hoard.c) or from the server (transport.c),
    and serves the disk through a write-back cache of
    decrypted chunks (fuse_image.c), which libfuse calls through the file system of fuse.c beside the
    statistics files of fuse_stats.c.  It is told what to do by its command line (cmdline.c), reads the
    parcel's geometry from parcel.cfg (parcelcfg.c) and keeps other processes out with a lock file (util.c).

    ** The files

    - Prelude: machine words, byte buffers, load and store macros (crypto/internal.h), automation
      (hint database [word]).
    - Lzf: the LZF compressor and decompressor (crypto/lzf.c), with every access checked.
    - Cipher, AesTab, Aes: padding, ECB and CBC, cipher contexts (pad.c, ecb.c, cbc.c, cipher.c), the
      tables and the rounds of AES (aes_tab.h, aes.c).
    - HashStream, Sha1, Md5, Hash: the buffering that SHA-1 and MD5 share, their compression
      functions statement by statement, and the hash interface (sha1.c, sha1-compress.c, md5.c,
      md5-compress.c, hash.c).
    - Mac: HMAC and the MAC interface (hmac.c, mac.c).
    - Compress, LzfStream: the compression interface and its wrappers (compress.c, zlib.c, lzma.c,
      lzf.c) and the LZF stream format (lzf-stream.c).
    - LzfStreamProofs: the stream as a relation between data and bytes, and the invariants that tie the
      encoder and the decoder to it over any sequence of calls.
    - Chunk: encoding and decoding of chunks (libutil/chunk.c).  The class [ChunkCodec] is what the
      local cache relies on.
    - Effects: the monad of the stateful functions (explicit state, return, "goto bad", faults) and
      its total-correctness triples.
    - Sql: the SQL wrapper (sqlite/wrapper.c).  A database is any type; a statement is a function
      on it; what SQLite refuses, and when, is an arbitrary finite schedule.  The class [HasDb] is
      the interface to a state with a connection.
    - SqlConn: the rest of the wrapper: opening, attaching, vacuuming and checking a database.
    - SqlRows: loops over the rows of a query, the steps of a transaction with an invariant, and
      transactions whose invariant depends on the number of refusals to come.
    - Pk: the types of defs.h, the parcelkeeper's state, files with an arbitrary schedule of short
      and failing system calls.
    - Cache, CacheProofs: the local cache (cache.c), its invariant [cache_wf], and the interface
      [ChunkStore] that its instance [cache_store] discharges.
    - CacheModes, CacheModesProofs, CacheVerdict: checking and repairing the local cache, and its usage
      (validate_cache and examine_cache of cache_modes.c); [consistent] says that keyring, index and data
      agree, [repaired] what a repair does.
    - Image, ImageProofs, Disk: the virtual disk (fuse_image.c) over any [ChunkStore]; the
      invariant [inv] relates entries, queues and the local cache to a flat list of bytes; [Disk]
      states the refinement of the abstract disk.
    - Lockfile: the lock file (util.c) run by any number of processes.
    - Util: numbers, paths and names (util.c).
    - Config: parcel.cfg (parcelcfg.c).
    - Transport: downloading a chunk (transport.c).
    - Hoard, HoardProofs, HoardChunks: the hoard cache (hoard.c).  [hoard_wf] is the invariant of its
      index and of the slots a process has reserved, [sound] relates the index to the file;
      HoardProofs carries both through a put, HoardChunks through a get and garbage collection.
    - HoardModes: the modes over the hoard cache as a whole (hoard_modes.c): fetching all chunks of a parcel,
      statistics, removing a parcel, garbage collection, compaction, and the check of index and data.
    - HoardCompact, HoardTruncate: compaction ([relocated] says what a move does to the index, [looping] is
      the invariant of the loop, [packed] what it reaches, [dense] that there are no gaps in the numbering).
    - HoardCheck: the check, which makes a hoard cache that is [steady] out of any that is [on_disk].
    - HoardAdmin: the parcels, references and cleanup of the hoard cache ([parcels_wf], [synced],
      [cleaned] say what they do to the index).
    - Upload, UploadProofs: copying the modified chunks to an upload directory (copy_for_upload of
      cache_modes.c), over the local cache, the hoard cache and a file system; [sendable] and [sent] say
      what must be there and what is there afterwards.
    - HoardShared: several processes that share a hoard cache, as a step relation on worlds whose steps
      are rounds of the transactions of Hoard; [consistent] is the invariant of the reachable worlds.
    - HoardIndex, HoardInit: the schema of the index, its creation and its upgrade from old formats, and
      sessions from hoard_init to hoard_shutdown.
    - Supply: the hoard cache and the server together, as cache_get uses them for a missing chunk.
    - Cmdline, CmdlineProofs: the command line (cmdline.c, and the log types of log.c).  [options_ok],
      [required_ok] and [request_of] say declaratively what a right command line is and what it asks for.
    - Frame: what no operation of the local cache and the image does, whatever fails: touch the header of
      the cache file.
    - Fuse, FuseProofs: the file system (fuse.c) and the statistics files (fuse_stats.c) over the image,
      from fuse_init with its error exits to fuse_shutdown; [fs_run] is the abstract file system.

    A C function is a Rocq function of the same name.  A function that can fail returns its error
    code; a function that can access memory outside an object, fail an assertion or wait for ever
    returns an [option], [None] being that fault, so that theorems of the form "f s = Some ..."
    include memory safety and termination.  An unsigned integer is a [Z], wrapped with [u32] and the
    like wherever the C type truncates.

    ** What the theorems show

    - The virtual disk is a flat array of bytes: for every sequence of reads, writes, syncs and
      cleaner rounds, from init to shutdown, every reply is that of the array, and the local cache
      ends up with its contents ([image_session_refines], and [image_op_preserves_inv] for a single step
      from any state); sync makes writes durable ([image_sync_durable]); a failed write-back is never silent
      ([entry_clean_never_silent]).
    - The same holds at the level of the file system that the kernel sees ([fuse_session_refines]); and
      while the disk is served, or if something could not be written back, the cache file is marked dirty
      and no later parcelkeeper serves it unchecked ([dirty_flag_guards]).
    - The command line is accepted and understood as declared ([parse_cmdline_exact]), but for one case in
      which the parser reads behind its end ([parse_cmdline_crash]).
    - The local cache: updates are atomic with respect to keyring and index under any failures
      ([cache_update_atomic]), succeed under any contention ([cache_update_succeeds]), and are read
      back ([cache_get_after_update]).
    - A check of the local cache answers 0 exactly if keyring, index and data agree
      ([validate_cache_exact]), and under any failures of the databases only if every cached chunk is there in
      full with the data of its tag ([validate_cache_sound]); it repairs exactly the chunks that are not right,
      and says that it did ([validate_cache_repairs]); an upload has every modified chunk with the data of its tag
      ([copy_for_upload_sound], [copy_for_upload_exact]).
    - A chunk survives encoding and decoding, and only data that matches its key is accepted
      ([iu_chunk_roundtrip], [iu_chunk_decode_integrity]); AES, CBC, padding and LZF round-trip, the LZF
      stream through any sequence of partial calls ([lzf_stream_roundtrip]); SHA-1,
      MD5 and HMAC are those of FIPS 180-4, RFC 1321 and RFC 2104, however their input is split.
    - No two processes have the lock file ([lockfile_mutual_exclusion]), and it does not become stale ([lockfile_not_stale]).
    - The parser of parcel.cfg is equivalent to a declarative reading of the file, and what it
      accepts is well-formed ([parse_parcel_cfg_equiv], [parcel_cfg_sound]).
    - A download is retried, stays in its buffer and gives only data that matches the tag
      ([transport_fetch_chunk_verified]).
    - The hoard cache: whatever fails, storing a chunk adds it or nothing and never damages another
      ([hoard_put_chunk_atomic]); reading ends and gives only data that matches the tag
      ([hoard_get_chunk_verified]); what was stored is found again, also by the next session
      ([hoard_survives_restart]); an index of any supported format is opened, and keeps its chunks,
      of the formats 5 to 7 those that a parcel refers to ([hoard_index_opens]).  The references, parcels and the cleanup do exactly what they should
      ([hoard_sync_refs_exact], [parcel_ident_identifies], [hoard_try_cleanup_exact]).  Processes that
      share the cache never get in each other's way ([hoard_processes_separate], [hoard_round_harmless],
      [hoard_own_chunk_readable]).  Together with the download it supplies missing chunks, and fetches
      none twice unless the hoard cache fails ([missing_chunk_supplied]).
    - Compaction of the hoard cache loses no chunk that is needed, wherever it fails
      ([compact_hoard_safe]), and leaves no gap if nothing fails ([compact_hoard_exact]).  The check of the
      hoard cache repairs any index ([check_hoard_safe]), and the chunks it keeps are those that can be read
      with the SHA-1 of their tag ([check_hoard_exact]).
    - Some lemmas state where the code departs from what it means to do, such as
      [cache_update_failure_loses_chunk], [validate_cache_forgets_failed_read], [image_write_wraps] or
      [hmac_rekey_long_key_wrong].

    ** Bounds and fuel

    Loops over buffers recurse on a number of steps that bounds them: [lzf_loop] and
    [lzf_decode_loop] on the length of the input, [read_loop] and [write_loop] on the number of bytes
    plus one (each pass moves at least one), [clean_loop] and [free_loop] on the length of the queue
    plus one (each pass takes an entry off it), the loops of Sql on the length of the fault schedule
    (each retry uses up a refusal), [flush_loop] on the number of slots plus one, [allocate_loop] on 2
    (the second round finds a slot that the first has added) and [get_loop] on the length of the fault
    schedule plus 3 (each failed round drops the tag from one of two tables or uses up a refusal),
    [move_loop] on the number of rows plus one, [compact_loop] on the sum of the offsets of the chunks and the
    length of the fault schedule, plus one (each round moves a chunk down, uses up a refusal or is the last),
    [parcels_loop] on the number of parcels plus one, [messages_loop] on that of the messages plus one,
    [parse_loop] on the number of arguments plus one, [next_fh] on the number of open files plus one.
    Running out is a fault, and the theorems show that it does not
    happen.

    ** Parameters

    zlib, liblzma and crc32 ([compress_env], with [zlib_ok] for what zlib's manual says of compress
    and decompress in one call), libcurl and the server ([Curl]), GLib's string functions and libuuid
    ([GLib], [LibUuid]), the printing of a percentage ([Printf]), for the command line which paths are
    directories and files, for the mount what libfuse and the system calls answer ([fuse_env]), and for
    cache_get the hoard cache and the network ([ChunkSource]).

    ** Not modelled

    A process that uses the hoard cache without a parcel; writing the log and the main function (log.c,
    main.c); the loop of libfuse, which is the sequence of requests that it delivers; the text of SQL
    statements; concurrent requests to the image (the model is of the single-thread mode of the parcelkeeper,
    with the cleaner thread, whose rounds are single steps although it gives up the image lock while it writes
    a chunk); compaction and checks of the hoard cache by one process while others use it (the steps of
    [HoardShared] are the transactions of hoard.c); values of the column "allocated" other than 0 and 1; SQLite
    itself, of which statements that are still active at a COMMIT are left out; the assembly versions of SHA-1;
    random.c; the tools; the Perl, Python and shell code; freeing of memory and log messages throughout. *)

(** ** Prelude: shared notation, machine words, byte buffers and automation *)

From stdpp Require Export base tactics list numbers gmap.
From Stdlib Require Export ZArith Lia.

#[global] Open Scope Z_scope.

(** * Machine words

    A w-bit unsigned integer is a [Z] in [0, 2^w); arithmetic is done in [Z] and wrapped with
    [u8], [u16], [u32] or [u64] where the C type truncates. *)

Definition is_u (w x : Z) : Prop := 0 <= x < 2 ^ w.

#[global] Instance is_u_dec w x : Decision (is_u w x).
Proof. unfold is_u. apply _. Defined.

Definition u8 (x : Z) : Z := x mod 2 ^ 8.
Definition u16 (x : Z) : Z := x mod 2 ^ 16.
Definition u32 (x : Z) : Z := x mod 2 ^ 32.
Definition u64 (x : Z) : Z := x mod 2 ^ 64.

(** A buffer is the list of its bytes. *)
Abbreviation bytes := (Forall (is_u 8)).

(** The macro [byte(x, n)] of internal.h: the n-th byte of a word. *)
Definition byte (x n : Z) : Z := Z.land (Z.shiftr x (8 * n)) 255.

(** Reading an element of a buffer at an index known to be in range. *)
Definition get (l : list Z) (i : nat) : Z := default 0 (l !! i).

(** A 32-bit word from its four bytes, the most significant first. *)
Definition pack4 (b3 b2 b1 b0 : Z) : Z :=
  Z.lor (Z.shiftl b3 24) (Z.lor (Z.shiftl b2 16) (Z.lor (Z.shiftl b1 8) b0)).

(** [LOAD32H], [STORE32H] and the little-endian and 16-bit variants of internal.h.  The loads
    read at a byte offset of a buffer; the stores give the bytes that are written. *)
Definition LOAD32H (l : list Z) (off : nat) : Z :=
  pack4 (get l off) (get l (off + 1)) (get l (off + 2)) (get l (off + 3)).

Definition STORE32H (x : Z) : list Z := [byte x 3; byte x 2; byte x 1; byte x 0].

Definition LOAD32L (l : list Z) (off : nat) : Z :=
  pack4 (get l (off + 3)) (get l (off + 2)) (get l (off + 1)) (get l off).

Definition STORE32L (x : Z) : list Z := [byte x 0; byte x 1; byte x 2; byte x 3].

Definition LOAD16H (l : list Z) (off : nat) : Z :=
  Z.lor (Z.shiftl (get l off) 8) (get l (off + 1)).

Definition STORE16H (x : Z) : list Z := [byte x 1; byte x 0].

(** Byte-wise exclusive or of two buffers. *)
Definition xor_bytes (a b : list Z) : list Z := zip_with Z.lxor a b.

(** [memcpy(dst + off, src, length src)] on an array. *)
Definition blit (dst : list Z) (off : nat) (src : list Z) : list Z :=
  take off dst ++ src ++ drop (off + length src) dst.

#[global] Arguments is_u : simpl never.
#[global] Arguments u8 : simpl never.
#[global] Arguments u16 : simpl never.
#[global] Arguments u32 : simpl never.
#[global] Arguments u64 : simpl never.
#[global] Arguments byte : simpl never.
#[global] Arguments pack4 : simpl never.
#[global] Arguments Nat.div : simpl never.
#[global] Arguments Nat.modulo : simpl never.

(** * Bits *)

Create HintDb word discriminated.
#[global] Hint Constants Opaque : word.

Lemma is_u_spec w x :
  0 <= w -> is_u w x <-> 0 <= x /\ forall i, w <= i -> Z.testbit x i = false.
Proof.
  intros Hw. unfold is_u. split.
  - intros [H0 H1]. split; [done|]. intros i Hi.
    rewrite <- (Z.mod_small x (2 ^ w)) by done. by apply Z.mod_pow2_bits_high.
  - intros [H0 Hb]. split; [done|].
    assert (x = x mod 2 ^ w) as ->; [|apply Z.mod_pos_bound; lia].
    apply Z.bits_inj'. intros i Hi. destruct (decide (i < w)).
    + by rewrite Z.mod_pow2_bits_low.
    + rewrite Z.mod_pow2_bits_high by lia. apply Hb. lia.
Qed.

Lemma is_u_testbit w x i : 0 <= w -> is_u w x -> w <= i -> Z.testbit x i = false.
Proof. intros Hw Hx Hi. by apply (proj1 (is_u_spec w x Hw) Hx). Qed.

Lemma is_u_lxor w a b : 0 <= w -> is_u w a -> is_u w b -> is_u w (Z.lxor a b).
Proof.
  intros Hw [Ha Ha']%is_u_spec [Hb Hb']%is_u_spec; try done. apply is_u_spec; [done|]. split.
  - apply Z.lxor_nonneg. lia.
  - intros i Hi. by rewrite Z.lxor_spec, Ha', Hb'.
Qed.

Lemma is_u_lor w a b : 0 <= w -> is_u w a -> is_u w b -> is_u w (Z.lor a b).
Proof.
  intros Hw [Ha Ha']%is_u_spec [Hb Hb']%is_u_spec; try done. apply is_u_spec; [done|]. split.
  - apply Z.lor_nonneg. lia.
  - intros i Hi. by rewrite Z.lor_spec, Ha', Hb'.
Qed.

Lemma is_u_land_l w a b : 0 <= w -> is_u w a -> is_u w (Z.land a b).
Proof.
  intros Hw [Ha Ha']%is_u_spec; try done. apply is_u_spec; [done|]. split.
  - apply Z.land_nonneg. by left.
  - intros i Hi. by rewrite Z.land_spec, Ha'.
Qed.

Lemma is_u_land_r w a b : 0 <= w -> is_u w b -> is_u w (Z.land a b).
Proof. rewrite Z.land_comm. apply is_u_land_l. Qed.

Lemma is_u_shiftr w a n : 0 <= w -> 0 <= n -> is_u (w + n) a -> is_u w (Z.shiftr a n).
Proof.
  intros Hw Hn [Ha Ha']%is_u_spec; try lia. apply is_u_spec; [done|]. split.
  - by apply Z.shiftr_nonneg.
  - intros i Hi. rewrite Z.shiftr_spec by lia. apply Ha'. lia.
Qed.

Lemma is_u_shiftl w a n : 0 <= w -> 0 <= n -> is_u w a -> is_u (w + n) (Z.shiftl a n).
Proof.
  intros Hw Hn [Ha Ha']%is_u_spec; try lia. apply is_u_spec; [lia|]. split.
  - by apply Z.shiftl_nonneg.
  - intros i Hi. rewrite Z.shiftl_spec by lia. apply Ha'. lia.
Qed.

Lemma is_u_le w w' x : 0 <= w <= w' -> is_u w x -> is_u w' x.
Proof.
  intros Hw [H0 H1]. split; [done|]. eapply Z.lt_le_trans; [done|].
  apply Z.pow_le_mono_r; lia.
Qed.

Lemma is_u_mod w x : 0 <= w -> is_u w (x mod 2 ^ w).
Proof. intros. apply Z.mod_pos_bound. lia. Qed.

Lemma is_u8_u8 x : is_u 8 (u8 x).
Proof. by apply is_u_mod. Qed.
Lemma is_u32_u32 x : is_u 32 (u32 x).
Proof. by apply is_u_mod. Qed.
Lemma is_u64_u64 x : is_u 64 (u64 x).
Proof. by apply is_u_mod. Qed.
Lemma is_u8_byte x n : is_u 8 (byte x n).
Proof. by apply is_u_land_r. Qed.

#[export] Hint Resolve is_u8_u8 is_u32_u32 is_u64_u64 is_u8_byte : word.
#[export] Hint Extern 2 (is_u _ (Z.lxor _ _)) => apply is_u_lxor; [lia|..] : word.
#[export] Hint Extern 2 (is_u _ (Z.lor _ _)) => apply is_u_lor; [lia|..] : word.
#[export] Hint Extern 4 (is_u 32 _) => by apply (is_u_le 8 32); [lia|] : word.

Lemma u8_id x : is_u 8 x -> u8 x = x.
Proof. intros. by apply Z.mod_small. Qed.
Lemma u32_id x : is_u 32 x -> u32 x = x.
Proof. intros. by apply Z.mod_small. Qed.
Lemma u64_id x : is_u 64 x -> u64 x = x.
Proof. intros. by apply Z.mod_small. Qed.

Lemma byte_testbit x n i :
  0 <= n -> 0 <= i -> Z.testbit (byte x n) i = bool_decide (i < 8) && Z.testbit x (i + 8 * n).
Proof.
  intros Hn Hi. unfold byte. change 255 with (Z.ones 8).
  rewrite Z.land_spec, Z.shiftr_spec by done.
  case_bool_decide.
  - rewrite Z.ones_spec_low by lia. by rewrite andb_true_r.
  - rewrite Z.ones_spec_high by lia. by rewrite andb_false_r.
Qed.

(** [bits_eq i] proves an equation of words bit by bit, [i] being the bit. *)
Ltac bits_eq i :=
  apply Z.bits_inj'; intros i ?;
  repeat first
    [ rewrite Z.lxor_spec | rewrite Z.lor_spec | rewrite Z.land_spec
    | rewrite Z.shiftr_spec by lia | rewrite Z.shiftl_spec by lia
    | rewrite byte_testbit by lia ].

Lemma byte_lxor a b n : 0 <= n -> byte (Z.lxor a b) n = Z.lxor (byte a n) (byte b n).
Proof. intros. bits_eq i. by case_bool_decide. Qed.

Lemma byte_0 n : 0 <= n -> byte 0 n = 0.
Proof. intros. unfold byte. by rewrite Z.shiftr_0_l. Qed.

Lemma byte_small x : is_u 8 x -> byte x 0 = x.
Proof.
  intros Hx. bits_eq i. rewrite Z.mul_0_r, Z.add_0_r. case_bool_decide; [done|].
  symmetry. apply (is_u_testbit 8); [lia|done|lia].
Qed.

(** A byte shifted to position m, read back at position n. *)
Lemma byte_shiftl x m n :
  is_u 8 x -> 0 <= m -> 0 <= n ->
  byte (Z.shiftl x (8 * m)) n = if decide (m = n) then x else 0.
Proof.
  intros Hx Hm Hn. bits_eq i. case_bool_decide as Hi.
  - destruct (decide (m = n)) as [->|Hne]; simpl.
    + f_equal. lia.
    + rewrite Z.testbit_0_l. destruct (decide (i + 8 * n - 8 * m < 0)).
      * by apply Z.testbit_neg_r.
      * apply (is_u_testbit 8); [lia|done|lia].
  - simpl. destruct (decide (m = n)); [|by rewrite Z.testbit_0_l].
    symmetry. apply (is_u_testbit 8); [lia|done|lia].
Qed.

Lemma byte_lor a b n : 0 <= n -> byte (Z.lor a b) n = Z.lor (byte a n) (byte b n).
Proof. intros. bits_eq i. by case_bool_decide. Qed.

Lemma u32_testbit x i : 0 <= i -> Z.testbit (u32 x) i = bool_decide (i < 32) && Z.testbit x i.
Proof.
  intros. unfold u32. case_bool_decide.
  - by rewrite Z.mod_pow2_bits_low.
  - rewrite Z.mod_pow2_bits_high by lia. done.
Qed.

(** * Words and their bytes *)

Lemma is_u8_get l i : bytes l -> is_u 8 (get l i).
Proof.
  intros Hl. unfold get. destruct (l !! i) eqn:E; [|done].
  by eapply (Forall_lookup_1 _ _ _ _ Hl).
Qed.
#[export] Hint Resolve is_u8_get : word.

Lemma is_u32_pack4 b3 b2 b1 b0 :
  is_u 8 b3 -> is_u 8 b2 -> is_u 8 b1 -> is_u 8 b0 -> is_u 32 (pack4 b3 b2 b1 b0).
Proof.
  intros. unfold pack4. repeat apply is_u_lor; try lia.
  - by apply (is_u_shiftl 8 _ 24).
  - apply (is_u_le 24); [lia|]. by apply (is_u_shiftl 8 _ 16).
  - apply (is_u_le 16); [lia|]. by apply (is_u_shiftl 8 _ 8).
  - by apply (is_u_le 8).
Qed.
#[export] Hint Resolve is_u32_pack4 : word.

Lemma is_u32_LOAD32H l off : bytes l -> is_u 32 (LOAD32H l off).
Proof. intros. unfold LOAD32H. apply is_u32_pack4; auto with word. Qed.
Lemma is_u32_LOAD32L l off : bytes l -> is_u 32 (LOAD32L l off).
Proof. intros. unfold LOAD32L. apply is_u32_pack4; auto with word. Qed.
#[export] Hint Resolve is_u32_LOAD32H is_u32_LOAD32L : word.

Lemma byte_pack4 b3 b2 b1 b0 :
  is_u 8 b3 -> is_u 8 b2 -> is_u 8 b1 -> is_u 8 b0 ->
  byte (pack4 b3 b2 b1 b0) 3 = b3 /\ byte (pack4 b3 b2 b1 b0) 2 = b2 /\
  byte (pack4 b3 b2 b1 b0) 1 = b1 /\ byte (pack4 b3 b2 b1 b0) 0 = b0.
Proof.
  intros H3 H2 H1 H0. unfold pack4.
  rewrite <- (Z.shiftl_0_r b0) at 1 2 3 4.
  change 24 with (8 * 3). change 16 with (8 * 2).
  replace (Z.shiftl b1 8) with (Z.shiftl b1 (8 * 1)) by done.
  replace (Z.shiftl b0 0) with (Z.shiftl b0 (8 * 0)) by done.
  repeat split; rewrite !byte_lor, !byte_shiftl by (done || lia); simpl;
    by rewrite ?Z.lor_0_r, ?Z.lor_0_l.
Qed.

Lemma word_ext a b :
  is_u 32 a -> is_u 32 b ->
  byte a 3 = byte b 3 -> byte a 2 = byte b 2 -> byte a 1 = byte b 1 -> byte a 0 = byte b 0 ->
  a = b.
Proof.
  intros Ha Hb H3 H2 H1 H0. apply Z.bits_inj'. intros i Hi.
  destruct (decide (i < 32)) as [Hlt|];
    [|rewrite !(is_u_testbit 32) by (done || lia); done].
  assert (forall n, 0 <= n < 4 -> byte a n = byte b n) as Hn.
  { intros n Hn. assert (n = 0 \/ n = 1 \/ n = 2 \/ n = 3) as Hc by lia.
    destruct Hc as [->|[->|[->| ->]]]; done. }
  assert (0 <= i / 8 < 4) as Hd by (split; [apply Z.div_pos|apply Z.div_lt_upper_bound]; lia).
  pose proof (f_equal (fun w => Z.testbit w (i mod 8)) (Hn _ Hd)) as Hbit. simpl in Hbit.
  pose proof (Z.mod_pos_bound i 8 ltac:(lia)).
  rewrite !byte_testbit in Hbit by lia.
  rewrite bool_decide_true in Hbit by lia. simpl in Hbit.
  replace (i mod 8 + 8 * (i / 8)) with i in Hbit; [done|].
  pose proof (Z.div_mod i 8 ltac:(lia)). lia.
Qed.

Lemma pack4_byte x : is_u 32 x -> pack4 (byte x 3) (byte x 2) (byte x 1) (byte x 0) = x.
Proof.
  intros Hx.
  destruct (byte_pack4 (byte x 3) (byte x 2) (byte x 1) (byte x 0)) as (?&?&?&?);
    auto with word. apply word_ext; auto with word.
Qed.

Lemma LOAD32H_STORE32H x : is_u 32 x -> LOAD32H (STORE32H x) 0 = x.
Proof.
  change (LOAD32H (STORE32H x) 0) with (pack4 (byte x 3) (byte x 2) (byte x 1) (byte x 0)).
  apply pack4_byte.
Qed.

Lemma LOAD32L_STORE32L x : is_u 32 x -> LOAD32L (STORE32L x) 0 = x.
Proof.
  change (LOAD32L (STORE32L x) 0) with (pack4 (byte x 3) (byte x 2) (byte x 1) (byte x 0)).
  apply pack4_byte.
Qed.

Lemma length_STORE32H x : length (STORE32H x) = 4%nat.
Proof. done. Qed.

Lemma bytes_STORE32H x : bytes (STORE32H x).
Proof. repeat apply Forall_cons_2; auto using is_u8_byte. Qed.
Lemma bytes_STORE32L x : bytes (STORE32L x).
Proof. repeat apply Forall_cons_2; auto using is_u8_byte. Qed.
#[export] Hint Resolve bytes_STORE32H bytes_STORE32L : word.

Lemma get_cons_0 x l : get (x :: l) 0 = x.
Proof. done. Qed.
Lemma get_cons_S x l i : get (x :: l) (S i) = get l i.
Proof. done. Qed.
Lemma get_app_l l1 l2 i : (i < length l1)%nat -> get (l1 ++ l2) i = get l1 i.
Proof. intros. unfold get. by rewrite lookup_app_l. Qed.
Lemma get_app_r l1 l2 i : get (l1 ++ l2) (length l1 + i) = get l2 i.
Proof. unfold get. rewrite lookup_app_r by lia. do 2 f_equal. lia. Qed.
Lemma lookup_get l i : (i < length l)%nat -> l !! i = Some (get l i).
Proof. intros Hi. unfold get. destruct (lookup_lt_is_Some_2 _ _ Hi) as [x ->]. done. Qed.
Lemma get_drop l n i : get (drop n l) i = get l (n + i).
Proof. unfold get. by rewrite lookup_drop. Qed.
Lemma get_take l n i : (i < n)%nat -> get (take n l) i = get l i.
Proof. intros. unfold get. by rewrite lookup_take_lt. Qed.

(** Four bytes of a buffer, loaded and stored back. *)
Lemma STORE32H_LOAD32H l off :
  bytes l -> (off + 4 <= length l)%nat -> STORE32H (LOAD32H l off) = take 4 (drop off l).
Proof.
  intros Hl Hlen. unfold STORE32H, LOAD32H.
  destruct (byte_pack4 (get l off) (get l (off + 1)) (get l (off + 2)) (get l (off + 3)))
    as (-> & -> & -> & ->); auto with word.
  apply list_eq. intros i. destruct (decide (i < 4)%nat) as [Hi|].
  - rewrite lookup_take_lt, lookup_drop, (lookup_get l) by lia.
    do 4 (destruct i as [|i]; [simpl; do 2 f_equal; lia|]). lia.
  - rewrite lookup_take_ge by lia. apply lookup_ge_None. simpl. lia.
Qed.

Lemma STORE32L_LOAD32L l off :
  bytes l -> (off + 4 <= length l)%nat -> STORE32L (LOAD32L l off) = take 4 (drop off l).
Proof.
  intros Hl Hlen. unfold STORE32L, LOAD32L.
  destruct (byte_pack4 (get l (off + 3)) (get l (off + 2)) (get l (off + 1)) (get l off))
    as (-> & -> & -> & ->); auto with word.
  apply list_eq. intros i. destruct (decide (i < 4)%nat) as [Hi|].
  - rewrite lookup_take_lt, lookup_drop, (lookup_get l) by lia.
    do 4 (destruct i as [|i]; [simpl; do 2 f_equal; lia|]). lia.
  - rewrite lookup_take_ge by lia. apply lookup_ge_None. simpl. lia.
Qed.

(** * Exclusive or of buffers *)

Lemma length_xor_bytes a b : length (xor_bytes a b) = (length a `min` length b)%nat.
Proof. apply length_zip_with. Qed.

Lemma xor_bytes_involutive a b :
  length a = length b -> xor_bytes (xor_bytes a b) b = a.
Proof.
  revert b. induction a as [|x a IH]; intros [|y b] Hlen; try done.
  simpl. f_equal; [|by apply IH; injection Hlen].
  by rewrite Z.lxor_assoc, Z.lxor_nilpotent, Z.lxor_0_r.
Qed.

Lemma xor_bytes_comm a b : xor_bytes a b = xor_bytes b a.
Proof.
  revert b. induction a as [|x a IH]; intros [|y b]; try done.
  simpl. by rewrite IH, Z.lxor_comm.
Qed.

Lemma bytes_xor_bytes a b : bytes a -> bytes b -> bytes (xor_bytes a b).
Proof.
  intros Ha Hb. revert b Hb. induction Ha as [|x a Hx Ha IH]; intros [|y b] Hb; try by constructor.
  inversion Hb; subst. constructor; [by apply is_u_lxor|by apply IH].
Qed.
#[export] Hint Resolve bytes_xor_bytes : word.

(** * Buffers *)

Lemma length_blit dst off src :
  (off + length src <= length dst)%nat -> length (blit dst off src) = length dst.
Proof. intros. unfold blit. rewrite !length_app, length_take, length_drop. lia. Qed.

Lemma bytes_blit dst off src : bytes dst -> bytes src -> bytes (blit dst off src).
Proof.
  intros. unfold blit. repeat apply Forall_app_2; auto using Forall_take, Forall_drop.
Qed.
#[export] Hint Resolve bytes_blit : word.
#[export] Hint Extern 1 (bytes (take _ _)) => apply Forall_take : word.
#[export] Hint Extern 1 (bytes (drop _ _)) => apply Forall_drop : word.
#[export] Hint Extern 1 (bytes (_ ++ _)) => apply Forall_app_2 : word.
#[export] Hint Extern 1 (bytes (replicate _ 0)) => by apply Forall_replicate : word.

(** Case analysis on the test of the outermost conditional of an equation. *)
Ltac outer_decide H :=
  match goal with |- (if decide ?P then _ else _) = _ => destruct (decide P) as [H|H] end.

Ltac outer_decide_in E H :=
  match type of E with
  | (if decide ?P then _ else _) = _ => destruct (decide P) as [H|H]
  | (if decide ?P then _ else _) <> _ => destruct (decide P) as [H|H]
  end.
