(* ===== verification/Lzf.v ===== *)
(** LZF block compression (src/crypto/lzf.c, lines 71-619).

    Pointers into the input and output blocks are offsets in [Z]; every read and write goes
    through a bounds check, and an access outside its block is a fault ([None]).  The hash table
    of positions is a finite map from slots to input offsets; an absent slot is a NULL entry.
    The configuration is the one the file selects: HLOG 13, ULTRA_FAST, INIT_HTAB, CHECK_INPUT,
    unaligned 16-bit compares, [rep movsb] copies.

    Shown: the compressor faults on no input of two bytes or more, stays inside its output
    block, and what it writes decompresses to its input; the decompressor faults on no
    non-empty input, whatever its bytes, and writes at most [out_len] bytes. *)

From S2P Require Import Prelude.

Definition HLOG : Z := 13.
Definition HSIZE : Z := Z.shiftl 1 HLOG.
Definition MAX_LIT : Z := Z.shiftl 1 5.
Definition MAX_OFF : Z := Z.shiftl 1 13.
Definition MAX_REF : Z := Z.shiftl 1 8 + Z.shiftl 1 3.

(** Checked read and write of a block. *)
Definition rd (l : list Z) (i : Z) : option Z :=
  if decide (0 <= i) then l !! Z.to_nat i else None.

Definition wr (l : list Z) (i v : Z) : option (list Z) :=
  if decide (0 <= i < Z.of_nat (length l)) then Some (<[Z.to_nat i := u8 v]> l) else None.

(** C's [!x] on an integer. *)
Definition notz (x : Z) : Z := if decide (x = 0) then 1 else 0.

(** * Compressor *)

Definition FRST (inp : list Z) (p : Z) : option Z :=
  a ← rd inp p; b ← rd inp (p + 1); Some (Z.lor (Z.shiftl a 8) b).

Definition NEXT (v : Z) (inp : list Z) (p : Z) : option Z :=
  c ← rd inp (p + 2); Some (u32 (Z.lor (Z.shiftl v 8) c)).

Definition IDX (h : Z) : Z := Z.land (u32 (Z.shiftr h (3 * 8 - HLOG) - h)) (HSIZE - 1).

(** The condition of the match branch.  [Some (Some ref)] is a match at [ref]. *)
Definition lzf_match (inp : list Z) (slot : option Z) (ip in_end : Z) : option (option Z) :=
  match slot with
  | None => Some None
  | Some ref =>
      if decide (ref < ip /\ ip - ref - 1 < MAX_OFF /\ ip + 4 < in_end /\ 0 < ref) then
        r0 ← rd inp ref; r1 ← rd inp (ref + 1); i0 ← rd inp ip; i1 ← rd inp (ip + 1);
        if decide (r0 = i0 /\ r1 = i1) then
          r2 ← rd inp (ref + 2); i2 ← rd inp (ip + 2);
          Some (if decide (r2 = i2) then Some ref else None)
        else Some None
      else Some None
  end.

(** [n] copies of "len++; if (ref [len] != ip [len]) break;".  The flag tells a break. *)
Fixpoint lzf_unrolled (inp : list Z) (ref ip : Z) (n : nat) (len : Z) : option (bool * Z) :=
  match n with
  | O => Some (false, len)
  | S n =>
      a ← rd inp (ref + (len + 1)); b ← rd inp (ip + (len + 1));
      if decide (a = b) then lzf_unrolled inp ref ip n (len + 1) else Some (true, len + 1)
  end.

(** "do len++; while (len < maxlen && ref[len] == ip[len]);" *)
Fixpoint lzf_scan (inp : list Z) (ref ip maxlen : Z) (fuel : nat) (len : Z) : option Z :=
  match fuel with
  | O => None
  | S fuel =>
      if decide (len + 1 < maxlen) then
        a ← rd inp (ref + (len + 1)); b ← rd inp (ip + (len + 1));
        if decide (a = b) then lzf_scan inp ref ip maxlen fuel (len + 1) else Some (len + 1)
      else Some (len + 1)
  end.

(** The length of the match, from [len = 2]; [MAX_REF] turns are enough for the scan. *)
Definition lzf_matchlen (inp : list Z) (ref ip maxlen : Z) : option Z :=
  if decide (maxlen > 16) then
    '(broke, len) ← lzf_unrolled inp ref ip 16 2;
    if (broke : bool) then Some len
    else lzf_scan inp ref ip maxlen (Z.to_nat MAX_REF) len
  else lzf_scan inp ref ip maxlen (Z.to_nat MAX_REF) 2.

(** The locals of [lzf_compress] that its loops change. *)
Record lzf_locals := mk_locals {
  l_ip : Z;
  l_op : Z;
  l_lit : Z;
  l_out : list Z;
  l_htab : gmap Z Z;
  l_hval : Z
}.

(** "lit++; *op++ = *ip++;" and the end of a run of MAX_LIT literals. *)
Definition lzf_put_literal (inp : list Z) (s : lzf_locals) : option lzf_locals :=
  b ← rd inp (l_ip s);
  out ← wr (l_out s) (l_op s) b;
  let lit := l_lit s + 1 in
  let op := l_op s + 1 in
  if decide (lit = MAX_LIT) then
    out ← wr out (op - lit - 1) (lit - 1);
    Some (mk_locals (l_ip s + 1) (op + 1) 0 out (l_htab s) (l_hval s))
  else Some (mk_locals (l_ip s + 1) op lit out (l_htab s) (l_hval s)).

(** The bytes of a back reference, stored at [op]. *)
Definition lzf_put_ref (out : list Z) (op off len : Z) : option (list Z * Z) :=
  '(out, op) ←
    (if decide (len < 7) then
       out ← wr out op (Z.shiftr off 8 + Z.shiftl len 5); Some (out, op + 1)
     else
       out ← wr out op (Z.shiftr off 8 + Z.shiftl 7 5);
       out ← wr out (op + 1) (len - 7); Some (out, op + 2));
  out ← wr out op off; Some (out, op + 1).

(** The match branch after its space test: the run is closed, the reference stored, and the
    next position hashed.  The flag tells that the loop is left by [break]. *)
Definition lzf_put_match (inp : list Z) (in_end ref : Z) (s : lzf_locals) :
    option (bool * lzf_locals) :=
  let ip := l_ip s in
  let off := ip - ref - 1 in
  let maxlen := Z.min MAX_REF (in_end - ip - 2) in
  out ← wr (l_out s) (l_op s - l_lit s - 1) (l_lit s - 1);
  let op := l_op s - notz (l_lit s) in
  len ← lzf_matchlen inp ref ip maxlen;
  let len := len - 2 in
  '(out, op) ← lzf_put_ref out op off len;
  let op := op + 1 in
  let ip := ip + 1 + (len + 1) in
  if decide (ip >= in_end - 2) then
    Some (true, mk_locals ip op 0 out (l_htab s) (l_hval s))
  else
    let ip := ip - 1 in
    h ← FRST inp ip;
    h ← NEXT h inp ip;
    Some (false, mk_locals (ip + 1) op 0 out (<[IDX h := ip]> (l_htab s)) h).

(** The main loop.  [Some None] is "return 0". *)
Fixpoint lzf_loop (inp : list Z) (in_end out_end : Z) (fuel : nat) (s : lzf_locals) :
    option (option lzf_locals) :=
  match fuel with
  | O => None
  | S fuel =>
      if decide (l_ip s < in_end - 2) then
        hval ← NEXT (l_hval s) inp (l_ip s);
        let ref := l_htab s !! IDX hval in
        let s := mk_locals (l_ip s) (l_op s) (l_lit s) (l_out s)
                   (<[IDX hval := l_ip s]> (l_htab s)) hval in
        m ← lzf_match inp ref (l_ip s) in_end;
        match m with
        | Some ref =>
            if decide (l_op s + 3 + 1 >= out_end /\ l_op s - notz (l_lit s) + 3 + 1 >= out_end)
            then Some None
            else
              '(stop, s) ← lzf_put_match inp in_end ref s;
              if (stop : bool) then Some (Some s) else lzf_loop inp in_end out_end fuel s
        | None =>
            if decide (l_op s >= out_end) then Some None
            else s ← lzf_put_literal inp s; lzf_loop inp in_end out_end fuel s
        end
      else Some (Some s)
  end.

(** "while (ip < in_end)": the last literals. *)
Fixpoint lzf_tail (inp : list Z) (in_end : Z) (fuel : nat) (s : lzf_locals) :
    option lzf_locals :=
  match fuel with
  | O => None
  | S fuel =>
      if decide (l_ip s < in_end) then
        s ← lzf_put_literal inp s; lzf_tail inp in_end fuel s
      else Some s
  end.

(** [lzf_compress(in_data, in_len, out_data, out_len, htab)] with [mem] the memory at [in_data]
    (the input is its first [in_len] bytes) and [out] the output block as it is on entry.  [None] is a fault, [Some None] the return value
    0, [Some (Some c)] the bytes stored, whose number is the return value.  Every turn of either
    loop advances [ip], so [in_len + 1] turns are enough.

    [htab] is the memory of the table on entry: what the allocator or an earlier block left there,
    as offsets from [in_data].  "memset (htab, 0, sizeof (htab))" clears its first slot only, since
    [htab] is a parameter and so a pointer. *)
Definition lzf_compress (htab : gmap Z Z) (mem : list Z) (in_len : nat) (out : list Z) :
    option (option (list Z)) :=
  let in_end := Z.of_nat in_len in
  let out_end := Z.of_nat (length out) in
  if decide (in_end = 0 \/ out_end = 0) then Some None
  else
    hval ← FRST mem 0;
    r ← lzf_loop mem in_end out_end (S in_len) (mk_locals 0 1 0 out (delete 0 htab) hval);
    match r with
    | None => Some None
    | Some s =>
        if decide (l_op s + 3 > out_end) then Some None
        else
          s ← lzf_tail mem in_end (S in_len) s;
          out ← wr (l_out s) (l_op s - l_lit s - 1) (l_lit s - 1);
          Some (Some (take (Z.to_nat (l_op s - notz (l_lit s))) out))
    end.

(** * Decompressor *)

Inductive lzf_errno := E2BIG | EINVAL.

(** [n] times "*op++ = *ref++", byte by byte: [ref] may run into what is being written. *)
Fixpoint lzf_copy (out : list Z) (ref : Z) (n : nat) : option (list Z) :=
  match n with
  | O => Some out
  | S n => b ← rd out ref; lzf_copy (out ++ [b]) (ref + 1) n
  end.

(** One turn of the decompressor's loop at [ip], [out] being the bytes written so far: the new
    [ip] and output, or an error return. *)
Definition lzf_decode_step (mem : list Z) (in_len : nat) (out_len : Z) (ip : Z) (out : list Z) :
    option ((Z * list Z) + lzf_errno) :=
  let in_end := Z.of_nat in_len in
  let op := Z.of_nat (length out) in
  ctrl ← rd mem ip;
  let ip := ip + 1 in
  if decide (ctrl < Z.shiftl 1 5) then
    let ctrl := ctrl + 1 in
    if decide (op + ctrl > out_len) then Some (inr E2BIG)
    else if decide (ip + ctrl > in_end) then Some (inr EINVAL)
    else Some (inl (ip + ctrl, out ++ take (Z.to_nat ctrl) (drop (Z.to_nat ip) mem)))
  else
    let len := Z.shiftr ctrl 5 in
    let ref := op - Z.shiftl (Z.land ctrl 31) 8 - 1 in
    if decide (ip >= in_end) then Some (inr EINVAL)
    else
      r ← (if decide (len = 7) then
             b ← rd mem ip;
             Some (if decide (ip + 1 >= in_end) then None else Some (len + b, ip + 1))
           else Some (Some (len, ip)));
      match r with
      | None => Some (inr EINVAL)
      | Some (len, ip) =>
          b ← rd mem ip;
          let ref := ref - b in
          let ip := ip + 1 in
          if decide (op + len + 2 > out_len) then Some (inr E2BIG)
          else if decide (ref < 0) then Some (inr EINVAL)
          else
            out ← lzf_copy out ref (Z.to_nat (len + 2));
            Some (inl (ip, out))
      end.

Fixpoint lzf_decode_loop (mem : list Z) (in_len : nat) (out_len : Z) (fuel : nat) (ip : Z)
    (out : list Z) : option (list Z + lzf_errno) :=
  match fuel with
  | O => None
  | S fuel =>
      r ← lzf_decode_step mem in_len out_len ip out;
      match r with
      | inr e => Some (inr e)
      | inl (ip, out) =>
          if decide (ip < Z.of_nat in_len)
          then lzf_decode_loop mem in_len out_len fuel ip out
          else Some (inl out)
      end
  end.

(** [lzf_decompress] of the first [in_len] bytes of [mem]: [None] is a fault, [inr] an error
    return, [inl out] the bytes written.  Every turn consumes input, so [in_len + 1] turns are
    enough. *)
Definition lzf_decompress (mem : list Z) (in_len : nat) (out_len : Z) :
    option (list Z + lzf_errno) :=
  lzf_decode_loop mem in_len out_len (S in_len) 0 [].

(** * Specification: sequences of complete LZF items

    [lzf_items o c o']: the bytes [c] are literal runs and back references which, decoded after
    the output [o], give the output [o']. *)

Definition lzf_ref_bytes (off len : Z) : list Z :=
  (if decide (len < 7) then [Z.shiftr off 8 + Z.shiftl len 5]
   else [Z.shiftr off 8 + Z.shiftl 7 5; len - 7]) ++ [off mod 256].

Inductive lzf_items : list Z -> list Z -> list Z -> Prop :=
| items_nil o : lzf_items o [] o
| items_lit o run c o' :
    (1 <= length run <= 32)%nat ->
    lzf_items (o ++ run) c o' ->
    lzf_items o ((Z.of_nat (length run) - 1) :: run ++ c) o'
| items_ref o off len o1 c o' :
    0 <= off < 8192 -> 1 <= len <= 262 -> off < Z.of_nat (length o) ->
    lzf_copy o (Z.of_nat (length o) - off - 1) (Z.to_nat (len + 2)) = Some o1 ->
    lzf_items o1 c o' ->
    lzf_items o (lzf_ref_bytes off len ++ c) o'.

Lemma lzf_items_app o c o1 c' o2 :
  lzf_items o c o1 -> lzf_items o1 c' o2 -> lzf_items o (c ++ c') o2.
Proof.
  induction 1; intros Hi; [done| |].
  - simpl. rewrite <- (assoc_L (++)). apply items_lit; auto.
  - rewrite <- (assoc_L (++)). eapply items_ref; eauto.
Qed.

(** * Lemmas on checked accesses *)

Lemma rd_Some l i : 0 <= i < Z.of_nat (length l) -> exists b, rd l i = Some b.
Proof.
  intros. unfold rd. rewrite decide_True by lia.
  apply lookup_lt_is_Some_2. lia.
Qed.

Lemma rd_inv l i b : rd l i = Some b -> 0 <= i < Z.of_nat (length l) /\ l !! Z.to_nat i = Some b.
Proof.
  unfold rd. case_decide; [|done]. intros Hl. split; [|done].
  apply lookup_lt_Some in Hl. lia.
Qed.

Lemma wr_Some l i v :
  0 <= i < Z.of_nat (length l) -> wr l i v = Some (<[Z.to_nat i := u8 v]> l).
Proof. intros. unfold wr. by rewrite decide_True. Qed.

Lemma rd_u8 l i b : bytes l -> rd l i = Some b -> is_u 8 b.
Proof. intros Hl [_ Hb]%rd_inv. by eapply (Forall_lookup_1 _ _ _ _ Hl). Qed.

(** Rewrites a checked access that is in range. *)
Ltac rd_in_range :=
  match goal with
  | |- context [rd ?l ?i] =>
      let b := fresh "b" in let Hb := fresh "Hb" in
      destruct (rd_Some l i) as [b Hb]; [lia|rewrite Hb; cbn [mbind option_bind]]
  end.

(** * The decompressor inverts the items *)

Lemma length_lzf_copy o r n o' : lzf_copy o r n = Some o' -> length o' = (length o + n)%nat.
Proof.
  revert o r. induction n as [|n IH]; intros o r; simpl.
  - intros [= ->]. lia.
  - destruct (rd o r); simpl; [|done]. intros ->%IH. rewrite length_app. simpl. lia.
Qed.

Lemma lzf_items_length o c o' : lzf_items o c o' -> (length o <= length o')%nat.
Proof.
  induction 1 as [| |o off len o1 c o' Ho Hl Hlt Hc Hi IH]; [lia| |].
  - rewrite length_app in *. lia.
  - apply length_lzf_copy in Hc. lia.
Qed.

Lemma rd_drop inp ip b c : 0 <= ip -> drop (Z.to_nat ip) inp = b :: c ->
  rd inp ip = Some b /\ drop (Z.to_nat (ip + 1)) inp = c /\
  Z.of_nat (length inp) = ip + 1 + Z.of_nat (length c).
Proof.
  intros Hip Hd. unfold rd. rewrite decide_True by done.
  pose proof (f_equal length Hd) as Hlen. rewrite length_drop in Hlen. simpl in Hlen.
  split; [|split; [|lia]].
  - rewrite <- (Nat.add_0_r (Z.to_nat ip)), <- lookup_drop, Hd. done.
  - replace (Z.to_nat (ip + 1)) with (Z.to_nat ip + 1)%nat by lia.
    rewrite <- drop_drop, Hd. done.
Qed.

Lemma lzf_step_lit inp out_len ip o run c :
  0 <= ip -> (1 <= length run <= 32)%nat ->
  drop (Z.to_nat ip) inp = (Z.of_nat (length run) - 1) :: run ++ c ->
  Z.of_nat (length o + length run) <= out_len ->
  lzf_decode_step inp (length inp) out_len ip o
    = Some (inl (ip + 1 + Z.of_nat (length run), o ++ run)).
Proof.
  intros Hip Hrun Hd Hol. destruct (rd_drop _ _ _ _ Hip Hd) as (Hb & Hd' & Hlen).
  rewrite length_app in Hlen. unfold lzf_decode_step. rewrite Hb. simpl.
  change (Z.shiftl 1 5) with 32. rewrite decide_True by lia.
  rewrite decide_False, decide_False by lia.
  rewrite Hd'. do 3 f_equal; [lia|]. f_equal.
  apply take_app_length'. lia.
Qed.

Lemma shiftl_add_bits hi len :
  0 <= hi < 32 -> 0 <= len ->
  Z.shiftr (hi + Z.shiftl len 5) 5 = len /\ Z.land (hi + Z.shiftl len 5) 31 = hi.
Proof.
  intros Hhi Hlen. rewrite Z.shiftl_mul_pow2, Z.shiftr_div_pow2 by lia.
  change 31 with (Z.ones 5). rewrite Z.land_ones by lia. change (2 ^ 5) with 32.
  split.
  - rewrite Z.div_add by lia. rewrite Z.div_small by lia. lia.
  - rewrite Z.mod_add by lia. apply Z.mod_small. lia.
Qed.

Lemma off_split off : 0 <= off < 8192 ->
  0 <= Z.shiftr off 8 < 32 /\ Z.shiftl (Z.shiftr off 8) 8 + off mod 256 = off.
Proof.
  intros. rewrite Z.shiftr_div_pow2, Z.shiftl_mul_pow2 by lia. change (2 ^ 8) with 256.
  pose proof (Z.div_mod off 256 ltac:(lia)).
  split; [|lia]. split; [apply Z.div_pos; lia|apply Z.div_lt_upper_bound; lia].
Qed.

Lemma lzf_step_ref inp out_len ip o off len o1 c :
  0 <= ip -> 0 <= off < 8192 -> 1 <= len <= 262 -> off < Z.of_nat (length o) ->
  lzf_copy o (Z.of_nat (length o) - off - 1) (Z.to_nat (len + 2)) = Some o1 ->
  drop (Z.to_nat ip) inp = lzf_ref_bytes off len ++ c ->
  Z.of_nat (length o1) <= out_len ->
  lzf_decode_step inp (length inp) out_len ip o
    = Some (inl (ip + Z.of_nat (length (lzf_ref_bytes off len)), o1)).
Proof.
  intros Hip Hoff Hlen Hol Hc Hd Hout.
  destruct (off_split off Hoff) as [Hhi Hsum].
  pose proof (length_lzf_copy _ _ _ _ Hc) as Ho1.
  unfold lzf_decode_step, lzf_ref_bytes in *.
  destruct (decide (len < 7)) as [Hs|Hs]; simpl in Hd |- *;
    destruct (rd_drop _ _ _ _ Hip Hd) as (Hb & Hd1 & Hn1); rewrite Hb; simpl;
    simpl in Hn1; rewrite ?length_app in Hn1; simpl in Hn1;
    [destruct (shiftl_add_bits (Z.shiftr off 8) len Hhi ltac:(lia)) as [-> ->]
    |destruct (shiftl_add_bits (Z.shiftr off 8) 7 Hhi ltac:(lia)) as [-> ->]];
    (rewrite decide_False
      by (change (Z.shiftl 1 5) with 32; rewrite ?Z.shiftl_mul_pow2 by lia; lia)).
  - rewrite decide_False, decide_False by lia. simpl.
    destruct (rd_drop inp (ip + 1) _ _ ltac:(lia) Hd1) as (Hb2 & Hd2 & Hn2). rewrite Hb2. simpl.
    rewrite decide_False, decide_False by lia.
    replace (Z.of_nat (length o) - Z.shiftl (Z.shiftr off 8) 8 - 1 - off mod 256)
      with (Z.of_nat (length o) - off - 1) by lia.
    rewrite Hc. simpl. do 3 f_equal. lia.
  - rewrite decide_False by lia.
    destruct (rd_drop inp (ip + 1) _ _ ltac:(lia) Hd1) as (Hb2 & Hd2 & Hn2). simpl in Hn2.
    rewrite decide_True by done. rewrite Hb2. simpl. rewrite decide_False by lia.
    destruct (rd_drop inp (ip + 1 + 1) _ _ ltac:(lia) Hd2) as (Hb3 & Hd3 & Hn3). rewrite Hb3. simpl.
    rewrite decide_False, decide_False by lia.
    replace (Z.of_nat (length o) - Z.shiftl (Z.shiftr off 8) 8 - 1 - off mod 256)
      with (Z.of_nat (length o) - off - 1) by lia.
    replace (7 + (len - 7) + 2) with (len + 2) by lia.
    rewrite Hc. simpl. do 3 f_equal. lia.
Qed.

Lemma lzf_ref_bytes_length off len : (2 <= length (lzf_ref_bytes off len))%nat.
Proof. unfold lzf_ref_bytes. destruct (decide (len < 7)); simpl; lia. Qed.

Lemma lzf_items_nil_inv o o' : lzf_items o [] o' -> o' = o.
Proof.
  intros Hi. remember [] as c0 eqn:Heq. destruct Hi as [| |o off len]; [done..|].
  apply (f_equal length) in Heq. rewrite length_app in Heq.
  pose proof (lzf_ref_bytes_length off len). simpl in Heq. lia.
Qed.

Lemma lzf_decode_items inp out_len o c o' fuel ip :
  lzf_items o c o' -> c <> [] -> 0 <= ip -> drop (Z.to_nat ip) inp = c ->
  Z.of_nat (length o') <= out_len -> (length c < fuel)%nat ->
  lzf_decode_loop inp (length inp) out_len fuel ip o = Some (inl o').
Proof.
  intros Hi. revert fuel ip.
  induction Hi as [o|o run c o' Hrun Hi IH|o off len o1 c o' Hoff Hlen Hlt Hc Hi IH];
    intros fuel ip Hne Hip Hd Hol Hf; [done| |].
  - pose proof (lzf_items_length _ _ _ Hi) as Hle. rewrite length_app in Hle.
    destruct fuel as [|fuel]; [lia|]. cbn [lzf_decode_loop].
    rewrite (lzf_step_lit inp out_len ip o run c) by (done || lia). simpl.
    pose proof (f_equal length Hd) as Hl. simpl in Hl, Hf.
    rewrite length_drop, length_app in Hl. rewrite length_app in Hf.
    destruct c as [|x c]; simpl in Hl.
    + apply lzf_items_nil_inv in Hi as ->. by rewrite decide_False by lia.
    + rewrite decide_True by lia. apply IH; try done; try lia; try (simpl in Hf |- *; lia).
      replace (Z.to_nat (ip + 1 + Z.of_nat (length run)))
        with (Z.to_nat ip + (1 + length run))%nat by lia.
      rewrite <- drop_drop, Hd. simpl. apply drop_app_length'. done.
  - pose proof (lzf_items_length _ _ _ Hi) as Hle.
    pose proof (lzf_ref_bytes_length off len) as Hrb.
    destruct fuel as [|fuel]; [lia|]. cbn [lzf_decode_loop].
    rewrite (lzf_step_ref inp out_len ip o off len o1 c) by (done || lia). simpl.
    pose proof (f_equal length Hd) as Hl.
    rewrite length_drop, length_app in Hl. rewrite length_app in Hf.
    destruct c as [|x c]; simpl in Hl.
    + apply lzf_items_nil_inv in Hi as ->. by rewrite decide_False by lia.
    + rewrite decide_True by lia. apply IH; try done; try lia; try (simpl in Hf |- *; lia).
      replace (Z.to_nat (ip + Z.of_nat (length (lzf_ref_bytes off len))))
        with (Z.to_nat ip + length (lzf_ref_bytes off len))%nat by lia.
      rewrite <- drop_drop, Hd. apply drop_app_length'. done.
Qed.

Lemma lzf_decompress_items c o out_len :
  lzf_items [] c o -> c <> [] -> Z.of_nat (length o) <= out_len ->
  lzf_decompress c (length c) out_len = Some (inl o).
Proof.
  intros Hi Hne Hol. unfold lzf_decompress.
  apply (lzf_decode_items c out_len [] c o); try done; lia.
Qed.

(** * The match search *)

(** The input agrees with itself at [ref] and [ip] for [n] bytes. *)
Definition agree (inp : list Z) (ref ip n : Z) : Prop :=
  forall k, 0 <= k < n -> rd inp (ref + k) = rd inp (ip + k).

Lemma agree_snoc inp ref ip n :
  agree inp ref ip n -> rd inp (ref + n) = rd inp (ip + n) -> agree inp ref ip (n + 1).
Proof. intros Ha He k Hk. destruct (decide (k = n)) as [->|]; [done|]. apply Ha. lia. Qed.

Lemma take_snoc_rd inp ip b :
  0 <= ip -> rd inp ip = Some b ->
  take (Z.to_nat ip) inp ++ [b] = take (Z.to_nat (ip + 1)) inp.
Proof.
  intros Hip [Hr Hl]%rd_inv. rewrite Z2Nat.inj_add, Nat.add_1_r by lia.
  symmetry. by apply take_S_r.
Qed.

(** Copying the match, byte by byte, extends the output by the matched input. *)
Lemma lzf_copy_agree inp n ref ip :
  0 <= ref < ip -> ip + Z.of_nat n <= Z.of_nat (length inp) -> agree inp ref ip (Z.of_nat n) ->
  lzf_copy (take (Z.to_nat ip) inp) ref n = Some (take (Z.to_nat (ip + Z.of_nat n)) inp).
Proof.
  revert ref ip. induction n as [|n IH]; intros ref ip Href Hn Ha; simpl.
  - do 2 f_equal. lia.
  - destruct (rd_Some inp ip) as [b Hb]; [lia|].
    assert (rd (take (Z.to_nat ip) inp) ref = Some b) as ->.
    { rewrite <- Hb. transitivity (rd inp ref).
      - unfold rd. case_decide; [|done]. apply lookup_take_lt. lia.
      - specialize (Ha 0 ltac:(lia)). by rewrite !Z.add_0_r in Ha. }
    simpl. rewrite (take_snoc_rd inp ip b) by (done || lia).
    rewrite IH; [do 2 f_equal; lia|lia|lia|].
    intros k Hk. specialize (Ha (k + 1) ltac:(lia)).
    by rewrite !(Z.add_comm k 1), !Z.add_assoc in Ha.
Qed.

Lemma lzf_scan_spec inp ref ip maxlen fuel len :
  0 <= len -> 0 <= ref < ip -> ip + maxlen <= Z.of_nat (length inp) ->
  agree inp ref ip (len + 1) -> maxlen - len <= Z.of_nat fuel -> (1 <= fuel)%nat ->
  exists n, lzf_scan inp ref ip maxlen fuel len = Some n /\ agree inp ref ip n /\
    len + 1 <= n <= Z.max (len + 1) maxlen.
Proof.
  revert len. induction fuel as [|fuel IH]; intros len Hl0 Href Hm Ha Hf Hf1; [lia|].
  simpl. case_decide as Hlt; [|exists (len + 1); auto with lia].
  destruct (rd_Some inp (ref + (len + 1))) as [a Hra]; [lia|].
  destruct (rd_Some inp (ip + (len + 1))) as [b Hrb]; [lia|].
  rewrite Hra, Hrb. simpl. case_decide as Heq; [|exists (len + 1); auto with lia].
  destruct (IH (len + 1)) as (n & -> & Hn & Hr); try lia.
  - apply agree_snoc; [done|]. congruence.
  - exists n. auto with lia.
Qed.

Lemma lzf_unrolled_spec inp ref ip n len :
  0 <= len -> 0 <= ref < ip -> ip + len + Z.of_nat n < Z.of_nat (length inp) ->
  agree inp ref ip (len + 1) ->
  exists broke m, lzf_unrolled inp ref ip n len = Some (broke, m) /\
    if (broke : bool) then agree inp ref ip m /\ len + 1 <= m <= len + Z.of_nat n
    else agree inp ref ip (m + 1) /\ m = len + Z.of_nat n.
Proof.
  revert len. induction n as [|n IH]; intros len Hl0 Href Hn Ha; simpl.
  - exists false, len. auto with lia.
  - destruct (rd_Some inp (ref + (len + 1))) as [a Hra]; [lia|].
    destruct (rd_Some inp (ip + (len + 1))) as [b Hrb]; [lia|].
    rewrite Hra, Hrb. simpl. case_decide as Heq; [|exists true, (len + 1); auto with lia].
    destruct (IH (len + 1)) as (broke & m & -> & Hm); try lia.
    + apply agree_snoc; [done|]. congruence.
    + exists broke, m. split; [done|]. destruct broke; destruct Hm; auto with lia.
Qed.

Lemma lzf_matchlen_spec inp ref ip :
  0 < ref < ip -> ip + 4 < Z.of_nat (length inp) -> agree inp ref ip 3 ->
  exists n, lzf_matchlen inp ref ip (Z.min MAX_REF (Z.of_nat (length inp) - ip - 2)) = Some n /\
    agree inp ref ip n /\ 3 <= n <= 264 /\ ip + n <= Z.of_nat (length inp).
Proof.
  intros Href Hip Ha. unfold lzf_matchlen. change MAX_REF with 264.
  set (maxlen := Z.min 264 _).
  assert (maxlen <= 264 /\ maxlen <= Z.of_nat (length inp) - ip - 2) as [Hm1 Hm2] by lia.
  case_decide as H16.
  - destruct (lzf_unrolled_spec inp ref ip 16 2) as (broke & m & -> & Hm); try lia; [done|].
    cbn [mbind option_bind]. destruct broke.
    + exists m. destruct Hm. auto with lia.
    + destruct Hm as [Hag Hm]. assert (m = 18) as -> by lia.
      destruct (lzf_scan_spec inp ref ip maxlen (Z.to_nat 264) 18) as (n & -> & Hn & Hr);
        try lia; [done|]. exists n. auto with lia.
  - destruct (lzf_scan_spec inp ref ip maxlen (Z.to_nat 264) 2) as (n & -> & Hn & Hr);
      try lia; [done|]. exists n. auto with lia.
Qed.

Lemma lzf_match_spec inp slot ip :
  0 <= ip ->
  exists m, lzf_match inp slot ip (Z.of_nat (length inp)) = Some m /\
    forall ref, m = Some ref ->
      0 < ref < ip /\ ip - ref - 1 < 8192 /\ ip + 4 < Z.of_nat (length inp) /\
      agree inp ref ip 3.
Proof.
  intros Hip. unfold lzf_match. destruct slot as [ref|]; [|by exists None].
  case_decide as Hc; [|by exists None]. destruct Hc as (H1 & H2 & H3 & H4).
  destruct (rd_Some inp ref) as [r0 Er0]; [lia|]. destruct (rd_Some inp (ref + 1)) as [r1 Er1]; [lia|].
  destruct (rd_Some inp ip) as [i0 Ei0]; [lia|]. destruct (rd_Some inp (ip + 1)) as [i1 Ei1]; [lia|].
  destruct (rd_Some inp (ref + 2)) as [r2 Er2]; [lia|]. destruct (rd_Some inp (ip + 2)) as [i2 Ei2]; [lia|].
  rewrite Er0, Er1, Ei0, Ei1, Er2, Ei2. simpl.
  case_decide as H01; [|by exists None]. destruct H01 as [E0 E1].
  case_decide as E2; [|by exists None].
  exists (Some ref). split; [done|]. intros ? [= <-].
  change MAX_OFF with 8192 in H2. split_and!; try lia.
  intros k Hk. assert (k = 0 \/ k = 1 \/ k = 2) as [->|[->| ->]] by lia;
    rewrite ?Z.add_0_r; congruence.
Qed.

(** * The compressor's invariant

    Before the pending run, the output holds complete items that decode to the input before
    [ip - lit]; the control byte of the run is at [op - lit - 1], and its [lit] literals are
    the input bytes before [ip]. *)
Definition lzf_run (inp : list Z) (s : lzf_locals) : Prop :=
  0 <= l_lit s <= l_ip s /\ l_ip s <= Z.of_nat (length inp) /\
  1 <= l_op s - l_lit s /\ l_op s <= Z.of_nat (length (l_out s)) + 1 /\
  lzf_items [] (take (Z.to_nat (l_op s - l_lit s - 1)) (l_out s))
    (take (Z.to_nat (l_ip s - l_lit s)) inp) /\
  take (Z.to_nat (l_lit s)) (drop (Z.to_nat (l_op s - l_lit s)) (l_out s))
    = take (Z.to_nat (l_lit s)) (drop (Z.to_nat (l_ip s - l_lit s)) inp).

Lemma take_insert_split (out : list Z) a n v :
  (a + 1 + n <= length out)%nat ->
  take (a + 1 + n) (<[a := v]> out) = take a out ++ v :: take n (drop (a + 1) out).
Proof.
  intros. rewrite insert_take_drop by lia.
  rewrite take_app, length_take, take_take.
  replace ((a + 1 + n) `min` a)%nat with a by lia. f_equal.
  replace (a + 1 + n - a `min` length out)%nat with (S n) by lia. simpl.
  by rewrite ?Nat.add_1_r.
Qed.

(** Closing the run leaves complete items only. *)
Lemma lzf_stop_run inp s :
  lzf_run inp s -> l_lit s <= 32 ->
  l_op s - notz (l_lit s) <= Z.of_nat (length (l_out s)) ->
  l_op s - l_lit s - 1 < Z.of_nat (length (l_out s)) ->
  exists out, wr (l_out s) (l_op s - l_lit s - 1) (l_lit s - 1) = Some out /\
    length out = length (l_out s) /\
    lzf_items [] (take (Z.to_nat (l_op s - notz (l_lit s))) out) (take (Z.to_nat (l_ip s)) inp).
Proof.
  destruct s as [ip op lit out htab hval].
  unfold lzf_run, notz; simpl. intros (H0 & H1 & H2 & H3 & Hi & Hl) H32 Hop Hw.
  rewrite wr_Some by lia. eexists. split; [done|]. split; [by rewrite length_insert|].
  case_decide as Hz.
  - subst. rewrite take_insert_ge by lia.
    by rewrite !Z.sub_0_r in Hi.
  - replace (Z.to_nat (op - 0))
      with (Z.to_nat (op - lit - 1) + 1 + Z.to_nat lit)%nat by lia.
    rewrite take_insert_split by lia.
    replace (Z.to_nat (op - lit - 1) + 1)%nat with (Z.to_nat (op - lit)) by lia.
    rewrite Hl. eapply lzf_items_app; [done|].
    set (run := take (Z.to_nat lit) (drop (Z.to_nat (ip - lit)) inp)).
    assert (length run = Z.to_nat lit) as Hrun.
    { unfold run. rewrite length_take, length_drop. lia. }
    replace (u8 (lit - 1)) with (Z.of_nat (length run) - 1)
      by (rewrite u8_id; [lia|unfold is_u; lia]).
    rewrite <- (app_nil_r run) at 2. apply items_lit; [lia|].
    replace (take (Z.to_nat ip) inp) with (take (Z.to_nat (ip - lit)) inp ++ run);
      [constructor|].
    unfold run. rewrite take_take_drop. f_equal. lia.
Qed.

(** One literal: [lit], [op] and [ip] advance, and a run of MAX_LIT is closed. *)
Lemma lzf_put_literal_spec inp s :
  bytes inp -> lzf_run inp s -> l_lit s < 32 ->
  l_op s < Z.of_nat (length (l_out s)) -> l_ip s < Z.of_nat (length inp) ->
  exists s', lzf_put_literal inp s = Some s' /\ lzf_run inp s' /\
    l_ip s' = l_ip s + 1 /\ length (l_out s') = length (l_out s) /\
    (l_lit s + 1 = 32 /\ l_lit s' = 0 /\ l_op s' = l_op s + 2 \/
     l_lit s + 1 < 32 /\ l_lit s' = l_lit s + 1 /\ l_op s' = l_op s + 1).
Proof.
  destruct s as [ip op lit out htab hval]. unfold lzf_put_literal; simpl.
  intros Hb Hs Hlit Hop Hip. pose proof Hs as (H0 & H1 & H2 & H3 & Hi & Hl). simpl in *.
  destruct (rd_Some inp ip) as [b Hrd]; [lia|]. rewrite Hrd; simpl.
  rewrite wr_Some by lia; simpl.
  pose proof (rd_u8 _ _ _ Hb Hrd) as Hu. rewrite (u8_id b Hu).
  set (out' := <[Z.to_nat op := b]> out).
  assert (length out' = length out) as Hlen by apply length_insert.
  assert (lzf_run inp (mk_locals (ip + 1) (op + 1) (lit + 1) out' htab hval)) as Hrun.
  { unfold lzf_run; simpl. split_and!; try lia.
    - replace (op + 1 - (lit + 1) - 1) with (op - lit - 1) by lia.
      replace (ip + 1 - (lit + 1)) with (ip - lit) by lia.
      unfold out'. by rewrite take_insert_ge by lia.
    - replace (op + 1 - (lit + 1)) with (op - lit) by lia.
      replace (ip + 1 - (lit + 1)) with (ip - lit) by lia.
      replace (Z.to_nat (lit + 1)) with (S (Z.to_nat lit)) by lia.
      rewrite (take_S_r _ _ b), (take_S_r (drop _ inp) _ b).
      + f_equal. rewrite <- Hl. unfold out'. rewrite drop_insert_ge by lia.
        apply take_insert_ge. lia.
      + rewrite lookup_drop. apply rd_inv in Hrd as [_ <-]. f_equal. lia.
      + rewrite lookup_drop. unfold out'.
        replace (Z.to_nat (op - lit) + Z.to_nat lit)%nat with (Z.to_nat op) by lia.
        apply list_lookup_insert_eq. lia. }
  change MAX_LIT with 32. case_decide as Hm.
  - destruct (lzf_stop_run _ _ Hrun) as (out2 & Hw & Hlen2 & Hi2); simpl in *.
    + lia.
    + unfold notz. case_decide; lia.
    + lia.
    + rewrite Hw; simpl. eexists. split; [done|]. simpl. split; [|auto with lia].
      unfold lzf_run; simpl. rewrite Hm in Hi2. unfold notz in Hi2. simpl in Hi2.
      rewrite !Z.sub_0_r in *. replace (op + 1 + 1 - 1) with (op + 1) by lia.
      split_and!; try lia; done.
  - eexists. split; [done|]. simpl. auto 10 with lia.
Qed.

Lemma take_insert_snoc (l : list Z) i v :
  (i < length l)%nat -> take (S i) (<[i := v]> l) = take i l ++ [v].
Proof.
  intros. rewrite (take_S_r _ _ v) by (by apply list_lookup_insert_eq).
  by rewrite take_insert_ge by lia.
Qed.

(** Storing a byte at [op] extends the output by it. *)
Lemma wr_snoc out op v :
  0 <= op < Z.of_nat (length out) ->
  exists out', wr out op v = Some out' /\ length out' = length out /\
    take (Z.to_nat (op + 1)) out' = take (Z.to_nat op) out ++ [u8 v].
Proof.
  intros. rewrite wr_Some by lia. eexists. split; [done|].
  split; [apply length_insert|].
  replace (Z.to_nat (op + 1)) with (S (Z.to_nat op)) by lia.
  apply take_insert_snoc. lia.
Qed.

Lemma lzf_put_ref_spec out op off len :
  0 <= off < 8192 -> 1 <= len <= 262 -> 0 <= op -> op + 3 <= Z.of_nat (length out) ->
  exists out' op', lzf_put_ref out op off len = Some (out', op') /\
    length out' = length out /\ op < op' <= op + 3 /\ op' <= op + len + 1 /\
    take (Z.to_nat op') out' = take (Z.to_nat op) out ++ lzf_ref_bytes off len.
Proof.
  intros Hoff Hlen Hop Hspace. destruct (off_split off Hoff) as [Hhi _].
  unfold lzf_put_ref, lzf_ref_bytes.
  assert (forall x, 0 <= x <= 7 -> Z.shiftl x 5 = x * 32) as Hsh
    by (intros; by rewrite Z.shiftl_mul_pow2).
  case_decide as H7; simpl.
  - destruct (wr_snoc out op (Z.shiftr off 8 + Z.shiftl len 5)) as (o1 & -> & L1 & T1); [lia|].
    simpl. destruct (wr_snoc o1 (op + 1) off) as (o2 & -> & L2 & T2); [lia|].
    simpl. exists o2, (op + 1 + 1). split_and!; try congruence; try lia.
    rewrite T2, T1, u8_id by (unfold is_u; rewrite Hsh by lia; lia).
    by rewrite <- (assoc_L (++)).
  - destruct (wr_snoc out op (Z.shiftr off 8 + Z.shiftl 7 5)) as (o1 & -> & L1 & T1); [lia|].
    simpl. destruct (wr_snoc o1 (op + 1) (len - 7)) as (o2 & -> & L2 & T2); [lia|].
    simpl. destruct (wr_snoc o2 (op + 2) off) as (o3 & -> & L3 & T3); [lia|].
    simpl. exists o3, (op + 2 + 1). split_and!; try congruence; try lia.
    replace (op + 1 + 1) with (op + 2) in T2 by lia.
    rewrite T3, T2, T1, !(u8_id (len - 7)) by (unfold is_u; lia).
    rewrite u8_id by (unfold is_u; rewrite Hsh by lia; lia).
    by rewrite <- !(assoc_L (++)).
Qed.

(** The match branch keeps the invariant, with an empty run, and advances [ip]. *)
Lemma lzf_put_match_spec inp ref s :
  lzf_run inp s -> l_lit s < 32 ->
  0 < ref < l_ip s -> l_ip s - ref - 1 < 8192 -> l_ip s + 4 < Z.of_nat (length inp) ->
  agree inp ref (l_ip s) 3 ->
  l_op s - notz (l_lit s) + 3 + 1 < Z.of_nat (length (l_out s)) ->
  exists stop s', lzf_put_match inp (Z.of_nat (length inp)) ref s = Some (stop, s') /\
    lzf_run inp s' /\ l_lit s' = 0 /\ l_ip s < l_ip s' /\
    length (l_out s') = length (l_out s) /\
    l_op s' <= l_op s - notz (l_lit s) + (l_ip s' - l_ip s) /\
    (stop = true -> Z.of_nat (length inp) - 2 <= l_ip s').
Proof.
  intros Hs Hlit Href Hoff Hip Ha Hspace. pose proof Hs as (H0 & H1 & H2 & H3 & _ & _).
  assert (0 <= notz (l_lit s) <= 1) as Hnz by (unfold notz; case_decide; lia).
  assert (l_lit s = 0 \/ notz (l_lit s) = 0) as Hnz' by (unfold notz; case_decide; lia).
  destruct (lzf_stop_run inp s Hs) as (out & Hw & Hlen & Hi); try lia.
  unfold lzf_put_match. rewrite Hw. cbn [mbind option_bind].
  destruct (lzf_matchlen_spec inp ref (l_ip s)) as (n & -> & Hag & Hn & Hnl); try (done || lia).
  cbn [mbind option_bind].
  destruct (lzf_put_ref_spec out (l_op s - notz (l_lit s)) (l_ip s - ref - 1) (n - 2))
    as (out' & op' & -> & Hlen' & Hop' & Hsz & Ht); try lia.
  cbn [mbind option_bind].
  assert (forall htab h, lzf_run inp (mk_locals (l_ip s + n) (op' + 1) 0 out' htab h)) as Hrun.
  { intros htab h. unfold lzf_run; cbn [l_lit l_ip l_op l_out].
    rewrite !Z.sub_0_r. replace (op' + 1 - 1) with op' by lia.
    split_and!; try lia; [|done].
    rewrite Ht. eapply lzf_items_app; [exact Hi|].
    rewrite <- (app_nil_r (lzf_ref_bytes _ _)).
    assert (length (take (Z.to_nat (l_ip s)) inp) = Z.to_nat (l_ip s)) as Hti
      by (rewrite length_take; lia).
    eapply items_ref; [lia|lia|rewrite Hti; lia| |constructor].
    rewrite Hti. replace (Z.of_nat (Z.to_nat (l_ip s)) - (l_ip s - ref - 1) - 1) with ref by lia.
    rewrite lzf_copy_agree; try lia.
    - do 2 f_equal. lia.
    - replace (Z.of_nat (Z.to_nat (n - 2 + 2))) with n by lia. done. }
  replace (l_ip s + 1 + (n - 2 + 1)) with (l_ip s + n) by lia.
  case_decide as Hend.
  - eexists _, _. split; [done|]. cbn [l_lit l_ip l_op l_out].
    split; [apply Hrun|]. split_and!; try congruence; try done; lia.
  - unfold FRST, NEXT. do 3 rd_in_range.
    eexists _, _. split; [done|]. cbn [l_lit l_ip l_op l_out].
    replace (l_ip s + n - 1 + 1) with (l_ip s + n) by lia.
    split; [apply Hrun|]. split_and!; try congruence; try done; lia.
Qed.

(** The output stays below 33/32 of the input consumed. *)
Definition lzf_size (s : lzf_locals) : Prop :=
  32 * (l_op s - l_lit s - 1) <= 33 * (l_ip s - l_lit s).

Definition lzf_fits (inp : list Z) (out_len : Z) : Prop :=
  33 * Z.of_nat (length inp) + 128 <= 32 * out_len.

Lemma lzf_loop_spec inp out_len fuel s :
  bytes inp -> lzf_run inp s -> l_lit s < 32 -> Z.of_nat (length (l_out s)) = out_len ->
  Z.of_nat (length inp) - l_ip s < Z.of_nat fuel ->
  exists r, lzf_loop inp (Z.of_nat (length inp)) out_len fuel s = Some r /\
    (forall s', r = Some s' -> lzf_run inp s' /\ l_lit s' < 32 /\
      Z.of_nat (length inp) - 2 <= l_ip s' /\ Z.of_nat (length (l_out s')) = out_len) /\
    (lzf_fits inp out_len -> lzf_size s -> exists s', r = Some s' /\ lzf_size s').
Proof.
  intros Hb. revert s. induction fuel as [|fuel IH]; intros s Hs Hlit Hlen Hf.
  { destruct Hs as (H0 & H1 & _). lia. }
  cbn [lzf_loop]. case_decide as Hip.
  2:{ eexists. split; [done|]. split; [intros s' [= <-]; auto with lia|by eauto]. }
  pose proof Hs as (H0 & H1 & H2 & H3 & Hi & Hl).
  unfold NEXT. rd_in_range.
  set (h := u32 _). cbn [l_lit l_ip l_op l_out]. set (s1 := mk_locals _ _ _ _ _ h).
  assert (lzf_run inp s1) as Hs1 by done.
  destruct (lzf_match_spec inp (l_htab s !! IDX h) (l_ip s)) as (m & -> & Hm); [lia|].
  cbn [mbind option_bind]. destruct m as [ref|].
  - destruct (Hm ref eq_refl) as (Hr1 & Hr2 & Hr3 & Hr4).
    case_decide as Hsp.
    { exists None. split; [done|]. split; [done|]. unfold lzf_fits, lzf_size. lia. }
    assert (l_op s - notz (l_lit s) + 3 + 1 < out_len /\
      (l_lit s = 0 /\ notz (l_lit s) = 1 \/ 0 < l_lit s /\ notz (l_lit s) = 0)) as [Hsp' Hnz]
      by (unfold notz in *; case_decide; lia).
    destruct (lzf_put_match_spec inp ref s1)
      as (stop & s2 & -> & Hs2 & Hz & Hlt & Hlen2 & Hsz & Hst); try done; try (simpl; lia).
    simpl in Hlt, Hlen2, Hsz. cbn [mbind option_bind].
    assert (lzf_size s -> lzf_size s2) as Hsize by (unfold lzf_size; lia).
    destruct stop.
    + eexists. split; [done|]. split; [intros s' [= <-]; auto with lia|by eauto].
    + destruct (IH s2) as (r & -> & Hr & Hr'); try done; try lia. eauto 10.
  - case_decide as Hsp.
    { exists None. split; [done|]. split; [done|]. unfold lzf_fits, lzf_size. lia. }
    destruct (lzf_put_literal_spec inp s1) as (s2 & -> & Hs2 & Hip2 & Hlen2 & Hc);
      try done; try (cbn [l_lit l_ip l_op l_out s1] in *; lia).
    simpl in Hip2, Hlen2, Hc. cbn [mbind option_bind].
    assert (lzf_size s -> lzf_size s2) as Hsize by (unfold lzf_size; lia).
    destruct (IH s2) as (r & -> & Hr & Hr'); try done; try lia. eauto 10.
Qed.

(** The last loop stores at most two literals, and at most one of them closes a run: three
    bytes are enough. *)
Lemma lzf_tail_spec inp fuel s :
  bytes inp -> lzf_run inp s -> l_lit s < 32 ->
  Z.of_nat (length inp) - 2 <= l_ip s -> l_op s + 3 <= Z.of_nat (length (l_out s)) ->
  (2 < fuel)%nat ->
  exists s', lzf_tail inp (Z.of_nat (length inp)) fuel s = Some s' /\ lzf_run inp s' /\
    l_lit s' < 32 /\ l_ip s' = Z.of_nat (length inp) /\
    length (l_out s') = length (l_out s) /\ l_op s' <= Z.of_nat (length (l_out s')).
Proof.
  intros Hb Hs Hlit Hip Hop Hf.
  destruct fuel as [|[|[|fuel]]]; try lia. cbn [lzf_tail].
  pose proof Hs as (_ & Hle & _). case_decide as H1; [|exists s; split_and!; auto with lia].
  destruct (lzf_put_literal_spec inp s) as (s1 & -> & Hs1 & Hip1 & Hlen1 & Hc1);
    try done; try lia. cbn [mbind option_bind].
  case_decide as H2; [|exists s1; split_and!; auto with lia; try congruence; lia].
  destruct (lzf_put_literal_spec inp s1) as (s2 & -> & Hs2 & Hip2 & Hlen2 & Hc2);
    try done; try lia. cbn [mbind option_bind].
  rewrite decide_False by lia. exists s2. split_and!; auto with lia; try congruence; lia.
Qed.

(** What [lzf_compress] computes, in one statement. *)
Lemma lzf_compress_spec htab inp out :
  bytes inp -> length inp <> 1%nat ->
  exists r, lzf_compress htab inp (length inp) out = Some r /\
    (forall c, r = Some c ->
       lzf_items [] c inp /\ (0 < length c <= length out)%nat) /\
    (inp <> [] -> lzf_fits inp (Z.of_nat (length out)) -> exists c, r = Some c).
Proof.
  intros Hb Hlen. unfold lzf_compress.
  case_decide as H0.
  { exists None. split; [done|]. split; [done|]. unfold lzf_fits.
    destruct H0 as [H0|H0]; [destruct inp; [done|simpl in H0; lia]|lia]. }
  unfold FRST. do 2 rd_in_range. set (h0 := Z.lor _ _).
  destruct (lzf_loop_spec inp (Z.of_nat (length out)) (S (length inp))
    (mk_locals 0 1 0 out (delete 0 htab) h0)) as (r & -> & Hr & Hfit);
    try done; try (simpl; lia).
  { unfold lzf_run; simpl. split_and!; try lia; try done. constructor. }
  cbn [mbind option_bind].
  destruct r as [s|]; cycle 1.
  { exists None. split; [done|]. split; [done|]. intros _ Hf.
    destruct (Hfit Hf) as (? & ? & _); done. }
  destruct (Hr s eq_refl) as (Hs & Hlit & Hip & Hol).
  case_decide as Hsp.
  { exists None. split; [done|]. split; [done|]. intros _ Hf.
    destruct (Hfit Hf) as (? & [= <-] & Hsize); [done|].
    unfold lzf_fits, lzf_size in *. destruct Hs. lia. }
  destruct (lzf_tail_spec inp (S (length inp)) s) as (s' & -> & Hs' & Hlit' & Hip' & Hlen' & Hop');
    try done; try lia.
  cbn [mbind option_bind]. pose proof Hs' as (E0 & E1 & E2 & E3 & _).
  assert (l_lit s' = 0 /\ notz (l_lit s') = 1 \/ 0 < l_lit s' /\ notz (l_lit s') = 0) as Hnz
    by (unfold notz; case_decide; lia).
  destruct (lzf_stop_run inp s' Hs') as (out' & -> & Hlo & Hi); try lia.
  cbn [mbind option_bind]. eexists. split; [done|]. split; [|by eauto].
  intros c [= <-]. rewrite Hip', Nat2Z.id, (take_ge inp) in Hi by lia. split; [done|].
  assert (0 < length (take (Z.to_nat (l_op s' - notz (l_lit s'))) out'))%nat as Hpos.
  { destruct (take _ out') eqn:E; [|simpl; lia].
    apply lzf_items_nil_inv in Hi. destruct H0. left. by rewrite Hi. }
  split; [done|]. rewrite length_take. lia.
Qed.

(** * Properties *)

(** C34: whatever [lzf_compress] stores for an input block is decompressed by [lzf_decompress],
    given room for the original length, to exactly that input, whatever the table of positions
    held on entry. *)
Theorem lzf_roundtrip htab inp out c out_len :
  bytes inp -> lzf_compress htab inp (length inp) out = Some (Some c) -> Z.of_nat (length inp) <= out_len ->
  lzf_decompress c (length c) out_len = Some (inl inp).
Proof.
  intros Hb Hc Hol.
  assert (length inp <> 1%nat) as Hl.
  { intros Hl. destruct inp as [|x [|y inp]]; try done. unfold lzf_compress, FRST in Hc.
    case_decide; [done|]. by unfold rd in Hc. }
  destruct (lzf_compress_spec htab inp out Hb Hl) as (r & Hr & Hspec & _).
  rewrite Hr in Hc. injection Hc as ->. destruct (Hspec c eq_refl) as [Hi Hpos].
  apply lzf_decompress_items; try done. intros ->. simpl in Hpos. lia.
Qed.

Lemma lzf_roundtrip_witness :
  exists c, lzf_compress ∅ (replicate 40 7) 40 (replicate 40 0) = Some (Some c) /\
    lzf_decompress c (length c) 40 = Some (inl (replicate 40 7)).
Proof.
  eexists. split; [vm_compute; reflexivity|].
  apply (lzf_roundtrip ∅ (replicate 40 7) (replicate 40 0)).
  - by apply Forall_replicate.
  - vm_compute. reflexivity.
  - vm_compute. discriminate.
Defined.

(** On an input of any length but one, [lzf_compress] terminates, reads and writes only
    inside its two blocks, and either returns 0 or a positive length within [out_len]. *)
Theorem lzf_compress_safe htab inp out :
  bytes inp -> length inp <> 1%nat ->
  exists r, lzf_compress htab inp (length inp) out = Some r /\
    forall c, r = Some c -> (0 < length c <= length out)%nat.
Proof.
  intros Hb Hl. destruct (lzf_compress_spec htab inp out Hb Hl) as (r & Hr & Hspec & _).
  exists r. split; [done|]. intros c Hc. by apply Hspec.
Qed.

Lemma lzf_compress_safe_witness :
  exists r, lzf_compress ∅ [1; 2; 3; 1; 2; 3; 1; 2; 3] 9 (replicate 12 0) = Some r /\
    forall c, r = Some c -> (0 < length c <= length (replicate 12 0%Z))%nat.
Proof.
  apply (lzf_compress_safe ∅ [1; 2; 3; 1; 2; 3; 1; 2; 3] (replicate 12 0)); [|done].
  repeat (apply Forall_cons_2; [by vm_compute|]). apply Forall_nil_2.
Defined.

(** C39: with an output block of 33/32 of the input plus four bytes, [lzf_compress] does not
    give up: it stores an encoding of the input. *)
Theorem lzf_compress_succeeds htab inp out :
  bytes inp -> (2 <= length inp)%nat ->
  33 * Z.of_nat (length inp) + 128 <= 32 * Z.of_nat (length out) ->
  exists c, lzf_compress htab inp (length inp) out = Some (Some c).
Proof.
  intros Hb Hl Hfit.
  destruct (lzf_compress_spec htab inp out Hb) as (r & Hr & _ & Hs); [lia|].
  destruct Hs as [c ->]; [intros ->; simpl in Hl; lia|done|]. by exists c.
Qed.

Lemma lzf_compress_succeeds_witness :
  exists c, lzf_compress ∅ [9; 8; 7] 3 (replicate 8 0) = Some (Some c).
Proof.
  apply (lzf_compress_succeeds ∅ [9; 8; 7] (replicate 8 0)); [|simpl; lia|simpl; lia].
  repeat (apply Forall_cons_2; [by vm_compute|]). apply Forall_nil_2.
Defined.

(** An input of one byte makes [FRST] read the byte after it: a fault when the memory ends
    there. *)
Theorem lzf_compress_one_byte_overread htab b o out : lzf_compress htab [b] 1 (o :: out) = None.
Proof. unfold lzf_compress, FRST. rewrite decide_False by (simpl; lia). done. Qed.

(** What the table held on entry changes the encoding: the position found in a slot that was
    never cleared passes the tests of a match. *)
Theorem lzf_compress_depends_on_htab :
  let inp := [9; 7; 7; 7; 7; 7; 7; 7; 8; 5; 1; 2; 3; 7; 7; 8; 5; 4; 4; 4; 4] in
  let stale := {[IDX 0x70708 := 6]} : gmap Z Z in
  lzf_compress stale inp 21 (replicate 40 0) <> lzf_compress ∅ inp 21 (replicate 40 0).
Proof. vm_compute. discriminate. Qed.

Lemma lzf_copy_Some out ref n :
  0 <= ref < Z.of_nat (length out) -> exists out', lzf_copy out ref n = Some out'.
Proof.
  revert out ref. induction n as [|n IH]; intros out ref Hr; simpl; [by eauto|].
  rd_in_range. apply IH. rewrite length_app. simpl. lia.
Qed.

(** Closes a branch that returns an error code. *)
Ltac error_return := eexists; split; [reflexivity|discriminate].

(** One turn of the decompressor, on any bytes. *)
Lemma lzf_decode_step_safe inp out_len ip out :
  bytes inp -> 0 <= ip < Z.of_nat (length inp) ->
  exists r, lzf_decode_step inp (length inp) out_len ip out = Some r /\
    forall ip' out', r = inl (ip', out') ->
      ip < ip' /\ Z.of_nat (length out') <= out_len.
Proof.
  intros Hb Hip. unfold lzf_decode_step.
  destruct (rd_Some inp ip) as [ctrl Hc]; [done|]. rewrite Hc. cbn [mbind option_bind].
  pose proof (rd_u8 _ _ _ Hb Hc) as [Hc0 Hc1]. change (Z.shiftl 1 5) with 32.
  case_decide as H32.
  - case_decide; [error_return|]. case_decide; [error_return|].
    eexists. split; [done|]. intros ? ? [= <- <-]. split; [lia|].
    rewrite length_app, length_take, length_drop. lia.
  - case_decide as He; [error_return|].
    assert (0 <= Z.shiftr ctrl 5) as Hl0 by (apply Z.shiftr_nonneg; lia).
    assert (0 <= Z.shiftl (Z.land ctrl 31) 8) as Hh
      by (apply Z.shiftl_nonneg, Z.land_nonneg; lia).
    assert (forall len ip1, 0 <= len -> ip < ip1 < Z.of_nat (length inp) ->
      exists r, (b ← rd inp ip1;
        if decide (Z.of_nat (length out) + len + 2 > out_len) then Some (inr E2BIG)
        else if decide (Z.of_nat (length out) - Z.shiftl (Z.land ctrl 31) 8 - 1 - b < 0)
        then Some (inr EINVAL)
        else out ← lzf_copy out (Z.of_nat (length out) - Z.shiftl (Z.land ctrl 31) 8 - 1 - b)
               (Z.to_nat (len + 2)); Some (inl (ip1 + 1, out))) = Some r /\
      forall ip' out', r = inl (ip', out') -> ip < ip' /\ Z.of_nat (length out') <= out_len)
      as Hrest.
    { intros len ip1 Hlen Hip1. destruct (rd_Some inp ip1) as [b Hrb]; [lia|]. rewrite Hrb.
      cbn [mbind option_bind]. pose proof (rd_u8 _ _ _ Hb Hrb) as [Hb0 _].
      case_decide; [error_return|]. case_decide; [error_return|].
      destruct (lzf_copy_Some out (Z.of_nat (length out) - Z.shiftl (Z.land ctrl 31) 8 - 1 - b)
        (Z.to_nat (len + 2))) as [o' Ho']; [lia|].
      rewrite Ho'. cbn [mbind option_bind]. eexists. split; [done|].
      intros ? ? [= <- <-]. split; [lia|]. apply length_lzf_copy in Ho'. lia. }
    case_decide as H7; cbn [mbind option_bind].
    + destruct (rd_Some inp (ip + 1)) as [b Hrb]; [lia|]. rewrite Hrb. cbn [mbind option_bind].
      pose proof (rd_u8 _ _ _ Hb Hrb) as [Hb0 _].
      case_decide; [error_return|]. apply Hrest; lia.
    + apply Hrest; lia.
Qed.

Lemma lzf_decode_loop_safe inp out_len fuel ip out :
  bytes inp -> 0 <= ip < Z.of_nat (length inp) ->
  Z.of_nat (length inp) - ip < Z.of_nat fuel ->
  exists r, lzf_decode_loop inp (length inp) out_len fuel ip out = Some r /\
    forall out', r = inl out' -> Z.of_nat (length out') <= out_len.
Proof.
  intros Hb. revert ip out. induction fuel as [|fuel IH]; intros ip out Hip Hf; [lia|].
  cbn [lzf_decode_loop].
  destruct (lzf_decode_step_safe inp out_len ip out Hb Hip) as (r & -> & Hr).
  cbn [mbind option_bind]. destruct r as [[ip' out']|e]; [|error_return].
  destruct (Hr _ _ eq_refl) as [Hlt Hol]. case_decide; [apply IH; lia|].
  eexists. split; [done|]. by intros ? [= <-].
Qed.

(** On any non-empty input, however corrupt, [lzf_decompress] terminates without reading
    outside the input or before the output, and writes at most [out_len] bytes. *)
Theorem lzf_decompress_safe inp out_len :
  bytes inp -> inp <> [] ->
  exists r, lzf_decompress inp (length inp) out_len = Some r /\
    forall out, r = inl out -> Z.of_nat (length out) <= out_len.
Proof.
  intros Hb Hne. apply lzf_decode_loop_safe; [done| |lia].
  destruct inp; [done|]. simpl. lia.
Qed.

Lemma lzf_decompress_safe_witness :
  exists r, lzf_decompress [255; 3; 200; 31; 7] 5 64 = Some r /\
    forall out, r = inl out -> Z.of_nat (length out) <= 64.
Proof.
  apply (lzf_decompress_safe [255; 3; 200; 31; 7] 64); [|done].
  repeat (apply Forall_cons_2; [by vm_compute|]). apply Forall_nil_2.
Defined.

(** An empty input is read: a fault when there is no memory after it. *)
Theorem lzf_decompress_empty_overread out_len : lzf_decompress [] 0 out_len = None.
Proof. done. Qed.

(** * The stored bytes *)

Lemma lzf_copy_prefix out ref n out' : lzf_copy out ref n = Some out' -> out `prefix_of` out'.
Proof.
  revert out ref. induction n as [|n IH]; intros out ref H; cbn [lzf_copy] in H.
  - by injection H as ->.
  - destruct (rd out ref) as [b|]; [|discriminate H]. cbn [mbind option_bind] in H.
    etrans; [|by eapply IH]. by eexists.
Qed.

Lemma lzf_items_prefix o c o' : lzf_items o c o' -> o `prefix_of` o'.
Proof.
  induction 1 as [o|o run c o' Hr Hi IH|o off len o1 c o' H1 H2 H3 Hc Hi IH]; [done|..].
  - etrans; [|exact IH]. by eexists.
  - etrans; [by eapply lzf_copy_prefix|exact IH].
Qed.

Lemma lzf_ref_bytes_bytes off len :
  0 <= off < 8192 -> 1 <= len <= 262 -> bytes (lzf_ref_bytes off len).
Proof.
  intros Ho Hl. unfold lzf_ref_bytes.
  pose proof (Z.mod_pos_bound off 256 ltac:(lia)) as Hm.
  assert (0 <= Z.shiftr off 8 < 32) as Hs.
  { rewrite Z.shiftr_div_pow2 by lia. split; [apply Z.div_pos|apply Z.div_lt_upper_bound]; lia. }
  rewrite !Z.shiftl_mul_pow2 by lia.
  case_decide; repeat apply Forall_cons_2; try apply Forall_nil_2; unfold is_u; lia.
Qed.

Lemma lzf_items_bytes o c o' : lzf_items o c o' -> bytes o' -> bytes c.
Proof.
  induction 1 as [o|o run c o' Hr Hi IH|o off len o1 c o' H1 H2 H3 Hc Hi IH]; intros Hb; [done|..].
  - apply lzf_items_prefix in Hi as [e ->].
    apply Forall_app in Hb as Hb'. destruct Hb' as [Hb' _]. apply Forall_app in Hb' as [_ Hrun].
    apply Forall_cons_2; [unfold is_u; lia|]. apply Forall_app. auto.
  - apply Forall_app. split; [by apply lzf_ref_bytes_bytes|auto].
Qed.

(** * Memory after the block

    The block may be followed by more of the caller's memory.  What the code does inside the block
    does not depend on it. *)

Section extra.
Context (inp extra : list Z).

Lemma rd_extra i v : rd inp i = Some v -> rd (inp ++ extra) i = Some v.
Proof. unfold rd. case_decide; [|done]. apply lookup_app_l_Some. Qed.

(** Walks through the binds of a computation that succeeded in the block. *)
Ltac extra_step :=
  match goal with
  | H : (rd inp ?i ≫= _) = Some _ |- _ =>
      let E := fresh "E" in
      destruct (rd inp i) eqn:E; [|discriminate H];
      rewrite (rd_extra _ _ E); cbn [mbind option_bind] in H |- *
  | H : (if decide ?P then _ else _) = Some _ |- _ =>
      destruct (decide P); cbn [mbind option_bind] in H |- *
  | H : (wr ?o ?i ?v ≫= _) = Some _ |- _ =>
      destruct (wr o i v); [|discriminate H]; cbn [mbind option_bind] in H |- *
  end.

Lemma FRST_extra p v : FRST inp p = Some v -> FRST (inp ++ extra) p = Some v.
Proof. unfold FRST. intros H. by repeat extra_step. Qed.

Lemma NEXT_extra h p v : NEXT h inp p = Some v -> NEXT h (inp ++ extra) p = Some v.
Proof. unfold NEXT. intros H. by repeat extra_step. Qed.

Lemma lzf_match_extra slot ip n r :
  lzf_match inp slot ip n = Some r -> lzf_match (inp ++ extra) slot ip n = Some r.
Proof. unfold lzf_match. destruct slot; [|done]. intros H. by repeat extra_step. Qed.

Lemma lzf_unrolled_extra ref ip n len r :
  lzf_unrolled inp ref ip n len = Some r -> lzf_unrolled (inp ++ extra) ref ip n len = Some r.
Proof.
  revert len. induction n as [|n IH]; intros len H; cbn [lzf_unrolled] in *; [done|].
  repeat extra_step; auto.
Qed.

Lemma lzf_scan_extra ref ip maxlen fuel len r :
  lzf_scan inp ref ip maxlen fuel len = Some r ->
  lzf_scan (inp ++ extra) ref ip maxlen fuel len = Some r.
Proof.
  revert len. induction fuel as [|fuel IH]; intros len H; cbn [lzf_scan] in *; [done|].
  repeat extra_step; auto.
Qed.

Lemma lzf_matchlen_extra ref ip maxlen r :
  lzf_matchlen inp ref ip maxlen = Some r -> lzf_matchlen (inp ++ extra) ref ip maxlen = Some r.
Proof.
  unfold lzf_matchlen. case_decide; [|apply lzf_scan_extra].
  destruct (lzf_unrolled inp ref ip 16 2) as [[broke len]|] eqn:E; [|done].
  rewrite (lzf_unrolled_extra _ _ _ _ _ E). cbn [mbind option_bind].
  destruct broke; [done|]. apply lzf_scan_extra.
Qed.

Lemma lzf_put_literal_extra s r :
  lzf_put_literal inp s = Some r -> lzf_put_literal (inp ++ extra) s = Some r.
Proof. unfold lzf_put_literal. intros H. by repeat extra_step. Qed.

Lemma lzf_put_match_extra n ref s r :
  lzf_put_match inp n ref s = Some r -> lzf_put_match (inp ++ extra) n ref s = Some r.
Proof.
  unfold lzf_put_match. intros H. extra_step.
  destruct (lzf_matchlen inp ref (l_ip s) _) as [len|] eqn:E; [|discriminate H].
  rewrite (lzf_matchlen_extra _ _ _ _ E). cbn [mbind option_bind] in H |- *.
  destruct (lzf_put_ref _ _ _ _) as [[out op]|]; [|discriminate H].
  cbn [mbind option_bind] in H |- *. extra_step; [done|].
  destruct (FRST inp _) as [h|] eqn:Ef; [|discriminate H]. rewrite (FRST_extra _ _ Ef).
  cbn [mbind option_bind] in H |- *.
  destruct (NEXT h inp _) as [h'|] eqn:En; [|discriminate H]. by rewrite (NEXT_extra _ _ _ En).
Qed.

Lemma lzf_loop_extra n out_end fuel s r :
  lzf_loop inp n out_end fuel s = Some r -> lzf_loop (inp ++ extra) n out_end fuel s = Some r.
Proof.
  revert s. induction fuel as [|fuel IH]; intros s H; cbn [lzf_loop] in *; [done|].
  extra_step; [|done].
  destruct (NEXT (l_hval s) inp (l_ip s)) as [h|] eqn:En; [|discriminate H].
  rewrite (NEXT_extra _ _ _ En). cbn [mbind option_bind] in H |- *.
  destruct (lzf_match inp _ _ n) as [m|] eqn:Em; [|discriminate H].
  rewrite (lzf_match_extra _ _ _ _ Em). cbn [mbind option_bind] in H |- *.
  destruct m as [ref|]; (extra_step; [done|]).
  - destruct (lzf_put_match inp n ref _) as [[stop s']|] eqn:Ep; [|discriminate H].
    rewrite (lzf_put_match_extra _ _ _ _ Ep). cbn [mbind option_bind] in H |- *.
    destruct stop; [done|]. by apply IH.
  - destruct (lzf_put_literal inp _) as [s'|] eqn:Ep; [|discriminate H].
    rewrite (lzf_put_literal_extra _ _ Ep). cbn [mbind option_bind] in H |- *. by apply IH.
Qed.

Lemma lzf_tail_extra n fuel s r :
  lzf_tail inp n fuel s = Some r -> lzf_tail (inp ++ extra) n fuel s = Some r.
Proof.
  revert s. induction fuel as [|fuel IH]; intros s H; cbn [lzf_tail] in *; [done|].
  extra_step; [|done].
  destruct (lzf_put_literal inp s) as [s'|] eqn:Ep; [|discriminate H].
  rewrite (lzf_put_literal_extra _ _ Ep). cbn [mbind option_bind] in H |- *. by apply IH.
Qed.

Lemma lzf_compress_extra htab n out r :
  lzf_compress htab inp n out = Some r -> lzf_compress htab (inp ++ extra) n out = Some r.
Proof.
  unfold lzf_compress. intros H. extra_step; [done|].
  destruct (FRST inp 0) as [h|] eqn:Ef; [|discriminate H]. rewrite (FRST_extra _ _ Ef).
  cbn [mbind option_bind] in H |- *.
  destruct (lzf_loop inp _ _ _ _) as [l|] eqn:El; [|discriminate H].
  rewrite (lzf_loop_extra _ _ _ _ _ El). cbn [mbind option_bind] in H |- *.
  destruct l as [s|]; [|done]. extra_step; [done|].
  destruct (lzf_tail inp _ _ _) as [s'|] eqn:Et; [|discriminate H].
  by rewrite (lzf_tail_extra _ _ _ _ Et).
Qed.

Lemma lzf_decode_step_extra out_len ip out r :
  0 <= ip ->
  lzf_decode_step inp (length inp) out_len ip out = Some r ->
  lzf_decode_step (inp ++ extra) (length inp) out_len ip out = Some r.
Proof.
  intros Hip. unfold lzf_decode_step. intros H. extra_step.
  assert (ip < Z.of_nat (length inp)) as Hlt.
  { unfold rd in E. rewrite decide_True in E by done. apply lookup_lt_Some in E. lia. }
  extra_step.
  - repeat extra_step; try done. rewrite <- H.
    do 4 f_equal.
    rewrite (drop_app_le inp), take_app_le; [done|rewrite length_drop; lia|lia].
  - extra_step; [done|].
    destruct (decide (Z.shiftr z 5 = 7)).
    + destruct (rd inp (ip + 1)) as [b|] eqn:Eb; [|discriminate H].
      rewrite (rd_extra _ _ Eb). cbn [mbind option_bind] in H |- *.
      destruct (decide (ip + 1 + 1 >= Z.of_nat (length inp))); [done|]. by extra_step.
    + cbn [mbind option_bind] in H |- *. by extra_step.
Qed.

Lemma lzf_decode_step_ip out_len ip out ip' out' :
  0 <= ip -> bytes inp ->
  lzf_decode_step inp (length inp) out_len ip out = Some (inl (ip', out')) -> 0 <= ip'.
Proof.
  intros Hip Hb. unfold lzf_decode_step. destruct (rd inp ip) as [ctrl|] eqn:Ec; [|done].
  assert (0 <= ctrl) as Hc.
  { unfold rd in Ec. case_decide; [|done]. apply (Forall_lookup_1 _ _ _ _ Hb Ec). }
  cbn [mbind option_bind]. case_decide.
  { case_decide; [done|]. case_decide; [done|]. intros [= <- _]. lia. }
  case_decide; [done|]. destruct (decide (Z.shiftr ctrl 5 = 7)).
  - destruct (rd inp (ip + 1)); [|done]. cbn [mbind option_bind].
    destruct (decide (ip + 1 + 1 >= Z.of_nat (length inp))); [done|].
    destruct (rd inp (ip + 1 + 1)); [|done]. cbn [mbind option_bind].
    case_decide; [done|]. case_decide; [done|]. destruct (lzf_copy _ _ _); [|done].
    intros [= <- _]. lia.
  - cbn [mbind option_bind]. destruct (rd inp (ip + 1)); [|done]. cbn [mbind option_bind].
    case_decide; [done|]. case_decide; [done|]. destruct (lzf_copy _ _ _); [|done].
    intros [= <- _]. lia.
Qed.

Lemma lzf_decompress_extra out_len r :
  bytes inp -> lzf_decompress inp (length inp) out_len = Some r ->
  lzf_decompress (inp ++ extra) (length inp) out_len = Some r.
Proof.
  intros Hb. unfold lzf_decompress.
  assert (forall fuel ip out, 0 <= ip ->
    lzf_decode_loop inp (length inp) out_len fuel ip out = Some r ->
    lzf_decode_loop (inp ++ extra) (length inp) out_len fuel ip out = Some r) as Hl;
    [|by apply Hl].
  induction fuel as [|fuel IH]; intros ip out Hip H; cbn [lzf_decode_loop] in *; [done|].
  destruct (lzf_decode_step inp (length inp) out_len ip out) as [x|] eqn:E; [|discriminate H].
  rewrite (lzf_decode_step_extra _ _ _ _ Hip E). cbn [mbind option_bind] in H |- *.
  destruct x as [[ip' out']|]; [|done]. case_decide; [|done]. apply IH; [|done].
  by eapply lzf_decode_step_ip.
Qed.
End extra.

(** An empty block, with memory after it: the byte read there leads to an error. *)
Lemma lzf_decompress_empty b rest out_len :
  0 <= b -> exists e, lzf_decompress (b :: rest) 0 out_len = Some (inr e).
Proof.
  intros Hb. unfold lzf_decompress. cbn [lzf_decode_loop]. unfold lzf_decode_step.
  change (rd (b :: rest) 0) with (Some b). cbn [mbind option_bind]. case_decide.
  - case_decide; [by eexists|]. rewrite decide_True by lia. by eexists.
  - rewrite decide_True by (simpl; lia). by eexists.
Qed.

(** Decompression of the first [n] bytes of some memory always returns. *)
Lemma lzf_decompress_total mem n out_len :
  bytes mem -> mem <> [] -> (n <= length mem)%nat ->
  exists r, lzf_decompress mem n out_len = Some r /\
    forall out, r = inl out -> Z.of_nat (length out) <= out_len.
Proof.
  intros Hb Hne Hn. destruct (decide (n = 0)%nat) as [->|Hn0].
  - destruct mem as [|b mem]; [done|]. apply Forall_cons in Hb as [[Hb _] _].
    destruct (lzf_decompress_empty b mem out_len Hb) as [e ->]. by exists (inr e).
  - assert (length (take n mem) = n) as Hl by (rewrite length_take; lia).
    destruct (lzf_decode_loop_safe (take n mem) out_len (S (length (take n mem))) 0 [])
      as (r & Hr & Ho); [by apply Forall_take|lia|lia|].
    exists r. split; [|done].
    pose proof (lzf_decompress_extra (take n mem) (drop n mem) out_len r) as He.
    rewrite take_drop, Hl in He. apply He; [by apply Forall_take|]. rewrite Hl in Hr. exact Hr.
Qed.

(** A block of one byte, with memory after it: a run of one literal. *)
Lemma lzf_compress_one htab b x rest out :
  is_u 8 b -> (4 <= length out)%nat ->
  lzf_compress htab (b :: x :: rest) 1 out = Some (Some [0; b]).
Proof.
  intros Hb Ho. unfold lzf_compress. rewrite decide_False by lia.
  change (FRST (b :: x :: rest) 0) with (Some (Z.lor (Z.shiftl b 8) x)). cbn [mbind option_bind].
  cbn [lzf_loop]. rewrite decide_False by (simpl; lia). cbn [mbind option_bind].
  rewrite decide_False by (simpl; lia). cbn [lzf_tail]. rewrite decide_True by (simpl; lia).
  unfold lzf_put_literal. cbn [l_ip l_op l_lit l_out l_htab l_hval].
  change (rd (b :: x :: rest) 0) with (Some b). cbn [mbind option_bind].
  rewrite wr_Some by lia. cbn [mbind option_bind].
  rewrite decide_False by (vm_compute; discriminate).
  cbn [mbind option_bind lzf_tail l_ip]. rewrite decide_False by (simpl; lia).
  cbn [mbind option_bind l_out l_op l_lit].
  rewrite wr_Some by (rewrite length_insert; lia). cbn [mbind option_bind].
  rewrite (u8_id b) by done. destruct out as [|o0 [|o1 [|o2 [|o3 out]]]]; simpl in Ho; try lia.
  reflexivity.
Qed.

Lemma lzf_decompress_one b : lzf_decompress [0; b] 2 1 = Some (inl [b]).
Proof. done. Qed.
