(* ===== verification/Cipher.v ===== *)
(** Block ciphers: padding (src/crypto/pad.c), ECB and CBC modes (ecb.c, cbc.c) and the cipher
    contexts of cipher.c.

    A (pointer, length) pair is the list of its bytes; outputs are returned.  Buffers are never
    NULL except the IV of [isrcry_cipher_init], which is an option; so the NULL tests of the
    code are in the types.  CBC is the byte-by-byte variant, compiled when ISRCRY_FAST_TYPE is
    not defined.  A cipher is a record of operations ([isrcry_cipher_desc]); [BlockCipher]
    states what the modes rely on, and Aes.v proves it of the AES descriptor. *)

From S2P Require Import Prelude.

(** * Enumerations of isrcrypto.h *)

Inductive isrcry_result :=
| ISRCRY_OK
| ISRCRY_INVALID_ARGUMENT
| ISRCRY_BAD_PADDING
| ISRCRY_BAD_FORMAT
| ISRCRY_BUFFER_OVERFLOW
| ISRCRY_NO_STREAMING.

#[global] Instance isrcry_result_eq_dec : EqDecision isrcry_result.
Proof. solve_decision. Defined.

(** [ISRCRY_DECODE] and [ISRCRY_ENCODE] are the same two values. *)
Inductive isrcry_direction := ISRCRY_DECRYPT | ISRCRY_ENCRYPT.

#[global] Instance isrcry_direction_eq_dec : EqDecision isrcry_direction.
Proof. solve_decision. Defined.

Inductive isrcry_cipher := ISRCRY_CIPHER_AES.

Inductive isrcry_mode := ISRCRY_MODE_ECB | ISRCRY_MODE_CBC.

Inductive isrcry_padding := ISRCRY_PADDING_PKCS5.

Definition MAX_BLOCK_LEN : nat := 16.

(** * Padding (pad.c) *)

(** "for (n = datalen; n < blocklen; n++) buf[n] = pad;" *)
Definition fill (buf : list Z) (first count : nat) (v : Z) : list Z :=
  foldl (fun b n => <[n := v]> b) buf (seq first count).

Definition pkcs5_pad (buf : list Z) (blocklen datalen : nat) : list Z + isrcry_result :=
  if decide (blocklen <= datalen \/ 255 < blocklen - datalen)%nat
  then inr ISRCRY_INVALID_ARGUMENT
  else inl (fill buf datalen (blocklen - datalen) (u8 (Z.of_nat (blocklen - datalen)))).

(** The data length, or an error. *)
Definition pkcs5_unpad (buf : list Z) (blocklen : nat) : nat + isrcry_result :=
  let pad := get buf (blocklen - 1) in
  if decide (pad = 0 \/ pad > Z.of_nat blocklen) then inr ISRCRY_BAD_PADDING
  else if forallb (fun n => bool_decide (get buf (blocklen - n - 1) = pad))
            (seq 1 (Z.to_nat pad - 1))
  then inl (blocklen - Z.to_nat pad)%nat
  else inr ISRCRY_BAD_PADDING.

(** * Cipher descriptors and contexts (internal.h) *)

Record isrcry_cipher_desc := {
  ckey : Type;                      (* the scheduled key, [cctx->key] *)
  ckey0 : ckey;                     (* zeroed memory *)
  c_init : list Z -> ckey + isrcry_result;
  c_encrypt : ckey -> list Z -> list Z + isrcry_result;
  c_decrypt : ckey -> list Z -> list Z + isrcry_result;
  c_blocklen : nat
}.

Record isrcry_cipher_ctx := mk_cctx {
  cipher : isrcry_cipher_desc;
  mode : isrcry_mode;
  key : ckey cipher;
  iv : list Z;
  direction : isrcry_direction
}.

Definition set_iv (cctx : isrcry_cipher_ctx) (v : list Z) : isrcry_cipher_ctx :=
  mk_cctx (cipher cctx) (mode cctx) (key cctx) v (direction cctx).

(** * ECB (ecb.c) *)

(** [n] turns of "while (len)"; a block operation's error ends the loop. *)
Fixpoint ecb_loop (f : list Z -> list Z + isrcry_result) (bl n : nat) (inp : list Z) :
    isrcry_result * list Z :=
  match n with
  | O => (ISRCRY_OK, [])
  | S n =>
      match f (take bl inp) with
      | inr e => (e, [])
      | inl out => let '(ret, rest) := ecb_loop f bl n (drop bl inp) in (ret, out ++ rest)
      end
  end.

Definition ecb_encrypt (cctx : isrcry_cipher_ctx) (inp : list Z) :
    isrcry_result * isrcry_cipher_ctx * list Z :=
  let bl := c_blocklen (cipher cctx) in
  if decide (length inp mod bl <> 0)%nat then (ISRCRY_INVALID_ARGUMENT, cctx, [])
  else
    let '(ret, out) := ecb_loop (c_encrypt (cipher cctx) (key cctx)) bl (length inp / bl) inp in
    (ret, cctx, out).

Definition ecb_decrypt (cctx : isrcry_cipher_ctx) (inp : list Z) :
    isrcry_result * isrcry_cipher_ctx * list Z :=
  let bl := c_blocklen (cipher cctx) in
  if decide (length inp mod bl <> 0)%nat then (ISRCRY_INVALID_ARGUMENT, cctx, [])
  else
    let '(ret, out) := ecb_loop (c_decrypt (cipher cctx) (key cctx)) bl (length inp / bl) inp in
    (ret, cctx, out).

(** * CBC (cbc.c) *)

(** [n] turns of the encryption loop: the IV array is xored with the block, encrypted into the
    output, and takes the ciphertext. *)
Fixpoint cbc_encrypt_loop (f : list Z -> list Z + isrcry_result) (bl n : nat)
    (iv inp : list Z) : isrcry_result * list Z * list Z :=
  match n with
  | O => (ISRCRY_OK, iv, [])
  | S n =>
      let iv := xor_bytes (take bl iv) (take bl inp) ++ drop bl iv in
      match f (take bl iv) with
      | inr e => (e, iv, [])
      | inl out =>
          let iv := take bl out ++ drop bl iv in
          let '(ret, iv, rest) := cbc_encrypt_loop f bl n iv (drop bl inp) in
          (ret, iv, out ++ rest)
      end
  end.

(** [n] turns of the decryption loop: the block is decrypted into [tmp], the output is [tmp]
    xored with the IV, and the IV takes the ciphertext. *)
Fixpoint cbc_decrypt_loop (f : list Z -> list Z + isrcry_result) (bl n : nat)
    (iv inp : list Z) : isrcry_result * list Z * list Z :=
  match n with
  | O => (ISRCRY_OK, iv, [])
  | S n =>
      match f (take bl inp) with
      | inr e => (e, iv, [])
      | inl tmp =>
          let out := xor_bytes (take bl tmp) (take bl iv) in
          let iv := take bl inp ++ drop bl iv in
          let '(ret, iv, rest) := cbc_decrypt_loop f bl n iv (drop bl inp) in
          (ret, iv, out ++ rest)
      end
  end.

Definition cbc_encrypt (cctx : isrcry_cipher_ctx) (inp : list Z) :
    isrcry_result * isrcry_cipher_ctx * list Z :=
  let bl := c_blocklen (cipher cctx) in
  if decide (bl < 1 \/ length inp mod bl <> 0)%nat then (ISRCRY_INVALID_ARGUMENT, cctx, [])
  else
    let '(ret, iv, out) :=
      cbc_encrypt_loop (c_encrypt (cipher cctx) (key cctx)) bl (length inp / bl) (iv cctx) inp in
    (ret, set_iv cctx iv, out).

Definition cbc_decrypt (cctx : isrcry_cipher_ctx) (inp : list Z) :
    isrcry_result * isrcry_cipher_ctx * list Z :=
  let bl := c_blocklen (cipher cctx) in
  if decide (bl < 1 \/ length inp mod bl <> 0)%nat then (ISRCRY_INVALID_ARGUMENT, cctx, [])
  else
    let '(ret, iv, out) :=
      cbc_decrypt_loop (c_decrypt (cipher cctx) (key cctx)) bl (length inp / bl) (iv cctx) inp in
    (ret, set_iv cctx iv, out).

(** * The cipher interface (cipher.c) *)

Record isrcry_mode_desc := {
  m_encrypt : isrcry_cipher_ctx -> list Z -> isrcry_result * isrcry_cipher_ctx * list Z;
  m_decrypt : isrcry_cipher_ctx -> list Z -> isrcry_result * isrcry_cipher_ctx * list Z
}.

Definition mode_desc (type : isrcry_mode) : isrcry_mode_desc :=
  match type with
  | ISRCRY_MODE_ECB => {| m_encrypt := ecb_encrypt; m_decrypt := ecb_decrypt |}
  | ISRCRY_MODE_CBC => {| m_encrypt := cbc_encrypt; m_decrypt := cbc_decrypt |}
  end.

Record isrcry_pad_desc := {
  p_pad : list Z -> nat -> nat -> list Z + isrcry_result;
  p_unpad : list Z -> nat -> nat + isrcry_result
}.

Definition pad_desc (type : isrcry_padding) : isrcry_pad_desc :=
  match type with
  | ISRCRY_PADDING_PKCS5 => {| p_pad := pkcs5_pad; p_unpad := pkcs5_unpad |}
  end.

(** The context [isrcry_cipher_alloc] builds for a cipher descriptor; the memory is zeroed.
    ([isrcry_cipher_alloc] itself is in Aes.v, where the one descriptor is.) *)
Definition cipher_ctx_new (desc : isrcry_cipher_desc) (m : isrcry_mode) :
    isrcry_cipher_ctx :=
  mk_cctx desc m (ckey0 desc) (replicate MAX_BLOCK_LEN 0) ISRCRY_DECRYPT.

Definition isrcry_cipher_init (cctx : isrcry_cipher_ctx) (dir : isrcry_direction)
    (k : list Z) (v : option (list Z)) : isrcry_result * isrcry_cipher_ctx :=
  match c_init (cipher cctx) k with
  | inr e => (e, cctx)
  | inl sk =>
      let bl := c_blocklen (cipher cctx) in
      let v' := match v with
                | Some v => blit (iv cctx) 0 (take bl v)
                | None => blit (iv cctx) 0 (replicate bl 0)
                end in
      (ISRCRY_OK, mk_cctx (cipher cctx) (mode cctx) sk v' dir)
  end.

Definition isrcry_cipher_process (cctx : isrcry_cipher_ctx) (inp : list Z) :
    isrcry_result * isrcry_cipher_ctx * list Z :=
  match direction cctx with
  | ISRCRY_ENCRYPT => m_encrypt (mode_desc (mode cctx)) cctx inp
  | ISRCRY_DECRYPT => m_decrypt (mode_desc (mode cctx)) cctx inp
  end.

(** [isrcry_cipher_final] with room for [outlen] bytes of output; the new [*outlen] is the
    length of the output returned.  The unsigned sums of the size tests wrap. *)
Definition isrcry_cipher_final (cctx : isrcry_cipher_ctx) (padding : isrcry_padding)
    (inp : list Z) (outlen : Z) : isrcry_result * isrcry_cipher_ctx * list Z :=
  let desc := pad_desc padding in
  let bl := c_blocklen (cipher cctx) in
  let inlen := length inp in
  match direction cctx with
  | ISRCRY_ENCRYPT =>
      let lblock_len := (inlen mod bl)%nat in
      let lblock_offset := (inlen - lblock_len)%nat in
      if decide (outlen < u32 (Z.of_nat lblock_offset + Z.of_nat bl))
      then (ISRCRY_INVALID_ARGUMENT, cctx, [])
      else
        let lblock := blit (replicate MAX_BLOCK_LEN 0) 0 (drop lblock_offset inp) in
        match p_pad desc lblock bl lblock_len with
        | inr e => (e, cctx, [])
        | inl lblock =>
            let '(ret, cctx, out1) :=
              m_encrypt (mode_desc (mode cctx)) cctx (take lblock_offset inp) in
            if decide (ret <> ISRCRY_OK) then (ret, cctx, []) else
            let '(ret, cctx, out2) :=
              m_encrypt (mode_desc (mode cctx)) cctx (take bl lblock) in
            if decide (ret <> ISRCRY_OK) then (ret, cctx, []) else
            (ISRCRY_OK, cctx, out1 ++ out2)
        end
  | ISRCRY_DECRYPT =>
      if decide (inlen = 0 \/ inlen mod bl <> 0)%nat then (ISRCRY_INVALID_ARGUMENT, cctx, [])
      else
        let lblock_offset := (inlen - bl)%nat in
        if decide (outlen < Z.of_nat lblock_offset) then (ISRCRY_INVALID_ARGUMENT, cctx, [])
        else
          let '(ret, cctx, out1) :=
            m_decrypt (mode_desc (mode cctx)) cctx (take lblock_offset inp) in
          if decide (ret <> ISRCRY_OK) then (ret, cctx, []) else
          let '(ret, cctx, lblock) :=
            m_decrypt (mode_desc (mode cctx)) cctx (drop lblock_offset inp) in
          if decide (ret <> ISRCRY_OK) then (ret, cctx, []) else
          match p_unpad desc lblock bl with
          | inr e => (e, cctx, [])
          | inl lblock_len =>
              if decide (outlen < u32 (Z.of_nat lblock_offset + Z.of_nat lblock_len))
              then (ISRCRY_INVALID_ARGUMENT, cctx, [])
              else (ISRCRY_OK, cctx, out1 ++ take lblock_len lblock)
          end
  end.

(** * What the modes rely on *)

(** A cipher whose decryption undoes its encryption under every key it can schedule. *)
Class BlockCipher (d : isrcry_cipher_desc) := {
  bc_key : ckey d -> Prop;
  bc_blocklen : (1 <= c_blocklen d <= MAX_BLOCK_LEN)%nat;
  bc_init : forall k sk, bytes k -> c_init d k = inl sk -> bc_key sk;
  bc_encrypt : forall sk b, bc_key sk -> bytes b -> length b = c_blocklen d ->
    exists c, c_encrypt d sk b = inl c /\ bytes c /\ length c = c_blocklen d /\
      c_decrypt d sk c = inl b;
  bc_decrypt : forall sk c, bc_key sk -> bytes c -> length c = c_blocklen d ->
    exists b, c_decrypt d sk c = inl b /\ bytes b /\ length b = c_blocklen d
}.

(** * Padding lemmas *)

Lemma fill_spec buf first count v :
  (first + count <= length buf)%nat ->
  fill buf first count v = take first buf ++ replicate count v ++ drop (first + count) buf.
Proof.
  unfold fill. revert buf first. induction count as [|count IH]; intros buf first Hlen; simpl.
  - by rewrite Nat.add_0_r, take_drop.
  - rewrite IH by (rewrite length_insert; lia).
    rewrite take_insert_lt, drop_insert_lt by lia.
    rewrite (insert_take_drop (take (S first) buf)) by (rewrite length_take; lia).
    rewrite take_take, drop_ge by (rewrite length_take; lia).
    replace (first `min` S first)%nat with first by lia.
    replace (S first + count)%nat with (first + S count)%nat by lia.
    by rewrite <- !(assoc_L (++)).
Qed.

(** A block that ends in [n] bytes of value [n]. *)
Definition pkcs5_block (data : list Z) (n : nat) : list Z :=
  data ++ replicate n (Z.of_nat n).

Lemma pkcs5_pad_spec buf bl n :
  (n < bl)%nat -> (bl <= length buf)%nat -> (bl <= 255)%nat ->
  pkcs5_pad buf bl n = inl (pkcs5_block (take n buf) (bl - n) ++ drop bl buf).
Proof.
  intros Hn Hl Hbl. unfold pkcs5_pad, pkcs5_block. rewrite decide_False by lia.
  rewrite fill_spec by lia. rewrite u8_id by (unfold is_u; lia).
  replace (n + (bl - n))%nat with bl by lia. by rewrite <- (assoc_L (++)).
Qed.

Lemma forallb_seq f a n : forallb f (seq a n) = true <-> forall i, (a <= i < a + n)%nat -> f i = true.
Proof.
  rewrite forallb_forall. split; intros H i Hi; apply H.
  - apply in_seq. lia.
  - apply in_seq in Hi. lia.
Qed.

(** [pkcs5_unpad] accepts exactly the blocks that end in [n] bytes of value [n], for some [n]
    between 1 and the block length. *)
Lemma pkcs5_unpad_spec buf bl len :
  bytes buf -> (1 <= bl <= length buf)%nat ->
  pkcs5_unpad buf bl = inl len <->
  (len < bl)%nat /\ (bl - len <= 255)%nat /\ take bl buf = pkcs5_block (take len buf) (bl - len).
Proof.
  intros Hb Hbl. unfold pkcs5_unpad.
  pose proof (is_u8_get buf (bl - 1) Hb) as [Hp0 Hp1]. change (2 ^ 8) with 256 in Hp1.
  set (pad := get buf (bl - 1)) in *. split.
  - case_decide as Hbad; [done|]. destruct (forallb _ _) eqn:Hall; [|done].
    intros [= <-]. rewrite forallb_seq in Hall. split; [lia|]. split; [lia|].
    unfold pkcs5_block.
    replace (bl - (bl - Z.to_nat pad))%nat with (Z.to_nat pad) by lia.
    rewrite Z2Nat.id by lia.
    rewrite <- (take_drop (bl - Z.to_nat pad) (take bl buf)), take_take.
    replace ((bl - Z.to_nat pad) `min` bl)%nat with (bl - Z.to_nat pad)%nat by lia. f_equal.
    apply list_eq. intros i. destruct (decide (i < Z.to_nat pad)%nat) as [Hi|Hi].
    + rewrite lookup_drop, lookup_take_lt, (lookup_get buf), lookup_replicate_2 by lia.
      f_equal. destruct (decide (i = Z.to_nat pad - 1)%nat) as [->|Hne].
      * transitivity (get buf (bl - 1)); [f_equal; lia|done].
      * specialize (Hall (Z.to_nat pad - 1 - i)%nat ltac:(lia)).
        apply bool_decide_eq_true in Hall. rewrite <- Hall. f_equal. lia.
    + rewrite !lookup_ge_None_2; [done|rewrite length_replicate; lia|].
      rewrite length_drop, length_take. lia.
  - intros (Hlen & Hle & Heq).
    assert (forall i, (len <= i < bl)%nat -> get buf i = Z.of_nat (bl - len)) as Hget.
    { intros i Hi. rewrite <- (get_take buf bl) by lia. rewrite Heq. unfold pkcs5_block, get.
      rewrite lookup_app_r; rewrite length_take; [|lia].
      rewrite lookup_replicate_2 by lia. done. }
    assert (pad = Z.of_nat (bl - len)) as Hpad by (apply Hget; lia).
    rewrite decide_False by lia.
    rewrite (proj2 (forallb_seq _ _ _)); [f_equal; lia|].
    intros i Hi. apply bool_decide_eq_true. rewrite Hpad. apply Hget. lia.
Qed.

(** * Mode lemmas *)

Section modes.
Context {d : isrcry_cipher_desc} `{!BlockCipher d}.
Context (sk : ckey d) (Hsk : bc_key sk).

Abbreviation bl := (c_blocklen d).

Lemma ecb_loop_roundtrip n inp :
  bytes inp -> length inp = (n * bl)%nat ->
  exists out, ecb_loop (c_encrypt d sk) bl n inp = (ISRCRY_OK, out) /\
    bytes out /\ length out = length inp /\
    ecb_loop (c_decrypt d sk) bl n out = (ISRCRY_OK, inp).
Proof using Hsk.
  revert inp. induction n as [|n IH]; intros inp Hb Hlen; simpl in *.
  - destruct inp; [|done]. exists []. by repeat split.
  - destruct (bc_encrypt sk (take bl inp)) as (c & -> & Hcb & Hcl & Hdec);
      [done|auto with word|rewrite length_take; lia|].
    destruct (IH (drop bl inp)) as (out & -> & Hob & Hol & Hd2);
      [auto with word|rewrite length_drop; lia|].
    exists (c ++ out). rewrite length_drop in Hol. split_and!; [done|auto with word| |].
    + rewrite length_app. lia.
    + rewrite take_app_length', drop_app_length', Hdec, Hd2 by done. by rewrite take_drop.
Qed.

(** The IV array after a whole number of blocks, in both directions. *)
Lemma cbc_loop_roundtrip n v inp :
  bytes inp -> bytes v -> length inp = (n * bl)%nat -> (bl <= length v)%nat ->
  exists v' out, cbc_encrypt_loop (c_encrypt d sk) bl n v inp = (ISRCRY_OK, v', out) /\
    bytes out /\ bytes v' /\ length v' = length v /\ length out = length inp /\
    cbc_decrypt_loop (c_decrypt d sk) bl n v out = (ISRCRY_OK, v', inp).
Proof using Hsk.
  revert v inp. induction n as [|n IH]; intros v inp Hb Hv Hlen Hvl; simpl in *.
  - destruct inp; [|done]. exists v, []. by repeat split.
  - set (x := xor_bytes (take bl v) (take bl inp)).
    assert (length x = bl) as Hxl
      by (unfold x; rewrite length_xor_bytes, !length_take; lia).
    assert (bytes x) as Hxb by (unfold x; auto with word).
    rewrite take_app_length', drop_app_length' by done.
    destruct (bc_encrypt sk x) as (c & -> & Hcb & Hcl & Hdec); [done..|].
    rewrite (take_ge c) by lia.
    destruct (IH (c ++ drop bl v) (drop bl inp)) as (v' & out & -> & Hob & Hvb' & Hvl' & Hol & Hd2);
      [auto with word|auto with word|rewrite length_drop; lia|rewrite length_app; lia|].
    rewrite length_app, length_drop in Hvl'. rewrite length_drop in Hol.
    exists v', (c ++ out). split_and!; try done; [auto with word|lia|rewrite length_app; lia|].
    rewrite take_app_length', drop_app_length', Hdec by done.
    rewrite Hd2, (take_ge x) by lia.
    unfold x. rewrite (xor_bytes_comm (take bl v)), xor_bytes_involutive
      by (rewrite !length_take; lia). by rewrite take_drop.
Qed.

(** Decryption of any whole number of blocks. *)
Lemma ecb_decrypt_total n inp :
  bytes inp -> length inp = (n * bl)%nat ->
  exists out, ecb_loop (c_decrypt d sk) bl n inp = (ISRCRY_OK, out) /\
    bytes out /\ length out = length inp.
Proof using Hsk.
  revert inp. induction n as [|n IH]; intros inp Hb Hlen; simpl in *.
  - destruct inp; [|done]. exists []. by repeat split.
  - destruct (bc_decrypt sk (take bl inp)) as (b & -> & Hbb & Hbl);
      [done|auto with word|rewrite length_take; lia|].
    destruct (IH (drop bl inp)) as (out & -> & Hob & Hol);
      [auto with word|rewrite length_drop; lia|].
    exists (b ++ out). rewrite length_drop in Hol. split_and!; [done|auto with word|].
    rewrite length_app. lia.
Qed.

Lemma cbc_decrypt_total n v inp :
  bytes inp -> bytes v -> length inp = (n * bl)%nat -> (bl <= length v)%nat ->
  exists v' out, cbc_decrypt_loop (c_decrypt d sk) bl n v inp = (ISRCRY_OK, v', out) /\
    bytes out /\ bytes v' /\ length v' = length v /\ length out = length inp.
Proof using Hsk.
  revert v inp. induction n as [|n IH]; intros v inp Hb Hv Hlen Hvl; simpl in *.
  - destruct inp; [|done]. exists v, []. by repeat split.
  - destruct (bc_decrypt sk (take bl inp)) as (b & -> & Hbb & Hbl);
      [done|auto with word|rewrite length_take; lia|].
    destruct (IH (take bl inp ++ drop bl v) (drop bl inp)) as (v' & out & -> & Hob & Hv' & Hvl' & Hol);
      [auto with word|auto with word|rewrite length_drop; lia|
       rewrite length_app, length_take, length_drop; lia|].
    rewrite length_app, length_take, length_drop in Hvl'. rewrite length_drop in Hol.
    eexists v', _. split; [done|]. split_and!; [auto with word|done|lia|].
    rewrite length_app, length_xor_bytes, !length_take. lia.
Qed.
End modes.

(** Encrypting in two calls is encrypting the concatenation in one. *)
Lemma cbc_encrypt_loop_app f bl n m v a b v1 out1 :
  (forall x, f x <> inr ISRCRY_OK) ->
  length a = (n * bl)%nat ->
  cbc_encrypt_loop f bl n v a = (ISRCRY_OK, v1, out1) ->
  cbc_encrypt_loop f bl (n + m) v (a ++ b) =
    let '(ret, v2, out2) := cbc_encrypt_loop f bl m v1 b in (ret, v2, out1 ++ out2).
Proof.
  intros Hf. revert v a out1. induction n as [|n IH]; intros v a out1 Hlen; simpl.
  - destruct a; [|done]. intros [= <- <-]. simpl.
    by destruct (cbc_encrypt_loop f bl m v b) as [[??]?].
  - rewrite (take_app_le a b), (drop_app_le a b) by (simpl in Hlen; lia).
    destruct (f _) as [c|e] eqn:Hc; [|intros [= -> _ _]; by apply Hf in Hc].
    destruct (cbc_encrypt_loop f bl n _ (drop bl a)) as [[ret w] o] eqn:Hl.
    intros [= -> -> <-].
    rewrite (IH _ _ o); [|rewrite length_drop; simpl in Hlen; lia|done].
    destruct (cbc_encrypt_loop f bl m v1 b) as [[??]?]. by rewrite (assoc_L (++)).
Qed.

(** * The cipher interface *)

Section interface.
Context {d : isrcry_cipher_desc} `{!BlockCipher d}.

Abbreviation bl := (c_blocklen d).

(** A context of cipher [d] in mode [m]. *)
Abbreviation ctx m sk v dir := (mk_cctx d m sk v dir).

Lemma mod_0_mul n : (n mod bl = 0)%nat -> n = (n / bl * bl)%nat.
Proof using BlockCipher0.
  pose proof bc_blocklen. intros H0. pose proof (Nat.div_mod n bl ltac:(lia)). lia.
Qed.

(** In both modes, decrypting from the same IV undoes encrypting, and the two contexts end with
    the same IV. *)
Lemma mode_roundtrip m sk v inp :
  bc_key sk -> bytes v -> (bl <= length v)%nat -> bytes inp -> (length inp mod bl = 0)%nat ->
  exists v' out,
    m_encrypt (mode_desc m) (ctx m sk v ISRCRY_ENCRYPT) inp
      = (ISRCRY_OK, ctx m sk v' ISRCRY_ENCRYPT, out) /\
    bytes out /\ bytes v' /\ length v' = length v /\ length out = length inp /\
    m_decrypt (mode_desc m) (ctx m sk v ISRCRY_DECRYPT) out
      = (ISRCRY_OK, ctx m sk v' ISRCRY_DECRYPT, inp).
Proof using BlockCipher0.
  intros Hk Hv Hvl Hb Hmod. pose proof bc_blocklen.
  pose proof (mod_0_mul _ Hmod) as Hmul. destruct m; simpl.
  - unfold ecb_encrypt, ecb_decrypt; simpl.
    destruct (ecb_loop_roundtrip sk Hk (length inp / bl) inp) as (out & -> & Hob & Hol & Hd);
      [done..|]. exists v, out. rewrite Hol, !decide_False by lia. rewrite Hd.
    by split_and!.
  - unfold cbc_encrypt, cbc_decrypt; simpl.
    destruct (cbc_loop_roundtrip sk Hk (length inp / bl) v inp)
      as (v' & out & -> & Hob & Hvb & Hvl' & Hol & Hd); [done..|].
    exists v', out. rewrite Hol, !decide_False by lia. rewrite Hd. by split_and!.
Qed.

(** Decryption of any input: it succeeds on whole blocks. *)
Lemma mode_decrypt_total m sk v inp :
  bc_key sk -> bytes v -> (bl <= length v)%nat -> bytes inp ->
  if decide (length inp mod bl = 0)%nat then
    exists v' out,
      m_decrypt (mode_desc m) (ctx m sk v ISRCRY_DECRYPT) inp
        = (ISRCRY_OK, ctx m sk v' ISRCRY_DECRYPT, out) /\
      bytes out /\ bytes v' /\ length v' = length v /\ length out = length inp
  else m_decrypt (mode_desc m) (ctx m sk v ISRCRY_DECRYPT) inp
         = (ISRCRY_INVALID_ARGUMENT, ctx m sk v ISRCRY_DECRYPT, []).
Proof using BlockCipher0.
  intros Hk Hv Hvl Hb. pose proof bc_blocklen. case_decide as Hmod.
  - pose proof (mod_0_mul _ Hmod) as Hmul. destruct m; simpl.
    + unfold ecb_decrypt; simpl. rewrite decide_False by lia.
      destruct (ecb_decrypt_total sk Hk (length inp / bl) inp) as (out & -> & Hob & Hol); [done..|].
      exists v, out. by split_and!.
    + unfold cbc_decrypt; simpl. rewrite decide_False by lia.
      destruct (cbc_decrypt_total sk Hk (length inp / bl) v inp)
        as (v' & out & -> & Hob & Hv' & Hvl' & Hol); [done..|]. exists v', out. by split_and!.
  - destruct m; simpl; unfold ecb_decrypt, cbc_decrypt; simpl; by rewrite decide_True by lia.
Qed.

Lemma isrcry_cipher_init_spec m dir k v sk :
  c_init d k = inl sk -> bytes k -> match v with Some v => bytes v /\ (bl <= length v)%nat | None => True end ->
  exists v', isrcry_cipher_init (cipher_ctx_new d m) dir k v = (ISRCRY_OK, ctx m sk v' dir) /\
    bc_key sk /\ bytes v' /\ length v' = MAX_BLOCK_LEN /\
    forall dir', isrcry_cipher_init (cipher_ctx_new d m) dir' k v
                   = (ISRCRY_OK, ctx m sk v' dir').
Proof using BlockCipher0.
  intros Hi Hk Hv. pose proof bc_blocklen as Hbl. unfold isrcry_cipher_init; simpl. rewrite Hi.
  eexists. split; [done|]. split; [by eapply bc_init|]. split; [|split; [|done]].
  - destruct v as [v|]; [destruct Hv|]; apply bytes_blit; auto with word.
    + by apply (Forall_replicate (is_u 8) 16).
    + by apply (Forall_replicate (is_u 8) 16).
  - destruct v as [v|]; [destruct Hv|]; rewrite length_blit; simpl; try done;
      rewrite ?length_take, ?length_replicate; unfold MAX_BLOCK_LEN in *; lia.
Qed.

(** The padded encryption of any input decrypts, given room for it, to the input. *)
Lemma isrcry_cipher_final_spec m sk v inp outlen :
  bc_key sk -> bytes v -> (bl <= length v)%nat -> bytes inp ->
  Z.of_nat (length inp) + Z.of_nat bl < 2 ^ 32 ->
  Z.of_nat ((length inp / bl + 1) * bl) <= outlen ->
  exists cctx c,
    isrcry_cipher_final (ctx m sk v ISRCRY_ENCRYPT) ISRCRY_PADDING_PKCS5 inp outlen
      = (ISRCRY_OK, cctx, c) /\
    bytes c /\ length c = ((length inp / bl + 1) * bl)%nat /\
    forall outlen', Z.of_nat (length inp) <= outlen' ->
      exists cctx',
        isrcry_cipher_final (ctx m sk v ISRCRY_DECRYPT) ISRCRY_PADDING_PKCS5 c outlen'
          = (ISRCRY_OK, cctx', inp).
Proof using BlockCipher0.
  intros Hk Hv Hvl Hb H32 Hol. pose proof bc_blocklen as Hbl. unfold MAX_BLOCK_LEN in Hbl.
  pose proof (Nat.div_mod (length inp) bl ltac:(lia)) as Hdm.
  pose proof (Nat.mod_upper_bound (length inp) bl ltac:(lia)) as Hmod.
  unfold isrcry_cipher_final; simpl.
  set (r := (length inp mod bl)%nat) in *. set (off := (length inp - r)%nat).
  assert (off = length inp / bl * bl)%nat as Hoff by (unfold off; lia).
  assert (off mod bl = 0)%nat as Hoffmod by (rewrite Hoff; apply Nat.Div0.mod_mul).
  rewrite u32_id by (unfold is_u; lia). rewrite decide_False by lia.
  change (Z.of_nat 0) with 0.
  set (lb := blit _ 0 (drop off inp)).
  assert (length (drop off inp) = r) as Hdl by (rewrite length_drop; lia).
  assert (length lb = 16)%nat as Hlb.
  { unfold lb. rewrite length_blit; simpl; lia. }
  assert (take r lb = drop off inp) as Hlbt.
  { unfold lb, blit. rewrite take_0. simpl. by rewrite take_app_length'. }
  rewrite pkcs5_pad_spec by lia. rewrite Hlbt.
  set (blk := pkcs5_block (drop off inp) (bl - r)).
  assert (length blk = bl) as Hblk.
  { unfold blk, pkcs5_block. rewrite length_app, length_replicate. lia. }
  assert (bytes blk) as Hblkb.
  { unfold blk, pkcs5_block. apply Forall_app_2; [auto with word|].
    apply Forall_replicate. unfold is_u. lia. }
  rewrite (take_app_length' blk) by done.
  destruct (mode_roundtrip m sk v (take off inp)) as (v1 & c1 & -> & Hc1b & Hv1b & Hv1l & Hc1l & Hd1);
    [done|done|done|auto with word| |].
  { rewrite length_take. by replace (off `min` length inp)%nat with off by lia. }
  rewrite length_take in Hc1l. rewrite ?decide_False by (intros []; done). simpl.
  destruct (mode_roundtrip m sk v1 blk) as (v2 & c2 & -> & Hc2b & Hv2b & Hv2l & Hc2l & Hd2);
    [done|done|lia|done| |].
  { rewrite Hblk. apply Nat.Div0.mod_same. }
  rewrite ?decide_False by (intros []; done).
  assert (length (c1 ++ c2) = (length inp / bl + 1) * bl)%nat as Hcl
    by (rewrite length_app; lia).
  eexists _, _. split; [done|]. split; [auto with word|]. split; [done|].
  intros outlen' Hol'. rewrite Hcl, decide_False; cycle 1.
  { rewrite Nat.Div0.mod_mul. lia. }
  replace ((length inp / bl + 1) * bl - bl)%nat with off by lia.
  rewrite decide_False by lia.
  rewrite take_app_length', drop_app_length' by lia. rewrite Hd1. simpl.
  rewrite ?decide_False by (intros []; done). rewrite Hd2.
  rewrite ?decide_False by (intros []; done).
  assert (pkcs5_unpad blk bl = inl r) as ->.
  { apply pkcs5_unpad_spec; [done|lia|]. split_and!; [lia|lia|].
    rewrite take_ge by lia. unfold blk at 1. f_equal. unfold blk, pkcs5_block.
    by rewrite take_app_length'. }
  rewrite u32_id by (unfold is_u; lia). rewrite decide_False by lia.
  eexists. f_equal. unfold blk, pkcs5_block. rewrite take_app_length' by done.
  apply take_drop.
Qed.
End interface.

(** Decryption of any input in a keyed context: what it accepts is no longer than the input. *)
Lemma cipher_decrypt_total d `{!BlockCipher d} m k sk inp :
  c_init d k = inl sk -> bytes k -> bytes inp ->
  exists ctx, isrcry_cipher_init (cipher_ctx_new d m) ISRCRY_DECRYPT k None = (ISRCRY_OK, ctx) /\
    (exists rc ctx' out, isrcry_cipher_process ctx inp = (rc, ctx', out) /\
       bytes out /\ (rc = ISRCRY_OK -> length out = length inp)) /\
    (forall room, exists rc ctx' out,
       isrcry_cipher_final ctx ISRCRY_PADDING_PKCS5 inp room = (rc, ctx', out) /\
       bytes out /\ (rc = ISRCRY_OK -> (length out < length inp)%nat)).
Proof.
  intros Hi Hk Hb. pose proof bc_blocklen as Hbl. unfold MAX_BLOCK_LEN in Hbl.
  destruct (isrcry_cipher_init_spec m ISRCRY_DECRYPT k None sk Hi Hk I)
    as (v & He & Hsk & Hvb & Hvl & _). unfold MAX_BLOCK_LEN in Hvl.
  eexists. split; [exact He|]. split.
  - unfold isrcry_cipher_process; simpl.
    pose proof (mode_decrypt_total m sk v inp Hsk Hvb ltac:(lia) Hb) as Hd. case_decide.
    + destruct Hd as (v' & out & -> & Hob & _ & _ & Hl). by eexists _, _, out.
    + rewrite Hd. by eexists _, _, _.
  - intros room. unfold isrcry_cipher_final; simpl.
    case_decide as Hbad; [by eexists _, _, _|]. case_decide; [by eexists _, _, _|].
    assert (c_blocklen d <= length inp)%nat as Hge.
    { pose proof (Nat.div_mod (length inp) (c_blocklen d) ltac:(lia)).
      destruct (length inp / c_blocklen d)%nat; lia. }
    assert ((length inp - c_blocklen d) mod c_blocklen d = 0)%nat as Hoff.
    { replace (length inp) with (length inp - c_blocklen d + 1 * c_blocklen d)%nat in Hbad by lia.
      rewrite Nat.Div0.mod_add in Hbad. lia. }
    pose proof (mode_decrypt_total m sk v (take (length inp - c_blocklen d) inp) Hsk Hvb
      ltac:(lia) ltac:(auto with word)) as Hd1.
    rewrite length_take, Nat.min_l, decide_True in Hd1 by lia.
    destruct Hd1 as (v1 & out1 & -> & Hob1 & Hv1 & Hvl1 & Hl1).
    rewrite decide_False by (intros []; done). cbn [mode cipher].
    pose proof (mode_decrypt_total m sk v1 (drop (length inp - c_blocklen d) inp) Hsk Hv1
      ltac:(lia) ltac:(auto with word)) as Hd2.
    rewrite length_drop in Hd2.
    replace (length inp - (length inp - c_blocklen d))%nat with (c_blocklen d) in Hd2 by lia.
    rewrite decide_True in Hd2 by apply Nat.Div0.mod_same.
    destruct Hd2 as (v2 & lb & -> & Hob2 & Hv2 & Hvl2 & Hl2).
    rewrite decide_False by (intros []; done).
    destruct (pkcs5_unpad lb (c_blocklen d)) as [len|e] eqn:Hu.
    2:{ eexists _, _, _. split; [done|]. split; [done|]. simpl. lia. }
    apply pkcs5_unpad_spec in Hu as (Hlen & _); [|done|lia].
    case_decide; eexists _, _, _; (split; [done|]); split; auto with word; try done.
    intros _. rewrite length_app, length_take. lia.
Qed.

(** Encryption, and decryption with the same key and IV, in both modes. *)
Lemma cipher_process_inverse d `{!BlockCipher d} m k v sk inp :
  c_init d k = inl sk -> bytes k ->
  match v with Some v => bytes v /\ (c_blocklen d <= length v)%nat | None => True end ->
  bytes inp -> (length inp mod c_blocklen d = 0)%nat ->
  exists ectx dctx ectx' dctx' out,
    isrcry_cipher_init (cipher_ctx_new d m) ISRCRY_ENCRYPT k v = (ISRCRY_OK, ectx) /\
    isrcry_cipher_init (cipher_ctx_new d m) ISRCRY_DECRYPT k v = (ISRCRY_OK, dctx) /\
    isrcry_cipher_process ectx inp = (ISRCRY_OK, ectx', out) /\
    length out = length inp /\ bytes out /\
    isrcry_cipher_process dctx out = (ISRCRY_OK, dctx', inp).
Proof.
  intros Hi Hk Hv Hb Hm. pose proof bc_blocklen as Hbl. unfold MAX_BLOCK_LEN in Hbl.
  destruct (isrcry_cipher_init_spec m ISRCRY_ENCRYPT k v sk Hi Hk Hv)
    as (v' & He & Hsk & Hvb & Hvl & Hd).
  destruct (mode_roundtrip m sk v' inp) as (v2 & out & Hen & Hob & _ & _ & Hol & Hde);
    [done|done|rewrite Hvl; unfold MAX_BLOCK_LEN; lia|done|done|].
  eexists _, _, _, _, out. split_and!; [exact He|apply Hd|exact Hen|done|done|exact Hde].
Qed.

Lemma cipher_final_inverse d `{!BlockCipher d} m k v sk inp outlen :
  c_init d k = inl sk -> bytes k ->
  match v with Some v => bytes v /\ (c_blocklen d <= length v)%nat | None => True end ->
  bytes inp -> Z.of_nat (length inp) + Z.of_nat (c_blocklen d) < 2 ^ 32 ->
  Z.of_nat ((length inp / c_blocklen d + 1) * c_blocklen d) <= outlen ->
  exists ectx dctx ectx' c,
    isrcry_cipher_init (cipher_ctx_new d m) ISRCRY_ENCRYPT k v = (ISRCRY_OK, ectx) /\
    isrcry_cipher_init (cipher_ctx_new d m) ISRCRY_DECRYPT k v = (ISRCRY_OK, dctx) /\
    isrcry_cipher_final ectx ISRCRY_PADDING_PKCS5 inp outlen = (ISRCRY_OK, ectx', c) /\
    length c = ((length inp / c_blocklen d + 1) * c_blocklen d)%nat /\ bytes c /\
    forall room, Z.of_nat (length inp) <= room -> exists dctx',
      isrcry_cipher_final dctx ISRCRY_PADDING_PKCS5 c room = (ISRCRY_OK, dctx', inp).
Proof.
  intros Hi Hk Hv Hb H32 Hol. pose proof bc_blocklen as Hbl. unfold MAX_BLOCK_LEN in Hbl.
  destruct (isrcry_cipher_init_spec m ISRCRY_ENCRYPT k v sk Hi Hk Hv)
    as (v' & He & Hsk & Hvb & Hvl & Hd).
  destruct (isrcry_cipher_final_spec m sk v' inp outlen) as (ctx' & c & Hen & Hcb & Hcl & Hdec);
    [done|done|rewrite Hvl; unfold MAX_BLOCK_LEN; lia|done..|].
  eexists _, _, _, c. split_and!; [exact He|apply Hd|exact Hen|done|done|exact Hdec].
Qed.

(** * Properties *)

(** [pkcs5_unpad] accepts a block exactly when it ends in [n] bytes of value [n] for some
    1 <= n <= blocklen, and then reports the length before them. *)
Theorem pkcs5_unpad_exact buf bl len :
  bytes buf -> (1 <= bl <= length buf)%nat ->
  pkcs5_unpad buf bl = inl len <->
  (len < bl)%nat /\ (bl - len <= 255)%nat /\
  take bl buf = take len buf ++ replicate (bl - len) (Z.of_nat (bl - len)).
Proof. apply pkcs5_unpad_spec. Qed.

Lemma pkcs5_unpad_exact_witness :
  pkcs5_unpad [5; 6; 2; 2] 4 = inl 2%nat <->
  (2 < 4)%nat /\ (4 - 2 <= 255)%nat /\
  take 4 [5; 6; 2; 2] = take 2 [5; 6; 2; 2] ++ replicate (4 - 2) (Z.of_nat (4 - 2)).
Proof.
  apply (pkcs5_unpad_exact [5; 6; 2; 2] 4 2); [|simpl; lia].
  repeat (apply Forall_cons_2; [by vm_compute|]). apply Forall_nil_2.
Defined.

(** Splitting an encryption into two calls of [cbc_encrypt] at a block boundary produces the
    same ciphertext and leaves the same IV as one call on the whole input. *)
Theorem cbc_encrypt_incremental d m sk v dir a b ctx1 out1 :
  (forall x, c_encrypt d sk x <> inr ISRCRY_OK) ->
  cbc_encrypt (mk_cctx d m sk v dir) a = (ISRCRY_OK, ctx1, out1) ->
  (length b mod c_blocklen d = 0)%nat ->
  cbc_encrypt (mk_cctx d m sk v dir) (a ++ b) =
    let '(ret, ctx2, out2) := cbc_encrypt ctx1 b in (ret, ctx2, out1 ++ out2).
Proof.
  unfold cbc_encrypt; simpl. intros Hf Ha Hb. case_decide as Hbad; [done|].
  assert (1 <= c_blocklen d)%nat as Hbl by lia.
  destruct (cbc_encrypt_loop _ _ _ v a) as [[ret v1] o1] eqn:Hl.
  injection Ha as -> <- ->. simpl.
  rewrite !decide_False.
  2:{ lia. }
  2:{ rewrite length_app, Nat.Div0.add_mod, Hb. replace (length a mod c_blocklen d)%nat with 0%nat by lia.
      rewrite Nat.Div0.mod_0_l. lia. }
  rewrite length_app. replace (length a + length b)%nat
    with (length a / c_blocklen d * c_blocklen d + length b)%nat.
  2:{ pose proof (Nat.div_mod (length a) (c_blocklen d) ltac:(lia)). lia. }
  rewrite Nat.div_add_l by lia.
  rewrite (cbc_encrypt_loop_app _ _ _ _ _ a b v1 out1); [|done| |done].
  - by destruct (cbc_encrypt_loop _ _ _ v1 b) as [[??]?].
  - pose proof (Nat.div_mod (length a) (c_blocklen d) ltac:(lia)). lia.
Qed.

(** For every cipher whose decryption inverts its encryption, in both modes, contexts
    initialised with the same key and IV decrypt what they encrypt. *)
Theorem isrcry_cipher_process_roundtrip d `{!BlockCipher d} m k v sk inp :
  c_init d k = inl sk -> bytes k ->
  match v with Some v => bytes v /\ (c_blocklen d <= length v)%nat | None => True end ->
  bytes inp -> (length inp mod c_blocklen d = 0)%nat ->
  exists ectx dctx ectx' dctx' out,
    isrcry_cipher_init (cipher_ctx_new d m) ISRCRY_ENCRYPT k v = (ISRCRY_OK, ectx) /\
    isrcry_cipher_init (cipher_ctx_new d m) ISRCRY_DECRYPT k v = (ISRCRY_OK, dctx) /\
    isrcry_cipher_process ectx inp = (ISRCRY_OK, ectx', out) /\
    length out = length inp /\ bytes out /\
    isrcry_cipher_process dctx out = (ISRCRY_OK, dctx', inp).
Proof. exact (cipher_process_inverse d m k v sk inp). Qed.

(** The padded encryption of any input by [isrcry_cipher_final] has the next multiple of the
    block length above the input's, and decrypts by [isrcry_cipher_final] to the input, given an
    output buffer of at least the input's length. *)
Theorem isrcry_cipher_final_roundtrip d `{!BlockCipher d} m k v sk inp outlen :
  c_init d k = inl sk -> bytes k ->
  match v with Some v => bytes v /\ (c_blocklen d <= length v)%nat | None => True end ->
  bytes inp -> Z.of_nat (length inp) + Z.of_nat (c_blocklen d) < 2 ^ 32 ->
  Z.of_nat ((length inp / c_blocklen d + 1) * c_blocklen d) <= outlen ->
  exists ectx dctx ectx' c,
    isrcry_cipher_init (cipher_ctx_new d m) ISRCRY_ENCRYPT k v = (ISRCRY_OK, ectx) /\
    isrcry_cipher_init (cipher_ctx_new d m) ISRCRY_DECRYPT k v = (ISRCRY_OK, dctx) /\
    isrcry_cipher_final ectx ISRCRY_PADDING_PKCS5 inp outlen = (ISRCRY_OK, ectx', c) /\
    length c = ((length inp / c_blocklen d + 1) * c_blocklen d)%nat /\ bytes c /\
    forall room, Z.of_nat (length inp) <= room -> exists dctx',
      isrcry_cipher_final dctx ISRCRY_PADDING_PKCS5 c room = (ISRCRY_OK, dctx', inp).
Proof. exact (cipher_final_inverse d m k v sk inp outlen). Qed.
