(* ===== verification/Aes.v ===== *)
(** AES (src/crypto/aes.c): key schedule, encryption and decryption with the tables of
    aes_tab.h.

    The cipher state is four 32-bit words; the round keys are the arrays [eK] and [dK] of the
    scheduled key, read and written at offsets as the pointers [rk] and [rrk] of the code.

    Shown: decryption undoes encryption for every key of 16, 24 or 32 bytes, which discharges
    the [BlockCipher] interface of Cipher.v; and the tables hold what their comment says. *)

From S2P Require Import Prelude Cipher AesTab.

(** A table indexed by a byte. *)
Definition tab (t : list Z) (x : Z) : Z := get t (Z.to_nat x).

Record isrcry_aes_key := mk_aes_key {
  eK : list Z;
  dK : list Z;
  Nr : Z
}.

(** [RORc(x, y)] for 0 < y < 32. *)
Definition RORc (x y : Z) : Z :=
  Z.land (Z.lor (Z.shiftr (Z.land x 0xFFFFFFFF) (Z.land y 31)) (Z.shiftl x (32 - Z.land y 31)))
    0xFFFFFFFF.

Definition setup_mix (temp : Z) : Z :=
  Z.lxor (tab Te4_3 (byte temp 2))
    (Z.lxor (tab Te4_2 (byte temp 1))
      (Z.lxor (tab Te4_1 (byte temp 0)) (tab Te4_0 (byte temp 3)))).

(** "rk[d] = x;" *)
Definition put (rk : list Z) (i : nat) (x : Z) : list Z := <[i := x]> rk.

(** The forward key of a 16-byte key: [n] turns of the loop left, at round [i] and offset [rk]. *)
Fixpoint aes_expand16 (n i rk : nat) (ek : list Z) : list Z :=
  match n with
  | O => ek
  | S n =>
      let temp := get ek (rk + 3) in
      let ek := put ek (rk + 4)
        (Z.lxor (Z.lxor (get ek rk) (setup_mix temp)) (get rcon i)) in
      let ek := put ek (rk + 5) (Z.lxor (get ek (rk + 1)) (get ek (rk + 4))) in
      let ek := put ek (rk + 6) (Z.lxor (get ek (rk + 2)) (get ek (rk + 5))) in
      let ek := put ek (rk + 7) (Z.lxor (get ek (rk + 3)) (get ek (rk + 6))) in
      aes_expand16 n (i + 1) (rk + 4) ek
  end.

(** The same for 24 bytes: the last turn stops after four words. *)
Fixpoint aes_expand24 (n i rk : nat) (ek : list Z) : list Z :=
  match n with
  | O => ek
  | S n =>
      let temp := get ek (rk + 5) in
      let ek := put ek (rk + 6)
        (Z.lxor (Z.lxor (get ek rk) (setup_mix temp)) (get rcon i)) in
      let ek := put ek (rk + 7) (Z.lxor (get ek (rk + 1)) (get ek (rk + 6))) in
      let ek := put ek (rk + 8) (Z.lxor (get ek (rk + 2)) (get ek (rk + 7))) in
      let ek := put ek (rk + 9) (Z.lxor (get ek (rk + 3)) (get ek (rk + 8))) in
      match n with
      | O => ek
      | _ =>
          let ek := put ek (rk + 10) (Z.lxor (get ek (rk + 4)) (get ek (rk + 9))) in
          let ek := put ek (rk + 11) (Z.lxor (get ek (rk + 5)) (get ek (rk + 10))) in
          aes_expand24 n (i + 1) (rk + 6) ek
      end
  end.

(** And for 32 bytes. *)
Fixpoint aes_expand32 (n i rk : nat) (ek : list Z) : list Z :=
  match n with
  | O => ek
  | S n =>
      let temp := get ek (rk + 7) in
      let ek := put ek (rk + 8)
        (Z.lxor (Z.lxor (get ek rk) (setup_mix temp)) (get rcon i)) in
      let ek := put ek (rk + 9) (Z.lxor (get ek (rk + 1)) (get ek (rk + 8))) in
      let ek := put ek (rk + 10) (Z.lxor (get ek (rk + 2)) (get ek (rk + 9))) in
      let ek := put ek (rk + 11) (Z.lxor (get ek (rk + 3)) (get ek (rk + 10))) in
      match n with
      | O => ek
      | _ =>
          let temp := get ek (rk + 11) in
          let ek := put ek (rk + 12) (Z.lxor (get ek (rk + 4)) (setup_mix (RORc temp 8))) in
          let ek := put ek (rk + 13) (Z.lxor (get ek (rk + 5)) (get ek (rk + 12))) in
          let ek := put ek (rk + 14) (Z.lxor (get ek (rk + 6)) (get ek (rk + 13))) in
          let ek := put ek (rk + 15) (Z.lxor (get ek (rk + 7)) (get ek (rk + 14))) in
          aes_expand32 n (i + 1) (rk + 8) ek
      end
  end.

(** "LOAD32H(rk[i], key + 4 * i)" for the words [i] of a key. *)
Definition aes_load_key (ek key : list Z) (words : nat) : list Z :=
  foldl (fun ek i => put ek i (LOAD32H key (4 * i))) ek (seq 0 words).

(** The inverse MixColumns transform of a round key word. *)
Definition inv_mix (temp : Z) : Z :=
  Z.lxor (tab Tks0 (byte temp 3))
    (Z.lxor (tab Tks1 (byte temp 2))
      (Z.lxor (tab Tks2 (byte temp 1)) (tab Tks3 (byte temp 0)))).

(** Four words stored at [rk]: [f] of the four words of [ek] at [rrk]. *)
Definition put4 (f : Z -> Z) (dk : list Z) (rk : nat) (ek : list Z) (rrk : nat) : list Z :=
  let dk := put dk rk (f (get ek rrk)) in
  let dk := put dk (rk + 1) (f (get ek (rrk + 1))) in
  let dk := put dk (rk + 2) (f (get ek (rrk + 2))) in
  put dk (rk + 3) (f (get ek (rrk + 3))).

(** [n] turns of "rrk -= 4; rk += 4; ..." of the inverse key. *)
Fixpoint aes_invert (n rk rrk : nat) (ek dk : list Z) : list Z :=
  match n with
  | O => dk
  | S n => aes_invert n (rk + 4) (rrk - 4) ek (put4 inv_mix dk (rk + 4) ek (rrk - 4))
  end.

(** "setup the inverse key now", from a forward key of [j] words. *)
Definition aes_setup_inverse (ek : list Z) (j nr : nat) : isrcry_aes_key :=
  let rrk := (j - 4)%nat in
  let n := (nr - 1)%nat in
  let dk := put4 id (replicate 60 0) 0 ek rrk in
  let dk := aes_invert n 0 rrk ek dk in
  let dk := put4 id dk (4 * (n + 1)) ek (rrk - 4 * (n + 1)) in
  mk_aes_key ek dk (Z.of_nat nr).

(** The words of [eK] and [dK] past those of the key size are not used; they are zero here. *)
Definition aes_init (key : list Z) : isrcry_aes_key + isrcry_result :=
  let keylen := length key in
  if decide (keylen <> 16 /\ keylen <> 24 /\ keylen <> 32)%nat
  then inr ISRCRY_INVALID_ARGUMENT
  else
    let nr := (10 + (keylen / 8 - 2) * 2)%nat in
    let zero := replicate 60 0 in
    if decide (keylen = 16)%nat then
      inl (aes_setup_inverse (aes_expand16 10 0 0 (aes_load_key zero key 4)) 44 nr)
    else if decide (keylen = 24)%nat then
      inl (aes_setup_inverse (aes_expand24 8 0 0 (aes_load_key zero key 6)) 52 nr)
    else
      inl (aes_setup_inverse (aes_expand32 7 0 0 (aes_load_key zero key 8)) 60 nr).

(** * Encryption *)

(** The locals s0..s3 or t0..t3. *)
Record quad := mk_quad { q0 : Z; q1 : Z; q2 : Z; q3 : Z }.

(** A full round of encryption: t0..t3 from s0..s3 (or back), with the round key at [rk]. *)
Definition aes_enc_round (ek : list Z) (rk : nat) (s : quad) : quad :=
  mk_quad
    (Z.lxor (tab Te0 (byte (q0 s) 3)) (Z.lxor (tab Te1 (byte (q1 s) 2))
      (Z.lxor (tab Te2 (byte (q2 s) 1)) (Z.lxor (tab Te3 (byte (q3 s) 0)) (get ek rk)))))
    (Z.lxor (tab Te0 (byte (q1 s) 3)) (Z.lxor (tab Te1 (byte (q2 s) 2))
      (Z.lxor (tab Te2 (byte (q3 s) 1)) (Z.lxor (tab Te3 (byte (q0 s) 0)) (get ek (rk + 1))))))
    (Z.lxor (tab Te0 (byte (q2 s) 3)) (Z.lxor (tab Te1 (byte (q3 s) 2))
      (Z.lxor (tab Te2 (byte (q0 s) 1)) (Z.lxor (tab Te3 (byte (q1 s) 0)) (get ek (rk + 2))))))
    (Z.lxor (tab Te0 (byte (q3 s) 3)) (Z.lxor (tab Te1 (byte (q0 s) 2))
      (Z.lxor (tab Te2 (byte (q1 s) 1)) (Z.lxor (tab Te3 (byte (q2 s) 0)) (get ek (rk + 3)))))).

(** "for (;;)" with [r] turns left; the round keys at [rk]. *)
Fixpoint aes_enc_loop (r : nat) (ek : list Z) (rk : nat) (s : quad) : quad * nat :=
  let t := aes_enc_round ek (rk + 4) s in
  let rk := (rk + 8)%nat in
  match r with
  | O | S O => (t, rk)
  | S r => aes_enc_loop r ek rk (aes_enc_round ek rk t)
  end.

Definition aes_load (inp rk : list Z) : quad :=
  mk_quad (Z.lxor (LOAD32H inp 0) (get rk 0)) (Z.lxor (LOAD32H inp 4) (get rk 1))
    (Z.lxor (LOAD32H inp 8) (get rk 2)) (Z.lxor (LOAD32H inp 12) (get rk 3)).

Definition aes_store (s : quad) : list Z :=
  STORE32H (q0 s) ++ STORE32H (q1 s) ++ STORE32H (q2 s) ++ STORE32H (q3 s).

(** "apply last round". *)
Definition aes_enc_last (ek : list Z) (rk : nat) (t : quad) : quad :=
  mk_quad
    (Z.lxor (tab Te4_3 (byte (q0 t) 3)) (Z.lxor (tab Te4_2 (byte (q1 t) 2))
      (Z.lxor (tab Te4_1 (byte (q2 t) 1)) (Z.lxor (tab Te4_0 (byte (q3 t) 0)) (get ek rk)))))
    (Z.lxor (tab Te4_3 (byte (q1 t) 3)) (Z.lxor (tab Te4_2 (byte (q2 t) 2))
      (Z.lxor (tab Te4_1 (byte (q3 t) 1)) (Z.lxor (tab Te4_0 (byte (q0 t) 0)) (get ek (rk + 1))))))
    (Z.lxor (tab Te4_3 (byte (q2 t) 3)) (Z.lxor (tab Te4_2 (byte (q3 t) 2))
      (Z.lxor (tab Te4_1 (byte (q0 t) 1)) (Z.lxor (tab Te4_0 (byte (q1 t) 0)) (get ek (rk + 2))))))
    (Z.lxor (tab Te4_3 (byte (q3 t) 3)) (Z.lxor (tab Te4_2 (byte (q0 t) 2))
      (Z.lxor (tab Te4_1 (byte (q1 t) 1)) (Z.lxor (tab Te4_0 (byte (q2 t) 0)) (get ek (rk + 3)))))).

Definition aes_encrypt (skey : isrcry_aes_key) (inp : list Z) : list Z + isrcry_result :=
  let s := aes_load inp (eK skey) in
  let '(t, rk) := aes_enc_loop (Z.to_nat (Z.shiftr (Nr skey) 1)) (eK skey) 0 s in
  inl (aes_store (aes_enc_last (eK skey) rk t)).

(** * Decryption *)

Definition aes_dec_round (dk : list Z) (rk : nat) (s : quad) : quad :=
  mk_quad
    (Z.lxor (tab Td0 (byte (q0 s) 3)) (Z.lxor (tab Td1 (byte (q3 s) 2))
      (Z.lxor (tab Td2 (byte (q2 s) 1)) (Z.lxor (tab Td3 (byte (q1 s) 0)) (get dk rk)))))
    (Z.lxor (tab Td0 (byte (q1 s) 3)) (Z.lxor (tab Td1 (byte (q0 s) 2))
      (Z.lxor (tab Td2 (byte (q3 s) 1)) (Z.lxor (tab Td3 (byte (q2 s) 0)) (get dk (rk + 1))))))
    (Z.lxor (tab Td0 (byte (q2 s) 3)) (Z.lxor (tab Td1 (byte (q1 s) 2))
      (Z.lxor (tab Td2 (byte (q0 s) 1)) (Z.lxor (tab Td3 (byte (q3 s) 0)) (get dk (rk + 2))))))
    (Z.lxor (tab Td0 (byte (q3 s) 3)) (Z.lxor (tab Td1 (byte (q2 s) 2))
      (Z.lxor (tab Td2 (byte (q1 s) 1)) (Z.lxor (tab Td3 (byte (q0 s) 0)) (get dk (rk + 3)))))).

Fixpoint aes_dec_loop (r : nat) (dk : list Z) (rk : nat) (s : quad) : quad * nat :=
  let t := aes_dec_round dk (rk + 4) s in
  let rk := (rk + 8)%nat in
  match r with
  | O | S O => (t, rk)
  | S r => aes_dec_loop r dk rk (aes_dec_round dk rk t)
  end.

Definition aes_dec_last (dk : list Z) (rk : nat) (t : quad) : quad :=
  mk_quad
    (Z.lxor (Z.land (tab Td4 (byte (q0 t) 3)) 0xff000000)
      (Z.lxor (Z.land (tab Td4 (byte (q3 t) 2)) 0x00ff0000)
        (Z.lxor (Z.land (tab Td4 (byte (q2 t) 1)) 0x0000ff00)
          (Z.lxor (Z.land (tab Td4 (byte (q1 t) 0)) 0x000000ff) (get dk rk)))))
    (Z.lxor (Z.land (tab Td4 (byte (q1 t) 3)) 0xff000000)
      (Z.lxor (Z.land (tab Td4 (byte (q0 t) 2)) 0x00ff0000)
        (Z.lxor (Z.land (tab Td4 (byte (q3 t) 1)) 0x0000ff00)
          (Z.lxor (Z.land (tab Td4 (byte (q2 t) 0)) 0x000000ff) (get dk (rk + 1))))))
    (Z.lxor (Z.land (tab Td4 (byte (q2 t) 3)) 0xff000000)
      (Z.lxor (Z.land (tab Td4 (byte (q1 t) 2)) 0x00ff0000)
        (Z.lxor (Z.land (tab Td4 (byte (q0 t) 1)) 0x0000ff00)
          (Z.lxor (Z.land (tab Td4 (byte (q3 t) 0)) 0x000000ff) (get dk (rk + 2))))))
    (Z.lxor (Z.land (tab Td4 (byte (q3 t) 3)) 0xff000000)
      (Z.lxor (Z.land (tab Td4 (byte (q2 t) 2)) 0x00ff0000)
        (Z.lxor (Z.land (tab Td4 (byte (q1 t) 1)) 0x0000ff00)
          (Z.lxor (Z.land (tab Td4 (byte (q0 t) 0)) 0x000000ff) (get dk (rk + 3)))))).

Definition aes_decrypt (skey : isrcry_aes_key) (inp : list Z) : list Z + isrcry_result :=
  let s := aes_load inp (dK skey) in
  let '(t, rk) := aes_dec_loop (Z.to_nat (Z.shiftr (Nr skey) 1)) (dK skey) 0 s in
  inl (aes_store (aes_dec_last (dK skey) rk t)).

Definition _isrcry_aes_desc : isrcry_cipher_desc := {|
  ckey := isrcry_aes_key;
  ckey0 := mk_aes_key (replicate 60 0) (replicate 60 0) 0;
  c_init := aes_init;
  c_encrypt := aes_encrypt;
  c_decrypt := aes_decrypt;
  c_blocklen := 16
|}.

(** * Facts about the tables, by evaluation over the 256 bytes *)

Definition all_bytes : list Z := map Z.of_nat (seq 0 256).

Lemma all_bytes_spec (f : Z -> bool) :
  forallb f all_bytes = true -> forall x, is_u 8 x -> f x = true.
Proof.
  rewrite forallb_forall. intros Hall x Hx. apply Hall. unfold all_bytes.
  apply in_map_iff. exists (Z.to_nat x). destruct Hx as [H0 H1]. change (2 ^ 8) with 256 in H1.
  split; [lia|]. apply in_seq. lia.
Qed.

(** Proves [forall x, is_u 8 x -> P x] from a boolean check of all the bytes. *)
Ltac by_all_bytes f :=
  intros x Hx; apply Z.eqb_eq; revert x Hx; apply (all_bytes_spec f); vm_compute; reflexivity.

(** The S-box, as the table of the last round holds it. *)
Definition sbox (x : Z) : Z := tab Te4_0 x.

Lemma is_u8_sbox x : is_u 8 x -> is_u 8 (sbox x).
Proof.
  intros Hx. pose proof (all_bytes_spec (fun x => (0 <=? sbox x) && (sbox x <? 256))
    ltac:(vm_compute; reflexivity) x Hx) as H.
  apply andb_prop in H as [H0%Z.leb_le H1%Z.ltb_lt]. by split.
Qed.
#[local] Hint Resolve is_u8_sbox : word.

Lemma Te4_spec x : is_u 8 x ->
  tab Te4_3 x = Z.shiftl (sbox x) 24 /\ tab Te4_2 x = Z.shiftl (sbox x) 16 /\
  tab Te4_1 x = Z.shiftl (sbox x) 8 /\ tab Te4_0 x = sbox x.
Proof.
  intros Hx. repeat split; revert x Hx.
  - by_all_bytes (fun x => tab Te4_3 x =? Z.shiftl (sbox x) 24).
  - by_all_bytes (fun x => tab Te4_2 x =? Z.shiftl (sbox x) 16).
  - by_all_bytes (fun x => tab Te4_1 x =? Z.shiftl (sbox x) 8).
Qed.

(** Td tables undo the S-box, then transform like the key tables. *)
Lemma Td_sbox x : is_u 8 x ->
  tab Td0 (sbox x) = tab Tks0 x /\ tab Td1 (sbox x) = tab Tks1 x /\
  tab Td2 (sbox x) = tab Tks2 x /\ tab Td3 (sbox x) = tab Tks3 x.
Proof.
  intros Hx. repeat split; revert x Hx.
  - by_all_bytes (fun x => tab Td0 (sbox x) =? tab Tks0 x).
  - by_all_bytes (fun x => tab Td1 (sbox x) =? tab Tks1 x).
  - by_all_bytes (fun x => tab Td2 (sbox x) =? tab Tks2 x).
  - by_all_bytes (fun x => tab Td3 (sbox x) =? tab Tks3 x).
Qed.

Lemma Td4_sbox x : is_u 8 x ->
  Z.land (tab Td4 (sbox x)) 0xff000000 = Z.shiftl x 24 /\
  Z.land (tab Td4 (sbox x)) 0x00ff0000 = Z.shiftl x 16 /\
  Z.land (tab Td4 (sbox x)) 0x0000ff00 = Z.shiftl x 8 /\
  Z.land (tab Td4 (sbox x)) 0x000000ff = x.
Proof.
  intros Hx. repeat split; revert x Hx.
  - by_all_bytes (fun x => Z.land (tab Td4 (sbox x)) 0xff000000 =? Z.shiftl x 24).
  - by_all_bytes (fun x => Z.land (tab Td4 (sbox x)) 0x00ff0000 =? Z.shiftl x 16).
  - by_all_bytes (fun x => Z.land (tab Td4 (sbox x)) 0x0000ff00 =? Z.shiftl x 8).
  - by_all_bytes (fun x => Z.land (tab Td4 (sbox x)) 0x000000ff =? x).
Qed.

(** The inverse MixColumns transform takes each round table back to the S-box. *)
Lemma inv_mix_Te x : is_u 8 x ->
  inv_mix (tab Te0 x) = Z.shiftl (sbox x) 24 /\ inv_mix (tab Te1 x) = Z.shiftl (sbox x) 16 /\
  inv_mix (tab Te2 x) = Z.shiftl (sbox x) 8 /\ inv_mix (tab Te3 x) = sbox x.
Proof.
  intros Hx. repeat split; revert x Hx.
  - by_all_bytes (fun x => inv_mix (tab Te0 x) =? Z.shiftl (sbox x) 24).
  - by_all_bytes (fun x => inv_mix (tab Te1 x) =? Z.shiftl (sbox x) 16).
  - by_all_bytes (fun x => inv_mix (tab Te2 x) =? Z.shiftl (sbox x) 8).
  - by_all_bytes (fun x => inv_mix (tab Te3 x) =? sbox x).
Qed.

(** A table of 32-bit entries. *)
Definition u32_table (t : list Z) : bool := forallb (fun x => (0 <=? x) && (x <? 2 ^ 32)) t.

Lemma u32_table_spec t x : u32_table t = true -> is_u 32 (tab t x).
Proof.
  unfold u32_table, tab, get. rewrite forallb_forall. intros Ht.
  destruct (t !! Z.to_nat x) as [y|] eqn:E; [|done]. simpl.
  apply list_elem_of_lookup_2, list_elem_of_In, Ht, andb_prop in E.
  destruct E as [H0%Z.leb_le H1%Z.ltb_lt]. by split.
Qed.

Lemma is_u32_Te x : is_u 32 (tab Te0 x) /\ is_u 32 (tab Te1 x) /\ is_u 32 (tab Te2 x) /\
  is_u 32 (tab Te3 x).
Proof. split_and!; apply u32_table_spec; vm_compute; reflexivity. Qed.

Lemma is_u32_Tks x : is_u 32 (tab Tks0 x) /\ is_u 32 (tab Tks1 x) /\ is_u 32 (tab Tks2 x) /\
  is_u 32 (tab Tks3 x).
Proof. split_and!; apply u32_table_spec; vm_compute; reflexivity. Qed.

(** * Linearity of the inverse MixColumns transform *)

(** The linear map on bytes with the given images of the eight bits. *)
Fixpoint lin (basis : list Z) (i : Z) (x : Z) : Z :=
  match basis with
  | [] => 0
  | b :: basis => Z.lxor (if Z.testbit x i then b else 0) (lin basis (i + 1) x)
  end.

Lemma lxor_swap4 a b c d : Z.lxor (Z.lxor a b) (Z.lxor c d) = Z.lxor (Z.lxor a c) (Z.lxor b d).
Proof.
  rewrite !Z.lxor_assoc. f_equal. rewrite <- !Z.lxor_assoc. f_equal. apply Z.lxor_comm.
Qed.

Lemma lin_lxor basis i x y :
  lin basis i (Z.lxor x y) = Z.lxor (lin basis i x) (lin basis i y).
Proof.
  revert i. induction basis as [|b basis IH]; intros i; simpl; [done|].
  rewrite IH, (lxor_swap4 _ _ (if Z.testbit y i then b else 0)). f_equal.
  rewrite Z.lxor_spec. destruct (Z.testbit x i), (Z.testbit y i); simpl;
    by rewrite ?Z.lxor_nilpotent, ?Z.lxor_0_r.
Qed.

Definition basis_of (t : list Z) : list Z := map (tab t) [1; 2; 4; 8; 16; 32; 64; 128].

Definition is_linear (t : list Z) : bool :=
  let b := basis_of t in forallb (fun x => tab t x =? lin b 0 x) all_bytes.

Lemma tab_lxor t x y :
  is_linear t = true -> is_u 8 x -> is_u 8 y -> tab t (Z.lxor x y) = Z.lxor (tab t x) (tab t y).
Proof.
  intros Hl Hx Hy. unfold is_linear in Hl.
  assert (forall x, is_u 8 x -> tab t x = lin (basis_of t) 0 x) as H
    by (intros z Hz; apply Z.eqb_eq; by apply (all_bytes_spec _ Hl)).
  rewrite !H by auto with word. apply lin_lxor.
Qed.

Lemma lxor_swap8 a1 b1 a2 b2 a3 b3 a4 b4 :
  Z.lxor (Z.lxor a1 b1) (Z.lxor (Z.lxor a2 b2) (Z.lxor (Z.lxor a3 b3) (Z.lxor a4 b4)))
  = Z.lxor (Z.lxor a1 (Z.lxor a2 (Z.lxor a3 a4))) (Z.lxor b1 (Z.lxor b2 (Z.lxor b3 b4))).
Proof. rewrite (lxor_swap4 a3 b3), (lxor_swap4 a2 b2), (lxor_swap4 a1 b1). done. Qed.

Lemma inv_mix_lxor a b : inv_mix (Z.lxor a b) = Z.lxor (inv_mix a) (inv_mix b).
Proof.
  unfold inv_mix. rewrite !byte_lxor by lia.
  rewrite (tab_lxor Tks0), (tab_lxor Tks1), (tab_lxor Tks2), (tab_lxor Tks3)
    by (auto with word || (vm_compute; reflexivity)).
  apply lxor_swap8.
Qed.

(** * Rounds *)

Definition quad_u32 (q : quad) : Prop :=
  is_u 32 (q0 q) /\ is_u 32 (q1 q) /\ is_u 32 (q2 q) /\ is_u 32 (q3 q).

(** SubBytes and ShiftRows on the four columns. *)
Definition sub_shift (e : quad) : quad :=
  mk_quad
    (pack4 (sbox (byte (q0 e) 3)) (sbox (byte (q1 e) 2)) (sbox (byte (q2 e) 1)) (sbox (byte (q3 e) 0)))
    (pack4 (sbox (byte (q1 e) 3)) (sbox (byte (q2 e) 2)) (sbox (byte (q3 e) 1)) (sbox (byte (q0 e) 0)))
    (pack4 (sbox (byte (q2 e) 3)) (sbox (byte (q3 e) 2)) (sbox (byte (q0 e) 1)) (sbox (byte (q1 e) 0)))
    (pack4 (sbox (byte (q3 e) 3)) (sbox (byte (q0 e) 2)) (sbox (byte (q1 e) 1)) (sbox (byte (q2 e) 0))).

(** A round key: [f] of the four words at [rk], added to a state. *)
Definition add_key (f : Z -> Z) (k : list Z) (rk : nat) (s : quad) : quad :=
  mk_quad (Z.lxor (q0 s) (f (get k rk))) (Z.lxor (q1 s) (f (get k (rk + 1))))
    (Z.lxor (q2 s) (f (get k (rk + 2)))) (Z.lxor (q3 s) (f (get k (rk + 3)))).

Definition inv_mix_quad (s : quad) : quad :=
  mk_quad (inv_mix (q0 s)) (inv_mix (q1 s)) (inv_mix (q2 s)) (inv_mix (q3 s)).

Lemma lxor_shift_pack4 b3 b2 b1 b0 k :
  is_u 8 b3 -> is_u 8 b2 -> is_u 8 b1 -> is_u 8 b0 ->
  Z.lxor (Z.shiftl b3 24) (Z.lxor (Z.shiftl b2 16) (Z.lxor (Z.shiftl b1 8) (Z.lxor b0 k)))
  = Z.lxor (pack4 b3 b2 b1 b0) k.
Proof.
  intros H3 H2 H1 H0. rewrite <- !Z.lxor_assoc. f_equal.
  destruct (byte_pack4 b3 b2 b1 b0) as (E3 & E2 & E1 & E0); [done..|].
  rewrite <- (Z.shiftl_0_r b0) at 1. change 24 with (8 * 3). change 16 with (8 * 2).
  replace (Z.shiftl b1 8) with (Z.shiftl b1 (8 * 1)) by done.
  replace (Z.shiftl b0 0) with (Z.shiftl b0 (8 * 0)) by done.
  apply word_ext; [|by apply is_u32_pack4|..].
  - repeat apply is_u_lxor; try lia;
      eapply is_u_le; [|apply is_u_shiftl, H3| |apply is_u_shiftl, H2|
                       |apply is_u_shiftl, H1| |apply is_u_shiftl, H0]; lia.
  - rewrite E3, !byte_lxor, !byte_shiftl by (done || lia). simpl. by rewrite !Z.lxor_0_r.
  - rewrite E2, !byte_lxor, !byte_shiftl by (done || lia). simpl. by rewrite !Z.lxor_0_r.
  - rewrite E1, !byte_lxor, !byte_shiftl by (done || lia). simpl. by rewrite !Z.lxor_0_r.
  - rewrite E0, !byte_lxor, !byte_shiftl by (done || lia). done.
Qed.

(** Undoing MixColumns after an encryption round leaves SubBytes and ShiftRows of the state
    before it, and the transformed round key. *)
Lemma inv_mix_enc_round ek rk s :
  inv_mix_quad (aes_enc_round ek rk s) = add_key inv_mix ek rk (sub_shift s).
Proof.
  unfold inv_mix_quad, aes_enc_round, add_key, sub_shift; cbn [q0 q1 q2 q3].
  f_equal; rewrite !inv_mix_lxor;
    repeat match goal with
    | |- context [inv_mix (tab Te0 ?x)] =>
        destruct (inv_mix_Te x) as (-> & _ & _ & _); [auto with word|]
    | |- context [inv_mix (tab Te1 ?x)] =>
        destruct (inv_mix_Te x) as (_ & -> & _ & _); [auto with word|]
    | |- context [inv_mix (tab Te2 ?x)] =>
        destruct (inv_mix_Te x) as (_ & _ & -> & _); [auto with word|]
    | |- context [inv_mix (tab Te3 ?x)] =>
        destruct (inv_mix_Te x) as (_ & _ & _ & ->); [auto with word|]
    end; apply lxor_shift_pack4; auto with word.
Qed.

(** The bytes of the four columns after SubBytes and ShiftRows. *)
Lemma byte_sub_shift e :
  byte (q0 (sub_shift e)) 3 = sbox (byte (q0 e) 3) /\ byte (q0 (sub_shift e)) 2 = sbox (byte (q1 e) 2) /\
  byte (q0 (sub_shift e)) 1 = sbox (byte (q2 e) 1) /\ byte (q0 (sub_shift e)) 0 = sbox (byte (q3 e) 0) /\
  byte (q1 (sub_shift e)) 3 = sbox (byte (q1 e) 3) /\ byte (q1 (sub_shift e)) 2 = sbox (byte (q2 e) 2) /\
  byte (q1 (sub_shift e)) 1 = sbox (byte (q3 e) 1) /\ byte (q1 (sub_shift e)) 0 = sbox (byte (q0 e) 0) /\
  byte (q2 (sub_shift e)) 3 = sbox (byte (q2 e) 3) /\ byte (q2 (sub_shift e)) 2 = sbox (byte (q3 e) 2) /\
  byte (q2 (sub_shift e)) 1 = sbox (byte (q0 e) 1) /\ byte (q2 (sub_shift e)) 0 = sbox (byte (q1 e) 0) /\
  byte (q3 (sub_shift e)) 3 = sbox (byte (q3 e) 3) /\ byte (q3 (sub_shift e)) 2 = sbox (byte (q0 e) 2) /\
  byte (q3 (sub_shift e)) 1 = sbox (byte (q1 e) 1) /\ byte (q3 (sub_shift e)) 0 = sbox (byte (q2 e) 0).
Proof.
  unfold sub_shift; cbn [q0 q1 q2 q3].
  split_and!; match goal with |- byte (pack4 ?a ?b ?c ?d) _ = _ =>
    apply (byte_pack4 a b c d); auto with word end.
Qed.

(** A decryption round on a substituted and shifted state undoes MixColumns of the state. *)
Lemma aes_dec_round_sub_shift dk rk e :
  aes_dec_round dk rk (sub_shift e) = add_key id dk rk (inv_mix_quad e).
Proof.
  unfold aes_dec_round, add_key, inv_mix_quad, inv_mix; cbn [q0 q1 q2 q3].
  destruct (byte_sub_shift e) as (-> & -> & -> & -> & -> & -> & -> & -> & -> & -> & -> & -> &
    -> & -> & -> & ->).
  f_equal;
    repeat match goal with
    | |- context [tab Td0 (sbox ?x)] =>
        destruct (Td_sbox x) as (-> & _ & _ & _); [auto with word|]
    | |- context [tab Td1 (sbox ?x)] =>
        destruct (Td_sbox x) as (_ & -> & _ & _); [auto with word|]
    | |- context [tab Td2 (sbox ?x)] =>
        destruct (Td_sbox x) as (_ & _ & -> & _); [auto with word|]
    | |- context [tab Td3 (sbox ?x)] =>
        destruct (Td_sbox x) as (_ & _ & _ & ->); [auto with word|]
    end; by rewrite !Z.lxor_assoc.
Qed.

Lemma aes_enc_last_spec ek rk t :
  aes_enc_last ek rk t = add_key id ek rk (sub_shift t).
Proof.
  unfold aes_enc_last, add_key, sub_shift; cbn [q0 q1 q2 q3].
  f_equal;
    repeat match goal with
    | |- context [tab Te4_3 ?x] => destruct (Te4_spec x) as (-> & _ & _ & _); [auto with word|]
    | |- context [tab Te4_2 ?x] => destruct (Te4_spec x) as (_ & -> & _ & _); [auto with word|]
    | |- context [tab Te4_1 ?x] => destruct (Te4_spec x) as (_ & _ & -> & _); [auto with word|]
    | |- context [tab Te4_0 ?x] => destruct (Te4_spec x) as (_ & _ & _ & ->); [auto with word|]
    end; apply lxor_shift_pack4; auto with word.
Qed.

Lemma aes_dec_last_sub_shift dk rk e :
  quad_u32 e -> aes_dec_last dk rk (sub_shift e) = add_key id dk rk e.
Proof.
  intros (H0 & H1 & H2 & H3). unfold aes_dec_last, add_key; cbn [q0 q1 q2 q3].
  destruct (byte_sub_shift e) as (-> & -> & -> & -> & -> & -> & -> & -> & -> & -> & -> & -> &
    -> & -> & -> & ->).
  f_equal;
    repeat match goal with
    | |- context [Z.land (tab Td4 (sbox ?x)) _] =>
        let E := fresh in destruct (Td4_sbox x) as (E & E' & E'' & E'''); [auto with word|];
        rewrite ?E, ?E', ?E'', ?E'''; clear E E' E'' E'''
    end; (rewrite lxor_shift_pack4 by auto with word); by rewrite pack4_byte.
Qed.

(** * The loops as sequences of rounds *)

Fixpoint enc_rounds (n : nat) (ek : list Z) (rk : nat) (s : quad) : quad :=
  match n with
  | O => s
  | S n => enc_rounds n ek (rk + 4) (aes_enc_round ek (rk + 4) s)
  end.

Fixpoint dec_rounds (n : nat) (dk : list Z) (rk : nat) (s : quad) : quad :=
  match n with
  | O => s
  | S n => dec_rounds n dk (rk + 4) (aes_dec_round dk (rk + 4) s)
  end.

Lemma aes_enc_loop_spec r ek rk s :
  aes_enc_loop (S r) ek rk s = (enc_rounds (2 * r + 1) ek rk s, (rk + 8 * (r + 1))%nat).
Proof.
  revert rk s. induction r as [|r IH]; intros rk s; [done|].
  change (aes_enc_loop (S (S r)) ek rk s) with
    (aes_enc_loop (S r) ek (rk + 8) (aes_enc_round ek (rk + 8) (aes_enc_round ek (rk + 4) s))).
  rewrite IH. replace (2 * S r + 1)%nat with (S (S (2 * r + 1))) by lia.
  cbn [enc_rounds]. replace (rk + 4 + 4)%nat with (rk + 8)%nat by lia. f_equal. lia.
Qed.

Lemma aes_dec_loop_spec r dk rk s :
  aes_dec_loop (S r) dk rk s = (dec_rounds (2 * r + 1) dk rk s, (rk + 8 * (r + 1))%nat).
Proof.
  revert rk s. induction r as [|r IH]; intros rk s; [done|].
  change (aes_dec_loop (S (S r)) dk rk s) with
    (aes_dec_loop (S r) dk (rk + 8) (aes_dec_round dk (rk + 8) (aes_dec_round dk (rk + 4) s))).
  rewrite IH. replace (2 * S r + 1)%nat with (S (S (2 * r + 1))) by lia.
  cbn [dec_rounds]. replace (rk + 4 + 4)%nat with (rk + 8)%nat by lia. f_equal. lia.
Qed.

Lemma enc_rounds_snoc n ek rk s :
  enc_rounds (S n) ek rk s = aes_enc_round ek (rk + 4 * S n) (enc_rounds n ek rk s).
Proof.
  revert rk s. induction n as [|n IH]; intros rk s; [simpl; do 2 f_equal; lia|].
  change (enc_rounds (S (S n)) ek rk s)
    with (enc_rounds (S n) ek (rk + 4) (aes_enc_round ek (rk + 4) s)).
  rewrite IH. cbn [enc_rounds]. f_equal. lia.
Qed.

(** The round keys of decryption: those of encryption backwards, the inner ones transformed. *)
Definition inverse_key (ek dk : list Z) (nr : nat) : Prop :=
  forall t, (t < 4)%nat ->
    get dk t = get ek (4 * nr + t) /\ get dk (4 * nr + t) = get ek t /\
    forall i, (1 <= i < nr)%nat -> get dk (4 * i + t) = inv_mix (get ek (4 * (nr - i) + t)).

Lemma add_key_ext f g k rk k' rk' s :
  (forall t, (t < 4)%nat -> f (get k (rk + t)) = g (get k' (rk' + t))) ->
  add_key f k rk s = add_key g k' rk' s.
Proof.
  intros H. unfold add_key.
  pose proof (H 0%nat ltac:(lia)) as H0. rewrite !Nat.add_0_r in H0.
  rewrite H0, (H 1%nat), (H 2%nat), (H 3%nat) by lia. done.
Qed.

Lemma add_key_twice f k rk s : add_key f k rk (add_key f k rk s) = s.
Proof.
  unfold add_key; destruct s; cbn [q0 q1 q2 q3].
  by rewrite !Z.lxor_assoc, !Z.lxor_nilpotent, !Z.lxor_0_r.
Qed.

(** Decryption rounds unwind encryption rounds. *)
Lemma dec_rounds_unwind n ek dk j s :
  (forall i t, (1 <= i <= n)%nat -> (t < 4)%nat ->
     get dk (4 * (j + i) + t) = inv_mix (get ek (4 * (n + 1 - i) + t))) ->
  dec_rounds n dk (4 * j) (sub_shift (enc_rounds n ek 0 s)) = sub_shift s.
Proof.
  revert j. induction n as [|n IH]; intros j Hk; [done|].
  rewrite enc_rounds_snoc. cbn [dec_rounds].
  rewrite aes_dec_round_sub_shift, inv_mix_enc_round.
  rewrite (add_key_ext id inv_mix dk (4 * j + 4) ek (0 + 4 * S n)).
  - rewrite add_key_twice. replace (4 * j + 4)%nat with (4 * (j + 1))%nat by lia.
    apply IH. intros i t Hi Ht.
    replace (4 * (j + 1 + i) + t)%nat with (4 * (j + (i + 1)) + t)%nat by lia.
    rewrite Hk by lia. do 2 f_equal. lia.
  - intros t Ht. unfold id.
    replace (4 * j + 4 + t)%nat with (4 * (j + 1) + t)%nat by lia.
    rewrite Hk by lia. do 2 f_equal. lia.
Qed.

(** * Bounds *)

Lemma is_u32_get l i : Forall (is_u 32) l -> is_u 32 (get l i).
Proof.
  intros Hl. unfold get. destruct (l !! i) eqn:E; [|done].
  by eapply (Forall_lookup_1 _ _ _ _ Hl).
Qed.
#[local] Hint Resolve is_u32_get : word.

Lemma quad_u32_enc_round ek rk s : Forall (is_u 32) ek -> quad_u32 (aes_enc_round ek rk s).
Proof.
  intros Hk. unfold quad_u32, aes_enc_round; cbn [q0 q1 q2 q3].
  split_and!; repeat apply is_u_lxor; try lia; try apply is_u32_Te; auto with word.
Qed.

Lemma quad_u32_enc_rounds n ek rk s :
  Forall (is_u 32) ek -> quad_u32 s -> quad_u32 (enc_rounds n ek rk s).
Proof.
  intros Hk. revert rk s. induction n as [|n IH]; intros rk s Hs; [done|].
  cbn [enc_rounds]. apply IH. by apply quad_u32_enc_round.
Qed.

Lemma quad_u32_sub_shift s : quad_u32 (sub_shift s).
Proof.
  unfold quad_u32, sub_shift; cbn [q0 q1 q2 q3].
  split_and!; apply is_u32_pack4; auto with word.
Qed.

Lemma quad_u32_add_key f k rk s :
  (forall i, is_u 32 (f (get k i))) -> quad_u32 s -> quad_u32 (add_key f k rk s).
Proof.
  intros Hk (H0 & H1 & H2 & H3). unfold quad_u32, add_key; cbn [q0 q1 q2 q3].
  split_and!; apply is_u_lxor; try lia; done.
Qed.

Lemma bytes_aes_store s : bytes (aes_store s).
Proof. unfold aes_store. auto 10 with word. Qed.

(** The words of a stored state, and the bytes of a loaded one. *)
Lemma aes_load_store s k : quad_u32 s -> aes_load (aes_store s) k = add_key id k 0 s.
Proof.
  intros (H0 & H1 & H2 & H3). unfold aes_load, add_key, id.
  destruct s as [s0 s1 s2 s3]; cbn [q0 q1 q2 q3] in *.
  change (LOAD32H (aes_store (mk_quad s0 s1 s2 s3)) 0) with (LOAD32H (STORE32H s0) 0).
  change (LOAD32H (aes_store (mk_quad s0 s1 s2 s3)) 4) with (LOAD32H (STORE32H s1) 0).
  change (LOAD32H (aes_store (mk_quad s0 s1 s2 s3)) 8) with (LOAD32H (STORE32H s2) 0).
  change (LOAD32H (aes_store (mk_quad s0 s1 s2 s3)) 12) with (LOAD32H (STORE32H s3) 0).
  by rewrite !LOAD32H_STORE32H.
Qed.

Definition aes_words (b : list Z) : quad :=
  mk_quad (LOAD32H b 0) (LOAD32H b 4) (LOAD32H b 8) (LOAD32H b 12).

Lemma aes_store_words b : bytes b -> length b = 16%nat -> aes_store (aes_words b) = b.
Proof.
  intros Hb Hl. unfold aes_store, aes_words; cbn [q0 q1 q2 q3].
  rewrite !STORE32H_LOAD32H by (done || lia).
  do 16 (destruct b as [|? b]; [done|]). by destruct b.
Qed.

Lemma quad_u32_words b : bytes b -> quad_u32 (aes_words b).
Proof. intros. unfold quad_u32, aes_words; cbn [q0 q1 q2 q3]. auto with word. Qed.

(** * Decryption undoes encryption *)

Definition aes_key_ok (sk : isrcry_aes_key) : Prop :=
  Forall (is_u 32) (eK sk) /\
  exists r, Nr sk = Z.of_nat (2 * (r + 1)) /\ inverse_key (eK sk) (dK sk) (2 * (r + 1)).

Lemma aes_decrypt_encrypt sk b :
  aes_key_ok sk -> bytes b -> length b = 16%nat ->
  exists c, aes_encrypt sk b = inl c /\ bytes c /\ length c = 16%nat /\ aes_decrypt sk c = inl b.
Proof.
  intros (Hek & r & Hnr & Hinv) Hb Hl. unfold aes_encrypt, aes_decrypt.
  replace (Z.to_nat (Z.shiftr (Nr sk) 1)) with (S r).
  2:{ rewrite Hnr, Z.shiftr_div_pow2 by lia. change (2 ^ 1) with 2.
      replace (Z.of_nat (2 * (r + 1))) with (Z.of_nat (r + 1) * 2) by lia.
      rewrite Z.div_mul by lia. lia. }
  rewrite aes_enc_loop_spec. eexists. split; [done|].
  split; [apply bytes_aes_store|]. split; [done|].
  rewrite aes_enc_last_spec.
  set (s := aes_load b (eK sk)). set (e := enc_rounds (2 * r + 1) (eK sk) 0 s).
  assert (quad_u32 s) as Hs.
  { change s with (add_key id (eK sk) 0 (aes_words b)).
    apply quad_u32_add_key; [unfold id; auto with word|by apply quad_u32_words]. }
  assert (quad_u32 e) as He by (by apply quad_u32_enc_rounds).
  rewrite aes_load_store; cycle 1.
  { apply quad_u32_add_key; [unfold id; auto with word|apply quad_u32_sub_shift]. }
  rewrite aes_dec_loop_spec. unfold inverse_key in Hinv.
  rewrite (add_key_ext id id (dK sk) 0 (eK sk) (0 + 8 * (r + 1))).
  2:{ intros t Ht. destruct (Hinv t Ht) as (Ht0 & _ & _). unfold id.
      rewrite Nat.add_0_l, Ht0. f_equal. lia. }
  rewrite add_key_twice. unfold e.
  pose proof (dec_rounds_unwind (2 * r + 1) (eK sk) (dK sk) 0 s) as Hun.
  change (4 * 0)%nat with 0%nat in Hun. rewrite Hun.
  2:{ intros i t Hi Ht. destruct (Hinv t Ht) as (_ & _ & Hm). rewrite Nat.add_0_l, Hm by lia.
      do 2 f_equal. lia. }
  rewrite aes_dec_last_sub_shift by done.
  rewrite (add_key_ext id id (dK sk) _ (eK sk) 0).
  2:{ intros t Ht. destruct (Hinv t Ht) as (_ & Ht1 & _). unfold id.
      etransitivity; [|exact Ht1]. f_equal. lia. }
  change s with (add_key id (eK sk) 0 (aes_words b)). rewrite add_key_twice.
  by rewrite aes_store_words.
Qed.

(** * The key schedule *)

Lemma length_put l i x : length (put l i x) = length l.
Proof. apply length_insert. Qed.

Lemma get_put_eq l i x : (i < length l)%nat -> get (put l i x) i = x.
Proof. intros. unfold get, put. by rewrite list_lookup_insert_eq. Qed.

Lemma get_put_ne l i j x : i <> j -> get (put l i x) j = get l j.
Proof. intros. unfold get, put. by rewrite list_lookup_insert_ne. Qed.

Lemma u32_put l i x : Forall (is_u 32) l -> is_u 32 x -> Forall (is_u 32) (put l i x).
Proof. intros. by apply Forall_insert. Qed.
#[local] Hint Resolve u32_put : word.

Lemma is_u32_setup_mix x : is_u 32 (setup_mix x).
Proof.
  unfold setup_mix. repeat apply is_u_lxor; try lia;
    apply u32_table_spec; vm_compute; reflexivity.
Qed.
#[local] Hint Resolve is_u32_setup_mix : word.

Lemma is_u32_rcon i : is_u 32 (get rcon i).
Proof.
  rewrite <- (Nat2Z.id i). apply (u32_table_spec rcon (Z.of_nat i)). vm_compute. reflexivity.
Qed.
#[local] Hint Resolve is_u32_rcon : word.

(** Every step of the expansion stores an exclusive or of words. *)
Ltac u32_words :=
  repeat match goal with
  | |- Forall (is_u 32) (put _ _ _) => apply u32_put
  | |- is_u 32 (setup_mix _) => apply is_u32_setup_mix
  | |- is_u 32 (get rcon _) => apply is_u32_rcon
  | |- is_u 32 (Z.lxor _ _) => apply is_u_lxor; [lia|..]
  | |- is_u 32 (get _ _) => apply is_u32_get
  | |- Forall (is_u 32) _ => assumption
  end.

Lemma u32_expand16 n i rk ek : Forall (is_u 32) ek -> Forall (is_u 32) (aes_expand16 n i rk ek).
Proof.
  revert i rk ek. induction n as [|n IH]; intros i rk ek Hk; [done|].
  cbn [aes_expand16]. apply IH. u32_words.
Qed.

Lemma u32_expand24 n i rk ek : Forall (is_u 32) ek -> Forall (is_u 32) (aes_expand24 n i rk ek).
Proof.
  revert i rk ek. induction n as [|n IH]; intros i rk ek Hk; [done|].
  cbn [aes_expand24]. destruct n as [|n]; [|apply IH]; u32_words.
Qed.

Lemma u32_expand32 n i rk ek : Forall (is_u 32) ek -> Forall (is_u 32) (aes_expand32 n i rk ek).
Proof.
  revert i rk ek. induction n as [|n IH]; intros i rk ek Hk; [done|].
  cbn [aes_expand32]. destruct n as [|n]; [|apply IH]; u32_words.
Qed.

Lemma u32_load_key ek key words :
  bytes key -> Forall (is_u 32) ek -> Forall (is_u 32) (aes_load_key ek key words).
Proof.
  intros Hb. unfold aes_load_key. generalize (seq 0 words) as l. intros l. revert ek.
  induction l as [|i l IH]; intros ek Hk; simpl; [done|]. apply IH. auto with word.
Qed.

Lemma length_put4 f dk rk ek rrk : length (put4 f dk rk ek rrk) = length dk.
Proof. unfold put4. by rewrite !length_put. Qed.

Lemma get_put4 f dk rk ek rrk t :
  (rk + 3 < length dk)%nat -> (t < 4)%nat ->
  get (put4 f dk rk ek rrk) (rk + t) = f (get ek (rrk + t)).
Proof.
  intros Hl Ht. unfold put4.
  assert (t = 0 \/ t = 1 \/ t = 2 \/ t = 3)%nat as [->|[->|[->| ->]]] by lia;
    rewrite ?Nat.add_0_r;
    repeat first [rewrite get_put_eq by (rewrite ?length_put; lia)
                 |rewrite get_put_ne by lia]; done.
Qed.

Lemma get_put4_ne f dk rk ek rrk j :
  (j < rk)%nat -> get (put4 f dk rk ek rrk) j = get dk j.
Proof. intros. unfold put4. by rewrite !get_put_ne by lia. Qed.

Lemma length_aes_invert n rk rrk ek dk : length (aes_invert n rk rrk ek dk) = length dk.
Proof.
  revert rk rrk dk. induction n as [|n IH]; intros rk rrk dk; simpl; [done|].
  by rewrite IH, length_put4.
Qed.

Lemma get_aes_invert_low n rk rrk ek dk j :
  (j < rk + 4)%nat -> get (aes_invert n rk rrk ek dk) j = get dk j.
Proof.
  revert rk rrk dk. induction n as [|n IH]; intros rk rrk dk Hj; simpl; [done|].
  rewrite IH by lia. apply get_put4_ne. lia.
Qed.

Lemma get_aes_invert n rk rrk ek dk i t :
  (rk + 4 * n + 3 < length dk)%nat -> (4 * n <= rrk)%nat -> (1 <= i <= n)%nat -> (t < 4)%nat ->
  get (aes_invert n rk rrk ek dk) (rk + 4 * i + t) = inv_mix (get ek (rrk - 4 * i + t)).
Proof.
  revert rk rrk dk i. induction n as [|n IH]; intros rk rrk dk i Hl Hr Hi Ht; [lia|].
  cbn [aes_invert].
  destruct (decide (i = 1)%nat) as [->|Hne].
  - rewrite get_aes_invert_low by lia.
    replace (rk + 4 * 1 + t)%nat with (rk + 4 + t)%nat by lia. rewrite get_put4 by lia. done.
  - replace (rk + 4 * i + t)%nat with (rk + 4 + 4 * (i - 1) + t)%nat by lia.
    rewrite IH by (rewrite ?length_put4; lia). do 2 f_equal. lia.
Qed.

(** The key built from any forward key of an even number of rounds. *)
Lemma aes_setup_inverse_ok ek r :
  (4 * (2 * (r + 1)) + 3 < 60)%nat -> Forall (is_u 32) ek ->
  aes_key_ok (aes_setup_inverse ek (4 * (2 * (r + 1)) + 4) (2 * (r + 1))).
Proof.
  set (nr := (2 * (r + 1))%nat). intros Hl Hek. split; [done|].
  exists r. split; [done|]. fold nr. unfold aes_setup_inverse; cbn [eK dK].
  replace (4 * nr + 4 - 4)%nat with (4 * nr)%nat by lia. intros t Ht.
  set (dk0 := put4 id (replicate 60 0) 0 ek (4 * nr)).
  assert (length dk0 = 60)%nat as Hd0 by (unfold dk0; by rewrite length_put4).
  replace (4 * (nr - 1 + 1))%nat with (4 * nr)%nat by lia.
  split; [|split].
  - rewrite get_put4_ne, get_aes_invert_low by lia. unfold dk0.
    by apply (get_put4 id _ 0); [rewrite length_replicate; lia|].
  - rewrite get_put4 by (rewrite ?length_aes_invert; lia). unfold id. f_equal. lia.
  - intros i Hi. rewrite get_put4_ne by lia.
    transitivity (inv_mix (get ek (4 * nr - 4 * i + t))); [|do 2 f_equal; lia].
    apply (get_aes_invert (nr - 1) 0); lia.
Qed.

Lemma aes_init_ok key sk : bytes key -> aes_init key = inl sk -> aes_key_ok sk.
Proof.
  intros Hb. unfold aes_init. case_decide as Hlen; [done|].
  assert (Forall (is_u 32) (replicate 60 0)) as Hz by (by apply Forall_replicate).
  case_decide as H16; [|case_decide as H24]; intros <-%(inj inl).
  - rewrite H16. apply (aes_setup_inverse_ok _ 4); [lia|]. by apply u32_expand16, u32_load_key.
  - rewrite H24. apply (aes_setup_inverse_ok _ 5); [lia|]. by apply u32_expand24, u32_load_key.
  - replace (length key) with 32%nat by lia.
    apply (aes_setup_inverse_ok _ 6); [lia|]. by apply u32_expand32, u32_load_key.
Qed.

(** The AES descriptor is a block cipher in the sense of Cipher.v. *)
#[global] Program Instance aes_block_cipher : BlockCipher _isrcry_aes_desc :=
  {| bc_key := aes_key_ok |}.
Next Obligation. unfold MAX_BLOCK_LEN. simpl. lia. Qed.
Next Obligation. intros k sk Hk Hi. by eapply aes_init_ok. Qed.
Next Obligation. intros sk b Hk Hb Hl. by apply aes_decrypt_encrypt. Qed.
Next Obligation.
  intros sk c _ _ _. simpl. unfold aes_decrypt. destruct (aes_dec_loop _ _ _ _) as [t rk].
  eexists. split; [done|]. split; [|done]. repeat apply Forall_app_2; apply bytes_STORE32H.
Qed.

(** * The cipher table (cipher.c) *)

Definition cipher_desc (type : isrcry_cipher) : isrcry_cipher_desc :=
  match type with ISRCRY_CIPHER_AES => _isrcry_aes_desc end.

Definition isrcry_cipher_alloc (cipher : isrcry_cipher) (mode : isrcry_mode) :
    isrcry_cipher_ctx :=
  cipher_ctx_new (cipher_desc cipher) mode.

Definition isrcry_cipher_block (type : isrcry_cipher) : nat := c_blocklen (cipher_desc type).

(** * Properties *)

(** C36: under every key that [aes_init] schedules, [aes_decrypt] of [aes_encrypt] of a 16-byte
    block is the block. *)
Theorem aes_roundtrip key sk b :
  bytes key -> aes_init key = inl sk -> bytes b -> length b = 16%nat ->
  exists c, aes_encrypt sk b = inl c /\ bytes c /\ length c = 16%nat /\ aes_decrypt sk c = inl b.
Proof.
  intros Hk Hi Hb Hl.
  exact (aes_decrypt_encrypt sk b (aes_init_ok key sk Hk Hi) Hb Hl).
Qed.

Lemma aes_roundtrip_witness :
  exists sk c, aes_init (replicate 16 1) = inl sk /\ aes_encrypt sk (replicate 16 2) = inl c /\
    aes_decrypt sk c = inl (replicate 16 2).
Proof.
  destruct (aes_roundtrip (replicate 16 1)
    (aes_setup_inverse (aes_expand16 10 0 0 (aes_load_key (replicate 60 0) (replicate 16 1) 4)) 44 10)
    (replicate 16 2)) as (c & He & _ & _ & Hd).
  - by apply Forall_replicate.
  - reflexivity.
  - by apply Forall_replicate.
  - reflexivity.
  - exists (aes_setup_inverse (aes_expand16 10 0 0 (aes_load_key (replicate 60 0) (replicate 16 1) 4)) 44 10), c.
    by split_and!.
Defined.

(** AES-128 under the key of sixteen ones. *)
Definition aes_ones : isrcry_aes_key :=
  aes_setup_inverse (aes_expand16 10 0 0 (aes_load_key (replicate 60 0) (replicate 16 1) 4)) 44 10.

Lemma cbc_encrypt_incremental_witness :
  exists ctx1 out1,
    cbc_encrypt (mk_cctx _isrcry_aes_desc ISRCRY_MODE_CBC aes_ones (replicate 16 0) ISRCRY_ENCRYPT)
      (replicate 16 7) = (ISRCRY_OK, ctx1, out1) /\
    cbc_encrypt (mk_cctx _isrcry_aes_desc ISRCRY_MODE_CBC aes_ones (replicate 16 0) ISRCRY_ENCRYPT)
      (replicate 16 7 ++ replicate 16 9) =
      (let '(ret, ctx2, out2) := cbc_encrypt ctx1 (replicate 16 9) in (ret, ctx2, out1 ++ out2)).
Proof.
  eexists _, _. split; [reflexivity|].
  apply (cbc_encrypt_incremental _isrcry_aes_desc ISRCRY_MODE_CBC aes_ones (replicate 16 0)
    ISRCRY_ENCRYPT (replicate 16 7) (replicate 16 9)).
  - intros x. simpl. discriminate.
  - reflexivity.
  - reflexivity.
Defined.

Lemma isrcry_cipher_process_roundtrip_witness :
  exists ectx dctx ectx' dctx' out,
    isrcry_cipher_init (cipher_ctx_new _isrcry_aes_desc ISRCRY_MODE_CBC) ISRCRY_ENCRYPT
      (replicate 16 1) None = (ISRCRY_OK, ectx) /\
    isrcry_cipher_init (cipher_ctx_new _isrcry_aes_desc ISRCRY_MODE_CBC) ISRCRY_DECRYPT
      (replicate 16 1) None = (ISRCRY_OK, dctx) /\
    isrcry_cipher_process ectx (replicate 32 5) = (ISRCRY_OK, ectx', out) /\
    length out = 32%nat /\ bytes out /\
    isrcry_cipher_process dctx out = (ISRCRY_OK, dctx', replicate 32 5).
Proof.
  apply (isrcry_cipher_process_roundtrip _isrcry_aes_desc ISRCRY_MODE_CBC (replicate 16 1) None
    aes_ones (replicate 32 5)).
  - reflexivity.
  - by apply Forall_replicate.
  - exact I.
  - by apply Forall_replicate.
  - reflexivity.
Defined.

Lemma isrcry_cipher_final_roundtrip_witness :
  exists ectx dctx ectx' c,
    isrcry_cipher_init (cipher_ctx_new _isrcry_aes_desc ISRCRY_MODE_CBC) ISRCRY_ENCRYPT
      (replicate 16 1) (Some (replicate 16 3)) = (ISRCRY_OK, ectx) /\
    isrcry_cipher_init (cipher_ctx_new _isrcry_aes_desc ISRCRY_MODE_CBC) ISRCRY_DECRYPT
      (replicate 16 1) (Some (replicate 16 3)) = (ISRCRY_OK, dctx) /\
    isrcry_cipher_final ectx ISRCRY_PADDING_PKCS5 [1; 2; 3] 16 = (ISRCRY_OK, ectx', c) /\
    length c = 16%nat /\ bytes c /\
    forall room, 3 <= room -> exists dctx',
      isrcry_cipher_final dctx ISRCRY_PADDING_PKCS5 c room = (ISRCRY_OK, dctx', [1; 2; 3]).
Proof.
  apply (isrcry_cipher_final_roundtrip _isrcry_aes_desc ISRCRY_MODE_CBC (replicate 16 1)
    (Some (replicate 16 3)) aes_ones [1; 2; 3] 16).
  - reflexivity.
  - by apply Forall_replicate.
  - split; [by apply Forall_replicate|simpl; lia].
  - repeat (apply Forall_cons_2; [by vm_compute|]). apply Forall_nil_2.
  - simpl; lia.
  - simpl; lia.
Defined.

(** The encryption vectors of FIPS-197, appendix C, for the three key lengths. *)
Definition fips_key (n : nat) : list Z := map Z.of_nat (seq 0 n).
Definition fips_plain : list Z := map (fun i => 17 * Z.of_nat i) (seq 0 16).

Example aes_fips197_c1 :
  match aes_init (fips_key 16) with
  | inl sk => aes_encrypt sk fips_plain
  | inr e => inr e
  end = inl [0x69; 0xc4; 0xe0; 0xd8; 0x6a; 0x7b; 0x04; 0x30; 0xd8; 0xcd; 0xb7; 0x80; 0x70; 0xb4;
             0xc5; 0x5a].
Proof. vm_compute. reflexivity. Qed.

Example aes_fips197_c3 :
  match aes_init (fips_key 32) with
  | inl sk => aes_encrypt sk fips_plain
  | inr e => inr e
  end = inl [0x8e; 0xa2; 0xb7; 0xca; 0x51; 0x67; 0x45; 0xbf; 0xea; 0xfc; 0x49; 0x90; 0x4b; 0x49;
             0x60; 0x89].
Proof. vm_compute. reflexivity. Qed.
