(* ===== verification/HashStream.v ===== *)
(** Hash descriptors (src/crypto/internal.h) and the block buffering that sha1.c and md5.c share.

    sha1_update/md5_update and sha1_final/md5_final are the same code up to the compression
    function and the byte order of the length and the digest, so they are written once here and
    instantiated in Sha1.v and Md5.v.  [HashAlg] is what hash.c, hmac.c and chunk.c rely on;
    [md_hash] is the padded, iterated hash of RFC 1321 and FIPS 180 that the buffering
    implements.  [None] is a failed g_assert. *)

From S2P Require Import Prelude.

(** * Descriptors *)

Record isrcry_hash_desc := {
  h_ctx : Type;
  h_zero : h_ctx;                       (* zeroed memory *)
  h_init : h_ctx -> h_ctx;
  h_update : h_ctx -> list Z -> h_ctx;
  h_final : h_ctx -> option (h_ctx * list Z);
  h_block_size : nat;
  h_digest_size : nat
}.

(** A descriptor computes the function [hash_fun] of the bytes it was given since [init]. *)
Class HashAlg (d : isrcry_hash_desc) := {
  hash_fun : list Z -> list Z;
  hash_wf : h_ctx d -> Prop;
  hash_repr : h_ctx d -> list Z -> Prop;
  hash_wf_zero : hash_wf (h_zero d);
  hash_repr_wf : forall c m, hash_repr c m -> hash_wf c;
  hash_init_repr : forall c, hash_wf c -> hash_repr (h_init d c) [];
  hash_update_repr : forall c m b, hash_repr c m -> bytes b -> hash_repr (h_update d c b) (m ++ b);
  hash_final_repr : forall c m, hash_repr c m ->
    exists c', h_final d c = Some (c', hash_fun m) /\ hash_wf c';
  hash_fun_length : forall m, length (hash_fun m) = h_digest_size d;
  hash_fun_bytes : forall m, bytes (hash_fun m)
}.

#[global] Arguments hash_fun d {_} _.
#[global] Arguments hash_wf d {_} _.
#[global] Arguments hash_repr d {_} _ _.

(** * Block buffering *)

(** struct isrcry_sha1_ctx and struct isrcry_md5_ctx. *)
Record md_ctx := mk_md {
  digest : list Z;
  count : Z;
  block : list Z;
  index : nat
}.

Definition DATA_SIZE : nat := 64.

Section stream.
Context (compress : list Z -> list Z -> list Z).  (* state words, 64 bytes of input *)
Context (store_count : Z -> list Z).              (* the two STORE32 of the bit count *)
Context (store_word : Z -> list Z).

(** "while (length >= DATA_SIZE)"; every turn consumes input, so [length buffer] turns of fuel
    are enough. *)
Fixpoint md_blocks (fuel : nat) (digest : list Z) (count : Z) (buffer : list Z) :
    list Z * Z * list Z :=
  match fuel with
  | O => (digest, count, buffer)
  | S fuel =>
      if decide (DATA_SIZE <= length buffer)%nat
      then md_blocks fuel (compress digest (take DATA_SIZE buffer)) (u64 (count + 1))
             (drop DATA_SIZE buffer)
      else (digest, count, buffer)
  end.

(** The part of the update after the partial block has been dealt with. *)
Definition md_absorb (digest : list Z) (count : Z) (block buffer : list Z) : md_ctx :=
  let '(digest, count, buffer) := md_blocks (length buffer) digest count buffer in
  mk_md digest count (blit block 0 buffer) (length buffer).

Definition md_update (ctx : md_ctx) (buffer : list Z) : md_ctx :=
  if decide (index ctx <> 0)%nat then
    let left := (DATA_SIZE - index ctx)%nat in
    if decide (length buffer < left)%nat then
      mk_md (digest ctx) (count ctx) (blit (block ctx) (index ctx) buffer)
        (index ctx + length buffer)
    else
      let block := blit (block ctx) (index ctx) (take left buffer) in
      md_absorb (compress (digest ctx) block) (u64 (count ctx + 1)) block (drop left buffer)
  else md_absorb (digest ctx) (count ctx) (block ctx) buffer.

(** The padding of the last block, up to the bit count: the state words, the block, and the
    position "i" reached. *)
Definition md_pad_block (digest block : list Z) (i : nat) : list Z * list Z * nat :=
  let block := <[i := 0x80]> block in
  let i := S i in
  if decide (DATA_SIZE - 8 < i)%nat then
    let block := blit block i (replicate (DATA_SIZE - i) 0) in
    (compress digest block, block, O)
  else (digest, block, i).

(** The padding and the last compressions, with the stored bit count [sc]. *)
Definition md_finish (digest block : list Z) (i : nat) (sc : list Z) : list Z * list Z :=
  let '(digest, block, i) := md_pad_block digest block i in
  let block := if decide (i < DATA_SIZE - 8)%nat
               then blit block i (replicate (DATA_SIZE - 8 - i) 0) else block in
  let block := blit block (DATA_SIZE - 8) sc in
  (compress digest block, block).

Definition md_final (ctx : md_ctx) : option (md_ctx * list Z) :=
  if decide (index ctx < DATA_SIZE)%nat then
    let bitcount := Z.lor (u64 (Z.shiftl (count ctx) 9))
                          (u32 (Z.shiftl (Z.of_nat (index ctx)) 3)) in
    let '(digest, block) :=
      md_finish (digest ctx) (block ctx) (index ctx) (store_count bitcount) in
    Some (mk_md digest (count ctx) block (index ctx), concat (map store_word digest))
  else None.

(** * The hash function the buffering implements *)

(** [n] blocks of a message. *)
Fixpoint md_iter (n : nat) (h : list Z) (msg : list Z) : list Z :=
  match n with
  | O => h
  | S n => md_iter n (compress h (take DATA_SIZE msg)) (drop DATA_SIZE msg)
  end.

(** The message, a one bit, zeros up to 8 bytes before a block boundary, and the length of the
    message in bits modulo 2^64. *)
Definition md_pad (msg : list Z) : list Z :=
  msg ++ [0x80] ++ replicate ((119 - length msg mod 64) mod 64) 0 ++
  store_count (u64 (8 * Z.of_nat (length msg))).

Definition md_hash (iv msg : list Z) : list Z :=
  concat (map store_word (md_iter (length (md_pad msg) / 64) iv (md_pad msg))).

(** * Lemmas *)

Lemma md_iter_app n k h a b :
  length a = (n * 64)%nat -> md_iter (n + k) h (a ++ b) = md_iter k (md_iter n h a) b.
Proof.
  revert h a. induction n as [|n IH]; intros h a Ha; simpl.
  - by destruct a.
  - unfold DATA_SIZE. rewrite (take_app_le a), (drop_app_le a) by lia.
    apply IH. rewrite length_drop. lia.
Qed.

Lemma md_iter_prefix n h a b :
  (n * 64 <= length a)%nat -> md_iter n h (a ++ b) = md_iter n h a.
Proof.
  revert h a. induction n as [|n IH]; intros h a Ha; simpl; [done|].
  unfold DATA_SIZE. rewrite (take_app_le a), (drop_app_le a) by lia.
  apply IH. rewrite length_drop. lia.
Qed.

Lemma u64_add_l a b : u64 (u64 a + b) = u64 (a + b).
Proof. unfold u64. by rewrite Zplus_mod_idemp_l. Qed.

Lemma md_blocks_spec fuel h c buf :
  (length buf / 64 <= fuel)%nat ->
  md_blocks fuel h (u64 c) buf =
    (md_iter (length buf / 64) h buf, u64 (c + Z.of_nat (length buf / 64)),
     drop (length buf / 64 * 64) buf).
Proof.
  revert h c buf. induction fuel as [|fuel IH]; intros h c buf Hf.
  - replace (length buf / 64)%nat with 0%nat by lia. simpl. by rewrite Z.add_0_r.
  - cbn [md_blocks]. unfold DATA_SIZE. case_decide as Hl.
    + assert (length (drop 64 buf) / 64 = length buf / 64 - 1)%nat as Hd.
      { rewrite length_drop. replace (length buf) with (length buf - 64 + 1 * 64)%nat at 2 by lia.
        rewrite Nat.div_add by lia. lia. }
      assert (1 <= length buf / 64)%nat as H1 by (apply Nat.div_le_lower_bound; lia).
      rewrite u64_add_l, IH by lia. rewrite Hd.
      destruct (length buf / 64)%nat as [|n]; [lia|]. simpl.
      rewrite Nat.sub_0_r. rewrite drop_drop. unfold DATA_SIZE. f_equal. f_equal. f_equal. lia.
    + rewrite (Nat.div_small (length buf)) by lia. simpl. by rewrite Z.add_0_r.
Qed.

Lemma blit_0 dst src : (length src <= length dst)%nat -> take (length src) (blit dst 0 src) = src.
Proof. intros. unfold blit. simpl. by rewrite take_app_length. Qed.

(** The context after the bytes of [msg]. *)
Definition md_repr (iv : list Z) (ctx : md_ctx) (msg : list Z) : Prop :=
  bytes msg /\ length (block ctx) = 64%nat /\
  index ctx = (length msg mod 64)%nat /\
  take (index ctx) (block ctx) = drop (length msg / 64 * 64) msg /\
  count ctx = u64 (Z.of_nat (length msg / 64)) /\
  digest ctx = md_iter (length msg / 64) iv msg.

Lemma md_absorb_repr iv n a blk buf :
  bytes a -> bytes buf -> length blk = 64%nat -> length a = (n * 64)%nat ->
  md_repr iv (md_absorb (md_iter n iv a) (u64 (Z.of_nat n)) blk buf) (a ++ buf).
Proof.
  intros Ha Hb Hk Hn. unfold md_absorb.
  rewrite md_blocks_spec by (apply Nat.Div0.div_le_upper_bound; lia).
  pose proof (Nat.div_mod_eq (length buf) 64) as Hdm.
  pose proof (Nat.mod_upper_bound (length buf) 64 ltac:(lia)) as Hm.
  assert (length (drop (length buf / 64 * 64) buf) = (length buf mod 64)%nat) as Hr
    by (rewrite length_drop; lia).
  assert (length (a ++ buf) / 64 = n + length buf / 64)%nat as Hd.
  { rewrite length_app, Hn, Nat.add_comm, Nat.div_add by lia. lia. }
  assert (length (a ++ buf) mod 64 = length buf mod 64)%nat as Hmm.
  { rewrite length_app, Hn, Nat.add_comm, Nat.Div0.mod_add by lia. done. }
  unfold md_repr; cbn [digest count block index]. rewrite Hd, Hmm. split_and!.
  - by apply Forall_app.
  - rewrite length_blit; lia.
  - done.
  - rewrite blit_0 by lia. rewrite drop_app_ge by lia. f_equal. lia.
  - f_equal. lia.
  - by rewrite md_iter_app.
Qed.

Lemma md_update_repr iv ctx msg buf :
  md_repr iv ctx msg -> bytes buf -> md_repr iv (md_update ctx buf) (msg ++ buf).
Proof.
  intros (Hb & Hk & Hi & Ht & Hc & Hd) Hbuf. unfold md_update, DATA_SIZE.
  pose proof (Nat.div_mod_eq (length msg) 64) as Hdm.
  pose proof (Nat.mod_upper_bound (length msg) 64 ltac:(lia)) as Hm.
  assert (take (length msg / 64 * 64) msg ++ drop (length msg / 64 * 64) msg = msg) as Hsplit
    by apply take_drop.
  case_decide as Hz; [case_decide as Hs|].
  - (* the partial block stays partial *)
    assert (length (msg ++ buf) / 64 = length msg / 64)%nat as Hdd.
    { rewrite length_app. symmetry. apply (Nat.div_unique _ _ _ (length msg mod 64 + length buf)); lia. }
    assert (length (msg ++ buf) mod 64 = length msg mod 64 + length buf)%nat as Hmm.
    { rewrite length_app. symmetry. apply (Nat.mod_unique _ _ (length msg / 64)); lia. }
    unfold md_repr; cbn [digest count block index]. rewrite Hdd, Hmm. split_and!.
    + by apply Forall_app.
    + rewrite length_blit; lia.
    + lia.
    + rewrite drop_app_le by lia. rewrite <- Ht. unfold blit. rewrite (assoc_L (++)).
      rewrite take_app_length'; [done|]. rewrite length_app, length_take. lia.
    + done.
    + rewrite md_iter_prefix by lia. done.
  - (* the block is completed *)
    assert (blit (block ctx) (index ctx) (take (64 - index ctx) buf)
            = drop (length msg / 64 * 64) msg ++ take (64 - index ctx) buf) as Hblk.
    { unfold blit. rewrite Ht, (drop_ge (block ctx)), app_nil_r; [done|]. rewrite length_take. lia. }
    rewrite Hblk, Hc, u64_add_l, Hd.
    assert (compress (md_iter (length msg / 64) iv msg)
              (drop (length msg / 64 * 64) msg ++ take (64 - index ctx) buf)
            = md_iter (length msg / 64 + 1) iv (msg ++ take (64 - index ctx) buf)) as ->.
    { replace (msg ++ take (64 - index ctx) buf)
        with (take (length msg / 64 * 64) msg ++
              (drop (length msg / 64 * 64) msg ++ take (64 - index ctx) buf))
        by (by rewrite (assoc_L (++)), take_drop).
      rewrite md_iter_app by (rewrite length_take; lia).
      simpl. unfold DATA_SIZE. f_equal.
      - transitivity (md_iter (length msg / 64) iv
          (take (length msg / 64 * 64) msg ++ drop (length msg / 64 * 64) msg));
          [by rewrite Hsplit|apply md_iter_prefix; rewrite length_take; lia].
      - symmetry. apply take_ge. rewrite length_app, length_drop, length_take. lia. }
    replace (Z.of_nat (length msg / 64) + 1) with (Z.of_nat (length msg / 64 + 1)) by lia.
    replace (msg ++ buf) with ((msg ++ take (64 - index ctx) buf) ++ drop (64 - index ctx) buf)
      by (by rewrite <- (assoc_L (++)), take_drop).
    apply md_absorb_repr.
    + apply Forall_app. split; [done|by apply Forall_take].
    + by apply Forall_drop.
    + rewrite length_app, length_drop, length_take. lia.
    + rewrite length_app, length_take. lia.
  - (* no partial block *)
    rewrite Hc, Hd. apply md_absorb_repr; [done..|lia].
Qed.

(** The bit count: no carry between the shifted block count and the bits of the last block. *)
Lemma md_bitcount q r :
  0 <= q -> 0 <= r < 64 ->
  Z.lor (u64 (Z.shiftl (u64 q) 9)) (u32 (Z.shiftl r 3)) = u64 (8 * (64 * q + r)).
Proof.
  intros Hq Hr. unfold u64, u32.
  rewrite !Z.shiftl_mul_pow2, (Z.mod_small (r * 2 ^ 3)) by lia.
  rewrite Zmult_mod_idemp_l.
  replace (2 ^ 64) with (2 ^ 55 * 2 ^ 9) by lia.
  rewrite Zmult_mod_distr_r.
  replace (8 * (64 * q + r)) with (q * 2 ^ 9 + r * 2 ^ 3) by lia.
  assert (Z.land (q mod 2 ^ 55 * 2 ^ 9) (r * 2 ^ 3) = 0) as Hland.
  { apply Z.bits_inj'. intros i Hi. rewrite Z.land_spec, Z.bits_0.
    destruct (decide (i < 9)).
    - rewrite Z.mul_pow2_bits_low by lia. done.
    - rewrite (is_u_testbit 9 (r * 2 ^ 3)), andb_false_r by (unfold is_u; lia). done. }
  rewrite <- Z.lxor_lor, <- Z.add_nocarry_lxor by done.
  apply (Z.mod_unique _ _ (q / 2 ^ 55)).
  - pose proof (Z.mod_pos_bound q (2 ^ 55)). lia.
  - pose proof (Z.div_mod q (2 ^ 55)). lia.
Qed.

Lemma blit_app a b s n :
  n = length a -> (length s <= length b)%nat ->
  blit (a ++ b) n s = a ++ s ++ drop (length s) b.
Proof.
  intros -> Hs. unfold blit. rewrite take_app_length. do 2 f_equal.
  rewrite drop_app_ge by lia. f_equal. lia.
Qed.

Context (store_count_length : forall x, length (store_count x) = 8%nat).

Lemma md_pad_split msg :
  md_pad msg = take (length msg / 64 * 64) msg ++
    (drop (length msg / 64 * 64) msg ++ [0x80] ++
     replicate ((119 - length msg mod 64) mod 64) 0 ++
     store_count (u64 (8 * Z.of_nat (length msg)))).
Proof. unfold md_pad. by rewrite (assoc_L (++) (take _ _)), take_drop. Qed.

(** The padding of a last partial block [tl]. *)
Definition md_tail (tl sc : list Z) : list Z :=
  tl ++ [0x80] ++ replicate ((119 - length tl) mod 64) 0 ++ sc.

Lemma md_block_mark blk tl r :
  take r blk = tl -> length blk = 64%nat -> (r < 64)%nat ->
  length tl = r /\ length (tl ++ [0x80]) = S r /\
  <[r := 0x80]> blk = (tl ++ [0x80]) ++ drop (S r) blk.
Proof.
  intros <- Hk Hr. rewrite length_app, length_take; simpl. split_and!; [lia|lia|].
  rewrite insert_take_drop by lia. by rewrite <- (assoc_L (++)).
Qed.

(** The bit count goes into a block of its own. *)
Lemma md_finish_long h blk tl r sc :
  take r blk = tl -> length blk = 64%nat -> (56 <= r < 64)%nat -> length sc = 8%nat ->
  exists blk', md_finish h blk r sc = (md_iter 2 h (md_tail tl sc), blk') /\
    length blk' = 64%nat /\ length (md_tail tl sc) = (2 * 64)%nat.
Proof.
  intros Ht Hk Hr Hsc. destruct (md_block_mark blk tl r) as (Htl & Hl1 & Hins); [done|done|lia|].
  unfold md_finish, md_pad_block, md_tail, DATA_SIZE. rewrite Hins, Htl, decide_True by lia.
  replace ((119 - r) mod 64)%nat with (63 - r + 56)%nat by (rewrite Nat.mod_small; lia).
  rewrite blit_app by (rewrite ?length_replicate, ?length_drop; lia).
  rewrite (drop_ge (drop _ _)), app_nil_r by (rewrite length_replicate, length_drop; lia).
  rewrite decide_True by lia. set (b1 := (tl ++ [128]) ++ replicate (64 - S r) 0).
  assert (length b1 = 64%nat) as Hb1 by (unfold b1; rewrite length_app, length_replicate; lia).
  change (blit b1 0 (replicate (64 - 8 - 0) 0)) with (replicate 56 0 ++ drop 56 b1).
  rewrite blit_app by (rewrite ?length_replicate, ?length_drop; lia).
  rewrite (drop_ge (drop _ _)), app_nil_r by (rewrite length_drop; lia).
  replace (tl ++ [128] ++ replicate (63 - r + 56) 0 ++ sc) with (b1 ++ (replicate 56 0 ++ sc)).
  2:{ unfold b1. replace (64 - S r)%nat with (63 - r)%nat by lia.
      rewrite replicate_add. by rewrite <- !(assoc_L (++)). }
  assert (length (replicate 56 0 ++ sc) = 64%nat) as Hl3
    by (rewrite length_app, length_replicate; lia).
  exists (replicate 56 0 ++ sc). split_and!; [|done|rewrite length_app; lia].
  cbn [md_iter]. unfold DATA_SIZE. rewrite take_app_length', drop_app_length' by done.
  by rewrite (take_ge (replicate 56 0 ++ sc)) by lia.
Qed.

(** The bit count fits in the last block. *)
Lemma md_finish_short h blk tl r sc :
  take r blk = tl -> length blk = 64%nat -> (r < 56)%nat -> length sc = 8%nat ->
  exists blk', md_finish h blk r sc = (md_iter 1 h (md_tail tl sc), blk') /\
    length blk' = 64%nat /\ length (md_tail tl sc) = (1 * 64)%nat.
Proof.
  intros Ht Hk Hr Hsc. destruct (md_block_mark blk tl r) as (Htl & Hl1 & Hins); [done|done|lia|].
  unfold md_finish, md_pad_block, md_tail, DATA_SIZE. rewrite Hins, Htl, decide_False by lia.
  replace ((119 - r) mod 64)%nat with (55 - r)%nat.
  2:{ replace (119 - r)%nat with (55 - r + 1 * 64)%nat by lia.
      rewrite Nat.Div0.mod_add, Nat.mod_small; lia. }
  assert ((if decide (S r < 64 - 8)%nat
           then blit ((tl ++ [128]) ++ drop (S r) blk) (S r) (replicate (64 - 8 - S r) 0)
           else (tl ++ [128]) ++ drop (S r) blk)
          = ((tl ++ [128]) ++ replicate (55 - r) 0) ++ drop 56 blk) as ->.
  { case_decide as Hz.
    - rewrite blit_app by (rewrite ?length_replicate, ?length_drop; lia).
      rewrite length_replicate, drop_drop, (assoc_L (++)). do 3 f_equal; lia.
    - replace (55 - r)%nat with 0%nat by lia. simpl. rewrite app_nil_r. do 2 f_equal. lia. }
  set (b1 := (tl ++ [128]) ++ replicate (55 - r) 0).
  assert (length b1 = 56%nat) as Hb1 by (unfold b1; rewrite length_app, length_replicate; lia).
  rewrite blit_app by (rewrite ?length_drop; lia).
  rewrite (drop_ge (drop _ _)), app_nil_r by (rewrite length_drop; lia).
  replace (tl ++ [128] ++ replicate (55 - r) 0 ++ sc) with (b1 ++ sc)
    by (unfold b1; by rewrite <- !(assoc_L (++))).
  assert (length (b1 ++ sc) = 64%nat) as Hl3 by (rewrite length_app; lia).
  exists (b1 ++ sc). split_and!; [|done|lia].
  cbn [md_iter]. unfold DATA_SIZE. by rewrite (take_ge (b1 ++ sc)) by lia.
Qed.

Lemma md_final_repr iv ctx msg :
  md_repr iv ctx msg ->
  exists ctx', md_final ctx = Some (ctx', md_hash iv msg) /\ length (block ctx') = 64%nat.
Proof.
  intros (Hb & Hk & Hi & Ht & Hc & Hd). unfold md_final, DATA_SIZE.
  pose proof (Nat.div_mod_eq (length msg) 64) as Hdm.
  pose proof (Nat.mod_upper_bound (length msg) 64 ltac:(lia)) as Hm.
  rewrite decide_True by lia.
  assert (Z.lor (u64 (Z.shiftl (count ctx) 9)) (u32 (Z.shiftl (Z.of_nat (index ctx)) 3))
          = u64 (8 * Z.of_nat (length msg))) as ->.
  { rewrite Hc, Hi, md_bitcount by lia. do 2 f_equal. lia. }
  set (sc := store_count (u64 (8 * Z.of_nat (length msg)))).
  assert (length sc = 8%nat) as Hsc by apply store_count_length.
  set (hd := take (length msg / 64 * 64) msg). set (tl := drop (length msg / 64 * 64) msg) in *.
  assert (length hd = length msg / 64 * 64)%nat as Hhd by (unfold hd; rewrite length_take; lia).
  assert (md_pad msg = hd ++ md_tail tl sc) as Hpad.
  { rewrite md_pad_split. fold hd tl sc. unfold md_tail.
    replace (length tl) with (length msg mod 64)%nat; [done|].
    unfold tl. rewrite length_drop. lia. }
  assert (digest ctx = md_iter (length msg / 64) iv hd) as Hdg.
  { rewrite Hd. transitivity (md_iter (length msg / 64) iv (hd ++ tl));
      [unfold hd, tl; by rewrite take_drop|apply md_iter_prefix; lia]. }
  assert (exists n blk', md_finish (digest ctx) (block ctx) (index ctx) sc
            = (md_iter n (digest ctx) (md_tail tl sc), blk') /\
          length blk' = 64%nat /\ length (md_tail tl sc) = (n * 64)%nat) as (n & blk' & -> & Hl' & Hn).
  { destruct (decide (index ctx < 56)%nat).
    - exists 1%nat. apply md_finish_short; [done|done|lia|done].
    - exists 2%nat. apply md_finish_long; [done|done|lia|done]. }
  exists (mk_md (md_iter n (digest ctx) (md_tail tl sc)) (count ctx) blk' (index ctx)).
  split; [|exact Hl']. unfold md_hash. rewrite Hpad.
  replace (length (hd ++ md_tail tl sc) / 64)%nat with (length msg / 64 + n)%nat.
  - by rewrite md_iter_app, <- Hdg by done.
  - rewrite length_app, Hhd, Hn. apply (Nat.div_unique _ _ _ 0); lia.
Qed.
End stream.

(** Two compression functions that agree on well-formed states and blocks of bytes give the same
    hash of bytes. *)
Lemma md_iter_ext (P : list Z -> Prop) f g :
  (forall h b, P h -> bytes b -> length b = 64%nat -> f h b = g h b /\ P (f h b)) ->
  forall n h msg, P h -> bytes msg -> (n * 64 <= length msg)%nat ->
  md_iter f n h msg = md_iter g n h msg /\ P (md_iter f n h msg).
Proof.
  intros Hfg. induction n as [|n IH]; intros h msg Hh Hb Hl; simpl; [done|].
  destruct (Hfg h (take DATA_SIZE msg)) as [He Hp].
  - done.
  - by apply Forall_take.
  - rewrite length_take. unfold DATA_SIZE. lia.
  - rewrite <- He. apply IH; [done|by apply Forall_drop|]. rewrite length_drop.
    unfold DATA_SIZE. lia.
Qed.

Lemma md_hash_ext (P : list Z -> Prop) f g sc sw iv msg :
  (forall h b, P h -> bytes b -> length b = 64%nat -> f h b = g h b /\ P (f h b)) ->
  (forall x, bytes (sc x)) -> P iv -> bytes msg ->
  md_hash f sc sw iv msg = md_hash g sc sw iv msg.
Proof.
  intros Hfg Hsc Hiv Hb. unfold md_hash. do 2 f_equal. apply (md_iter_ext P); [done|done| |].
  - unfold md_pad. repeat (apply Forall_app; split); [done| |by apply Forall_replicate|done].
    apply Forall_cons_2; [by vm_compute|done].
  - pose proof (Nat.Div0.mul_div_le (length (md_pad sc msg)) 64). lia.
Qed.

Lemma md_iter_inv (P : list Z -> Prop) f n h msg :
  P h -> (forall h b, P h -> P (f h b)) -> P (md_iter f n h msg).
Proof. intros Hh Hf. revert h msg Hh. induction n; intros; simpl; eauto. Qed.

Lemma length_concat_map_4 (sw : Z -> list Z) l :
  (forall x, length (sw x) = 4%nat) -> length (concat (map sw l)) = (4 * length l)%nat.
Proof. intros Hs. induction l; simpl; [done|]. rewrite length_app, Hs. lia. Qed.

Lemma bytes_concat_map (sw : Z -> list Z) l : (forall x, bytes (sw x)) -> bytes (concat (map sw l)).
Proof. intros Hs. induction l; simpl; [done|]. by apply Forall_app. Qed.

(** * Unrolled rounds with renamed variables

    Both compression functions rename their [n] local variables from round to round instead of
    moving their values.  Before round [t], [rot_role n t j] is the variable that plays the role
    [j] of the specification, and [rot_vars n t v] the array of variables that holds the working
    variables [v]. *)

Definition rot_role (n t j : nat) : nat := ((j + (n - 1) * t) mod n)%nat.

Definition rot_vars (n t : nat) (v : list Z) : list Z :=
  map (fun i => get v ((i + t) mod n)%nat) (seq 0 n).

Lemma rot_role_mod n t j : rot_role n t j = rot_role n (t mod n) j.
Proof.
  unfold rot_role. rewrite <- (Nat.Div0.add_mod_idemp_r j ((n - 1) * t)).
  rewrite <- (Nat.Div0.add_mod_idemp_r j ((n - 1) * (t mod n))).
  by rewrite Nat.Div0.mul_mod_idemp_r.
Qed.

Lemma rot_vars_mod n t v : rot_vars n t v = rot_vars n (t mod n) v.
Proof. unfold rot_vars. apply map_ext. intros i. by rewrite Nat.Div0.add_mod_idemp_r. Qed.

Lemma rot_vars_S_mod n t v : rot_vars n (S t) v = rot_vars n (S (t mod n)) v.
Proof.
  rewrite (rot_vars_mod n (S t)), (rot_vars_mod n (S (t mod n))). f_equal.
  change (S t) with (1 + t)%nat. change (S (t mod n)) with (1 + t mod n)%nat.
  by rewrite Nat.Div0.add_mod_idemp_r.
Qed.
