(* ===== verification/Sha1.v ===== *)
(** SHA-1 (src/crypto/sha1-compress.c, sha1.c).

    The compression function is the source's 80 unrolled sub-rounds, as a list of statements over
    the local variables A..E and the circular 16-word buffer "data".  It is proved equal to the
    loop of FIPS 180-4 over the 80-word schedule, and the streaming interface to the padded hash
    of the concatenated input. *)

From S2P Require Import Prelude HashStream.

(** * sha1-compress.c *)

Module Sha1Compress.

(** The macros.  [x], [y], [z] are 32-bit words. *)
Definition f1 (x y z : Z) : Z := Z.lxor z (Z.land x (Z.lxor y z)).
Definition f2 (x y z : Z) : Z := Z.lxor (Z.lxor x y) z.
Definition f3 (x y z : Z) : Z := Z.lor (Z.land x y) (Z.land z (Z.lor x y)).
Definition f4 (x y z : Z) : Z := Z.lxor (Z.lxor x y) z.

Definition K1 : Z := 0x5A827999.
Definition K2 : Z := 0x6ED9EBA1.
Definition K3 : Z := 0x8F1BBCDC.
Definition K4 : Z := 0xCA62C1D6.

Definition ROTL (n X : Z) : Z := Z.lor (u32 (Z.shiftl X n)) (Z.shiftr X (32 - n)).

(** "expand(W, i)": the assignment, and its value. *)
Definition expand (W : list Z) (i : nat) : Z * list Z :=
  let v := ROTL 1 (Z.lxor (Z.lxor (Z.lxor (get W (Nat.land i 15)) (get W (Nat.land (i - 14) 15)))
                             (get W (Nat.land (i - 8) 15))) (get W (Nat.land (i - 3) 15))) in
  (v, <[Nat.land i 15 := v]> W).

(** The local variables, by position in the array of their values. *)
Definition A : nat := 0.
Definition B : nat := 1.
Definition C : nat := 2.
Definition D : nat := 3.
Definition E : nat := 4.

(** The "data" argument of a sub-round: "data[ i]" or "expand( data, i )". *)
Inductive data_arg := Data (i : nat) | Expand (i : nat).

Definition fetch (x : data_arg) (data : list Z) : Z * list Z :=
  match x with
  | Data i => (get data i, data)
  | Expand i => expand data i
  end.

Definition locals : Type := list Z * list Z.

(** "e += ROTL( 5, a ) + f( b, c, d ) + k + data, b = ROTL( 30, b )" *)
Definition subRound (a b c d e : nat) (f : Z -> Z -> Z -> Z) (k : Z) (x : data_arg)
    (s : locals) : locals :=
  let '(v, data) := s in
  let '(w, data) := fetch x data in
  let v := <[e := u32 (get v e + (ROTL 5 (get v a) + f (get v b) (get v c) (get v d) + k + w))]> v in
  (<[b := ROTL 30 (get v b)]> v, data).

Definition mangling : list (locals -> locals) := [
  subRound A B C D E f1 K1 (Data 0);
  subRound E A B C D f1 K1 (Data 1);
  subRound D E A B C f1 K1 (Data 2);
  subRound C D E A B f1 K1 (Data 3);
  subRound B C D E A f1 K1 (Data 4);
  subRound A B C D E f1 K1 (Data 5);
  subRound E A B C D f1 K1 (Data 6);
  subRound D E A B C f1 K1 (Data 7);
  subRound C D E A B f1 K1 (Data 8);
  subRound B C D E A f1 K1 (Data 9);
  subRound A B C D E f1 K1 (Data 10);
  subRound E A B C D f1 K1 (Data 11);
  subRound D E A B C f1 K1 (Data 12);
  subRound C D E A B f1 K1 (Data 13);
  subRound B C D E A f1 K1 (Data 14);
  subRound A B C D E f1 K1 (Data 15);
  subRound E A B C D f1 K1 (Expand 16);
  subRound D E A B C f1 K1 (Expand 17);
  subRound C D E A B f1 K1 (Expand 18);
  subRound B C D E A f1 K1 (Expand 19);
  subRound A B C D E f2 K2 (Expand 20);
  subRound E A B C D f2 K2 (Expand 21);
  subRound D E A B C f2 K2 (Expand 22);
  subRound C D E A B f2 K2 (Expand 23);
  subRound B C D E A f2 K2 (Expand 24);
  subRound A B C D E f2 K2 (Expand 25);
  subRound E A B C D f2 K2 (Expand 26);
  subRound D E A B C f2 K2 (Expand 27);
  subRound C D E A B f2 K2 (Expand 28);
  subRound B C D E A f2 K2 (Expand 29);
  subRound A B C D E f2 K2 (Expand 30);
  subRound E A B C D f2 K2 (Expand 31);
  subRound D E A B C f2 K2 (Expand 32);
  subRound C D E A B f2 K2 (Expand 33);
  subRound B C D E A f2 K2 (Expand 34);
  subRound A B C D E f2 K2 (Expand 35);
  subRound E A B C D f2 K2 (Expand 36);
  subRound D E A B C f2 K2 (Expand 37);
  subRound C D E A B f2 K2 (Expand 38);
  subRound B C D E A f2 K2 (Expand 39);
  subRound A B C D E f3 K3 (Expand 40);
  subRound E A B C D f3 K3 (Expand 41);
  subRound D E A B C f3 K3 (Expand 42);
  subRound C D E A B f3 K3 (Expand 43);
  subRound B C D E A f3 K3 (Expand 44);
  subRound A B C D E f3 K3 (Expand 45);
  subRound E A B C D f3 K3 (Expand 46);
  subRound D E A B C f3 K3 (Expand 47);
  subRound C D E A B f3 K3 (Expand 48);
  subRound B C D E A f3 K3 (Expand 49);
  subRound A B C D E f3 K3 (Expand 50);
  subRound E A B C D f3 K3 (Expand 51);
  subRound D E A B C f3 K3 (Expand 52);
  subRound C D E A B f3 K3 (Expand 53);
  subRound B C D E A f3 K3 (Expand 54);
  subRound A B C D E f3 K3 (Expand 55);
  subRound E A B C D f3 K3 (Expand 56);
  subRound D E A B C f3 K3 (Expand 57);
  subRound C D E A B f3 K3 (Expand 58);
  subRound B C D E A f3 K3 (Expand 59);
  subRound A B C D E f4 K4 (Expand 60);
  subRound E A B C D f4 K4 (Expand 61);
  subRound D E A B C f4 K4 (Expand 62);
  subRound C D E A B f4 K4 (Expand 63);
  subRound B C D E A f4 K4 (Expand 64);
  subRound A B C D E f4 K4 (Expand 65);
  subRound E A B C D f4 K4 (Expand 66);
  subRound D E A B C f4 K4 (Expand 67);
  subRound C D E A B f4 K4 (Expand 68);
  subRound B C D E A f4 K4 (Expand 69);
  subRound A B C D E f4 K4 (Expand 70);
  subRound E A B C D f4 K4 (Expand 71);
  subRound D E A B C f4 K4 (Expand 72);
  subRound C D E A B f4 K4 (Expand 73);
  subRound B C D E A f4 K4 (Expand 74);
  subRound A B C D E f4 K4 (Expand 75);
  subRound E A B C D f4 K4 (Expand 76);
  subRound D E A B C f4 K4 (Expand 77);
  subRound C D E A B f4 K4 (Expand 78);
  subRound B C D E A f4 K4 (Expand 79)].

Definition _isrcry_sha1_compress (state input : list Z) : list Z :=
  let data := map (fun i => LOAD32H input (4 * i)) (seq 0 16) in
  let '(v, _) := foldl (fun s stmt => stmt s) (take 5 state, data) mangling in
  [u32 (get state 0 + get v A); u32 (get state 1 + get v B); u32 (get state 2 + get v C);
   u32 (get state 3 + get v D); u32 (get state 4 + get v E)].

End Sha1Compress.

Import Sha1Compress.

(** * sha1.c *)

Definition SHA1_DIGEST_SIZE : nat := 20.

Definition sha1_iv : list Z := [0x67452301; 0xEFCDAB89; 0x98BADCFE; 0x10325476; 0xC3D2E1F0].

Definition sha1_init (ctx : md_ctx) : md_ctx := mk_md sha1_iv 0 (block ctx) 0.

Definition sha1_update : md_ctx -> list Z -> md_ctx := md_update _isrcry_sha1_compress.

(** The two STORE32H of the bit count, the high word first. *)
Definition sha1_store_count (bitcount : Z) : list Z :=
  STORE32H (u32 (Z.shiftr bitcount 32)) ++ STORE32H (u32 bitcount).

Definition sha1_final : md_ctx -> option (md_ctx * list Z) :=
  md_final _isrcry_sha1_compress sha1_store_count STORE32H.

Definition _isrcry_sha1_desc : isrcry_hash_desc := {|
  h_ctx := md_ctx;
  h_zero := mk_md (replicate 5 0) 0 (replicate 64 0) 0;
  h_init := sha1_init;
  h_update := sha1_update;
  h_final := sha1_final;
  h_block_size := DATA_SIZE;
  h_digest_size := SHA1_DIGEST_SIZE
|}.

(** * FIPS 180-4 *)

Module Fips180.

Definition Ch (x y z : Z) : Z := Z.lxor (Z.land x y) (Z.land (u32 (Z.lnot x)) z).
Definition Parity (x y z : Z) : Z := Z.lxor x (Z.lxor y z).
Definition Maj (x y z : Z) : Z := Z.lxor (Z.lxor (Z.land x y) (Z.land x z)) (Z.land y z).

Definition f (t : nat) : Z -> Z -> Z -> Z :=
  if decide (t < 20)%nat then Ch else if decide (t < 40)%nat then Parity
  else if decide (t < 60)%nat then Maj else Parity.

Definition K (t : nat) : Z :=
  if decide (t < 20)%nat then 0x5a827999 else if decide (t < 40)%nat then 0x6ed9eba1
  else if decide (t < 60)%nat then 0x8f1bbcdc else 0xca62c1d6.

(** The message schedule: the 16 words of the block, extended [n] times. *)
Fixpoint extend (n : nat) (W : list Z) : list Z :=
  match n with
  | O => W
  | S n =>
      let t := length W in
      extend n (W ++ [ROTL 1 (Z.lxor (Z.lxor (Z.lxor (get W (t - 3)) (get W (t - 8)))
                                        (get W (t - 14))) (get W (t - 16)))])
  end.

Definition schedule (block : list Z) : list Z :=
  extend 64 (map (fun i => LOAD32H block (4 * i)) (seq 0 16)).

(** One round on the working variables [a; b; c; d; e]. *)
Definition round (W : list Z) (v : list Z) (t : nat) : list Z :=
  match v with
  | [a; b; c; d; e] => [u32 (ROTL 5 a + f t b c d + e + K t + get W t); a; ROTL 30 b; c; d]
  | _ => v
  end.

Definition compress (h block : list Z) : list Z :=
  let v := foldl (round (schedule block)) h (seq 0 80) in
  zip_with (fun x y => u32 (x + y)) h v.

Definition sha1 : list Z -> list Z := md_hash compress sha1_store_count STORE32H sha1_iv.

End Fips180.

Import Fips180.

(** * The unrolled code is the FIPS loop *)

Lemma u32_ROTL n x : 0 < n < 32 -> is_u 32 x -> is_u 32 (ROTL n x).
Proof.
  intros Hn Hx. unfold ROTL. apply is_u_lor; [lia|apply is_u32_u32|].
  apply is_u_shiftr; [lia..|]. eapply is_u_le; [|exact Hx]. lia.
Qed.

Lemma f1_Ch x y z : is_u 32 x -> is_u 32 z -> f1 x y z = Ch x y z.
Proof.
  intros Hx Hz. apply Z.bits_inj'. intros i Hi. unfold f1, Ch.
  repeat rewrite ?Z.lxor_spec, ?Z.land_spec, ?u32_testbit, ?Z.lnot_spec by done.
  case_bool_decide; [by destruct (Z.testbit x i), (Z.testbit y i), (Z.testbit z i)|].
  by rewrite (is_u_testbit 32 x), (is_u_testbit 32 z) by (done || lia).
Qed.

Lemma f2_Parity x y z : f2 x y z = Parity x y z.
Proof. unfold f2, Parity. by rewrite Z.lxor_assoc. Qed.

Lemma f3_Maj x y z : f3 x y z = Maj x y z.
Proof.
  apply Z.bits_inj'. intros i Hi. unfold f3, Maj.
  repeat rewrite ?Z.lxor_spec, ?Z.land_spec, ?Z.lor_spec by done.
  by destruct (Z.testbit x i), (Z.testbit y i), (Z.testbit z i).
Qed.

(** The function and constant of round [t] as the macros name them. *)
Definition f_of (t : nat) : Z -> Z -> Z -> Z :=
  if decide (t < 20)%nat then f1 else if decide (t < 40)%nat then f2
  else if decide (t < 60)%nat then f3 else f4.

Lemma f_of_f t x y z : is_u 32 x -> is_u 32 z -> f_of t x y z = f t x y z.
Proof.
  intros. unfold f_of, f. repeat case_decide; auto using f1_Ch, f2_Parity, f3_Maj.
Qed.

Definition K_of (t : nat) : Z :=
  if decide (t < 20)%nat then K1 else if decide (t < 40)%nat then K2
  else if decide (t < 60)%nat then K3 else K4.

(** The statement of round [t]. *)
Local Abbreviation role := (rot_role 5).
Local Abbreviation vars := (rot_vars 5).

Definition stmt (t : nat) : locals -> locals :=
  subRound (role t 0) (role t 1) (role t 2) (role t 3) (role t 4) (f_of t) (K_of t)
    (if decide (t < 16)%nat then Data t else Expand t).

Lemma mangling_stmt : mangling = map stmt (seq 0 80).
Proof. reflexivity. Qed.

Definition words5 (v : list Z) : Prop := length v = 5%nat /\ Forall (is_u 32) v.

Lemma words5_inv v : words5 v -> exists a b c d e, v = [a; b; c; d; e] /\
  is_u 32 a /\ is_u 32 b /\ is_u 32 c /\ is_u 32 d /\ is_u 32 e.
Proof.
  intros [Hl Hv]. destruct v as [|a [|b [|c [|d [|e [|]]]]]]; try discriminate Hl.
  rewrite !Forall_cons in Hv. exists a, b, c, d, e. by destruct_and! Hv.
Qed.

Lemma words5_round W v t : words5 v -> words5 (round W v t).
Proof.
  intros (a & b & c & d & e & -> & ?)%words5_inv. split; [done|]. simpl.
  repeat apply Forall_cons_2; try apply Forall_nil_2; try tauto;
    [apply is_u32_u32|apply u32_ROTL; [lia|tauto]].
Qed.

(** One statement on the variables is one round on the working variables. *)
Lemma stmt_round W v t data w data' :
  words5 v -> fetch (if decide (t < 16)%nat then Data t else Expand t) data = (w, data') ->
  w = get W t -> stmt t (vars t v, data) = (vars (S t) (round W v t), data').
Proof.
  intros (a & b & c & d & e & -> & Ha & Hb & Hc & Hd & He)%words5_inv Hf ->.
  unfold stmt, subRound. rewrite Hf. cbn [round].
  replace (u32 (ROTL 5 a + f t b c d + e + K t + get W t))
    with (u32 (e + (ROTL 5 a + f_of t b c d + K_of t + get W t))).
  2:{ rewrite f_of_f by done. f_equal. change (K_of t) with (K t). lia. }
  generalize (f_of t) (K_of t) (get W t). intros g k w.
  rewrite !(rot_role_mod 5 t), (rot_vars_mod 5 t), (rot_vars_S_mod 5 t).
  pose proof (Nat.mod_upper_bound t 5 ltac:(lia)) as Hm.
  destruct (t mod 5)%nat as [|[|[|[|[|]]]]]; [reflexivity..|lia].
Qed.

(** * The circular buffer *)

Lemma length_extend n W : length (extend n W) = (length W + n)%nat.
Proof.
  revert W. induction n as [|n IH]; intros W; cbn [extend]; [lia|].
  rewrite IH, length_app. simpl. lia.
Qed.

Lemma extend_prefix n W i : (i < length W)%nat -> get (extend n W) i = get W i.
Proof.
  revert W. induction n as [|n IH]; intros W Hi; cbn [extend]; [done|].
  rewrite IH by (rewrite length_app; lia). by apply get_app_l.
Qed.

Lemma get_snoc l x : get (l ++ [x]) (length l) = x.
Proof. unfold get. by rewrite list_lookup_middle. Qed.

Lemma extend_spec n W t :
  (16 <= length W <= t)%nat -> (t < length W + n)%nat ->
  get (extend n W) t =
    ROTL 1 (Z.lxor (Z.lxor (Z.lxor (get (extend n W) (t - 3)) (get (extend n W) (t - 8)))
                      (get (extend n W) (t - 14))) (get (extend n W) (t - 16))).
Proof.
  revert W. induction n as [|n IH]; intros W Hl Ht; [lia|]. cbn [extend].
  destruct (decide (t = length W)) as [->|Hne].
  - rewrite !extend_prefix by (rewrite length_app; simpl; lia).
    by rewrite get_snoc, !(get_app_l W) by lia.
  - apply IH; rewrite length_app; simpl; lia.
Qed.

(** The buffer holds the schedule words [n .. n + 15]. *)
Definition window (W : list Z) (n : nat) (data : list Z) : Prop :=
  length data = 16%nat /\ forall i, (n <= i < n + 16)%nat -> get data (i mod 16) = get W i.

Lemma land_15 n : Nat.land n 15 = (n mod 16)%nat.
Proof. exact (Nat.land_ones n 4). Qed.

Lemma window_get W t data i :
  window W (t - 16) data -> (16 <= t)%nat -> (t - 16 <= i < t)%nat ->
  get data (Nat.land i 15) = get W i.
Proof. intros [_ H] Ht Hi. rewrite land_15. apply H. lia. Qed.

Lemma get_insert_eq l i v : (i < length l)%nat -> get (<[i := v]> l) i = v.
Proof. intros. unfold get. by rewrite list_lookup_insert_eq. Qed.

Lemma get_insert_ne l i j v : i <> j -> get (<[i := v]> l) j = get l j.
Proof. intros. unfold get. by rewrite list_lookup_insert_ne. Qed.

(** The recurrence of the schedule. *)
Definition expanded (W : list Z) : Prop := forall t, (16 <= t < 80)%nat ->
  get W t = ROTL 1 (Z.lxor (Z.lxor (Z.lxor (get W (t - 3)) (get W (t - 8)))
                              (get W (t - 14))) (get W (t - 16))).

Lemma schedule_expanded block : expanded (schedule block).
Proof.
  intros t Ht. unfold schedule. set (W := map _ _).
  assert (length W = 16%nat) as Hl by apply length_map. clearbody W.
  apply (extend_spec 64 W t); lia.
Qed.

Lemma fetch_window W t data :
  expanded W -> window W (t - 16) data -> (t < 80)%nat ->
  exists data', fetch (if decide (t < 16)%nat then Data t else Expand t) data = (get W t, data') /\
    window W (S t - 16) data'.
Proof.
  intros HW Hw Ht. destruct (decide (t < 16)%nat) as [H16|H16].
  - exists data. replace (S t - 16)%nat with (t - 16)%nat by lia. split; [|done].
    destruct Hw as [_ Hw]. cbn [fetch]. rewrite <- (Hw t), Nat.mod_small by lia. done.
  - cbn [fetch]. unfold expand. replace (Nat.land t 15) with (Nat.land (t - 16) 15).
    2:{ rewrite !land_15. replace t with (t - 16 + 1 * 16)%nat at 2 by lia.
        by rewrite Nat.Div0.mod_add. }
    rewrite !(window_get W t data) by (done || lia).
    set (v := ROTL 1 _). assert (v = get W t) as Hv.
    { unfold v. rewrite (HW t) by lia. f_equal. apply Z.bits_inj'. intros i Hi. rewrite !Z.lxor_spec.
      do 4 match goal with |- context [Z.testbit ?x i] => destruct (Z.testbit x i) end; done. }
    exists (<[Nat.land (t - 16) 15 := v]> data). split; [by rewrite Hv|].
    destruct Hw as [Hl Hw]. split; [by rewrite length_insert|]. intros i Hi. rewrite land_15.
    assert ((t - 16) mod 16 < 16)%nat as Hm by (apply Nat.mod_upper_bound; lia).
    destruct (decide (i = t)) as [->|Hne].
    + rewrite <- Hv. replace (t mod 16)%nat with ((t - 16) mod 16)%nat; [apply get_insert_eq; lia|].
      replace t with (t - 16 + 1 * 16)%nat at 2 by lia. by rewrite Nat.Div0.mod_add.
    + rewrite get_insert_ne; [apply Hw; lia|]. intros He.
      pose proof (Nat.div_mod_eq i 16). pose proof (Nat.div_mod_eq (t - 16) 16). lia.
Qed.

Lemma mangling_rounds W k t v data :
  expanded W -> (t + k <= 80)%nat -> words5 v -> window W (t - 16) data ->
  exists data', foldl (fun s st => st s) (vars t v, data) (map stmt (seq t k)) =
    (vars (t + k) (foldl (round W) v (seq t k)), data').
Proof.
  intros HW. revert t v data. induction k as [|k IH]; intros t v data Ht Hv Hw.
  - exists data. simpl. by rewrite Nat.add_0_r.
  - destruct (fetch_window W t data HW Hw ltac:(lia)) as (data1 & Hf & Hw1).
    cbn [seq map foldl].
    rewrite (stmt_round W v t data (get W t) data1 Hv Hf eq_refl).
    destruct (IH (S t) (round W v t) data1) as [data2 H2];
      [lia|by apply words5_round|done|].
    exists data2. rewrite H2. do 2 f_equal. lia.
Qed.

Lemma words5_foldl W l v : words5 v -> words5 (foldl (round W) v l).
Proof. revert v. induction l; intros v Hv; simpl; [done|]. auto using words5_round. Qed.

Lemma sha1_compress_eq h b :
  words5 h -> bytes b -> length b = 64%nat ->
  _isrcry_sha1_compress h b = compress h b /\ words5 (_isrcry_sha1_compress h b).
Proof.
  intros Hh Hb Hl. split.
  - unfold _isrcry_sha1_compress, compress. rewrite mangling_stmt.
    set (data := map (fun i => LOAD32H b (4 * i)) (seq 0 16)).
    assert (window (schedule b) (0 - 16) data) as Hw.
    { split; [done|]. intros i Hi. rewrite Nat.mod_small by lia. unfold schedule. fold data.
      rewrite extend_prefix; [done|]. change (length data) with 16%nat. lia. }
    destruct (mangling_rounds (schedule b) 80 0 h data) as [data' Hm];
      [apply schedule_expanded|lia|done|done|].
    assert (take 5 h = vars 0 h) as ->.
    { by destruct (words5_inv h Hh) as (?&?&?&?&?&->&_). }
    rewrite Hm. change (0 + 80)%nat with 80%nat.
    pose proof (words5_foldl (schedule b) (seq 0 80) h Hh) as Hv.
    destruct (words5_inv _ Hv) as (a&b'&c&d&e&->&_).
    by destruct (words5_inv h Hh) as (?&?&?&?&?&->&_).
  - unfold _isrcry_sha1_compress. destruct (foldl _ _ _) as [v data]. split; [done|].
    repeat apply Forall_cons_2; auto using is_u32_u32.
Qed.

(** * The descriptor implements SHA-1 *)

Lemma words5_sha1_iv : words5 sha1_iv.
Proof. split; [done|]. repeat (apply Forall_cons_2; [by vm_compute|]). apply Forall_nil_2. Qed.

Lemma length_sha1_store_count x : length (sha1_store_count x) = 8%nat.
Proof. done. Qed.

Lemma bytes_sha1_store_count x : bytes (sha1_store_count x).
Proof. apply Forall_app. split; apply bytes_STORE32H. Qed.

Lemma sha1_md_hash msg : bytes msg ->
  md_hash _isrcry_sha1_compress sha1_store_count STORE32H sha1_iv msg = sha1 msg.
Proof.
  apply (md_hash_ext words5); [apply sha1_compress_eq|apply bytes_sha1_store_count|
    apply words5_sha1_iv].
Qed.

Lemma length_sha1 msg : length (sha1 msg) = 20%nat.
Proof.
  unfold sha1, md_hash. rewrite length_concat_map_4 by done.
  rewrite (md_iter_inv (fun h => length h = 5%nat)); [done|done|].
  intros h b Hh. unfold compress. rewrite length_zip_with.
  assert (forall l v, length v = 5%nat -> length (foldl (round (schedule b)) v l) = 5%nat) as Hr.
  { induction l as [|t l IH]; intros v Hv; cbn [foldl]; [done|]. apply IH.
    by destruct v as [|? [|? [|? [|? [|? [|]]]]]]. }
  rewrite Hr by done. lia.
Qed.

#[global] Program Instance sha1_alg : HashAlg _isrcry_sha1_desc := {|
  hash_fun := sha1;
  hash_wf := fun ctx => length (block ctx) = 64%nat;
  hash_repr := md_repr _isrcry_sha1_compress sha1_iv
|}.
Next Obligation. done. Qed.
Next Obligation. intros c m H. apply H. Qed.
Next Obligation. intros c Hc. by split_and!. Qed.
Next Obligation. intros c m b Hc Hb. by apply md_update_repr. Qed.
Next Obligation.
  intros c m Hc. destruct (md_final_repr _ sha1_store_count STORE32H length_sha1_store_count _ _ _ Hc)
    as (c' & Hf & Hl).
  exists c'. split; [|done]. rewrite <- sha1_md_hash by apply Hc. exact Hf.
Qed.
Next Obligation. intros m. apply length_sha1. Qed.
Next Obligation. intros m. apply bytes_concat_map, bytes_STORE32H. Qed.

(** * Properties *)

(** The unrolled compression function with its circular buffer computes the 80-round loop of
    FIPS 180-4, on any state of five words and any block of 64 bytes. *)
Theorem sha1_compress_fips h b :
  length h = 5%nat -> Forall (is_u 32) h -> bytes b -> length b = 64%nat ->
  _isrcry_sha1_compress h b = compress h b.
Proof. intros Hl Hh Hb Hb'. by apply sha1_compress_eq. Qed.

Lemma sha1_compress_fips_witness :
  _isrcry_sha1_compress sha1_iv (replicate 64 7) = compress sha1_iv (replicate 64 7).
Proof.
  apply (sha1_compress_fips sha1_iv (replicate 64 7)).
  - reflexivity.
  - repeat (apply Forall_cons_2; [by vm_compute|]). apply Forall_nil_2.
  - by apply Forall_replicate.
  - reflexivity.
Defined.

Example sha1_abc : sha1 [97; 98; 99] =
  [0xa9; 0x99; 0x3e; 0x36; 0x47; 0x06; 0x81; 0x6a; 0xba; 0x3e; 0x25; 0x71; 0x78; 0x50; 0xc2;
   0x6c; 0x9c; 0xd0; 0xd8; 0x9d].
Proof. vm_compute. reflexivity. Qed.
