(* ===== verification/Md5.v ===== *)
(** MD5 (src/crypto/md5-compress.c, md5.c).

    As for SHA-1: the source's 64 unrolled rounds as statements over the local variables a..d,
    proved equal to the loop of RFC 1321, and the streaming interface. *)

From S2P Require Import Prelude HashStream.

(** * md5-compress.c *)

Module Md5Compress.

Definition F1 (x y z : Z) : Z := Z.lxor z (Z.land x (Z.lxor y z)).
Definition F2 (x y z : Z) : Z := F1 z x y.
Definition F3 (x y z : Z) : Z := Z.lxor (Z.lxor x y) z.
Definition F4 (x y z : Z) : Z := Z.lxor y (Z.lor x (u32 (Z.lnot z))).

(** The local variables, by position in the array of their values. *)
Definition a : nat := 0.
Definition b : nat := 1.
Definition c : nat := 2.
Definition d : nat := 3.

(** "w += f(x, y, z) + data,  w = w<<s | w>>(32-s),  w += x", where the macro's
    "data" is "data[i] + k". *)
Definition ROUND (f : Z -> Z -> Z -> Z) (w x y z i : nat) (k s : Z)
    (data v : list Z) : list Z :=
  let arg := u32 (get data i + k) in
  let v := <[w := u32 (get v w + (f (get v x) (get v y) (get v z) + arg))]> v in
  let v := <[w := Z.lor (u32 (Z.shiftl (get v w) s)) (Z.shiftr (get v w) (32 - s))]> v in
  <[w := u32 (get v w + get v x)]> v.

Definition transformation : list (list Z -> list Z -> list Z) := [
  ROUND F1 a b c d 0 0xd76aa478 7;
  ROUND F1 d a b c 1 0xe8c7b756 12;
  ROUND F1 c d a b 2 0x242070db 17;
  ROUND F1 b c d a 3 0xc1bdceee 22;
  ROUND F1 a b c d 4 0xf57c0faf 7;
  ROUND F1 d a b c 5 0x4787c62a 12;
  ROUND F1 c d a b 6 0xa8304613 17;
  ROUND F1 b c d a 7 0xfd469501 22;
  ROUND F1 a b c d 8 0x698098d8 7;
  ROUND F1 d a b c 9 0x8b44f7af 12;
  ROUND F1 c d a b 10 0xffff5bb1 17;
  ROUND F1 b c d a 11 0x895cd7be 22;
  ROUND F1 a b c d 12 0x6b901122 7;
  ROUND F1 d a b c 13 0xfd987193 12;
  ROUND F1 c d a b 14 0xa679438e 17;
  ROUND F1 b c d a 15 0x49b40821 22;
  ROUND F2 a b c d 1 0xf61e2562 5;
  ROUND F2 d a b c 6 0xc040b340 9;
  ROUND F2 c d a b 11 0x265e5a51 14;
  ROUND F2 b c d a 0 0xe9b6c7aa 20;
  ROUND F2 a b c d 5 0xd62f105d 5;
  ROUND F2 d a b c 10 0x02441453 9;
  ROUND F2 c d a b 15 0xd8a1e681 14;
  ROUND F2 b c d a 4 0xe7d3fbc8 20;
  ROUND F2 a b c d 9 0x21e1cde6 5;
  ROUND F2 d a b c 14 0xc33707d6 9;
  ROUND F2 c d a b 3 0xf4d50d87 14;
  ROUND F2 b c d a 8 0x455a14ed 20;
  ROUND F2 a b c d 13 0xa9e3e905 5;
  ROUND F2 d a b c 2 0xfcefa3f8 9;
  ROUND F2 c d a b 7 0x676f02d9 14;
  ROUND F2 b c d a 12 0x8d2a4c8a 20;
  ROUND F3 a b c d 5 0xfffa3942 4;
  ROUND F3 d a b c 8 0x8771f681 11;
  ROUND F3 c d a b 11 0x6d9d6122 16;
  ROUND F3 b c d a 14 0xfde5380c 23;
  ROUND F3 a b c d 1 0xa4beea44 4;
  ROUND F3 d a b c 4 0x4bdecfa9 11;
  ROUND F3 c d a b 7 0xf6bb4b60 16;
  ROUND F3 b c d a 10 0xbebfbc70 23;
  ROUND F3 a b c d 13 0x289b7ec6 4;
  ROUND F3 d a b c 0 0xeaa127fa 11;
  ROUND F3 c d a b 3 0xd4ef3085 16;
  ROUND F3 b c d a 6 0x04881d05 23;
  ROUND F3 a b c d 9 0xd9d4d039 4;
  ROUND F3 d a b c 12 0xe6db99e5 11;
  ROUND F3 c d a b 15 0x1fa27cf8 16;
  ROUND F3 b c d a 2 0xc4ac5665 23;
  ROUND F4 a b c d 0 0xf4292244 6;
  ROUND F4 d a b c 7 0x432aff97 10;
  ROUND F4 c d a b 14 0xab9423a7 15;
  ROUND F4 b c d a 5 0xfc93a039 21;
  ROUND F4 a b c d 12 0x655b59c3 6;
  ROUND F4 d a b c 3 0x8f0ccc92 10;
  ROUND F4 c d a b 10 0xffeff47d 15;
  ROUND F4 b c d a 1 0x85845dd1 21;
  ROUND F4 a b c d 8 0x6fa87e4f 6;
  ROUND F4 d a b c 15 0xfe2ce6e0 10;
  ROUND F4 c d a b 6 0xa3014314 15;
  ROUND F4 b c d a 13 0x4e0811a1 21;
  ROUND F4 a b c d 4 0xf7537e82 6;
  ROUND F4 d a b c 11 0xbd3af235 10;
  ROUND F4 c d a b 2 0x2ad7d2bb 15;
  ROUND F4 b c d a 9 0xeb86d391 21].

Definition _isrcry_md5_compress (state input : list Z) : list Z :=
  let data := map (fun i => LOAD32L input (4 * i)) (seq 0 16) in
  let v := foldl (fun v stmt => stmt data v) (take 4 state) transformation in
  [u32 (get state 0 + get v a); u32 (get state 1 + get v b); u32 (get state 2 + get v c);
   u32 (get state 3 + get v d)].

End Md5Compress.

(** * md5.c *)

Definition MD5_DIGEST_SIZE : nat := 16.

Definition md5_iv : list Z := [0x67452301; 0xefcdab89; 0x98badcfe; 0x10325476].

Definition md5_init (ctx : md_ctx) : md_ctx := mk_md md5_iv 0 (block ctx) 0.

Definition md5_update : md_ctx -> list Z -> md_ctx := md_update Md5Compress._isrcry_md5_compress.

(** The two STORE32L of the bit count, the low word first. *)
Definition md5_store_count (bitcount : Z) : list Z :=
  STORE32L (u32 bitcount) ++ STORE32L (u32 (Z.shiftr bitcount 32)).

Definition md5_final : md_ctx -> option (md_ctx * list Z) :=
  md_final Md5Compress._isrcry_md5_compress md5_store_count STORE32L.

Definition _isrcry_md5_desc : isrcry_hash_desc := {|
  h_ctx := md_ctx;
  h_zero := mk_md (replicate 4 0) 0 (replicate 64 0) 0;
  h_init := md5_init;
  h_update := md5_update;
  h_final := md5_final;
  h_block_size := DATA_SIZE;
  h_digest_size := MD5_DIGEST_SIZE
|}.

(** * RFC 1321 *)

Module Rfc1321.

Definition not32 (x : Z) : Z := u32 (Z.lnot x).
Definition F (x y z : Z) : Z := Z.lor (Z.land x y) (Z.land (not32 x) z).
Definition G (x y z : Z) : Z := Z.lor (Z.land x z) (Z.land y (not32 z)).
Definition H (x y z : Z) : Z := Z.lxor x (Z.lxor y z).
Definition I (x y z : Z) : Z := Z.lxor y (Z.lor x (not32 z)).

Definition T : list Z := [
  0xd76aa478; 0xe8c7b756; 0x242070db; 0xc1bdceee; 0xf57c0faf; 0x4787c62a; 0xa8304613;
  0xfd469501; 0x698098d8; 0x8b44f7af; 0xffff5bb1; 0x895cd7be; 0x6b901122; 0xfd987193;
  0xa679438e; 0x49b40821; 0xf61e2562; 0xc040b340; 0x265e5a51; 0xe9b6c7aa; 0xd62f105d;
  0x02441453; 0xd8a1e681; 0xe7d3fbc8; 0x21e1cde6; 0xc33707d6; 0xf4d50d87; 0x455a14ed;
  0xa9e3e905; 0xfcefa3f8; 0x676f02d9; 0x8d2a4c8a; 0xfffa3942; 0x8771f681; 0x6d9d6122;
  0xfde5380c; 0xa4beea44; 0x4bdecfa9; 0xf6bb4b60; 0xbebfbc70; 0x289b7ec6; 0xeaa127fa;
  0xd4ef3085; 0x04881d05; 0xd9d4d039; 0xe6db99e5; 0x1fa27cf8; 0xc4ac5665; 0xf4292244;
  0x432aff97; 0xab9423a7; 0xfc93a039; 0x655b59c3; 0x8f0ccc92; 0xffeff47d; 0x85845dd1;
  0x6fa87e4f; 0xfe2ce6e0; 0xa3014314; 0x4e0811a1; 0xf7537e82; 0xbd3af235; 0x2ad7d2bb; 0xeb86d391].

Definition rotate_left (x s : Z) : Z := Z.lor (u32 (Z.shiftl x s)) (Z.shiftr x (32 - s)).

Definition fn (i : nat) : Z -> Z -> Z -> Z :=
  if decide (i < 16)%nat then F else if decide (i < 32)%nat then G
  else if decide (i < 48)%nat then H else I.

(** The word of the block used in step [i]. *)
Definition word (i : nat) : nat :=
  if decide (i < 16)%nat then i else if decide (i < 32)%nat then ((5 * i + 1) mod 16)%nat
  else if decide (i < 48)%nat then ((3 * i + 5) mod 16)%nat else ((7 * i) mod 16)%nat.

(** The shifts S11 .. S44. *)
Definition shift (i : nat) : Z :=
  get (if decide (i < 16)%nat then [7; 12; 17; 22] else if decide (i < 32)%nat then [5; 9; 14; 20]
       else if decide (i < 48)%nat then [4; 11; 16; 23] else [6; 10; 15; 21]) (i mod 4).

(** "a = b + ((a + F(b,c,d) + X[k] + T[i]) <<< s)", and the roles of the variables move on. *)
Definition step (X v : list Z) (i : nat) : list Z :=
  match v with
  | [a; b; c; d] =>
      [d; u32 (b + rotate_left (u32 (a + fn i b c d + get X (word i) + get T i)) (shift i)); b; c]
  | _ => v
  end.

Definition compress (h block : list Z) : list Z :=
  let X := map (fun i => LOAD32L block (4 * i)) (seq 0 16) in
  zip_with (fun x y => u32 (x + y)) h (foldl (step X) h (seq 0 64)).

Definition md5 : list Z -> list Z := md_hash compress md5_store_count STORE32L md5_iv.

End Rfc1321.

Import Md5Compress Rfc1321.

(** * The unrolled code is the RFC 1321 loop *)

Lemma F1_F x y z : is_u 32 x -> is_u 32 z -> F1 x y z = F x y z.
Proof.
  intros Hx Hz. apply Z.bits_inj'. intros i Hi. unfold F1, F, not32.
  repeat rewrite ?Z.lxor_spec, ?Z.land_spec, ?Z.lor_spec, ?u32_testbit, ?Z.lnot_spec by done.
  case_bool_decide; [by destruct (Z.testbit x i), (Z.testbit y i), (Z.testbit z i)|].
  by rewrite (is_u_testbit 32 x), (is_u_testbit 32 z) by (done || lia).
Qed.

Lemma F2_G x y z : is_u 32 y -> is_u 32 z -> F2 x y z = G x y z.
Proof.
  intros Hy Hz. unfold F2. rewrite F1_F by done. unfold F, G.
  by rewrite (Z.land_comm z x), (Z.land_comm (not32 z) y).
Qed.

Lemma F3_H x y z : F3 x y z = H x y z.
Proof. unfold F3, H. by rewrite Z.lxor_assoc. Qed.

Definition F_of (i : nat) : Z -> Z -> Z -> Z :=
  if decide (i < 16)%nat then F1 else if decide (i < 32)%nat then F2
  else if decide (i < 48)%nat then F3 else F4.

Lemma F_of_fn i x y z : is_u 32 x -> is_u 32 y -> is_u 32 z -> F_of i x y z = fn i x y z.
Proof. intros. unfold F_of, fn. repeat case_decide; auto using F1_F, F2_G, F3_H. Qed.

Local Abbreviation role := (rot_role 4).
Local Abbreviation vars := (rot_vars 4).

(** The statement of step [t]. *)
Definition stmt (t : nat) : list Z -> list Z -> list Z :=
  ROUND (F_of t) (role t 0) (role t 1) (role t 2) (role t 3) (word t) (get T t) (shift t).

Lemma transformation_stmt : transformation = map stmt (seq 0 64).
Proof. reflexivity. Qed.

Definition words4 (v : list Z) : Prop := length v = 4%nat /\ Forall (is_u 32) v.

Lemma words4_inv v : words4 v -> exists a b c d, v = [a; b; c; d] /\
  is_u 32 a /\ is_u 32 b /\ is_u 32 c /\ is_u 32 d.
Proof.
  intros [Hl Hv]. destruct v as [|a [|b [|c [|d [|]]]]]; try discriminate Hl.
  rewrite !Forall_cons in Hv. exists a, b, c, d. by destruct_and! Hv.
Qed.

Lemma words4_step X v t : words4 v -> words4 (step X v t).
Proof.
  intros (a & b & c & d & -> & ?)%words4_inv. split; [done|]. simpl.
  repeat apply Forall_cons_2; try apply Forall_nil_2; try tauto. apply is_u32_u32.
Qed.

Lemma words4_foldl X l v : words4 v -> words4 (foldl (step X) v l).
Proof. revert v. induction l; intros v Hv; simpl; [done|]. auto using words4_step. Qed.

Lemma stmt_step X v t :
  words4 v -> stmt t X (vars t v) = vars (S t) (step X v t).
Proof.
  intros (a & b & c & d & -> & Ha & Hb & Hc & Hd)%words4_inv.
  unfold stmt, ROUND. cbn [step]. unfold rotate_left.
  rewrite (Z.add_comm b). set (arg := u32 (get X (word t) + get T t)).
  replace (u32 (a + fn t b c d + get X (word t) + get T t)) with (u32 (a + (F_of t b c d + arg))).
  2:{ rewrite F_of_fn by done. unfold arg, u32. rewrite Z.add_assoc, Zplus_mod_idemp_r.
      f_equal. lia. }
  generalize (F_of t) arg (shift t). clear arg. intros g arg s.
  rewrite !(rot_role_mod 4 t), (rot_vars_mod 4 t), (rot_vars_S_mod 4 t).
  pose proof (Nat.mod_upper_bound t 4 ltac:(lia)) as Hm.
  destruct (t mod 4)%nat as [|[|[|[|]]]]; [reflexivity..|lia].
Qed.

Lemma transformation_steps X k t v :
  words4 v -> foldl (fun v st => st X v) (vars t v) (map stmt (seq t k))
    = vars (t + k) (foldl (step X) v (seq t k)).
Proof.
  revert t v. induction k as [|k IH]; intros t v Hv; cbn [seq map foldl].
  - by rewrite Nat.add_0_r.
  - rewrite stmt_step, IH by auto using words4_step. f_equal. lia.
Qed.

Lemma md5_compress_eq h b :
  words4 h -> bytes b -> length b = 64%nat ->
  _isrcry_md5_compress h b = compress h b /\ words4 (_isrcry_md5_compress h b).
Proof.
  intros Hh Hb Hl. split.
  - unfold _isrcry_md5_compress, compress. rewrite transformation_stmt.
    set (X := map (fun i => LOAD32L b (4 * i)) (seq 0 16)).
    assert (take 4 h = vars 0 h) as ->.
    { by destruct (words4_inv h Hh) as (?&?&?&?&->&_). }
    rewrite transformation_steps by done. change (0 + 64)%nat with 64%nat.
    destruct (words4_inv _ (words4_foldl X (seq 0 64) h Hh)) as (?&?&?&?&->&_).
    by destruct (words4_inv h Hh) as (?&?&?&?&->&_).
  - unfold _isrcry_md5_compress. generalize (foldl (fun v st => st (map (fun i => LOAD32L b (4 * i))
      (seq 0 16)) v) (take 4 h) transformation). intros v. split; [done|].
    repeat apply Forall_cons_2; auto using is_u32_u32.
Qed.

(** * The descriptor implements MD5 *)

Lemma words4_md5_iv : words4 md5_iv.
Proof. split; [done|]. repeat (apply Forall_cons_2; [by vm_compute|]). apply Forall_nil_2. Qed.

Lemma length_md5_store_count x : length (md5_store_count x) = 8%nat.
Proof. done. Qed.

Lemma bytes_md5_store_count x : bytes (md5_store_count x).
Proof. apply Forall_app. split; apply bytes_STORE32L. Qed.

Lemma md5_md_hash msg : bytes msg ->
  md_hash _isrcry_md5_compress md5_store_count STORE32L md5_iv msg = md5 msg.
Proof.
  apply (md_hash_ext words4); [apply md5_compress_eq|apply bytes_md5_store_count|
    apply words4_md5_iv].
Qed.

Lemma length_md5 msg : length (md5 msg) = 16%nat.
Proof.
  unfold md5, md_hash. rewrite length_concat_map_4 by done.
  rewrite (md_iter_inv (fun h => length h = 4%nat)); [done|done|].
  intros h b Hh. unfold compress. rewrite length_zip_with.
  assert (forall X l v, length v = 4%nat -> length (foldl (step X) v l) = 4%nat) as Hr.
  { induction l as [|t l IH]; intros v Hv; cbn [foldl]; [done|]. apply IH.
    by destruct v as [|? [|? [|? [|? [|]]]]]. }
  rewrite Hr by done. lia.
Qed.

#[global] Program Instance md5_alg : HashAlg _isrcry_md5_desc := {|
  hash_fun := md5;
  hash_wf := fun ctx => length (block ctx) = 64%nat;
  hash_repr := md_repr _isrcry_md5_compress md5_iv
|}.
Next Obligation. done. Qed.
Next Obligation. intros ctx m Hc. apply Hc. Qed.
Next Obligation. intros ctx Hc. by split_and!. Qed.
Next Obligation. intros ctx m buf Hc Hb. by apply md_update_repr. Qed.
Next Obligation.
  intros ctx m Hc.
  destruct (md_final_repr _ md5_store_count STORE32L length_md5_store_count _ _ _ Hc)
    as (c' & Hf & Hl).
  exists c'. split; [|done]. rewrite <- md5_md_hash by apply Hc. exact Hf.
Qed.
Next Obligation. intros m. apply length_md5. Qed.
Next Obligation. intros m. apply bytes_concat_map, bytes_STORE32L. Qed.

(** * Properties *)

(** The unrolled MD5 transformation computes the 64-step loop of RFC 1321, with its word
    order and shifts, on any state of four words and any block of 64 bytes. *)
Theorem md5_compress_rfc1321 h b :
  length h = 4%nat -> Forall (is_u 32) h -> bytes b -> length b = 64%nat ->
  _isrcry_md5_compress h b = compress h b.
Proof. intros Hl Hh Hb Hb'. by apply md5_compress_eq. Qed.

Lemma md5_compress_rfc1321_witness :
  _isrcry_md5_compress md5_iv (replicate 64 7) = compress md5_iv (replicate 64 7).
Proof.
  apply (md5_compress_rfc1321 md5_iv (replicate 64 7)).
  - reflexivity.
  - repeat (apply Forall_cons_2; [by vm_compute|]). apply Forall_nil_2.
  - by apply Forall_replicate.
  - reflexivity.
Defined.

Example md5_abc : md5 [97; 98; 99] =
  [0x90; 0x01; 0x50; 0x98; 0x3c; 0xd2; 0x4f; 0xb0; 0xd6; 0x96; 0x3f; 0x7d; 0x28; 0xe1; 0x7f;
   0x72].
Proof. vm_compute. reflexivity. Qed.
