(* ===== verification/Hash.v ===== *)
(** The hash interface (src/crypto/hash.c) over the SHA-1 and MD5 descriptors. *)

From S2P Require Import Prelude HashStream Sha1 Md5.

Inductive isrcry_hash := ISRCRY_HASH_SHA1 | ISRCRY_HASH_MD5.

Record isrcry_hash_ctx := mk_hctx { desc : isrcry_hash_desc; ctx : h_ctx desc }.

Definition hash_desc (type : isrcry_hash) : isrcry_hash_desc :=
  match type with
  | ISRCRY_HASH_SHA1 => _isrcry_sha1_desc
  | ISRCRY_HASH_MD5 => _isrcry_md5_desc
  end.

Definition isrcry_hash_alloc (type : isrcry_hash) : isrcry_hash_ctx :=
  let d := hash_desc type in mk_hctx d (h_init d (h_zero d)).

Definition isrcry_hash_update (hctx : isrcry_hash_ctx) (buffer : list Z) : isrcry_hash_ctx :=
  mk_hctx (desc hctx) (h_update (desc hctx) (ctx hctx) buffer).

(** The digest, and the context initialised again. *)
Definition isrcry_hash_final (hctx : isrcry_hash_ctx) : option (isrcry_hash_ctx * list Z) :=
  '(c, digest) ← h_final (desc hctx) (ctx hctx);
  Some (mk_hctx (desc hctx) (h_init (desc hctx) c), digest).

Definition isrcry_hash_len (type : isrcry_hash) : nat := h_digest_size (hash_desc type).

(** * What a context holds *)

#[global] Instance hash_alg type : HashAlg (hash_desc type).
Proof. destruct type; apply _. Defined.

(** The function a hash type stands for. *)
Definition hash_spec (type : isrcry_hash) : list Z -> list Z :=
  match type with
  | ISRCRY_HASH_SHA1 => Fips180.sha1
  | ISRCRY_HASH_MD5 => Rfc1321.md5
  end.

Lemma hash_fun_spec type : hash_fun (hash_desc type) = hash_spec type.
Proof. by destruct type. Qed.

(** [hctx] has absorbed [msg] since it was last initialised. *)
Definition hctx_repr (type : isrcry_hash) (hctx : isrcry_hash_ctx) (msg : list Z) : Prop :=
  exists c, hctx = mk_hctx (hash_desc type) c /\ hash_repr (hash_desc type) c msg.

Lemma isrcry_hash_alloc_repr type : hctx_repr type (isrcry_hash_alloc type) [].
Proof. eexists. split; [done|]. apply hash_init_repr, hash_wf_zero. Qed.

Lemma isrcry_hash_update_repr type hctx msg b :
  hctx_repr type hctx msg -> bytes b -> hctx_repr type (isrcry_hash_update hctx b) (msg ++ b).
Proof. intros (c & -> & Hc) Hb. eexists. split; [done|]. by apply hash_update_repr. Qed.

Lemma isrcry_hash_final_repr type hctx msg :
  hctx_repr type hctx msg ->
  exists hctx', isrcry_hash_final hctx = Some (hctx', hash_spec type msg) /\
    hctx_repr type hctx' [].
Proof.
  intros (c & -> & Hc). destruct (hash_final_repr c msg Hc) as (c' & Hf & Hw).
  unfold isrcry_hash_final. cbn [desc ctx]. rewrite Hf, hash_fun_spec. cbn [mbind option_bind].
  eexists. split; [done|]. eexists. split; [done|]. by apply hash_init_repr.
Qed.

Lemma isrcry_hash_updates_repr type hctx msg bufs :
  hctx_repr type hctx msg -> Forall (fun b => bytes b) bufs ->
  hctx_repr type (foldl isrcry_hash_update hctx bufs) (msg ++ concat bufs).
Proof.
  revert hctx msg. induction bufs as [|b bufs IH]; intros hctx msg Hr Hb; simpl.
  - by rewrite app_nil_r.
  - apply Forall_cons in Hb as [Hb Hbs]. rewrite (assoc_L (++)).
    apply IH; [|done]. by apply isrcry_hash_update_repr.
Qed.

Lemma length_hash_spec type msg : length (hash_spec type msg) = h_digest_size (hash_desc type).
Proof. rewrite <- hash_fun_spec. apply hash_fun_length. Qed.

Lemma bytes_hash_spec type msg : bytes (hash_spec type msg).
Proof. rewrite <- hash_fun_spec. apply hash_fun_bytes. Qed.

(** * Properties *)

(** Hashing one message after another in the same context, each given in pieces. *)
Fixpoint hash_session (hctx : isrcry_hash_ctx) (msgs : list (list (list Z))) :
    option (list (list Z)) :=
  match msgs with
  | [] => Some []
  | bufs :: msgs =>
      '(hctx, digest) ← isrcry_hash_final (foldl isrcry_hash_update hctx bufs);
      rest ← hash_session hctx msgs;
      Some (digest :: rest)
  end.

Lemma hash_session_repr type hctx msgs :
  hctx_repr type hctx [] -> Forall (Forall (fun b => bytes b)) msgs ->
  hash_session hctx msgs = Some (map (fun bufs => hash_spec type (concat bufs)) msgs).
Proof.
  revert hctx. induction msgs as [|bufs msgs IH]; intros hctx Hr Hb; [done|].
  apply Forall_cons in Hb as [Hb Hbs].
  destruct (isrcry_hash_final_repr type _ _ (isrcry_hash_updates_repr type hctx [] bufs Hr Hb))
    as (hctx' & Hf & Hr').
  cbn [hash_session]. rewrite Hf. cbn [mbind option_bind]. rewrite (IH hctx') by done. done.
Qed.

(** C37: a hash context gives, for each of any sequence of messages, the SHA-1 of FIPS 180-4 or
    the MD5 of RFC 1321 of the message (the length in its padding taken modulo 2^64), however the
    message was split into updates, and is ready for the next one; no assertion fails. *)
Theorem isrcry_hash_correct type msgs :
  Forall (Forall (fun b => bytes b)) msgs ->
  hash_session (isrcry_hash_alloc type) msgs =
    Some (map (fun bufs => hash_spec type (concat bufs)) msgs).
Proof. apply hash_session_repr, isrcry_hash_alloc_repr. Qed.

Lemma isrcry_hash_correct_witness :
  hash_session (isrcry_hash_alloc ISRCRY_HASH_SHA1) [[[97]; [98; 99]]; []] =
    Some (map (fun bufs => hash_spec ISRCRY_HASH_SHA1 (concat bufs)) [[[97]; [98; 99]]; []]).
Proof.
  apply (isrcry_hash_correct ISRCRY_HASH_SHA1 [[[97]; [98; 99]]; []]).
  repeat (apply Forall_cons_2 || apply Forall_nil_2 || by vm_compute).
Defined.
