(* ===== verification/Mac.v ===== *)
(** Message authentication codes (src/crypto/mac.c, hmac.c).

    Lists stand for (pointer, length) pairs; the NULL key of a context that was never keyed has
    length 0 and is the empty list.  [None] is a failed g_assert.  The word-wise xor with IPAD and
    OPAD is written with little-endian words; the pads repeat one byte, so the byte order of the
    host does not matter ([xor_pad_bytes]). *)

From S2P Require Import Prelude Cipher HashStream Hash.

Inductive isrcry_mac := ISRCRY_MAC_HMAC_SHA1.

(** * hmac.c *)

Definition IPAD : Z := 0x36363636.
Definition OPAD : Z := 0x5C5C5C5C.

Record isrcry_hmac_ctx := mk_hmac {
  hctx : isrcry_hash_ctx;
  hkey : list Z;
  hkeylen : nat;
  hashlen : nat
}.

Definition hmac_alloc (hash : isrcry_hash) : isrcry_hmac_ctx :=
  let hctx := isrcry_hash_alloc hash in
  let keylen := h_block_size (desc hctx) in
  mk_hmac hctx (replicate keylen 0) keylen (isrcry_hash_len hash).

(** The loops that xor the key with a pad, word by word, into "kbuf"; [None] when the key length
    is not a multiple of 4. *)
Definition xor_pad (key : list Z) (keylen : nat) (pad : Z) : option (list Z) :=
  if decide (keylen mod 4 = 0)%nat
  then Some (concat (map (fun n => STORE32L (Z.lxor (LOAD32L key (4 * n)) pad))
                       (seq 0 (keylen / 4))))
  else None.

(** The key buffer: the digest of a key longer than the buffer, or the key and zeros. *)
Definition hmac_load_key (h : isrcry_hash_ctx) (buf : list Z) (keylen : nat) (key : list Z) :
    option (isrcry_hash_ctx * list Z) :=
  if decide (keylen < length key)%nat then
    '(h, digest) ← isrcry_hash_final (isrcry_hash_update h key);
    Some (h, blit buf 0 digest)
  else
    let buf := blit buf 0 key in
    Some (h, blit buf (length key) (replicate (keylen - length key) 0)).

Definition hmac_init (c : isrcry_hmac_ctx) (key : list Z) :
    option (isrcry_result * isrcry_hmac_ctx) :=
  '(h, _) ← isrcry_hash_final (hctx c);
  '(h, k) ← hmac_load_key h (hkey c) (hkeylen c) key;
  kbuf ← xor_pad k (hkeylen c) IPAD;
  Some (ISRCRY_OK, mk_hmac (isrcry_hash_update h kbuf) k (hkeylen c) (hashlen c)).

Definition set_hctx (c : isrcry_hmac_ctx) (h : isrcry_hash_ctx) : isrcry_hmac_ctx :=
  mk_hmac h (hkey c) (hkeylen c) (hashlen c).

Definition hmac_update (c : isrcry_hmac_ctx) (buffer : list Z) : isrcry_hmac_ctx :=
  set_hctx c (isrcry_hash_update (hctx c) buffer).

(** The result, the context and the [outlen] bytes written. *)
Definition hmac_final (c : isrcry_hmac_ctx) (outlen : nat) :
    option (isrcry_result * isrcry_hmac_ctx * list Z) :=
  if decide (hashlen c < outlen)%nat then Some (ISRCRY_INVALID_ARGUMENT, c, [])
  else
    '(h, hbuf) ← isrcry_hash_final (hctx c);
    kbuf ← xor_pad (hkey c) (hkeylen c) OPAD;
    '(h, hbuf) ← isrcry_hash_final (isrcry_hash_update (isrcry_hash_update h kbuf) hbuf);
    Some (ISRCRY_OK, set_hctx c h, take outlen hbuf).

(** * mac.c *)

Record isrcry_mac_desc := {
  m_ctx : Type;
  m_alloc : isrcry_hash -> m_ctx;
  m_init : m_ctx -> list Z -> option (isrcry_result * m_ctx);
  m_update : m_ctx -> list Z -> m_ctx;
  m_final : m_ctx -> nat -> option (isrcry_result * m_ctx * list Z);
  m_hash : isrcry_hash;
  m_mac_size : nat
}.

Definition _isrcry_hmac_sha1_desc : isrcry_mac_desc := {|
  m_ctx := isrcry_hmac_ctx;
  m_alloc := hmac_alloc;
  m_init := hmac_init;
  m_update := hmac_update;
  m_final := hmac_final;
  m_hash := ISRCRY_HASH_SHA1;
  m_mac_size := 20
|}.

Record isrcry_mac_ctx := mk_mctx {
  mdesc : isrcry_mac_desc;
  mkey : list Z;
  inited : bool;
  mctx : m_ctx mdesc
}.

Definition mac_desc (type : isrcry_mac) : isrcry_mac_desc :=
  match type with ISRCRY_MAC_HMAC_SHA1 => _isrcry_hmac_sha1_desc end.

Definition isrcry_mac_alloc (type : isrcry_mac) : isrcry_mac_ctx :=
  let d := mac_desc type in mk_mctx d [] false (m_alloc d (m_hash d)).

Definition check_init (c : isrcry_mac_ctx) : option (isrcry_result * isrcry_mac_ctx) :=
  if inited c then Some (ISRCRY_OK, c)
  else
    '(ret, x) ← m_init (mdesc c) (mctx c) (mkey c);
    if decide (ret <> ISRCRY_OK) then Some (ret, mk_mctx (mdesc c) (mkey c) false x)
    else Some (ISRCRY_OK, mk_mctx (mdesc c) (mkey c) true x).

Definition isrcry_mac_init (c : isrcry_mac_ctx) (key : list Z) :
    option (isrcry_result * isrcry_mac_ctx) :=
  check_init (mk_mctx (mdesc c) key false (mctx c)).

Definition isrcry_mac_update (c : isrcry_mac_ctx) (buffer : list Z) :
    option (isrcry_result * isrcry_mac_ctx) :=
  '(ret, c) ← check_init c;
  if decide (ret <> ISRCRY_OK) then Some (ret, c)
  else Some (ISRCRY_OK, mk_mctx (mdesc c) (mkey c) (inited c) (m_update (mdesc c) (mctx c) buffer)).

Definition isrcry_mac_final (c : isrcry_mac_ctx) (outlen : nat) :
    option (isrcry_result * isrcry_mac_ctx * list Z) :=
  '(ret, c) ← check_init c;
  if decide (ret <> ISRCRY_OK) then Some (ret, c, [])
  else
    '(ret, x, out) ← m_final (mdesc c) (mctx c) outlen;
    Some (ret, mk_mctx (mdesc c) (mkey c) false x, out).

Definition isrcry_mac_len (type : isrcry_mac) : nat := m_mac_size (mac_desc type).

(** * RFC 2104 *)

(** The key brought to the block length [B]. *)
Definition hmac_key (H : list Z -> list Z) (B : nat) (key : list Z) : list Z :=
  let k := if decide (B < length key)%nat then H key else key in
  k ++ replicate (B - length k) 0.

Definition hmac (H : list Z -> list Z) (B : nat) (key msg : list Z) : list Z :=
  let k := hmac_key H B key in
  H (map (Z.lxor 0x5c) k ++ H (map (Z.lxor 0x36) k ++ msg)).

(** * Lemmas *)

Lemma STORE32L_lxor_pad b3 b2 b1 b0 p :
  is_u 8 b3 -> is_u 8 b2 -> is_u 8 b1 -> is_u 8 b0 -> is_u 8 p ->
  STORE32L (Z.lxor (pack4 b3 b2 b1 b0) (pack4 p p p p)) =
    [Z.lxor p b0; Z.lxor p b1; Z.lxor p b2; Z.lxor p b3].
Proof.
  intros H3 H2 H1 H0 Hp. unfold STORE32L. rewrite !byte_lxor by lia.
  destruct (byte_pack4 b3 b2 b1 b0) as (-> & -> & -> & ->); [done..|].
  destruct (byte_pack4 p p p p) as (-> & -> & -> & ->); [done..|].
  by rewrite !(Z.lxor_comm p).
Qed.

(** The word-wise xor of the pads is the byte-wise one. *)
Lemma xor_pad_bytes key n p :
  bytes key -> is_u 8 p -> length key = (4 * n)%nat ->
  xor_pad key (4 * n) (pack4 p p p p) = Some (map (Z.lxor p) key).
Proof.
  intros Hb Hp Hl. unfold xor_pad.
  rewrite decide_True by (by rewrite Nat.mul_comm, Nat.Div0.mod_mul).
  rewrite (Nat.mul_comm 4 n), Nat.div_mul by lia. f_equal.
  revert key Hb Hl. induction n as [|n IH]; intros key Hb Hl.
  - by destruct key.
  - destruct key as [|b0 [|b1 [|b2 [|b3 key]]]]; simpl in Hl; try lia.
    rewrite !Forall_cons in Hb. destruct Hb as (H0 & H1 & H2 & H3 & Hk).
    cbn [seq map concat]. rewrite <- seq_shift, map_map.
    change (LOAD32L (b0 :: b1 :: b2 :: b3 :: key) (4 * 0)) with (pack4 b3 b2 b1 b0).
    rewrite STORE32L_lxor_pad by done. cbn [app]. do 4 f_equal.
    rewrite <- IH by (done || lia). f_equal. apply map_ext. intros i. do 2 f_equal.
    unfold LOAD32L. by replace (4 * S i)%nat with (S (S (S (S (4 * i))))) by lia.
Qed.

Lemma xor_pad_64 key pad p :
  bytes key -> length key = 64%nat -> is_u 8 p -> pad = pack4 p p p p ->
  xor_pad key 64 pad = Some (map (Z.lxor p) key).
Proof. intros Hb Hl Hp ->. by apply (xor_pad_bytes key 16). Qed.

Section hmac.
Context (type : isrcry_hash).

Let H := hash_spec type.

Lemma h_block_size_64 : h_block_size (hash_desc type) = 64%nat.
Proof. by destruct type. Qed.

Lemma digest_size_le : (h_digest_size (hash_desc type) <= 64)%nat.
Proof. destruct type; simpl; unfold Sha1.SHA1_DIGEST_SIZE, Md5.MD5_DIGEST_SIZE; lia. Qed.

Lemma length_hmac_key key : length (hmac_key H 64 key) = 64%nat.
Proof.
  unfold hmac_key. rewrite length_app, length_replicate. case_decide; [|lia].
  unfold H. rewrite length_hash_spec. pose proof digest_size_le. lia.
Qed.

Lemma bytes_hmac_key key : bytes key -> bytes (hmac_key H 64 key).
Proof.
  intros Hk. unfold hmac_key. apply Forall_app. split; [|by apply Forall_replicate].
  case_decide; [apply bytes_hash_spec|done].
Qed.

Lemma bytes_map_lxor p k : is_u 8 p -> bytes k -> bytes (map (Z.lxor p) k).
Proof. intros Hp Hk. apply Forall_map. eapply Forall_impl; [exact Hk|]. intros. by apply is_u_lxor. Qed.

(** A context whose key buffer has the right size; [msg] is what its hash has absorbed. *)
Definition hmac_wf (c : isrcry_hmac_ctx) (msg : list Z) : Prop :=
  hctx_repr type (hctx c) msg /\ length (hkey c) = 64%nat /\ hkeylen c = 64%nat /\
  hashlen c = h_digest_size (hash_desc type).

(** After keying, with [msg] given to the MAC. *)
Definition hmac_keyed (c : isrcry_hmac_ctx) (key msg : list Z) : Prop :=
  hmac_wf c (map (Z.lxor 0x36) (hmac_key H 64 key) ++ msg) /\ hkey c = hmac_key H 64 key.

(** [hmac_init] does not clear what follows the digest of a long key: the old contents of the
    buffer have to be zero there. *)
Definition long_key_ok (key buf : list Z) : Prop :=
  (64 < length key)%nat ->
  drop (h_digest_size (hash_desc type)) buf = replicate (64 - h_digest_size (hash_desc type)) 0.

Lemma long_key_ok_hmac_key key : long_key_ok key (hmac_key H 64 key).
Proof.
  intros Hl. unfold hmac_key. rewrite decide_True by done. unfold H.
  rewrite drop_app_length' by (by rewrite length_hash_spec). by rewrite length_hash_spec.
Qed.

Lemma hmac_alloc_wf : hmac_wf (hmac_alloc type) [].
Proof.
  split_and!; simpl; try by rewrite ?length_replicate, ?h_block_size_64.
  apply isrcry_hash_alloc_repr.
Qed.

Lemma hmac_load_key_spec h buf key :
  hctx_repr type h [] -> length buf = 64%nat -> bytes key -> long_key_ok key buf ->
  exists h', hmac_load_key h buf 64 key = Some (h', hmac_key H 64 key) /\ hctx_repr type h' [].
Proof.
  intros Hr Hl Hb Hlong. unfold hmac_load_key, hmac_key. case_decide as Hkl.
  - destruct (isrcry_hash_final_repr type _ _ (isrcry_hash_update_repr type h [] key Hr Hb))
      as (h2 & -> & Hr2). cbn [mbind option_bind app]. exists h2. split; [|done].
    do 2 f_equal. unfold blit, H. rewrite take_0. cbn [app Nat.add]. f_equal.
    rewrite !length_hash_spec. by apply Hlong.
  - exists h. split; [|done]. do 2 f_equal. unfold blit. rewrite take_0. cbn [app Nat.add].
    rewrite take_app_length, length_replicate.
    rewrite (drop_ge (key ++ _)); [by rewrite app_nil_r|]. rewrite length_app, length_drop. lia.
Qed.

Lemma hmac_init_keyed c key m0 :
  hmac_wf c m0 -> bytes key -> long_key_ok key (hkey c) ->
  exists c', hmac_init c key = Some (ISRCRY_OK, c') /\ hmac_keyed c' key [].
Proof.
  intros (Hr & Hkl & Hn & Hh) Hb Hlong. unfold hmac_init. rewrite Hn.
  destruct (isrcry_hash_final_repr type _ _ Hr) as (h1 & -> & Hr1). cbn [mbind option_bind].
  destruct (hmac_load_key_spec h1 (hkey c) key) as (h2 & -> & Hr2); [done..|].
  cbn [mbind option_bind].
  rewrite (xor_pad_64 _ _ 0x36);
    [|by apply bytes_hmac_key|apply length_hmac_key|by vm_compute|done].
  cbn [mbind option_bind]. eexists. split; [done|]. split; [|done].
  split_and!; cbn [hctx hkey hkeylen hashlen]; [|apply length_hmac_key|done|done].
  rewrite app_nil_r. apply (isrcry_hash_update_repr type h2 []); [done|].
  apply bytes_map_lxor; [by vm_compute|]. by apply bytes_hmac_key.
Qed.

Lemma hmac_update_keyed c key msg b :
  hmac_keyed c key msg -> bytes b -> hmac_keyed (hmac_update c b) key (msg ++ b).
Proof.
  intros ((Hr & Hkl & Hn & Hh) & Hk) Hb. split; [|done]. split_and!; try done.
  rewrite (assoc_L (++)). by apply isrcry_hash_update_repr.
Qed.

(** The MAC, and a context that can be keyed again. *)
Lemma hmac_final_keyed c key msg outlen :
  hmac_keyed c key msg -> bytes key -> (outlen <= h_digest_size (hash_desc type))%nat ->
  exists c', hmac_final c outlen = Some (ISRCRY_OK, c', take outlen (hmac H 64 key msg)) /\
    hmac_wf c' [] /\ hkey c' = hmac_key H 64 key.
Proof.
  intros ((Hr & Hkl & Hn & Hh) & Hk) Hb Ho. unfold hmac_final. rewrite Hh, decide_False by lia.
  destruct (isrcry_hash_final_repr type _ _ Hr) as (h1 & -> & Hr1). cbn [mbind option_bind].
  rewrite Hn, (xor_pad_64 (hkey c) _ 0x5c);
    [|rewrite Hk; by apply bytes_hmac_key|done|by vm_compute|done].
  cbn [mbind option_bind].
  assert (hctx_repr type (isrcry_hash_update (isrcry_hash_update h1 (map (Z.lxor 0x5c) (hkey c)))
            (H (map (Z.lxor 0x36) (hmac_key H 64 key) ++ msg)))
            (map (Z.lxor 0x5c) (hkey c) ++ H (map (Z.lxor 0x36) (hmac_key H 64 key) ++ msg)))
    as Hr2.
  { apply isrcry_hash_update_repr; [|apply bytes_hash_spec].
    apply (isrcry_hash_update_repr type h1 []); [done|]. apply bytes_map_lxor; [by vm_compute|].
    rewrite Hk. by apply bytes_hmac_key. }
  destruct (isrcry_hash_final_repr type _ _ Hr2) as (h3 & Hf & Hr3). unfold H in Hf |- *.
  rewrite Hf. cbn [mbind option_bind].
  exists (set_hctx c h3). split; [|split; [by split_and!|done]]. do 3 f_equal. unfold hmac, H. by rewrite Hk.
Qed.
End hmac.

(** * The MAC context *)

Local Abbreviation sha1_type := ISRCRY_HASH_SHA1.
Local Abbreviation hmac_sha1 := (hmac Sha1.Fips180.sha1 64).

(** The context is keyed with [key] and has [msg] of the current message, or will be keyed before
    the next operation. *)
Definition mac_repr (c : isrcry_mac_ctx) (key msg : list Z) : Prop :=
  exists (i : bool) x, c = mk_mctx _isrcry_hmac_sha1_desc key i x /\ bytes key /\
    if i then hmac_keyed sha1_type x key msg
    else msg = [] /\ long_key_ok sha1_type key (hkey x) /\ exists m0, hmac_wf sha1_type x m0.

Lemma check_init_repr c key msg :
  mac_repr c key msg ->
  exists x, check_init c = Some (ISRCRY_OK, mk_mctx _isrcry_hmac_sha1_desc key true x) /\
    bytes key /\ hmac_keyed sha1_type x key msg.
Proof.
  intros (i & x & -> & Hb & Hi). unfold check_init. cbn [inited]. destruct i; [by exists x|].
  destruct Hi as (-> & Hl & m0 & Hw). cbn [mctx mkey mdesc].
  destruct (hmac_init_keyed sha1_type x key m0 Hw Hb Hl) as (x' & Hin & Hk).
  exists x'. split; [|done]. simpl. rewrite Hin. by cbn.
Qed.

Lemma isrcry_mac_update_repr c key msg b :
  mac_repr c key msg -> bytes b ->
  exists c', isrcry_mac_update c b = Some (ISRCRY_OK, c') /\ mac_repr c' key (msg ++ b).
Proof.
  intros Hc Hb. destruct (check_init_repr c key msg Hc) as (x & Hi & Hk & Hx).
  unfold isrcry_mac_update. rewrite Hi. cbn. eexists. split; [done|].
  exists true, (hmac_update x b). split_and!; [done..|]. by apply hmac_update_keyed.
Qed.

(** What [isrcry_mac_final] gives for a request of [outlen] bytes. *)
Definition mac_result (key msg : list Z) (outlen : nat) : isrcry_result * list Z :=
  if decide (20 < outlen)%nat then (ISRCRY_INVALID_ARGUMENT, [])
  else (ISRCRY_OK, take outlen (hmac_sha1 key msg)).

Lemma isrcry_mac_final_repr c key msg outlen :
  mac_repr c key msg ->
  exists c', isrcry_mac_final c outlen
      = Some ((mac_result key msg outlen).1, c', (mac_result key msg outlen).2) /\
    mac_repr c' key [].
Proof.
  intros Hc. destruct (check_init_repr c key msg Hc) as (x & Hi & Hk & Hx).
  unfold isrcry_mac_final, mac_result. rewrite Hi. cbn [mbind option_bind].
  rewrite decide_False by (by intros []). cbn [mdesc mctx mkey].
  change (m_final _isrcry_hmac_sha1_desc x outlen) with (hmac_final x outlen).
  destruct Hx as ((Hr & Hkl & Hn & Hh) & He) eqn:Ex. clear Ex. case_decide as Ho.
  - unfold hmac_final. rewrite Hh, decide_True by done. cbn. eexists. split; [done|].
    exists false, x. split_and!; [done..| |by exists (map (Z.lxor 0x36)
      (hmac_key (hash_spec sha1_type) 64 key) ++ msg)].
    rewrite He. apply long_key_ok_hmac_key.
  - destruct (hmac_final_keyed sha1_type x key msg outlen) as (x' & Hf & Hw & Hk');
      [by split_and!|done|simpl; unfold Sha1.SHA1_DIGEST_SIZE; lia|].
    rewrite Hf. cbn. eexists. split; [done|].
    exists false, x'. split_and!; [done..| |by exists []]. rewrite Hk'. apply long_key_ok_hmac_key.
Qed.

Lemma isrcry_mac_init_repr c key0 msg0 key :
  mac_repr c key0 msg0 -> bytes key -> (length key <= 64)%nat ->
  exists c', isrcry_mac_init c key = Some (ISRCRY_OK, c') /\ mac_repr c' key [].
Proof.
  intros (i & x & -> & _ & Hi) Hb Hl. unfold isrcry_mac_init. cbn [mdesc mctx].
  assert (mac_repr (mk_mctx _isrcry_hmac_sha1_desc key false x) key []) as Hc.
  { exists false, x. split_and!; [done..|intros ?; lia|].
    destruct i; [|by destruct Hi as (_ & _ & ?)]. destruct Hi as [Hw _]. eauto. }
  destruct (check_init_repr _ _ _ Hc) as (x' & -> & _ & Hx). eexists. split; [done|].
  by exists true, x'.
Qed.

Lemma isrcry_mac_alloc_init_repr key :
  bytes key ->
  exists c', isrcry_mac_init (isrcry_mac_alloc ISRCRY_MAC_HMAC_SHA1) key = Some (ISRCRY_OK, c') /\
    mac_repr c' key [].
Proof.
  intros Hb. unfold isrcry_mac_init.
  assert (mac_repr (mk_mctx _isrcry_hmac_sha1_desc key false (hmac_alloc sha1_type)) key []) as Hc.
  { exists false, (hmac_alloc sha1_type). split_and!; [done..| |].
    - intros _. done.
    - exists []. apply hmac_alloc_wf. }
  destruct (check_init_repr _ _ _ Hc) as (x' & Hi & _ & Hx). eexists. split; [exact Hi|].
  by exists true, x'.
Qed.

(** * Properties *)

(** The calls a client makes: key the context, or compute the MAC of a message given in pieces. *)
Inductive mac_op := MacKey (key : list Z) | MacMessage (bufs : list (list Z)) (outlen : nat).

Fixpoint mac_updates (c : isrcry_mac_ctx) (bufs : list (list Z)) : option isrcry_mac_ctx :=
  match bufs with
  | [] => Some c
  | b :: bufs => '(ret, c) ← isrcry_mac_update c b; mac_updates c bufs
  end.

Fixpoint mac_session (c : isrcry_mac_ctx) (ops : list mac_op) :
    option (list (isrcry_result * list Z)) :=
  match ops with
  | [] => Some []
  | MacKey key :: ops => '(ret, c) ← isrcry_mac_init c key; mac_session c ops
  | MacMessage bufs outlen :: ops =>
      c ← mac_updates c bufs;
      '(ret, c, out) ← isrcry_mac_final c outlen;
      rest ← mac_session c ops;
      Some ((ret, out) :: rest)
  end.

Fixpoint mac_session_spec (key : list Z) (ops : list mac_op) : list (isrcry_result * list Z) :=
  match ops with
  | [] => []
  | MacKey key :: ops => mac_session_spec key ops
  | MacMessage bufs outlen :: ops => mac_result key (concat bufs) outlen :: mac_session_spec key ops
  end.

(** Byte strings throughout, and no key above the block length. *)
Definition mac_op_ok (op : mac_op) : Prop :=
  match op with
  | MacKey key => bytes key /\ (length key <= 64)%nat
  | MacMessage bufs _ => Forall (fun b => bytes b) bufs
  end.

Lemma mac_updates_repr c key msg bufs :
  mac_repr c key msg -> Forall (fun b => bytes b) bufs ->
  exists c', mac_updates c bufs = Some c' /\ mac_repr c' key (msg ++ concat bufs).
Proof.
  revert c msg. induction bufs as [|b bufs IH]; intros c msg Hc Hb; cbn [mac_updates concat].
  - exists c. by rewrite app_nil_r.
  - apply Forall_cons in Hb as [Hb Hbs].
    destruct (isrcry_mac_update_repr c key msg b Hc Hb) as (c1 & -> & Hc1).
    destruct (IH c1 (msg ++ b) Hc1 Hbs) as (c2 & Hu & Hc2).
    exists c2. rewrite (assoc_L (++)). by split.
Qed.

Lemma mac_session_repr c key ops :
  mac_repr c key [] -> Forall mac_op_ok ops ->
  mac_session c ops = Some (mac_session_spec key ops).
Proof.
  revert c key. induction ops as [|op ops IH]; intros c key Hc Ho; [done|].
  apply Forall_cons in Ho as [Ho Hos]. destruct op as [k|bufs outlen]; cbn [mac_session].
  - destruct Ho as [Hk Hl]. destruct (isrcry_mac_init_repr c key [] k Hc Hk Hl) as (c1 & -> & Hc1).
    by apply IH.
  - destruct (mac_updates_repr c key [] bufs Hc Ho) as (c1 & -> & Hc1). cbn [mbind option_bind].
    destruct (isrcry_mac_final_repr c1 key _ outlen Hc1) as (c2 & -> & Hc2).
    cbn [mbind option_bind]. rewrite (IH c2 key) by done. cbn [mbind option_bind mac_session_spec].
    by rewrite <- surjective_pairing.
Qed.

(** C38: a MAC context keyed once with a key of any length, and re-keyed any number of times with
    keys of up to 64 bytes, gives for every message (in whatever pieces) the first [outlen] bytes
    of its HMAC-SHA1 of RFC 2104, or an error when more than 20 bytes are asked for. *)
Theorem isrcry_mac_correct key ops :
  bytes key -> Forall mac_op_ok ops ->
  mac_session (isrcry_mac_alloc ISRCRY_MAC_HMAC_SHA1) (MacKey key :: ops) =
    Some (mac_session_spec key ops).
Proof.
  intros Hk Ho. cbn [mac_session].
  destruct (isrcry_mac_alloc_init_repr key Hk) as (c & -> & Hc). cbn [mbind option_bind].
  by apply mac_session_repr.
Qed.

Lemma isrcry_mac_correct_witness :
  mac_session (isrcry_mac_alloc ISRCRY_MAC_HMAC_SHA1)
    [MacKey (replicate 70 1); MacMessage [[1]; [2; 3]] 20; MacKey [5]; MacMessage [] 21] =
  Some (mac_session_spec (replicate 70 1)
    [MacMessage [[1]; [2; 3]] 20; MacKey [5]; MacMessage [] 21]).
Proof.
  apply (isrcry_mac_correct (replicate 70 1)
    [MacMessage [[1]; [2; 3]] 20; MacKey [5]; MacMessage [] 21]).
  - by apply Forall_replicate.
  - repeat first [apply Forall_nil_2 | apply Forall_cons_2 | split | by vm_compute | simpl; lia].
Defined.

(** Re-keying with a key of more than 64 bytes after another key: [hmac_init] leaves the end of
    the old key behind the digest of the new one, and the MAC is not the HMAC of the new key. *)
Theorem hmac_rekey_long_key_wrong :
  mac_session (isrcry_mac_alloc ISRCRY_MAC_HMAC_SHA1)
    [MacKey (replicate 64 1); MacKey (replicate 65 2); MacMessage [] 20] <>
  Some [mac_result (replicate 65 2) [] 20].
Proof. vm_compute. discriminate. Qed.
