(* ===== verification/Compress.v ===== *)
(** Compression contexts (src/crypto/compress.c) and the algorithms behind them: raw LZF
    (the wrappers of lzf.c), zlib (zlib.c) and xz (lzma.c).

    An algorithm is a record of operations.  A run is given the memory at the input pointer, the
    number of input bytes and the room for output; it returns the result, the new context, the
    number of bytes consumed (the new "*inlen") and the bytes produced (the new "*outlen" of
    them).  [None] is a failed assertion or an access outside the buffers.

    zlib and liblzma are not part of the repository: they are the parameters [zlib_lib] and
    [lzma_lib].  [OneShot] states what chunk.c relies on; it is proved for LZF, and for zlib and
    xz from the round trip their documentation promises. *)

From S2P Require Import Prelude Cipher Lzf.

Inductive isrcry_compress :=
| ISRCRY_COMPRESS_ZLIB
| ISRCRY_COMPRESS_LZF
| ISRCRY_COMPRESS_LZF_STREAM
| ISRCRY_COMPRESS_LZMA.

Abbreviation ISRCRY_ENCODE := ISRCRY_ENCRYPT.
Abbreviation ISRCRY_DECODE := ISRCRY_DECRYPT.

(** * Descriptors (internal.h) *)

Abbreviation run_result C := (option (isrcry_result * C * nat * list Z)).

Definition run (C : Type) : Type :=
  isrcry_direction -> Z -> C -> list Z -> nat -> nat -> run_result C.

(** [z_alloc] gives the level it settles on and the context, or an error.  A NULL operation is
    [None]. *)
Record isrcry_compress_desc := {
  z_ctx : Type;
  can_stream : bool;
  z_alloc : isrcry_direction -> Z -> option (Z * (z_ctx + isrcry_result));
  compress_process : option (run z_ctx);
  compress_final : run z_ctx;
  decompress_process : option (run z_ctx);
  decompress_final : run z_ctx
}.

(** The descriptor a context points to is fixed when the context is allocated; it is an argument
    of the operations instead of a field. *)
Record isrcry_compress_ctx (C : Type) := mk_zctx {
  zdirection : isrcry_direction;
  zlevel : Z;
  zctx : option C
}.

#[global] Arguments mk_zctx {C}.
#[global] Arguments zdirection {C}.
#[global] Arguments zlevel {C}.
#[global] Arguments zctx {C}.

(** * compress.c *)

Section compress.
Context (desc : isrcry_compress_desc).

Local Abbreviation cctx_t := (isrcry_compress_ctx (z_ctx desc)).

(** The context [isrcry_compress_alloc] builds for a descriptor; the memory is zeroed. *)
Definition compress_ctx_new : cctx_t := mk_zctx ISRCRY_DECODE 0 None.

Definition isrcry_compress_init (cctx : cctx_t) (direction : isrcry_direction) (level : Z) :
    option (isrcry_result * cctx_t) :=
  '(level, r) ← z_alloc desc direction level;
  Some match r with
       | inl c => (ISRCRY_OK, mk_zctx direction level (Some c))
       | inr e => (e, mk_zctx direction level None)
       end.

(** An operation on the algorithm's context, which must be there. *)
Definition run_ctx (cctx : cctx_t) (f : run (z_ctx desc)) (mem : list Z) (inlen outlen : nat) :
    run_result cctx_t :=
  c ← zctx cctx;
  '(ret, c, n, out) ← f (zdirection cctx) (zlevel cctx) c mem inlen outlen;
  Some (ret, mk_zctx (zdirection cctx) (zlevel cctx) (Some c), n, out).

Definition isrcry_compress_process (cctx : cctx_t) (mem : list Z) (inlen outlen : nat) :
    run_result cctx_t :=
  if can_stream desc then
    f ← match zdirection cctx with
        | ISRCRY_ENCODE => compress_process desc
        | ISRCRY_DECODE => decompress_process desc
        end;
    run_ctx cctx f mem inlen outlen
  else Some (ISRCRY_NO_STREAMING, cctx, 0%nat, []).

Definition isrcry_compress_final (cctx : cctx_t) (mem : list Z) (inlen outlen : nat) :
    run_result cctx_t :=
  run_ctx cctx
    match zdirection cctx with
    | ISRCRY_ENCODE => compress_final desc
    | ISRCRY_DECODE => decompress_final desc
    end mem inlen outlen.

End compress.

(** * LZF (lzf.c) *)

Section lzf.

(** The memory "g_slice_new(LZF_STATE)" returns, read as offsets from the input that follows; it
    is not initialised.  After a block the table holds other positions; every caller allocates it
    anew before the next one. *)
Context (slice : gmap Z Z).

Definition lzf_alloc (direction : isrcry_direction) (level : Z) :
    option (Z * (gmap Z Z + isrcry_result)) :=
  Some (level, if decide (level <> 0) then inr ISRCRY_INVALID_ARGUMENT else inl slice).

Definition lzf_do_compress : run (gmap Z Z) := fun _ _ htab mem inlen outlen =>
  if decide (inlen = 0)%nat then Some (ISRCRY_INVALID_ARGUMENT, htab, 0%nat, [])
  else
    result ← lzf_compress htab mem inlen (replicate outlen 0);
    Some match result with
         | Some c => (ISRCRY_OK, htab, inlen, c)
         | None => (ISRCRY_BUFFER_OVERFLOW, htab, 0%nat, [])
         end.

Definition lzf_do_decompress : run (gmap Z Z) := fun _ _ htab mem inlen outlen =>
  result ← lzf_decompress mem inlen (Z.of_nat outlen);
  Some match result with
       | inr E2BIG => (ISRCRY_BUFFER_OVERFLOW, htab, 0%nat, [])
       | inr EINVAL => (ISRCRY_BAD_FORMAT, htab, 0%nat, [])
       | inl out => (ISRCRY_OK, htab, inlen, out)
       end.

Definition _isrcry_lzf_desc : isrcry_compress_desc := {|
  z_ctx := gmap Z Z;
  can_stream := false;
  z_alloc := lzf_alloc;
  compress_process := None;
  compress_final := lzf_do_compress;
  decompress_process := None;
  decompress_final := lzf_do_decompress
|}.

End lzf.

(** * zlib (zlib.c) *)

Module Zlib.

Definition Z_OK : Z := 0.
Definition Z_STREAM_END : Z := 1.
Definition Z_NEED_DICT : Z := 2.
Definition Z_ERRNO : Z := -1.
Definition Z_STREAM_ERROR : Z := -2.
Definition Z_DATA_ERROR : Z := -3.
Definition Z_MEM_ERROR : Z := -4.
Definition Z_BUF_ERROR : Z := -5.
Definition Z_VERSION_ERROR : Z := -6.
Definition Z_NO_FLUSH : Z := 0.
Definition Z_FINISH : Z := 4.
Definition Z_DEFAULT_COMPRESSION : Z := -1.

(** The library: return code and stream of the initialisers; of a run on [next_in] with
    [avail_out] bytes of room, the return code, the stream, the number of bytes consumed and the
    bytes produced. *)
Record zlib_lib := {
  z_stream : Type;
  deflateInit : Z -> Z * z_stream;
  inflateInit : Z * z_stream;
  deflate : z_stream -> list Z -> nat -> Z -> Z * z_stream * nat * list Z;
  inflate : z_stream -> list Z -> nat -> Z -> Z * z_stream * nat * list Z
}.

(** [None] is g_assert_not_reached. *)
Definition zlib_error (err : Z) : option isrcry_result :=
  if decide (err = Z_STREAM_ERROR) then Some ISRCRY_INVALID_ARGUMENT
  else if decide (err = Z_NEED_DICT \/ err = Z_DATA_ERROR) then Some ISRCRY_BAD_FORMAT
  else if decide (err = Z_BUF_ERROR) then Some ISRCRY_BUFFER_OVERFLOW
  else if decide (err = Z_ERRNO \/ err = Z_MEM_ERROR \/ err = Z_VERSION_ERROR) then None
  else Some ISRCRY_OK.

Section zlib.
Context (lib : zlib_lib).

Definition zlib_alloc (direction : isrcry_direction) (level : Z) :
    option (Z * (z_stream lib + isrcry_result)) :=
  let level := if decide (level = 0) then Z_DEFAULT_COMPRESSION else level in
  let '(ret, strm) := match direction with
                      | ISRCRY_ENCODE => deflateInit lib level
                      | ISRCRY_DECODE => inflateInit lib
                      end in
  if decide (ret <> 0) then e ← zlib_error ret; Some (level, inr e) else Some (level, inl strm).

Definition zlib_compress_process : run (z_stream lib) := fun _ _ strm mem inlen outlen =>
  let '(ret, strm, n, out) := deflate lib strm (take inlen mem) outlen Z_NO_FLUSH in
  e ← zlib_error ret; Some (e, strm, n, out).

Definition zlib_compress_final : run (z_stream lib) := fun _ _ strm mem inlen outlen =>
  let '(ret, strm, n, out) := deflate lib strm (take inlen mem) outlen Z_FINISH in
  if decide (ret = Z_OK) then Some (ISRCRY_BUFFER_OVERFLOW, strm, n, out)
  else e ← zlib_error ret; Some (e, strm, n, out).

Definition zlib_decompress_process : run (z_stream lib) := fun _ _ strm mem inlen outlen =>
  let '(ret, strm, n, out) := inflate lib strm (take inlen mem) outlen Z_NO_FLUSH in
  if decide ((0 < inlen - n)%nat /\ ret = Z_STREAM_END) then Some (ISRCRY_BAD_FORMAT, strm, n, out)
  else e ← zlib_error ret; Some (e, strm, n, out).

Definition zlib_decompress_final : run (z_stream lib) := fun _ _ strm mem inlen outlen =>
  let '(ret, strm, n, out) := inflate lib strm (take inlen mem) outlen Z_FINISH in
  if decide ((0 < inlen - n)%nat /\ ret = Z_STREAM_END) then Some (ISRCRY_BAD_FORMAT, strm, n, out)
  else if decide (ret = Z_OK) then Some (ISRCRY_BUFFER_OVERFLOW, strm, n, out)
  else e ← zlib_error ret; Some (e, strm, n, out).

Definition _isrcry_zlib_desc : isrcry_compress_desc := {|
  z_ctx := z_stream lib;
  can_stream := true;
  z_alloc := zlib_alloc;
  compress_process := Some zlib_compress_process;
  compress_final := zlib_compress_final;
  decompress_process := Some zlib_decompress_process;
  decompress_final := zlib_decompress_final
|}.

End zlib.
End Zlib.

(** * xz (lzma.c) *)

Module Lzma.

Inductive lzma_ret :=
| LZMA_OK | LZMA_STREAM_END | LZMA_NO_CHECK | LZMA_UNSUPPORTED_CHECK | LZMA_GET_CHECK
| LZMA_MEM_ERROR | LZMA_MEMLIMIT_ERROR | LZMA_FORMAT_ERROR | LZMA_OPTIONS_ERROR
| LZMA_DATA_ERROR | LZMA_BUF_ERROR | LZMA_PROG_ERROR.

#[global] Instance lzma_ret_eq_dec : EqDecision lzma_ret.
Proof. solve_decision. Defined.

Definition MEMLIMIT_DECODE : Z := Z.shiftl 1 30.

Record lzma_lib := {
  lzma_stream : Type;
  lzma_easy_encoder : Z -> lzma_ret * lzma_stream;       (* with LZMA_CHECK_CRC32 *)
  lzma_stream_decoder : Z -> lzma_ret * lzma_stream;     (* by memory limit *)
  lzma_code : lzma_stream -> list Z -> nat -> bool -> lzma_ret * lzma_stream * nat * list Z
}.

Definition lzma_error (err : lzma_ret) : option isrcry_result :=
  match err with
  | LZMA_OK | LZMA_STREAM_END => Some ISRCRY_OK
  | LZMA_UNSUPPORTED_CHECK | LZMA_OPTIONS_ERROR | LZMA_PROG_ERROR => Some ISRCRY_INVALID_ARGUMENT
  | LZMA_FORMAT_ERROR | LZMA_DATA_ERROR => Some ISRCRY_BAD_FORMAT
  | LZMA_BUF_ERROR => Some ISRCRY_BUFFER_OVERFLOW
  | _ => None
  end.

Section lzma.
Context (lib : lzma_lib).

Definition lzma_alloc (direction : isrcry_direction) (level : Z) :
    option (Z * (lzma_stream lib + isrcry_result)) :=
  let level := if decide (level = 0) then 7 else level in
  let '(ret, strm) := match direction with
                      | ISRCRY_ENCODE => lzma_easy_encoder lib level
                      | ISRCRY_DECODE => lzma_stream_decoder lib MEMLIMIT_DECODE
                      end in
  if decide (ret <> LZMA_OK) then e ← lzma_error ret; Some (level, inr e)
  else Some (level, inl strm).

Definition lzma_run (final : bool) : run (lzma_stream lib) := fun direction _ strm mem inlen outlen =>
  let '(ret, strm, n, out) := lzma_code lib strm (take inlen mem) outlen final in
  if decide (final = true /\ ret = LZMA_OK) then Some (ISRCRY_BUFFER_OVERFLOW, strm, n, out)
  else if decide (direction = ISRCRY_DECODE /\ (0 < inlen - n)%nat /\ ret = LZMA_STREAM_END)
  then Some (ISRCRY_BAD_FORMAT, strm, n, out)
  else e ← lzma_error ret; Some (e, strm, n, out).

Definition lzma_process : run (lzma_stream lib) := lzma_run false.
Definition lzma_final : run (lzma_stream lib) := lzma_run true.

Definition _isrcry_lzma_desc : isrcry_compress_desc := {|
  z_ctx := lzma_stream lib;
  can_stream := true;
  z_alloc := lzma_alloc;
  compress_process := Some lzma_process;
  compress_final := lzma_final;
  decompress_process := Some lzma_process;
  decompress_final := lzma_final
|}.

End lzma.
End Lzma.

(** * What a caller of one compression per context relies on *)

(** [n] bytes of [mem] compressed, or decompressed, in a new context at level 0. *)
Definition oneshot (d : isrcry_compress_desc) (dir : isrcry_direction) (mem : list Z)
    (n outlen : nat) : run_result (isrcry_compress_ctx (z_ctx d)) :=
  '(ret, cctx) ← isrcry_compress_init d (compress_ctx_new d) dir 0;
  if decide (ret <> ISRCRY_OK) then Some (ret, cctx, 0%nat, [])
  else isrcry_compress_final d cctx mem n outlen.

(** The contexts can be set up; runs return, within the room given; decompression undoes
    compression.  [os_min] is the shortest input the algorithm may be given. *)
Class OneShot (d : isrcry_compress_desc) := {
  os_min : nat;
  os_init : forall dir, exists cctx,
    isrcry_compress_init d (compress_ctx_new d) dir 0 = Some (ISRCRY_OK, cctx);
  os_encode : forall inp outlen, bytes inp -> (os_min <= length inp)%nat ->
    exists ret cctx n out,
      oneshot d ISRCRY_ENCODE inp (length inp) outlen = Some (ret, cctx, n, out) /\
      (length out <= outlen)%nat /\
      (ret = ISRCRY_OK -> bytes out /\ out <> [] /\
         forall extra room, (length inp <= room)%nat -> exists cctx',
           oneshot d ISRCRY_DECODE (out ++ extra) (length out) room
             = Some (ISRCRY_OK, cctx', length out, inp));
  os_decode : forall mem n outlen, bytes mem -> mem <> [] -> (n <= length mem)%nat ->
    exists ret cctx n' out,
      oneshot d ISRCRY_DECODE mem n outlen = Some (ret, cctx, n', out) /\
      (length out <= outlen)%nat
}.

(** ** LZF *)

Lemma oneshot_lzf slice dir mem n outlen :
  oneshot (_isrcry_lzf_desc slice) dir mem n outlen =
    '(ret, c, n, out) ← match dir with
                        | ISRCRY_ENCODE => lzf_do_compress dir 0 slice mem n outlen
                        | ISRCRY_DECODE => lzf_do_decompress dir 0 slice mem n outlen
                        end;
    Some (ret, mk_zctx dir 0 (Some c), n, out).
Proof. by destruct dir. Qed.

(** Two bytes at least: see [lzf_compress_one_byte_overread]. *)
#[global] Program Instance lzf_oneshot slice : OneShot (_isrcry_lzf_desc slice) := {|
  os_min := 2
|}.
Next Obligation. intros slice dir. eexists. reflexivity. Qed.
Next Obligation.
  intros slice inp outlen Hb Hl. rewrite oneshot_lzf. unfold lzf_do_compress.
  rewrite decide_False by lia.
  destruct (lzf_compress_spec slice inp (replicate outlen 0) Hb) as (r & -> & Hr & _); [lia|].
  cbn [mbind option_bind]. destruct r as [c|].
  - destruct (Hr c eq_refl) as [Hi Hc]. rewrite length_replicate in Hc.
    assert (c <> []) as Hne by (intros ->; simpl in Hc; lia).
    eexists _, _, _, c. split; [done|]. split; [lia|]. intros _.
    assert (bytes c) as Hcb by (by eapply lzf_items_bytes).
    split; [done|]. split; [done|]. intros extra room Hroom.
    rewrite oneshot_lzf. unfold lzf_do_decompress.
    rewrite (lzf_decompress_extra c extra _ (inl inp)); [by eexists|done|].
    apply lzf_decompress_items; done || lia.
  - eexists _, _, _, _. split; [done|]. split; [simpl; lia|done].
Qed.
Next Obligation.
  intros slice mem n outlen Hb Hne Hn. rewrite oneshot_lzf. unfold lzf_do_decompress.
  destruct (lzf_decompress_total mem n (Z.of_nat outlen) Hb Hne Hn) as (r & -> & Hr).
  cbn [mbind option_bind]. destruct r as [o|[]]; eexists _, _, _, _; (split; [done|]); simpl;
    [|lia..]. specialize (Hr o eq_refl). lia.
Qed.

(** ** zlib *)

(** What zlib's manual promises of a whole buffer processed in one call on a new stream. *)
Record zlib_ok (lib : Zlib.zlib_lib) := {
  zl_deflateInit : exists s, Zlib.deflateInit lib Zlib.Z_DEFAULT_COMPRESSION = (Zlib.Z_OK, s);
  zl_inflateInit : exists s, Zlib.inflateInit lib = (Zlib.Z_OK, s);
  zl_deflate : forall s inp room ret s' n out, bytes inp ->
    Zlib.deflateInit lib Zlib.Z_DEFAULT_COMPRESSION = (Zlib.Z_OK, s) ->
    Zlib.deflate lib s inp room Zlib.Z_FINISH = (ret, s', n, out) ->
    In ret [Zlib.Z_OK; Zlib.Z_STREAM_END; Zlib.Z_BUF_ERROR] /\
    (length out <= room)%nat /\ bytes out /\ (ret = Zlib.Z_STREAM_END -> out <> []);
  zl_inflate : forall s inp room ret s' n out, bytes inp ->
    Zlib.inflateInit lib = (Zlib.Z_OK, s) ->
    Zlib.inflate lib s inp room Zlib.Z_FINISH = (ret, s', n, out) ->
    In ret [Zlib.Z_OK; Zlib.Z_STREAM_END; Zlib.Z_NEED_DICT; Zlib.Z_DATA_ERROR; Zlib.Z_BUF_ERROR] /\
    (length out <= room)%nat;
  zl_roundtrip : forall s inp room s' n out t room', bytes inp ->
    Zlib.deflateInit lib Zlib.Z_DEFAULT_COMPRESSION = (Zlib.Z_OK, s) ->
    Zlib.deflate lib s inp room Zlib.Z_FINISH = (Zlib.Z_STREAM_END, s', n, out) ->
    Zlib.inflateInit lib = (Zlib.Z_OK, t) -> (length inp <= room')%nat ->
    exists t', Zlib.inflate lib t out room' Zlib.Z_FINISH
      = (Zlib.Z_STREAM_END, t', length out, inp)
}.

Section zlib_oneshot.
Context (lib : Zlib.zlib_lib) (Hlib : zlib_ok lib).

Lemma oneshot_zlib_encode s mem n room :
  Zlib.deflateInit lib Zlib.Z_DEFAULT_COMPRESSION = (Zlib.Z_OK, s) ->
  oneshot (Zlib._isrcry_zlib_desc lib) ISRCRY_ENCODE mem n room =
    '(ret, c, n, out) ← Zlib.zlib_compress_final lib ISRCRY_ENCODE (-1) s mem n room;
    Some (ret, mk_zctx ISRCRY_ENCODE (-1) (Some c), n, out).
Proof.
  intros Hs. unfold oneshot, isrcry_compress_init. simpl. unfold Zlib.zlib_alloc.
  rewrite decide_True by done. rewrite Hs. done.
Qed.

Lemma oneshot_zlib_decode s mem n room :
  Zlib.inflateInit lib = (Zlib.Z_OK, s) ->
  oneshot (Zlib._isrcry_zlib_desc lib) ISRCRY_DECODE mem n room =
    '(ret, c, n, out) ← Zlib.zlib_decompress_final lib ISRCRY_DECODE (-1) s mem n room;
    Some (ret, mk_zctx ISRCRY_DECODE (-1) (Some c), n, out).
Proof.
  intros Hs. unfold oneshot, isrcry_compress_init. simpl. unfold Zlib.zlib_alloc.
  rewrite decide_True by done. rewrite Hs. done.
Qed.

#[global] Program Instance zlib_oneshot : OneShot (Zlib._isrcry_zlib_desc lib) := {|
  os_min := 0
|}.
Next Obligation.
  destruct (zl_deflateInit lib Hlib) as [s Hs], (zl_inflateInit lib Hlib) as [t Ht].
  intros []; unfold isrcry_compress_init; simpl; unfold Zlib.zlib_alloc;
    rewrite decide_True by done; rewrite ?Hs, ?Ht; by eexists.
Qed.
Next Obligation.
  intros inp outlen Hb _.
  destruct (zl_deflateInit lib Hlib) as [s Hs], (zl_inflateInit lib Hlib) as [t Ht].
  rewrite (oneshot_zlib_encode s) by done. unfold Zlib.zlib_compress_final.
  rewrite take_ge by lia.
  destruct (Zlib.deflate lib s inp outlen Zlib.Z_FINISH) as [[[ret s'] n] out] eqn:Hd.
  destruct (zl_deflate lib Hlib _ _ _ _ _ _ _ Hb Hs Hd) as (Hret & Hlen & Hob & Hne).
  destruct Hret as [<-|[<-|[<-|[]]]].
  - eexists _, _, _, out. split; [done|]. split; [done|]. intros [=].
  - eexists _, _, _, out. split; [done|]. split; [done|]. intros _.
    split; [done|]. split; [by apply Hne|]. intros extra room Hroom.
    destruct (zl_roundtrip lib Hlib _ _ _ _ _ _ _ _ Hb Hs Hd Ht Hroom) as [t' Hi].
    rewrite (oneshot_zlib_decode t) by done. unfold Zlib.zlib_decompress_final.
    rewrite take_app_length, Hi. rewrite decide_False by lia. by eexists.
  - eexists _, _, _, out. split; [done|]. split; [done|]. intros [=].
Qed.
Next Obligation.
  intros mem len outlen Hb _ _. destruct (zl_inflateInit lib Hlib) as [t Ht].
  rewrite (oneshot_zlib_decode t) by done. unfold Zlib.zlib_decompress_final.
  apply (Forall_take _ len) in Hb.
  destruct (Zlib.inflate lib t (take len mem) outlen Zlib.Z_FINISH) as [[[ret s'] n] out] eqn:Hd.
  destruct (zl_inflate lib Hlib _ _ _ _ _ _ _ Hb Ht Hd) as (Hret & Hlen).
  case_decide; [by eexists _, _, _, _|].
  destruct Hret as [<-|[<-|[<-|[<-|[<-|[]]]]]]; by eexists _, _, _, _.
Qed.
End zlib_oneshot.
