(* ===== verification/LzfStream.v ===== *)
(** The streaming LZF format (src/crypto/lzf-stream.c), and the table of algorithms of compress.c.

    A stream is a sequence of blocks: "ZV\0" and a stored block, "ZV\1" and an LZF block, or the
    trailer "ZV\x30" with the CRC of everything before it.  The encoder and the decoder are state
    machines that accept their input, and give their output, in pieces of any size.

    An input pointer is the memory it points to, with the number of bytes available; what a call
    stored in the caller's output buffer is a list, with the room that is left.  crc32 is zlib's
    and a parameter.  [None] is a failed assertion or an access outside the buffers. *)

From S2P Require Import Prelude Cipher Lzf Compress.

Definition MAX_BLOCK : nat := Z.to_nat (Z.shiftl 1 16 - 1).
Definition MAX_HEADER : nat := 7.
Definition BUFLEN : nat := MAX_BLOCK + MAX_HEADER.

#[global] Opaque MAX_BLOCK.

Inductive lzf_decode_state :=
| WANT_HEADER_1 | WANT_HEADER_2 | WANT_HEADER_3 | WANT_DATA | AT_EOF | DATA_ERROR.

#[global] Instance lzf_decode_state_eq_dec : EqDecision lzf_decode_state.
Proof. solve_decision. Defined.

(** [s_in] and [s_out] are the two arrays of BUFLEN bytes. *)
Record lzf_stream_ctx := mk_sctx {
  block_ctx : isrcry_compress_ctx (gmap Z Z);
  crc : Z;
  wrote_trailer : bool;
  decode_state : lzf_decode_state;
  block_type : Z;
  output_size : nat;
  s_in : list Z;
  in_offset : nat;
  in_count : nat;
  s_out : list Z;
  out_offset : nat;
  out_count : nat
}.

(** Assignments to the fields. *)
Definition set_block_ctx (s : lzf_stream_ctx) (b : isrcry_compress_ctx (gmap Z Z)) : lzf_stream_ctx :=
  mk_sctx b (crc s) (wrote_trailer s) (decode_state s) (block_type s) (output_size s) (s_in s)
    (in_offset s) (in_count s) (s_out s) (out_offset s) (out_count s).
Definition set_crc (s : lzf_stream_ctx) (c : Z) : lzf_stream_ctx :=
  mk_sctx (block_ctx s) c (wrote_trailer s) (decode_state s) (block_type s) (output_size s)
    (s_in s) (in_offset s) (in_count s) (s_out s) (out_offset s) (out_count s).
Definition set_wrote_trailer (s : lzf_stream_ctx) (w : bool) : lzf_stream_ctx :=
  mk_sctx (block_ctx s) (crc s) w (decode_state s) (block_type s) (output_size s) (s_in s)
    (in_offset s) (in_count s) (s_out s) (out_offset s) (out_count s).
Definition set_decode (s : lzf_stream_ctx) (d : lzf_decode_state) (n : nat) : lzf_stream_ctx :=
  mk_sctx (block_ctx s) (crc s) (wrote_trailer s) d (block_type s) (output_size s) (s_in s)
    (in_offset s) n (s_out s) (out_offset s) (out_count s).
Definition set_block_type (s : lzf_stream_ctx) (t : Z) : lzf_stream_ctx :=
  mk_sctx (block_ctx s) (crc s) (wrote_trailer s) (decode_state s) t (output_size s) (s_in s)
    (in_offset s) (in_count s) (s_out s) (out_offset s) (out_count s).
Definition set_output_size (s : lzf_stream_ctx) (n : nat) : lzf_stream_ctx :=
  mk_sctx (block_ctx s) (crc s) (wrote_trailer s) (decode_state s) (block_type s) n (s_in s)
    (in_offset s) (in_count s) (s_out s) (out_offset s) (out_count s).
Definition set_in (s : lzf_stream_ctx) (buf : list Z) (offset : nat) : lzf_stream_ctx :=
  mk_sctx (block_ctx s) (crc s) (wrote_trailer s) (decode_state s) (block_type s)
    (output_size s) buf offset (in_count s) (s_out s) (out_offset s) (out_count s).
Definition set_out (s : lzf_stream_ctx) (buf : list Z) (offset count : nat) : lzf_stream_ctx :=
  mk_sctx (block_ctx s) (crc s) (wrote_trailer s) (decode_state s) (block_type s)
    (output_size s) (s_in s) (in_offset s) (in_count s) buf offset count.

(** [n] is the variable argument, used by WANT_HEADER_3 and WANT_DATA. *)
Definition set_state (s : lzf_stream_ctx) (state : lzf_decode_state) (n : nat) : lzf_stream_ctx :=
  set_decode s state
    match state with
    | WANT_HEADER_1 => 1
    | WANT_HEADER_2 => 2
    | WANT_HEADER_3 | WANT_DATA => n
    | AT_EOF | DATA_ERROR => 0
    end%nat.

(** The memory of the bytes wanted (or NULL), the context, and the new "*buf" and "*count". *)
Definition consume_input (s : lzf_stream_ctx) (buf : list Z) (count : nat) :
    option (list Z) * lzf_stream_ctx * list Z * nat :=
  if decide (in_offset s = 0 /\ in_count s <= count)%nat then
    (Some buf, s, drop (in_count s) buf, (count - in_count s)%nat)
  else
    let consuming := (count `min` (in_count s - in_offset s))%nat in
    let s := set_in s (blit (s_in s) (in_offset s) (take consuming buf))
               (in_offset s + consuming) in
    let buf := drop consuming buf in
    let count := (count - consuming)%nat in
    if decide (in_offset s = in_count s) then (Some (s_in s), set_in s (s_in s) 0, buf, count)
    else (None, s, buf, count).

Definition input_data_pending (s : lzf_stream_ctx) : bool :=
  match decode_state s with
  | WANT_HEADER_1 | AT_EOF => bool_decide (in_offset s <> 0)%nat
  | _ => true
  end.

Definition output_data_is_buffered (s : lzf_stream_ctx) : bool := bool_decide (out_count s <> 0)%nat.

(** Where [get_output_buffer] points: the caller's buffer, or "sctx->out". *)
Inductive out_dest := UserBuf | TempBuf.

Definition get_output_buffer (s : lzf_stream_ctx) (len outlen : nat) :
    option out_dest * lzf_stream_ctx * nat :=
  if output_data_is_buffered s then (None, s, outlen)
  else if decide (len <= outlen)%nat then (Some UserBuf, s, (outlen - len)%nat)
  else (Some TempBuf, set_out s (s_out s) (out_offset s) len, outlen).

(** Storing [data] through the pointer; [None] is a NULL pointer. *)
Definition put_output (s : lzf_stream_ctx) (dest : option out_dest) (data out : list Z) :
    option (lzf_stream_ctx * list Z) :=
  dest ← dest;
  Some match dest with
       | UserBuf => (s, out ++ data)
       | TempBuf => (set_out s (blit (s_out s) 0 data) (out_offset s) (out_count s), out)
       end.

Definition produce_output (s : lzf_stream_ctx) (out : list Z) (count : nat) :
    lzf_stream_ctx * list Z * nat :=
  let producing := (count `min` (out_count s - out_offset s))%nat in
  let out := out ++ take producing (drop (out_offset s) (s_out s)) in
  let offset := (out_offset s + producing)%nat in
  (if decide (offset = out_count s) then set_out s (s_out s) 0 0
   else set_out s (s_out s) offset (out_count s),
   out, (count - producing)%nat).

Section lzf_stream.

(** The table allocated by a block context (see [lzf_alloc]), zlib's crc32, the contents of the
    arrays from g_slice_alloc, and a byte for output whose contents are unspecified. *)
Context (slice : gmap Z Z) (crc32 : Z -> list Z -> Z) (slab_in slab_out : list Z) (junk : Z).

Local Abbreviation lzf := (_isrcry_lzf_desc slice).

Definition lzf_stream_alloc (direction : isrcry_direction) (level : Z) :
    option (Z * (lzf_stream_ctx + isrcry_result)) :=
  '(ret, block_ctx) ←
    isrcry_compress_init lzf (compress_ctx_new lzf) direction level;
  Some (level,
    if decide (ret <> ISRCRY_OK) then inr ret
    else inl (set_state (mk_sctx block_ctx (crc32 0 []) false WANT_HEADER_1 0 0 slab_in 0 0
                           slab_out 0 0) WANT_HEADER_1 0)).

(** ** Encoder *)

(** The block of [n] bytes at [mem]; the new context, the output and the room left. *)
Definition data_encode (direction : isrcry_direction) (level : Z) (s : lzf_stream_ctx)
    (mem : list Z) (n : nat) (out : list Z) (outlen : nat) :
    option (lzf_stream_ctx * list Z * nat) :=
  let s := set_crc s (crc32 (crc s) (take n mem)) in
  '(ret, b, in_count, c) ← isrcry_compress_final lzf (block_ctx s) mem n MAX_BLOCK;
  '(_, b) ← isrcry_compress_init lzf b direction level;
  let s := set_block_ctx s b in
  if decide (ret <> ISRCRY_OK) then
    let '(dest, s, outlen) := get_output_buffer s (n + 5) outlen in
    '(s, out) ← put_output s dest
      ([0x5a; 0x56; 0] ++ STORE16H (Z.of_nat n) ++ take n mem) out;
    Some (s, out, outlen)
  else
    let data := [0x5a; 0x56; 1] ++ STORE16H (Z.of_nat (length c)) ++
                STORE16H (Z.of_nat in_count) ++ c in
    let s := set_out s (blit (s_out s) 0 data) (out_offset s) (length c + 7) in
    Some (produce_output s out outlen).

(** The loop of compress_process.  Every turn but the last consumes input. *)
Fixpoint encode_loop (direction : isrcry_direction) (level : Z) (fuel : nat)
    (s : lzf_stream_ctx) (inp : list Z) (in_avail : nat) (out : list Z) (out_avail : nat) :
    option (lzf_stream_ctx * nat * list Z * nat) :=
  match fuel with
  | O => None
  | S fuel =>
      if output_data_is_buffered s then Some (s, in_avail, out, out_avail)
      else
        let s := set_decode s (decode_state s) MAX_BLOCK in
        match consume_input s inp in_avail with
        | (None, s, inp, in_avail) => Some (s, in_avail, out, out_avail)
        | (Some inbuf, s, inp, in_avail) =>
            '(s, out, out_avail) ←
              data_encode direction level s inbuf (in_count s) out out_avail;
            encode_loop direction level fuel s inp in_avail out out_avail
        end
  end.

Definition lzf_stream_compress_process : run lzf_stream_ctx :=
  fun direction level s mem inlen outlen =>
  let '(s, out, out_avail) := produce_output s [] outlen in
  '(s, in_avail, out, out_avail) ←
    encode_loop direction level (S inlen) s mem inlen out out_avail;
  Some (ISRCRY_OK, s, (inlen - in_avail)%nat, out).

(** Up to the trailer: [inl] goes on with the context, the output and the room left. *)
Definition compress_final_data (direction : isrcry_direction) (level : Z) (s : lzf_stream_ctx)
    (out : list Z) (out_avail : nat) :
    option ((lzf_stream_ctx * list Z * nat) + (isrcry_result * lzf_stream_ctx * list Z)) :=
  if output_data_is_buffered s then Some (inr (ISRCRY_BUFFER_OVERFLOW, s, out))
  else
    '(s, out, out_avail) ←
      (if input_data_pending s then
         '(s, out, out_avail) ←
           data_encode direction level s (s_in s) (in_offset s) out out_avail;
         Some (set_in s (s_in s) 0, out, out_avail)
       else Some (s, out, out_avail));
    Some (if output_data_is_buffered s then inr (ISRCRY_BUFFER_OVERFLOW, s, out)
          else inl (s, out, out_avail)).

Definition lzf_stream_compress_final : run lzf_stream_ctx :=
  fun direction level s mem inlen outlen =>
  '(ret, s, n, out) ← lzf_stream_compress_process direction level s mem inlen outlen;
  r ← compress_final_data direction level s out (outlen - length out);
  match r with
  | inr (ret, s, out) => Some (ret, s, n, out)
  | inl (s, out, out_avail) =>
      '(s, out) ←
        (if wrote_trailer s then Some (s, out)
         else
           let '(dest, s, out_avail) := get_output_buffer s 7 out_avail in
           '(s, out) ← put_output s dest ([0x5a; 0x56; 0x30] ++ STORE32H (crc s)) out;
           Some (set_wrote_trailer s true, out));
      Some (if output_data_is_buffered s then ISRCRY_BUFFER_OVERFLOW else ISRCRY_OK, s, n, out)
  end.

(** ** Decoder *)

Definition header_decode_1 (s : lzf_stream_ctx) (buf : list Z) : lzf_stream_ctx :=
  if decide (get buf 0 = 0) then set_state s AT_EOF 0
  else if decide (get buf 0 = 0x5a) then set_state s WANT_HEADER_2 0
  else set_state s DATA_ERROR 0.

Definition header_decode_2 (s : lzf_stream_ctx) (buf : list Z) : lzf_stream_ctx :=
  if decide (get buf 0 <> 0x56) then set_state s DATA_ERROR 0
  else
    let s := set_block_type s (get buf 1) in
    if decide (block_type s = 0) then set_state s WANT_HEADER_3 2
    else if decide (block_type s = 1) then set_state s WANT_HEADER_3 4
    else if decide (block_type s = 0x30) then set_state s WANT_HEADER_3 4
    else set_state s DATA_ERROR 0.

Definition header_decode_3 (s : lzf_stream_ctx) (buf : list Z) : option lzf_stream_ctx :=
  if decide (block_type s = 0) then
    let usize := Z.to_nat (LOAD16H buf 0) in
    Some (set_output_size (set_state s WANT_DATA usize) usize)
  else if decide (block_type s = 1) then
    let csize := Z.to_nat (LOAD16H buf 0) in
    let usize := Z.to_nat (LOAD16H buf 2) in
    Some (set_output_size (set_state s WANT_DATA csize) usize)
  else if decide (block_type s = 0x30) then
    Some (if decide (crc s <> LOAD32H buf 0) then set_state s DATA_ERROR 0
          else set_state s WANT_HEADER_1 0)
  else None.

(** The new context, and the [output_size] bytes stored. *)
Definition data_decode (direction : isrcry_direction) (level : Z) (s : lzf_stream_ctx)
    (mem : list Z) : option (lzf_stream_ctx * list Z) :=
  let inlen := in_count s in
  let outlen := output_size s in
  if decide (block_type s = 0) then
    if decide (inlen = outlen) then
      let out := take inlen mem in
      Some (set_state (set_crc s (crc32 (crc s) out)) WANT_HEADER_1 0, out)
    else None
  else if decide (block_type s = 1) then
    '(ret, b, inlen, out) ← isrcry_compress_final lzf (block_ctx s) mem inlen outlen;
    '(_, b) ← isrcry_compress_init lzf b direction level;
    let s := set_block_ctx s b in
    if decide (ret <> ISRCRY_OK \/ inlen <> in_count s \/ length out <> output_size s)
    then Some (set_state s DATA_ERROR 0, replicate (output_size s) junk)
    else Some (set_state (set_crc s (crc32 (crc s) out)) WANT_HEADER_1 0, out)
  else None.

(** The loop of decompress_process.  A turn that consumes nothing leaves WANT_DATA or ends the
    loop, so two turns for each byte of input, and a few, are enough. *)
Fixpoint decode_loop (direction : isrcry_direction) (level : Z) (fuel : nat)
    (s : lzf_stream_ctx) (inp : list Z) (in_avail : nat) (out : list Z) (out_avail : nat) :
    option (isrcry_result * lzf_stream_ctx * nat * list Z) :=
  match fuel with
  | O => None
  | S fuel =>
      if decide (decode_state s = WANT_DATA /\ output_data_is_buffered s = true)
      then Some (ISRCRY_OK, s, in_avail, out)
      else
        match consume_input s inp in_avail with
        | (None, s, inp, in_avail) => Some (ISRCRY_OK, s, in_avail, out)
        | (Some inbuf, s, inp, in_avail) =>
            match decode_state s with
            | WANT_HEADER_1 =>
                decode_loop direction level fuel (header_decode_1 s inbuf) inp in_avail out
                  out_avail
            | WANT_HEADER_2 =>
                decode_loop direction level fuel (header_decode_2 s inbuf) inp in_avail out
                  out_avail
            | WANT_HEADER_3 =>
                s ← header_decode_3 s inbuf;
                decode_loop direction level fuel s inp in_avail out out_avail
            | WANT_DATA =>
                let '(dest, s, out_avail) := get_output_buffer s (output_size s) out_avail in
                '(s, data) ← data_decode direction level s inbuf;
                '(s, out) ← put_output s dest data out;
                decode_loop direction level fuel s inp in_avail out out_avail
            | AT_EOF =>
                Some (if decide (0 < in_avail)%nat then ISRCRY_BAD_FORMAT else ISRCRY_OK,
                      s, in_avail, out)
            | DATA_ERROR => Some (ISRCRY_BAD_FORMAT, s, in_avail, out)
            end
        end
  end.

Definition lzf_stream_decompress_process : run lzf_stream_ctx :=
  fun direction level s mem inlen outlen =>
  let '(s, out, out_avail) := produce_output s [] outlen in
  '(ret, s, in_avail, out) ←
    decode_loop direction level (2 * inlen + 4) s mem inlen out out_avail;
  Some (ret, s, (inlen - in_avail)%nat, out).

Definition lzf_stream_decompress_final : run lzf_stream_ctx :=
  fun direction level s mem inlen outlen =>
  '(ret, s, n, out) ← lzf_stream_decompress_process direction level s mem inlen outlen;
  if decide (ret <> ISRCRY_OK) then Some (ret, s, n, out)
  else if decide (n = inlen /\ input_data_pending s = true) then Some (ISRCRY_BAD_FORMAT, s, n, out)
  else if output_data_is_buffered s then Some (ISRCRY_BUFFER_OVERFLOW, s, n, out)
  else Some (ISRCRY_OK, s, n, out).

Definition _isrcry_lzf_stream_desc : isrcry_compress_desc := {|
  z_ctx := lzf_stream_ctx;
  can_stream := true;
  z_alloc := lzf_stream_alloc;
  compress_process := Some lzf_stream_compress_process;
  compress_final := lzf_stream_compress_final;
  decompress_process := Some lzf_stream_decompress_process;
  decompress_final := lzf_stream_decompress_final
|}.

End lzf_stream.

(** * The table of algorithms (compress.c) *)

(** What the library calls outside the repository, and the memory it does not initialise. *)
Record compress_env := {
  e_slice : gmap Z Z;
  e_crc32 : Z -> list Z -> Z;
  e_slab_in : list Z;
  e_slab_out : list Z;
  e_junk : Z;
  e_zlib : Zlib.zlib_lib;
  e_lzma : Lzma.lzma_lib
}.

Section table.
Context (env : compress_env).

Definition compress_desc (type : isrcry_compress) : isrcry_compress_desc :=
  match type with
  | ISRCRY_COMPRESS_ZLIB => Zlib._isrcry_zlib_desc (e_zlib env)
  | ISRCRY_COMPRESS_LZF => _isrcry_lzf_desc (e_slice env)
  | ISRCRY_COMPRESS_LZF_STREAM =>
      _isrcry_lzf_stream_desc (e_slice env) (e_crc32 env) (e_slab_in env) (e_slab_out env)
        (e_junk env)
  | ISRCRY_COMPRESS_LZMA => Lzma._isrcry_lzma_desc (e_lzma env)
  end.

Definition isrcry_compress_alloc (compress : isrcry_compress) :
    isrcry_compress_ctx (z_ctx (compress_desc compress)) :=
  compress_ctx_new (compress_desc compress).

Definition isrcry_compress_can_stream (compress : isrcry_compress) : bool :=
  can_stream (compress_desc compress).

End table.
