(* ===== verification/LzfStreamProofs.v ===== *)
(** LzfStreamProofs: what the streaming encoder of src/crypto/lzf-stream.c produces, the streaming
    decoder turns back, however the input and the output of both are cut into pieces.

    A stream is first described as a relation between data and bytes; each state machine is then
    related to it by an invariant over its calls. *)

From S2P Require Import Prelude Cipher Lzf Compress LzfStream.

#[local] Arguments blit : simpl never.
#[local] Arguments Nat.sub : simpl nomatch.

Lemma max_block_eq : Z.of_nat MAX_BLOCK = 65535.
Proof. with_strategy transparent [MAX_BLOCK] (unfold MAX_BLOCK); by rewrite Z2Nat.id. Qed.

Lemma LOAD16H_STORE16H x rest : is_u 16 x -> LOAD16H (STORE16H x ++ rest) 0 = x.
Proof.
  intros Hx. assert (is_u 32 x) as Hx' by (unfold is_u in *; lia). rewrite <- (pack4_byte x Hx') at 2.
  assert (forall n, 2 <= n -> byte x n = 0) as Hz.
  { intros n Hn. unfold byte, is_u in *. rewrite Z.shiftr_div_pow2 by lia. rewrite Z.div_small; [done|].
    split; [lia|]. eapply Z.lt_le_trans; [apply Hx|]. apply Z.pow_le_mono_r; lia. }
  unfold pack4. rewrite !Hz by lia. done.
Qed.

Lemma length_STORE16H x : length (STORE16H x) = 2%nat.
Proof. done. Qed.

(** * Streams *)

(** What zlib promises of crc32: a 32-bit result. *)
Definition crc_ok (crc32 : Z -> list Z -> Z) : Prop := forall c d, is_u 32 (crc32 c d).

(** [block d e]: a block of the bytes [e] stores the data [d]. *)
Inductive block (d : list Z) : list Z -> Prop :=
| block_stored : block d ([0x5a; 0x56; 0] ++ STORE16H (Z.of_nat (length d)) ++ d)
| block_lzf c : lzf_items [] c d -> c <> [] -> (length c <= MAX_BLOCK)%nat ->
    block d ([0x5a; 0x56; 1] ++ STORE16H (Z.of_nat (length c)) ++ STORE16H (Z.of_nat (length d)) ++ c).

(** The data that a block can hold. *)
Definition fits (d : list Z) : Prop := (0 < length d <= MAX_BLOCK)%nat /\ bytes d.

Section stream.
Context (crc32 : Z -> list Z -> Z).

(** [blocks c ds c' e]: the blocks [e] store the pieces of data [ds] and take the CRC from [c] to [c']. *)
Inductive blocks (c : Z) : list (list Z) -> Z -> list Z -> Prop :=
| blocks_nil : blocks c [] c []
| blocks_cons d ds c' b e : fits d -> block d b -> blocks (crc32 c d) ds c' e -> blocks c (d :: ds) c' (b ++ e).

Definition trailer (c : Z) : list Z := [0x5a; 0x56; 0x30] ++ STORE32H c.

Lemma blocks_snoc c ds c' e d b :
  blocks c ds c' e -> fits d -> block d b -> blocks c (ds ++ [d]) (crc32 c' d) (e ++ b).
Proof.
  intros Hb Hf Hd. induction Hb as [c|c d' ds c' b' e Hf' Hb' _ IH]; simpl.
  - rewrite <- (app_nil_r b). econstructor; [done..|constructor].
  - rewrite <- app_assoc. by econstructor; [..|apply IH].
Qed.
End stream.

Lemma length_block d b : fits d -> block d b -> (length b <= BUFLEN)%nat /\ b <> [].
Proof.
  intros [[_ Hl] _] Hb. unfold BUFLEN, MAX_HEADER. destruct Hb; rewrite !length_app, length_STORE16H; simpl; (split; [lia|done]).
Qed.

Lemma take_blit dst src : take (length src) (blit dst 0 src) = src.
Proof. exact (take_app_length src _). Qed.

(** The worst case of a block. *)
Lemma lzf_items_bound o c o' : lzf_items o c o' -> (length c + 2 * length o <= 2 * length o')%nat.
Proof.
  induction 1 as [|o run c o' Hl _ IH|o off len o1 c o' _ Hl _ Hc _ IH]; [simpl; lia| |].
  - simpl. rewrite length_app in *. lia.
  - apply length_lzf_copy in Hc. rewrite length_app.
    assert (length (lzf_ref_bytes off len) <= 3)%nat by (unfold lzf_ref_bytes; case_decide; simpl; lia). lia.
Qed.

Lemma block_bound d b : fits d -> block d b -> (length b <= 9 * length d)%nat.
Proof.
  intros [[Hpos _] _] Hb. destruct Hb as [|c Hi _ _]; rewrite !length_app, !length_STORE16H; cbn [length]; [lia|].
  apply lzf_items_bound in Hi. cbn [length] in Hi. lia.
Qed.

Lemma blocks_bound crc32 c ds c' e : blocks crc32 c ds c' e -> (length e <= 9 * length (concat ds))%nat.
Proof.
  induction 1 as [|c d ds c' b e Hf Hb _ IH]; cbn [concat]; [done|]. apply block_bound in Hb; [|done].
  rewrite !length_app. lia.
Qed.

(** * The output buffer *)

Definition pending (s : lzf_stream_ctx) : list Z := take (out_count s - out_offset s) (drop (out_offset s) (s_out s)).

Definition out_wf (s : lzf_stream_ctx) : Prop :=
  length (s_out s) = BUFLEN /\ (out_count s <= BUFLEN)%nat /\
  (out_count s = 0 /\ out_offset s = 0 \/ out_offset s < out_count s)%nat.

Lemma buffered_pending s : out_wf s -> output_data_is_buffered s = bool_decide (pending s <> []).
Proof.
  intros (Hl & Hc & Ho). unfold output_data_is_buffered. apply bool_decide_ext. unfold pending. split.
  - intros Hne Hp. apply (f_equal length) in Hp. rewrite length_take, length_drop in Hp. simpl in Hp. lia.
  - intros Hp Hz. by rewrite Hz in Hp.
Qed.

Lemma not_buffered s : out_wf s -> pending s = [] -> out_count s = 0%nat /\ out_offset s = 0%nat.
Proof.
  intros (Hl & Hc & [?|Hlt]) Hp; [done|]. apply (f_equal length) in Hp. unfold pending in Hp.
  rewrite length_take, length_drop in Hp. simpl in Hp. lia.
Qed.

(** Nothing but the output buffer has changed. *)
Definition same_but_out (s s' : lzf_stream_ctx) : Prop := exists b o c, s' = set_out s b o c.

(** Output is kept back only for want of room. *)
Definition settled (room : nat) (s : lzf_stream_ctx) : Prop := pending s = [] \/ (room < length (pending s))%nat.

Lemma produce_output_spec s out count :
  out_wf s -> exists s' out' count', produce_output s out count = (s', out', count') /\
    out' ++ pending s' = out ++ pending s /\ (length out' + count' = length out + count)%nat /\ out_wf s' /\
    same_but_out s s' /\ settled count' s'.
Proof.
  intros (Hl & Hc & Ho). unfold produce_output. set (producing := (count `min` _)%nat).
  assert (length (take producing (drop (out_offset s) (s_out s))) = producing) as Hp.
  { rewrite length_take, length_drop. lia. }
  case_decide as He; (eexists _, _, _; split; [done|]).
  - split_and!; [|rewrite length_app, Hp; lia|split; [done|]; split; [simpl; lia|by left]|by eexists _, _, _|by left].
    unfold pending. simpl. rewrite app_nil_r. do 2 f_equal. lia.
  - split_and!; [|rewrite length_app, Hp; lia|split; [done|]; split; [simpl; lia|right; simpl; lia]|by eexists _, _, _|].
    + unfold pending. simpl. rewrite <- app_assoc. f_equal.
      replace (out_count s - out_offset s)%nat with (producing + (out_count s - (out_offset s + producing)))%nat by lia.
      by rewrite <- take_take_drop, drop_drop.
    + right. unfold pending. simpl. rewrite length_take, length_drop. lia.
Qed.

(** The output buffer is the same. *)
Definition same_out (s s' : lzf_stream_ctx) : Prop :=
  s_out s' = s_out s /\ out_offset s' = out_offset s /\ out_count s' = out_count s.

Lemma same_out_pending s s' : same_out s s' -> pending s' = pending s.
Proof. intros (Hb & Ho & Hc). unfold pending. by rewrite Hb, Ho, Hc. Qed.

Lemma same_out_wf s s' : same_out s s' -> out_wf s -> out_wf s'.
Proof. intros (Hb & Ho & Hc). unfold out_wf. by rewrite Hb, Ho, Hc. Qed.

(** Room for [len] bytes in the caller's buffer or in the output buffer, and how it is filled. *)
Lemma put_output_spec s len outlen :
  out_wf s -> pending s = [] -> (len <= BUFLEN)%nat ->
  exists dest s1 outlen', get_output_buffer s len outlen = (dest, s1, outlen') /\ same_but_out s s1 /\
    forall s2 data out, same_out s1 s2 -> length data = len -> data <> [] ->
    exists s3 out', put_output s2 dest data out = Some (s3, out') /\ same_but_out s2 s3 /\ out_wf s3 /\
      out' ++ pending s3 = out ++ data /\ (length out' + outlen' = length out + outlen)%nat /\ settled outlen' s3.
Proof.
  intros Hwf Hp Hd. unfold get_output_buffer. rewrite buffered_pending, Hp by done. simpl.
  destruct (not_buffered s Hwf Hp) as [Hc Ho]. pose proof Hwf as (Hl & _). case_decide as Hle.
  - eexists _, _, _. split; [done|]. split; [exists (s_out s), (out_offset s), (out_count s); by destruct s|].
    intros s2 data out Hs Hlen Hne. cbn [put_output mbind option_bind]. eexists _, _. split; [done|].
    rewrite (same_out_pending _ _ Hs), Hp, app_nil_r.
    split_and!; [exists (s_out s2), (out_offset s2), (out_count s2); by destruct s2|by eapply same_out_wf|done|rewrite length_app; lia|].
    left. by rewrite (same_out_pending _ _ Hs).
  - eexists _, _, _. split; [done|]. split; [by eexists _, _, _|]. intros s2 data out (Hb2 & Ho2 & Hc2) Hlen Hne.
    cbn [put_output mbind option_bind]. simpl in Hb2, Ho2, Hc2. eexists _, _. split; [done|].
    assert (length data <> 0)%nat by (by destruct data).
    set (s3 := set_out _ _ _ _).
    assert (pending s3 = data) as Hp3.
    { unfold pending, s3. cbn [s_out out_offset out_count set_out]. rewrite Ho2, Hc2, Ho, Nat.sub_0_r, drop_0, <- Hlen. apply take_blit. }
    unfold settled. rewrite Hp3. split_and!; [by eexists _, _, _| |done|lia|right; lia].
    split; [simpl; rewrite Hb2, length_blit; simpl; lia|split; simpl; [lia|right; lia]].
Qed.

(** * One block *)

(** The context of the block compressor between blocks. *)
Definition block_ready (slice : gmap Z Z) (dir : isrcry_direction) : isrcry_compress_ctx (gmap Z Z) :=
  mk_zctx dir 0 (Some slice).

Lemma lzf_compress_block slice mem n :
  fits (take n mem) -> length (take n mem) = n -> (n < length mem)%nat \/ n <> 1%nat ->
  exists ret c m, lzf_do_compress ISRCRY_ENCODE 0 slice mem n MAX_BLOCK = Some (ret, slice, m, c) /\
    (ret = ISRCRY_OK -> m = n /\ lzf_items [] c (take n mem) /\ c <> [] /\ (length c <= MAX_BLOCK)%nat).
Proof.
  intros [[Hpos Hmax] Hb] Hlen Hmem. unfold lzf_do_compress. rewrite decide_False by lia.
  pose proof max_block_eq as Hm. destruct (decide (n = 1)%nat) as [->|Hn].
  - destruct mem as [|b [|x rest]]; simpl in *; try lia. apply Forall_cons in Hb as [Hb _].
    rewrite lzf_compress_one; [|exact Hb|rewrite length_replicate; lia]. cbn [mbind option_bind]. eexists _, _, _. split; [done|]. intros _.
    split; [done|]. split; [apply (items_lit [] [b] [] [b]); [simpl; lia|constructor]|]. split; [done|simpl; lia].
  - destruct (lzf_compress_spec slice (take n mem) (replicate MAX_BLOCK 0) Hb) as (r & Hr & Hspec & _); [lia|].
    apply (lzf_compress_extra _ (drop n mem)) in Hr. rewrite take_drop, Hlen in Hr.
    rewrite Hr. cbn [mbind option_bind]. clear Hr. destruct r as [c|].
    + eexists _, _, _. split; [reflexivity|]. intros _. destruct (Hspec c eq_refl) as [Hi Hc].
      rewrite length_replicate in Hc. split; [done|]. split; [done|]. split; [intros ->; simpl in Hc; lia|lia].
    + eexists _, _, _. split; [reflexivity|]. intros [=].
Qed.

Section encode.
Context (slice : gmap Z Z) (crc32 : Z -> list Z -> Z).

(** The output buffer, the CRC and the block context may have changed, the last to the same value. *)
Record encoded (s : lzf_stream_ctx) (d : list Z) (s' : lzf_stream_ctx) : Prop := mk_encoded {
  en_ctx : block_ctx s' = block_ready slice ISRCRY_ENCODE;
  en_crc : crc s' = crc32 (crc s) d;
  en_trailer : wrote_trailer s' = wrote_trailer s;
  en_state : decode_state s' = decode_state s;
  en_in : s_in s' = s_in s;
  en_offset : in_offset s' = in_offset s;
  en_out : out_wf s'
}.

Lemma data_encode_spec s mem n out outlen :
  block_ctx s = block_ready slice ISRCRY_ENCODE -> out_wf s -> pending s = [] ->
  fits (take n mem) -> length (take n mem) = n -> (n < length mem)%nat \/ n <> 1%nat ->
  exists s' out' outlen' e, data_encode slice crc32 ISRCRY_ENCODE 0 s mem n out outlen = Some (s', out', outlen') /\
    encoded s (take n mem) s' /\ block (take n mem) e /\ out' ++ pending s' = out ++ e /\
    (length out' + outlen' = length out + outlen)%nat /\ settled outlen' s'.
Proof.
  intros Hctx Hwf Hp Hf Hn Hmem. unfold data_encode. cbn [block_ctx set_crc]. rewrite Hctx.
  destruct (lzf_compress_block slice mem n Hf Hn Hmem) as (ret & c & m & Hc & Hok).
  unfold isrcry_compress_final, run_ctx. cbn [zctx zdirection zlevel block_ready mbind option_bind compress_final _isrcry_lzf_desc].
  rewrite Hc. cbn [mbind option_bind]. unfold isrcry_compress_init. cbn [z_alloc _isrcry_lzf_desc lzf_alloc mbind option_bind].
  rewrite decide_False by (intros H0; by apply H0). set (s1 := set_block_ctx _ _).
  assert (out_wf s1 /\ pending s1 = []) as [Hwf1 Hp1] by done. set (d := take n mem) in *.
  pose proof (length_block d) as Hlb. case_decide as Hret.
  - set (e := [0x5a; 0x56; 0] ++ STORE16H (Z.of_nat n) ++ d).
    assert (block d e) as He by (unfold e; rewrite <- Hn at 1; constructor).
    destruct (Hlb e Hf He) as [Hle Hne].
    replace (n + 5)%nat with (length e) by (unfold e; rewrite !length_app, length_STORE16H; simpl; lia).
    destruct (put_output_spec s1 (length e) outlen Hwf1 Hp1 Hle) as (dest & s2 & outlen' & -> & (b2 & o2 & k2 & ->) & Hput).
    destruct (Hput (set_out s1 b2 o2 k2) e out) as (s3 & out' & -> & (b & o & k & ->) & Hwf3 & Ho & Hol & Hfit); [done..|].
    eexists _, out', outlen', e. split; [done|]. split_and!; try done.
  - destruct (Hok Hret) as (-> & Hi & Hcne & Hcl).
    set (e := [0x5a; 0x56; 1] ++ STORE16H (Z.of_nat (length c)) ++ STORE16H (Z.of_nat n) ++ c).
    assert (block d e) as He by (unfold e; rewrite <- Hn at 1; by constructor).
    destruct (Hlb e Hf He) as [Hle Hne]. destruct (not_buffered s Hwf Hp) as [_ Ho1]. destruct Hwf as (Hl1 & _).
    replace (length c + 7)%nat with (length e) by (unfold e; rewrite !length_app, !length_STORE16H; simpl; lia).
    set (s2 := set_out s1 _ _ _).
    assert (pending s2 = e) as Hp2.
    { unfold pending, s2. cbn [out_count out_offset s_out set_out]. change (out_offset s1) with (out_offset s).
      rewrite Ho1, Nat.sub_0_r, drop_0. apply take_blit. }
    assert (out_wf s2) as Hwf2.
    { assert (length e <> 0)%nat by (by destruct e).
      assert (length (s_out s2) = BUFLEN) by (change (s_out s2) with (blit (s_out s) 0 e); rewrite length_blit; lia).
      split; [done|]. change (out_count s2) with (length e). change (out_offset s2) with (out_offset s). lia. }
    destruct (produce_output_spec s2 out outlen Hwf2) as (s' & out' & outlen' & -> & Ho & Hol & Hwf' & Hsame & Hfit).
    rewrite Hp2 in *. eexists s', out', outlen', e. split; [done|]. destruct Hsame as (b & o & k & ->). by split_and!.
Qed.
End encode.

(** * The input buffer *)

(** The input that was kept from earlier calls. *)
Definition kept_in (s : lzf_stream_ctx) : list Z := take (in_offset s) (s_in s).

Definition in_wf (s : lzf_stream_ctx) : Prop := length (s_in s) = BUFLEN /\ (in_offset s < in_count s <= BUFLEN)%nat.

Lemma length_kept_in s : in_wf s -> length (kept_in s) = in_offset s.
Proof. intros [Hl Ho]. unfold kept_in. rewrite length_take. lia. Qed.

Lemma take_blit_next l off x : (off <= length l)%nat -> take (off + length x) (blit l off x) = take off l ++ x.
Proof.
  intros Ho. unfold blit. rewrite app_assoc. apply take_app_length'. rewrite length_app, length_take. lia.
Qed.

(** Either there is enough input for [in_count] bytes, or all of it is kept. *)
Lemma consume_input_spec s inp avail :
  in_wf s -> (avail <= length inp)%nat ->
  let need := (in_count s - in_offset s)%nat in
  if decide (need <= avail)%nat then
    exists mem s', consume_input s inp avail = (Some mem, s', drop need inp, (avail - need)%nat) /\
      take (in_count s) mem = kept_in s ++ take need inp /\
      exists buf, s' = set_in s buf 0 /\ length buf = BUFLEN
  else
    exists s', consume_input s inp avail = (None, s', drop avail inp, 0%nat) /\
      kept_in s' = kept_in s ++ take avail inp /\ in_wf s' /\
      exists buf off, s' = set_in s buf off.
Proof.
  intros [Hl Ho] Ha need. unfold consume_input. destruct (decide (in_offset s = 0 /\ in_count s <= avail)%nat) as [[H0 Hc]|Hn].
  - rewrite decide_True by (unfold need; lia). unfold need. rewrite H0, Nat.sub_0_r. eexists _, _. split; [done|]. unfold kept_in.
    rewrite H0. split; [done|]. exists (s_in s). split; [|done]. destruct s; simpl in *; by subst.
  - set (k := (avail `min` need)%nat). fold need. fold k. cbn [in_offset in_count set_in s_in].
    assert (length (take k inp) = k) as Hk by (rewrite length_take; unfold k; lia).
    pose proof (take_blit_next (s_in s) (in_offset s) (take k inp)) as Htb. rewrite Hk in Htb.
    assert (length (blit (s_in s) (in_offset s) (take k inp)) = BUFLEN) as Hlb
      by (rewrite length_blit; rewrite ?Hk; unfold k, need; lia).
    destruct (decide (need <= avail)%nat) as [Hle|Hgt].
    + assert (k = need) as Hkn by (unfold k; lia). rewrite Hkn in *. rewrite decide_True by (unfold need; lia).
      eexists _, _. split; [done|]. split; [|by eexists].
      replace (in_count s) with (in_offset s + need)%nat by (unfold need; lia). apply Htb. lia.
    + assert (k = avail) as Hkn by (unfold k; lia). rewrite Hkn in *. rewrite decide_False by (unfold need in *; lia).
      eexists. rewrite Nat.sub_diag. split; [done|]. split; [|split; [|by eexists _, _]].
      * apply Htb. lia.
      * split; [done|]. cbn [in_offset in_count set_in]. unfold need in *. lia.
Qed.

(** * The encoder *)

(** The blocks written for [d], which leave the CRC at [c]. *)
Definition stored (crc32 : Z -> list Z -> Z) (d : list Z) (c : Z) (e : list Z) : Prop :=
  exists ds, blocks crc32 (crc32 0 []) ds c e /\ concat ds = d.

Lemma stored_snoc crc32 d c e d' b :
  stored crc32 d c e -> fits d' -> block d' b -> stored crc32 (d ++ d') (crc32 c d') (e ++ b).
Proof.
  intros (ds & Hb & Hd) Hf Hb'. exists (ds ++ [d']). split; [by apply blocks_snoc|].
  rewrite concat_app, Hd. cbn [concat]. by rewrite app_nil_r.
Qed.

Section encoder.
Context (slice : gmap Z Z) (crc32 : Z -> list Z -> Z).

(** Having got [fed], the encoder has given [out]. *)
Record encoding (fed out : list Z) (s : lzf_stream_ctx) : Prop := mk_encoding {
  eg_ctx : block_ctx s = block_ready slice ISRCRY_ENCODE;
  eg_state : decode_state s = WANT_HEADER_1;
  eg_in : length (s_in s) = BUFLEN;
  eg_offset : (in_offset s < MAX_BLOCK)%nat;
  eg_out : out_wf s;
  eg_fed : bytes fed;
  eg_closed : wrote_trailer s = true -> in_offset s = 0%nat;
  eg_stored : exists d e, stored crc32 d (crc s) e /\ fed = d ++ kept_in s /\
    out ++ pending s = e ++ if wrote_trailer s then trailer (crc s) else []
}.

Lemma encode_loop_spec fuel fed prev s inp n out avail :
  (n < fuel)%nat -> (n <= length inp)%nat -> bytes inp -> (wrote_trailer s = true -> n = 0%nat) ->
  encoding fed (prev ++ out) s -> settled avail s ->
  exists s' n' out' avail',
    encode_loop slice crc32 ISRCRY_ENCODE 0 fuel s inp n out avail = Some (s', n', out', avail') /\
    (n' <= n)%nat /\ encoding (fed ++ take (n - n') inp) (prev ++ out') s' /\
    (length out' + avail' = length out + avail)%nat /\ settled avail' s' /\ (pending s' = [] -> n' = 0%nat) /\
    wrote_trailer s' = wrote_trailer s.
Proof.
  revert fed s inp n out avail. induction fuel as [|fuel IH]; intros fed s inp n out avail Hfuel Hn Hb Hw He Hs; [lia|].
  cbn [encode_loop]. pose proof He as [Hctx Hst Hin Hoff Hout Hfed Hcl (d & e & Hsto & Hd & Hp)].
  rewrite buffered_pending by done. case_bool_decide as Hpend.
  { eexists _, _, _, _. split; [done|]. rewrite Nat.sub_diag, take_0, app_nil_r. by split_and!. }
  assert (pending s = []) as Hnil by (destruct (pending s); [done|by destruct Hpend]).
  set (s0 := set_decode s (decode_state s) MAX_BLOCK).
  assert (in_wf s0) as Hwf by (split; [exact Hin|]; simpl; unfold BUFLEN; lia).
  pose proof (length_kept_in s0 Hwf) as Hk. pose proof (consume_input_spec s0 inp n Hwf Hn) as Hc. cbn zeta in Hc.
  set (need := (in_count s0 - in_offset s0)%nat) in Hc.
  assert (need = MAX_BLOCK - in_offset s)%nat as Hneed by done. case_decide as Hle.
  - destruct Hc as (mem & s1 & -> & Hmem & buf & -> & Hbuf). set (s1 := set_in s0 buf 0).
    assert (Hmem' : take MAX_BLOCK mem = kept_in s ++ take need inp) by exact Hmem.
    assert (length (take MAX_BLOCK mem) = MAX_BLOCK) as Hlm.
    { etransitivity; [apply (f_equal length Hmem)|]. rewrite length_app, Hk, length_take. simpl. lia. }
    pose proof max_block_eq as Hmb.
    assert (wrote_trailer s = false) as Hw0 by (destruct (wrote_trailer s); [specialize (Hw eq_refl); lia|done]).
    assert (bytes (kept_in s)) as Hbk by (rewrite Hd in Hfed; by apply Forall_app in Hfed as [_ ?]).
    assert (fits (take MAX_BLOCK mem)) as Hfit.
    { split; [rewrite Hlm; lia|]. rewrite Hmem'. apply Forall_app_2; [done|by apply Forall_take]. }
    pose proof (Hout : out_wf s1) as Hwf1. pose proof (Hnil : pending s1 = []) as Hp1.
    destruct (data_encode_spec slice crc32 s1 mem MAX_BLOCK out avail Hctx Hwf1 Hp1 Hfit Hlm) as
      (s2 & out2 & avail2 & b & Hr & [Hctx2 Hcrc2 Htr2 Hst2 Hin2 Hoff2 Hwf2] & Hblk & Ho2 & Hl2 & Hset); [right; lia|].
    change (in_count s1) with MAX_BLOCK. rewrite Hr. cbn [mbind option_bind]. clear Hr.
    destruct (IH (fed ++ take need inp) s2 (drop need inp) (n - need)%nat out2 avail2) as (s3 & n3 & out3 & avail3 & Hr & Hn3 & He3 & Hl3 & Hs3 & Hp3 & Hw3);
      [lia|rewrite length_drop; lia|by apply Forall_drop|by rewrite Htr2; simpl; rewrite Hw0| |done|].
    { split; [done|by rewrite Hst2|by rewrite Hin2|rewrite Hoff2; simpl; lia|done|apply Forall_app_2; [done|by apply Forall_take]|by intros _; rewrite Hoff2|].
      exists (d ++ take MAX_BLOCK mem), (e ++ b). rewrite Htr2, Hcrc2. cbn [wrote_trailer set_in set_decode s1 s0 crc].
      rewrite Hw0 in *. split; [by apply stored_snoc|]. unfold kept_in. rewrite Hoff2. cbn [in_offset set_in s1].
      rewrite take_0, !app_nil_r, Hmem', Hd, <- !app_assoc. split; [done|].
      rewrite app_nil_r, Hnil, app_nil_r in Hp. by rewrite Ho2, app_assoc, Hp. }
    exists s3, n3, out3, avail3. split; [exact Hr|]. split; [lia|]. rewrite <- app_assoc, take_take_drop in He3.
    replace (need + (n - need - n3))%nat with (n - n3)%nat in He3 by lia.
    split_and!; [done|lia|done|done|by rewrite Hw3, Htr2].
  - destruct Hc as (s1 & -> & Hk1 & [Hin1 Hoff1] & buf & off & ->). eexists _, _, _, _. split; [done|]. split; [lia|].
    rewrite Nat.sub_0_r. split; [|by split_and!]. split; try done.
    + simpl in *. lia.
    + apply Forall_app_2; [done|by apply Forall_take].
    + intros Hwt. specialize (Hw Hwt). specialize (Hcl Hwt). rewrite Hw, take_0, app_nil_r in Hk1.
      apply (f_equal length) in Hk1. rewrite (length_kept_in s0), length_kept_in in Hk1 by done. simpl in *. lia.
    + exists d, e. split; [done|]. rewrite Hk1. split; [|done]. by rewrite Hd, <- app_assoc.
Qed.

Lemma compress_process_spec fed prev s mem inlen outlen :
  (inlen <= length mem)%nat -> bytes mem -> (wrote_trailer s = true -> inlen = 0%nat) -> encoding fed prev s ->
  exists s' n out, lzf_stream_compress_process slice crc32 ISRCRY_ENCODE 0 s mem inlen outlen = Some (ISRCRY_OK, s', n, out) /\
    (n <= inlen)%nat /\ encoding (fed ++ take n mem) (prev ++ out) s' /\ (length out <= outlen)%nat /\
    settled (outlen - length out) s' /\ (pending s' = [] -> n = inlen) /\ wrote_trailer s' = wrote_trailer s.
Proof.
  intros Hn Hb Hw He. unfold lzf_stream_compress_process.
  destruct (produce_output_spec s [] outlen (eg_out _ _ _ He)) as (s1 & out1 & avail1 & -> & Ho & Hl & Hwf & (b & o & c & ->) & Hs).
  destruct (encode_loop_spec (S inlen) fed prev (set_out s b o c) mem inlen out1 avail1) as
    (s2 & n2 & out2 & avail2 & -> & Hn2 & He2 & Hl2 & Hs2 & Hp2 & Hw2); [lia|done..| |done|].
  - destruct He as [? ? ? ? ? ? ? (d & e & Hsto & Hd & Hp)]. split; try done. exists d, e. split; [done|]. split; [done|].
    by rewrite <- app_assoc, Ho.
  - cbn [mbind option_bind]. eexists _, _, _. split; [done|]. simpl in Hl. split; [lia|]. split; [done|]. split; [lia|].
    split; [by replace (outlen - length out2)%nat with avail2 by lia|]. split; [|done]. intros Hz. specialize (Hp2 Hz). lia.
Qed.

Lemma compress_final_data_spec fed prev s out avail :
  encoding fed (prev ++ out) s -> settled avail s ->
  exists s' out' avail', compress_final_data slice crc32 ISRCRY_ENCODE 0 s out avail =
      Some (if decide (pending s' = []) then inl (s', out', avail') else inr (ISRCRY_BUFFER_OVERFLOW, s', out')) /\
    encoding fed (prev ++ out') s' /\ (length out' + avail' = length out + avail)%nat /\ settled avail' s' /\
    (pending s' = [] -> in_offset s' = 0%nat /\ pending s = []) /\ wrote_trailer s' = wrote_trailer s.
Proof.
  intros He Hs. pose proof He as [Hctx Hst Hin Hoff Hout Hfed Hcl (d & e & Hsto & Hd & Hp)]. unfold compress_final_data.
  rewrite (buffered_pending s) by done. case_bool_decide as Hpend.
  { exists s, out, avail. by rewrite decide_False. }
  assert (pending s = []) as Hnil by (destruct (pending s); [done|by destruct Hpend]). unfold input_data_pending. rewrite Hst.
  case_bool_decide as Hz.
  - assert (length (kept_in s) = in_offset s) as Hk by (unfold kept_in; rewrite length_take; unfold BUFLEN in *; lia).
    assert (fits (kept_in s)) as Hfit.
    { split; [lia|]. rewrite Hd in Hfed. by apply Forall_app in Hfed as [_ ?]. }
    assert (wrote_trailer s = false) as Hw0 by (destruct (wrote_trailer s); [by specialize (Hcl eq_refl)|done]).
    destruct (data_encode_spec slice crc32 s (s_in s) (in_offset s) out avail Hctx Hout Hnil Hfit Hk) as
      (s2 & out2 & avail2 & b & -> & [Hctx2 Hcrc2 Htr2 Hst2 Hin2 Hoff2 Hwf2] & Hblk & Ho2 & Hl2 & Hset); [left; unfold BUFLEN in *; lia|].
    cbn [mbind option_bind]. set (s3 := set_in s2 (s_in s2) 0).
    exists s3, out2, avail2. split_and!; [|split|done..].
    + rewrite (buffered_pending s3) by exact Hwf2. case_bool_decide as Hb; [by rewrite decide_False|].
      rewrite decide_True; [done|]. destruct (pending s3); [done|by destruct Hb].
    + exact Hctx2.
    + by rewrite <- Hst, <- Hst2.
    + simpl. by rewrite Hin2.
    + simpl. lia.
    + exact Hwf2.
    + exact Hfed.
    + done.
    + exists (d ++ kept_in s), (e ++ b). change (crc s3) with (crc s2). change (wrote_trailer s3) with (wrote_trailer s2).
      change (pending s3) with (pending s2). rewrite Hcrc2, Htr2, Hw0 in *. split; [by apply stored_snoc|].
      rewrite Hnil, !app_nil_r in *. split; [exact Hd|].
      by rewrite <- app_assoc, Ho2, app_assoc, Hp.
  - exists s, out, avail. cbn [mbind option_bind]. rewrite (buffered_pending s) by done. rewrite bool_decide_false by (intros Hn; by apply Hn).
    rewrite decide_True by done. split_and!; [done..|intros _; split; [lia|done]|done].
Qed.

(** A final call either completes the stream or has filled the room it was given. *)
Lemma compress_final_spec fed prev s mem inlen outlen :
  (inlen <= length mem)%nat -> bytes mem -> (wrote_trailer s = true -> inlen = 0%nat) -> encoding fed prev s ->
  exists ret s' n out, lzf_stream_compress_final slice crc32 ISRCRY_ENCODE 0 s mem inlen outlen = Some (ret, s', n, out) /\
    (n <= inlen)%nat /\ encoding (fed ++ take n mem) (prev ++ out) s' /\ (length out <= outlen)%nat /\
    (wrote_trailer s' = true -> n = inlen) /\
    (ret = ISRCRY_OK /\ pending s' = [] /\ wrote_trailer s' = true \/
     ret = ISRCRY_BUFFER_OVERFLOW /\ (outlen - length out < length (pending s'))%nat).
Proof.
  intros Hn Hb Hw He. unfold lzf_stream_compress_final.
  destruct (compress_process_spec fed prev s mem inlen outlen Hn Hb Hw He) as (s1 & n1 & out1 & -> & Hn1 & He1 & Hl1 & Hs1 & Hp1 & Hw1).
  cbn [mbind option_bind].
  destruct (compress_final_data_spec _ prev s1 out1 (outlen - length out1) He1 Hs1) as (s2 & out2 & avail2 & -> & He2 & Hl2 & Hs2 & Hp2 & Hw2).
  cbn [mbind option_bind].
  assert (wrote_trailer s2 = true -> n1 = inlen) as Hn2 by (rewrite Hw2, Hw1; intros Hwt; specialize (Hw Hwt); lia).
  destruct (decide (pending s2 = [])) as [Hnil|Hne].
  2:{ eexists _, s2, n1, out2. split; [done|]. split_and!; [done|done|lia|done|right]. destruct Hs2 as [?|?]; [done|]. split; [done|lia]. }
  destruct (wrote_trailer s2) eqn:Htr.
  { cbn [mbind option_bind]. rewrite buffered_pending by apply He2. rewrite bool_decide_false by (intros Hx; by apply Hx).
    eexists _, s2, n1, out2. split; [done|]. split_and!; [done|done|lia|by intros _; apply Hn2|by left]. }
  pose proof He2 as [Hctx Hst Hin Hoff Hout Hfed Hcl (d & e & Hsto & Hd & Hp)]. destruct (Hp2 Hnil) as [Hz Hnil1].
  destruct (put_output_spec s2 7 avail2 Hout Hnil) as (dest & s3 & avail3 & -> & (b3 & o3 & c3 & ->) & Hput); [unfold BUFLEN, MAX_HEADER; lia|].
  set (s3 := set_out s2 b3 o3 c3). cbv beta iota.
  destruct (Hput s3 (trailer (crc s2)) out2) as (s4 & out4 & Hr & (b4 & o4 & c4 & ->) & Hwf4 & Ho4 & Hl4 & Hs4); [done..|].
  change ([90; 86; 48] ++ STORE32H (crc s3)) with (trailer (crc s2)). rewrite Hr. cbn [mbind option_bind].
  set (s5 := set_wrote_trailer _ true). rewrite (buffered_pending s5) by exact Hwf4.
  eexists _, s5, n1, out4. split; [done|]. split; [done|]. split.
  { split; [exact Hctx|exact Hst|exact Hin|exact Hoff|exact Hwf4|exact Hfed|by intros _|]. exists d, e. split; [done|].
    split; [done|]. rewrite Htr, Hnil, !app_nil_r in Hp. change (wrote_trailer s5) with true. cbv iota.
    change (crc s5) with (crc s2). rewrite <- app_assoc. etransitivity; [apply (f_equal (app prev) Ho4)|]. by rewrite app_assoc, Hp. }
  split; [lia|]. split.
  { intros _. by apply Hp1. }
  case_bool_decide as Hne; [right|left].
  - destruct Hs4 as [Hx|Hlt]; [by destruct Hne|]. split; [done|]. change (pending s5) with (pending (set_out s3 b4 o4 c4)). lia.
  - split; [done|]. split; [|done]. destruct (pending s5); [done|by destruct Hne].
Qed.
End encoder.

(** * Sessions *)

Section session.
Context (desc : isrcry_compress_desc).

Local Abbreviation cctx_t := (isrcry_compress_ctx (z_ctx desc)).

(** Calls of isrcry_compress_process, each with the number of input bytes it is shown and the room it
    is given: the last result, the context, the rest of the input, and the output. *)
Fixpoint process_all (calls : list (nat * nat)) (cctx : cctx_t) (input out : list Z) :
    option (isrcry_result * cctx_t * list Z * list Z) :=
  match calls with
  | [] => Some (ISRCRY_OK, cctx, input, out)
  | (k, room) :: calls =>
      '(ret, cctx, n, o) ← isrcry_compress_process desc cctx input (k `min` length input) room;
      if decide (ret <> ISRCRY_OK) then Some (ret, cctx, drop n input, out ++ o)
      else process_all calls cctx (drop n input) (out ++ o)
  end.

(** Calls of isrcry_compress_final with the rest of the input, as long as the room was not enough. *)
Fixpoint final_all (rooms : list nat) (cctx : cctx_t) (input out : list Z) : option (isrcry_result * list Z) :=
  match rooms with
  | [] => Some (ISRCRY_BUFFER_OVERFLOW, out)
  | room :: rooms =>
      '(ret, cctx, n, o) ← isrcry_compress_final desc cctx input (length input) room;
      if decide (ret = ISRCRY_BUFFER_OVERFLOW) then final_all rooms cctx (drop n input) (out ++ o)
      else Some (ret, out ++ o)
  end.

Definition coding_session (direction : isrcry_direction) (calls : list (nat * nat)) (rooms : list nat) (input : list Z) :
    option (isrcry_result * list Z) :=
  '(ret, cctx) ← isrcry_compress_init desc (compress_ctx_new desc) direction 0;
  if decide (ret <> ISRCRY_OK) then Some (ret, [])
  else
    '(ret, cctx, input, out) ← process_all calls cctx input [];
    if decide (ret <> ISRCRY_OK) then Some (ret, out) else final_all rooms cctx input out.
End session.

Section sessions.
Context (slice : gmap Z Z) (crc32 : Z -> list Z -> Z) (slab_in slab_out : list Z) (junk : Z).

Local Abbreviation lzfs := (_isrcry_lzf_stream_desc slice crc32 slab_in slab_out junk).

(** A complete stream of [d]. *)
Definition stream (d e : list Z) : Prop := exists c b, stored crc32 d c b /\ e = b ++ trailer c.

Lemma encoding_bound fed out s : encoding slice crc32 fed out s -> (length out + length (pending s) <= 9 * length fed + 7)%nat.
Proof.
  intros [_ _ _ _ _ _ _ (d & e & (ds & Hb & Hc) & -> & Hp)]. apply blocks_bound in Hb. rewrite Hc in Hb.
  rewrite <- length_app, Hp, !length_app. destruct (wrote_trailer s); simpl; lia.
Qed.

Lemma process_all_encoding calls fed s input out :
  bytes input -> encoding slice crc32 fed out s -> wrote_trailer s = false ->
  exists s' fed' input' out', process_all lzfs calls (mk_zctx ISRCRY_ENCODE 0 (Some s)) input out =
      Some (ISRCRY_OK, mk_zctx ISRCRY_ENCODE 0 (Some s'), input', out') /\
    encoding slice crc32 fed' out' s' /\ fed' ++ input' = fed ++ input /\ bytes input' /\ wrote_trailer s' = false.
Proof.
  revert fed s input out. induction calls as [|[k room] calls IH]; intros fed s input out Hb He Hw; simpl.
  { eexists _, _, _, _. by split_and!. }
  destruct (compress_process_spec slice crc32 fed out s input (k `min` length input) room) as
    (s1 & n1 & out1 & Hr & _ & He1 & _ & _ & _ & Hw1); [lia|done|by rewrite Hw|done|].
  unfold isrcry_compress_process, run_ctx. cbn [can_stream zdirection _isrcry_lzf_stream_desc compress_process mbind option_bind zctx zlevel].
  rewrite Hr. cbn [mbind option_bind]. rewrite decide_False by (intros Hn; by apply Hn).
  destruct (IH (fed ++ take n1 input) s1 (drop n1 input) (out ++ out1)) as (s' & fed' & input' & out' & Hr' & He' & Heq & Hb' & Hw');
    [by apply Forall_drop|done|by rewrite Hw1|].
  eexists _, _, _, _. split; [exact Hr'|]. split; [done|]. by rewrite Heq, <- app_assoc, take_drop.
Qed.

Lemma final_all_encoding rooms fed s input out :
  bytes input -> encoding slice crc32 fed out s -> (wrote_trailer s = true -> input = []) ->
  exists ret e, final_all lzfs rooms (mk_zctx ISRCRY_ENCODE 0 (Some s)) input out = Some (ret, e) /\
    (ret = ISRCRY_OK /\ stream (fed ++ input) e \/ ret = ISRCRY_BUFFER_OVERFLOW) /\
    (Exists (fun room => 9 * length (fed ++ input) + 7 <= room)%nat rooms -> ret = ISRCRY_OK).
Proof.
  revert fed s input out. induction rooms as [|room rooms IH]; intros fed s input out Hb He Hw; simpl.
  { eexists _, _. split; [done|]. split; [by right|]. by intros ?%Exists_nil. }
  destruct (compress_final_spec slice crc32 fed out s input (length input) room) as
    (ret & s1 & n1 & out1 & Hr & Hn1 & He1 & Hl1 & Hw1 & Hout); [lia|done|by intros Ht; rewrite Hw|done|].
  unfold isrcry_compress_final, run_ctx. cbn [zdirection _isrcry_lzf_stream_desc compress_final mbind option_bind zctx zlevel].
  rewrite Hr. cbn [mbind option_bind]. destruct Hout as [(-> & Hp & Ht)|[-> Hlt]].
  - rewrite decide_False by done. eexists _, _. split; [done|]. split; [left|done]. split; [done|].
    specialize (Hw1 Ht). destruct He1 as [_ _ _ _ _ _ Hcl (d & e & Hsto & Hd & Hpe)]. specialize (Hcl Ht).
    rewrite Hp, Ht, app_nil_r in Hpe. unfold kept_in in Hd. rewrite Hcl, Hw1, firstn_all in Hd. cbn [take] in Hd.
    rewrite app_nil_r in Hd. subst d. by eexists _, _.
  - rewrite decide_True by done.
    destruct (IH (fed ++ take n1 input) s1 (drop n1 input) (out ++ out1)) as (ret & e & Hr' & Hok & Henough);
      [by apply Forall_drop|done|intros Ht; by rewrite (Hw1 Ht), drop_all|].
    rewrite <- app_assoc, take_drop in *. eexists _, _. split; [exact Hr'|]. split; [done|].
    intros [Hroom|?]%Exists_cons; [|by apply Henough]. exfalso. apply encoding_bound in He1.
    rewrite !length_app, length_take in *. lia.
Qed.

(** The state of a new context. *)
Definition stream_new (dir : isrcry_direction) : lzf_stream_ctx :=
  set_state (mk_sctx (block_ready slice dir) (crc32 0 []) false WANT_HEADER_1 0 0 slab_in 0 0 slab_out 0 0) WANT_HEADER_1 0.

Lemma stream_init dir :
  isrcry_compress_init lzfs (compress_ctx_new lzfs) dir 0 = Some (ISRCRY_OK, mk_zctx dir 0 (Some (stream_new dir))).
Proof. reflexivity. Qed.

Lemma coding_session_run dir calls rooms input :
  coding_session lzfs dir calls rooms input =
  ('(ret, cctx, rest, out) ← process_all lzfs calls (mk_zctx dir 0 (Some (stream_new dir))) input [];
   if decide (ret <> ISRCRY_OK) then Some (ret, out) else final_all lzfs rooms cctx rest out).
Proof. unfold coding_session. by rewrite stream_init. Qed.

Lemma encoding_new :
  length slab_in = BUFLEN -> length slab_out = BUFLEN -> encoding slice crc32 [] [] (stream_new ISRCRY_ENCODE).
Proof.
  intros Hi Ho. pose proof max_block_eq as Hm. split.
  - exact eq_refl.
  - exact eq_refl.
  - exact Hi.
  - cbn [in_offset stream_new set_state set_decode]. lia.
  - split; [exact Ho|]. exact (conj (Nat.le_0_l _) (or_introl (conj eq_refl eq_refl))).
  - constructor.
  - intros [=].
  - exists [], []. split; [exists []; split; [constructor|reflexivity]|]. split; reflexivity.
Qed.

Lemma encode_session_spec calls rooms input :
  length slab_in = BUFLEN -> length slab_out = BUFLEN -> bytes input ->
  exists ret e, coding_session lzfs ISRCRY_ENCODE calls rooms input = Some (ret, e) /\
    (ret = ISRCRY_OK /\ stream input e \/ ret = ISRCRY_BUFFER_OVERFLOW) /\
    (Exists (fun room => 9 * length input + 7 <= room)%nat rooms -> ret = ISRCRY_OK).
Proof.
  intros Hi Ho Hb. rewrite coding_session_run.
  destruct (process_all_encoding calls [] (stream_new ISRCRY_ENCODE) input [] Hb) as (s1 & fed & rest & out & Hr & He & Heq & Hb' & Hw);
    [exact (encoding_new Hi Ho)|exact eq_refl|].
  rewrite Hr. cbn [mbind option_bind]. rewrite decide_False by (intros Hn; by apply Hn). cbn [app] in Heq. rewrite <- Heq.
  apply final_all_encoding; [exact Hb'|exact He|intros Ht; congruence].
Qed.
End sessions.

(** * The decoder *)

Section decoder.
Context (slice : gmap Z Z) (crc32 : Z -> list Z -> Z) (junk : Z).
Context (Hcrc : crc_ok crc32).

(** The rest of a stream, [e], from a block boundary where the CRC is [c]; it stores [d]. *)
Definition tail (c : Z) (d e : list Z) : Prop :=
  exists ds c' b, blocks crc32 c ds c' b /\ concat ds = d /\ e = b ++ trailer c' /\ is_u 32 c.

Lemma tail_inv c todo e :
  tail c todo e -> is_u 32 c /\
  (todo = [] /\ e = trailer c \/
   exists d b todo' e', fits d /\ block d b /\ todo = d ++ todo' /\ e = b ++ e' /\ tail (crc32 c d) todo' e').
Proof.
  intros (ds & c' & b & Hb & <- & -> & Hc). split; [done|]. destruct Hb as [|d ds c1 b e Hf Hd Hb]; [by left|right].
  exists d, b, (concat ds), (e ++ trailer c1). split_and!; [done..|by rewrite <- app_assoc|]. exists ds, c1, e. split_and!; [done..|apply Hcrc].
Qed.

(** The shape of a stream by its third byte. *)
Lemma tail_cases c todo e :
  tail c todo e -> is_u 32 c /\
  (todo = [] /\ e = [0x5a; 0x56; 0x30] ++ STORE32H c \/
   exists d todo' e', fits d /\ todo = d ++ todo' /\ tail (crc32 c d) todo' e' /\
     (e = [0x5a; 0x56; 0] ++ STORE16H (Z.of_nat (length d)) ++ d ++ e' \/
      exists z, lzf_items [] z d /\ z <> [] /\ (length z <= MAX_BLOCK)%nat /\
        e = [0x5a; 0x56; 1] ++ STORE16H (Z.of_nat (length z)) ++ STORE16H (Z.of_nat (length d)) ++ z ++ e')).
Proof.
  intros (Hc & [?|(d & b & todo' & e' & Hf & Hb & Ht & -> & Htl)])%tail_inv; split; [done|by left|done|right].
  exists d, todo', e'. split_and!; [done..|]. destruct Hb as [|z Hi Hz Hl]; [left|right; exists z; split_and!; try done];
    by rewrite <- !app_assoc.
Qed.

(** What the decoder waits for: the input to come, not counting what was decoded, is [rest], and the
    data to come [todo]. *)
Inductive expects (s : lzf_stream_ctx) (todo rest : list Z) : Prop :=
| expects_header_1 :
    decode_state s = WANT_HEADER_1 -> in_count s = 1%nat -> tail (crc s) todo rest -> expects s todo rest
| expects_end :
    decode_state s = WANT_HEADER_1 -> in_count s = 1%nat -> todo = [] -> rest = [] -> expects s todo rest
| expects_header_2 :
    decode_state s = WANT_HEADER_2 -> in_count s = 2%nat -> tail (crc s) todo ([0x5a] ++ rest) -> expects s todo rest
| expects_header_3 :
    decode_state s = WANT_HEADER_3 -> in_count s = (if decide (block_type s = 0)%Z then 2 else 4)%nat ->
    tail (crc s) todo ([0x5a; 0x56; block_type s] ++ rest) -> expects s todo rest
| expects_data d z todo' rest' :
    decode_state s = WANT_DATA -> fits d -> output_size s = length d -> in_count s = length z ->
    (0 < length z <= MAX_BLOCK)%nat -> block_type s = 0 /\ z = d \/ block_type s = 1 /\ lzf_items [] z d ->
    todo = d ++ todo' -> rest = z ++ rest' -> tail (crc32 (crc s) d) todo' rest' -> expects s todo rest.

Lemma expects_count s todo rest : expects s todo rest -> (0 < in_count s <= BUFLEN)%nat.
Proof.
  pose proof max_block_eq. unfold BUFLEN, MAX_HEADER. destruct 1 as [? ->|? ->|? ->|? ->|? ? ? ? ? ? ? ->]; try case_decide; lia.
Qed.

Lemma expects_nil s todo : expects s todo [] -> decode_state s = WANT_HEADER_1 /\ todo = [].
Proof.
  destruct 1 as [Hs _ (_ & [[-> _]|(d & todo' & e' & _ & _ & _ & [?|(z & _ & _ & _ & ?)])])%tail_cases|Hs _ -> _
    |Hs _ (_ & [[_ ?]|(d & todo' & e' & _ & _ & _ & [?|(z & _ & _ & _ & ?)])])%tail_cases
    |Hs _ (_ & [[_ ?]|(d & todo' & e' & _ & _ & _ & [?|(z & _ & _ & _ & ?)])])%tail_cases
    |d z todo' rest' Hs _ _ _ [Hz _] _ _ Hr _]; try done.
  apply (f_equal length) in Hr. rewrite length_app in Hr. simpl in Hr. lia.
Qed.

Lemma tail_header c todo e : tail c todo e -> exists k e', e = [0x5a; 0x56; k] ++ e' /\ (k = 0 \/ k = 1 \/ k = 0x30).
Proof.
  intros (_ & [[_ ->]|(d & todo' & e' & _ & _ & _ & [->|(z & _ & _ & _ & ->)])])%tail_cases; eexists _, _; (split; [done|]); auto.
Qed.

(** Only what the decoder expects has changed. *)
Definition same_rest (s s' : lzf_stream_ctx) : Prop :=
  block_ctx s' = block_ctx s /\ s_in s' = s_in s /\ in_offset s' = in_offset s /\ same_out s s'.

Lemma same_rest_refl s : same_rest s s.
Proof. done. Qed.

Lemma header_1_turn s todo rest mem :
  decode_state s = WANT_HEADER_1 -> expects s todo rest -> rest <> [] ->
  (in_count s <= length rest)%nat /\ (take (in_count s) mem = take (in_count s) rest ->
   expects (header_decode_1 s mem) todo (drop (in_count s) rest) /\ same_rest s (header_decode_1 s mem)).
Proof.
  intros Hs [_ Hc Ht|_ _ _ ?|Hs' _ _|Hs' _ _|? ? ? ? Hs' _ _ _ _ _ _ _ _] Hne; try congruence.
  destruct (tail_header _ _ _ Ht) as (k & e' & -> & _). rewrite Hc. split; [simpl; lia|].
  destruct mem as [|b mem]; [done|]. intros [= ->].
  split; [|done]. by apply expects_header_2.
Qed.

Lemma header_2_turn s todo rest mem :
  decode_state s = WANT_HEADER_2 -> expects s todo rest ->
  (in_count s <= length rest)%nat /\ (take (in_count s) mem = take (in_count s) rest ->
   expects (header_decode_2 s mem) todo (drop (in_count s) rest) /\ same_rest s (header_decode_2 s mem)).
Proof.
  intros Hs [Hs' _ _|Hs' _ _ _|_ Hc Ht|Hs' _ _|? ? ? ? Hs' _ _ _ _ _ _ _ _]; try congruence.
  destruct (tail_header _ _ _ Ht) as (k & e' & He & Hk). simplify_eq/=. rewrite Hc. split; [simpl; lia|].
  destruct mem as [|b [|b' mem]]; [done..|]. intros [= -> ->].
  destruct Hk as [->|[->| ->]]; (split; [|done]); by apply expects_header_3.
Qed.

Lemma size_u16 (l : list Z) : (length l <= MAX_BLOCK)%nat -> is_u 16 (Z.of_nat (length l)).
Proof. pose proof max_block_eq as Hm. unfold is_u. change (2 ^ 16) with 65536. lia. Qed.

Lemma LOAD16H_size (l r1 r2 : list Z) : (length l <= MAX_BLOCK)%nat -> Z.to_nat (LOAD16H ((STORE16H (Z.of_nat (length l)) ++ r1) ++ r2) 0) = length l.
Proof. intros Hl. rewrite <- app_assoc, LOAD16H_STORE16H by by apply size_u16. lia. Qed.

Lemma header_3_turn s todo rest mem :
  decode_state s = WANT_HEADER_3 -> expects s todo rest ->
  (in_count s <= length rest)%nat /\ (take (in_count s) mem = take (in_count s) rest -> exists s',
   header_decode_3 s mem = Some s' /\ expects s' todo (drop (in_count s) rest) /\ same_rest s s').
Proof.
  intros Hs [Hs' _ _|Hs' _ _ _|Hs' _ _|_ Hc Ht|? ? ? ? Hs' _ _ _ _ _ _ _ _]; try congruence. rewrite Hc. clear Hs Hc.
  assert (forall n chunk, take n mem = chunk -> mem = chunk ++ drop n mem) as Hmem by (intros n chunk <-; by rewrite take_drop).
  unfold header_decode_3.
  apply tail_cases in Ht as (Hu & [[Htodo He]|(d & todo' & e' & Hf & Htodo & Ht & [He|(z & Hi & Hz & Hl & He)])]);
    apply app_inj_1 in He as [[= Hbt] ->]; try exact eq_refl; rewrite Hbt.
  - rewrite !(decide_False (P:=48 = 0)), (decide_False (P:=48 = 1)), (decide_True (P:=48 = 48)) by done.
    split; [simpl; lia|]. intros Htake%Hmem. rewrite Htake. eexists. split; [done|].
    change (take 4 (STORE32H (crc s))) with (STORE32H (crc s)).
    replace (LOAD32H (STORE32H (crc s) ++ drop 4 mem) 0) with (crc s) by (symmetry; by apply (LOAD32H_STORE32H (crc s))).
    rewrite decide_False by (intros Hn; by apply Hn). split; [|done]. by apply expects_end.
  - rewrite !(decide_True (P:=0 = 0)) by done. split; [rewrite length_app, length_STORE16H; lia|]. intros Htake%Hmem.
    rewrite Htake. eexists. split; [done|]. change (take 2 (STORE16H ?x ++ ?r)) with (STORE16H x ++ take 0 r).
    rewrite LOAD16H_size by apply Hf. split; [|done]. eapply (expects_data _ _ _ d d todo' e'); try done; [apply Hf|by left].
  - rewrite !(decide_False (P:=1 = 0)), (decide_True (P:=1 = 1)) by done.
    split; [rewrite !length_app, !length_STORE16H; lia|]. intros Htake%Hmem.
    rewrite Htake. eexists. split; [done|].
    change (take 4 (STORE16H ?x ++ STORE16H ?y ++ ?r)) with (STORE16H x ++ STORE16H y ++ take 0 r).
    rewrite LOAD16H_size by done. change (LOAD16H ((STORE16H ?x ++ ?m) ++ ?r) 2) with (LOAD16H (m ++ r) 0).
    rewrite LOAD16H_size by apply Hf. split; [|done]. eapply (expects_data _ _ _ d z todo' e'); try done; [|by right].
    assert (length z <> 0)%nat by (by destruct z). lia.
Qed.

Lemma data_decode_spec s d z mem :
  block_ctx s = block_ready slice ISRCRY_DECODE -> fits d -> output_size s = length d -> in_count s = length z ->
  block_type s = 0 /\ z = d \/ block_type s = 1 /\ lzf_items [] z d -> z <> [] -> take (length z) mem = z ->
  exists s', data_decode slice crc32 junk ISRCRY_DECODE 0 s mem = Some (s', d) /\ same_rest s s' /\
    decode_state s' = WANT_HEADER_1 /\ in_count s' = 1%nat /\ crc s' = crc32 (crc s) d.
Proof.
  intros Hctx Hf Ho Hc Hz Hne Htake. unfold data_decode. rewrite Ho, Hc. destruct Hz as [[Hbt ->]|[Hbt Hi]]; rewrite Hbt.
  - rewrite !(decide_True (P:=0 = 0)), decide_True by done. rewrite Htake. by eexists.
  - rewrite (decide_False (P:=1 = 0)), (decide_True (P:=1 = 1)), Hctx by done.
    assert (lzf_decompress mem (length z) (Z.of_nat (length d)) = Some (inl d)) as Hd.
    { rewrite <- (take_drop (length z) mem), Htake. apply lzf_decompress_extra; [|by apply lzf_decompress_items].
      eapply lzf_items_bytes; [done|apply Hf]. }
    unfold isrcry_compress_final, run_ctx, isrcry_compress_init.
    cbn [zdirection zctx zlevel block_ready decompress_final z_alloc _isrcry_lzf_desc lzf_alloc mbind option_bind].
    unfold lzf_do_decompress. rewrite Hd. cbn [mbind option_bind]. rewrite decide_False by (intros Hn; by apply Hn).
    rewrite decide_False by (cbn [in_count output_size set_block_ctx]; rewrite Ho, Hc; intros [Hx|[Hx|Hx]]; by apply Hx).
    eexists. split; [done|]. split; [|done]. split; [by rewrite Hctx|done].
Qed.

Lemma data_turn s todo rest mem out room :
  decode_state s = WANT_DATA -> expects s todo rest -> block_ctx s = block_ready slice ISRCRY_DECODE ->
  out_wf s -> pending s = [] ->
  (in_count s <= length rest)%nat /\ (take (in_count s) mem = take (in_count s) rest ->
   exists dest s1 room' s2 data s3 out' todo', get_output_buffer s (output_size s) room = (dest, s1, room') /\
     data_decode slice crc32 junk ISRCRY_DECODE 0 s1 mem = Some (s2, data) /\
     put_output s2 dest data out = Some (s3, out') /\
     todo = data ++ todo' /\ expects s3 todo' (drop (in_count s) rest) /\ block_ctx s3 = block_ctx s /\
     s_in s3 = s_in s /\ in_offset s3 = in_offset s /\ out_wf s3 /\ out' ++ pending s3 = out ++ data /\
     (length out' + room' = length out + room)%nat /\ settled room' s3).
Proof.
  intros Hs [Hs' _ _|Hs' _ _ _|Hs' _ _|Hs' _ _|d z todo' rest' _ Hf Ho Hc Hz Hty -> -> Htl] Hctx Hwf Hp; try congruence.
  rewrite Hc. split; [rewrite length_app; lia|]. rewrite take_app_length, drop_app_length. intros Htake.
  pose proof Hf as [[Hpos Hmax] _]. rewrite Ho.
  destruct (put_output_spec s (length d) room Hwf Hp) as (dest & s1 & room' & -> & (b1 & o1 & c1 & ->) & Hput);
    [unfold BUFLEN; lia|].
  destruct (data_decode_spec (set_out s b1 o1 c1) d z mem) as (s2 & Hr & (Hctx2 & Hin2 & Hoff2 & Hout2) & Hst2 & Hc2 & Hcrc2);
    [done..|intros ->; simpl in Hz; lia|done|].
  destruct (Hput s2 d out) as (s3 & out' & Hr3 & (b3 & o3 & c3 & ->) & Hwf3 & Hout' & Hl3 & Hset); [done..|intros ->; simpl in *; lia|].
  eexists _, _, _, s2, d, _, out', todo'. split; [done|]. split; [exact Hr|]. split; [exact Hr3|]. split; [done|].
  split; [apply expects_header_1; [exact Hst2|exact Hc2|]; cbn [crc set_out] in *; by rewrite Hcrc2|].
  by split_and!.
Qed.

Lemma expects_same s s' todo rest :
  decode_state s' = decode_state s -> in_count s' = in_count s -> block_type s' = block_type s ->
  output_size s' = output_size s -> crc s' = crc s -> expects s todo rest -> expects s' todo rest.
Proof.
  intros Hs Hc Hb Ho Hcr [? ? ?|? ? ? ?|? ? ?|? ? ?|d z todo' rest' ? ? ? ? ? ? ? ? ?].
  - apply expects_header_1; congruence.
  - apply expects_end; congruence.
  - apply expects_header_2; congruence.
  - apply expects_header_3; rewrite ?Hs, ?Hc, ?Hb, ?Hcr; done.
  - apply (expects_data _ _ _ d z todo' rest'); rewrite ?Hs, ?Hc, ?Hb, ?Ho, ?Hcr; done.
Qed.

(** The decoder of a stream of [total] has given [out] and is yet to be given [input]. *)
Record decoding (total out input : list Z) (s : lzf_stream_ctx) : Prop := mk_decoding {
  dg_ctx : block_ctx s = block_ready slice ISRCRY_DECODE;
  dg_in : length (s_in s) = BUFLEN;
  dg_offset : (in_offset s < in_count s)%nat;
  dg_out : out_wf s;
  dg_expects : exists todo, expects s todo (kept_in s ++ input) /\ out ++ pending s ++ todo = total
}.

(** One turn of the loop with all the input it wants, [mem]. *)
Lemma decode_turn total prev out s input room mem :
  block_ctx s = block_ready slice ISRCRY_DECODE -> length (s_in s) = BUFLEN -> in_offset s = 0%nat -> out_wf s ->
  (decode_state s = WANT_DATA -> pending s = []) -> settled room s -> input <> [] ->
  (exists todo, expects s todo input /\ (prev ++ out) ++ pending s ++ todo = total) ->
  take (in_count s) mem = take (in_count s) input ->
  exists s' out' room', (length out' + room' = length out + room)%nat /\ settled room' s' /\
    decoding total (prev ++ out') (drop (in_count s) input) s' /\
    forall fuel inp n, decode_loop slice crc32 junk ISRCRY_DECODE 0 fuel s' inp n out' room' =
      match decode_state s with
      | WANT_HEADER_1 => decode_loop slice crc32 junk ISRCRY_DECODE 0 fuel (header_decode_1 s mem) inp n out room
      | WANT_HEADER_2 => decode_loop slice crc32 junk ISRCRY_DECODE 0 fuel (header_decode_2 s mem) inp n out room
      | WANT_HEADER_3 =>
          s ← header_decode_3 s mem; decode_loop slice crc32 junk ISRCRY_DECODE 0 fuel s inp n out room
      | WANT_DATA =>
          let '(dest, s, room) := get_output_buffer s (output_size s) room in
          '(s, data) ← data_decode slice crc32 junk ISRCRY_DECODE 0 s mem;
          '(s, out) ← put_output s dest data out;
          decode_loop slice crc32 junk ISRCRY_DECODE 0 fuel s inp n out room
      | _ => None
      end.
Proof.
  intros Hctx Hin Hoff Hwf Hp Hset Hne (todo & He & Htot) Htake.
  assert (forall s', same_rest s s' -> expects s' todo (drop (in_count s) input) ->
    (length out + room = length out + room)%nat /\ settled room s' /\ decoding total (prev ++ out) (drop (in_count s) input) s') as Hsame.
  { intros s' (Hctx' & Hin' & Hoff' & Hout') He'. pose proof (same_out_pending _ _ Hout') as Hp'. split; [done|].
    split; [by unfold settled; rewrite Hp'|]. split; [by rewrite Hctx'|by rewrite Hin'| |by eapply same_out_wf|].
    - rewrite Hoff', Hoff. apply expects_count in He' as [He' _]. exact He'.
    - exists todo. unfold kept_in. rewrite Hoff', Hoff, take_0, Hp'. by split. }
  destruct (decode_state s) eqn:Hs.
  - destruct (header_1_turn s todo input mem Hs He Hne) as [_ Ht]. destruct (Ht Htake) as [He' Hr].
    exists (header_decode_1 s mem), out, room. destruct (Hsame _ Hr He') as (? & ? & ?). by split_and!.
  - destruct (header_2_turn s todo input mem Hs He) as [_ Ht]. destruct (Ht Htake) as [He' Hr].
    exists (header_decode_2 s mem), out, room. destruct (Hsame _ Hr He') as (? & ? & ?). by split_and!.
  - destruct (header_3_turn s todo input mem Hs He) as [_ Ht]. destruct (Ht Htake) as (s' & Heq & He' & Hr).
    eexists s', out, room. rewrite Heq. destruct (Hsame _ Hr He') as (? & ? & ?). by split_and!.
  - destruct (data_turn s todo input mem out room Hs He Hctx Hwf (Hp eq_refl)) as [_ Ht].
    destruct (Ht Htake) as (dest & s1 & room' & s2 & data & s3 & out' & todo' & Heq1 & Heq2 & Heq3 & -> & He3 & Hctx3 & Hin3 & Hoff3 & Hwf3 & Hout3 & Hl3 & Hset3).
    exists s3, out', room'. split; [done|]. split; [done|]. split.
    + split; [by rewrite Hctx3|by rewrite Hin3|rewrite Hoff3, Hoff; apply expects_count in He3 as [He3 _]; exact He3|done|].
      exists todo'. unfold kept_in. rewrite Hoff3, Hoff, take_0. split; [done|].
      rewrite <- Htot, (Hp eq_refl), <- !app_assoc. f_equal. cbn [app]. by rewrite !app_assoc, Hout3.
    + intros fuel inp n. rewrite Heq1. cbv beta iota. rewrite Heq2. cbn [mbind option_bind]. by rewrite Heq3.
  - destruct He; congruence.
  - destruct He; congruence.
Qed.

Lemma decode_loop_spec fuel total prev s inp n out room :
  (n < fuel)%nat -> (n <= length inp)%nat -> decoding total (prev ++ out) inp s -> settled room s ->
  exists s' n' out' room', decode_loop slice crc32 junk ISRCRY_DECODE 0 fuel s inp n out room = Some (ISRCRY_OK, s', n', out') /\
    (n' <= n)%nat /\ decoding total (prev ++ out') (drop (n - n') inp) s' /\
    (length out' + room' = length out + room)%nat /\ settled room' s' /\ (n' = 0%nat \/ pending s' <> []).
Proof.
  revert s inp n out room. induction fuel as [|fuel IH]; intros s inp n out room Hfuel Hn Hd Hset; [lia|].
  cbn [decode_loop]. pose proof Hd as [Hctx Hin Hoff Hwf (todo & He & Htot)]. rewrite buffered_pending by done.
  case_decide as Hstop.
  { eexists s, n, out, room. rewrite Nat.sub_diag. split_and!; try done. right.
    destruct Hstop as [_ Hb]. by apply bool_decide_eq_true in Hb. }
  assert (in_wf s) as Hiw by (pose proof (expects_count _ _ _ He); split; [done|lia]).
  pose proof (length_kept_in s Hiw) as Hk. pose proof (consume_input_spec s inp n Hiw Hn) as Hc. cbn zeta in Hc.
  set (need := (in_count s - in_offset s)%nat) in Hc. case_decide as Hle.
  - destruct Hc as (mem & s1 & -> & Hmem & buf & -> & Hbuf). set (s1 := set_in s buf 0).
    assert (drop (in_count s) (kept_in s ++ inp) = drop need inp) as Hdrop.
    { rewrite drop_app, drop_ge by lia. by rewrite Hk. }
    destruct (decode_turn total prev out s1 (kept_in s ++ inp) room mem) as (s2 & out2 & room2 & Hl2 & Hset2 & Hd2 & Hrun); try done.
    + intros Hs. destruct (pending s1) eqn:Hp; [done|]. exfalso. apply Hstop. split; [exact Hs|].
      apply bool_decide_eq_true. change (pending s) with (pending s1). by rewrite Hp.
    + intros Hnil. apply app_eq_nil in Hnil as [_ ->]. simpl in Hn. unfold need in Hle. lia.
    + exists todo. split; [|done]. by eapply expects_same; [..|exact He].
    + change (in_count s1) with (in_count s). rewrite Hmem, take_app, Hk. by rewrite (take_ge (kept_in s)) by lia.
    + change (in_count s1) with (in_count s) in Hd2. rewrite Hdrop in Hd2.
      destruct (IH s2 (drop need inp) (n - need)%nat out2 room2) as (s3 & n3 & out3 & room3 & Hr & Hn3 & Hd3 & Hl3 & Hset3 & Hend);
        [unfold need; lia|rewrite length_drop; lia|done..|].
      exists s3, n3, out3, room3. change (decode_state s) with (decode_state s1). rewrite drop_drop in Hd3.
      replace (need + (n - need - n3))%nat with (n - n3)%nat in Hd3 by lia. rewrite Hrun in Hr.
      split; [|split_and!; [lia|done|lia|done|done]].
      destruct (decode_state s1) eqn:Hs; try exact Hr; discriminate Hr.
  - destruct Hc as (s1 & -> & Hk1 & [Hin1 Hoff1] & buf & off & ->). eexists _, _, _, _. split; [done|]. split; [lia|].
    rewrite Nat.sub_0_r. split; [|by split_and!; [..|left]]. split; [done|done|apply Hoff1|done|].
    exists todo. split; [|done]. rewrite Hk1, <- app_assoc, take_drop. by eapply expects_same; [..|exact He].
Qed.

Lemma decompress_process_spec total prev s mem inlen outlen :
  (inlen <= length mem)%nat -> decoding total prev mem s ->
  exists s' n out, lzf_stream_decompress_process slice crc32 junk ISRCRY_DECODE 0 s mem inlen outlen = Some (ISRCRY_OK, s', n, out) /\
    (n <= inlen)%nat /\ decoding total (prev ++ out) (drop n mem) s' /\ (length out <= outlen)%nat /\
    settled (outlen - length out) s' /\ (n = inlen \/ pending s' <> []).
Proof.
  intros Hn Hd. unfold lzf_stream_decompress_process.
  destruct (produce_output_spec s [] outlen (dg_out _ _ _ _ Hd)) as (s1 & out1 & room1 & -> & Ho & Hl & Hwf & (b & o & c & ->) & Hs).
  destruct (decode_loop_spec (2 * inlen + 4) total prev (set_out s b o c) mem inlen out1 room1) as
    (s2 & n2 & out2 & room2 & -> & Hn2 & Hd2 & Hl2 & Hs2 & Hend); [lia|done| |done|].
  - destruct Hd as [? ? ? ? (todo & He & Ht)]. split; [done..|]. exists todo. split; [by eapply expects_same; [..|exact He]|].
    rewrite <- Ht, <- !app_assoc. f_equal. by rewrite app_assoc, Ho, <- app_assoc.
  - cbn [mbind option_bind]. eexists _, _, _. split; [done|]. cbn [length] in Hl. split; [lia|]. split; [done|]. split; [lia|].
    split; [by replace (outlen - length out2)%nat with room2 by lia|]. destruct Hend as [->|?]; [left; lia|by right].
Qed.

Lemma expects_length s todo rest : expects s todo rest -> rest = [] \/ (in_count s <= length rest)%nat.
Proof.
  intros He. destruct (decide (rest = [])) as [?|Hne]; [by left|right]. destruct (decode_state s) eqn:Hs.
  - by apply (header_1_turn s todo rest []).
  - by apply (header_2_turn s todo rest []).
  - by apply (header_3_turn s todo rest []).
  - destruct He as [| | | |d z todo' rest' _ _ _ -> _ _ _ -> _]; try congruence. rewrite length_app. lia.
  - destruct He; congruence.
  - destruct He; congruence.
Qed.

(** A final call that is shown the rest of the stream either ends with all the data or has filled its room. *)
Lemma decompress_final_spec total prev s mem outlen :
  decoding total prev mem s ->
  exists ret s' n out, lzf_stream_decompress_final slice crc32 junk ISRCRY_DECODE 0 s mem (length mem) outlen = Some (ret, s', n, out) /\
    decoding total (prev ++ out) (drop n mem) s' /\ (length out <= outlen)%nat /\
    (ret = ISRCRY_OK /\ prev ++ out = total \/
     ret = ISRCRY_BUFFER_OVERFLOW /\ (outlen - length out < length (pending s'))%nat).
Proof.
  intros Hd. unfold lzf_stream_decompress_final.
  destruct (decompress_process_spec total prev s mem (length mem) outlen (le_n _) Hd) as (s1 & n1 & out1 & -> & Hn1 & Hd1 & Hl1 & Hs1 & Hend).
  cbn [mbind option_bind]. rewrite decide_False by (intros Hn; by apply Hn).
  assert (n1 = length mem -> input_data_pending s1 = false /\ (pending s1 = [] -> prev ++ out1 = total)) as Hall.
  { intros ->. rewrite drop_all in Hd1. destruct Hd1 as [_ Hin Hoff _ (todo & He & Ht)]. rewrite app_nil_r in He.
    assert (length (kept_in s1) = in_offset s1) as Hk.
    { apply length_kept_in. split; [done|]. apply expects_count in He as [_ He]. by split. }
    destruct (expects_length _ _ _ He) as [Hnil|?]; [|lia]. rewrite Hnil in Hk. rewrite Hnil in He.
    apply expects_nil in He as [Hst ->]. unfold input_data_pending. rewrite Hst. split.
    - apply bool_decide_eq_false. intros Hz. by apply Hz.
    - intros Hp. by rewrite Hp, !app_nil_r in Ht. }
  rewrite buffered_pending by apply Hd1. destruct (decide (n1 = length mem /\ input_data_pending s1 = true)) as [[Hn Hi]|_].
  { exfalso. destruct (Hall Hn) as [Hf _]. congruence. }
  case_bool_decide as Hp; (eexists _, s1, n1, out1; split; [done|]; split; [done|]; split; [done|]).
  - right. destruct Hs1 as [?|?]; [by destruct Hp|done].
  - left. assert (pending s1 = []) as Hnil by (destruct (pending s1); [done|by destruct Hp]).
    split; [done|]. destruct Hend as [Hn|?]; [|done]. by apply Hall.
Qed.
End decoder.

Section decoder_session.
Context (slice : gmap Z Z) (crc32 : Z -> list Z -> Z) (slab_in slab_out : list Z) (junk : Z).
Context (Hcrc : crc_ok crc32).

Local Abbreviation lzfs := (_isrcry_lzf_stream_desc slice crc32 slab_in slab_out junk).
Local Abbreviation decoding := (decoding slice crc32).

Lemma process_all_decoding total calls s input out :
  decoding total out input s ->
  exists s' input' out', process_all lzfs calls (mk_zctx ISRCRY_DECODE 0 (Some s)) input out =
      Some (ISRCRY_OK, mk_zctx ISRCRY_DECODE 0 (Some s'), input', out') /\ decoding total out' input' s'.
Proof.
  revert s input out. induction calls as [|[k room] calls IH]; intros s input out Hd; simpl.
  { by eexists _, _, _. }
  destruct (decompress_process_spec slice crc32 junk Hcrc total out s input (k `min` length input) room) as
    (s1 & n1 & out1 & Hr & _ & Hd1 & _); [lia|done|].
  unfold isrcry_compress_process, run_ctx. cbn [can_stream zdirection _isrcry_lzf_stream_desc decompress_process mbind option_bind zctx zlevel].
  rewrite Hr. cbn [mbind option_bind]. rewrite decide_False by (intros Hn; by apply Hn). by apply IH.
Qed.

Lemma final_all_decoding total rooms s input out :
  decoding total out input s ->
  exists ret d, final_all lzfs rooms (mk_zctx ISRCRY_DECODE 0 (Some s)) input out = Some (ret, d) /\
    (ret = ISRCRY_OK /\ d = total \/ ret = ISRCRY_BUFFER_OVERFLOW /\ d `prefix_of` total) /\
    (Exists (fun room => length total <= room)%nat rooms -> ret = ISRCRY_OK).
Proof.
  revert s input out. induction rooms as [|room rooms IH]; intros s input out Hd; simpl.
  { eexists _, _. split; [done|]. destruct Hd as [_ _ _ _ (todo & _ & <-)].
    split; [right; split; [done|by apply prefix_app_r]|]. by intros ?%Exists_nil. }
  destruct (decompress_final_spec slice crc32 junk Hcrc total out s input room Hd) as (ret & s1 & n1 & out1 & Hr & Hd1 & Hl1 & Hout).
  unfold isrcry_compress_final, run_ctx. cbn [zdirection _isrcry_lzf_stream_desc decompress_final mbind option_bind zctx zlevel].
  rewrite Hr. cbn [mbind option_bind]. destruct Hout as [[-> Ht]|[-> Hlt]].
  - rewrite decide_False by done. eexists _, _. split; [done|]. split; [by left|done].
  - rewrite decide_True by done. destruct (IH s1 (drop n1 input) (out ++ out1) Hd1) as (ret & d & Hr' & Hok & Henough).
    eexists _, _. split; [exact Hr'|]. split; [exact Hok|]. intros [Hroom|?]%Exists_cons; [|by apply Henough].
    exfalso. destruct Hd1 as [_ _ _ _ (todo & _ & <-)]. rewrite !length_app in Hroom. lia.
Qed.

Lemma decoding_new d e :
  length slab_in = BUFLEN -> length slab_out = BUFLEN -> stream crc32 d e ->
  decoding d [] e (stream_new slice crc32 slab_in slab_out ISRCRY_DECODE).
Proof.
  intros Hi Ho (c & b & (ds & Hb & Hd) & He). split.
  - exact eq_refl.
  - exact Hi.
  - exact (Nat.lt_0_1).
  - split; [exact Ho|]. exact (conj (Nat.le_0_l _) (or_introl (conj eq_refl eq_refl))).
  - exists d. split; [|reflexivity]. apply expects_header_1; [reflexivity..|].
    exists ds, c, b. split; [exact Hb|]. split; [exact Hd|]. split; [exact He|apply Hcrc].
Qed.

Lemma decode_session_spec calls rooms d e :
  length slab_in = BUFLEN -> length slab_out = BUFLEN -> stream crc32 d e ->
  exists ret d', coding_session lzfs ISRCRY_DECODE calls rooms e = Some (ret, d') /\
    (ret = ISRCRY_OK /\ d' = d \/ ret = ISRCRY_BUFFER_OVERFLOW /\ d' `prefix_of` d) /\
    (Exists (fun room => length d <= room)%nat rooms -> ret = ISRCRY_OK).
Proof.
  intros Hi Ho He. rewrite coding_session_run.
  destruct (process_all_decoding d calls _ e [] (decoding_new d e Hi Ho He)) as (s1 & rest & out & Hr & Hd).
  rewrite Hr. cbn [mbind option_bind]. rewrite decide_False by (intros Hn; by apply Hn).
  by apply final_all_decoding.
Qed.
End decoder_session.

(** * Properties *)

(** C35: what the streaming LZF encoder makes of any input, the streaming decoder turns back, however the
    input and the room for output of both are cut into pieces; neither ever faults or runs into its
    assertions, a call that cannot end asks for more room, and a final call with room for the
    worst case (for the decoder: for the data) ends the session. *)
Theorem lzf_stream_roundtrip slice crc32 slab_in slab_out junk calls rooms input :
  crc_ok crc32 -> length slab_in = BUFLEN -> length slab_out = BUFLEN -> bytes input ->
  exists ret e, coding_session (_isrcry_lzf_stream_desc slice crc32 slab_in slab_out junk) ISRCRY_ENCODE calls rooms input =
      Some (ret, e) /\
    (ret = ISRCRY_OK \/ ret = ISRCRY_BUFFER_OVERFLOW) /\
    (Exists (fun room => 9 * length input + 7 <= room)%nat rooms -> ret = ISRCRY_OK) /\
    (ret = ISRCRY_OK -> forall calls' rooms', exists ret' d,
       coding_session (_isrcry_lzf_stream_desc slice crc32 slab_in slab_out junk) ISRCRY_DECODE calls' rooms' e = Some (ret', d) /\
       (ret' = ISRCRY_OK /\ d = input \/ ret' = ISRCRY_BUFFER_OVERFLOW /\ d `prefix_of` input) /\
       (Exists (fun room => length input <= room)%nat rooms' -> ret' = ISRCRY_OK)).
Proof.
  intros Hcrc Hi Ho Hb.
  destruct (encode_session_spec slice crc32 slab_in slab_out junk calls rooms input Hi Ho Hb) as (ret & e & Hr & Hout & Henough).
  exists ret, e. split; [exact Hr|]. split; [destruct Hout as [[? _]|?]; [by left|by right]|]. split; [exact Henough|].
  intros Hok calls' rooms'. destruct Hout as [[_ He]|Hov]; [|congruence].
  by apply decode_session_spec.
Qed.

Lemma lzf_stream_roundtrip_witness :
  exists e, coding_session (_isrcry_lzf_stream_desc empty (fun c d => u32 (foldr Z.add c d)) (replicate BUFLEN 0) (replicate BUFLEN 0) 0)
      ISRCRY_ENCODE [(2, 1); (5, 0)]%nat [0; 3; 60]%nat [1; 2; 3] = Some (ISRCRY_OK, e) /\
    coding_session (_isrcry_lzf_stream_desc empty (fun c d => u32 (foldr Z.add c d)) (replicate BUFLEN 0) (replicate BUFLEN 0) 0)
      ISRCRY_DECODE [(4, 0); (3, 1)]%nat [1; 3]%nat e = Some (ISRCRY_OK, [1; 2; 3]).
Proof.
  destruct (lzf_stream_roundtrip empty (fun c d => u32 (foldr Z.add c d)) (replicate BUFLEN 0) (replicate BUFLEN 0) 0
    [(2, 1); (5, 0)]%nat [0; 3; 60]%nat [1; 2; 3]) as (ret & e & Hr & _ & Hok & Hd).
  - intros c d. apply Z.mod_pos_bound. reflexivity.
  - apply length_replicate.
  - apply length_replicate.
  - apply (bool_decide_unpack _). exact I.
  - assert (ret = ISRCRY_OK) as -> by (apply Hok, Exists_cons_tl, Exists_cons_tl, Exists_cons_hd; simpl; lia).
    exists e. split; [exact Hr|]. destruct (Hd eq_refl [(4, 0); (3, 1)]%nat [1; 3]%nat) as (ret' & d & Hr' & Hout & Hok').
    assert (ret' = ISRCRY_OK) as -> by (apply Hok', Exists_cons_tl, Exists_cons_hd; simpl; lia).
    rewrite Hr'. destruct Hout as [[_ ->]|[? _]]; [reflexivity|discriminate].
Defined.
