(* ===== verification/Chunk.v ===== *)
(** Chunk encoding and decoding (src/libutil/chunk.c).

    A chunk is optionally compressed; its key is the hash of what is then encrypted, its tag the
    hash of the ciphertext.  Suites and compression types are the numbers of isrutil.h, which are
    stored on disk.  The outer [option] is a fault or a failed assertion; the inner one is the
    gboolean, with the outputs when it is TRUE.  What the compression library calls outside the
    repository, and memory that is not initialised, are in [env]. *)

From stdpp Require Import strings.
From S2P Require Import Prelude Cipher Aes HashStream Sha1 Hash Compress LzfStream.

Definition IU_CHUNK_CRY_UNKNOWN : Z := 0.
Definition IU_CHUNK_CRY_AES_SHA1 : Z := 2.

Definition IU_CHUNK_COMP_UNKNOWN : Z := 0.
Definition IU_CHUNK_COMP_NONE : Z := 1.
Definition IU_CHUNK_COMP_ZLIB : Z := 2.
Definition IU_CHUNK_COMP_LZF : Z := 3.

(** * Crypto suites *)

Definition iu_chunk_crypto_parse (desc : string) : Z :=
  if decide (desc = "aes-sha1"%string) then IU_CHUNK_CRY_AES_SHA1 else IU_CHUNK_CRY_UNKNOWN.

Record crypto_algs := {
  ca_cipher : isrcry_cipher;
  ca_mode : isrcry_mode;
  ca_padding : isrcry_padding;
  ca_hash : isrcry_hash;
  ca_keylen : nat
}.

Definition crypto_get_algs (crypto : Z) : option crypto_algs :=
  if decide (crypto = IU_CHUNK_CRY_AES_SHA1) then
    Some {| ca_cipher := ISRCRY_CIPHER_AES; ca_mode := ISRCRY_MODE_CBC;
            ca_padding := ISRCRY_PADDING_PKCS5; ca_hash := ISRCRY_HASH_SHA1; ca_keylen := 16 |}
  else None.

Definition iu_chunk_crypto_is_valid (type : Z) : bool := bool_decide (is_Some (crypto_get_algs type)).

Definition iu_chunk_crypto_hashlen (type : Z) : nat :=
  match crypto_get_algs type with
  | None => 0
  | Some algs => isrcry_hash_len (ca_hash algs)
  end.

Definition iu_chunk_crypto_digest (crypto : Z) (inp : list Z) : option (option (list Z)) :=
  match crypto_get_algs crypto with
  | None => Some None
  | Some algs =>
      '(_, digest) ← isrcry_hash_final (isrcry_hash_update (isrcry_hash_alloc (ca_hash algs)) inp);
      Some (Some digest)
  end.

(** * Compression types *)

Definition iu_chunk_compress_parse (desc : string) : Z :=
  if decide (desc = "none"%string) then IU_CHUNK_COMP_NONE
  else if decide (desc = "zlib"%string) then IU_CHUNK_COMP_ZLIB
  else if decide (desc = "lzf"%string) then IU_CHUNK_COMP_LZF
  else IU_CHUNK_COMP_UNKNOWN.

Definition compress_to_isrcry (inp : Z) : option isrcry_compress :=
  if decide (inp = IU_CHUNK_COMP_ZLIB) then Some ISRCRY_COMPRESS_ZLIB
  else if decide (inp = IU_CHUNK_COMP_LZF) then Some ISRCRY_COMPRESS_LZF
  else None.

Definition iu_chunk_compress_is_enabled (enabled_map type : Z) : bool :=
  if decide (type <= IU_CHUNK_COMP_UNKNOWN \/ type >= 8 * 4) then false
  else negb (bool_decide (Z.land enabled_map (u32 (Z.shiftl 1 type)) = 0)).

(** * Encoding and decoding *)

Section chunk.
Context (env : compress_env).

Record encoded := mk_encoded {
  enc_out : list Z;
  enc_tag : list Z;
  enc_key : list Z;
  enc_compress : Z
}.

(** "Compress chunk": the compression type used, and the compressed data if it is kept.  [inr]
    is "return FALSE". *)
Definition compress_chunk (compress : Z) (inp : list Z) (cipher_block : nat) :
    option ((Z * option (list Z)) + unit) :=
  if decide (compress = IU_CHUNK_COMP_NONE) then Some (inl (compress, None))
  else
    match compress_to_isrcry compress with
    | None => Some (inr ())
    | Some alg =>
        let inlen := length inp in
        '(rc, cctx) ← isrcry_compress_init (compress_desc env alg) (isrcry_compress_alloc env alg)
                        ISRCRY_ENCODE 0;
        if decide (rc <> ISRCRY_OK) then Some (inr ())
        else
          '(rc, _, _, compressed) ← isrcry_compress_final (compress_desc env alg) cctx inp inlen
                                      inlen;
          Some (inl (if decide (rc <> ISRCRY_OK \/
                               Z.of_nat (length compressed)
                                 >= u32 (Z.of_nat inlen - Z.of_nat cipher_block))
                     then (IU_CHUNK_COMP_NONE, None) else (compress, Some compressed)))
    end.

Definition iu_chunk_encode (crypto : Z) (inp : list Z) (compress : Z) :
    option (option encoded) :=
  match crypto_get_algs crypto with
  | None => Some None
  | Some algs =>
      r ← compress_chunk compress inp (isrcry_cipher_block (ca_cipher algs));
      match r with
      | inr _ => Some None
      | inl (compress, compressed) =>
          let data := default inp compressed in
          let hash_ctx := isrcry_hash_alloc (ca_hash algs) in
          '(hash_ctx, key) ← isrcry_hash_final (isrcry_hash_update hash_ctx data);
          let cipher_ctx := isrcry_cipher_alloc (ca_cipher algs) (ca_mode algs) in
          let '(rc, cipher_ctx) :=
            isrcry_cipher_init cipher_ctx ISRCRY_ENCRYPT (take (ca_keylen algs) key) None in
          if decide (rc <> ISRCRY_OK) then Some None
          else
            let '(rc, _, out) :=
              match compressed with
              | Some c =>
                  isrcry_cipher_final cipher_ctx (ca_padding algs) c (Z.of_nat (length inp))
              | None => isrcry_cipher_process cipher_ctx inp
              end in
            if decide (rc <> ISRCRY_OK) then Some None
            else
              '(_, tag) ← isrcry_hash_final (isrcry_hash_update hash_ctx out);
              Some (Some (mk_encoded out tag key compress))
      end
  end.

(** "Decompress chunk" of the first [compresslen] bytes of the buffer [mem]. *)
Definition decompress_chunk (alg : isrcry_compress) (mem : list Z) (compresslen outlen : nat) :
    option (option (list Z)) :=
  '(rc, cctx) ← isrcry_compress_init (compress_desc env alg) (isrcry_compress_alloc env alg)
                  ISRCRY_DECODE 0;
  if decide (rc <> ISRCRY_OK) then Some None
  else
    '(rc, _, _, out) ← isrcry_compress_final (compress_desc env alg) cctx mem compresslen outlen;
    if decide (rc <> ISRCRY_OK) then Some None
    else if decide (length out <> outlen) then Some None
    else Some (Some out).

(** "compressed" is a buffer of [outlen] bytes from g_malloc; what the cipher does not fill is
    unspecified. *)
Definition malloc_with (data : list Z) (outlen : nat) : list Z :=
  data ++ replicate (outlen - length data) (e_junk env).

Definition iu_chunk_decode (crypto compress : Z) (inp key : list Z) (outlen : nat) :
    option (option (list Z)) :=
  let is_compressed := bool_decide (compress <> IU_CHUNK_COMP_NONE) in
  match crypto_get_algs crypto with
  | None => Some None
  | Some algs =>
      let hashlen := isrcry_hash_len (ca_hash algs) in
      let alg := compress_to_isrcry compress in
      if decide (is_compressed = true /\ alg = None) then Some None
      else if decide ((is_compressed = false /\ length inp <> outlen) \/ length inp = 0 \/
                      outlen < length inp)%nat then Some None
      else
        let cipher_ctx := isrcry_cipher_alloc (ca_cipher algs) (ca_mode algs) in
        let '(rc, cipher_ctx) :=
          isrcry_cipher_init cipher_ctx ISRCRY_DECRYPT (take (ca_keylen algs) key) None in
        if decide (rc <> ISRCRY_OK) then Some None
        else
          let '(rc, _, data) :=
            if is_compressed
            then isrcry_cipher_final cipher_ctx (ca_padding algs) inp (Z.of_nat outlen)
            else isrcry_cipher_process cipher_ctx inp in
          if decide (rc <> ISRCRY_OK) then Some None
          else
            '(_, calc_hash) ←
              isrcry_hash_final (isrcry_hash_update (isrcry_hash_alloc (ca_hash algs)) data);
            if decide (take hashlen key <> calc_hash) then Some None
            else
              match alg with
              | Some alg =>
                  if is_compressed
                  then decompress_chunk alg (malloc_with data outlen) (length data) outlen
                  else Some (Some data)
              | None => Some (Some data)
              end
  end.

End chunk.

(** * Lemmas *)

Lemma aes_init_16 k : length k = 16%nat -> exists sk, aes_init k = inl sk.
Proof.
  intros Hl. unfold aes_init. rewrite decide_False by lia. rewrite decide_True by done. by eexists.
Qed.

Lemma oneshot_init d dir cctx mem n outlen :
  isrcry_compress_init d (compress_ctx_new d) dir 0 = Some (ISRCRY_OK, cctx) ->
  isrcry_compress_final d cctx mem n outlen = oneshot d dir mem n outlen.
Proof. intros Hi. unfold oneshot. rewrite Hi. done. Qed.

Section chunk_proofs.
Context (env : compress_env).
Context `{!OneShot (Zlib._isrcry_zlib_desc (e_zlib env))}.

(** The compression types that are valid for a chunk, and their algorithms. *)
Definition valid_compress (compress : Z) : Prop :=
  compress = IU_CHUNK_COMP_NONE \/ is_Some (compress_to_isrcry compress).

(** The shortest input [alg] may be given is below a cipher block. *)
Definition chunk_alg (alg : isrcry_compress) : Prop :=
  exists H : OneShot (compress_desc env alg), (@os_min _ H <= 16)%nat.

Context (zlib_min : (os_min <= 16)%nat).

Lemma compress_to_isrcry_alg compress alg :
  compress_to_isrcry compress = Some alg -> chunk_alg alg.
Proof.
  unfold compress_to_isrcry. case_decide; [|case_decide; [|done]]; intros [= <-].
  - by eexists.
  - exists (lzf_oneshot (e_slice env)). simpl. lia.
Qed.

Lemma decompress_chunk_oneshot alg mem n outlen :
  chunk_alg alg ->
  decompress_chunk env alg mem n outlen =
    '(rc, _, _, out) ← oneshot (compress_desc env alg) ISRCRY_DECODE mem n outlen;
    if decide (rc <> ISRCRY_OK) then Some None
    else if decide (length out <> outlen) then Some None else Some (Some out).
Proof.
  intros [Ho _]. destruct (@os_init _ Ho ISRCRY_DECODE) as [cctx Hi].
  unfold decompress_chunk, isrcry_compress_alloc. rewrite Hi. cbn [mbind option_bind].
  rewrite decide_False by (by intros []). by rewrite (oneshot_init _ ISRCRY_DECODE) by done.
Qed.

(** The compression step gives up, or saves more than a cipher block and can be undone. *)
Lemma compress_chunk_spec compress inp :
  valid_compress compress -> bytes inp -> (16 <= length inp)%nat -> Z.of_nat (length inp) < 2 ^ 32 ->
  exists r, compress_chunk env compress inp 16 = Some (inl r) /\
    (r = (IU_CHUNK_COMP_NONE, None) \/
     exists alg c, r = (compress, Some c) /\ compress <> IU_CHUNK_COMP_NONE /\
       compress_to_isrcry compress = Some alg /\ bytes c /\ (length c + 16 < length inp)%nat /\
       forall extra,
         decompress_chunk env alg (c ++ extra) (length c) (length inp) = Some (Some inp)).
Proof.
  intros Hv Hb Hl Hl32. unfold compress_chunk. case_decide as Hnone.
  { eexists. split; [done|]. left. by subst. }
  destruct Hv as [?|[alg Halg]]; [done|]. rewrite Halg.
  destruct (compress_to_isrcry_alg _ _ Halg) as [Ho Hmin].
  destruct (@os_init _ Ho ISRCRY_ENCODE) as [cctx Hi].
  unfold isrcry_compress_alloc. rewrite Hi. cbn [mbind option_bind].
  rewrite decide_False by (by intros []). rewrite (oneshot_init _ ISRCRY_ENCODE) by done.
  destruct (@os_encode _ Ho inp (length inp) Hb) as (rc & cctx' & n & c & -> & Hc & Hok); [lia|].
  cbn [mbind option_bind]. eexists. split; [done|]. rewrite u32_id by (unfold is_u; lia).
  case_decide as Hbad; [by left|]. right. apply Decidable.not_or in Hbad as [Hrc Hlen].
  destruct (decide (rc = ISRCRY_OK)) as [Hrc'|]; [|done].
  destruct (Hok Hrc') as (Hcb & Hne & Hdec). exists alg, c. split_and!; try done; [lia|].
  intros extra. rewrite decompress_chunk_oneshot by (by eapply compress_to_isrcry_alg).
  destruct (Hdec extra (length inp)) as [dctx ->]; [lia|]. cbn [mbind option_bind].
  rewrite decide_False by (by intros []). by rewrite decide_False by (by intros []).
Qed.

(** ** The cipher *)

Local Abbreviation aes := (cipher_desc ISRCRY_CIPHER_AES).

(** Both directions of an AES-CBC context keyed with 16 bytes, and no IV. *)
Lemma aes_cbc_init k dir : length k = 16%nat -> exists ctx,
  isrcry_cipher_init (isrcry_cipher_alloc ISRCRY_CIPHER_AES ISRCRY_MODE_CBC) dir k None
    = (ISRCRY_OK, ctx).
Proof.
  intros Hl. destruct (aes_init_16 k Hl) as [sk Hi]. unfold isrcry_cipher_init.
  change (c_init (cipher (isrcry_cipher_alloc ISRCRY_CIPHER_AES ISRCRY_MODE_CBC)) k)
    with (aes_init k). rewrite Hi. by eexists.
Qed.

(** ** Encoding then decoding *)

Definition sha1_alloc := isrcry_hash_alloc ISRCRY_HASH_SHA1.

Lemma sha1_digest data : bytes data -> exists h,
  isrcry_hash_final (isrcry_hash_update sha1_alloc data) = Some (h, Fips180.sha1 data) /\
  hctx_repr ISRCRY_HASH_SHA1 h [].
Proof.
  intros Hb. apply (isrcry_hash_final_repr ISRCRY_HASH_SHA1 _ data).
  apply (isrcry_hash_update_repr _ _ []); [apply isrcry_hash_alloc_repr|done].
Qed.

(** The digest of the suite. *)
Lemma digest_sha1 data : bytes data ->
  iu_chunk_crypto_digest IU_CHUNK_CRY_AES_SHA1 data = Some (Some (Fips180.sha1 data)).
Proof.
  intros Hb. destruct (sha1_digest data Hb) as (h & Hh & _). unfold iu_chunk_crypto_digest.
  change (crypto_get_algs IU_CHUNK_CRY_AES_SHA1) with
    (Some (Build_crypto_algs ISRCRY_CIPHER_AES ISRCRY_MODE_CBC ISRCRY_PADDING_PKCS5 ISRCRY_HASH_SHA1 16)).
  cbv beta iota. change (ca_hash _) with ISRCRY_HASH_SHA1. fold sha1_alloc. by rewrite Hh.
Qed.

(** The suite once its parameters are looked up: decoding of data that decrypts to [data]. *)
Lemma iu_chunk_decode_data compress inp key outlen ctx ctx' data :
  valid_compress compress ->
  (if decide (compress = IU_CHUNK_COMP_NONE) then length inp = outlen else (length inp <= outlen)%nat) ->
  (0 < length inp)%nat ->
  isrcry_cipher_init (isrcry_cipher_alloc ISRCRY_CIPHER_AES ISRCRY_MODE_CBC) ISRCRY_DECRYPT
    (take 16 key) None = (ISRCRY_OK, ctx) ->
  (if decide (compress = IU_CHUNK_COMP_NONE) then isrcry_cipher_process ctx inp
   else isrcry_cipher_final ctx ISRCRY_PADDING_PKCS5 inp (Z.of_nat outlen))
    = (ISRCRY_OK, ctx', data) ->
  bytes data ->
  iu_chunk_decode env IU_CHUNK_CRY_AES_SHA1 compress inp key outlen =
    if decide (take 20 key <> Fips180.sha1 data) then Some None
    else if decide (compress = IU_CHUNK_COMP_NONE) then Some (Some data)
    else alg ← compress_to_isrcry compress;
         decompress_chunk env alg (malloc_with env data outlen) (length data) outlen.
Proof.
  intros Hv Hlen Hpos Hinit Hdata Hb. unfold iu_chunk_decode. cbn [crypto_get_algs].
  change (crypto_get_algs IU_CHUNK_CRY_AES_SHA1) with (Some {| ca_cipher := ISRCRY_CIPHER_AES;
    ca_mode := ISRCRY_MODE_CBC; ca_padding := ISRCRY_PADDING_PKCS5;
    ca_hash := ISRCRY_HASH_SHA1; ca_keylen := 16 |}).
  cbn [ca_cipher ca_mode ca_padding ca_hash ca_keylen].
  change (isrcry_hash_len ISRCRY_HASH_SHA1) with 20%nat.
  destruct (sha1_digest data Hb) as (h & Hh & _). fold sha1_alloc.
  destruct (decide (compress = IU_CHUNK_COMP_NONE)) as [->|Hne].
  - rewrite bool_decide_false by (by intros []).
    rewrite decide_False by (by intros []). rewrite decide_False by (intros [[_ ?]|[?|?]]; lia).
    rewrite Hinit. rewrite decide_False by (by intros []). rewrite Hdata.
    rewrite decide_False by (by intros []). rewrite Hh. cbn [mbind option_bind].
    case_decide; [done|]. done.
  - destruct Hv as [?|[alg Halg]]; [done|]. rewrite bool_decide_true by done. rewrite Halg.
    rewrite decide_False by (by intros []). rewrite decide_False by (intros [[? _]|[?|?]]; done || lia).
    rewrite Hinit. rewrite decide_False by (by intros []). rewrite Hdata.
    rewrite decide_False by (by intros []). rewrite Hh. cbn [mbind option_bind]. done.
Qed.

(** The ciphertext [out] of a chunk whose (compressed) data is [data]. *)
Definition sealed (compress : Z) (inp data : list Z) (ectx : isrcry_cipher_ctx) (out : list Z) :
    Prop :=
  isrcry_cipher_init (isrcry_cipher_alloc ISRCRY_CIPHER_AES ISRCRY_MODE_CBC) ISRCRY_ENCRYPT
    (take 16 (Fips180.sha1 data)) None = (ISRCRY_OK, ectx) /\
  (length out <= length inp)%nat /\ bytes out /\
  iu_chunk_decode env IU_CHUNK_CRY_AES_SHA1 compress out (Fips180.sha1 data) (length inp)
    = Some (Some inp).

Lemma length_chunk_key data : length (take 16 (Fips180.sha1 data)) = 16%nat.
Proof. by rewrite length_take, length_sha1. Qed.

Lemma bytes_chunk_key data : bytes (take 16 (Fips180.sha1 data)).
Proof. apply Forall_take, (bytes_hash_spec ISRCRY_HASH_SHA1). Qed.

Lemma take_sha1 data : take 20 (Fips180.sha1 data) = Fips180.sha1 data.
Proof. apply take_ge. by rewrite length_sha1. Qed.

Lemma encode_plain_spec inp :
  bytes inp -> (0 < length inp)%nat -> (length inp mod 16 = 0)%nat ->
  exists ectx ectx' out, isrcry_cipher_process ectx inp = (ISRCRY_OK, ectx', out) /\
    sealed IU_CHUNK_COMP_NONE inp inp ectx out.
Proof.
  intros Hb Hpos Hm. set (k := take 16 (Fips180.sha1 inp)).
  destruct (aes_init_16 k (length_chunk_key inp)) as [sk Hsk].
  destruct (cipher_process_inverse aes ISRCRY_MODE_CBC k None sk inp)
    as (ectx & dctx & ectx' & dctx' & out & Hie & Hid & Hp & Hl & Hob & Hd);
    [exact Hsk|apply bytes_chunk_key|done|done|done|].
  exists ectx, ectx', out. split; [exact Hp|]. split; [exact Hie|]. split; [lia|]. split; [done|].
  rewrite (iu_chunk_decode_data IU_CHUNK_COMP_NONE out _ _ dctx dctx' inp);
    [|by left|by rewrite decide_True|lia|exact Hid|by rewrite decide_True|done].
  rewrite take_sha1, decide_False by (intros Hne; by apply Hne). by rewrite decide_True.
Qed.

Lemma encode_compressed_spec compress alg inp c :
  compress <> IU_CHUNK_COMP_NONE -> compress_to_isrcry compress = Some alg ->
  bytes c -> (length c + 16 < length inp)%nat -> Z.of_nat (length inp) < 2 ^ 32 ->
  (forall extra, decompress_chunk env alg (c ++ extra) (length c) (length inp) = Some (Some inp)) ->
  exists ectx ectx' out,
    isrcry_cipher_final ectx ISRCRY_PADDING_PKCS5 c (Z.of_nat (length inp))
      = (ISRCRY_OK, ectx', out) /\
    sealed compress inp c ectx out.
Proof.
  intros Hne Halg Hb Hl Hl32 Hdec. set (k := take 16 (Fips180.sha1 c)).
  destruct (aes_init_16 k (length_chunk_key c)) as [sk Hsk].
  pose proof (Nat.div_mod_eq (length c) 16) as Hdm.
  destruct (cipher_final_inverse aes ISRCRY_MODE_CBC k None sk c (Z.of_nat (length inp)))
    as (ectx & dctx & ectx' & out & Hie & Hid & Hp & Hlo & Hob & Hd);
    [exact Hsk|apply bytes_chunk_key|done|done|simpl; lia|simpl; lia|].
  change (c_blocklen aes) with 16%nat in Hlo.
  destruct (Hd (Z.of_nat (length inp))) as [dctx' Hd']; [lia|].
  exists ectx, ectx', out. split; [exact Hp|]. split; [exact Hie|]. split; [lia|]. split; [done|].
  rewrite (iu_chunk_decode_data compress out _ _ dctx dctx' c).
  - rewrite take_sha1, decide_False by (intros Hn; by apply Hn). rewrite decide_False by done.
    rewrite Halg. apply Hdec.
  - right. by rewrite Halg.
  - rewrite decide_False by done. lia.
  - lia.
  - exact Hid.
  - by rewrite decide_False.
  - done.
Qed.

(** What [iu_chunk_encode] stores, from the sealed ciphertext. *)
Lemma encode_result ectx ectx' compress inp compressed out :
  sealed compress inp (default inp compressed) ectx out ->
  bytes (default inp compressed) ->
  match compressed with
  | Some c => isrcry_cipher_final ectx ISRCRY_PADDING_PKCS5 c (Z.of_nat (length inp))
  | None => isrcry_cipher_process ectx inp
  end = (ISRCRY_OK, ectx', out) ->
  forall compress0, compress_chunk env compress0 inp 16 = Some (inl (compress, compressed)) ->
  iu_chunk_encode env IU_CHUNK_CRY_AES_SHA1 inp compress0 =
    Some (Some (mk_encoded out (Fips180.sha1 out) (Fips180.sha1 (default inp compressed)) compress)).
Proof.
  intros (Hie & Hlo & Hob & _) Hb Hc compress0 Hcc. unfold iu_chunk_encode.
  change (crypto_get_algs IU_CHUNK_CRY_AES_SHA1) with (Some {| ca_cipher := ISRCRY_CIPHER_AES;
    ca_mode := ISRCRY_MODE_CBC; ca_padding := ISRCRY_PADDING_PKCS5;
    ca_hash := ISRCRY_HASH_SHA1; ca_keylen := 16 |}).
  cbn [ca_cipher ca_mode ca_padding ca_hash ca_keylen].
  change (isrcry_cipher_block ISRCRY_CIPHER_AES) with 16%nat. rewrite Hcc.
  cbn [mbind option_bind]. fold sha1_alloc.
  destruct (sha1_digest _ Hb) as (h & -> & Hr). cbn [mbind option_bind].
  rewrite Hie. rewrite decide_False by (by intros []). rewrite Hc.
  rewrite decide_False by (by intros []).
  destruct (isrcry_hash_final_repr ISRCRY_HASH_SHA1 _ _
    (isrcry_hash_update_repr ISRCRY_HASH_SHA1 h [] out Hr Hob)) as (h' & -> & _). done.
Qed.

(** ** Decoding arbitrary data *)

Context (junk_byte : is_u 8 (e_junk env)).

Lemma decompress_chunk_total alg data outlen :
  chunk_alg alg -> bytes data -> (length data <= outlen)%nat -> (0 < outlen)%nat ->
  exists r, decompress_chunk env alg (malloc_with env data outlen) (length data) outlen = Some r /\
    forall out, r = Some out -> length out = outlen.
Proof.
  intros Halg Hb Hl Hpos. rewrite decompress_chunk_oneshot by done. destruct Halg as [Ho _].
  destruct (@os_decode _ Ho (malloc_with env data outlen) (length data) outlen)
    as (rc & cctx & n & out & -> & Hlo).
  - apply Forall_app. split; [done|by apply Forall_replicate].
  - intros Hnil. apply (f_equal length) in Hnil. unfold malloc_with in Hnil.
    rewrite length_app, length_replicate in Hnil. simpl in Hnil. lia.
  - unfold malloc_with. rewrite length_app. lia.
  - cbn [mbind option_bind]. case_decide; [by exists None|]. case_decide as Hlen; [by exists None|].
    exists (Some out). split; [done|]. intros ? [= <-].
    destruct (decide (length out = outlen)); [done|]. by destruct Hlen.
Qed.

(** The data a chunk decrypts to, when the lengths are right. *)
Lemma chunk_decrypt compress inp key outlen :
  bytes inp -> bytes key -> (16 <= length key)%nat -> exists ctx rc ctx' data,
    isrcry_cipher_init (isrcry_cipher_alloc ISRCRY_CIPHER_AES ISRCRY_MODE_CBC) ISRCRY_DECRYPT
      (take 16 key) None = (ISRCRY_OK, ctx) /\
    (if decide (compress = IU_CHUNK_COMP_NONE) then isrcry_cipher_process ctx inp
     else isrcry_cipher_final ctx ISRCRY_PADDING_PKCS5 inp (Z.of_nat outlen)) = (rc, ctx', data) /\
    bytes data /\ (rc = ISRCRY_OK -> (length data <= length inp)%nat /\
      (compress = IU_CHUNK_COMP_NONE -> length data = length inp)).
Proof.
  intros Hb Hkb Hkl.
  assert (length (take 16 key) = 16%nat) as Hk by (rewrite length_take; lia).
  destruct (aes_init_16 _ Hk) as [sk Hsk].
  destruct (cipher_decrypt_total aes ISRCRY_MODE_CBC (take 16 key) sk inp)
    as (ctx & Hi & (rc & c' & out & Hp & Hob & Hl) & Hfinal); [exact Hsk|by apply Forall_take|done|].
  destruct (Hfinal (Z.of_nat outlen)) as (rc2 & c2 & out2 & Hp2 & Hob2 & Hl2).
  destruct (decide (compress = IU_CHUNK_COMP_NONE)) as [Hc|Hc].
  - exists ctx, rc, c', out. split; [exact Hi|]. split; [exact Hp|]. split; [done|].
    intros Hok. specialize (Hl Hok). lia.
  - exists ctx, rc2, c2, out2. split; [exact Hi|]. split; [exact Hp2|]. split; [done|].
    intros Hok. specialize (Hl2 Hok). split; [lia|done].
Qed.

(** Decoding fails when it fails to decrypt. *)
Lemma iu_chunk_decode_bad compress inp key outlen ctx rc ctx' data :
  rc <> ISRCRY_OK ->
  isrcry_cipher_init (isrcry_cipher_alloc ISRCRY_CIPHER_AES ISRCRY_MODE_CBC) ISRCRY_DECRYPT
    (take 16 key) None = (ISRCRY_OK, ctx) ->
  (if decide (compress = IU_CHUNK_COMP_NONE) then isrcry_cipher_process ctx inp
   else isrcry_cipher_final ctx ISRCRY_PADDING_PKCS5 inp (Z.of_nat outlen)) = (rc, ctx', data) ->
  iu_chunk_decode env IU_CHUNK_CRY_AES_SHA1 compress inp key outlen = Some None.
Proof.
  intros Hrc Hinit Hdata. unfold iu_chunk_decode.
  change (crypto_get_algs IU_CHUNK_CRY_AES_SHA1) with (Some {| ca_cipher := ISRCRY_CIPHER_AES;
    ca_mode := ISRCRY_MODE_CBC; ca_padding := ISRCRY_PADDING_PKCS5;
    ca_hash := ISRCRY_HASH_SHA1; ca_keylen := 16 |}).
  cbn [ca_cipher ca_mode ca_padding ca_hash ca_keylen].
  outer_decide H1; [done|]. outer_decide H2; [done|]. rewrite Hinit.
  rewrite decide_False by (by intros []).
  destruct (decide (compress = IU_CHUNK_COMP_NONE)) as [Hc|Hc].
  - rewrite bool_decide_false by (by intros []). rewrite Hdata. by rewrite decide_True.
  - rewrite bool_decide_true by done. rewrite Hdata. by rewrite decide_True.
Qed.

(** Decoding rejects lengths and types before it decrypts. *)
Lemma iu_chunk_decode_lengths compress inp key outlen r :
  iu_chunk_decode env IU_CHUNK_CRY_AES_SHA1 compress inp key outlen = r -> r <> Some None ->
  valid_compress compress /\ (0 < length inp <= outlen)%nat /\
  (compress = IU_CHUNK_COMP_NONE -> length inp = outlen).
Proof.
  intros <- Hne. unfold iu_chunk_decode in Hne.
  change (crypto_get_algs IU_CHUNK_CRY_AES_SHA1) with (Some {| ca_cipher := ISRCRY_CIPHER_AES;
    ca_mode := ISRCRY_MODE_CBC; ca_padding := ISRCRY_PADDING_PKCS5;
    ca_hash := ISRCRY_HASH_SHA1; ca_keylen := 16 |}) in Hne.
  cbn [ca_cipher ca_mode ca_padding ca_hash ca_keylen] in Hne.
  outer_decide_in Hne Ha; [done|]. outer_decide_in Hne Hl; [done|]. clear Hne.
  split; [|split; [lia|]].
  - destruct (decide (compress = IU_CHUNK_COMP_NONE)) as [Hc|Hc]; [by left|]. right.
    destruct (compress_to_isrcry compress) eqn:E; [by eexists|]. destruct Ha.
    by rewrite bool_decide_true.
  - intros Hc. destruct (decide (length inp = outlen)); [done|]. destruct Hl. left. split; [|done].
    by rewrite bool_decide_false by (by intros []).
Qed.

(** ** The two directions together *)

Lemma chunk_roundtrip inp compress :
  valid_compress compress -> bytes inp ->
  (16 <= length inp)%nat -> (length inp mod 16 = 0)%nat -> Z.of_nat (length inp) < 2 ^ 32 ->
  exists e, iu_chunk_encode env IU_CHUNK_CRY_AES_SHA1 inp compress = Some (Some e) /\
    (length (enc_out e) <= length inp)%nat /\ bytes (enc_out e) /\
    enc_tag e = Fips180.sha1 (enc_out e) /\ length (enc_key e) = 20%nat /\ bytes (enc_key e) /\
    (enc_compress e = compress \/ enc_compress e = IU_CHUNK_COMP_NONE) /\
    iu_chunk_decode env IU_CHUNK_CRY_AES_SHA1 (enc_compress e) (enc_out e) (enc_key e)
      (length inp) = Some (Some inp).
Proof.
  intros Hv Hb Hl Hm Hl32.
  destruct (compress_chunk_spec compress inp Hv Hb Hl Hl32) as (r & Hcc & [->|Hr]).
  - destruct (encode_plain_spec inp Hb ltac:(lia) Hm) as (ectx & ectx' & out & Hp & Hs).
    eexists. split;
      [exact (encode_result ectx ectx' IU_CHUNK_COMP_NONE inp None out Hs Hb Hp compress Hcc)|].
    destruct Hs as (_ & ? & ? & ?). simpl.
    split_and!; auto; [apply length_sha1|apply (bytes_hash_spec ISRCRY_HASH_SHA1)].
  - destruct Hr as (alg & c & -> & Hne & Halg & Hcb & Hcl & Hdec).
    destruct (encode_compressed_spec compress alg inp c) as (ectx & ectx' & out & Hp & Hs); [done..|].
    eexists. split;
      [exact (encode_result ectx ectx' compress inp (Some c) out Hs Hcb Hp compress Hcc)|].
    destruct Hs as (_ & ? & ? & ?). simpl.
    split_and!; auto; [apply length_sha1|apply (bytes_hash_spec ISRCRY_HASH_SHA1)].
Qed.

Lemma chunk_decode_integrity compress inp key outlen :
  bytes inp -> bytes key -> (20 <= length key)%nat ->
  exists r, iu_chunk_decode env IU_CHUNK_CRY_AES_SHA1 compress inp key outlen = Some r /\
    forall out, r = Some out -> length out = outlen /\ valid_compress compress /\
      exists data, Fips180.sha1 data = take 20 key /\ (length data <= length inp)%nat /\
        (compress = IU_CHUNK_COMP_NONE -> out = data).
Proof.
  intros Hb Hkb Hkl.
  destruct (decide (iu_chunk_decode env IU_CHUNK_CRY_AES_SHA1 compress inp key outlen = Some None))
    as [->|Hne]; [by exists None|].
  destruct (iu_chunk_decode_lengths compress inp key outlen _ eq_refl Hne) as (Hv & Hlen & Hnone).
  destruct (chunk_decrypt compress inp key outlen Hb Hkb ltac:(lia))
    as (ctx & rc & ctx' & data & Hinit & Hdata & Hdb & Hok).
  destruct (decide (rc = ISRCRY_OK)) as [->|Hrc]; cycle 1.
  { destruct Hne. by eapply iu_chunk_decode_bad. }
  destruct (Hok eq_refl) as [Hdl Hdl'].
  clear Hne. rewrite (iu_chunk_decode_data compress inp key outlen ctx ctx' data);
    [|done|case_decide; [by apply Hnone|lia]|lia|done|done|done].
  destruct (decide (take 20 key <> Fips180.sha1 data)) as [Hkey|Hkey]; [by exists None|].
  assert (Fips180.sha1 data = take 20 key) as Hsha.
  { destruct (decide (take 20 key = Fips180.sha1 data)); [done|]. by destruct Hkey. }
  destruct (decide (compress = IU_CHUNK_COMP_NONE)) as [Hc|Hc].
  - exists (Some data). split; [done|]. intros ? [= <-]. split; [rewrite Hdl' by done; by apply Hnone|].
    split; [done|]. by exists data.
  - destruct Hv as [?|[alg Halg]]; [done|]. rewrite Halg. cbn [mbind option_bind].
    destruct (decompress_chunk_total alg data outlen) as (r & Hr & Ho);
      [by eapply compress_to_isrcry_alg|done|lia|lia|].
    exists r. split; [done|]. intros out ->. split; [by apply Ho|].
    split; [right; by rewrite Halg|]. exists data. by split_and!.
Qed.
End chunk_proofs.

(** * The interface to the caches

    What the local cache relies on: chunks are encoded in at least one and at most chunk size
    bytes, encoded chunks decode to themselves, and decoding anything else is safe. *)

Class ChunkCodec (env : compress_env) : Prop := {
  codec_roundtrip inp compress :
    valid_compress compress -> bytes inp ->
    (16 <= length inp)%nat -> (length inp mod 16 = 0)%nat -> Z.of_nat (length inp) < 2 ^ 32 ->
    exists e, iu_chunk_encode env IU_CHUNK_CRY_AES_SHA1 inp compress = Some (Some e) /\
      (0 < length (enc_out e) <= length inp)%nat /\ bytes (enc_out e) /\
      length (enc_tag e) = 20%nat /\ length (enc_key e) = 20%nat /\ bytes (enc_key e) /\
      (enc_compress e = compress \/ enc_compress e = IU_CHUNK_COMP_NONE) /\
      iu_chunk_decode env IU_CHUNK_CRY_AES_SHA1 (enc_compress e) (enc_out e) (enc_key e)
        (length inp) = Some (Some inp);
  codec_decode compress inp key outlen :
    bytes inp -> bytes key -> (20 <= length key)%nat ->
    exists r, iu_chunk_decode env IU_CHUNK_CRY_AES_SHA1 compress inp key outlen = Some r /\
      forall out, r = Some out -> length out = outlen
}.

Lemma chunk_codec env : zlib_ok (e_zlib env) -> is_u 8 (e_junk env) -> ChunkCodec env.
Proof.
  intros Hz Hj. split.
  - intros inp compress Hv Hb Hl Hm H32.
    destruct (@chunk_roundtrip env (zlib_oneshot _ Hz) ltac:(simpl; lia) inp compress Hv Hb Hl Hm H32)
      as (e & He & Hle & Hbe & Ht & Hk & Hkb & Hc & Hd). exists e. split; [done|].
    destruct (@iu_chunk_decode_lengths env (zlib_oneshot _ Hz) ltac:(simpl; lia) _ _ _ _ _ Hd)
      as (_ & ? & _); [done|].
    split_and!; try done; try lia. rewrite Ht. apply length_sha1.
  - intros compress inp key outlen Hb Hkb Hkl.
    destruct (@chunk_decode_integrity env (zlib_oneshot _ Hz) ltac:(simpl; lia) Hj
      compress inp key outlen Hb Hkb Hkl) as (r & Hr & Ho). exists r. split; [done|].
    intros out Hout. by apply Ho.
Qed.

(** * Properties *)

(** C32: encoding of a chunk (a multiple of 16 bytes) with a valid compression type succeeds; the
    result is bytes and no longer than the chunk, its tag is the SHA-1 of the ciphertext, its key 20 bytes, its compression
    type the one asked for or "none"; and decoding it with its key gives the chunk back. *)
Theorem iu_chunk_roundtrip env inp compress :
  zlib_ok (e_zlib env) ->
  valid_compress compress -> bytes inp ->
  (16 <= length inp)%nat -> (length inp mod 16 = 0)%nat -> Z.of_nat (length inp) < 2 ^ 32 ->
  exists e, iu_chunk_encode env IU_CHUNK_CRY_AES_SHA1 inp compress = Some (Some e) /\
    (length (enc_out e) <= length inp)%nat /\ bytes (enc_out e) /\
    enc_tag e = Fips180.sha1 (enc_out e) /\ length (enc_key e) = 20%nat /\ bytes (enc_key e) /\
    (enc_compress e = compress \/ enc_compress e = IU_CHUNK_COMP_NONE) /\
    iu_chunk_decode env IU_CHUNK_CRY_AES_SHA1 (enc_compress e) (enc_out e) (enc_key e)
      (length inp) = Some (Some inp).
Proof.
  intros Hz. exact (@chunk_roundtrip env (zlib_oneshot _ Hz) ltac:(simpl; lia) inp compress).
Qed.

(** C33: decoding never faults, whatever the ciphertext, the key (of at least 20 bytes), the
    compression type and the chunk size; and a chunk it accepts has exactly the chunk size and
    comes from decrypted data whose SHA-1 is the key, which is the chunk itself if it was not
    compressed. *)
Theorem iu_chunk_decode_integrity env compress inp key outlen :
  zlib_ok (e_zlib env) -> is_u 8 (e_junk env) ->
  bytes inp -> bytes key -> (20 <= length key)%nat ->
  exists r, iu_chunk_decode env IU_CHUNK_CRY_AES_SHA1 compress inp key outlen = Some r /\
    forall out, r = Some out -> length out = outlen /\ valid_compress compress /\
      exists data, Fips180.sha1 data = take 20 key /\ (length data <= length inp)%nat /\
        (compress = IU_CHUNK_COMP_NONE -> out = data).
Proof.
  intros Hz Hj.
  exact (@chunk_decode_integrity env (zlib_oneshot _ Hz) ltac:(simpl; lia) Hj compress inp key outlen).
Qed.

(** An environment for the witnesses: a "zlib" that stores its input behind a mark. *)
Definition stored_zlib : Zlib.zlib_lib := {|
  Zlib.z_stream := unit;
  Zlib.deflateInit := fun _ => (Zlib.Z_OK, ());
  Zlib.inflateInit := (Zlib.Z_OK, ());
  Zlib.deflate := fun _ inp room _ =>
    if decide (length inp < room)%nat then (Zlib.Z_STREAM_END, (), length inp, 0x78 :: inp)
    else (Zlib.Z_OK, (), 0%nat, []);
  Zlib.inflate := fun _ inp room _ =>
    match inp with
    | 0x78 :: data =>
        if decide (length data <= room)%nat then (Zlib.Z_STREAM_END, (), length inp, data)
        else (Zlib.Z_BUF_ERROR, (), 0%nat, [])
    | _ => (Zlib.Z_DATA_ERROR, (), 0%nat, [])
    end
|}.

Lemma stored_zlib_ok : zlib_ok stored_zlib.
Proof.
  split.
  - by exists ().
  - by exists ().
  - intros s inp room ret s' n out Hb _. simpl. case_decide; intros [= <- <- <- <-]; simpl.
    + split_and!; [auto|lia| |done]. apply Forall_cons_2; [by vm_compute|done].
    + split_and!; [auto|lia|done|]. intros [=].
  - intros s inp room ret s' n out Hb _. simpl.
    assert (forall x : Z * () * nat * list Z,
      x = (Zlib.Z_DATA_ERROR, (), 0%nat, []) -> x = (ret, s', n, out) ->
      In ret [Zlib.Z_OK; Zlib.Z_STREAM_END; Zlib.Z_NEED_DICT; Zlib.Z_DATA_ERROR; Zlib.Z_BUF_ERROR]
      /\ (length out <= room)%nat) as Herr.
    { intros x -> [= <- <- <- <-]. simpl. split; [auto 6|lia]. }
    destruct inp as [|b data]; [by apply Herr|]. destruct (decide (b = 0x78)) as [->|Hb8].
    + case_decide; intros [= <- <- <- <-]; simpl; (split; [auto 6|lia]).
    + apply Herr. destruct b as [|q|q]; try done.
      do 7 (try (destruct q as [q|q|]; try done)).
  - intros s inp room s' n out t room' Hb _. simpl. case_decide; [|done].
    intros [= <- <- <-] _ Hr. exists (). simpl. by rewrite decide_True.
Qed.

Definition stored_env : compress_env := {|
  e_slice := ∅;
  e_crc32 := fun c _ => c;
  e_slab_in := replicate BUFLEN 0;
  e_slab_out := replicate BUFLEN 0;
  e_junk := 0;
  e_zlib := stored_zlib;
  e_lzma := {| Lzma.lzma_stream := unit;
               Lzma.lzma_easy_encoder := fun _ => (Lzma.LZMA_PROG_ERROR, ());
               Lzma.lzma_stream_decoder := fun _ => (Lzma.LZMA_PROG_ERROR, ());
               Lzma.lzma_code := fun _ _ _ _ => (Lzma.LZMA_PROG_ERROR, (), 0%nat, []) |}
|}.

Lemma iu_chunk_roundtrip_witness :
  exists e, iu_chunk_encode stored_env IU_CHUNK_CRY_AES_SHA1 (replicate 64 7) IU_CHUNK_COMP_LZF
      = Some (Some e) /\
    (length (enc_out e) <= 64)%nat /\ bytes (enc_out e) /\
    enc_tag e = Fips180.sha1 (enc_out e) /\ length (enc_key e) = 20%nat /\ bytes (enc_key e) /\
    (enc_compress e = IU_CHUNK_COMP_LZF \/ enc_compress e = IU_CHUNK_COMP_NONE) /\
    iu_chunk_decode stored_env IU_CHUNK_CRY_AES_SHA1 (enc_compress e) (enc_out e) (enc_key e) 64
      = Some (Some (replicate 64 7)).
Proof.
  apply (iu_chunk_roundtrip stored_env (replicate 64 7) IU_CHUNK_COMP_LZF).
  - apply stored_zlib_ok.
  - right. by eexists.
  - by apply Forall_replicate.
  - simpl. lia.
  - reflexivity.
  - reflexivity.
Defined.

Lemma iu_chunk_decode_integrity_witness :
  exists r, iu_chunk_decode stored_env IU_CHUNK_CRY_AES_SHA1 IU_CHUNK_COMP_LZF (replicate 32 1)
      (replicate 20 9) 64 = Some r /\
    forall out, r = Some out -> length out = 64%nat /\ valid_compress IU_CHUNK_COMP_LZF /\
      exists data, Fips180.sha1 data = take 20 (replicate 20 9) /\ (length data <= 32)%nat /\
        (IU_CHUNK_COMP_LZF = IU_CHUNK_COMP_NONE -> out = data).
Proof.
  apply (iu_chunk_decode_integrity stored_env IU_CHUNK_COMP_LZF (replicate 32 1) (replicate 20 9) 64).
  - apply stored_zlib_ok.
  - by vm_compute.
  - by apply Forall_replicate.
  - by apply Forall_replicate.
  - simpl. lia.
Defined.
