(* ===== verification/Effects.v ===== *)
(** Effects: the monad in which the stateful C functions of the parcelkeeper are written, and
    the total-correctness triples used to reason about them.

    A function body runs on an explicit state [S].  It may fall through with a value, leave the
    function with [return], or jump to the function's "bad:" label; it may also fault (an access
    outside an object, a failed g_assert, a wait that nothing can end), which is [None]. *)

From S2P Require Import Prelude.

Declare Scope pk_scope.
Delimit Scope pk_scope with pk.

(** How control leaves a function body of result type [R]: a return statement, or a jump to
    the "bad:" label with "ret" set to the given value. *)
Inductive exit (R : Type) := Return (r : R) | Goto_bad (r : R).
Arguments Return {R} r.
Arguments Goto_bad {R} r.

Definition pk (S R A : Type) : Type := S -> option ((A + exit R) * S).

Definition pk_ret {S R A} (a : A) : pk S R A := fun s => Some (inl a, s).

Definition pk_bind {S R A B} (f : A -> pk S R B) (m : pk S R A) : pk S R B := fun s =>
  match m s with
  | Some (inl a, s') => f a s'
  | Some (inr e, s') => Some (inr e, s')
  | None => None
  end.

#[global] Instance pk_mret {S R} : MRet (pk S R) := @pk_ret S R.
#[global] Instance pk_mbind {S R} : MBind (pk S R) := @pk_bind S R.

(** Reading and writing the state, [return], [goto bad], a fault, and a condition that must
    hold for the access that follows to be defined. *)
Definition gets {S R A} (f : S -> A) : pk S R A := fun s => Some (inl (f s), s).
Definition modify {S R} (f : S -> S) : pk S R () := fun s => Some (inl (), f s).
Definition ret {S R A} (r : R) : pk S R A := fun s => Some (inr (Return r), s).
Definition goto_bad {S R A} (r : R) : pk S R A := fun s => Some (inr (Goto_bad r), s).
Definition fault {S R A} : pk S R A := fun _ => None.
Definition defined {S R} (P : Prop) `{Decision P} : pk S R () := if decide P then pk_ret () else fault.

(** A call of a function with its own result type: its fall-through value. *)
Definition call {S R A} (f : S -> option (A * S)) : pk S R A := fun s =>
  match f s with Some (a, s') => Some (inl a, s') | None => None end.

(** A whole function without a "bad:" label: its body always leaves with [return]. *)
Definition body {S R} (m : pk S R R) : S -> option (R * S) := fun s =>
  match m s with
  | Some (inl r, s') | Some (inr (Return r), s') | Some (inr (Goto_bad r), s') => Some (r, s')
  | None => None
  end.


(** * Triples

    [triple P m Q X]: from a state with [P], [m] does not fault, and ends in [Q] if it falls
    through and in [X] if it leaves the function. *)

Definition triple {S R A} (P : S -> Prop) (m : pk S R A) (Q : A -> S -> Prop)
    (X : exit R -> S -> Prop) : Prop :=
  forall s, P s -> exists r s', m s = Some (r, s') /\
    match r with inl a => Q a s' | inr e => X e s' end.

Section triples.
Context {S R : Type}.
Implicit Types P : S -> Prop.

Lemma triple_bind {A B} P (m : pk S R A) (f : A -> pk S R B) Q Q' X :
  triple P m Q X -> (forall a, triple (Q a) (f a) Q' X) -> triple P (m ≫= f) Q' X.
Proof.
  intros Hm Hf s Hs. destruct (Hm s Hs) as (r & s' & Hr & HQ).
  unfold mbind, pk_mbind, pk_bind. rewrite Hr. destruct r as [a|e].
  - exact (Hf a s' HQ).
  - by exists (inr e), s'.
Qed.

Lemma triple_weaken {A} P P' (m : pk S R A) (Q Q' : A -> S -> Prop) (X X' : exit R -> S -> Prop) :
  triple P' m Q' X' -> (forall s, P s -> P' s) -> (forall a s, Q' a s -> Q a s) ->
  (forall e s, X' e s -> X e s) -> triple P m Q X.
Proof.
  intros Hm HP HQ HX s Hs. destruct (Hm s (HP s Hs)) as (r & s' & Hr & H).
  exists r, s'. split; [done|]. destruct r; auto.
Qed.

Lemma triple_pre {A} P' P (m : pk S R A) Q X :
  triple P' m Q X -> (forall s, P s -> P' s) -> triple P m Q X.
Proof. intros Hm HP. by eapply triple_weaken. Qed.

(** For steps that never leave the function. *)
Lemma triple_fall {A} P' P (m : pk S R A) Q X :
  triple P' m Q (fun _ _ => False) -> (forall s, P s -> P' s) -> triple P m Q X.
Proof. intros Hm HP. by eapply triple_weaken. Qed.

Lemma triple_pure {A} (φ : Prop) P (m : pk S R A) Q X :
  (φ -> triple P m Q X) -> triple (fun s => φ /\ P s) m Q X.
Proof. intros Hm s [Hφ Hs]. by apply Hm. Qed.

Lemma triple_ret {A} (a : A) P (Q : A -> S -> Prop) X :
  (forall s, P s -> Q a s) -> triple P (pk_ret a : pk S R A) Q X.
Proof. intros HQ s Hs. exists (inl a), s. auto. Qed.

Lemma triple_gets {A} (f : S -> A) P (Q : A -> S -> Prop) X :
  (forall s, P s -> Q (f s) s) -> triple P (gets f : pk S R A) Q X.
Proof. intros HQ s Hs. exists (inl (f s)), s. auto. Qed.

Lemma triple_modify (f : S -> S) P (Q : () -> S -> Prop) X :
  (forall s, P s -> Q () (f s)) -> triple P (modify f : pk S R ()) Q X.
Proof. intros HQ s Hs. exists (inl ()), (f s). auto. Qed.

Lemma triple_return {A} (r : R) P (Q : A -> S -> Prop) (X : exit R -> S -> Prop) :
  (forall s, P s -> X (Return r) s) -> triple P (ret r) Q X.
Proof. intros HX s Hs. exists (inr (Return r)), s. auto. Qed.

Lemma triple_goto_bad {A} (r : R) P (Q : A -> S -> Prop) (X : exit R -> S -> Prop) :
  (forall s, P s -> X (Goto_bad r) s) -> triple P (goto_bad r) Q X.
Proof. intros HX s Hs. exists (inr (Goto_bad r)), s. auto. Qed.

Lemma triple_defined (φ : Prop) `{Decision φ} P (Q : () -> S -> Prop) X :
  φ -> (forall s, P s -> Q () s) -> triple P (defined φ : pk S R ()) Q X.
Proof. intros Hφ HQ. unfold defined. rewrite decide_True by done. by apply triple_ret. Qed.

Lemma triple_decide {A} (φ : Prop) `{Decision φ} P (m m' : pk S R A) Q X :
  (φ -> triple P m Q X) -> (~ φ -> triple P m' Q X) ->
  triple P (if decide φ then m else m') Q X.
Proof. intros Ht Hf. destruct (decide φ); auto. Qed.
End triples.

(** ** Calls *)

Definition exit_result {R} (e : exit R) : R := match e with Return r | Goto_bad r => r end.

Lemma triple_call_body {S R R'} (P : S -> Prop) (m : pk S R' R') (Q : R' -> S -> Prop)
    (X : exit R -> S -> Prop) :
  triple P m Q (fun e => Q (exit_result e)) -> triple P (call (body m)) Q X.
Proof.
  intros Hm s Hs. destruct (Hm s Hs) as (r & s' & Hr & HQ).
  unfold call, body. rewrite Hr. destruct r as [r|[r|r]]; exists (inl r), s'; auto.
Qed.

Lemma triple_body {S R} (P : S -> Prop) (m : pk S R R) (Q : R -> S -> Prop) s :
  triple P m Q (fun e => Q (exit_result e)) -> P s ->
  exists r s', body m s = Some (r, s') /\ Q r s'.
Proof.
  intros Hm Hs. destruct (Hm s Hs) as (r & s' & Hr & HQ).
  unfold body. rewrite Hr. destruct r as [r|[r|r]]; exists r, s'; auto.
Qed.

Lemma triple_call {S R A} (P : S -> Prop) (f : S -> option (A * S)) (Q : A -> S -> Prop)
    (X : exit R -> S -> Prop) :
  (forall s, P s -> exists a s', f s = Some (a, s') /\ Q a s') -> triple P (call f) Q X.
Proof.
  intros Hf s Hs. destruct (Hf s Hs) as (a & s' & Ha & HQ).
  unfold call. rewrite Ha. by exists (inl a), s'.
Qed.

(** ** Running a body step by step *)

Lemma bind_step {S R A B} (m : pk S R A) (f : A -> pk S R B) s a s' :
  m s = Some (inl a, s') -> (m ≫= f) s = f a s'.
Proof. intros Hm. unfold mbind, pk_mbind, pk_bind. by rewrite Hm. Qed.

(** Three steps whose joint effect is known. *)
Lemma bind_step3 {S R A B} (m1 m2 : pk S R ()) (m3 : pk S R A) (f : A -> pk S R B) s a s' :
  (_ ← m1; _ ← m2; m3) s = Some (inl a, s') -> (_ ← m1; _ ← m2; m3 ≫= f) s = f a s'.
Proof.
  unfold mbind, pk_mbind, pk_bind. destruct (m1 s) as [[[[]|]?]|]; try done.
  destruct (m2 _) as [[[[]|]?]|]; try done. by intros ->.
Qed.

Lemma bind_gets {S R A B} (g : S -> A) (f : A -> pk S R B) s : (gets g ≫= f) s = f (g s) s.
Proof. done. Qed.

Lemma bind_modify {S R B} (g : S -> S) (f : () -> pk S R B) s : (modify g ≫= f) s = f () (g s).
Proof. done. Qed.

Lemma bind_ret {S R A B} (a : A) (f : A -> pk S R B) s : (pk_ret a ≫= f) s = f a s.
Proof. done. Qed.

Lemma bind_defined {S R B} (P : Prop) `{Decision P} (f : () -> pk S R B) s :
  P -> (defined P ≫= f) s = f () s.
Proof. intros HP. unfold defined. by rewrite decide_True. Qed.

Lemma body_inl {S R} (m : pk S R R) s r s' : m s = Some (inl r, s') -> body m s = Some (r, s').
Proof. intros Hm. unfold body. by rewrite Hm. Qed.

Lemma body_return {S R} (m : pk S R R) s r s' :
  m s = Some (inr (Return r), s') -> body m s = Some (r, s').
Proof. intros Hm. unfold body. by rewrite Hm. Qed.

(** Takes the next elementary step of a body. *)
Ltac step := first
  [ rewrite bind_gets | rewrite bind_modify | rewrite bind_ret
  | rewrite bind_defined by (done || lia) ].
