(* ===== verification/Sql.v ===== *)
(** Sql: the transaction layer of src/sqlite/wrapper.c over a model of what it relies on in
    SQLite.

    The content of a database is a value of a type [D].  A statement is a function on it that
    fails, or gives the new content and the result rows.  Beyond that, SQLite may refuse any
    single operation: the schedule [faults] says, operation by operation, whether it is carried
    out ([None], and after the end of the schedule) or refused with some code, and whether the
    refusal rolls back the open transaction ("Several SQLite errors *sometimes* result in an
    automatic rollback").  Theorems quantify over the schedule, which is finite: contention does
    not last for ever.  One thread uses the connection at a time; taking the database lock while
    it is held is a wait that never ends, and is [None]. *)

From stdpp Require Import sorting.
From S2P Require Import Prelude Effects.

Inductive sqlite_code :=
  | SQLITE_OK | SQLITE_ERROR | SQLITE_BUSY | SQLITE_INTERRUPT | SQLITE_IOERR | SQLITE_FULL
  | SQLITE_CONSTRAINT | SQLITE_MISUSE | SQLITE_IOERR_BLOCKED | SQLITE_ROW | SQLITE_DONE.

#[global] Instance sqlite_code_eq_dec : EqDecision sqlite_code.
Proof. solve_decision. Defined.

(** Failures that depend on the circumstances, and failures that depend on the statement.  F_IOERR_BLOCKED
    is the one of sqlite3_step: sqlite3_prepare_v2 can give the same code, which alloc_query hands on
    without making BUSY of it, so that nothing is retried; such a refusal is an F_IOERR here. *)
Inductive sqlite_fault := F_BUSY | F_IOERR_BLOCKED | F_INTERRUPT | F_IOERR | F_FULL.
Inductive stmt_error := E_ERROR | E_CONSTRAINT.

#[global] Instance sqlite_fault_eq_dec : EqDecision sqlite_fault.
Proof. solve_decision. Defined.

Definition fault_code (f : sqlite_fault) : sqlite_code :=
  match f with
  | F_BUSY => SQLITE_BUSY | F_IOERR_BLOCKED => SQLITE_IOERR_BLOCKED
  | F_INTERRUPT => SQLITE_INTERRUPT | F_IOERR => SQLITE_IOERR | F_FULL => SQLITE_FULL
  end.

Definition error_code (e : stmt_error) : sqlite_code :=
  match e with E_ERROR => SQLITE_ERROR | E_CONSTRAINT => SQLITE_CONSTRAINT end.

Inductive sql (D A : Type) :=
  | Stmt (f : D -> stmt_error + D * list A)
  | BEGIN | COMMIT | ROLLBACK.
Arguments Stmt {D A} f.
Arguments BEGIN {D A}.
Arguments COMMIT {D A}.
Arguments ROLLBACK {D A}.

(** * The rows of a table *)

(** A table with an INTEGER PRIMARY KEY, read without ORDER BY: the rows come in the order of the key. *)
Definition by_key {A} (a b : Z * A) : Prop := a.1 <= b.1.
#[global] Instance by_key_dec {A} : RelDecision (@by_key A).
Proof. intros a b. unfold by_key. apply _. Defined.

Definition table_rows {A} (t : gmap Z A) : list (Z * A) := merge_sort by_key (map_to_list t).

#[global] Instance by_key_total {A} : Total (@by_key A).
Proof. intros a b. unfold by_key. lia. Qed.
#[global] Instance by_key_trans {A} : Transitive (@by_key A).
Proof. intros a b c. unfold by_key. lia. Qed.

Lemma table_rows_perm {A} (t : gmap Z A) : table_rows t ≡ₚ map_to_list t.
Proof. apply merge_sort_Permutation. Qed.

Lemma elem_of_table_rows {A} (t : gmap Z A) c x : (c, x) ∈ table_rows t <-> t !! c = Some x.
Proof. by rewrite table_rows_perm, elem_of_map_to_list. Qed.

Lemma NoDup_table_rows {A} (t : gmap Z A) : NoDup (table_rows t).
Proof. rewrite table_rows_perm. apply NoDup_map_to_list. Qed.

Lemma table_rows_lt {A} (t : gmap Z A) : StronglySorted Z.lt (table_rows t).*1.
Proof.
  assert (NoDup (table_rows t).*1) as Hnd by (rewrite table_rows_perm; apply NoDup_fst_map_to_list).
  pose proof (StronglySorted_merge_sort by_key (map_to_list t)) as Hs. fold (table_rows t) in Hs.
  induction (table_rows t) as [|kv l IH]; simpl in *; [constructor|].
  apply NoDup_cons in Hnd as [Hni Hnd]. apply StronglySorted_inv in Hs as [Hs Hle]. constructor; [by apply IH|].
  apply Forall_forall. intros c (kv' & -> & Hin)%list_elem_of_fmap. rewrite Forall_forall in Hle. specialize (Hle kv' Hin).
  unfold by_key in Hle. destruct (decide (kv.1 = kv'.1)) as [Heq|]; [|lia].
  destruct Hni. rewrite Heq. apply list_elem_of_fmap. eauto.
Qed.

(** * The connection: struct db, and the state of SQLite behind it

    [saved] is what a rollback restores; it is [None] in autocommit mode.  [locked] says that
    [lock] is held by the calling thread. *)
Record db (D : Type) := mk_db {
  data : D;
  saved : option D;
  faults : list (option (sqlite_fault * bool));
  locked : bool;
  result : sqlite_code;
  use_transaction : bool;
  retries : Z
}.
Arguments mk_db {D}.
Arguments data {D} _.
Arguments saved {D} _.
Arguments faults {D} _.
Arguments locked {D} _.
Arguments result {D} _.
Arguments use_transaction {D} _.
Arguments retries {D} _.

Section wrapper.
Context {D : Type}.
Implicit Types b : db D.

Definition set_conn (d : D) (s : option D) b : db D :=
  mk_db d s (faults b) (locked b) (result b) (use_transaction b) (retries b).
Definition set_faults fs b : db D :=
  mk_db (data b) (saved b) fs (locked b) (result b) (use_transaction b) (retries b).
Definition set_locked l b : db D :=
  mk_db (data b) (saved b) (faults b) l (result b) (use_transaction b) (retries b).
Definition set_result r b : db D :=
  mk_db (data b) (saved b) (faults b) (locked b) r (use_transaction b) (retries b).
Definition set_use_transaction t b : db D :=
  mk_db (data b) (saved b) (faults b) (locked b) (result b) t (retries b).

(** ** SQLite *)

Definition sqlite_rollback b : db D := set_conn (default (data b) (saved b)) None b.

(** A ROLLBACK that SQLite does not refuse as busy ends the transaction, whatever it reports
    (OP_AutoCommit of sqlite3.c). *)
Definition sqlite_refuse {A} (s : sql D A) (f : sqlite_fault) (abort : bool) b : db D :=
  match s with
  | ROLLBACK => if decide (f = F_BUSY \/ f = F_IOERR_BLOCKED) then b else sqlite_rollback b
  | _ => if abort then sqlite_rollback b else b
  end.

(** The code frees its queries before it ends the transaction.  (SQLite refuses to end one while a SELECT
    is active; where a failure makes the code do that, it is one of the refusals of the schedule.) *)
Definition sqlite_execute {A} (s : sql D A) b : sqlite_code * list A * db D :=
  match s with
  | Stmt f =>
      match f (data b) with
      | inl e => (error_code e, [], b)
      | inr (d, rows) =>
          (match rows with [] => SQLITE_DONE | _ => SQLITE_ROW end, rows, set_conn d (saved b) b)
      end
  | BEGIN =>
      match saved b with
      | Some _ => (SQLITE_ERROR, [], b)
      | None => (SQLITE_DONE, [], set_conn (data b) (Some (data b)) b)
      end
  | COMMIT =>
      match saved b with
      | Some _ => (SQLITE_DONE, [], set_conn (data b) None b)
      | None => (SQLITE_ERROR, [], b)
      end
  | ROLLBACK =>
      match saved b with
      | Some _ => (SQLITE_DONE, [], sqlite_rollback b)
      | None => (SQLITE_ERROR, [], b)
      end
  end.

(** One preparation and step of a statement. *)
Definition sqlite_run {A} (s : sql D A) b : sqlite_code * list A * db D :=
  match faults b with
  | Some (f, abort) :: fs => (fault_code f, [], sqlite_refuse s f abort (set_faults fs b))
  | None :: fs => sqlite_execute s (set_faults fs b)
  | [] => sqlite_execute s b
  end.

(** ** Queries *)

(** Releasing the lock when it is not held changes nothing, as with the default mutexes of Linux; POSIX leaves
    it undefined.  One caller can do that (iteration_body of HoardModes.v). *)
Definition db_get b : option (db D) := if locked b then None else Some (set_locked true b).
Definition db_put b : db D := set_locked false b.

(** The result code that query_next leaves: DONE is collapsed into OK and IOERR_BLOCKED into
    BUSY. *)
Definition collapse (c : sqlite_code) : sqlite_code :=
  match c with SQLITE_DONE => SQLITE_OK | SQLITE_IOERR_BLOCKED => SQLITE_BUSY | _ => c end.

Definition succeeded (c : sqlite_code) : bool :=
  match c with SQLITE_OK | SQLITE_ROW => true | _ => false end.

(** query: the returned flag, the rows (the first is the current one), the connection. *)
Definition query {A} (s : sql D A) b : bool * list A * db D :=
  if locked b then
    let '(c, rows, b) := sqlite_run s b in
    (succeeded (collapse c), rows, set_result (collapse c) b)
  else (false, [], set_result SQLITE_MISUSE b).

Definition query_next {A} (rows : list A) b : bool * list A * db D :=
  let '(c, rows, b) := sqlite_run (Stmt (fun d => inr (d, tail rows))) b in
  (succeeded (collapse c), rows, set_result (collapse c) b).

Definition query_has_row b : bool := bool_decide (result b = SQLITE_ROW).
Definition query_ok b : bool := bool_decide (result b = SQLITE_OK).
Definition query_busy b : bool := bool_decide (result b = SQLITE_BUSY).
Definition query_constrained b : bool := bool_decide (result b = SQLITE_CONSTRAINT).

Definition query_backoff b : db D :=
  mk_db (data b) (saved b) (faults b) (locked b) (result b) (use_transaction b)
    (u32 (retries b + 1)).

(** ** Transactions

    A retry follows a refusal, which uses up an element of the schedule: one more round than
    its length is enough for every loop. *)

Definition rounds b : nat := S (length (faults b)).

Fixpoint begin_loop (n : nat) b : option (bool * db D) :=
  match n with
  | O => None
  | S n =>
      let '(ok, _, b) := query (A:=()) BEGIN b in
      if ok then Some (true, b)
      else if query_busy b then begin_loop n b
      else Some (false, db_put b)
  end.

Definition _begin (transaction immediate : bool) b : option (bool * db D) :=
  b ← db_get b;
  let b := set_use_transaction transaction b in
  if transaction then begin_loop (rounds b) b else Some (true, b).

Definition begin : db D -> option (bool * db D) := _begin true false.

Fixpoint commit_loop (n : nat) b : option (bool * db D) :=
  match n with
  | O => None
  | S n =>
      if use_transaction b then
        let '(ok, _, b) := query (A:=()) COMMIT b in
        if ok then Some (true, db_put b)
        else if query_busy b then commit_loop n b
        else Some (false, b)
      else Some (true, db_put b)
  end.

Definition commit b : option (bool * db D) := commit_loop (rounds b) b.

Fixpoint rollback_loop (n : nat) b : option (bool * db D) :=
  match n with
  | O => None
  | S n =>
      let '(ok, _, b) := query (A:=()) ROLLBACK b in
      if negb ok && bool_decide (is_Some (saved b)) then
        if query_busy b then rollback_loop n b else Some (false, b)
      else Some (true, db_put b)
  end.

Definition rollback b : option (bool * db D) :=
  if use_transaction b then rollback_loop (rounds b) b else Some (false, b).

(** A query outside a transaction that is repeated, after a pause, as long as the database is
    busy (sql_conn_open, sql_setup_db, attach, vacuum). *)
Fixpoint query_retry {A} (n : nat) (s : sql D A) b : option (bool * db D) :=
  match n with
  | O => None
  | S n =>
      let '(ok, _, b) := query s b in
      if ok then Some (true, b)
      else if query_busy b then query_retry n s (query_backoff b)
      else Some (false, b)
  end.

(** A PRAGMA that changes a setting of the connection and nothing in the tables. *)
Definition pragma : sql D () := Stmt (fun d => inr (d, [])).

Definition sql_setup_db b : option (bool * db D) := query_retry (rounds b) pragma b.

(** [opened] is the connection's content if sqlite3_open and the two settings succeed. *)
Definition sql_conn_open (opened : option D) (fs : list (option (sqlite_fault * bool))) :
    option (option (db D)) :=
  match opened with
  | None => Some None
  | Some d =>
      let b := mk_db d None fs true SQLITE_OK false 0 in
      '(ok, b) ← query_retry (rounds b) pragma b;
      if ok : bool then
        '(ok, b) ← sql_setup_db b;
        if ok : bool then Some (Some (db_put b)) else Some None
      else Some None
  end.

(** [attach_to] and [detach] are the effects of ATTACH and DETACH on the content. *)
Definition attach (attach_to detach : D -> D) b : option (bool * db D) :=
  b ← db_get b;
  '(ok, b) ← query_retry (rounds b) (Stmt (A:=()) (fun d => inr (attach_to d, []))) b;
  if ok : bool then
    '(ok, b) ← sql_setup_db b;
    if ok : bool then Some (true, db_put b)
    else
      '(_, b) ← query_retry (rounds b) (Stmt (A:=()) (fun d => inr (detach d, []))) b;
      Some (false, db_put b)
  else Some (false, db_put b).
End wrapper.

(** * A state that holds a connection *)

Class HasDb (S D : Type) := {
  get_db : S -> db D;
  set_db : db D -> S -> S;
  get_set_db b s : get_db (set_db b s) = b;
  set_set_db b b' s : set_db b (set_db b' s) = set_db b s
}.

Section transactions.
Context {S D : Type} `{!HasDb S D}.

(** A call of a database operation from a function body. *)
Definition on_db {R A} (f : db D -> A * db D) : pk S R A := fun s =>
  let '(a, b) := f (get_db s) in Some (inl a, set_db b s).
Definition try_db {R A} (f : db D -> option (A * db D)) : pk S R A := fun s =>
  '(a, b) ← f (get_db s); Some (inl a, set_db b s).

(** The pattern of sql.h: "again:" the body, "bad:" roll back and start again if the database
    was busy, or else return. *)
Fixpoint again {R} (n : nat) (m : pk S R R) (s : S) : option (R * S) :=
  match n with
  | O => None
  | Datatypes.S n =>
      match m s with
      | None => None
      | Some (inl r, s) | Some (inr (Return r), s) => Some (r, s)
      | Some (inr (Goto_bad r), s) =>
          let retry := query_busy (get_db s) in
          '(_, b) ← rollback (get_db s);
          if retry then again n m (set_db (query_backoff b) s) else Some (r, set_db b s)
      end
  end.

Definition transaction {R} (m : pk S R R) (s : S) : option (R * S) :=
  again (rounds (get_db s)) m s.

(** One round of it, to the result or ([None]) to the jump back: what a process does without another
    process getting in between. *)
Definition attempt {R} (m : pk S R R) (s : S) : option (option R * S) :=
  match m s with
  | None => None
  | Some (inl r, s) | Some (inr (Return r), s) => Some (Some r, s)
  | Some (inr (Goto_bad r), s) =>
      let retry := query_busy (get_db s) in
      '(_, b) ← rollback (get_db s);
      Some (if retry then (None, set_db (query_backoff b) s) else (Some r, set_db b s))
  end.
End transactions.

(** * Lemmas *)

Section db_lemmas.
Context {D : Type}.
Implicit Types (b : db D) (d : D) (fs : list (option (sqlite_fault * bool))).

(** Mere contention: the refusals that a retry answers. *)
Definition contention (o : option (sqlite_fault * bool)) : Prop :=
  match o with
  | None | Some (F_BUSY, false) | Some (F_IOERR_BLOCKED, false) => True
  | _ => False
  end.

(** Between transactions; inside one that started from [d0]; and after a failure inside it, when
    the schedule was [fs] at the beginning. *)
Definition idle d b : Prop := locked b = false /\ saved b = None /\ data b = d.

Definition active d0 d b : Prop :=
  locked b = true /\ use_transaction b = true /\ saved b = Some d0 /\ data b = d /\
  result b <> SQLITE_BUSY.

Definition broken fs d0 b : Prop :=
  locked b = true /\ use_transaction b = true /\
  (saved b = Some d0 \/ saved b = None /\ data b = d0) /\
  (query_busy b = true -> (length (faults b) < length fs)%nat).

Definition within fs b : Prop := faults b `suffix_of` fs.

Lemma within_cons o fs fs' : o :: fs' `suffix_of` fs -> fs' `suffix_of` fs.
Proof. intros H. etrans; [|exact H]. by exists [o]. Qed.

Lemma within_contention fs b : within fs b -> Forall contention fs -> Forall contention (faults b).
Proof. intros [k ->] H. by apply Forall_app in H as [_ ?]. Qed.

Lemma within_refl b : within (faults b) b.
Proof. by exists []. Qed.

Lemma within_trans fs fs' b : fs' `suffix_of` fs -> within fs' b -> within fs b.
Proof. unfold within. intros H1 H2. by etrans. Qed.

Lemma query_busy_iff b : query_busy b = true <-> result b = SQLITE_BUSY.
Proof. unfold query_busy. by rewrite bool_decide_eq_true. Qed.

Lemma active_broken fs d0 d b : active d0 d b -> broken fs d0 b.
Proof.
  intros (? & ? & ? & ? & Hr). split_and!; auto. intros Hb%query_busy_iff. done.
Qed.

Lemma refusal_contention fs f abort rest :
  Some (f, abort) :: rest `suffix_of` fs -> Forall contention fs -> contention (Some (f, abort)).
Proof. intros [k ->] [_ Hc]%Forall_app. by apply Forall_cons in Hc as [? _]. Qed.

(** A statement inside a transaction: it takes effect, or the transaction is broken, which only
    an error of the statement or a refusal that is not mere contention makes final. *)
Lemma query_stmt {A} fs d0 d (f : D -> stmt_error + D * list A) b :
  active d0 d b -> within fs b ->
  exists ok rows b', query (Stmt f) b = (ok, rows, b') /\ within fs b' /\
    if ok then exists d', f d = inr (d', rows) /\ active d0 d' b' /\
                          result b' = match rows with [] => SQLITE_OK | _ => SQLITE_ROW end
    else rows = [] /\ broken fs d0 b' /\ result b' <> SQLITE_ROW /\
         (query_busy b' = false -> (exists e, f d = inl e) \/ ~ Forall contention fs).
Proof.
  intros (Hl & Hu & Hs & Hd & Hr) Hw. unfold query. rewrite Hl.
  assert (forall b0, saved b0 = Some d0 -> data b0 = d -> locked b0 = true ->
    use_transaction b0 = true -> within fs b0 ->
    exists ok rows b', (let '(c, rows, b) := sqlite_execute (Stmt f) b0 in
      (succeeded (collapse c), rows, set_result (collapse c) b)) = (ok, rows, b') /\ within fs b' /\
    if ok then exists d', f d = inr (d', rows) /\ active d0 d' b' /\
                          result b' = match rows with [] => SQLITE_OK | _ => SQLITE_ROW end
    else rows = [] /\ broken fs d0 b' /\ result b' <> SQLITE_ROW /\
         (query_busy b' = false -> (exists e, f d = inl e) \/ ~ Forall contention fs)) as Hexec.
  { intros b0 Hs0 Hd0 Hl0 Hu0 Hw0. simpl. rewrite Hd0. destruct (f d) as [e|[d' rows]] eqn:Hf.
    - exists false, [], (set_result (error_code e) b0). split; [by destruct e|]. split; [done|].
      split_and!; simpl; eauto; [|by destruct e]. split_and!; simpl; auto. by destruct e.
    - eexists _, _, _. split; [done|]. split; [done|]. destruct rows; simpl;
        (eexists; split; [done|]; split_and!; simpl; done). }
  unfold sqlite_run. destruct (faults b) as [|[[ft abort]|] rest] eqn:Hfs.
  - by apply Hexec.
  - eexists _, _, _. split; [done|]. unfold within in *. rewrite Hfs in Hw.
    assert (rest `suffix_of` fs) as Hsuf by (by eapply within_cons).
    assert (length rest < length fs)%nat as Hlt.
    { apply suffix_length in Hw. simpl in Hw. lia. }
    split. { destruct abort; simpl; done. }
    assert (succeeded (collapse (fault_code ft)) = false) as -> by (by destruct ft).
    split_and!; [done| | |].
    + split_and!; destruct abort; simpl; auto. rewrite Hs. auto.
    + by destruct ft.
    + intros Hnb. right. intros Hc. pose proof (refusal_contention _ _ _ _ Hw Hc).
      by destruct ft, abort.
  - unfold within in *. rewrite Hfs in Hw. apply Hexec; try done. by eapply within_cons.
Qed.

(** The schedule after a refused operation. *)
Ltac use_fault Hw Hfs Hsuf :=
  unfold within in *; rewrite Hfs in Hw; pose proof (within_cons _ _ _ Hw) as Hsuf.

Lemma begin_loop_spec fs d n b :
  locked b = true -> use_transaction b = true -> saved b = None -> data b = d ->
  (length (faults b) < n)%nat -> within fs b ->
  exists ok b', begin_loop n b = Some (ok, b') /\ within fs b' /\
    if ok then active d d b'
    else idle d b' /\ ~ Forall contention fs /\ (length (faults b') < length (faults b))%nat.
Proof.
  revert b. induction n as [|n IH]; intros b Hl Hu Hs Hd Hn Hw; [lia|].
  simpl. unfold query. rewrite Hl. unfold sqlite_run.
  destruct (faults b) as [|[[ft abort]|] rest] eqn:Hfs; simpl.
  - rewrite Hs. exists true. eexists. split; [done|]. split; [done|]. split_and!; simpl; try done.
    by rewrite Hd.
  - use_fault Hw Hfs Hsuf.
    assert (succeeded (collapse (fault_code ft)) = false) as -> by (by destruct ft).
    set (b' := set_result _ _).
    assert (saved b' = None /\ data b' = d /\ locked b' = true /\ use_transaction b' = true /\
            faults b' = rest /\ result b' = collapse (fault_code ft)) as (? & ? & ? & ? & Hr & Hres).
    { subst b'. destruct abort; simpl; rewrite ?Hs; auto 10. }
    clearbody b'.
    destruct (query_busy b') eqn:Hb.
    + destruct (IH b') as (ok & b'' & ? & ? & Hok); try done; [rewrite Hr; simpl in Hn; lia|by rewrite Hr|].
      exists ok, b''. split_and!; try done. destruct ok; [done|]. rewrite Hr in Hok. simpl.
      destruct Hok as (? & ? & ?). split_and!; try done. lia.
    + exists false. eexists. split; [done|]. simpl. rewrite Hr. split; [done|].
      split; [by split_and!|]. split; [|lia]. intros Hc. pose proof (refusal_contention _ _ _ _ Hw Hc).
      unfold query_busy in Hb. rewrite Hres in Hb. by destruct ft, abort.
  - use_fault Hw Hfs Hsuf. rewrite Hs. exists true. eexists. split; [done|]. split; [done|].
    split_and!; simpl; try done. by rewrite Hd.
Qed.

Lemma begin_spec fs d b :
  idle d b -> within fs b -> exists ok b', begin b = Some (ok, b') /\ within fs b' /\
    if ok then active d d b'
    else idle d b' /\ ~ Forall contention fs /\ (length (faults b') < length fs)%nat.
Proof.
  intros (Hl & Hs & Hd) Hw. unfold begin, _begin, db_get. rewrite Hl. cbn [mbind option_bind].
  destruct (begin_loop_spec fs d (rounds b) (set_use_transaction true (set_locked true b))) as (ok & b' & ? & ? & Hok);
    try done; [unfold rounds; simpl; lia|]. exists ok, b'. split_and!; try done. destruct ok; [done|].
  destruct Hok as (? & ? & ?). split_and!; try done. apply suffix_length in Hw. simpl in *. lia.
Qed.

(** The schedule has a refusal that is not mere contention, and one has been met. *)
Definition gave_up (fs : list (option (sqlite_fault * bool))) (b : db D) : Prop :=
  ~ Forall contention fs /\ (length (faults b) < length fs)%nat.

(** COMMIT: the transaction has taken effect, or can still be rolled back. *)
Lemma commit_loop_spec fs d0 d n b :
  locked b = true -> use_transaction b = true ->
  (saved b = Some d0 /\ data b = d \/ saved b = None /\ data b = d0 /\ gave_up fs b) ->
  (length (faults b) < n)%nat -> within fs b ->
  exists ok b', commit_loop n b = Some (ok, b') /\ within fs b' /\
    if ok then idle d b' else broken fs d0 b' /\ query_busy b' = false /\ gave_up fs b'.
Proof.
  revert b. induction n as [|n IH]; intros b Hl Hu Hs Hn Hw; [lia|].
  assert (forall b0, locked b0 = true -> use_transaction b0 = true -> within fs b0 ->
    (saved b0 = Some d0 /\ data b0 = d \/
     saved b0 = None /\ data b0 = d0 /\ gave_up fs b0) ->
    exists ok b', (let '(ok, _, b) :=
        let '(c, rows, b) := sqlite_execute (A:=()) COMMIT b0 in
        (succeeded (collapse c), rows, set_result (collapse c) b) in
      if ok then Some (true, db_put b) else if query_busy b then commit_loop n b
      else Some (false, b)) = Some (ok, b') /\ within fs b' /\
    if ok then idle d b' else broken fs d0 b' /\ query_busy b' = false /\ gave_up fs b')
    as Hexec.
  { intros b0 Hl0 Hu0 Hw0 [[Hs0 Hd0]|(Hs0 & Hd0 & Hc)]; simpl; rewrite Hs0; simpl.
    - exists true. eexists. split; [done|]. split; [done|]. by split_and!.
    - exists false. eexists. split; [done|]. split; [done|]. split; [|done].
      split_and!; simpl; auto. done. }
  simpl. rewrite Hu. unfold query. rewrite Hl. unfold sqlite_run.
  destruct (faults b) as [|[[ft abort]|] rest] eqn:Hfs.
  - by apply Hexec.
  - use_fault Hw Hfs Hsuf.
    assert (succeeded (collapse (fault_code ft)) = false) as -> by (by destruct ft).
    set (b' := set_result _ _).
    assert (length rest < length fs)%nat as Hlt by (apply suffix_length in Hw; simpl in Hw; lia).
    assert (abort = true -> ~ Forall contention fs) as Hab.
    { intros -> Hc. pose proof (refusal_contention _ _ _ _ Hw Hc). by destruct ft. }
    assert (locked b' = true /\ use_transaction b' = true /\ faults b' = rest /\
      (saved b' = Some d0 /\ data b' = d \/
       saved b' = None /\ data b' = d0 /\ gave_up fs b') /\
      result b' = collapse (fault_code ft)) as (? & ? & Hr & Hs' & Hres).
    { subst b'. destruct abort; simpl; split_and!; try done.
      - right. destruct Hs as [[-> _]|(-> & -> & ?)]; unfold gave_up; simpl; auto.
      - destruct Hs as [?|(? & ? & ? & _)]; [by left|right]. unfold gave_up. simpl. auto. }
    clearbody b'.
    destruct (query_busy b') eqn:Hb.
    + apply IH; try done; [rewrite Hr; simpl in Hn; lia|by rewrite Hr].
    + exists false. eexists. split; [done|]. rewrite Hr. split; [done|]. split_and!; [|done|].
      * split_and!; try done; [|by rewrite Hb]. destruct Hs' as [[? _]|(? & ? & _)]; auto.
      * split; [|by rewrite Hr]. intros Hc. pose proof (refusal_contention _ _ _ _ Hw Hc).
        unfold query_busy in Hb. rewrite Hres in Hb. by destruct ft, abort.
  - use_fault Hw Hfs Hsuf. apply Hexec; try done. destruct Hs as [?|(? & ? & ? & _)]; [by left|right].
    split_and!; try done. apply suffix_length in Hw. simpl in Hw. split; [done|]. simpl. lia.
Qed.

Lemma commit_spec fs d0 d b :
  active d0 d b -> within fs b -> exists ok b', commit b = Some (ok, b') /\ within fs b' /\
    if ok then idle d b' else broken fs d0 b' /\ query_busy b' = false /\ gave_up fs b'.
Proof.
  intros (Hl & Hu & Hs & Hd & _) Hw. apply commit_loop_spec; auto.
Qed.

Lemma rollback_loop_spec fs d0 n b :
  locked b = true -> use_transaction b = true ->
  (saved b = Some d0 \/ saved b = None /\ data b = d0) ->
  (length (faults b) < n)%nat -> within fs b ->
  exists b', rollback_loop n b = Some (true, b') /\ within fs b' /\ idle d0 b' /\
    (length (faults b') <= length (faults b))%nat.
Proof.
  revert b. induction n as [|n IH]; intros b Hl Hu Hs Hn Hw; [lia|].
  simpl. unfold query. rewrite Hl. unfold sqlite_run.
  destruct (faults b) as [|[[ft abort]|] rest] eqn:Hfs.
  - simpl. destruct Hs as [Hs|[Hs Hd]]; rewrite Hs; simpl.
    + eexists. split; [done|]. unfold idle. simpl. rewrite Hfs, Hs. split_and!; done.
    + rewrite bool_decide_false by (rewrite Hs; by intros [? ?]).
      eexists. split; [done|]. simpl. rewrite Hfs. by split_and!.
  - use_fault Hw Hfs Hsuf.
    assert (succeeded (collapse (fault_code ft)) = false) as -> by (by destruct ft).
    cbn [negb andb]. set (b' := set_result _ _).
    assert (locked b' = true /\ use_transaction b' = true /\ faults b' = rest /\
      (saved b' = Some d0 \/ saved b' = None /\ data b' = d0) /\
      (is_Some (saved b') -> query_busy b' = true)) as (? & ? & Hr & Hs' & Hbusy).
    { subst b'. simpl. case_decide as Hbf; simpl; rewrite ?Hr; split_and!; try done.
      - by destruct Hbf as [-> | ->].
      - right. by destruct Hs as [-> | [-> ->]]. }
    clearbody b'. case_bool_decide as Hsome.
    + rewrite Hbusy by done. destruct (IH b') as (b'' & ? & ? & ? & Hle); try done.
      { rewrite Hr. simpl in Hn. lia. } { by rewrite Hr. }
      exists b''. rewrite Hr in Hle. split_and!; try done. simpl. lia.
    + eexists. split; [done|]. simpl. rewrite Hr. split_and!; try done; [|simpl; lia].
      split_and!; simpl; try done.
      * destruct Hs' as [Hx|[-> _]]; [|done]. destruct Hsome. by rewrite Hx.
      * destruct Hs' as [Hx|[_ ->]]; [|done]. destruct Hsome. by rewrite Hx.
  - use_fault Hw Hfs Hsuf. simpl. destruct Hs as [Hs|[Hs Hd]]; rewrite Hs; simpl.
    + eexists. split; [done|]. unfold idle. simpl. rewrite Hs. split_and!; try done. lia.
    + rewrite bool_decide_false by (rewrite Hs; by intros [? ?]).
      eexists. split; [done|]. simpl. split_and!; try done. lia.
Qed.

Lemma rollback_spec fs d0 b :
  broken fs d0 b -> within fs b ->
  exists b', rollback b = Some (true, b') /\ within fs b' /\ idle d0 b' /\
    (length (faults b') <= length (faults b))%nat.
Proof.
  intros (Hl & Hu & Hs & _) Hw. unfold rollback. rewrite Hu. apply rollback_loop_spec; auto.
Qed.
End db_lemmas.

Section transaction_lemmas.
Context {S D : Type} `{!HasDb S D} {R : Type}.
Implicit Types (d : D) (s : S).

(** What a transaction body has to guarantee: started between transactions it returns with [Q],
    or jumps to "bad:" with the transaction broken.  [I] is an invariant of the rest of the state;
    [E] must hold of a result returned after a failure that is not retried, and of the number of
    refusals still to come. *)
Definition tx_exit_at (fs : list (option (sqlite_fault * bool))) d0 (I : S -> Prop)
    (Q : R -> S -> Prop) (E : R -> nat -> Prop) (e : exit R) s : Prop :=
  match e with
  | Return r => Q r s
  | Goto_bad r => broken fs d0 (get_db s) /\ within fs (get_db s) /\ I s /\
                  (query_busy (get_db s) = false -> E r (length (faults (get_db s))))
  end.

Definition tx_body_at d0 (I : S -> Prop) (Q : R -> S -> Prop) (E : R -> nat -> Prop) (m : pk S R R)
    (fs : list (option (sqlite_fault * bool))) : Prop :=
  triple (fun s => idle d0 (get_db s) /\ within fs (get_db s) /\ I s) m Q
    (tx_exit_at fs d0 I Q E).

(** A transaction ends: with the body's result, or rolled back with an error. *)
Lemma transaction_spec_at fs d0 (I : S -> Prop) Q E (m : pk S R R) s :
  (forall fs', fs' `suffix_of` fs -> tx_body_at d0 I Q E m fs') ->
  (forall b s, I s -> I (set_db b s)) ->
  (forall r n n', E r n -> (n' <= n)%nat -> E r n') ->
  idle d0 (get_db s) -> within fs (get_db s) -> I s ->
  exists r s', transaction m s = Some (r, s') /\
    (Q r s' \/ idle d0 (get_db s') /\ within fs (get_db s') /\ I s' /\ E r (length (faults (get_db s')))).
Proof.
  intros Hm HI HE. unfold transaction, rounds.
  assert (forall n s, (length (faults (get_db s)) < n)%nat -> idle d0 (get_db s) ->
    within fs (get_db s) -> I s -> exists r s', again n m s = Some (r, s') /\
      (Q r s' \/ idle d0 (get_db s') /\ within fs (get_db s') /\ I s' /\ E r (length (faults (get_db s')))))
    as Hagain; [|intros; apply Hagain; auto].
  clear s. induction n as [|n IH]; intros s Hn Hidle Hw Hs; [lia|]. simpl.
  destruct (Hm (faults (get_db s)) Hw s) as (r & s1 & Hr & Hpost).
  { split_and!; try done. apply within_refl. }
  rewrite Hr. destruct r as [r|[r|r]]; [by eauto|by eauto|].
  destruct Hpost as (Hb & Hw1 & HI1 & HEr).
  destruct (rollback_spec _ _ _ Hb Hw1) as (b & Hrb & Hwb & Hib & Hlb). rewrite Hrb.
  cbn [mbind option_bind]. destruct (query_busy (get_db s1)) eqn:Hbusy.
  - destruct Hb as (_ & _ & _ & Hlt). specialize (Hlt Hbusy).
    assert (forall b', get_db (set_db b' s1) = b') as Hget by (intros; apply get_set_db).
    apply IH; rewrite ?Hget; simpl; [lia|exact Hib| |by apply HI].
    unfold within in *. simpl. by etrans.
  - eexists _, _. split; [done|]. right. rewrite get_set_db. split_and!; auto.
    + unfold within in *. by etrans.
    + eapply HE; [by apply HEr|done].
Qed.

(** With a condition on the result alone. *)
Definition tx_exit fs d0 (I : S -> Prop) (Q : R -> S -> Prop) (E : R -> Prop) : exit R -> S -> Prop :=
  tx_exit_at fs d0 I Q (fun r _ => E r).

Definition tx_body d0 (I : S -> Prop) (Q : R -> S -> Prop) (E : R -> Prop) (m : pk S R R)
    (fs : list (option (sqlite_fault * bool))) : Prop :=
  tx_body_at d0 I Q (fun r _ => E r) m fs.

Lemma transaction_spec fs d0 (I : S -> Prop) Q E (m : pk S R R) s :
  (forall fs', fs' `suffix_of` fs -> tx_body d0 I Q E m fs') ->
  (forall b s, I s -> I (set_db b s)) ->
  idle d0 (get_db s) -> within fs (get_db s) -> I s ->
  exists r s', transaction m s = Some (r, s') /\
    (Q r s' \/ idle d0 (get_db s') /\ within fs (get_db s') /\ I s' /\ E r).
Proof. intros Hm HI. by apply (transaction_spec_at fs d0 I Q (fun r _ => E r)). Qed.

(** ** One round *)

Lemma again_attempt n (m : pk S R R) s :
  again (Datatypes.S n) m s = '(r, s) ← attempt m s; match r with Some r => Some (r, s) | None => again n m s end.
Proof.
  unfold attempt. simpl. destruct (m s) as [[[r|[r|r]] s']|]; try done.
  destruct (rollback (get_db s')) as [[ok b]|]; [|done]. simpl. by destruct (query_busy (get_db s')).
Qed.

Lemma attempt_spec fs d0 (I : S -> Prop) Q E (m : pk S R R) s :
  tx_body_at d0 I Q E m fs -> (forall b s, I s -> I (set_db b s)) ->
  idle d0 (get_db s) -> within fs (get_db s) -> I s ->
  exists r s', attempt m s = Some (r, s') /\
    ((exists v, r = Some v /\ Q v s') \/ idle d0 (get_db s') /\ I s').
Proof.
  intros Hm HI Hidle Hw Hs. unfold attempt. destruct (Hm s) as (r & s1 & Hr & Hpost); [by split_and!|].
  rewrite Hr. destruct r as [r|[r|r]]; [eexists _, _; split; [done|left; eauto]..|]. destruct Hpost as (Hb & Hw1 & HI1 & _).
  destruct (rollback_spec _ _ _ Hb Hw1) as (b & Hrb & _ & Hib & _). rewrite Hrb. cbn [mbind option_bind].
  destruct (query_busy (get_db s1)); (eexists _, _; split; [done|]; right; rewrite get_set_db; split; [exact Hib|by apply HI]).
Qed.

(** ** The steps of a body *)

Context (fs : list (option (sqlite_fault * bool))) (d0 : D).

Lemma tx_begin (I : S -> Prop) Q E (r : R) (m : () -> pk S R R) :
  (forall b s, I s -> I (set_db b s)) ->
  (forall s, idle d0 (get_db s) -> within fs (get_db s) -> I s -> ~ Forall contention fs ->
     (length (faults (get_db s)) < length fs)%nat -> Q r s) ->
  triple (fun s => active d0 d0 (get_db s) /\ within fs (get_db s) /\ I s) (m ()) Q
    (tx_exit_at fs d0 I Q E) ->
  triple (fun s => idle d0 (get_db s) /\ within fs (get_db s) /\ I s)
    (ok ← try_db begin; if ok : bool then m () else ret r) Q (tx_exit_at fs d0 I Q E).
Proof.
  intros HI HQ Hm s (Hi & Hw & Hs).
  destruct (begin_spec fs d0 (get_db s) Hi Hw) as (ok & b & Hb & Hwb & Hok).
  unfold mbind, pk_mbind, pk_bind, try_db. rewrite Hb. cbn [mbind option_bind].
  destruct ok.
  - apply Hm. rewrite get_set_db. auto.
  - destruct Hok as (? & ? & ?). exists (inr (Return r)). eexists. split; [done|]. simpl. apply HQ; auto.
    all: by rewrite get_set_db.
Qed.

Lemma tx_query {A} d (f : D -> stmt_error + D * list A) (I : S -> Prop) :
  (forall b s, I s -> I (set_db b s)) ->
  triple (fun s => active d0 d (get_db s) /\ within fs (get_db s) /\ I s)
    (on_db (query (Stmt f)) : pk S R _)
    (fun r s => within fs (get_db s) /\ I s /\
       let '(ok, rows) := r : bool * list A in
       if ok then exists d', f d = inr (d', rows) /\ active d0 d' (get_db s) /\
                  result (get_db s) = match rows with [] => SQLITE_OK | _ => SQLITE_ROW end
       else rows = [] /\ broken fs d0 (get_db s) /\ result (get_db s) <> SQLITE_ROW /\
         (query_busy (get_db s) = false -> (exists e, f d = inl e) \/ ~ Forall contention fs))
    (fun _ _ => False).
Proof.
  intros HI s (Ha & Hw & Hs).
  destruct (query_stmt fs d0 d f _ Ha Hw) as (ok & rows & b & Hq & Hwb & Hok).
  unfold on_db. rewrite Hq. eexists _, _. split; [done|]. simpl. rewrite !get_set_db. auto.
Qed.

Lemma tx_commit (I : S -> Prop) d :
  (forall b s, I s -> I (set_db b s)) ->
  triple (fun s => active d0 d (get_db s) /\ within fs (get_db s) /\ I s)
    (try_db commit : pk S R bool)
    (fun ok s => within fs (get_db s) /\ I s /\
       if ok then idle d (get_db s)
       else broken fs d0 (get_db s) /\ query_busy (get_db s) = false /\ gave_up fs (get_db s))
    (fun _ _ => False).
Proof.
  intros HI s (Ha & Hw & Hs).
  destruct (commit_spec fs d0 d _ Ha Hw) as (ok & b & Hb & Hwb & Hok).
  unfold try_db. rewrite Hb. eexists _, _. split; [done|]. simpl. rewrite !get_set_db. auto.
Qed.
End transaction_lemmas.
