(* ===== verification/SqlConn.v ===== *)
(** SqlConn: opening, attaching, vacuuming and checking a database (the rest of
    src/sqlite/wrapper.c), over the model of Sql.v. *)

From S2P Require Import Prelude Effects Sql.

(** A connection is a state that holds itself. *)
#[global] Program Instance db_self {D} : HasDb (db D) D := { get_db b := b; set_db b _ := b }.
Solve Obligations with done.

Section conn.
Context {D : Type}.
Implicit Types (b : db D) (d : D) (fs : list (option (sqlite_fault * bool))).

(** VACUUM rewrites the file and leaves the tables as they are. *)
Definition vacuum_stmt : sql D () := Stmt (fun d => inr (d, [])).

(** "SELECT * FROM sqlite_master LIMIT 1"; only its success matters. *)
Definition master_stmt : sql D () := Stmt (fun d => inr (d, [])).

(** The dummy transaction of vacuum. *)
Definition vacuum_body : pk (db D) bool bool :=
  ok ← try_db begin;
  if ok : bool then
    '(ok, _) ← on_db (query master_stmt);
    if negb ok then goto_bad false
    else
      ok ← try_db commit;
      if ok : bool then ret true else goto_bad false
  else ret false.

Definition vacuum b : option (bool * db D) :=
  b ← db_get b;
  '(ok, b) ← query_retry (rounds b) vacuum_stmt b;
  if ok : bool then transaction vacuum_body (db_put b) else Some (false, db_put b).

(** The loop over the messages, "for (; query_has_row(db); query_next(qry))". *)
Fixpoint messages_loop (n : nat) (rows : list bool) b : option (db D) :=
  match n with
  | O => None
  | S n =>
      if query_has_row b then
        let '(_, rows, b) := query_next rows b in
        messages_loop n rows b
      else Some b
  end.

(** [check] is the answer of "PRAGMA integrity_check(50)": the rows, of which the first is "ok" ([true])
    or a message. *)
Fixpoint validate_loop (n : nat) (check : D -> list bool) b : option (bool * db D) :=
  match n with
  | O => None
  | S n =>
      let '(_, rows, b) := query (Stmt (fun d => inr (d, check d))) b in
      if query_busy b then validate_loop n check (query_backoff b)
      else if negb (query_has_row b) then Some (false, db_put b)
      else
        match rows with
        | [] => None
        | true :: _ => Some (true, db_put b)
        | false :: _ => b ← messages_loop (S (length rows)) rows b; Some (false, db_put b)
        end
  end.

Definition validate_db (check : D -> list bool) b : option (bool * db D) :=
  b ← db_get b; validate_loop (rounds b) check b.

(** * Outside transactions *)

(** The connection is taken, and no transaction is open. *)
Definition bare d b : Prop := locked b = true /\ saved b = None /\ data b = d.

Lemma bare_query {A} fs d (f : D -> stmt_error + D * list A) b :
  bare d b -> within fs b ->
  exists ok rows b', query (Stmt f) b = (ok, rows, b') /\ within fs b' /\ ok = succeeded (result b') /\
    ((exists d', f d = inr (d', rows) /\ bare d' b' /\
        result b' = match rows with [] => SQLITE_OK | _ => SQLITE_ROW end) \/
     bare d b' /\ ok = false /\
       ((exists e, f d = inl e /\ query_busy b' = false) \/
        (length (faults b') < length (faults b))%nat /\ (query_busy b' = false -> ~ Forall contention fs))).
Proof.
  intros (Hl & Hs & Hd) Hw. unfold query. rewrite Hl. unfold sqlite_run.
  assert (forall b0, bare d b0 -> within fs b0 ->
    exists ok rows b', (let '(c, rows, b) := sqlite_execute (Stmt f) b0 in
      (succeeded (collapse c), rows, set_result (collapse c) b)) = (ok, rows, b') /\ within fs b' /\ ok = succeeded (result b') /\
    ((exists d', f d = inr (d', rows) /\ bare d' b' /\
        result b' = match rows with [] => SQLITE_OK | _ => SQLITE_ROW end) \/
     bare d b' /\ ok = false /\
       ((exists e, f d = inl e /\ query_busy b' = false) \/
        (length (faults b') < length (faults b))%nat /\ (query_busy b' = false -> ~ Forall contention fs)))) as Hexec.
  { intros b0 (Hl0 & Hs0 & Hd0) Hw0. simpl. rewrite Hd0. destruct (f d) as [e|[d' rows]].
    - eexists _, _, _. split; [done|]. split; [done|]. split; [by destruct e|]. right.
      split; [done|]. split; [by destruct e|]. left. exists e. split; [done|by destruct e].
    - eexists _, _, _. split; [done|]. split; [done|]. split; [by destruct rows|]. left. exists d'.
      split; [done|]. by destruct rows. }
  destruct (faults b) as [|[[ft abort]|] rest] eqn:Hfs.
  - by apply Hexec.
  - unfold within in *. rewrite Hfs in Hw. eexists _, _, _. split; [done|].
    split; [destruct abort; by eapply within_cons|]. split; [done|]. right.
    split; [destruct abort; split_and!; simpl; try done; by rewrite Hs|]. split; [by destruct ft|]. right.
    split; [destruct abort; simpl; lia|]. intros Hnb Hc. pose proof (refusal_contention _ _ _ _ Hw Hc). by destruct ft, abort.
  - unfold within in *. rewrite Hfs in Hw. apply Hexec; [done|by eapply within_cons].
Qed.

Lemma query_retry_spec {A} fs d (f : D -> stmt_error + D * list A) n b :
  bare d b -> within fs b -> (length (faults b) < n)%nat ->
  exists ok b', query_retry n (Stmt f) b = Some (ok, b') /\ within fs b' /\
    if ok then exists d' rows, f d = inr (d', rows) /\ bare d' b'
    else bare d b' /\ ((exists e, f d = inl e) \/ ~ Forall contention fs).
Proof.
  revert b. induction n as [|n IH]; intros b Hb Hw Hn; [lia|]. simpl.
  destruct (bare_query fs d f b Hb Hw) as (ok & rows & b' & -> & Hw' & Hok & Hout).
  destruct Hout as [(d' & Hf & Hb' & Hr)|(Hb' & -> & Hcase)].
  - assert (ok = true) as -> by (rewrite Hok, Hr; by destruct rows). eauto 8.
  - destruct (query_busy b') eqn:Hbusy.
    + destruct Hcase as [(e & _ & ?)|[Hlt _]]; [done|]. apply IH; [done|done|simpl; lia].
    + eexists _, _. split; [done|]. split; [done|]. split; [done|].
      destruct Hcase as [(e & He & _)|[_ Hc]]; [left; eauto|right; auto].
Qed.

Lemma idle_bare d b : idle d b -> exists b', db_get b = Some b' /\ bare d b' /\ faults b' = faults b.
Proof. intros (Hl & Hs & Hd). unfold db_get. rewrite Hl. by eexists. Qed.

Lemma bare_idle d b : bare d b -> idle d (db_put b).
Proof. by intros (_ & ? & ?). Qed.

(** ** Opening and attaching *)

Lemma sql_conn_open_spec (opened : option D) fs :
  exists r, sql_conn_open opened fs = Some r /\
    match r with
    | Some b => exists d, opened = Some d /\ idle d b /\ within fs b
    | None => opened = None \/ ~ Forall contention fs
    end.
Proof.
  unfold sql_conn_open. destruct opened as [d|]; [|exists None; split; [done|by left]]. set (b := mk_db _ _ _ _ _ _ _).
  assert (bare d b) as Hb by done. assert (within fs b) as Hw by apply within_refl.
  destruct (query_retry_spec fs d (fun d => inr (d, [] : list ())) (rounds b) b Hb Hw) as (ok & b1 & Hr & Hw1 & Hok);
    [unfold rounds; lia|].
  unfold pragma. rewrite Hr. cbn [mbind option_bind]. destruct ok.
  2:{ eexists. split; [done|]. right. by destruct Hok as [_ [(? & ?)|?]]. }
  destruct Hok as (d1 & rows & [= <- _] & Hb1). unfold sql_setup_db, pragma.
  destruct (query_retry_spec fs d (fun d => inr (d, [] : list ())) (rounds b1) b1 Hb1 Hw1) as (ok & b2 & Hr2 & Hw2 & Hok2);
    [unfold rounds; lia|].
  rewrite Hr2. cbn [mbind option_bind]. destruct ok.
  - destruct Hok2 as (d2 & rows2 & [= <- _] & Hb2). eexists. split; [done|]. exists d. split; [done|]. split; [by apply bare_idle|done].
  - eexists. split; [done|]. right. by destruct Hok2 as [_ [(? & ?)|?]].
Qed.

Lemma attach_spec fs (attach_to detach : D -> D) d b :
  idle d b -> within fs b ->
  exists ok b', attach attach_to detach b = Some (ok, b') /\ within fs b' /\
    if ok then idle (attach_to d) b'
    else (idle d b' \/ idle (attach_to d) b' \/ idle (detach (attach_to d)) b') /\ ~ Forall contention fs.
Proof.
  intros Hi Hw. unfold attach. destruct (idle_bare d b Hi) as (b0 & Hget & Hb & Hf). rewrite Hget. cbn [mbind option_bind].
  assert (within fs b0) as Hw0 by (unfold within; by rewrite Hf).
  destruct (query_retry_spec fs d (fun d => inr (attach_to d, [] : list ())) (rounds b0) b0 Hb Hw0) as (ok & b1 & -> & Hw1 & Hok);
    [unfold rounds; lia|].
  cbn [mbind option_bind]. destruct ok.
  2:{ destruct Hok as [Hb1 [(? & ?)|Hn]]; [done|]. eexists _, _. split; [done|]. split; [done|].
      split; [left; by apply bare_idle|done]. }
  destruct Hok as (d1 & rows & [= <- _] & Hb1). unfold sql_setup_db, pragma.
  destruct (query_retry_spec fs (attach_to d) (fun d => inr (d, [] : list ())) (rounds b1) b1 Hb1 Hw1) as (ok & b2 & -> & Hw2 & Hok2);
    [unfold rounds; lia|].
  cbn [mbind option_bind]. destruct ok.
  { destruct Hok2 as (d2 & rows2 & [= <- _] & Hb2). eexists _, _. split; [done|]. split; [done|]. by apply bare_idle. }
  destruct Hok2 as [Hb2 [(? & ?)|Hn]]; [done|].
  destruct (query_retry_spec fs (attach_to d) (fun d => inr (detach d, [] : list ())) (rounds b2) b2 Hb2 Hw2) as (ok & b3 & -> & Hw3 & Hok3);
    [unfold rounds; lia|].
  cbn [mbind option_bind]. eexists _, _. split; [done|]. split; [done|]. split; [|done]. destruct ok.
  - destruct Hok3 as (d3 & rows3 & [= <- _] & Hb3). right. right. by apply bare_idle.
  - right. left. by apply bare_idle, Hok3.
Qed.

(** ** Vacuuming and checking *)

Lemma vacuum_spec fs d b :
  idle d b -> within fs b ->
  exists ok b', vacuum b = Some (ok, b') /\ idle d b' /\ within fs b' /\ (ok = false -> ~ Forall contention fs).
Proof.
  intros Hi Hw. unfold vacuum, vacuum_stmt. destruct (idle_bare d b Hi) as (b0 & Hget & Hb & Hf). rewrite Hget. cbn [mbind option_bind].
  assert (within fs b0) as Hw0 by (unfold within; by rewrite Hf).
  destruct (query_retry_spec fs d (fun d => inr (d, [] : list ())) (rounds b0) b0 Hb Hw0) as (ok & b1 & -> & Hw1 & Hok);
    [unfold rounds; lia|].
  cbn [mbind option_bind]. destruct ok.
  2:{ destruct Hok as [Hb1 [(? & ?)|Hn]]; [done|]. eexists _, _. split; [done|]. split; [by apply bare_idle|done]. }
  destruct Hok as (d1 & rows & [= <- _] & Hb1).
  destruct (transaction_spec fs d (fun _ => True) (fun ok b' => idle d b' /\ within fs b' /\ (ok = false -> ~ Forall contention fs))
    (fun ok => ok = false -> ~ Forall contention fs) vacuum_body (db_put b1)) as (ok & b2 & Hr & Hpost); try done.
  - intros fs' Hfs. assert (~ Forall contention fs' -> ~ Forall contention fs) as Hcont.
    { intros Hn Hc. apply Hn. destruct Hfs as [k ->]. by apply Forall_app in Hc as [_ ?]. }
    apply (tx_begin fs' d (fun _ => True) _ _ false (fun _ => _)); [done| |].
    { intros b' Hb' Hwb' _ Hn _. split; [done|]. split; [|auto]. unfold within in *. by etrans. }
    eapply triple_bind.
    { eapply triple_fall; [apply (tx_query fs' d d (fun d => inr (d, [] : list ())) (fun _ => True)); done|done]. }
    intros [ok rows']. simpl. intros b2 (Hwb2 & _ & Hout). destruct ok; simpl.
    2:{ destruct Hout as (_ & Hbr & _ & Hcase). eexists _, _. split; [done|]. simpl. split_and!; try done.
        intros Hnb _. apply Hcont. by destruct (Hcase Hnb) as [(? & ?)|?]. }
    destruct Hout as (d' & [= <- <-] & Ha & _).
    destruct (tx_commit (S:=db D) (R:=bool) fs' d (fun _ => True) d) with (s := b2) as (r & b3 & Hr & Hpost); [done|by split_and!|].
    destruct r as [ok|]; [|done]. destruct Hpost as (Hwb3 & _ & Hok). rewrite (bind_step _ _ _ _ _ Hr).
    destruct ok; (eexists _, _; split; [done|]); simpl.
    + split; [done|]. split; [|done]. unfold within in *. by etrans.
    + destruct Hok as (? & ? & [Hn _]). split_and!; try done. intros _ _. by apply Hcont.
  - by apply bare_idle.
  - exists ok, b2. split; [done|]. destruct Hpost as [(? & ? & ?)|(? & ? & _ & ?)]; by split_and!.
Qed.

Lemma messages_loop_spec fs d n rows b :
  bare d b -> within fs b -> (length rows < n)%nat -> (rows = [] -> query_has_row b = false) ->
  exists b', messages_loop n rows b = Some b' /\ bare d b' /\ within fs b'.
Proof.
  revert rows b. induction n as [|n IH]; intros rows b Hb Hw Hn Hnil; [lia|]. simpl.
  destruct (query_has_row b) eqn:Hrow; [|by eauto]. destruct rows as [|r rows]; [by specialize (Hnil eq_refl)|].
  destruct (bare_query fs d (fun d => inr (d, rows)) b Hb Hw) as (ok & rows' & b' & Hq & Hw' & Hok & Hout).
  assert (query_next (r :: rows) b = (ok, rows', b')) as ->.
  { unfold query in Hq. destruct Hb as [Hl _]. rewrite Hl in Hq. exact Hq. }
  destruct Hout as [(d' & [= <- <-] & Hb' & Hr)|(Hb' & -> & _)].
  - apply IH; [done|done|simpl in *; lia|]. intros ->. unfold query_has_row. by rewrite Hr.
  - destruct n as [|n]; [simpl in *; lia|]. simpl. unfold query_has_row. symmetry in Hok.
    rewrite bool_decide_false by (intros Hr; by rewrite Hr in Hok). by eauto.
Qed.

#[local] Arguments messages_loop : simpl never.

Lemma validate_db_spec fs (check : D -> list bool) d b :
  idle d b -> within fs b ->
  exists ok b', validate_db check b = Some (ok, b') /\ idle d b' /\ within fs b' /\
    (ok = true -> head (check d) = Some true) /\ (head (check d) = Some true -> Forall contention fs -> ok = true).
Proof.
  intros Hi Hw. unfold validate_db. destruct (idle_bare d b Hi) as (b0 & Hget & Hb & Hf). rewrite Hget. cbn [mbind option_bind].
  assert (within fs b0) as Hw0 by (unfold within; by rewrite Hf). clear Hget Hf.
  assert (forall n b0, bare d b0 -> within fs b0 -> (length (faults b0) < n)%nat ->
    exists ok b', validate_loop n check b0 = Some (ok, b') /\ idle d b' /\ within fs b' /\
      (ok = true -> head (check d) = Some true) /\ (head (check d) = Some true -> Forall contention fs -> ok = true)) as Hloop;
    [clear b0 Hb Hw0|apply Hloop; [done|done|unfold rounds; lia]].
  induction n as [|n IH]; intros b0 Hb Hw0 Hn; [lia|]. simpl.
  destruct (bare_query fs d (fun d => inr (d, check d)) b0 Hb Hw0) as (ok & rows & b1 & Hq & Hw1 & Hok & Hout).
  rewrite Hq. destruct Hout as [(d' & [= <- Hrows] & Hb1 & Hr)|(Hb1 & -> & Hcase)].
  - unfold query_busy, query_has_row. rewrite Hr, Hrows. destruct rows as [|[] rows]; simpl.
    + eexists _, _. split; [done|]. split; [by apply bare_idle|]. by split.
    + eexists _, _. split; [done|]. split; [by apply bare_idle|]. by split.
    + destruct (messages_loop_spec fs d (S (S (length rows))) (false :: rows) b1 Hb1 Hw1) as (b2 & Hm & Hb2 & Hw2);
        [simpl; lia|done|].
      rewrite Hm. cbn [mbind option_bind]. eexists _, _. split; [done|]. split; [by apply bare_idle|done].
  - destruct (query_busy b1) eqn:Hbusy.
    + destruct Hcase as [(e & He & _)|[Hlt _]]; [done|]. apply IH; [done|done|simpl; lia].
    + assert (query_has_row b1 = false) as ->.
      { unfold query_has_row. apply bool_decide_eq_false. intros Hr. by rewrite Hr in Hok. }
      eexists _, _. split; [done|]. split; [by apply bare_idle|]. split; [done|]. split; [done|]. intros _ Hc.
      destruct Hcase as [(e & He & _)|[_ Hn']]; [done|]. by destruct (Hn' eq_refl).
Qed.

End conn.

(** * Transactions on a bare connection *)

Lemma query_flag {D A} (q : sql D A) b ok rows b' : query q b = (ok, rows, b') -> ok = succeeded (result b').
Proof.
  unfold query. destruct (locked b); [|by intros [= <- _ <-]]. destruct (sqlite_run q b) as [[c r] b1]. by intros [= <- _ <-].
Qed.

Section self.
Context {D R : Type} (fs : list (option (sqlite_fault * bool))) (d0 : D).
Context (Q : R -> db D -> Prop) (E : R -> Prop).
Implicit Types (d : D) (b : db D).

Local Abbreviation at_data d := (fun b => active d0 d b /\ within fs b).
Local Abbreviation leave := (tx_exit fs d0 (fun _ : db D => True) Q E).

(** A statement whose failure leads to "bad:". *)
Lemma self_stmt {A} d d' rows (q : D -> stmt_error + D * list A) (w : R) (k : list A -> pk (db D) R R) :
  q d = inr (d', rows) -> (~ Forall contention fs -> E w) -> triple (at_data d') (k rows) Q leave ->
  triple (at_data d) ('(ok, rows) ← on_db (query (Stmt q)); if negb ok then goto_bad w else k rows) Q leave.
Proof.
  intros Hq HE Hk b [Ha Hw].
  destruct (tx_query (S:=db D) (R:=R) fs d0 d q (fun _ => True)) with (s := b) as (r & b' & Hr & Hpost); [done|by split_and!|].
  destruct r as [[ok rows']|]; [|done]. destruct Hpost as (Hw' & _ & Hout). rewrite (bind_step _ _ _ _ _ Hr). destruct ok; simpl.
  - destruct Hout as (d1 & Hd1 & Ha' & _). rewrite Hq in Hd1. injection Hd1 as -> ->. by apply Hk.
  - destruct Hout as (_ & Hb & _ & Hcase). eexists _, _. split; [done|]. split_and!; try done. intros Hnb.
    apply HE. destruct (Hcase Hnb) as [(e & He)|?]; [congruence|done].
Qed.

(** A statement without rows whose success is asked for with query_ok. *)
Lemma self_define {A} d d' (q : D -> stmt_error + D * list A) (w : R) (k : pk (db D) R R) :
  q d = inr (d', []) -> (~ Forall contention fs -> E w) -> triple (at_data d') k Q leave ->
  triple (at_data d) (_ ← on_db (query (Stmt q)); ok ← gets query_ok; if negb ok then goto_bad w else k) Q leave.
Proof.
  intros Hq HE Hk b [Ha Hw].
  destruct (tx_query (S:=db D) (R:=R) fs d0 d q (fun _ => True)) with (s := b) as (r & b' & Hr & Hpost); [done|by split_and!|].
  destruct r as [[ok rows']|]; [|done]. destruct Hpost as (Hw' & _ & Hout). rewrite (bind_step _ _ _ _ _ Hr), bind_gets.
  simpl in Hout. destruct ok.
  - destruct Hout as (d1 & Hd1 & Ha' & Hres). rewrite Hq in Hd1. injection Hd1 as -> <-. unfold query_ok. rewrite Hres. by apply Hk.
  - destruct Hout as (_ & Hb & _ & Hcase). destruct (query_ok b') eqn:Hok; simpl.
    + exfalso. unfold on_db in Hr. simpl in Hr. destruct (query (Stmt q) b) as [[ok rows] b1] eqn:Hrun. injection Hr as -> -> ->.
      apply query_flag in Hrun. unfold query_ok in Hok. apply bool_decide_eq_true in Hok. by rewrite Hok in Hrun.
    + eexists _, _. split; [done|]. split_and!; try done. intros Hnb.
      apply HE. destruct (Hcase Hnb) as [(e & He)|?]; [congruence|done].
Qed.

Lemma self_commit d (v w : R) :
  (forall b, idle d b -> within fs b -> Q v b) -> (~ Forall contention fs -> E w) ->
  triple (at_data d) (ok ← try_db commit; if ok : bool then ret v else goto_bad w) Q leave.
Proof.
  intros HQ HE b [Ha Hw].
  destruct (tx_commit (S:=db D) (R:=R) fs d0 (fun _ => True) d) with (s := b) as (r & b' & Hr & Hpost); [done|by split_and!|].
  destruct r as [ok|]; [|done]. destruct Hpost as (Hw' & _ & Hok). rewrite (bind_step _ _ _ _ _ Hr).
  destruct ok; (eexists _, _; split; [done|]); simpl; [by apply HQ|].
  destruct Hok as (? & ? & [Hn _]). split_and!; auto.
Qed.
End self.

(** A whole transaction that starts with "begin" and goes on with [m]. *)
Lemma self_transaction {D R} fs d0 (Q : R -> db D -> Prop) (E : R -> Prop) (w : R) (m : pk (db D) R R) b :
  idle d0 b -> within fs b -> (~ Forall contention fs -> E w) ->
  (forall fs', fs' `suffix_of` fs -> triple (fun b => active d0 d0 b /\ within fs' b) m Q (tx_exit fs' d0 (fun _ => True) Q E)) ->
  exists r b', transaction (ok ← try_db begin; if ok : bool then m else ret w) b = Some (r, b') /\
    (Q r b' \/ idle d0 b' /\ within fs b' /\ E r).
Proof.
  intros Hi Hw HE Hm.
  destruct (transaction_spec fs d0 (fun _ => True) (fun r b' => Q r b' \/ idle d0 b' /\ within fs b' /\ E r) E
    (ok ← try_db begin; if ok : bool then m else ret w) b) as (r & b' & Hr & Hpost); try done.
  - intros fs' Hfs. apply (tx_begin fs' d0 (fun _ => True) _ _ w (fun _ => m)); [done| |].
    { intros b' Hb' Hwb' _ Hn _. right. split; [done|]. split; [unfold within in *; by etrans|]. apply HE. intros Hc. apply Hn.
      destruct Hfs as [k ->]. by apply Forall_app in Hc as [_ ?]. }
    eapply triple_weaken; [apply (Hm fs' Hfs)|by intros b' (? & ? & _)|by left|].
    intros [r|r] b'; simpl; [by left|done].
  - exists r, b'. split; [done|]. destruct Hpost as [?|(? & ? & _ & ?)]; [done|by right].
Qed.


