(* ===== verification/SqlRows.v ===== *)
(** SqlRows: the pattern "for (query(&qry, db, ...); query_has_row(db); query_next(qry))" of
    src/parcelkeeper, as a loop over the rows that the statement gave, with the rule by which its
    users reason about it; and the rules for the single steps of a transaction on a state that has a
    connection among other things. *)

From S2P Require Import Prelude Effects Sql SqlConn.

Section loop.
Context {S D R A : Type} `{!HasDb S D}.

(** [r :: _] is the current row; each round takes one. *)
Fixpoint each_row (n : nat) (m : A -> pk S R ()) (rows : list A) : pk S R () :=
  match n with
  | O => fault
  | Datatypes.S n =>
      has ← gets (fun s => query_has_row (get_db s));
      if has : bool then
        match rows with
        | [] => fault
        | r :: _ =>
            _ ← m r;
            '(_, rows) ← on_db (query_next rows);
            each_row n m rows
        end
      else pk_ret ()
  end.

Definition for_each (q : D -> stmt_error + D * list A) (m : A -> pk S R ()) : pk S R () :=
  '(_, rows) ← on_db (query (Stmt q));
  each_row (Datatypes.S (length rows)) m rows.
End loop.

(** A statement in one of whose steps nothing but the connection changes. *)
Definition stable {S D} `{!HasDb S D} (I : S -> Prop) : Prop := forall b s, I s -> I (set_db b s).

(** [ret] and [goto_bad] alike. *)
Definition escape {S R A} (x : exit R) : pk S R A := fun s => Some (inr x, s).

(** ** Single steps *)

Section generic.
Context {S D : Type} `{!HasDb S D} (fs : list (option (sqlite_fault * bool))) (d0 : D).

Definition at_data (d : D) (P : S -> Prop) (s : S) : Prop :=
  active d0 d (get_db s) /\ within fs (get_db s) /\ P s.

(** What a failure leaves. *)
Definition failed (P : S -> Prop) (s : S) : Prop :=
  broken fs d0 (get_db s) /\ within fs (get_db s) /\ P s /\
  (query_busy (get_db s) = false -> ~ Forall contention fs).

(** A statement, whose failure leads out of the function, one way or the other. *)
Lemma any_stmt_step {R A B} (x : exit R) d d' rows (q : D -> stmt_error + D * list A) P (k : list A -> pk S R B) QQ X :
  q d = inr (d', rows) -> stable P -> (forall s, failed P s -> X x s) ->
  triple (at_data d' P) (k rows) QQ X ->
  triple (at_data d P)
    ('(ok, rows) ← on_db (query (Stmt q)); if negb ok then escape x else k rows) QQ X.
Proof.
  intros Hq HP HX Hk s (Ha & Hw & Hs).
  destruct (tx_query (R:=R) fs d0 d q P HP) with (s := s) as (r & s' & Hr & Hpost); [by split_and!|].
  destruct r as [[ok rows']|]; [|done]. destruct Hpost as (Hw' & HP' & Hout). rewrite (bind_step _ _ _ _ _ Hr).
  destruct ok; simpl.
  - destruct Hout as (d1 & Hd1 & Ha' & _). rewrite Hq in Hd1. injection Hd1 as -> ->. apply Hk. by split_and!.
  - destruct Hout as (_ & Hb & _ & Hcase). eexists _, _. split; [done|]. apply HX. split_and!; try done.
    intros Hnb. destruct (Hcase Hnb) as [(e & He)|?]; [congruence|done].
Qed.

(** One that must give a row, which "query_has_row" asks for. *)
Lemma one_row_step {R A B} (x : exit R) d r rows (q : D -> stmt_error + D * list A) P (k : list A -> pk S R B) QQ X :
  q d = inr (d, r :: rows) -> stable P -> (forall s, failed P s -> X x s) ->
  triple (at_data d P) (k (r :: rows)) QQ X ->
  triple (at_data d P)
    ('(_, rows) ← on_db (query (Stmt q));
     has ← gets (fun s => query_has_row (get_db s));
     if negb has then escape x else k rows) QQ X.
Proof.
  intros Hq HP HX Hk s (Ha & Hw & Hs).
  destruct (tx_query (R:=R) fs d0 d q P HP) with (s := s) as (y & s' & Hr & Hpost); [by split_and!|].
  destruct y as [[ok rows']|]; [|done]. destruct Hpost as (Hw' & HP' & Hout). rewrite (bind_step _ _ _ _ _ Hr), bind_gets.
  unfold query_has_row. destruct ok.
  - destruct Hout as (d1 & Hd1 & Ha' & Hres). rewrite Hq in Hd1. injection Hd1 as <- <-. rewrite Hres.
    apply Hk. by split_and!.
  - destruct Hout as (_ & Hb & Hne & Hcase). rewrite bool_decide_false by done. eexists _, _. split; [done|].
    apply HX. split_and!; try done. intros Hnb. destruct (Hcase Hnb) as [(e & He)|?]; [congruence|done].
Qed.

(** "begin", and what follows it. *)
Lemma begin_step {R} (w : R) P (m : pk S R R) QQ X :
  stable P ->
  (forall s, idle d0 (get_db s) -> within fs (get_db s) -> P s -> ~ Forall contention fs -> X (Return w) s) ->
  triple (at_data d0 P) m QQ X ->
  triple (fun s => idle d0 (get_db s) /\ within fs (get_db s) /\ P s)
    (ok ← try_db begin; if ok : bool then m else ret w) QQ X.
Proof.
  intros HP HX Hm s (Hi & Hw & Hs). destruct (begin_spec fs d0 (get_db s) Hi Hw) as (ok & b & Hb & Hwb & Hok).
  erewrite bind_step by (unfold try_db; by rewrite Hb). destruct ok.
  - apply Hm. unfold at_data. rewrite get_set_db. auto.
  - destruct Hok as (? & ? & _). eexists _, _. split; [done|]. apply HX; rewrite ?get_set_db; auto.
Qed.
End generic.

(** ** Steps of a transaction with an invariant *)

Section steps.
Context {S D R : Type} `{!HasDb S D} (fs : list (option (sqlite_fault * bool))) (d0 : D).
Context (Q : R -> S -> Prop) (E : R -> Prop) (I : S -> Prop) (HI : stable I).

Local Abbreviation leave := (tx_exit fs d0 I Q E).
Local Abbreviation at_data := (at_data fs d0).
Local Abbreviation failed := (failed fs d0).

Lemma failed_leave P (w : R) s :
  (forall s, P s -> I s) -> (~ Forall contention fs -> E w) -> failed P s -> leave (Goto_bad w) s.
Proof. intros HPI HE (? & ? & ? & ?). split_and!; auto. Qed.

Lemma tx_start P (w : R) (m : pk S R R) :
  stable P ->
  (forall s, idle d0 (get_db s) -> within fs (get_db s) -> P s -> ~ Forall contention fs -> Q w s) ->
  triple (at_data d0 P) m Q leave ->
  triple (fun s => idle d0 (get_db s) /\ within fs (get_db s) /\ P s)
    (ok ← try_db begin; if ok : bool then m else ret w) Q leave.
Proof. intros HP HQ. by apply begin_step. Qed.

(** A statement whose failure leads to "bad:". *)
Lemma tx_stmt_step {A B} d d' rows (q : D -> stmt_error + D * list A) P (w : R) (k : list A -> pk S R B) QQ :
  q d = inr (d', rows) -> (forall s, P s -> I s) -> stable P -> (~ Forall contention fs -> E w) ->
  triple (at_data d' P) (k rows) QQ leave ->
  triple (at_data d P) ('(ok, rows) ← on_db (query (Stmt q)); if negb ok then goto_bad w else k rows) QQ leave.
Proof. intros Hq HPI HP HE. apply (any_stmt_step fs d0 (Goto_bad w) d d' rows); [done|done|]. intros s. by apply failed_leave. Qed.

(** One about which nothing is known when it fails. *)
Lemma tx_any_step {A B} d (q : D -> stmt_error + D * list A) P (w : R) (k : list A -> pk S R B) QQ :
  (forall s, P s -> I s) -> stable P -> E w ->
  (forall d' rows, q d = inr (d', rows) -> triple (at_data d' P) (k rows) QQ leave) ->
  triple (at_data d P) ('(ok, rows) ← on_db (query (Stmt q)); if negb ok then goto_bad w else k rows) QQ leave.
Proof.
  intros HPI HP HE Hk s (Ha & Hw & Hs).
  destruct (tx_query (R:=R) fs d0 d q P HP) with (s := s) as (r & s' & Hr & Hpost); [by split_and!|].
  destruct r as [[ok rows']|]; [|done]. destruct Hpost as (Hw' & HP' & Hout). rewrite (bind_step _ _ _ _ _ Hr).
  destruct ok; simpl.
  - destruct Hout as (d1 & Hd1 & Ha' & _). apply (Hk d1 rows' Hd1). by split_and!.
  - destruct Hout as (_ & Hb & _ & _). eexists _, _. split; [done|]. split_and!; auto.
Qed.

Lemma tx_row_step {A B} d r rows (q : D -> stmt_error + D * list A) P (w : R) (k : list A -> pk S R B) QQ :
  q d = inr (d, r :: rows) -> (forall s, P s -> I s) -> stable P -> (~ Forall contention fs -> E w) ->
  triple (at_data d P) (k (r :: rows)) QQ leave ->
  triple (at_data d P)
    ('(_, rows) ← on_db (query (Stmt q));
     has ← gets (fun s => query_has_row (get_db s)); if negb has then goto_bad w else k rows) QQ leave.
Proof. intros Hq HPI HP HE. apply (one_row_step fs d0 (Goto_bad w) d r rows); [done|done|]. intros s. by apply failed_leave. Qed.

Lemma tx_commit_step {B} d P (v w : R) QQ :
  (forall s, P s -> I s) -> stable P -> (~ Forall contention fs -> E w) ->
  (forall s, idle d (get_db s) -> within fs (get_db s) -> P s -> Q v s) ->
  triple (at_data d P) (ok ← try_db commit; if ok : bool then ret v else (goto_bad w : pk S R B)) QQ leave.
Proof.
  intros HPI HP HE HQ s (Ha & Hw & Hs).
  destruct (tx_commit (R:=R) fs d0 P d HP) with (s := s) as (x & s' & Hr & Hpost); [by split_and!|].
  destruct x as [ok|]; [|done]. destruct Hpost as (Hw' & HP' & Hout). rewrite (bind_step _ _ _ _ _ Hr).
  destruct ok; (eexists _, _; split; [done|]); simpl; [by apply HQ|].
  destruct Hout as (? & ? & [Hn _]). split_and!; auto.
Qed.

(** The end of a transaction that only looks. *)
Lemma rollback_ok d P s :
  stable P -> at_data d P s ->
  exists s', (try_db rollback : pk S R bool) s = Some (inl true, s') /\
    idle d0 (get_db s') /\ within fs (get_db s') /\ P s'.
Proof.
  intros HP (Ha & Hw & Hs). destruct (rollback_spec fs d0 (get_db s)) as (b & Hb & Hwb & Hib & _);
    [by eapply active_broken|done|].
  unfold try_db. rewrite Hb. eexists. split; [done|]. rewrite get_set_db. auto.
Qed.

(** ** The loop *)

Context {A : Type} (J : list A -> D -> S -> Prop) (HJ : forall rows d, stable (J rows d)).

(** After the loop: all rows have been dealt with, or a step to the next one failed. *)
Definition rows_done (s : S) : Prop :=
  within fs (get_db s) /\
  if query_ok (get_db s) then exists d, active d0 d (get_db s) /\ J [] d s
  else broken fs d0 (get_db s) /\ (exists rows d, J rows d s) /\
       (query_busy (get_db s) = false -> ~ Forall contention fs).

Definition before_row (rows : list A) (s : S) : Prop :=
  (exists d, at_data d (J rows d) s) /\
    result (get_db s) = match rows with [] => SQLITE_OK | _ => SQLITE_ROW end \/
  rows = [] /\ query_has_row (get_db s) = false /\ query_ok (get_db s) = false /\ rows_done s.

(** The state after a query or a step to the next row. *)
Lemma rows_step (q : D -> stmt_error + D * list A) d d' rows s ok rows' b :
  q d = inr (d', rows) -> at_data d (J rows d') s -> query (Stmt q) (get_db s) = (ok, rows', b) ->
  before_row rows' (set_db b s) /\ (rows' = rows \/ rows' = []).
Proof.
  intros Hq (Ha & Hw & Hs) Hb. destruct (query_stmt fs d0 d q _ Ha Hw) as (ok' & r & b' & Hb' & Hwb & Hout).
  rewrite Hb in Hb'. injection Hb' as <- <- <-. apply query_flag in Hb. destruct ok.
  - destruct Hout as (d1 & Hd1 & Ha' & Hres). rewrite Hq in Hd1. injection Hd1 as <- <-. split; [|by left].
    left. split; [|by rewrite get_set_db]. exists d'. unfold at_data. rewrite get_set_db. split_and!; try done. by apply HJ.
  - destruct Hout as (-> & Hbr & Hne & Hcase). split; [|by right]. right. split; [done|].
    unfold rows_done. rewrite get_set_db. unfold query_has_row. rewrite bool_decide_false by done.
    assert (query_ok b = false) as ->. { unfold query_ok. apply bool_decide_eq_false. intros Hr. by rewrite Hr in Hb. }
    split_and!; try done; [exists rows, d'; by apply HJ|]. intros Hnb.
    destruct (Hcase Hnb) as [(e & He)|?]; [congruence|done].
Qed.

Lemma each_row_ok n (m : A -> pk S R ()) rows X :
  (length rows < n)%nat ->
  (forall r rest d, triple (fun s => at_data d (J (r :: rest) d) s /\ query_has_row (get_db s) = true) (m r)
     (fun _ s => exists d', at_data d' (J rest d') s) X) ->
  triple (before_row rows) (each_row n m rows) (fun _ => rows_done) X.
Proof.
  intros Hn Hm. revert rows Hn. induction n as [|n IH]; intros rows Hn; [lia|]. cbn [each_row].
  intros s Hs. rewrite bind_gets. unfold query_has_row at 1. destruct Hs as [[(d & Hs) Hr]|(-> & Hrow & _ & Hd)].
  - rewrite Hr. destruct rows as [|r rest].
    + eexists _, _. split; [done|]. destruct Hs as (? & ? & ?). split; [done|]. unfold query_ok. rewrite Hr. simpl. eauto.
    + simpl. assert (query_has_row (get_db s) = true) as Hrow by (unfold query_has_row; by rewrite Hr).
      destruct (Hm r rest d s (conj Hs Hrow)) as (x & s' & Hx & Hpost). clear Hr Hrow.
      destruct x as [[]|e]; [|eexists _, _; split; [unfold mbind, pk_mbind, pk_bind; by rewrite Hx|done]].
      rewrite (bind_step _ _ _ _ _ Hx). destruct Hpost as (d' & Hs').
      destruct (query_next (r :: rest) (get_db s')) as [[ok rows'] b] eqn:Hq.
      assert (query (Stmt (fun d => inr (d, rest))) (get_db s') = (ok, rows', b)) as Hq'.
      { pose proof Hs' as ((Hl & _) & _). unfold query. rewrite Hl. exact Hq. }
      eapply (rows_step _ d' d') in Hq' as [Hb Hrows]; [|done|done].
      erewrite bind_step by (unfold on_db; by rewrite Hq). apply IH; [|done].
      destruct Hrows as [-> | ->]; simpl in *; lia.
  - fold (query_has_row (get_db s)). rewrite Hrow. eexists _, _. by split.
Qed.

(** The loop, whose body is run only while there is a row. *)
Lemma for_each_row (q : D -> stmt_error + D * list A) (m : A -> pk S R ()) d d' rows X :
  q d = inr (d', rows) ->
  (forall r rest d, triple (fun s => at_data d (J (r :: rest) d) s /\ query_has_row (get_db s) = true) (m r)
     (fun _ s => exists d', at_data d' (J rest d') s) X) ->
  triple (at_data d (J rows d')) (for_each q m) (fun _ => rows_done) X.
Proof.
  intros Hq Hm s Hs. unfold for_each. destruct (query (Stmt q) (get_db s)) as [[ok rows'] b] eqn:Hb.
  erewrite bind_step by (unfold on_db; by rewrite Hb). eapply rows_step in Hb as [Hb _]; [|done|done].
  by apply (each_row_ok (Datatypes.S (length rows')) m rows'); [lia|..].
Qed.

Lemma for_each_ok (q : D -> stmt_error + D * list A) (m : A -> pk S R ()) d d' rows X :
  q d = inr (d', rows) ->
  (forall r rest d, triple (at_data d (J (r :: rest) d)) (m r) (fun _ s => exists d', at_data d' (J rest d') s) X) ->
  triple (at_data d (J rows d')) (for_each q m) (fun _ => rows_done) X.
Proof. intros Hq Hm. apply for_each_row; [done|]. intros r rest d1 s [Hs _]. exact (Hm r rest d1 s Hs). Qed.
End steps.

(** * Rounds with a measure

    The invariant of a round may depend on the number of refusals still to come, of which a round that
    is not the last uses one. *)
Section rounds.
Context {S D R : Type} `{!HasDb S D} (d0 : D) (I : nat -> S -> Prop) (Q F : R -> S -> Prop).

Definition round_exit (fs : list (option (sqlite_fault * bool))) (e : exit R) (s : S) : Prop :=
  match e with
  | Return r => Q r s
  | Goto_bad r => broken fs d0 (get_db s) /\ within fs (get_db s) /\
      (query_busy (get_db s) = true -> forall k, (k < length fs)%nat -> I k s) /\
      (query_busy (get_db s) = false -> F r s)
  end.

Lemma transaction_rounds fs (m : pk S R R) s :
  (forall fs', fs' `suffix_of` fs ->
     triple (fun s => idle d0 (get_db s) /\ within fs' (get_db s) /\ I (length fs') s) m Q (round_exit fs')) ->
  (forall k, stable (I k)) -> (forall r, stable (F r)) ->
  idle d0 (get_db s) -> within fs (get_db s) -> I (length (faults (get_db s))) s ->
  exists r s', transaction m s = Some (r, s') /\
    (Q r s' \/ idle d0 (get_db s') /\ within fs (get_db s') /\ F r s').
Proof.
  intros Hm HI HF. unfold transaction, rounds.
  assert (forall n s, (length (faults (get_db s)) < n)%nat -> idle d0 (get_db s) -> within fs (get_db s) ->
    I (length (faults (get_db s))) s -> exists r s', again n m s = Some (r, s') /\
      (Q r s' \/ idle d0 (get_db s') /\ within fs (get_db s') /\ F r s')) as Hagain; [|intros; apply Hagain; auto].
  clear s. induction n as [|n IH]; intros s Hn Hidle Hw Hs; [lia|]. simpl.
  destruct (Hm (faults (get_db s)) Hw s) as (r & s1 & Hr & Hpost); [split_and!; try done; apply within_refl|].
  rewrite Hr. destruct r as [r|[r|r]]; [by eauto|by eauto|]. destruct Hpost as (Hb & Hw1 & HI1 & HF1).
  destruct (rollback_spec _ _ _ Hb Hw1) as (b & Hrb & Hwb & Hib & Hlb). rewrite Hrb. cbn [mbind option_bind].
  destruct (query_busy (get_db s1)) eqn:Hbusy.
  - destruct Hb as (_ & _ & _ & Hlt). specialize (Hlt Hbusy). apply IH; rewrite ?get_set_db; simpl; [lia|exact Hib| |].
    + by eapply within_trans.
    + apply HI, HI1; [done|lia].
  - eexists _, _. split; [done|]. right. rewrite get_set_db. split; [done|]. split; [by eapply within_trans|]. by apply HF, HF1.
Qed.
End rounds.

(** * Transactions whose "bad:" may be reached without one *)

Lemma rollback_idle {D} (d : D) b :
  idle d b -> exists ok b', rollback b = Some (ok, b') /\ idle d b' /\ faults b' = faults b.
Proof.
  intros (Hl & Hs & Hd). unfold rollback. destruct (use_transaction b); [|by eexists _, _].
  unfold rounds. cbn [rollback_loop]. unfold query. rewrite Hl. cbn. rewrite Hs.
  by eexists _, _.
Qed.

Section endings.
Context {S D R : Type} `{!HasDb S D} (d0 : D) (I : S -> Prop) (Q F : R -> S -> Prop).

(** "bad:" rolls back and either starts again, a refusal later, or ends the function. *)
Definition ends_badly (fs : list (option (sqlite_fault * bool))) (r : R) (s : S) : Prop :=
  exists ok b, rollback (get_db s) = Some (ok, b) /\ within fs b /\ idle d0 b /\
    if query_busy (get_db s) then (length (faults b) < length fs)%nat /\ I s else F r (set_db b s).

Definition ending (fs : list (option (sqlite_fault * bool))) (e : exit R) (s : S) : Prop :=
  match e with Return r => Q r s | Goto_bad r => ends_badly fs r s end.

Lemma transaction_ends fs (m : pk S R R) s :
  (forall fs', fs' `suffix_of` fs -> triple (fun s => idle d0 (get_db s) /\ within fs' (get_db s) /\ I s) m Q (ending fs')) ->
  stable I -> idle d0 (get_db s) -> within fs (get_db s) -> I s ->
  exists r s', transaction m s = Some (r, s') /\ (Q r s' \/ F r s').
Proof.
  intros Hm HI. unfold transaction, rounds.
  assert (forall n s, (length (faults (get_db s)) < n)%nat -> idle d0 (get_db s) -> within fs (get_db s) -> I s ->
    exists r s', again n m s = Some (r, s') /\ (Q r s' \/ F r s')) as Hagain; [|intros; apply Hagain; auto].
  clear s. induction n as [|n IH]; intros s Hn Hi Hw Hs; [lia|]. simpl.
  destruct (Hm (faults (get_db s)) Hw s) as (r & s1 & Hr & Hpost); [split_and!; try done; apply within_refl|].
  rewrite Hr. destruct r as [r|[r|r]]; [by eauto|by eauto|]. destruct Hpost as (ok & b & Hrb & Hwb & Hib & Hcase).
  rewrite Hrb. cbn [mbind option_bind]. destruct (query_busy (get_db s1)).
  - destruct Hcase as [Hlt HI1]. apply IH; rewrite ?get_set_db; simpl; [lia|exact Hib|by eapply within_trans|by apply HI].
  - eauto.
Qed.
End endings.
