(* ===== verification/Pk.v ===== *)
(** Pk: the data types of src/parcelkeeper/defs.h, the parcelkeeper's state as far as the
    modelled components use it, and the file operations they perform. *)

From S2P Require Import Prelude Effects Sql.

Inductive pk_err :=
  | PK_SUCCESS | PK_OVERFLOW | PK_IOERR | PK_NOTFOUND | PK_INVALID | PK_NOMEM | PK_NOKEY
  | PK_TAGFAIL | PK_BADFORMAT | PK_CALLFAIL | PK_PROTOFAIL | PK_NETFAIL | PK_BUSY | PK_SQLERR
  | PK_INTERRUPT.

#[global] Instance pk_err_eq_dec : EqDecision pk_err.
Proof. solve_decision. Defined.

(** enum cache_flags and enum mode_flags. *)
Definition CA_F_DIRTY : Z := 0x0001.
Definition CA_F_DAMAGED : Z := 0x0002.

Definition WANT_LOCK : Z := 0x0001.
Definition WANT_CACHE : Z := 0x0002.
Definition WANT_PREV : Z := 0x0004.
Definition WANT_CHECK : Z := 0x0020.
Definition WANT_SHM : Z := 0x0040.
Definition WANT_FULL_CHECK : Z := 0x0080.
Definition WANT_SPLICE : Z := 0x0100.

(** [flags & WANT_X]. *)
Definition has_flag (flags want : Z) : bool := negb (bool_decide (Z.land flags want = 0)).

Record pk_config := mk_config { flags : Z; compress : Z; chunk_cache : Z }.

Record pk_parcel := mk_parcel {
  crypto : Z;
  required_compress : Z;
  chunks : Z;
  chunksize : Z;
  chunks_per_dir : Z;
  hashlen : Z
}.

(** The counters of [pk_state.stats]. *)
Inductive stat :=
  | bytes_read | bytes_written | chunk_reads | chunk_writes | chunk_errors | cache_hits
  | cache_misses | cache_evictions | cache_evictions_dirty | data_bytes_written
  | whole_chunk_updates.

#[global] Instance stat_eq_dec : EqDecision stat.
Proof. solve_decision. Defined.

(** ** The databases of the connection [state->db]

    A row of "keys", a keyring file, and a cache index file.  "chunk" is an INTEGER PRIMARY KEY,
    so that a table is a map. *)
Record key_row := mk_key_row { kr_tag : list Z; kr_key : list Z; kr_compression : Z }.

Record index_db := mk_index { user_version : Z; chunk_lengths : option (gmap Z Z) }.

(** What is attached: main.keys (absent in a ":memory:" connection), prev.keys, and "cache".
    [keys_tags] is the index of that name of main.keys: whether it is there, and if so whether it
    agrees with the table.  [to_upload] is the temporary table of copy_for_upload: a chunk, its tag,
    and its length if the cache index has one. *)
Record dbs := mk_dbs {
  main_keys : option (gmap Z key_row);
  prev_keys : option (gmap Z key_row);
  cache : option index_db;
  keys_tags : option bool;
  to_upload : option (list (Z * list Z * option Z))
}.

Definition set_main_keys v d : dbs := mk_dbs v (prev_keys d) (cache d) (keys_tags d) (to_upload d).
Definition set_prev_keys v d : dbs := mk_dbs (main_keys d) v (cache d) (keys_tags d) (to_upload d).
Definition set_cache v d : dbs := mk_dbs (main_keys d) (prev_keys d) v (keys_tags d) (to_upload d).
Definition set_keys_tags v d : dbs := mk_dbs (main_keys d) (prev_keys d) (cache d) v (to_upload d).
Definition set_to_upload v d : dbs := mk_dbs (main_keys d) (prev_keys d) (cache d) (keys_tags d) v.

(** The files of the parcel directory: the keyring and the state of its index keys_tags, the previous
    keyring, the local cache file and its index.  [None] is a file that does not exist. *)
Record files := mk_files {
  f_keyring : gmap Z key_row;
  f_keys_tags : option bool;
  f_prev_keyring : gmap Z key_row;
  f_cache : option (list Z);
  f_index : option index_db
}.

(** [cache_fd] says whether the descriptor is set.  [io] is the schedule of the file operations
    to come: [Some n] is one that transfers at most [n] bytes, or fails if it is not a
    transfer; after its end nothing fails. *)
Record pk_state := mk_state {
  conf : pk_config;
  parcel : pk_parcel;
  cache_fd : bool;
  shm : option (list Z);
  conn : db dbs;
  offset : Z;
  cache_flags : Z;
  stats : stat -> Z;
  disk : files;
  io : list (option nat)
}.

(** ** Field updates *)

Definition set_cache_fd v s := mk_state (conf s) (parcel s) v (shm s) (conn s) (offset s)
  (cache_flags s) (stats s) (disk s) (io s).
Definition set_shm v s := mk_state (conf s) (parcel s) (cache_fd s) v (conn s) (offset s)
  (cache_flags s) (stats s) (disk s) (io s).
Definition set_pkdb v s := mk_state (conf s) (parcel s) (cache_fd s) (shm s) v (offset s)
  (cache_flags s) (stats s) (disk s) (io s).
Definition set_offset v s := mk_state (conf s) (parcel s) (cache_fd s) (shm s) (conn s) v
  (cache_flags s) (stats s) (disk s) (io s).
Definition set_cache_flags v s := mk_state (conf s) (parcel s) (cache_fd s) (shm s) (conn s)
  (offset s) v (stats s) (disk s) (io s).
Definition set_stats v s := mk_state (conf s) (parcel s) (cache_fd s) (shm s) (conn s) (offset s)
  (cache_flags s) v (disk s) (io s).
Definition set_disk v s := mk_state (conf s) (parcel s) (cache_fd s) (shm s) (conn s) (offset s)
  (cache_flags s) (stats s) v (io s).
Definition set_io v s := mk_state (conf s) (parcel s) (cache_fd s) (shm s) (conn s) (offset s)
  (cache_flags s) (stats s) (disk s) v.

Definition set_f_cache v fs := mk_files (f_keyring fs) (f_keys_tags fs) (f_prev_keyring fs) v (f_index fs).

#[global] Program Instance pk_state_has_db : HasDb pk_state dbs := {
  get_db := conn;
  set_db := set_pkdb
}.
Solve Obligations with done.

Definition pk_fun (A : Type) : Type := pk_state -> option (A * pk_state).

(** stats_increment *)
Definition stats_increment (f : stat) (val : Z) (s : pk_state) : pk_state :=
  set_stats (fun g => if decide (g = f) then u64 (stats s f + val) else stats s g) s.

(** ** Files

    A signed 32-bit value, as of a cast to int. *)
Definition s32 (x : Z) : Z := if decide (u32 x < 2 ^ 31) then u32 x else u32 x - 2 ^ 32.

(** The limit on the next file operation. *)
Definition next_io {R} : pk pk_state R (option nat) := fun s =>
  match io s with
  | o :: rest => Some (inl o, set_io rest s)
  | [] => Some (inl None, s)
  end.

Definition limit (n : nat) (o : option nat) : nat := match o with Some k => Nat.min k n | None => n end.

(** The content of the open cache file. *)
Definition cache_content (s : pk_state) : list Z := default [] (f_cache (disk s)).

(** pread of [n] bytes at [off]: the bytes read (less than [n] at the end of the file). *)
Definition pread {R} (n : nat) (off : Z) : pk pk_state R (list Z) :=
  o ← next_io;
  gets (fun s => take (limit n o) (drop (Z.to_nat off) (cache_content s))).

(** Writing at [off]; a gap before [off] reads as zeros. *)
Definition file_write (f : list Z) (off : nat) (data : list Z) : list Z :=
  match data with [] => f | _ => blit (f ++ replicate (off - length f) 0) off data end.

(** pwrite: the number of bytes written. *)
Definition pwrite {R} (data : list Z) (off : Z) : pk pk_state R Z :=
  o ← next_io;
  let data := take (limit (length data) o) data in
  _ ← modify (fun s =>
    set_disk (set_f_cache (Some (file_write (cache_content s) (Z.to_nat off) data)) (disk s)) s);
  pk_ret (Z.of_nat (length data)).

(** An operation that only succeeds or fails (fdatasync, ftruncate, ...). *)
Definition io_ok {R} : pk pk_state R bool := o ← next_io; pk_ret (bool_decide (o = None)).

(** * Lemmas *)

(** What is at a place of a file. *)
Definition range (f : list Z) (off n : nat) : list Z := take n (drop off f).

Lemma range_ext f g off n :
  (forall i, (i < n)%nat -> f !! (off + i)%nat = g !! (off + i)%nat) ->
  range f off n = range g off n.
Proof.
  intros H. apply list_eq. intros i. unfold range. destruct (decide (i < n)%nat).
  - by rewrite !lookup_take_lt, !lookup_drop, H.
  - by rewrite !lookup_take_ge by lia.
Qed.

Lemma lookup_blit dst off src i :
  (off <= length dst)%nat ->
  blit dst off src !! i =
    if decide (off <= i < off + length src)%nat then src !! (i - off)%nat else dst !! i.
Proof.
  intros Ho. unfold blit. case_decide.
  - rewrite lookup_app_r by (rewrite length_take; lia). rewrite length_take, Nat.min_l by lia.
    by rewrite lookup_app_l by lia.
  - destruct (decide (i < off)%nat).
    + rewrite lookup_app_l by (rewrite length_take; lia). by rewrite lookup_take_lt.
    + rewrite lookup_app_r by (rewrite length_take; lia). rewrite length_take, Nat.min_l by lia.
      rewrite lookup_app_r by lia. rewrite lookup_drop. f_equal. lia.
Qed.

Lemma lookup_file_write f off data i :
  (i < length f)%nat \/ (off <= i < off + length data)%nat ->
  file_write f off data !! i =
    if decide (off <= i < off + length data)%nat then data !! (i - off)%nat else f !! i.
Proof.
  intros Hi. destruct data as [|x data].
  { simpl in *. rewrite decide_False by lia. done. }
  unfold file_write. rewrite lookup_blit by (rewrite length_app, length_replicate; lia).
  case_decide; [done|]. rewrite lookup_app_l; [done|]. lia.
Qed.

Lemma length_file_write f off data : data <> [] ->
  length (file_write f off data) = Nat.max (length f) (off + length data).
Proof.
  intros Hd. destruct data as [|x data]; [done|]. unfold file_write, blit.
  rewrite !length_app, length_take, length_drop, length_app, length_replicate. simpl. lia.
Qed.

Lemma bytes_file_write f off data : bytes f -> bytes data -> bytes (file_write f off data).
Proof.
  intros Hf Hd. unfold file_write. destruct data; [done|]. apply bytes_blit; [|done].
  apply Forall_app_2; [done|]. by apply Forall_replicate.
Qed.

Lemma range_file_write_same f off data n :
  (n <= length data)%nat -> range (file_write f off data) off n = take n data.
Proof.
  intros Hn. apply list_eq. intros i. unfold range. destruct (decide (i < n)%nat).
  - rewrite !lookup_take_lt, lookup_drop by done. rewrite lookup_file_write by lia.
    rewrite decide_True by lia. f_equal. lia.
  - by rewrite !lookup_take_ge by lia.
Qed.

Lemma range_file_write_other f off data off' n :
  (off' + n <= length f)%nat -> (off' + n <= off \/ off + length data <= off')%nat ->
  range (file_write f off data) off' n = range f off' n.
Proof.
  intros Hl Hd. apply range_ext. intros i Hi. rewrite lookup_file_write by lia.
  by rewrite decide_False by lia.
Qed.

Lemma bytes_range f off n : bytes f -> bytes (range f off n).
Proof. intros. by apply Forall_take, Forall_drop. Qed.

Lemma length_range f off n : length (range f off n) = Nat.min n (length f - off).
Proof. unfold range. by rewrite length_take, length_drop. Qed.

Lemma s32_id x : 0 <= x < 2 ^ 31 -> s32 x = x.
Proof.
  intros. unfold s32. rewrite u32_id by (unfold is_u; lia). by rewrite decide_True by lia.
Qed.

Lemma s32_idemp x : s32 (s32 x) = s32 x.
Proof.
  assert (u32 (s32 x) = u32 x) as Hu.
  { unfold s32, u32. destruct (decide _); [by rewrite Zmod_mod|].
    rewrite Zminus_mod_idemp_l. replace (x - 2 ^ 32) with (x + (-1) * 2 ^ 32) by lia. by rewrite Z_mod_plus_full. }
  unfold s32 at 1. by rewrite Hu.
Qed.

Lemma s32_inj x y : is_u 32 x -> is_u 32 y -> s32 x = s32 y -> x = y.
Proof.
  intros Hx Hy. unfold s32. rewrite !u32_id by done. unfold is_u in *.
  destruct (decide (x < 2 ^ 31)), (decide (y < 2 ^ 31)); lia.
Qed.

Lemma cache_content_write s fs f : cache_content (set_disk (set_f_cache (Some f) fs) s) = f.
Proof. done. Qed.

Lemma range_app f a n m : range f a n ++ range f (a + n) m = range f a (n + m).
Proof. unfold range. by rewrite <- drop_drop, take_take_drop. Qed.

Lemma range_range f a n off len :
  (off + len <= n)%nat -> range (range f a n) off len = range f (a + off) len.
Proof.
  intros Hl. apply list_eq. intros i. unfold range. destruct (decide (i < len)%nat).
  - rewrite !lookup_take_lt, !lookup_drop by done. rewrite lookup_take_lt, lookup_drop by lia.
    f_equal. lia.
  - by rewrite !lookup_take_ge by lia.
Qed.

Lemma range_blit_other f a data b n :
  (a + length data <= length f)%nat -> (b + n <= a \/ a + length data <= b)%nat ->
  range (blit f a data) b n = range f b n.
Proof.
  intros Ha Hd. apply range_ext. intros i Hi. rewrite lookup_blit by lia.
  by rewrite decide_False by lia.
Qed.

Lemma range_blit_inside f b n off data :
  (b + n <= length f)%nat -> (off + length data <= n)%nat ->
  range (blit f (b + off) data) b n = blit (range f b n) off data.
Proof.
  intros Hb Hd. assert (length (range f b n) = n) as Hl by (rewrite length_range; lia).
  apply list_eq. intros i. rewrite lookup_blit by lia. unfold range at 1.
  destruct (decide (i < n)%nat).
  - rewrite lookup_take_lt, lookup_drop, lookup_blit by lia. case_decide.
    + rewrite decide_True by lia. f_equal. lia.
    + rewrite decide_False by lia. unfold range. by rewrite lookup_take_lt, lookup_drop.
  - rewrite lookup_take_ge by lia. rewrite decide_False by lia. symmetry. apply lookup_ge_None. lia.
Qed.

(** Writing next to what was written. *)
Lemma blit_app_next f a x y :
  (a + length x + length y <= length f)%nat ->
  blit (blit f a x) (a + length x) y = blit f a (x ++ y).
Proof.
  intros Hl. apply list_eq. intros i.
  assert (length (blit f a x) = length f) as Hlb by (apply length_blit; lia).
  rewrite lookup_blit by lia. rewrite !lookup_blit by lia. rewrite length_app.
  repeat case_decide; try lia; try done.
  - rewrite lookup_app_r by lia. f_equal. lia.
  - by rewrite lookup_app_l by lia.
Qed.

(** * A state with a parcelkeeper's state in it *)

Class HasPk (S : Type) := {
  get_pk : S -> pk_state;
  set_pk : pk_state -> S -> S;
  get_set_pk p s : get_pk (set_pk p s) = p;
  set_set_pk p p' s : set_pk p (set_pk p' s) = set_pk p s
}.

#[global] Program Instance has_pk_db {S : Type} `{!HasPk S} : HasDb S dbs := {
  get_db s := conn (get_pk s);
  set_db b s := set_pk (set_pkdb b (get_pk s)) s
}.
Next Obligation. intros S HS b s. cbn. by rewrite get_set_pk. Qed.
Next Obligation. intros S HS b b' s. cbn. by rewrite get_set_pk, set_set_pk. Qed.

(** A function of the parcelkeeper's state in the larger one. *)
Definition on_pk {S A : Type} `{!HasPk S} (f : pk_fun A) (s : S) : option (A * S) :=
  '(a, p) ← f (get_pk s); Some (a, set_pk p s).
