(* ===== verification/Cache.v ===== *)
(** Cache: the local cache of src/parcelkeeper/cache.c — the cache file with its header and one
    slot per chunk, the cache index and the keyring, and the shared memory map of chunk states. *)

From S2P Require Import Prelude Hash Compress LzfStream Chunk Effects Sql Pk.

Definition CA_MAGIC : Z := 0x51528038.
Definition CA_VERSION : Z := 1.
Definition CA_INDEX_VERSION : Z := 1.

(** enum shm_chunk_status *)
Definition SHM_PRESENT : Z := 0x01.
Definition SHM_DIRTY : Z := 0x02.
Definition SHM_ACCESSED_SESSION : Z := 0x04.
Definition SHM_DIRTY_SESSION : Z := 0x08.
Definition SHM_CACHED : Z := 0x10.
Definition SHM_CACHE_DIRTY : Z := 0x20.

(** * The cache file *)

(** struct ca_header, with its fields in host byte order. *)
Record ca_header := mk_ca_header {
  magic : Z;
  entries : Z;
  hdr_offset : Z;
  hdr_flags : Z;
  version : Z
}.

(** The header's 24 bytes: five u32's in network byte order, of which the last is reserved, the
    version, and padding. *)
Definition sizeof_ca_header : nat := 24.
Definition offsetof_flags : Z := 12.

Definition put_header (h : ca_header) : list Z :=
  STORE32H (magic h) ++ STORE32H (entries h) ++ STORE32H (hdr_offset h) ++
  STORE32H (hdr_flags h) ++ STORE32H 0 ++ [version h; 0; 0; 0].

Definition get_header (l : list Z) : ca_header :=
  mk_ca_header (LOAD32H l 0) (LOAD32H l 4) (LOAD32H l 8) (LOAD32H l 12) (get l 20).

Definition cache_chunk_to_offset (s : pk_state) (chunk : Z) : Z :=
  chunksize (parcel s) * chunk + offset s.

(** ftruncate: shortens the file, or extends it with zeros. *)
Definition resize (f : list Z) (len : nat) : list Z := take len f ++ replicate (len - length f) 0.

(** Preallocation with fallocate, or else ftruncate.  fallocate never shortens the file. *)
Definition set_cache_file_size : pk_fun pk_err := body (
  len ← gets (fun s => Z.to_nat (cache_chunk_to_offset s (chunks (parcel s))));
  allocated ← io_ok;
  if allocated : bool then
    _ ← modify (fun s => set_disk (set_f_cache
          (Some (resize (cache_content s) (Nat.max len (length (cache_content s))))) (disk s)) s);
    ret PK_SUCCESS
  else
    truncated ← io_ok;
    if truncated : bool then
      _ ← modify (fun s => set_disk (set_f_cache (Some (resize (cache_content s) len)) (disk s)) s);
      ret PK_SUCCESS
    else ret PK_IOERR).

Definition create_cache_file : pk_fun pk_err := body (
  opened ← io_ok;
  existing ← gets (fun s => f_cache (disk s));
  if decide (opened = false \/ is_Some existing) then ret PK_IOERR
  else
    _ ← modify (fun s => set_cache_flags 0 (set_offset 4096
          (set_disk (set_f_cache (Some []) (disk s)) s)));
    hdr ← gets (fun s => mk_ca_header CA_MAGIC (chunks (parcel s)) (Z.shiftr (offset s) 9)
                           (cache_flags s) CA_VERSION);
    err ← call set_cache_file_size;
    if decide (err <> PK_SUCCESS) then ret PK_IOERR
    else
      n ← pwrite (put_header hdr) 0;
      if decide (n <> Z.of_nat sizeof_ca_header) then ret PK_IOERR
      else
        _ ← modify (set_cache_fd true);
        ret PK_SUCCESS).

Definition open_cache_file : pk_fun pk_err := body (
  opened ← io_ok;
  existing ← gets (fun s => f_cache (disk s));
  if decide (opened = false \/ existing = None) then ret PK_IOERR
  else
    l ← pread sizeof_ca_header 0;
    if decide (length l <> sizeof_ca_header) then ret PK_IOERR
    else
      let hdr := get_header l in
      n ← gets (fun s => chunks (parcel s));
      if decide (magic hdr <> CA_MAGIC) then ret PK_BADFORMAT
      else if decide (version hdr <> CA_VERSION) then ret PK_BADFORMAT
      else if decide (entries hdr <> n) then ret PK_BADFORMAT
      else
        _ ← modify (fun s => set_cache_fd true (set_offset (u32 (Z.shiftl (hdr_offset hdr) 9))
              (set_cache_flags (hdr_flags hdr) s)));
        ret PK_SUCCESS).

(** ** The flags of the header *)

Definition cache_set_flags (new : Z) : pk_fun pk_err := body (
  want_lock ← gets (fun s => has_flag (flags (conf s)) WANT_LOCK);
  fd ← gets cache_fd;
  if negb want_lock then ret PK_BUSY
  else if negb fd then ret PK_IOERR
  else
    n ← pwrite (STORE32H new) offsetof_flags;
    if decide (n <> 4) then ret PK_IOERR
    else
      synced ← io_ok;
      if negb synced then ret PK_IOERR
      else
        _ ← modify (set_cache_flags new);
        ret PK_SUCCESS).

Definition cache_set_flag (flag : Z) : pk_fun pk_err := fun s =>
  cache_set_flags (Z.lor (cache_flags s) flag) s.

Definition cache_clear_flag (flag : Z) : pk_fun pk_err := fun s =>
  cache_set_flags (Z.land (cache_flags s) (u32 (Z.lnot flag))) s.

Definition cache_test_flag (s : pk_state) (flag : Z) : bool :=
  bool_decide (Z.land (cache_flags s) flag = flag).

(** * The shared memory map *)

Definition shm_update {R} (chunk set clear : Z) : pk pk_state R () :=
  base ← gets shm;
  n ← gets (fun s => chunks (parcel s));
  match base with
  | None => pk_ret ()
  | Some base =>
      if decide (chunk > n) then pk_ret ()
      else
        _ ← defined (chunk < Z.of_nat (length base));
        let i := Z.to_nat chunk in
        modify (set_shm (Some (<[i := Z.land (Z.lor (get base i) set) (u32 (Z.lnot clear))]> base)))
  end.

Definition cache_shm_set_dirty {R} (chunk : Z) : pk pk_state R () :=
  shm_update chunk
    (Z.lor (Z.lor SHM_PRESENT SHM_ACCESSED_SESSION) (Z.lor SHM_DIRTY SHM_DIRTY_SESSION)) 0.

Definition cache_shm_set_cached {R} (chunk : Z) (cached : bool) : pk pk_state R () :=
  shm_update chunk (if cached then SHM_CACHED else 0) (if cached then 0 else SHM_CACHED).

Definition cache_shm_set_cache_dirty {R} (chunk : Z) (dirty : bool) : pk pk_state R () :=
  shm_update chunk (if dirty then SHM_CACHE_DIRTY else 0) (if dirty then 0 else SHM_CACHE_DIRTY).

(** * The SQL statements

    A chunk number is passed as an int, and an int column is read as an int. *)

Definition dbq (A : Type) : Type := dbs -> stmt_error + dbs * list A.

(** cache.chunks *)
Definition chunk_table (d : dbs) : option (gmap Z Z) := c ← cache d; chunk_lengths c.

Definition sql_create_index : dbq () := fun d =>
  match cache d with
  | Some (mk_index v None) => inr (set_cache (Some (mk_index v (Some ∅))) d, [])
  | _ => inl E_ERROR
  end.

Definition sql_set_version (v : Z) : dbq () := fun d =>
  match cache d with
  | Some c => inr (set_cache (Some (mk_index v (chunk_lengths c))) d, [])
  | None => inl E_ERROR
  end.

Definition sql_get_version : dbq Z := fun d =>
  match cache d with Some c => inr (d, [user_version c]) | None => inl E_ERROR end.

Definition sql_select_key (chunk : Z) : dbq key_row := fun d =>
  match main_keys d with
  | Some keys => inr (d, option_list (keys !! s32 chunk))
  | None => inl E_ERROR
  end.

Definition sql_select_length (chunk : Z) : dbq Z := fun d =>
  match chunk_table d with
  | Some t => inr (d, option_list (t !! s32 chunk))
  | None => inl E_ERROR
  end.

(** INSERT OR REPLACE INTO cache.chunks; the row is the number of changes. *)
Definition sql_insert_length (chunk len : Z) : dbq Z := fun d =>
  match cache d with
  | Some (mk_index v (Some t)) =>
      inr (set_cache (Some (mk_index v (Some (<[s32 chunk := s32 len]> t)))) d, [1])
  | _ => inl E_ERROR
  end.

(** UPDATE keys SET ... WHERE chunk == ? *)
Definition sql_update_key (chunk : Z) (row : key_row) : dbq Z := fun d =>
  match main_keys d with
  | Some keys =>
      match keys !! s32 chunk with
      | Some _ => inr (set_main_keys (Some (<[s32 chunk := row]> keys)) d, [1])
      | None => inr (d, [0])
      end
  | None => inl E_ERROR
  end.

(** The chunks whose tags differ between main.keys and prev.keys. *)
Definition tag_differs (prev : gmap Z key_row) (kv : Z * key_row) : bool :=
  match prev !! kv.1 with
  | Some r => bool_decide (kr_tag kv.2 <> kr_tag r)
  | None => false
  end.

Definition modified_chunks (d : dbs) : option (list Z) :=
  m ← main_keys d; p ← prev_keys d;
  Some (table_rows (filter (fun kv => tag_differs p kv = true) m)).*1.

Definition sql_select_chunks : dbq Z := fun d =>
  match chunk_table d with Some t => inr (d, (table_rows t).*1) | None => inl E_ERROR end.

Definition sql_select_modified : dbq Z := fun d =>
  match modified_chunks d with Some l => inr (d, l) | None => inl E_ERROR end.

Definition sql_count_chunks : dbq Z := fun d =>
  match chunk_table d with Some t => inr (d, [Z.of_nat (size t)]) | None => inl E_ERROR end.

Definition sql_count_modified : dbq Z := fun d =>
  match modified_chunks d with Some l => inr (d, [Z.of_nat (length l)]) | None => inl E_ERROR end.

(** * The cache index *)

Definition run {R A} (f : dbq A) : pk pk_state R (bool * list A) := on_db (query (Stmt f)).

Definition create_cache_index : pk_fun pk_err := transaction (
  ok ← try_db begin;
  if ok : bool then
    '(ok, _) ← run sql_create_index;
    if negb ok then goto_bad PK_IOERR
    else
      '(ok, _) ← run (sql_set_version CA_INDEX_VERSION);
      if negb ok then goto_bad PK_IOERR
      else
        ok ← try_db commit;
        if ok : bool then ret PK_SUCCESS else goto_bad PK_IOERR
  else ret PK_IOERR).

Definition verify_cache_index : pk_fun pk_err := transaction (
  ok ← try_db begin;
  if ok : bool then
    '(_, rows) ← run sql_get_version;
    has_row ← gets (fun s => query_has_row (conn s));
    if negb has_row then goto_bad PK_SQLERR
    else
      _ ← try_db rollback;
      if decide (s32 (get rows 0) <> CA_INDEX_VERSION) then ret PK_BADFORMAT else ret PK_SUCCESS
  else ret PK_IOERR).

(** ** shm_init *)

(** for (query(...); query_has_row(); query_next()) shm_update(chunk, bit, 0), from the current
    row on. *)
Fixpoint shm_rows {R} (rows : list Z) (bit : Z) : pk pk_state R () :=
  has_row ← gets (fun s => query_has_row (conn s));
  match rows with
  | chunk :: rest =>
      if has_row : bool then
        _ ← shm_update (u32 chunk) bit 0;
        '(_, _) ← on_db (query_next rows);
        shm_rows rest bit
      else pk_ret ()
  | [] => pk_ret ()
  end.

(** The mapping is new, and zero; [mapped] is PK_SUCCESS if it could be set up, PK_IOERR if
    shm_open or ftruncate failed and PK_CALLFAIL if mmap did. *)
Definition shm_init (mapped : pk_err) : pk_fun pk_err := fun s =>
  if decide (mapped <> PK_SUCCESS) then Some (mapped, set_shm None s)
  else
    let s := set_shm (Some (replicate (Z.to_nat (chunks (parcel s))) 0)) s in
    '(err, s) ← transaction (
      ok ← try_db begin;
      if ok : bool then
        '(_, rows) ← run sql_select_chunks;
        _ ← shm_rows rows SHM_PRESENT;
        ok ← gets (fun s => query_ok (conn s));
        if negb ok then goto_bad PK_SQLERR
        else
          '(_, rows) ← run sql_select_modified;
          _ ← shm_rows rows SHM_DIRTY;
          ok ← gets (fun s => query_ok (conn s));
          if negb ok then goto_bad PK_SQLERR
          else
            _ ← try_db rollback;
            ret PK_SUCCESS
      else ret PK_IOERR) s;
    if decide (err = PK_SUCCESS) then Some (PK_SUCCESS, s) else Some (err, set_shm None s).


(** * Opening *)

(** Attaching the database file that holds [c] under the name "cache". *)
Definition attach_cache (c : index_db) (b : db dbs) : option (bool * db dbs) :=
  attach (set_cache (Some c)) (set_cache None) b.

Definition empty_index : index_db := mk_index 0 None.

Definition open_cachedir (opened : bool) (fs : list (option (sqlite_fault * bool))) :
    pk_fun pk_err := body (
  keyring ← gets (fun s => f_keyring (disk s));
  tags ← gets (fun s => f_keys_tags (disk s));
  c ← (fun s => r ← sql_conn_open
           (if opened then Some (mk_dbs (Some keyring) None None tags None) else None) fs; Some (inl r, s));
  match c with
  | None => ret PK_IOERR
  | Some b =>
      _ ← modify (set_pkdb b);
      image ← gets (fun s => f_cache (disk s));
      index ← gets (fun s => f_index (disk s));
      want_lock ← gets (fun s => has_flag (flags (conf s)) WANT_LOCK);
      match image, index with
      | Some _, Some c =>
          ok ← try_db (attach_cache c);
          if negb ok then ret PK_IOERR
          else
            err ← call open_cache_file;
            if decide (err <> PK_SUCCESS) then ret err
            else
              err ← call verify_cache_index;
              if decide (err <> PK_SUCCESS) then ret err else ret PK_SUCCESS
      | _, _ =>
          if decide (want_lock = true /\ (is_Some image \/ is_Some index)) then ret PK_IOERR
          else
            ok ← try_db (attach_cache empty_index);
            if negb ok then ret PK_IOERR
            else
              err ← (if want_lock then call create_cache_file else pk_ret PK_SUCCESS);
              if decide (err <> PK_SUCCESS) then ret err
              else
                err ← call create_cache_index;
                if decide (err <> PK_SUCCESS) then ret err else ret PK_SUCCESS
      end
  end).

(** cache_shutdown, as far as the state shows it: the map and the descriptor are released. *)
Definition cache_shutdown (s : pk_state) : pk_state := set_cache_fd false (set_shm None s).

Definition cache_init (opened : bool) (mapped : pk_err)
    (fs : list (option (sqlite_fault * bool))) :
    pk_fun pk_err := fun s =>
  '(err, s) ← body (
    fl ← gets (fun s => flags (conf s));
    err ← (if has_flag fl WANT_CACHE then call (open_cachedir opened fs)
           else
             c ← (fun s => r ← sql_conn_open
                      (if opened then Some (mk_dbs None None None None None) else None) fs; Some (inl r, s));
             match c with
             | None => pk_ret PK_IOERR
             | Some b => _ ← modify (set_pkdb b); pk_ret PK_SUCCESS
             end);
    if decide (err <> PK_SUCCESS) then ret err
    else
      prev ← gets (fun s => f_prev_keyring (disk s));
      ok ← (if has_flag fl WANT_PREV
            then try_db (attach (set_prev_keys (Some prev)) (set_prev_keys None))
            else pk_ret true);
      if negb ok then ret PK_IOERR
      else
        _ ← (if has_flag fl WANT_SHM then call (shm_init mapped) else pk_ret PK_SUCCESS);
        ret PK_SUCCESS) s;
  if decide (err = PK_SUCCESS) then Some (PK_SUCCESS, s) else Some (err, cache_shutdown s).

(** * Chunks *)

(** Reads [chunklen] bytes of a slot into a buffer of [room] bytes, and checks the tag if one is
    given.  Bytes beyond the buffer would be written outside it. *)
Definition _cache_read_chunk (chunk : Z) (room chunklen : Z) (tag : option (list Z)) :
    pk_fun (pk_err * list Z) := body (
  off ← gets (fun s => cache_chunk_to_offset s chunk);
  p ← gets parcel;
  buf ← pread (Z.to_nat chunklen) off;
  _ ← defined (Z.of_nat (length buf) <= room);
  if decide (Z.of_nat (length buf) <> s32 chunklen) then ret (PK_IOERR, buf)
  else
    match tag with
    | None => ret (PK_SUCCESS, buf)
    | Some tag =>
        match iu_chunk_crypto_digest (crypto p) buf with
        | None => fault
        | Some None => ret (PK_CALLFAIL, buf)
        | Some (Some calctag) =>
            if decide (take (Z.to_nat (hashlen p)) tag <> take (Z.to_nat (hashlen p)) calctag)
            then ret (PK_TAGFAIL, buf) else ret (PK_SUCCESS, buf)
        end
    end).

(** Inside a transaction.  The slot is filled up with zeros. *)
Definition _cache_write_chunk (chunk : Z) (buf : list Z) : pk_fun pk_err := body (
  cs ← gets (fun s => chunksize (parcel s));
  if decide (Z.of_nat (length buf) > cs) then ret PK_INVALID
  else
    let slot := buf ++ replicate (Z.to_nat cs - length buf) 0 in
    off ← gets (fun s => cache_chunk_to_offset s chunk);
    count ← pwrite slot off;
    if decide (count <> s32 cs) then ret PK_IOERR
    else
      '(ok, _) ← run (sql_insert_length chunk (Z.of_nat (length buf)));
      if negb ok then ret PK_IOERR else ret PK_SUCCESS).

(** Where chunks that are not in the local cache come from: hoard_get_chunk and
    transport_fetch_chunk, with the buffer they fill. *)
Class ChunkSource := {
  hoard_get_chunk : list Z -> pk_err * list Z;
  transport_fetch_chunk : Z -> list Z -> pk_err * list Z;
  hoard_bytes tag : bytes (hoard_get_chunk tag).2;
  transport_bytes chunk tag : bytes (transport_fetch_chunk chunk tag).2
}.

Section chunks.
Context (env : compress_env) `{!ChunkSource}.

(** The database part of cache_get: the tag, the key, the compression type and the length of the
    chunk in the local cache, 0 if it is not there. *)
Definition cache_get_length (chunk : Z) (row : key_row) (comp : Z) :
    pk pk_state (pk_err + list Z * list Z * Z * Z) (pk_err + list Z * list Z * Z * Z) :=
  '(ok, rows) ← run (sql_select_length chunk);
  if negb ok then goto_bad (inl PK_IOERR)
  else
    let len := match rows with n :: _ => u32 n | [] => 0 end in
    ok ← try_db commit;
    if ok : bool then ret (inr (kr_tag row, kr_key row, comp, len))
    else goto_bad (inl PK_IOERR).

Definition cache_get_body (chunk : Z) :
    pk pk_state (pk_err + list Z * list Z * Z * Z) (pk_err + list Z * list Z * Z * Z) :=
  p ← gets parcel;
  ok ← try_db begin;
  if ok : bool then
    '(_, rows) ← run (sql_select_key chunk);
    has_row ← gets (fun s => query_has_row (conn s));
    match (if has_row : bool then head rows else None) with
    | None => goto_bad (inl PK_IOERR)
    | Some row =>
        let hl := Z.to_nat (hashlen p) in
        let comp := u32 (kr_compression row) in
        if decide (length (kr_tag row) <> hl \/ length (kr_key row) <> hl)
        then goto_bad (inl PK_INVALID)
        else if negb (iu_chunk_compress_is_enabled (required_compress p) comp)
        then goto_bad (inl PK_INVALID)
        else cache_get_length chunk row comp
    end
  else ret (inl PK_IOERR).

Definition cache_get_row (chunk : Z) : pk_fun (pk_err + list Z * list Z * Z * Z) :=
  transaction (cache_get_body chunk).

(** The encrypted chunk, from the local cache, the hoard cache or the network. *)
Definition cache_fetch (chunk : Z) (tag : list Z) (len : Z) : pk_fun (pk_err * list Z) := fun s =>
  if decide (len <> 0) then _cache_read_chunk chunk (chunksize (parcel s)) len None s
  else
    let '(err, buf) := hoard_get_chunk tag in
    if decide (err <> PK_SUCCESS) then Some (transport_fetch_chunk chunk tag, s)
    else Some ((PK_SUCCESS, buf), s).

Definition cache_get (chunk : Z) : pk_fun (pk_err * list Z) := body (
  r ← call (cache_get_row chunk);
  match r with
  | inl err => ret (err, [])
  | inr (tag, key, comp, len) =>
      '(err, encrypted) ← call (cache_fetch chunk tag len);
      p ← gets parcel;
      if decide (err <> PK_SUCCESS) then ret (err, [])
      else if decide (Z.of_nat (length encrypted) > chunksize p) then ret (PK_INVALID, [])
      else
        match iu_chunk_decode env (crypto p) comp encrypted key (Z.to_nat (chunksize p)) with
        | None => fault
        | Some None => ret (PK_IOERR, [])
        | Some (Some buf) =>
            _ ← modify (stats_increment chunk_reads 1);
            _ ← shm_update chunk SHM_ACCESSED_SESSION 0;
            ret (PK_SUCCESS, buf)
        end
  end).

Definition cache_update_body (chunk : Z) (e : encoded) : pk pk_state pk_err pk_err :=
  ok ← try_db begin;
  if ok : bool then
    err ← call (_cache_write_chunk chunk (enc_out e));
    if decide (err <> PK_SUCCESS) then goto_bad PK_IOERR
    else
      '(ok, _) ← run (sql_insert_length chunk (Z.of_nat (length (enc_out e))));
      if negb ok then goto_bad PK_IOERR
      else
        '(ok, _) ← run (sql_update_key chunk
                          (mk_key_row (enc_tag e) (enc_key e) (enc_compress e)));
        if negb ok then goto_bad PK_IOERR
        else
          ok ← try_db commit;
          if ok : bool then ret PK_SUCCESS else goto_bad PK_IOERR
  else ret PK_IOERR.

Definition cache_update_tx (chunk : Z) (e : encoded) : pk_fun pk_err :=
  transaction (cache_update_body chunk e).

Definition cache_update (chunk : Z) (buf : list Z) : pk_fun pk_err := body (
  p ← gets parcel;
  c ← gets conf;
  match iu_chunk_encode env (crypto p) buf (compress c) with
  | None => fault
  | Some None => ret PK_IOERR
  | Some (Some e) =>
      err ← call (cache_update_tx chunk e);
      if decide (err <> PK_SUCCESS) then ret err
      else
        _ ← modify (stats_increment chunk_writes 1);
        _ ← modify (stats_increment data_bytes_written (Z.of_nat (length (enc_out e))));
        _ ← cache_shm_set_dirty chunk;
        ret PK_SUCCESS
  end).

(** The number of chunks in the cache, and of chunks modified since the previous version. *)
Definition cache_count_chunks (valid dirty : bool) : pk_fun (pk_err * Z * Z) := transaction (
  ok ← try_db begin;
  if ok : bool then
    v ← (if valid then
           '(_, rows) ← run sql_count_chunks;
           has_row ← gets (fun s => query_has_row (conn s));
           if negb has_row then goto_bad (PK_IOERR, 0, 0) else pk_ret (u32 (get rows 0))
         else pk_ret 0);
    d ← (if dirty then
           '(_, rows) ← run sql_count_modified;
           has_row ← gets (fun s => query_has_row (conn s));
           if negb has_row then goto_bad (PK_IOERR, 0, 0) else pk_ret (u32 (get rows 0))
         else pk_ret 0);
    _ ← try_db rollback;
    ret (PK_SUCCESS, v, d)
  else ret (PK_IOERR, 0, 0)).
End chunks.
