(* ===== verification/CacheProofs.v ===== *)
(** CacheProofs: the local cache (Cache.v) is safe, atomic and lossless.

    The invariant [cache_wf] and what the cache holds ([stored], [readable]); the transactions of
    cache_get and cache_update as triples; their specifications for every schedule of failures;
    the interface [ChunkStore] that fuse_image.c uses; the header of the cache file. *)

From S2P Require Import Prelude Hash Compress LzfStream Chunk Effects Sql Pk Cache.

(** * Lemmas *)

(** What cache.c relies on in the parcel's parameters and in the rest of the state. *)
Record geometry (s : pk_state) : Prop := mk_geometry {
  g_crypto : crypto (parcel s) = IU_CHUNK_CRY_AES_SHA1;
  g_hashlen : hashlen (parcel s) = 20;
  g_chunksize : 16 <= chunksize (parcel s) < 2 ^ 31;
  g_blocks : chunksize (parcel s) mod 16 = 0;
  g_chunks : is_u 32 (chunks (parcel s));
  g_offset : is_u 32 (offset s);
  g_compress : valid_compress (compress (conf s));
  g_enabled : iu_chunk_compress_is_enabled (required_compress (parcel s)) (compress (conf s)) = true;
  g_none : iu_chunk_compress_is_enabled (required_compress (parcel s)) IU_CHUNK_COMP_NONE = true;
  g_shm : match shm s with None => True | Some b => Z.of_nat (length b) = chunks (parcel s) end
}.

Definition slot (s : pk_state) (chunk : Z) (n : nat) : list Z :=
  range (cache_content s) (Z.to_nat (cache_chunk_to_offset s chunk)) n.

(** Offsets of chunks fit in an off64_t, and slots do not overlap. *)
Lemma cache_chunk_to_offset_bounds s chunk :
  geometry s -> is_u 32 chunk -> 0 <= cache_chunk_to_offset s chunk < 2 ^ 63.
Proof. intros [] Hc. unfold cache_chunk_to_offset, is_u in *. nia. Qed.

Lemma slots_disjoint s c c' :
  geometry s -> is_u 32 c -> is_u 32 c' -> c <> c' ->
  cache_chunk_to_offset s c + chunksize (parcel s) <= cache_chunk_to_offset s c' \/
  cache_chunk_to_offset s c' + chunksize (parcel s) <= cache_chunk_to_offset s c.
Proof. intros [] Hc Hc' Hne. unfold cache_chunk_to_offset, is_u in *. nia. Qed.

(** Nothing but the connection, the content of the cache file and the schedule has changed, and
    of the cache file nothing but the slot of [chunk]. *)
Record writes_only (chunk : Z) (s s' : pk_state) : Prop := mk_writes_only {
  w_conf : conf s' = conf s;
  w_parcel : parcel s' = parcel s;
  w_fd : cache_fd s' = cache_fd s;
  w_shm : shm s' = shm s;
  w_offset : offset s' = offset s;
  w_flags : cache_flags s' = cache_flags s;
  w_stats : stats s' = stats s;
  w_io : io s' `suffix_of` io s;
  w_bytes : bytes (cache_content s) -> bytes (cache_content s');
  w_slots : forall c n, is_u 32 c -> c <> chunk -> Z.of_nat n <= chunksize (parcel s) ->
    length (slot s c n) = n -> slot s' c n = slot s c n
}.

Lemma writes_only_refl chunk s : writes_only chunk s s.
Proof. by split. Qed.

Lemma writes_only_db chunk s b s' : writes_only chunk s s' -> writes_only chunk s (set_db b s').
Proof. intros []. by split. Qed.

Lemma next_io_triple {R} (P : pk_state -> Prop) (Q : option nat -> pk_state -> Prop) X :
  (forall s o rest, P s -> (io s = o :: rest \/ o = None /\ io s = [] /\ rest = []) ->
     Q o (set_io rest s)) ->
  triple P (next_io : pk pk_state R _) Q X.
Proof.
  intros HQ s Hs. unfold next_io. destruct (io s) as [|o rest] eqn:Hio.
  - exists (inl None), s. split; [done|]. replace s with (set_io [] s); [by eapply HQ; auto|].
    destruct s; simpl in *; by subst.
  - exists (inl o), (set_io rest s). split; [done|]. apply HQ; auto.
Qed.

(** Writing a slot: other slots stay, and a write of full length puts the data there. *)
Lemma pwrite_slot {R} s0 chunk slotdata (T : pk_state -> Prop) X :
  geometry s0 -> is_u 32 chunk -> bytes slotdata ->
  Z.of_nat (length slotdata) = chunksize (parcel s0) ->
  (forall s f rest, T s -> T (set_disk f (set_io rest s))) ->
  triple (fun s => T s /\ writes_only chunk s0 s)
    (pwrite slotdata (cache_chunk_to_offset s0 chunk) : pk pk_state R Z)
    (fun n s => T s /\ writes_only chunk s0 s /\
       if decide (n = chunksize (parcel s0))
       then slot s chunk (length slotdata) = slotdata else io s0 <> []) X.
Proof.
  intros Hg Hc Hb Hl HT. pose proof (cache_chunk_to_offset_bounds s0 chunk Hg Hc) as Hoff.
  unfold pwrite. eapply triple_bind with (Q := fun o s => T s /\ writes_only chunk s0 s /\
    (o <> None -> io s0 <> [])).
  { apply next_io_triple. intros s o rest [HTs Hw] Hio. split_and!.
    - replace (set_io rest s) with (set_disk (disk s) (set_io rest s)) by done. by apply HT.
    - destruct Hw. split; try done. simpl. destruct Hio as [Hio|(_ & Hio & ->)].
      + eapply suffix_cons_l. by rewrite <- Hio.
      + by rewrite <- Hio.
    - intros Ho Hnil. destruct Hw as [_ _ _ _ _ _ _ Hs _ _]. rewrite Hnil in Hs.
      apply suffix_nil_inv in Hs. destruct Hio as [Hio|[? _]]; [by rewrite Hs in Hio|done]. }
  intros o. set (data := take (limit (length slotdata) o) slotdata).
  eapply triple_bind with (Q := fun _ s => T s /\ writes_only chunk s0 s /\
    slot s chunk (length data) = data /\ (o <> None -> io s0 <> [])).
  { apply triple_modify. intros s (HTs & Hw & Ho).
    assert (length data <= length slotdata)%nat as Hld by (subst data; rewrite length_take; lia).
    assert (cache_chunk_to_offset s chunk = cache_chunk_to_offset s0 chunk) as Hoeq.
    { destruct Hw. unfold cache_chunk_to_offset. congruence. }
    split_and!; [| | |done].
    - replace (set_disk _ s) with (set_disk (set_f_cache (Some (file_write (cache_content s)
        (Z.to_nat (cache_chunk_to_offset s0 chunk)) data)) (disk s)) (set_io (io s) s))
        by (by destruct s). by apply HT.
    - assert (bytes data) by (by apply Forall_take).
      destruct Hw as [? Hp ? ? Ho' ? ? ? Hb' Hs']. split; simpl; try done.
      + intros ?. apply bytes_file_write; auto.
      + intros c n Hc' Hne Hn Hfull. rewrite <- (Hs' c n) by done.
        assert (cache_chunk_to_offset s c = cache_chunk_to_offset s0 c) as Hceq.
        { unfold cache_chunk_to_offset. by rewrite Hp, Ho'. }
        unfold slot. change (cache_chunk_to_offset (set_disk _ s) c)
          with (cache_chunk_to_offset s c). rewrite cache_content_write.
        pose proof (cache_chunk_to_offset_bounds s0 c Hg Hc') as Hoffc.
        rewrite <- (Hs' c n) in Hfull by done. unfold slot in Hfull. rewrite length_range in Hfull.
        pose proof (slots_disjoint s0 c chunk Hg Hc' Hc Hne).
        destruct n as [|n]; [done|]. rewrite Hceq in *.
        apply range_file_write_other; lia.
    - unfold slot. change (cache_chunk_to_offset (set_disk _ s) chunk)
        with (cache_chunk_to_offset s chunk). rewrite Hoeq.
      rewrite cache_content_write, range_file_write_same by done. by rewrite take_ge. }
  intros _. apply triple_ret. intros s (HTs & Hw & Hs & Ho). split_and!; try done.
  assert (o = None -> data = slotdata) as Hnone by (intros ->; subst data; simpl; by rewrite take_ge).
  case_decide as Hn.
  - assert (data = slotdata) as Hd.
    { subst data. apply take_ge. rewrite length_take in Hn. lia. }
    by rewrite <- Hd at 1; rewrite Hd in Hs |- *.
  - apply Ho. intros ->. destruct Hn. by rewrite Hnone.
Qed.

(** ** The tables *)

Definition put_length (chunk len : Z) (d : dbs) : dbs :=
  match cache d with
  | Some (mk_index v (Some t)) =>
      set_cache (Some (mk_index v (Some (<[s32 chunk := s32 len]> t)))) d
  | _ => d
  end.

Definition put_key (chunk : Z) (row : key_row) (d : dbs) : dbs :=
  match main_keys d with
  | Some keys =>
      if decide (is_Some (keys !! s32 chunk))
      then set_main_keys (Some (<[s32 chunk := row]> keys)) d else d
  | None => d
  end.

(** The tables exist. *)
Definition has_tables (d : dbs) : Prop := is_Some (main_keys d) /\ is_Some (chunk_table d).

Lemma sql_insert_length_ok chunk len d :
  has_tables d -> sql_insert_length chunk len d = inr (put_length chunk len d, [1]).
Proof.
  intros [_ [t Ht]]. unfold sql_insert_length, put_length, chunk_table in *.
  destruct (cache d) as [[v [t'|]]|]; done.
Qed.

Lemma sql_update_key_ok chunk row d :
  has_tables d -> exists n, sql_update_key chunk row d = inr (put_key chunk row d, [n]).
Proof.
  intros [[keys Hk] _]. unfold sql_update_key, put_key. rewrite Hk.
  destruct (keys !! s32 chunk) eqn:E; [rewrite decide_True by done|rewrite decide_False by (by intros [])];
    eauto.
Qed.

Lemma chunk_table_put_length chunk len d t :
  chunk_table d = Some t -> chunk_table (put_length chunk len d) = Some (<[s32 chunk := s32 len]> t).
Proof.
  unfold put_length, chunk_table. destruct (cache d) as [[v [t'|]]|]; simpl; try done. by intros [= ->].
Qed.

Lemma main_keys_put_length chunk len d : main_keys (put_length chunk len d) = main_keys d.
Proof. unfold put_length. by destruct (cache d) as [[v [t|]]|]. Qed.

Lemma has_tables_put_length chunk len d : has_tables d -> has_tables (put_length chunk len d).
Proof.
  intros [Hm [t Ht]]. split; [by rewrite main_keys_put_length|].
  by rewrite (chunk_table_put_length _ _ _ t).
Qed.

Lemma put_length_idemp chunk len d :
  put_length chunk len (put_length chunk len d) = put_length chunk len d.
Proof.
  unfold put_length. destruct (cache d) as [[v [t|]]|] eqn:E; simpl; rewrite ?E; try done.
  by rewrite insert_insert_eq.
Qed.

Lemma chunk_table_put_key chunk row d : chunk_table (put_key chunk row d) = chunk_table d.
Proof. unfold put_key. destruct (main_keys d); [|done]. by case_decide. Qed.

Lemma main_keys_put_key chunk row d keys :
  main_keys d = Some keys -> is_Some (keys !! s32 chunk) ->
  main_keys (put_key chunk row d) = Some (<[s32 chunk := row]> keys).
Proof. intros Hk Hc. unfold put_key. rewrite Hk. by rewrite decide_True. Qed.

(** ** The transaction of cache_update *)

Section update_tx.
Context (s0 : pk_state) (chunk : Z) (out : list Z).
Context (Hg : geometry s0) (Hc : is_u 32 chunk) (Hb : bytes out).
Context (Hl : Z.of_nat (length out) <= chunksize (parcel s0)).

Local Abbreviation d0 := (data (conn s0)).
Local Abbreviation len := (Z.of_nat (length out)).

Context (Hd0 : has_tables d0).

(** Nothing can fail for good. *)
Definition fair (fs : list (option (sqlite_fault * bool))) : Prop := Forall contention fs /\ io s0 = [].

(** The slot holds the new chunk. *)
Definition written (s : pk_state) : Prop := writes_only chunk s0 s /\ slot s chunk (length out) = out.

Lemma written_db b s : written s -> written (set_db b s).
Proof. intros [Hw Hs]. split; [by apply writes_only_db|done]. Qed.

Lemma write_chunk_triple {R} fs (X : exit R -> pk_state -> Prop) :
  triple (fun s => active d0 d0 (conn s) /\ within fs (conn s) /\ writes_only chunk s0 s)
    (call (_cache_write_chunk chunk out))
    (fun err s => within fs (conn s) /\ writes_only chunk s0 s /\
       if decide (err = PK_SUCCESS)
       then active d0 (put_length chunk len d0) (conn s) /\ written s
       else broken fs d0 (conn s) /\ (query_busy (conn s) = false -> ~ fair fs)) X.
Proof.
  apply triple_call_body. unfold _cache_write_chunk.
  eapply triple_bind with (Q := fun cs s => cs = chunksize (parcel s0) /\
    (active d0 d0 (conn s) /\ within fs (conn s) /\ writes_only chunk s0 s)).
  { apply triple_gets. intros s (? & ? & Hw). split; [|done]. by destruct Hw as [_ -> _ _ _ _ _ _ _ _]. }
  intros cs. apply triple_pure. intros ->. rewrite decide_False by lia.
  eapply triple_bind with (Q := fun off s => off = cache_chunk_to_offset s0 chunk /\
    (active d0 d0 (conn s) /\ within fs (conn s) /\ writes_only chunk s0 s)).
  { apply triple_gets. intros s (? & ? & Hw). split; [|done]. destruct Hw.
    unfold cache_chunk_to_offset. congruence. }
  intros off. apply triple_pure. intros ->.
  set (slotdata := out ++ replicate (Z.to_nat (chunksize (parcel s0)) - length out) 0).
  assert (Z.of_nat (length slotdata) = chunksize (parcel s0)) as Hsl.
  { subst slotdata. rewrite length_app, length_replicate. lia. }
  rewrite s32_id by (destruct Hg; lia).
  eapply triple_bind.
  { eapply triple_pre; [apply (pwrite_slot s0 chunk slotdata
      (fun s => active d0 d0 (conn s) /\ within fs (conn s)))|]; try done.
    - apply Forall_app_2; [done|]. by apply Forall_replicate.
    - by intros s (? & ? & ?). }
  intros n. apply triple_decide; intros Hn.
  - apply triple_return. intros s ([Ha Hw] & Hwo & Hio). simpl. rewrite decide_False in Hio by lia.
    split_and!; try done.
    + by eapply active_broken.
    + intros _ [_ ?]. done.
  - assert (n = chunksize (parcel s0)) as -> by lia.
    eapply triple_bind.
    { eapply triple_fall;
        [apply (tx_query fs d0 d0 (sql_insert_length chunk len) written written_db)|].
      intros s ([Ha Hw] & Hwo & Hs). rewrite decide_True in Hs by done. split_and!; try done.
      split; [done|]. transitivity (take (length out) slotdata).
      - rewrite <- Hs. unfold slot, range. rewrite take_take, Nat.min_l by lia. done.
      - subst slotdata. by rewrite take_app_length. }
    intros [ok rows]. simpl. destruct ok; simpl.
    + apply triple_return. intros s (Hw & Hwr & d' & Hd' & Ha & _). simpl.
      rewrite sql_insert_length_ok in Hd' by done. injection Hd' as <- _.
      split_and!; try done. by destruct Hwr.
    + apply triple_return. intros s (Hw & Hwr & _ & Hbr & _ & Hf). simpl.
      split_and!; try done; [by destruct Hwr|].
      intros Hnb [Hcont _]. destruct (Hf Hnb) as [[e He]|?]; [|done].
      by rewrite sql_insert_length_ok in He.
Qed.

(** The database after a successful update. *)
Context (e : encoded) (He : enc_out e = out).

Definition updated : dbs :=
  put_key chunk (mk_key_row (enc_tag e) (enc_key e) (enc_compress e)) (put_length chunk len d0).

Definition tx_result (r : pk_err) (s : pk_state) : Prop :=
  within (faults (conn s0)) (conn s) /\
  ((r = PK_SUCCESS /\ idle updated (conn s) /\ written s) \/
   (r = PK_IOERR /\ idle d0 (conn s) /\ writes_only chunk s0 s /\ ~ fair (faults (conn s0)))).

Lemma fair_suffix fs fs' : fs' `suffix_of` fs -> ~ fair fs' -> ~ fair fs.
Proof. intros [k ->] Hn [Hx Hio]. apply Hn. split; [|done]. by apply Forall_app in Hx as [_ ?]. Qed.

(** A query of the body after which the transaction goes on, or is left for "bad:". *)
Lemma tx_step {A} fs d (f : dbq A) (m : bool * list A -> pk pk_state pk_err pk_err) d' rows :
  fs `suffix_of` faults (conn s0) ->
  f d = inr (d', rows) ->
  (forall r, r.1 = false -> m r = goto_bad PK_IOERR) ->
  triple (fun s => active d0 d' (conn s) /\ within fs (conn s) /\ written s) (m (true, rows)) tx_result
    (tx_exit fs d0 (writes_only chunk s0) tx_result
       (fun r => r = PK_IOERR /\ ~ fair (faults (conn s0)))) ->
  triple (fun s => active d0 d (conn s) /\ within fs (conn s) /\ written s)
    (run f ≫= m) tx_result
    (tx_exit fs d0 (writes_only chunk s0) tx_result
       (fun r => r = PK_IOERR /\ ~ fair (faults (conn s0)))).
Proof.
  intros Hfs Hf Hbad Hm. eapply triple_bind.
  { eapply triple_fall; [apply (tx_query fs d0 d f written written_db)|]. done. }
  intros [[] rows']; simpl.
  - intros s (Hw & Hwr & d'' & Hd'' & Ha & _). rewrite Hf in Hd''. injection Hd'' as <- <-.
    by apply Hm.
  - rewrite Hbad by done. apply triple_goto_bad. intros s (Hw & [Hwo _] & _ & Hbr & _ & Hnf).
    split_and!; try done. intros Hnb. split; [done|]. eapply fair_suffix; [exact Hfs|].
    intros [Hcont _]. destruct (Hnf Hnb) as [[e' He']|?]; [|done]. by rewrite Hf in He'.
Qed.

Lemma update_tx_body fs :
  fs `suffix_of` faults (conn s0) ->
  tx_body d0 (writes_only chunk s0) tx_result
    (fun r => r = PK_IOERR /\ ~ fair (faults (conn s0)))
    (cache_update_body chunk e) fs.
Proof.
  intros Hfs. unfold tx_body, cache_update_body. rewrite He.
  apply (tx_begin fs d0 (writes_only chunk s0) tx_result _ PK_IOERR (fun _ => _)).
  { intros b s. apply writes_only_db. }
  { intros s Hi Hwi Hw Hn _. split; [by eapply within_trans|]. right. split_and!; try done.
    eapply fair_suffix; [exact Hfs|]. by intros [? _]. }
  eapply triple_bind; [apply (write_chunk_triple fs)|].
  intros err. apply triple_decide; intros Herr.
  - apply triple_goto_bad. intros s (Hw & Hwo & Hx). rewrite decide_False in Hx by done.
    destruct Hx as [Hbr Hnf]. split_and!; try done. intros Hnb. split; [done|].
    eapply fair_suffix; [exact Hfs|]. by apply Hnf.
  - eapply triple_pre with (P' := fun s => active d0 (put_length chunk len d0) (conn s) /\
      within fs (conn s) /\ written s).
    2:{ intros s (Hw & Hwo & Hx). rewrite decide_True in Hx; [tauto|].
        by destruct (decide (err = PK_SUCCESS)). }
    pose proof (has_tables_put_length chunk len d0 Hd0) as Hd1.
    eapply tx_step; [done|by apply sql_insert_length_ok|by intros [[] ?]|]. simpl.
    rewrite put_length_idemp.
    destruct (sql_update_key_ok chunk (mk_key_row (enc_tag e) (enc_key e) (enc_compress e)) _ Hd1)
      as [n Hn].
    eapply tx_step; [done|exact Hn|by intros [[] ?]|]. simpl.
    eapply triple_bind.
    { eapply triple_fall; [apply (tx_commit fs d0 written updated written_db)|]. done. }
    intros []; simpl.
    + apply triple_return. intros s (Hw & Hwr & Hi). split; [by eapply within_trans|]. by left.
    + apply triple_goto_bad. intros s (Hw & [Hwo _] & Hbr & _ & Hnc & _). split_and!; try done.
      intros _. split; [done|]. eapply fair_suffix; [exact Hfs|]. by intros [? _].
Qed.

Lemma cache_update_tx_spec :
  idle d0 (conn s0) ->
  exists r s, cache_update_tx chunk e s0 = Some (r, s) /\ tx_result r s.
Proof.
  intros Hi.
  destruct (transaction_spec (faults (conn s0)) d0 (writes_only chunk s0) tx_result
    (fun r => r = PK_IOERR /\ ~ fair (faults (conn s0))) _ s0 update_tx_body) as (r & s & Hr & Hx).
  - intros b s. apply writes_only_db.
  - done.
  - apply within_refl.
  - apply writes_only_refl.
  - exists r, s. split; [exact Hr|]. destruct Hx as [?|(? & ? & ? & ? & ?)]; [done|].
    split; [done|]. right. auto.
Qed.
End update_tx.

(** A state in which nothing fails for good leads to another one. *)
Definition fair_after (s s' : pk_state) : Prop :=
  faults (conn s') `suffix_of` faults (conn s) /\ io s' `suffix_of` io s.

Lemma fair_after_fair s s' : fair_after s s' -> fair s (faults (conn s)) -> fair s' (faults (conn s')).
Proof.
  intros [[k Hk] Hio] [Hc Hn]. split.
  - rewrite Hk in Hc. by apply Forall_app in Hc as [_ ?].
  - rewrite Hn in Hio. by apply suffix_nil_inv in Hio.
Qed.

(** ** The shared memory map *)

Definition shm_len (m : option (list Z)) (n : Z) : Prop :=
  match m with None => True | Some b => Z.of_nat (length b) = n end.

Lemma shm_update_ok {R} chunk set clear s :
  shm_len (shm s) (chunks (parcel s)) -> 0 <= chunk < chunks (parcel s) ->
  exists m, (shm_update chunk set clear : pk pk_state R ()) s = Some (inl (), set_shm m s) /\
    shm_len m (chunks (parcel s)).
Proof.
  intros Hl Hc. unfold shm_update, mbind, pk_mbind, pk_bind, gets.
  destruct (shm s) as [b|] eqn:Hb; simpl in Hl.
  - rewrite decide_False by lia. unfold defined. rewrite decide_True by lia. simpl.
    eexists. split; [done|]. simpl. by rewrite length_insert.
  - exists None. split; [|done]. destruct s; simpl in *; by subst.
Qed.

(** ** The invariant, and what the local cache holds *)

Record cache_wf (s : pk_state) : Prop := mk_cache_wf {
  wf_geometry : geometry s;
  wf_idle : idle (data (conn s)) (conn s);
  wf_tables : has_tables (data (conn s));
  wf_bytes : bytes (cache_content s);
  wf_lengths t : chunk_table (data (conn s)) = Some t ->
    map_Forall (fun _ n => 0 <= n <= chunksize (parcel s)) t;
  wf_keys keys : main_keys (data (conn s)) = Some keys ->
    map_Forall (fun _ r => bytes (kr_key r)) keys
}.

(** The keyring has a row for the chunk. *)
Definition in_keyring (s : pk_state) (chunk : Z) : Prop :=
  exists keys, main_keys (data (conn s)) = Some keys /\ is_Some (keys !! s32 chunk).

(** The keyring, the index and the slot of [chunk] agree, and encode the contents [buf]. *)
Record stored_as (env : compress_env) (s : pk_state) (chunk : Z) (buf : list Z) (row : key_row)
    (n : nat) : Prop := mk_stored {
  st_key : (keys ← main_keys (data (conn s)); keys !! s32 chunk) = Some row;
  st_len : (t ← chunk_table (data (conn s)); t !! s32 chunk) = Some (Z.of_nat n);
  st_pos : 0 < Z.of_nat n <= chunksize (parcel s);
  st_slot : length (slot s chunk n) = n;
  st_tag : length (kr_tag row) = 20%nat;
  st_keylen : length (kr_key row) = 20%nat;
  st_enabled : iu_chunk_compress_is_enabled (required_compress (parcel s))
                 (u32 (kr_compression row)) = true;
  st_decode : iu_chunk_decode env IU_CHUNK_CRY_AES_SHA1 (u32 (kr_compression row))
                (slot s chunk n) (kr_key row) (Z.to_nat (chunksize (parcel s))) = Some (Some buf)
}.

Definition stored env s chunk buf : Prop := exists row n, stored_as env s chunk buf row n.

Lemma valid_compress_u32 c : valid_compress c -> u32 c = c.
Proof.
  intros [-> | [alg Ha]]; [done|]. unfold compress_to_isrcry in Ha.
  case_decide; [by subst|]. by case_decide; [subst|].
Qed.

Lemma iu_chunk_valid_none : valid_compress IU_CHUNK_COMP_NONE.
Proof. by left. Qed.

(** What the tables say about a chunk. *)
Definition lookup_row (p : pk_parcel) (d : dbs) (chunk : Z) : pk_err + list Z * list Z * Z * Z :=
  match (keys ← main_keys d; keys !! s32 chunk) with
  | None => inl PK_IOERR
  | Some row =>
      if decide (length (kr_tag row) <> Z.to_nat (hashlen p) \/
                 length (kr_key row) <> Z.to_nat (hashlen p)) then inl PK_INVALID
      else if negb (iu_chunk_compress_is_enabled (required_compress p) (u32 (kr_compression row)))
      then inl PK_INVALID
      else
        match chunk_table d with
        | None => inl PK_IOERR
        | Some t => inr (kr_tag row, kr_key row, u32 (kr_compression row),
                         match t !! s32 chunk with Some n => u32 n | None => 0 end)
        end
  end.

(** It depends on the rows of the chunk only. *)
Lemma lookup_row_rows p d d' c :
  has_tables d -> has_tables d' ->
  (keys ← main_keys d'; keys !! s32 c) = (keys ← main_keys d; keys !! s32 c) ->
  (t ← chunk_table d'; t !! s32 c) = (t ← chunk_table d; t !! s32 c) ->
  lookup_row p d' c = lookup_row p d c.
Proof.
  intros [_ [t Ht]] [_ [t' Ht']] Hk Hl. unfold lookup_row. rewrite Hk. rewrite Ht, Ht' in *.
  simpl in Hl. by rewrite Hl.
Qed.

(** ** cache_update *)

Section update.
Context (env : compress_env) `{!ChunkCodec env}.

Lemma set_shm_stored m s chunk buf : stored env s chunk buf -> stored env (set_shm m s) chunk buf.
Proof. intros (row & n & []). by exists row, n. Qed.

Lemma set_stats_stored m s chunk buf : stored env s chunk buf -> stored env (set_stats m s) chunk buf.
Proof. intros (row & n & []). by exists row, n. Qed.

Lemma writes_only_geometry chunk s s' : writes_only chunk s s' -> geometry s -> geometry s'.
Proof.
  intros [Hc Hp _ Hm Ho _ _ _ _ _] []. split; rewrite ?Hc, ?Hp, ?Hm, ?Ho; done.
Qed.

Lemma slot_writes_only chunk s s' c :
  writes_only chunk s s' -> cache_chunk_to_offset s' c = cache_chunk_to_offset s c.
Proof. intros []. unfold cache_chunk_to_offset. congruence. Qed.

(** Another chunk's contents survive if its rows do. *)
Lemma stored_frame chunk s s' c buf :
  writes_only chunk s s' -> is_u 32 c -> c <> chunk ->
  (keys ← main_keys (data (conn s')); keys !! s32 c) = (keys ← main_keys (data (conn s)); keys !! s32 c) ->
  (t ← chunk_table (data (conn s')); t !! s32 c) = (t ← chunk_table (data (conn s)); t !! s32 c) ->
  stored env s c buf -> stored env s' c buf.
Proof.
  intros Hw Hc Hne Hk Ht (row & n & []). exists row, n.
  assert (slot s' c n = slot s c n) as Hs.
  { destruct Hw as [_ _ _ _ _ _ _ _ _ Hslots]. apply Hslots; try done. lia. }
  destruct Hw as [_ Hp _ _ _ _ _ _ _ _].
  split; rewrite ?Hp, ?Hs, ?Hk, ?Ht; done.
Qed.

Lemma updated_row s chunk e out keys c :
  main_keys (data (conn s)) = Some keys -> is_Some (keys !! s32 chunk) ->
  (k ← main_keys (updated s chunk out e); k !! s32 c) =
    if decide (s32 c = s32 chunk) then Some (mk_key_row (enc_tag e) (enc_key e) (enc_compress e))
    else keys !! s32 c.
Proof.
  intros Hk Hc. unfold updated. rewrite (main_keys_put_key _ _ _ keys).
  - cbn [mbind option_bind]. case_decide as Heq; [rewrite Heq|]; by simplify_map_eq.
  - by rewrite main_keys_put_length.
  - done.
Qed.

Lemma updated_length s chunk e out t c :
  chunk_table (data (conn s)) = Some t ->
  (k ← chunk_table (updated s chunk out e); k !! s32 c) =
    if decide (s32 c = s32 chunk) then Some (s32 (Z.of_nat (length out))) else t !! s32 c.
Proof.
  intros Ht. unfold updated. rewrite chunk_table_put_key, (chunk_table_put_length _ _ _ t) by done.
  cbn [mbind option_bind]. case_decide as Heq; [rewrite Heq|]; by simplify_map_eq.
Qed.

Context (s : pk_state) (chunk : Z) (buf : list Z).
Context (Hwf : cache_wf s) (Hc : 0 <= chunk < chunks (parcel s)) (Hk : in_keyring s chunk).
Context (Hb : bytes buf) (Hl : Z.of_nat (length buf) = chunksize (parcel s)).

Lemma chunk_u32 c : 0 <= c < chunks (parcel s) -> is_u 32 c.
Proof. destruct (g_chunks s (wf_geometry s Hwf)). unfold is_u. lia. Qed.

(** The encoded chunk. *)
Lemma encode_for_cache : exists e,
  iu_chunk_encode env (crypto (parcel s)) buf (compress (conf s)) = Some (Some e) /\
  0 < Z.of_nat (length (enc_out e)) <= chunksize (parcel s) /\ bytes (enc_out e) /\
  length (enc_tag e) = 20%nat /\ length (enc_key e) = 20%nat /\ bytes (enc_key e) /\
  valid_compress (enc_compress e) /\
  iu_chunk_compress_is_enabled (required_compress (parcel s)) (enc_compress e) = true /\
  iu_chunk_decode env IU_CHUNK_CRY_AES_SHA1 (enc_compress e) (enc_out e) (enc_key e)
    (Z.to_nat (chunksize (parcel s))) = Some (Some buf).
Proof.
  destruct (wf_geometry s Hwf) as [Hcry _ Hcs Hmod _ _ Hv Hen Hnone _].
  destruct (codec_roundtrip buf (compress (conf s))) as (e & He & Hel & Heb & Ht & Hkl & Hkb & Hcomp & Hd);
    try done; try lia.
  { apply Nat2Z.inj. rewrite Nat2Z.inj_mod, Hl. done. }
  exists e. rewrite Hcry. replace (Z.to_nat (chunksize (parcel s))) with (length buf) by lia.
  split_and!; try done; try lia; destruct Hcomp as [-> | ->]; done || apply iu_chunk_valid_none.
Qed.

Lemma updated_wf e s' :
  enc_out e <> [] -> Z.of_nat (length (enc_out e)) <= chunksize (parcel s) -> bytes (enc_key e) ->
  idle (updated s chunk (enc_out e) e) (conn s') -> writes_only chunk s s' -> cache_wf s'.
Proof.
  intros Hne Hle Hkb Hi Hw. destruct Hwf as [Hg _ Ht Hby Hlen Hkeys].
  pose proof (writes_only_geometry _ _ _ Hw Hg) as Hg'. destruct Hk as (keys & Hkeys' & Hks).
  destruct Ht as [_ [t Ht]]. destruct Hi as (Hi1 & Hi2 & Hd).
  assert (main_keys (data (conn s')) = Some (<[s32 chunk := mk_key_row (enc_tag e) (enc_key e)
    (enc_compress e)]> keys)) as Hmk.
  { rewrite Hd. apply main_keys_put_key; [by rewrite main_keys_put_length|done]. }
  assert (chunk_table (data (conn s')) =
    Some (<[s32 chunk := s32 (Z.of_nat (length (enc_out e)))]> t)) as Hct.
  { rewrite Hd. unfold updated. rewrite chunk_table_put_key. by apply chunk_table_put_length. }
  destruct Hg as [_ _ Hcs _ _ _ _ _ _ _].
  split; [done|by split_and!|split; [by rewrite Hmk|by rewrite Hct]|by apply (w_bytes _ _ _ Hw)| |].
  - intros t' Ht'. rewrite Hct in Ht'. injection Ht' as <-. rewrite (w_parcel _ _ _ Hw).
    apply map_Forall_insert_2; [|by apply Hlen]. rewrite s32_id by lia. lia.
  - intros k' Hk'. rewrite Hmk in Hk'. injection Hk' as <-.
    apply map_Forall_insert_2; [done|by apply Hkeys].
Qed.

Lemma updated_in_keyring e s' c :
  idle (updated s chunk (enc_out e) e) (conn s') -> in_keyring s c -> in_keyring s' c.
Proof.
  intros (_ & _ & Hd) (keys & Hkeys & Hkc). destruct Hk as (keys' & Hkeys' & Hks).
  rewrite Hkeys in Hkeys'. injection Hkeys' as <-. unfold in_keyring. rewrite Hd. unfold updated.
  eexists. split; [apply main_keys_put_key; [by rewrite main_keys_put_length|done]|].
  rewrite lookup_insert_is_Some. destruct (decide (s32 chunk = s32 c)); auto.
Qed.

Lemma updated_lookup e s' c :
  idle (updated s chunk (enc_out e) e) (conn s') -> is_u 32 c -> c <> chunk ->
  lookup_row (parcel s) (data (conn s')) c = lookup_row (parcel s) (data (conn s)) c.
Proof.
  intros (_ & _ & Hd) Hc' Hne. pose proof (chunk_u32 chunk Hc) as Hcu.
  destruct (wf_tables s Hwf) as [Hmk [t Htab]]. destruct Hk as (keys & Hkeys & Hks).
  assert (s32 c <> s32 chunk) as Hne' by (intros Heq; by apply Hne, s32_inj).
  rewrite Hd. apply lookup_row_rows; [by apply Hwf| | |].
  - unfold updated. split.
    + rewrite (main_keys_put_key _ _ _ keys); [done|by rewrite main_keys_put_length|done].
    + by rewrite chunk_table_put_key, (chunk_table_put_length _ _ _ t).
  - by rewrite (updated_row s chunk e _ keys), decide_False, Hkeys by done.
  - by rewrite (updated_length s chunk e _ t), decide_False, Htab by done.
Qed.

Lemma updated_stored e s' :
  0 < Z.of_nat (length (enc_out e)) <= chunksize (parcel s) ->
  length (enc_tag e) = 20%nat -> length (enc_key e) = 20%nat -> valid_compress (enc_compress e) ->
  iu_chunk_compress_is_enabled (required_compress (parcel s)) (enc_compress e) = true ->
  iu_chunk_decode env IU_CHUNK_CRY_AES_SHA1 (enc_compress e) (enc_out e) (enc_key e)
    (Z.to_nat (chunksize (parcel s))) = Some (Some buf) ->
  idle (updated s chunk (enc_out e) e) (conn s') -> written s chunk (enc_out e) s' ->
  stored env s' chunk buf /\
  forall c b, is_u 32 c -> c <> chunk -> stored env s c b -> stored env s' c b.
Proof.
  intros Hel Ht Hkl Hv Hen Hd (_ & _ & Hi) [Hw Hs].
  destruct (wf_tables s Hwf) as [_ [t Htab]]. destruct Hk as (keys & Hkeys & Hks).
  destruct (wf_geometry s Hwf) as [_ _ Hcs _ _ _ _ _ _ _].
  split.
  - exists (mk_key_row (enc_tag e) (enc_key e) (enc_compress e)), (length (enc_out e)).
    split; rewrite ?(w_parcel _ _ _ Hw), ?Hs, ?Hi; simpl; rewrite ?(valid_compress_u32 _ Hv); try done.
    + by rewrite (updated_row s chunk e _ keys), decide_True.
    + rewrite (updated_length s chunk e _ t), decide_True by done. by rewrite s32_id by lia.
  - intros c b Hc' Hne. pose proof (chunk_u32 chunk Hc) as Hcu.
    assert (s32 c <> s32 chunk) as Hne' by (intros Heq; by apply Hne, s32_inj).
    apply (stored_frame chunk); try done; rewrite Hi.
    + by rewrite (updated_row s chunk e _ keys), decide_False, Hkeys by done.
    + by rewrite (updated_length s chunk e _ t), decide_False, Htab by done.
Qed.

(** What an update guarantees whatever fails. *)
Definition update_result (err : pk_err) (s' : pk_state) : Prop :=
  fair_after s s' /\ cache_wf s' /\ conf s' = conf s /\ parcel s' = parcel s /\
  (forall c b, is_u 32 c -> c <> chunk -> stored env s c b -> stored env s' c b) /\
  (forall c n, is_u 32 c -> c <> chunk -> Z.of_nat n <= chunksize (parcel s) ->
     length (slot s c n) = n -> slot s' c n = slot s c n) /\
  (forall c, is_u 32 c -> c <> chunk ->
     lookup_row (parcel s') (data (conn s')) c = lookup_row (parcel s) (data (conn s)) c) /\
  (forall c, in_keyring s c -> in_keyring s' c) /\
  (err = PK_SUCCESS /\ stored env s' chunk buf \/
   err = PK_IOERR /\ data (conn s') = data (conn s) /\ ~ fair s (faults (conn s))).

Lemma update_result_shm m err s' :
  shm_len m (chunks (parcel s)) -> update_result err s' -> update_result err (set_shm m s').
Proof.
  intros Hm (Hfa & Hw & Hcf & Hp & Hfr & Hsl & Hlk & Hik & Hr). split_and!; try done.
  - destruct Hw as [[]]. split; try done. split; try done. simpl. by rewrite Hp.
  - intros c b Hc' Hne Hst. apply set_shm_stored. by apply Hfr.
  - destruct Hr as [[? ?]|?]; [left|by right]. split; [done|]. by apply set_shm_stored.
Qed.

Lemma update_result_stats m err s' : update_result err s' -> update_result err (set_stats m s').
Proof.
  intros (Hfa & Hw & Hcf & Hp & Hfr & Hsl & Hlk & Hik & Hr). split_and!; try done.
  - destruct Hw as [[]]. by split.
  - intros c b Hc' Hne Hst. apply set_stats_stored. by apply Hfr.
  - destruct Hr as [[? ?]|?]; [left|by right]. split; [done|]. by apply set_stats_stored.
Qed.

(** A failed update may have changed the chunk's own slot, and nothing else. *)
Lemma rolled_back s' :
  within (faults (conn s)) (conn s') ->
  idle (data (conn s)) (conn s') -> writes_only chunk s s' -> ~ fair s (faults (conn s)) ->
  update_result PK_IOERR s'.
Proof.
  intros Hwi (Hi1 & Hi2 & Hd) Hw Hnf. destruct Hwf as [Hg Hi Ht Hby Hlen Hkeys].
  pose proof (writes_only_geometry _ _ _ Hw Hg) as Hg'.
  split; [split; [done|by apply Hw]|]. 
  split_and!; [|by apply Hw..| |by apply Hw| | |by right].
  - split; rewrite ?Hd, ?(w_parcel _ _ _ Hw); try done. by apply (w_bytes _ _ _ Hw).
  - intros c b Hc' Hne. by apply (stored_frame chunk); rewrite ?Hd.
  - intros c _ _. by rewrite Hd, (w_parcel _ _ _ Hw).
  - intros c. unfold in_keyring. by rewrite Hd.
Qed.

Lemma cache_update_spec : exists err s',
  cache_update env chunk buf s = Some (err, s') /\ update_result err s'.
Proof.
  destruct encode_for_cache as (e & He & Hel & Heb & Ht & Hkl & Hkb & Hv & Hen & Hd).
  pose proof (chunk_u32 chunk Hc) as Hcu.
  destruct (cache_update_tx_spec s chunk (enc_out e) (wf_geometry s Hwf) Hcu Heb ltac:(lia)
    (wf_tables s Hwf) e eq_refl (wf_idle s Hwf)) as (r & s1 & Hr & Hres).
  unfold cache_update, body, mbind, pk_mbind, pk_bind, gets, call, modify. rewrite He, Hr.
  destruct Hres as (Hwi & [(-> & Hi & Hw)|(-> & Hi & Hw & Hnf)]).
  - rewrite decide_False by (intros Hx; by apply Hx).
    destruct (updated_stored e s1) as [Hst Hfr]; try done.
    assert (update_result PK_SUCCESS s1) as Hup.
    { destruct Hw as [Hw _]. split; [split; [done|by apply Hw]|].
      split_and!; [|by apply Hw..|done|by apply Hw| | |by left].
      2:{ intros c Hc' Hne. rewrite (w_parcel _ _ _ Hw). by apply (updated_lookup e). }
      2:{ intros c Hc'. by apply (updated_in_keyring e). }
      apply (updated_wf e s1); try done; [|lia]. intros Hnil. rewrite Hnil in Hel. simpl in Hel. lia. }
    set (s3 := stats_increment data_bytes_written (Z.of_nat (length (enc_out e)))
      (stats_increment chunk_writes 1 s1)).
    assert (update_result PK_SUCCESS s3) as Hup3 by (by apply update_result_stats, update_result_stats).
    assert (shm_len (shm s3) (chunks (parcel s3)) /\ 0 <= chunk < chunks (parcel s3)) as [Hm Hc3].
    { destruct Hup3 as (_ & Hw3 & _ & Hp & _). split; [apply (g_shm _ (wf_geometry _ Hw3))|by rewrite Hp]. }
    destruct (@shm_update_ok pk_err chunk (Z.lor (Z.lor SHM_PRESENT SHM_ACCESSED_SESSION)
      (Z.lor SHM_DIRTY SHM_DIRTY_SESSION)) 0 s3 Hm Hc3) as (m & Hshm & Hml).
    unfold cache_shm_set_dirty. rewrite Hshm. eexists _, _. split; [done|].
    apply update_result_shm; [|done]. destruct Hup3 as (_ & _ & _ & Hp & _). by rewrite <- Hp.
  - rewrite decide_True by done. eexists _, _. split; [done|]. by apply rolled_back.
Qed.
End update.

(** ** Reading a slot *)

Lemma read_slot s chunk n :
  geometry s -> bytes (cache_content s) -> 0 <= n <= chunksize (parcel s) ->
  exists err buf rest, _cache_read_chunk chunk (chunksize (parcel s)) n None s =
      Some ((err, buf), set_io rest s) /\ rest `suffix_of` io s /\ bytes buf /\
    (err = PK_SUCCESS /\ buf = slot s chunk (Z.to_nat n) /\ length (slot s chunk (Z.to_nat n)) = Z.to_nat n \/
     err = PK_IOERR) /\
    (io s = [] -> length (slot s chunk (Z.to_nat n)) = Z.to_nat n -> err = PK_SUCCESS).
Proof.
  intros Hg Hbytes Hn. destruct (g_chunksize s Hg) as [Hc1 Hc2].
  unfold _cache_read_chunk, body, pread, mbind, pk_mbind, pk_bind, gets, next_io, defined.
  assert (forall k, take k (drop (Z.to_nat (cache_chunk_to_offset s chunk)) (cache_content s)) = slot s chunk k) as Hslot by done.
  assert (forall k, bytes (slot s chunk k)) as Hb by (intros; by apply bytes_range).
  assert (forall k, (length (slot s chunk k) <= k)%nat) as Hlk.
  { intros k. unfold slot. rewrite length_range. lia. }
  rewrite (s32_id n) by lia.
  destruct (io s) as [|o rest] eqn:Hio.
  - change (limit (Z.to_nat n) None) with (Z.to_nat n). rewrite Hslot. pose proof (Hlk (Z.to_nat n)).
    rewrite decide_True by lia. unfold pk_ret. cbv beta iota.
    assert (set_io [] s = s) as Hset by (destruct s; simpl in *; by subst).
    destruct (decide (Z.of_nat _ <> n)) as [Hne|Heq]; eexists _, _, []; rewrite Hset;
      (split; [done|]; split_and!; auto); [|left; split_and!; [done|done|lia]]. intros _ Hx. lia.
  - change (cache_content (set_io rest s)) with (cache_content s). rewrite Hslot.
    pose proof (Hlk (limit (Z.to_nat n) o)) as Hlen.
    assert (limit (Z.to_nat n) o <= Z.to_nat n)%nat by (destruct o; simpl; lia).
    rewrite decide_True by lia. unfold pk_ret. cbv beta iota.
    destruct (decide (Z.of_nat _ <> n)) as [Hne|Heq].
    + eexists _, _, rest. split; [done|]. split_and!; auto; [by exists [o]|]. done.
    + assert (limit (Z.to_nat n) o = Z.to_nat n) as Hlim by lia. rewrite Hlim in *.
      eexists _, _, rest. split; [done|]. split_and!; auto; [by exists [o]|]. left. split_and!; [done|done|lia].
Qed.

(** ** cache_get *)

Section get_row.
Context (s0 : pk_state) (chunk : Z).
Local Abbreviation d0 := (data (conn s0)).
Local Abbreviation expected := (lookup_row (parcel s0) d0 chunk).
Local Abbreviation R := (pk_err + list Z * list Z * Z * Z)%type.

(** Only the connection differs. *)
Definition reads_only (s : pk_state) : Prop := exists b, s = set_db b s0.

Lemma reads_only_db b s : reads_only s -> reads_only (set_db b s).
Proof. intros [b' ->]. exists b. apply set_set_db. Qed.

Definition row_result (fs : list (option (sqlite_fault * bool))) (r : R) : Prop :=
  r = expected \/ r = inl PK_IOERR /\ ~ Forall contention fs.

Definition row_post fs (r : R) (s : pk_state) : Prop :=
  row_result fs r /\ idle d0 (conn s) /\ within fs (conn s) /\ reads_only s.

Lemma goto_bad_active fs fs0 d r :
  row_result fs0 r ->
  triple (fun s => active d0 d (conn s) /\ within fs (conn s) /\ reads_only s)
    (goto_bad r : pk pk_state R R) (row_post fs0)
    (tx_exit fs d0 reads_only (row_post fs0) (row_result fs0)).
Proof.
  intros Hr. apply triple_goto_bad. intros s (Ha & Hw & Hro). split_and!; try done.
  by eapply active_broken.
Qed.

Lemma contention_suffix fs fs' : fs' `suffix_of` fs -> ~ Forall contention fs' -> ~ Forall contention fs.
Proof. intros [k ->] Hn Hx. by apply Hn; apply Forall_app in Hx as [_ ?]. Qed.

(** A query, with what follows if it succeeds and if it fails. *)
Lemma row_step {A} fs fs0 (f : dbq A) (m : bool * list A -> pk pk_state R R) :
  fs `suffix_of` fs0 ->
  (forall rows, f d0 = inr (d0, rows) ->
     triple (fun s => (active d0 d0 (conn s) /\ within fs (conn s) /\ reads_only s) /\
               result (conn s) = match rows with [] => SQLITE_OK | _ => SQLITE_ROW end)
       (m (true, rows)) (row_post fs0) (tx_exit fs d0 reads_only (row_post fs0) (row_result fs0))) ->
  (forall d rows, f d0 = inr (d, rows) -> d = d0) ->
  ((exists e, f d0 = inl e) -> expected = inl PK_IOERR) ->
  (forall s, result (conn s) <> SQLITE_ROW -> m (false, []) s = Some (inr (Goto_bad (inl PK_IOERR)), s)) ->
  triple (fun s => active d0 d0 (conn s) /\ within fs (conn s) /\ reads_only s)
    (run f ≫= m) (row_post fs0) (tx_exit fs d0 reads_only (row_post fs0) (row_result fs0)).
Proof.
  intros Hfs Hok Hro Herr Hbad. eapply triple_bind.
  { eapply triple_fall; [apply (tx_query fs d0 d0 f reads_only reads_only_db)|]. done. }
  intros [[] rows]; simpl.
  - intros s (Hw & Hr & d' & Hd' & Ha & Hres). pose proof (Hro _ _ Hd') as ->.
    by apply (Hok rows Hd').
  - intros s (Hw & Hr & -> & Hbr & Hnr & Hf). eexists _, _. split; [by apply Hbad|].
    split_and!; try done. intros Hnb. destruct (Hf Hnb) as [He|Hn].
    + left. symmetry. by apply Herr.
    + right. split; [done|]. by eapply contention_suffix.
Qed.

Lemma get_length_triple fs fs0 row comp :
  fs `suffix_of` fs0 ->
  expected = match chunk_table d0 with
             | None => inl PK_IOERR
             | Some t => inr (kr_tag row, kr_key row, comp,
                              match t !! s32 chunk with Some n => u32 n | None => 0 end)
             end ->
  triple (fun s => active d0 d0 (conn s) /\ within fs (conn s) /\ reads_only s)
    (cache_get_length chunk row comp) (row_post fs0)
    (tx_exit fs d0 reads_only (row_post fs0) (row_result fs0)).
Proof.
  intros Hfs Hexp. apply row_step; [done| | | |done].
  - intros rows Hrows. unfold sql_select_length in Hrows.
    destruct (chunk_table d0) as [t|] eqn:Ht; [|done]. injection Hrows as Hrows. simpl.
    eapply triple_bind.
    { eapply triple_fall; [apply (tx_commit fs d0 reads_only d0 reads_only_db)|]. by intros s [? _]. }
    intros []; simpl.
    + apply triple_return. intros s (Hw & Hro & Hi'). split_and!; try done; [|by eapply within_trans].
      left. rewrite Hexp. subst rows. by destruct (t !! s32 chunk).
    + apply triple_goto_bad. intros s (Hw & Hro & Hbr & _ & Hn & _). split_and!; try done.
      intros _. right. split; [done|]. by eapply contention_suffix.
  - intros d rows. unfold sql_select_length. destruct (chunk_table d0); [|done]. by intros [= <- _].
  - intros [e He]. unfold sql_select_length in He. rewrite Hexp. by destruct (chunk_table d0).
Qed.

Lemma get_body_triple fs fs0 :
  fs `suffix_of` fs0 -> tx_body d0 reads_only (row_post fs0) (row_result fs0) (cache_get_body chunk) fs.
Proof.
  intros Hfs. unfold tx_body.
  eapply triple_bind with (Q := fun p s => p = parcel s0 /\
    (idle d0 (get_db s) /\ within fs (get_db s) /\ reads_only s)).
  { apply triple_gets. intros s (? & ? & Hro). split; [|done]. by destruct Hro as [b ->]. }
  intros p. apply triple_pure. intros ->.
  apply (tx_begin fs d0 reads_only _ _ _ (fun _ => _)); [by intros; apply reads_only_db|..].
  { intros s Hs Hwi Hro Hn _. split_and!; try done; [|by eapply within_trans]. right.
    split; [done|]. by eapply contention_suffix. }
  apply row_step; [done| | | |].
  - intros rows Hrows.
    apply triple_bind with (Q := fun b s => b = match rows with [] => false | _ => true end /\
      (active d0 d0 (conn s) /\ within fs (conn s) /\ reads_only s)).
    { apply triple_gets. intros s [Hs Hres]. split; [|done]. unfold query_has_row. rewrite Hres.
      by destruct rows. }
    intros b. apply triple_pure. intros ->. unfold sql_select_key in Hrows.
    destruct (main_keys d0) as [keys|] eqn:Hkeys; [|done]. injection Hrows as Hrows.
    destruct (keys !! s32 chunk) as [row|] eqn:Hrow; simpl in Hrows; subst rows; simpl.
    2:{ apply goto_bad_active. left. unfold lookup_row. by rewrite Hkeys; simpl; rewrite Hrow. }
    assert ((keys ← main_keys d0; keys !! s32 chunk) = Some row) as Hlk by (by rewrite Hkeys).
    destruct (decide _) as [Hlen|Hlen] eqn:Hdec; [|destruct (negb _) eqn:Hen].
    + apply (goto_bad_active fs fs0). left. unfold lookup_row. by rewrite Hlk, Hdec.
    + apply (goto_bad_active fs fs0). left. unfold lookup_row. by rewrite Hlk, Hdec, Hen.
    + apply (get_length_triple fs fs0); [done|]. unfold lookup_row. by rewrite Hlk, Hdec, Hen.
  - intros d rows. unfold sql_select_key. destruct (main_keys d0); [|done]. by intros [= <- _].
  - intros [e He]. unfold sql_select_key in He. unfold lookup_row. by destruct (main_keys d0).
  - intros s Hs. unfold mbind, pk_mbind, pk_bind, gets, query_has_row. by rewrite bool_decide_false.
Qed.

Lemma cache_get_row_spec :
  idle d0 (conn s0) ->
  exists r s, cache_get_row chunk s0 = Some (r, s) /\ row_post (faults (conn s0)) r s.
Proof.
  intros Hi. set (fs0 := faults (conn s0)).
  destruct (transaction_spec fs0 d0 reads_only (row_post fs0) (row_result fs0)
    (cache_get_body chunk) s0) as (r & s & Hr & Hx);
    [by intros; apply get_body_triple|by intros; apply reads_only_db|done|apply within_refl| |].
  - exists (conn s0). by destruct s0.
  - exists r, s. split; [exact Hr|]. destruct Hx as [?|(? & ? & ? & ?)]; [done|]. by split_and!.
Qed.
End get_row.

(** What cache_get has to decode for a chunk that the index gives [len] bytes in the local
    cache: the slot, or else what the hoard cache or the server has. *)
Definition fetched `{!ChunkSource} (s : pk_state) (chunk : Z) (tag : list Z) (len : Z) :
    option (list Z) :=
  if decide (len <> 0) then
    if decide (length (slot s chunk (Z.to_nat len)) = Z.to_nat len)
    then Some (slot s chunk (Z.to_nat len)) else None
  else
    let '(err, buf) := hoard_get_chunk tag in
    if decide (err = PK_SUCCESS) then Some buf
    else
      let '(err, buf) := transport_fetch_chunk chunk tag in
      if decide (err = PK_SUCCESS) then Some buf else None.

(** A chunk whose contents [buf] can be had, locally or elsewhere. *)
Definition readable (env : compress_env) `{!ChunkSource} (s : pk_state) (chunk : Z) (buf : list Z) :
    Prop :=
  exists tag key comp len enc,
    lookup_row (parcel s) (data (conn s)) chunk = inr (tag, key, comp, len) /\
    fetched s chunk tag len = Some enc /\ Z.of_nat (length enc) <= chunksize (parcel s) /\
    iu_chunk_decode env IU_CHUNK_CRY_AES_SHA1 comp enc key (Z.to_nat (chunksize (parcel s)))
      = Some (Some buf).

Section get.
Context (env : compress_env) `{!ChunkCodec env} `{!ChunkSource}.
Context (s : pk_state) (chunk : Z) (Hwf : cache_wf s) (Hc : 0 <= chunk < chunks (parcel s)).

(** The cache is as before. *)
Definition same_cache (s' : pk_state) : Prop :=
  cache_wf s' /\ conf s' = conf s /\ parcel s' = parcel s /\ offset s' = offset s /\
  data (conn s') = data (conn s) /\ cache_content s' = cache_content s.

Lemma same_cache_io rest s' : same_cache s' -> same_cache (set_io rest s').
Proof. intros ([[]] & ? & ? & ? & ? & ?). by split_and!. Qed.

Lemma same_cache_stats st s' : same_cache s' -> same_cache (set_stats st s').
Proof. intros ([[]] & ? & ? & ? & ? & ?). by split_and!. Qed.

Lemma same_cache_shm m s' :
  shm_len m (chunks (parcel s)) -> same_cache s' -> same_cache (set_shm m s').
Proof.
  intros Hm ([[]] & ? & Hp & ? & ? & ?). split_and!; try done. split; try done. split; try done.
  simpl. by rewrite Hp.
Qed.

Lemma same_cache_read b : idle (data (conn s)) b -> same_cache (set_db b s).
Proof.
  intros (Hl & Hs & Hd). destruct Hwf as [[]]. split_and!; try done. split; simpl; rewrite ?Hd; done.
Qed.

Lemma same_cache_stored s' c b : same_cache s' -> stored env s c b -> stored env s' c b.
Proof.
  intros (_ & _ & Hp & Ho & Hd & Hcc) (row & n & []). exists row, n.
  assert (slot s' c n = slot s c n) as Hs.
  { unfold slot, cache_chunk_to_offset. by rewrite Hcc, Hp, Ho. }
  split; rewrite ?Hp, ?Hd, ?Hs; done.
Qed.

(** Reading [n] bytes of a slot that fit in the buffer. *)
Lemma read_chunk_spec s' n :
  same_cache s' -> 0 <= n <= chunksize (parcel s) ->
  exists err buf rest, _cache_read_chunk chunk (chunksize (parcel s')) n None s' =
      Some ((err, buf), set_io rest s') /\ rest `suffix_of` io s' /\ bytes buf /\
    (err = PK_SUCCESS /\ buf = slot s chunk (Z.to_nat n) \/ err = PK_IOERR) /\
    (io s' = [] -> length (slot s chunk (Z.to_nat n)) = Z.to_nat n -> err = PK_SUCCESS).
Proof.
  intros ([Hg _ _ Hb _ _] & _ & Hp & Ho & _ & Hcc) Hn.
  assert (slot s' chunk (Z.to_nat n) = slot s chunk (Z.to_nat n)) as <-.
  { unfold slot, cache_chunk_to_offset. by rewrite Hcc, Hp, Ho. }
  destruct (read_slot s' chunk n Hg Hb) as (err & buf & rest & Hr & Hsuf & Hbuf & Hcase & Hio); [by rewrite Hp|].
  exists err, buf, rest. split_and!; try done. destruct Hcase as [(? & ? & _)|?]; auto.
Qed.

Lemma cache_fetch_spec s' tag len :
  same_cache s' -> 0 <= len <= chunksize (parcel s) ->
  exists err buf rest, cache_fetch chunk tag len s' = Some ((err, buf), set_io rest s') /\
    rest `suffix_of` io s' /\ bytes buf /\
    forall enc, fetched s chunk tag len = Some enc ->
      err = PK_SUCCESS /\ buf = enc \/ err = PK_IOERR /\ io s' <> [].
Proof.
  intros Hs' Hlen. unfold cache_fetch, fetched. destruct (decide (len <> 0)) as [Hl|Hl].
  - destruct (read_chunk_spec s' len Hs' Hlen) as (err & buf & rest & -> & Hrest & Hb & Hr & Hio).
    eexists _, _, _. split; [done|]. split_and!; try done. intros enc Henc.
    destruct (decide (length _ = _)) as [Hfull|]; [|done]. injection Henc as <-.
    destruct Hr as [?|Herr]; [by left|]. right. split; [done|]. intros Hnil.
    by rewrite (Hio Hnil Hfull) in Herr.
  - assert (set_io (io s') s' = s') as Hset by (by destruct s').
    pose proof (hoard_bytes tag) as Hhb. pose proof (transport_bytes chunk tag) as Htb.
    destruct (hoard_get_chunk tag) as [herr hbuf].
    destruct (transport_fetch_chunk chunk tag) as [terr tbuf].
    destruct (decide (herr <> PK_SUCCESS)) as [Hh|Hh]; eexists _, _, (io s'); rewrite Hset;
      (split_and!; [done..|]); intros enc Henc; left.
    + rewrite decide_False in Henc by done. destruct (decide (terr = PK_SUCCESS)); [|done].
      by injection Henc as <-.
    + destruct (decide (herr = PK_SUCCESS)); [|done]. by injection Henc as <-.
Qed.

(** What the tables say is right about chunks that are stored, and bounded for all others. *)
Lemma lookup_row_stored b row n :
  stored_as env s chunk b row n ->
  lookup_row (parcel s) (data (conn s)) chunk =
    inr (kr_tag row, kr_key row, u32 (kr_compression row), Z.of_nat n).
Proof.
  intros [Hk Ht Hp _ Htag Hkey Hen _]. unfold lookup_row. rewrite Hk.
  destruct (wf_geometry s Hwf) as [_ Hhl Hcs _ _ _ _ _ _ _]. rewrite Hhl.
  change (Z.to_nat 20) with 20%nat. rewrite decide_False by (by intros []). rewrite Hen. simpl.
  destruct (chunk_table _) as [t|]; [|done]. simpl in Ht. rewrite Ht.
  rewrite (u32_id (Z.of_nat n)) by (unfold is_u; lia). done.
Qed.

Lemma stored_readable b : stored env s chunk b -> readable env s chunk b.
Proof.
  intros (row & n & Hst). pose proof (lookup_row_stored b row n Hst) as Hrow.
  destruct Hst as [_ _ Hp Hs _ _ _ Hd].
  exists (kr_tag row), (kr_key row), (u32 (kr_compression row)), (Z.of_nat n), (slot s chunk n).
  split_and!; try done; [|lia]. unfold fetched. rewrite Nat2Z.id.
  rewrite decide_True by lia. by rewrite decide_True.
Qed.

Lemma lookup_row_bounds tag key comp len :
  lookup_row (parcel s) (data (conn s)) chunk = inr (tag, key, comp, len) ->
  0 <= len <= chunksize (parcel s) /\ bytes key /\ length key = 20%nat.
Proof.
  unfold lookup_row. destruct Hwf as [[_ Hhl Hcs _ _ _ _ _ _ _] _ _ _ Hlens Hkeys]. rewrite Hhl.
  destruct (main_keys _) as [keys|]; simpl; [|done].
  destruct (keys !! s32 chunk) as [row|] eqn:Hrow; [|done].
  destruct (decide _) as [|Hd]; [done|]. destruct (negb _); [done|].
  destruct (chunk_table _) as [t|]; [|done]. intros [= <- <- _ <-].
  assert (bytes (kr_key row)) by (eapply (Hkeys keys); done).
  split_and!; try done; [| |].
  - destruct (t !! s32 chunk) as [n|] eqn:Hn; [|lia]. pose proof (Hlens t eq_refl _ _ Hn).
    rewrite u32_id; unfold is_u; simpl in *; lia.
  - destruct (t !! s32 chunk) as [n|] eqn:Hn; [|lia]. pose proof (Hlens t eq_refl _ _ Hn).
    rewrite u32_id; unfold is_u; simpl in *; lia.
  - destruct (decide (length (kr_key row) = 20%nat)); [done|]. destruct Hd. by right.
Qed.

Definition get_result (err : pk_err) (buf : list Z) (s' : pk_state) : Prop :=
  fair_after s s' /\ same_cache s' /\
  (err = PK_SUCCESS -> Z.of_nat (length buf) = chunksize (parcel s)) /\
  forall b, readable env s chunk b ->
    err = PK_SUCCESS /\ buf = b \/ err = PK_IOERR /\ ~ fair s (faults (conn s)).

(** The end of cache_get, once the encrypted chunk is in memory. *)
Lemma get_finish s1 :
  same_cache s1 -> exists m, shm_len m (chunks (parcel s)) /\
  forall R, (shm_update chunk SHM_ACCESSED_SESSION 0 : pk pk_state R ()) (stats_increment chunk_reads 1 s1)
    = Some (inl (), set_shm m (stats_increment chunk_reads 1 s1)) /\
  same_cache (set_shm m (stats_increment chunk_reads 1 s1)).
Proof.
  intros Hs1. pose proof Hs1 as (Hw1 & _ & Hp & _).
  assert (shm_len (shm s1) (chunks (parcel s1))) as Hm by apply (g_shm _ (wf_geometry _ Hw1)).
  destruct (shm s1) as [base|] eqn:Hshm; simpl in Hm.
  - eexists (Some _). split; [|intros R]; cycle 1.
    + unfold shm_update, mbind, pk_mbind, pk_bind, gets, defined. simpl. rewrite Hshm.
      rewrite decide_False by (rewrite Hp; lia). rewrite decide_True by (rewrite Hp in Hm; lia).
      split; [done|]. apply same_cache_shm; [|by apply same_cache_stats].
      simpl. rewrite length_insert. by rewrite <- Hp.
    + simpl. rewrite length_insert. by rewrite <- Hp.
  - exists None. split; [done|]. intros R. unfold shm_update, mbind, pk_mbind, pk_bind, gets.
    simpl. rewrite Hshm. assert (set_shm None s1 = s1) as Hset by (destruct s1; simpl in *; by subst).
    split; [destruct s1; simpl in *; by subst|]. apply same_cache_shm; [done|].
    by apply same_cache_stats.
Qed.

(** Decoding what was fetched, and the book-keeping after it. *)
Lemma cache_get_decode s1 comp key encrypted :
  same_cache s1 -> bytes encrypted -> bytes key -> length key = 20%nat ->
  exists err buf s2,
    body (p ← gets parcel;
      if decide (Z.of_nat (length encrypted) > chunksize p) then ret (PK_INVALID, [])
      else
        match iu_chunk_decode env (crypto p) comp encrypted key (Z.to_nat (chunksize p)) with
        | None => fault
        | Some None => ret (PK_IOERR, [])
        | Some (Some buf) =>
            _ ← modify (stats_increment chunk_reads 1);
            _ ← shm_update chunk SHM_ACCESSED_SESSION 0;
            ret (PK_SUCCESS, buf)
        end) s1 = Some ((err, buf), s2) /\
    same_cache s2 /\ conn s2 = conn s1 /\ io s2 = io s1 /\
    (err = PK_SUCCESS -> Z.of_nat (length buf) = chunksize (parcel s)) /\
    (Z.of_nat (length encrypted) <= chunksize (parcel s) -> forall b,
       iu_chunk_decode env IU_CHUNK_CRY_AES_SHA1 comp encrypted key
         (Z.to_nat (chunksize (parcel s))) = Some (Some b) -> err = PK_SUCCESS /\ buf = b).
Proof.
  intros Hs1 Heb Hkb Hkl. pose proof Hs1 as (_ & _ & Hp & _).
  destruct (wf_geometry s Hwf) as [Hcry _ Hcs _ _ _ _ _ _ _].
  unfold body, mbind, pk_mbind, pk_bind, gets. rewrite Hp.
  destruct (decide (Z.of_nat (length encrypted) > _)) as [Hbig|Hbig].
  { eexists _, _, _. split; [done|]. split_and!; done || lia. }
  rewrite Hcry. destruct (codec_decode comp encrypted key (Z.to_nat (chunksize (parcel s))))
    as (r & Hr & Hout); try done; [lia|]. rewrite Hr. destruct r as [out|].
  - destruct (get_finish s1 Hs1) as (m & _ & Hfin). unfold modify.
    destruct (Hfin (pk_err * list Z)%type) as [-> Hsc]. eexists _, _, _. split; [done|].
    split_and!; try done; [intros _; rewrite (Hout out) by done; lia|]. intros _ b [= ->]. done.
  - eexists _, _, _. split; [done|]. split_and!; try done.
Qed.

Lemma cache_get_spec : exists err buf s',
  cache_get env chunk s = Some ((err, buf), s') /\ get_result err buf s'.
Proof.
  destruct (cache_get_row_spec s chunk (wf_idle s Hwf)) as (r & s1 & Hr & Hrow & Hi & Hwi & b1 & ->).
  assert (same_cache (set_db b1 s)) as Hs1 by (by apply same_cache_read).
  unfold cache_get, body, mbind, pk_mbind, pk_bind, call. rewrite Hr.
  destruct r as [err|[[[tag key] comp] len]].
  { eexists _, _, _. split; [done|]. split_and!; [by split|done| |].
    - intros ->. destruct Hrow as [Hrow|[[=] _]]. exfalso. revert Hrow. unfold lookup_row.
      repeat case_match; done.
    - intros b (tag & key & comp & len & enc & Hlk & _). right. destruct Hrow as [Hrow|[Heq Hn]].
      + by rewrite Hlk in Hrow.
      + injection Heq as ->. split; [done|]. by intros [? _]. }
  destruct Hrow as [Hrow|[[=] _]]. symmetry in Hrow.
  destruct (lookup_row_bounds _ _ _ _ Hrow) as (Hlen & Hkb & Hkl).
  destruct (cache_fetch_spec _ tag len Hs1 Hlen) as (err & enc & rest & Hf & Hrest & Heb & Hread).
  rewrite Hf. set (s2 := set_io rest _) in *.
  assert (same_cache s2) as Hs2 by (by apply same_cache_io).
  assert (fair_after s s2) as Hfa by done.
  destruct (decide (err <> PK_SUCCESS)) as [Herr|Herr].
  { eexists _, _, _. split; [done|]. split_and!; [done..|].
    intros b (tag' & key' & comp' & len' & enc' & Hlk & Hft & _). right. rewrite Hrow in Hlk.
    injection Hlk as <- <- <- <-. destruct (Hread enc' Hft) as [[? _]|[? Hio]]; [done|].
    split; [done|]. by intros [_ Hnil]. }
  assert (err = PK_SUCCESS) as -> by (by destruct (decide (err = PK_SUCCESS))).
  destruct (cache_get_decode s2 comp key enc Hs2 Heb Hkb Hkl)
    as (err' & buf & s3 & Hd & Hs3 & Hcn & Hio & Hbl & Hok).
  exists err', buf, s3. split; [rewrite <- Hd; done|].
  split; [unfold fair_after; by rewrite Hcn, Hio|]. split_and!; [done..|].
  intros b (tag' & key' & comp' & len' & enc' & Hlk & Hft & Hle & Hdec). left. rewrite Hrow in Hlk.
  injection Hlk as <- <- <- <-. destruct (Hread enc' Hft) as [[_ ->]|[? _]]; [|done].
  by apply Hok.
Qed.
End get.

(** ** The interface to the chunk cache of fuse_image.c *)

(** The cache is well formed, every chunk is in the keyring, and nothing fails for good. *)
Record healthy (s : pk_state) : Prop := mk_healthy {
  h_wf : cache_wf s;
  h_fair : fair s (faults (conn s));
  h_keys c : 0 <= c < chunks (parcel s) -> in_keyring s c
}.

(** Healthy as before, and everything outside [except] that was readable still is. *)
Definition keeps (env : compress_env) `{!ChunkSource} (except : Z -> Prop) (s s' : pk_state) : Prop :=
  healthy s' /\ parcel s' = parcel s /\
  forall c b, 0 <= c < chunks (parcel s) -> ~ except c ->
    readable env s c b -> readable env s' c b.

(** What the local cache promises: chunks are read as they are, an update changes one chunk, and
    the map of chunk states is independent of both. *)
Class ChunkStore (env : compress_env) `{!ChunkSource} : Prop := {
  store_get s c b :
    healthy s -> 0 <= c < chunks (parcel s) -> readable env s c b ->
    exists s', cache_get env c s = Some ((PK_SUCCESS, b), s') /\ keeps env (fun _ => False) s s' /\
      Z.of_nat (length b) = chunksize (parcel s);
  store_update s c b :
    healthy s -> 0 <= c < chunks (parcel s) -> bytes b ->
    Z.of_nat (length b) = chunksize (parcel s) ->
    exists s', cache_update env c b s = Some (PK_SUCCESS, s') /\ keeps env (eq c) s s' /\
      readable env s' c b;
  store_shm s c set clear :
    healthy s -> 0 <= c < chunks (parcel s) ->
    exists s', (shm_update c set clear : pk pk_state () ()) s = Some (inl (), s') /\
      keeps env (fun _ => False) s s';
  store_stats s f n : healthy s -> keeps env (fun _ => False) s (stats_increment f n s)
}.

Section store.
Context (env : compress_env) `{!ChunkCodec env} `{!ChunkSource}.

Lemma readable_same_cache s s' c b : same_cache s s' -> readable env s c b -> readable env s' c b.
Proof.
  intros (_ & _ & Hp & Ho & Hd & Hcc) (tag & key & comp & len & enc & Hrow & Hf & Hl & Hdec).
  exists tag, key, comp, len, enc. rewrite Hp, Hd. split_and!; try done. revert Hf.
  unfold fetched, slot, cache_chunk_to_offset. by rewrite Hp, Ho, Hcc.
Qed.

Lemma in_keyring_same_cache s s' c : same_cache s s' -> in_keyring s c -> in_keyring s' c.
Proof. intros (_ & _ & _ & _ & Hd & _). unfold in_keyring. by rewrite Hd. Qed.

Lemma keeps_same_cache s s' :
  healthy s -> same_cache s s' -> fair_after s s' -> keeps env (fun _ => False) s s'.
Proof.
  intros [Hw Hf Hk] Hs Hfa. pose proof Hs as (Hw' & _ & Hp & _). split_and!; try done.
  - split; [done|by apply (fair_after_fair s)|]. intros c Hc. rewrite Hp in Hc.
    apply (in_keyring_same_cache s); auto.
  - intros c b _ _. by apply readable_same_cache.
Qed.

Lemma same_cache_refl s : cache_wf s -> same_cache s s.
Proof. intros Hw. unfold same_cache. by split_and!. Qed.

#[export] Instance cache_store : ChunkStore env.
Proof.
  split.
  - intros s c b Hh Hc Hr. destruct (cache_get_spec env s c (h_wf s Hh) Hc)
      as (err & buf & s' & Hg & Hfa & Hs & Hl & Hres).
    destruct (Hres b Hr) as [[-> ->]|[_ Hn]]; [|by destruct Hn; apply Hh].
    exists s'. split_and!; [done|by apply keeps_same_cache|by apply Hl].
  - intros s c b Hh Hc Hb Hl. pose proof Hh as [Hw Hf Hk].
    destruct (cache_update_spec env s c b Hw Hc (Hk c Hc) Hb Hl)
      as (err & s' & Hu & Hfa & Hw' & _ & Hp & _ & Hsl & Hlk & Hik & [[-> Hst]|(_ & _ & Hn)]); [|done].
    rewrite <- Hp in Hc. exists s'. split_and!; [done| |by apply stored_readable].
    split_and!; [split; [done|by apply (fair_after_fair s)|]|done|].
    + intros c' Hc'. rewrite Hp in Hc'. auto.
    + intros c' b' Hc' Hne (tag & key & comp & len & enc & Hrow & Hft & Hle & Hdec).
      assert (is_u 32 c') as Hu' by (destruct (g_chunks s (wf_geometry s Hw)); unfold is_u; lia).
      pose proof (lookup_row_bounds s c' Hw _ _ _ _ Hrow) as (Hlen & _ & _).
      exists tag, key, comp, len, enc. rewrite Hlk, Hp by (done || by intros ->). split_and!; try done.
      unfold fetched in *. destruct (decide (len <> 0)); [|done].
      destruct (decide (length (slot s c' _) = _)) as [Hfull|]; [|done].
      rewrite Hsl; [by rewrite decide_True|done|by intros ->|lia|done].
  - intros s c set clear Hh Hc.
    destruct (@shm_update_ok () c set clear s) as (m & Hm & Hl);
      [apply (g_shm _ (wf_geometry s (h_wf s Hh)))|done|].
    exists (set_shm m s). split; [done|]. apply keeps_same_cache; [done| |done].
    apply same_cache_shm; [done|]. apply same_cache_refl, Hh.
  - intros s f n Hh. apply keeps_same_cache; [done| |done].
    apply same_cache_stats, same_cache_refl, Hh.
Qed.
End store.

(** ** The header of the cache file *)

Lemma length_put_header h : length (put_header h) = sizeof_ca_header.
Proof. done. Qed.

Lemma get_put_header h rest :
  is_u 32 (magic h) -> is_u 32 (entries h) -> is_u 32 (hdr_offset h) -> is_u 32 (hdr_flags h) ->
  get_header (put_header h ++ rest) = h.
Proof.
  intros. unfold get_header, LOAD32H, get, put_header, STORE32H.
  destruct h as [m e o f v]. simpl in *. by rewrite !pack4_byte.
Qed.

(** Setting the flags overwrites the fourth word. *)
Lemma put_header_flags h f rest :
  file_write (put_header h ++ rest) (Z.to_nat offsetof_flags) (STORE32H f) =
  put_header (mk_ca_header (magic h) (entries h) (hdr_offset h) f (version h)) ++ rest.
Proof.
  unfold file_write, blit, put_header, STORE32H. cbn [app magic entries hdr_offset hdr_flags version].
  change (Z.to_nat offsetof_flags) with 12%nat. simpl. by rewrite app_nil_r.
Qed.

(** The file that create_cache_file makes. *)
Lemma create_cache_file_ok s :
  f_cache (disk s) = None -> io s = [] -> 0 <= chunksize (parcel s) * chunks (parcel s) ->
  exists s' rest, create_cache_file s = Some (PK_SUCCESS, s') /\
    cache_content s' =
      put_header (mk_ca_header CA_MAGIC (chunks (parcel s)) 8 0 CA_VERSION) ++ rest /\
    is_Some (f_cache (disk s')) /\
    offset s' = 4096 /\ cache_flags s' = 0 /\ cache_fd s' = true /\
    conf s' = conf s /\ parcel s' = parcel s /\ io s' = [].
Proof.
  intros Hf Hio Hn. destruct s as [cf pa fd sm cn off fl st [kr kt pk fc fi] i]; simpl in *. subst fc i.
  unfold create_cache_file, set_cache_file_size, body, call, pwrite, io_ok, next_io, mbind, pk_mbind,
    pk_bind, gets, modify, ret, pk_ret.
  cbn -[Z.mul Z.add Z.to_nat put_header file_write resize Z.shiftr take].
  rewrite (decide_False (P := _ \/ _)) by (intros [?|[? ?]]; done).
  cbn -[Z.mul Z.add Z.to_nat put_header file_write resize Z.shiftr take].
  rewrite (decide_False (P := PK_SUCCESS <> PK_SUCCESS)) by (intros Hx; by apply Hx).
  cbn -[Z.mul Z.add Z.to_nat put_header file_write resize Z.shiftr take].
  rewrite take_ge by done. rewrite decide_False by (rewrite length_put_header; by intros []).
  eexists _, _. split; [done|].
  unfold cache_content. cbn -[Z.mul Z.add Z.to_nat put_header file_write resize Z.shiftr].
  by split_and!.
Qed.

(** Setting the flags of an open cache file. *)
Lemma cache_set_flags_ok h rest f s :
  cache_content s = put_header h ++ rest -> io s = [] -> cache_fd s = true ->
  has_flag (flags (conf s)) WANT_LOCK = true ->
  exists s', cache_set_flags f s = Some (PK_SUCCESS, s') /\
    cache_content s' =
      put_header (mk_ca_header (magic h) (entries h) (hdr_offset h) f (version h)) ++ rest /\
    is_Some (f_cache (disk s')) /\ cache_flags s' = f /\ parcel s' = parcel s /\ io s' = [].
Proof.
  intros Hc Hio Hfd Hl.
  unfold cache_set_flags, body, pwrite, io_ok, next_io, mbind, pk_mbind, pk_bind, gets, modify, ret,
    pk_ret.
  rewrite Hl, Hfd. cbn [negb]. rewrite Hio. cbn [limit]. rewrite take_ge by done.
  rewrite decide_False by (rewrite length_STORE32H; by intros []).
  cbn -[STORE32H file_write put_header Z.to_nat]. rewrite Hio.
  cbn -[STORE32H file_write put_header Z.to_nat].
  eexists. split; [done|]. split_and!; try done.
  unfold cache_content at 1. cbn -[STORE32H file_write put_header Z.to_nat].
  rewrite Hc. apply put_header_flags.
Qed.

(** Opening a cache file that starts with a header of this parcel. *)
Lemma open_cache_file_ok h rest s :
  cache_content s = put_header h ++ rest -> is_Some (f_cache (disk s)) -> io s = [] ->
  magic h = CA_MAGIC -> version h = CA_VERSION -> entries h = chunks (parcel s) ->
  is_u 32 (entries h) -> is_u 32 (hdr_offset h) -> is_u 32 (hdr_flags h) ->
  exists s', open_cache_file s = Some (PK_SUCCESS, s') /\
    offset s' = u32 (Z.shiftl (hdr_offset h) 9) /\ cache_flags s' = hdr_flags h /\
    cache_fd s' = true.
Proof.
  intros Hc [f Hf] Hio Hm Hv He Hu1 Hu2 Hu3.
  unfold open_cache_file, body, pread, io_ok, next_io, mbind, pk_mbind, pk_bind, gets, modify, ret,
    pk_ret.
  rewrite Hio. rewrite Hf. rewrite decide_False by (by intros [|]). rewrite Hio.
  cbn [limit]. rewrite Hc. rewrite drop_0, take_app_length'. 2: done.
  rewrite decide_False by (rewrite length_put_header; by intros []).
  assert (get_header (put_header h) = h) as ->.
  { rewrite <- (app_nil_r (put_header h)). apply get_put_header; try done. by rewrite Hm. }
  rewrite Hm, Hv, He. rewrite !decide_False by (by intros []).
  eexists. by split_and!.
Qed.

(** * Properties *)

(** C2: an update whatever fails in the database or in the file is safe and atomic: it never
    faults or blocks, keeps the invariant and the contents of every other chunk, and either
    succeeds with the chunk's new contents in the cache, or returns PK_IOERR with keyring and
    index unchanged. *)
Theorem cache_update_atomic env s chunk buf :
  zlib_ok (e_zlib env) -> is_u 8 (e_junk env) ->
  cache_wf s -> 0 <= chunk < chunks (parcel s) -> in_keyring s chunk ->
  bytes buf -> Z.of_nat (length buf) = chunksize (parcel s) ->
  exists err s', cache_update env chunk buf s = Some (err, s') /\ cache_wf s' /\
    (forall c b, is_u 32 c -> c <> chunk -> stored env s c b -> stored env s' c b) /\
    (err = PK_SUCCESS /\ stored env s' chunk buf \/
     err = PK_IOERR /\ data (conn s') = data (conn s)).
Proof.
  intros Hz Hj Hwf Hc Hk Hb Hl.
  destruct (@cache_update_spec env (chunk_codec env Hz Hj) s chunk buf Hwf Hc Hk Hb Hl)
    as (err & s' & Hu & _ & Hw & _ & _ & Hfr & _ & _ & _ & Hr).
  exists err, s'. split_and!; try done. destruct Hr as [?|(? & ? & _)]; auto.
Qed.

(** C4: contention alone never makes an update fail: if SQLite refuses operations only as busy,
    however often and wherever, and no file operation fails, the update succeeds. *)
Theorem cache_update_succeeds env s chunk buf :
  zlib_ok (e_zlib env) -> is_u 8 (e_junk env) ->
  cache_wf s -> 0 <= chunk < chunks (parcel s) -> in_keyring s chunk ->
  bytes buf -> Z.of_nat (length buf) = chunksize (parcel s) ->
  Forall contention (faults (conn s)) -> io s = [] ->
  exists s', cache_update env chunk buf s = Some (PK_SUCCESS, s') /\ stored env s' chunk buf.
Proof.
  intros Hz Hj Hwf Hc Hk Hb Hl Hcont Hio.
  destruct (@cache_update_spec env (chunk_codec env Hz Hj) s chunk buf Hwf Hc Hk Hb Hl)
    as (err & s' & Hu & _ & _ & _ & _ & _ & _ & _ & _ & [[-> Hst]|(_ & _ & Hnf)]); [by exists s'|].
  by destruct Hnf.
Qed.

(** C3: reading a chunk after a successful update of it gives the contents of the update: a
    later cache_get never returns anything else, and it fails, with PK_IOERR, only if an
    operation fails for good. *)
Theorem cache_get_after_update env (src : ChunkSource) s chunk buf s' :
  zlib_ok (e_zlib env) -> is_u 8 (e_junk env) ->
  cache_wf s -> 0 <= chunk < chunks (parcel s) -> in_keyring s chunk ->
  bytes buf -> Z.of_nat (length buf) = chunksize (parcel s) ->
  cache_update env chunk buf s = Some (PK_SUCCESS, s') ->
  exists err buf' s'', cache_get env chunk s' = Some ((err, buf'), s'') /\
    (err = PK_SUCCESS /\ buf' = buf \/
     err = PK_IOERR /\ ~ (Forall contention (faults (conn s')) /\ io s' = [])).
Proof.
  intros Hz Hj Hwf Hc Hk Hb Hl Hu. pose proof (chunk_codec env Hz Hj) as Hcodec.
  destruct (cache_update_spec env s chunk buf Hwf Hc Hk Hb Hl)
    as (err & s1 & Hu1 & _ & Hw & _ & Hp & _ & _ & _ & _ & Hr).
  rewrite Hu in Hu1. injection Hu1 as <- <-.
  destruct Hr as [[_ Hst]|[[=] _]]. rewrite <- Hp in Hc.
  destruct (cache_get_spec env s' chunk Hw Hc) as (err & buf' & s'' & Hg & _ & _ & _ & Hres).
  exists err, buf', s''. split; [done|]. by apply Hres, stored_readable.
Qed.

(** Reading a chunk is safe, whatever fails and whatever the hoard cache and the server
    return: it never faults or blocks, leaves the cache as it is, and a chunk it returns has the
    chunk size. *)
Theorem cache_get_safe env (src : ChunkSource) s chunk :
  zlib_ok (e_zlib env) -> is_u 8 (e_junk env) ->
  cache_wf s -> 0 <= chunk < chunks (parcel s) ->
  exists err buf s', cache_get env chunk s = Some ((err, buf), s') /\
    cache_wf s' /\ data (conn s') = data (conn s) /\ cache_content s' = cache_content s /\
    (err = PK_SUCCESS -> Z.of_nat (length buf) = chunksize (parcel s)).
Proof.
  intros Hz Hj Hwf Hc. pose proof (chunk_codec env Hz Hj) as Hcodec.
  destruct (cache_get_spec env s chunk Hwf Hc)
    as (err & buf & s' & Hg & _ & (Hw & _ & _ & _ & Hd & Hcc) & Hlen & _).
  by exists err, buf, s'.
Qed.

(** The length of a cached chunk is checked only after the chunk has been read: an index
    entry beyond the chunk size, with a cache file that goes on, makes cache_get write outside
    its buffer. *)
Theorem cache_get_overflow env (src : ChunkSource) s chunk tag key comp len :
  geometry s -> idle (data (conn s)) (conn s) ->
  lookup_row (parcel s) (data (conn s)) chunk = inr (tag, key, comp, len) ->
  chunksize (parcel s) < len -> length (slot s chunk (Z.to_nat len)) = Z.to_nat len ->
  Forall contention (faults (conn s)) -> io s = [] ->
  cache_get env chunk s = None.
Proof.
  intros Hg Hi Hrow Hlen Hslot Hcont Hio. pose proof (g_chunksize s Hg).
  destruct (cache_get_row_spec s chunk Hi) as (r & s1 & Hr & [->|[_ Hn]] & _ & _ & b1 & ->); [|done].
  unfold cache_get, body, mbind, pk_mbind, pk_bind, call. rewrite Hr, Hrow.
  unfold cache_fetch. rewrite decide_True by lia.
  unfold _cache_read_chunk, body, pread, next_io, defined, mbind, pk_mbind, pk_bind, gets.
  change (io (set_db b1 s)) with (io s). rewrite Hio. change (limit (Z.to_nat len) None) with (Z.to_nat len).
  change (take _ (drop _ _)) with (slot s chunk (Z.to_nat len)).
  change (parcel (set_db b1 s)) with (parcel s). rewrite Hslot. rewrite decide_False by lia. done.
Qed.

(** The map of chunk states is written out of bounds for a chunk number equal to the number
    of chunks, which the check "chunk > parcel->chunks" lets through. *)
Theorem shm_update_one_past_end s base set clear :
  shm s = Some base -> Z.of_nat (length base) = chunks (parcel s) ->
  (shm_update (chunks (parcel s)) set clear : pk pk_state pk_err ()) s = None /\
  (shm_update (chunks (parcel s) + 1) set clear : pk pk_state pk_err ()) s = Some (inl (), s).
Proof.
  intros Hs Hl. unfold shm_update, mbind, pk_mbind, pk_bind, gets, defined. rewrite Hs. split.
  - rewrite decide_False by lia. by rewrite decide_False by lia.
  - by rewrite decide_True by lia.
Qed.

(** A cache file that was created for a parcel, and whose flags were then set, is accepted
    when it is opened for that parcel again, with the offset of the chunks and the flags that
    were in force. *)
Theorem cache_file_reopen s f :
  f_cache (disk s) = None -> io s = [] -> has_flag (flags (conf s)) WANT_LOCK = true ->
  is_u 32 (chunks (parcel s)) -> 0 <= chunksize (parcel s) -> is_u 32 f ->
  exists s1 s2 s3, create_cache_file s = Some (PK_SUCCESS, s1) /\
    cache_set_flags f s1 = Some (PK_SUCCESS, s2) /\
    open_cache_file (set_cache_fd false (set_offset 0 (set_cache_flags 0 s2)))
      = Some (PK_SUCCESS, s3) /\
    offset s3 = offset s1 /\ offset s1 = 4096 /\ cache_flags s3 = f.
Proof.
  intros Hf Hio Hl Hc Hcs Hfu.
  destruct (create_cache_file_ok s) as (s1 & rest & H1 & Hcc & _ & Ho & _ & Hfd & Hcf & Hp & Hio1);
    try done; [unfold is_u in Hc; nia|].
  destruct (cache_set_flags_ok _ rest f s1 Hcc Hio1 Hfd) as (s2 & H2 & Hcc2 & Hf2 & _ & Hp2 & Hio2);
    [by rewrite Hcf|].
  destruct (open_cache_file_ok _ rest (set_cache_fd false (set_offset 0 (set_cache_flags 0 s2))) Hcc2)
    as (s3 & H3 & Ho3 & Hf3 & _); try done; [simpl; by rewrite Hp2, Hp|].
  exists s1, s2, s3. split_and!; try done. by rewrite Ho3, Ho.
Qed.

(** ** Concrete states *)

(** No hoard cache, and no network. *)
Definition no_source : ChunkSource.
Proof.
  refine {| hoard_get_chunk := fun _ => (PK_NOTFOUND, []);
            transport_fetch_chunk := fun _ _ => (PK_NETFAIL, []) |}; intros; apply Forall_nil_2.
Defined.

(** A parcel of two chunks of 64 bytes, neither of them in the local cache yet. *)
Definition demo_row : key_row := mk_key_row (replicate 20 0) (replicate 20 0) IU_CHUNK_COMP_NONE.

Definition demo_dbs (t : gmap Z Z) : dbs :=
  mk_dbs (Some {[0 := demo_row; 1 := demo_row]}) None (Some (mk_index CA_INDEX_VERSION (Some t))) (Some true) None.

Definition demo_state (t : gmap Z Z) : pk_state :=
  mk_state (mk_config (Z.lor WANT_LOCK WANT_CACHE) IU_CHUNK_COMP_LZF 1)
    (mk_parcel IU_CHUNK_CRY_AES_SHA1
       (Z.lor (Z.shiftl 1 IU_CHUNK_COMP_NONE) (Z.shiftl 1 IU_CHUNK_COMP_LZF)) 2 64 512 20)
    true (Some [0; 0]) (mk_db (demo_dbs t) None [] false SQLITE_OK false 0) 64 0 (fun _ => 0)
    (mk_files ∅ (Some true) ∅ (Some (replicate 192 0)) None) [].

Definition demo : pk_state := demo_state ∅.

Lemma demo_geometry t : geometry (demo_state t).
Proof. split; try done. right. by eexists. Qed.

Lemma demo_wf : cache_wf demo.
Proof.
  split; [apply demo_geometry|done|by split|by apply Forall_replicate| |].
  - intros t [= <-]. apply map_Forall_empty.
  - intros keys [= <-]. apply map_Forall_insert_2; [by apply Forall_replicate|].
    apply map_Forall_singleton. by apply Forall_replicate.
Qed.

Lemma demo_in_keyring : in_keyring demo 1.
Proof. eexists. split; [done|]. exists demo_row. vm_compute. reflexivity. Qed.

(** The schedule in which the fifth operation from now, the COMMIT of an update, fails. *)
Definition failing_commit (s : pk_state) : pk_state :=
  set_db (set_faults [None; None; None; None; Some (F_IOERR, false)] (conn s)) s.

Definition run_update (chunk : Z) (buf : list Z) (s : pk_state) : option pk_state :=
  '(err, s) ← cache_update stored_env chunk buf s; if decide (err = PK_SUCCESS) then Some s else None.

Definition run_failed_update (chunk : Z) (buf : list Z) (s : pk_state) : option pk_state :=
  '(err, s) ← cache_update stored_env chunk buf s; if decide (err = PK_IOERR) then Some s else None.

Definition run_get (chunk : Z) (s : pk_state) : option (pk_err * list Z) :=
  fst <$> cache_get (H := no_source) stored_env chunk s.

(** An update that fails when its transaction is committed has already overwritten the
    chunk's slot, while the keyring and the index are rolled back to the old contents: a chunk
    that could be read before can no longer be read, and its contents are lost. *)
Theorem cache_update_failure_loses_chunk :
  (s ← run_update 1 (replicate 64 7) demo; run_get 1 s) = Some (PK_SUCCESS, replicate 64 7) /\
  (s ← run_update 1 (replicate 64 7) demo;
   s ← run_failed_update 1 (replicate 64 9) (failing_commit s); run_get 1 s) = Some (PK_IOERR, []).
Proof. split; vm_compute; reflexivity. Qed.

(** ** Witnesses *)

Lemma junk_byte_0 : is_u 8 (e_junk stored_env).
Proof. done. Qed.

Lemma cache_update_atomic_witness :
  exists err s', cache_update stored_env 1 (replicate 64 7) (failing_commit demo) = Some (err, s') /\
    cache_wf s' /\
    (forall c b, is_u 32 c -> c <> 1 -> stored stored_env (failing_commit demo) c b ->
       stored stored_env s' c b) /\
    (err = PK_SUCCESS /\ stored stored_env s' 1 (replicate 64 7) \/
     err = PK_IOERR /\ data (conn s') = data (conn (failing_commit demo))).
Proof.
  apply (cache_update_atomic stored_env (failing_commit demo) 1 (replicate 64 7)).
  - apply stored_zlib_ok.
  - apply junk_byte_0.
  - destruct demo_wf as [[]]. by split.
  - simpl. lia.
  - apply demo_in_keyring.
  - by apply Forall_replicate.
  - done.
Defined.

Definition busy_demo : pk_state :=
  set_db (set_faults [Some (F_BUSY, false); None; None; Some (F_IOERR_BLOCKED, false)] (conn demo)) demo.

Lemma cache_update_succeeds_witness :
  exists s', cache_update stored_env 1 (replicate 64 7) busy_demo = Some (PK_SUCCESS, s') /\
    stored stored_env s' 1 (replicate 64 7).
Proof.
  apply (cache_update_succeeds stored_env busy_demo 1 (replicate 64 7)).
  - apply stored_zlib_ok.
  - apply junk_byte_0.
  - destruct demo_wf as [[]]. by split.
  - simpl. lia.
  - apply demo_in_keyring.
  - by apply Forall_replicate.
  - done.
  - by repeat constructor.
  - done.
Defined.

Definition demo_updated : pk_state := default demo (run_update 1 (replicate 64 7) demo).

Lemma cache_get_after_update_witness :
  exists err buf' s'', cache_get (H := no_source) stored_env 1 demo_updated
      = Some ((err, buf'), s'') /\
    (err = PK_SUCCESS /\ buf' = replicate 64 7 \/
     err = PK_IOERR /\
       ~ (Forall contention (faults (conn demo_updated)) /\ io demo_updated = [])).
Proof.
  apply (cache_get_after_update stored_env no_source demo 1 (replicate 64 7) demo_updated).
  - apply stored_zlib_ok.
  - apply junk_byte_0.
  - apply demo_wf.
  - simpl. lia.
  - apply demo_in_keyring.
  - by apply Forall_replicate.
  - done.
  - vm_compute. reflexivity.
Defined.

Lemma cache_get_safe_witness :
  exists err buf s', cache_get (H := no_source) stored_env 0 demo = Some ((err, buf), s') /\
    cache_wf s' /\ data (conn s') = data (conn demo) /\ cache_content s' = cache_content demo /\
    (err = PK_SUCCESS -> Z.of_nat (length buf) = 64).
Proof.
  apply (cache_get_safe stored_env no_source demo 0).
  - apply stored_zlib_ok.
  - apply junk_byte_0.
  - apply demo_wf.
  - simpl. lia.
Defined.

(** An index entry of 100 bytes for a chunk of 64. *)
Lemma cache_get_overflow_witness :
  cache_get (H := no_source) stored_env 0 (demo_state {[0 := 100]}) = None.
Proof.
  apply (cache_get_overflow stored_env no_source (demo_state {[0 := 100]}) 0
    (replicate 20 0) (replicate 20 0) IU_CHUNK_COMP_NONE 100).
  - apply demo_geometry.
  - done.
  - vm_compute. reflexivity.
  - done.
  - vm_compute. reflexivity.
  - by constructor.
  - done.
Defined.

Lemma shm_update_one_past_end_witness :
  (shm_update 2 SHM_DIRTY 0 : pk pk_state pk_err ()) demo = None /\
  (shm_update 3 SHM_DIRTY 0 : pk pk_state pk_err ()) demo = Some (inl (), demo).
Proof. by apply (shm_update_one_past_end demo [0; 0] SHM_DIRTY 0). Defined.

Definition fresh_demo : pk_state := set_disk (mk_files ∅ (Some true) ∅ None None) demo.

Lemma cache_file_reopen_witness :
  exists s1 s2 s3, create_cache_file fresh_demo = Some (PK_SUCCESS, s1) /\
    cache_set_flags CA_F_DIRTY s1 = Some (PK_SUCCESS, s2) /\
    open_cache_file (set_cache_fd false (set_offset 0 (set_cache_flags 0 s2)))
      = Some (PK_SUCCESS, s3) /\
    offset s3 = offset s1 /\ offset s1 = 4096 /\ cache_flags s3 = CA_F_DIRTY.
Proof. by apply (cache_file_reopen fresh_demo CA_F_DIRTY). Defined.
