(* ===== verification/CacheModes.v ===== *)
(** CacheModes: checking the local cache (validate_cache and examine_cache of
    src/parcelkeeper/cache_modes.c): the keyring, the chunks that must be there, and the data of the
    cached chunks, with the repair that WANT_SPLICE asks for. *)

From stdpp Require Import sorting.
From S2P Require Import Prelude Cipher HashStream Sha1 Hash Compress LzfStream Chunk Effects Sql SqlConn SqlRows Pk Cache CacheProofs.

(** A function's local variables, which keep their values when a transaction starts again, and what
    its argument "ok" points to. *)
Record vstate := mk_vstate {
  v_pk : pk_state;
  v_ok : bool;
  v_ret : pk_err;
  v_expected : Z
}.

Definition set_v_pk v s := mk_vstate v (v_ok s) (v_ret s) (v_expected s).
Definition set_v_ok v s := mk_vstate (v_pk s) v (v_ret s) (v_expected s).
Definition set_v_ret v s := mk_vstate (v_pk s) (v_ok s) v (v_expected s).
Definition set_v_expected v s := mk_vstate (v_pk s) (v_ok s) (v_ret s) v.

#[global] Program Instance vstate_has_pk : HasPk vstate := { get_pk := v_pk; set_pk := set_v_pk }.
Solve Obligations with done.

Definition vrun {R A} (q : dbq A) : pk vstate R (bool * list A) := on_db (query (Stmt q)).
Definition want (flag : Z) (s : vstate) : bool := has_flag (flags (conf (v_pk s))) flag.

(** "ret=PK_INVALID; *ok=FALSE;" *)
Definition flaw {R} : pk vstate R () := modify (fun s => set_v_ok false (set_v_ret PK_INVALID s)).

(** * validate_sqlite *)

Section sqlite.

(** The answer of "PRAGMA integrity_check(50)", see SqlConn.v. *)
Context (check : dbs -> list bool).

(** DROP INDEX keys_tags *)
Definition sql_drop_keys_tags : dbq () := fun d =>
  match keys_tags d with None => inl E_ERROR | Some _ => inr (set_keys_tags None d, []) end.

(** CREATE INDEX keys_tags on keys (tag) *)
Definition sql_create_keys_tags : dbq () := fun d =>
  match main_keys d, keys_tags d with
  | Some _, None => inr (set_keys_tags (Some true) d, [])
  | _, _ => inl E_ERROR
  end.

(** Whether the index has been created again. *)
Definition recreate_index : pk vstate bool bool :=
  ok ← try_db begin;
  if ok : bool then
    '(ok, _) ← vrun sql_drop_keys_tags;
    if negb ok then goto_bad false
    else
      '(ok, _) ← vrun sql_create_keys_tags;
      if negb ok then goto_bad false
      else
        ok ← try_db commit;
        if ok : bool then ret true else goto_bad false
  else ret false.

Definition validate_sqlite : vstate -> option (pk_err * vstate) := body (
  valid ← try_db (validate_db check);
  if valid : bool then ret PK_SUCCESS
  else
    _ ← modify (set_v_ok false);
    splice ← gets (want WANT_SPLICE);
    if negb splice then ret PK_BADFORMAT
    else
      created ← call (transaction recreate_index);
      if negb created then ret PK_BADFORMAT
      else
        valid ← try_db (validate_db check);
        if valid : bool then ret PK_SUCCESS else ret PK_BADFORMAT).
End sqlite.

(** * validate_keyring *)

(** SELECT chunk, tag, key, compression FROM keys ORDER BY chunk ASC *)
Definition sql_select_keys : dbq (Z * key_row) := fun d =>
  match main_keys d with
  | Some t => inr (d, table_rows t)
  | None => inl E_ERROR
  end.

Definition when {S R} (P : Prop) `{Decision P} (m : pk S R ()) : pk S R () := if decide P then m else pk_ret ().

(** The body of the loop.  The loop over the missing chunks, "while (expected_chunk < chunk)", leaves
    expected_chunk at chunk. *)
Definition keyring_row {R} (kv : Z * key_row) : pk vstate R () :=
  let chunk := u32 kv.1 in
  let row := kv.2 in
  p ← gets (fun s => parcel (v_pk s));
  expected ← gets v_expected;
  if decide (chunk >= chunks p) then flaw
  else if decide (chunk < expected) then flaw
  else
    _ ← when (expected < chunk) flaw;
    _ ← modify (set_v_expected (u32 (chunk + 1)));
    _ ← when (Z.of_nat (length (kr_tag row)) <> hashlen p) flaw;
    _ ← when (Z.of_nat (length (kr_key row)) <> hashlen p) flaw;
    when (iu_chunk_compress_is_enabled (required_compress p) (u32 (kr_compression row)) = false) flaw.

Definition keyring_steps : pk vstate pk_err pk_err :=
  _ ← for_each sql_select_keys keyring_row;
  ok ← gets (fun s => query_ok (get_db s));
  if negb ok then goto_bad PK_IOERR
  else
    _ ← try_db rollback;
    err ← gets v_ret;
    ret err.

Definition keyring_body : pk vstate pk_err pk_err :=
  _ ← modify (set_v_expected 0);
  ok ← try_db begin;
  if ok : bool then keyring_steps else ret PK_IOERR.

Definition validate_keyring (s : vstate) : option (pk_err * vstate) :=
  transaction keyring_body (set_v_ret PK_SUCCESS s).

(** * validate_cachefile *)

(** INSERT OR REPLACE INTO main.keys (chunk, tag, key, compression) SELECT chunk, tag, key, compression
    FROM prev.keys WHERE chunk == ? *)
Definition sql_revert_key (chunk : Z) : dbq Z := fun d =>
  match main_keys d, prev_keys d with
  | Some m, Some p =>
      match p !! s32 chunk with
      | Some row => inr (set_main_keys (Some (<[s32 chunk := row]> m)) d, [1])
      | None => inr (d, [0])
      end
  | _, _ => inl E_ERROR
  end.

(** DELETE FROM cache.chunks WHERE chunk == ? *)
Definition sql_delete_length (chunk : Z) : dbq Z := fun d =>
  match cache d with
  | Some (mk_index v (Some t)) =>
      inr (set_cache (Some (mk_index v (Some (delete (s32 chunk) t)))) d,
           [if decide (is_Some (t !! s32 chunk)) then 1 else 0])
  | _ => inl E_ERROR
  end.

Definition revert_chunk (chunk : Z) : vstate -> option (pk_err * vstate) := body (
  '(ok, _) ← vrun (sql_revert_key chunk);
  if negb ok then ret PK_IOERR
  else
    '(ok, _) ← vrun (sql_delete_length chunk);
    if negb ok then ret PK_IOERR else ret PK_SUCCESS).

(** SELECT sum(length) FROM cache.chunks: one row, which is NULL for no rows. *)
Definition sql_sum_lengths : dbq (option Z) := fun d =>
  match chunk_table d with
  | Some t => inr (d, [if decide (t = ∅) then None else Some (foldr Z.add 0 (map_to_list t).*2)])
  | None => inl E_ERROR
  end.

(** SELECT main.keys.chunk FROM main.keys JOIN prev.keys ON main.keys.chunk == prev.keys.chunk LEFT JOIN
    cache.chunks ON main.keys.chunk == cache.chunks.chunk WHERE main.keys.tag != prev.keys.tag AND
    cache.chunks.chunk ISNULL *)
Definition sql_missing_modified : dbq Z := fun d =>
  match modified_chunks d, chunk_table d with
  | Some l, Some t => inr (d, filter (fun c => t !! c = None) l)
  | _, _ => inl E_ERROR
  end.

(** SELECT cache.chunks.chunk, cache.chunks.length, keys.tag FROM cache.chunks LEFT JOIN keys ON
    cache.chunks.chunk == keys.chunk *)
Definition sql_cached_chunks : dbq (Z * Z * option (list Z)) := fun d =>
  match chunk_table d, main_keys d with
  | Some t, Some m => inr (d, (fun kv => (kv.1, kv.2, kr_tag <$> m !! kv.1)) <$> table_rows t)
  | _, _ => inl E_ERROR
  end.

(** A call of revert_chunk, and what its failure leads to. *)
Definition must_revert (chunk : Z) : pk vstate pk_err () :=
  err ← call (revert_chunk chunk);
  _ ← modify (set_v_ret err);
  if decide (err <> PK_SUCCESS) then goto_bad err else pk_ret ().

Definition missing_row (c : Z) : pk vstate pk_err () :=
  let chunk := u32 c in
  splice ← gets (want WANT_SPLICE);
  _ ← (if splice : bool then must_revert chunk else pk_ret ());
  flaw.

(** The pointer to a NULL or empty column is NULL. *)
Definition cached_row (r : Z * Z * option (list Z)) : pk vstate pk_err () :=
  let chunk := u32 r.1.1 in
  let chunklen := u32 r.1.2 in
  p ← gets (fun s => parcel (v_pk s));
  if decide (chunk > chunks p) then flaw
  else if decide (chunklen > chunksize p \/ chunklen = 0) then flaw
  else
    match r.2 with
    | None | Some [] => flaw
    | Some tag =>
        if decide (Z.of_nat (length tag) <> hashlen p) then flaw
        else
          full ← gets (want WANT_FULL_CHECK);
          if full : bool then
            '(err, _) ← call (on_pk (_cache_read_chunk chunk (chunksize p) chunklen (Some tag)));
            _ ← modify (set_v_ret err);
            if decide (err = PK_TAGFAIL) then
              splice ← gets (want WANT_SPLICE);
              _ ← (if splice : bool then must_revert chunk else pk_ret ());
              modify (set_v_ok false)
            else pk_ret ()
          else pk_ret ()
    end.

Definition cachefile_steps : pk vstate pk_err pk_err :=
  '(_, rows) ← vrun sql_sum_lengths;
  has ← gets (fun s => query_has_row (get_db s));
  if negb has then goto_bad PK_IOERR
  else
    _ ← for_each sql_missing_modified missing_row;
    ok ← gets (fun s => query_ok (get_db s));
    if negb ok then goto_bad PK_IOERR
    else
      _ ← for_each sql_cached_chunks cached_row;
      ok ← gets (fun s => query_ok (get_db s));
      if negb ok then goto_bad PK_IOERR
      else
        err ← gets v_ret;
        ok ← try_db commit;
        if ok : bool then ret err else goto_bad PK_IOERR.

Definition cachefile_body : pk vstate pk_err pk_err :=
  _ ← modify (set_v_ret PK_SUCCESS);
  ok ← try_db begin;
  if ok : bool then cachefile_steps else ret PK_IOERR.

Definition validate_cachefile : vstate -> option (pk_err * vstate) := transaction cachefile_body.

(** * validate_cache *)

(** With WANT_CHECK: 2 if the cache is dirty, 4 if it is damaged. *)
Definition cache_status (s : pk_state) : Z :=
  Z.lor (if cache_test_flag s CA_F_DIRTY then 2 else 0) (if cache_test_flag s CA_F_DAMAGED then 4 else 0).

(** The checks, of which the first with an error is the last. *)
Definition run_checks (check : dbs -> list bool) (s : vstate) : option (pk_err * vstate) :=
  '(err, s) ← validate_sqlite check s;
  if decide (err <> PK_SUCCESS) then Some (err, s)
  else
    '(err, s) ← validate_keyring s;
    if decide (err <> PK_SUCCESS) then Some (err, s) else validate_cachefile s.

(** The flags of the cache file after the checks. *)
Definition finish_validation (err : pk_err) (ok : bool) (s : pk_state) : option (Z * pk_state) :=
  if decide (ok = true /\ err = PK_SUCCESS) then
    if cache_test_flag s CA_F_DIRTY && has_flag (flags (conf s)) WANT_FULL_CHECK
    then '(_, s) ← cache_clear_flag CA_F_DIRTY s; Some (0, s)
    else Some (0, s)
  else if ok then Some (1, s)
  else
    '(err, s) ← cache_set_flag CA_F_DAMAGED s;
    if decide (err = PK_SUCCESS) then '(_, s) ← cache_clear_flag CA_F_DIRTY s; Some (1, s)
    else Some (1, s).

Definition validate_cache (check : dbs -> list bool) (s : pk_state) : option (Z * pk_state) :=
  if has_flag (flags (conf s)) WANT_CHECK then Some (cache_status s, s)
  else
    '(err, v) ← run_checks check (mk_vstate s true PK_SUCCESS 0);
    finish_validation err (v_ok v) (v_pk v).

(** * examine_cache *)

Record usage := mk_usage { max_mb : Z; valid_mb : Z; dirty_mb : Z; valid_pct : Z; dirty_pct : Z }.

(** The division by the number of chunks of the parcel faults if that is 0. *)
Definition usage_of (p : pk_parcel) (valid dirty : Z) : option usage :=
  if decide (chunks p = 0) then None
  else
    let mb n := u32 (Z.shiftr (n * chunksize p) 20) in
    Some (mk_usage (mb (chunks p)) (mb valid) (mb dirty) (u32 (100 * valid) / chunks p)
            (if decide (valid <> 0) then u32 (100 * dirty) / valid else 0)).

(** The exit code, and what is printed. *)
Definition examine_cache (s : pk_state) : option (Z * option usage * pk_state) :=
  '((err, valid, dirty), s) ← cache_count_chunks true true s;
  if decide (err <> PK_SUCCESS) then Some (1, None, s)
  else u ← usage_of (parcel s) valid dirty; Some (0, Some u, s).
