(* ===== verification/CacheModesProofs.v ===== *)
(** CacheModesProofs: what validate_cache (CacheModes.v) finds out, and what it repairs. *)

From stdpp Require Import sorting.
From S2P Require Import Prelude Cipher HashStream Sha1 Hash Compress LzfStream Chunk Effects Sql SqlConn SqlRows Pk Cache CacheProofs CacheModes.

#[local] Opaque Fips180.sha1.

(** * The keyring *)

Definition row_fits (p : pk_parcel) (row : key_row) : Prop :=
  Z.of_nat (length (kr_tag row)) = hashlen p /\ Z.of_nat (length (kr_key row)) = hashlen p /\
  iu_chunk_compress_is_enabled (required_compress p) (u32 (kr_compression row)) = true.

(** Every entry is one of a chunk of the parcel, and fits, and no entry is missing before the last. *)
Record keyring_ok (p : pk_parcel) (keys : gmap Z key_row) : Prop := mk_keyring_ok {
  ko_range c row : keys !! c = Some row -> 0 <= c < chunks p;
  ko_fits c row : keys !! c = Some row -> row_fits p row;
  ko_gaps c c' : 0 <= c < c' -> is_Some (keys !! c') -> is_Some (keys !! c)
}.

(** The numbers of chunks are ints. *)
Definition int_keys {A} (t : gmap Z A) : Prop := forall c, is_Some (t !! c) -> - 2 ^ 31 <= c < 2 ^ 31.

Lemma u32_int c : - 2 ^ 31 <= c < 2 ^ 31 -> u32 c = if decide (0 <= c) then c else c + 2 ^ 32.
Proof.
  intros Hc. unfold u32. case_decide; [apply Z.mod_small; lia|].
  rewrite <- (Z_mod_plus_full c 1). apply Z.mod_small. lia.
Qed.

Lemma s32_int c : - 2 ^ 31 <= c < 2 ^ 31 -> s32 (u32 c) = c.
Proof.
  intros Hc. unfold s32, u32. rewrite Zmod_mod. fold (u32 c). rewrite (u32_int c Hc).
  repeat case_decide; lia.
Qed.

(** What the loop over the rows looks for, from the chunk expected next. *)
Definition row_right (p : pk_parcel) (e : Z) (kv : Z * key_row) : Prop :=
  u32 kv.1 = e /\ e < chunks p /\ row_fits p kv.2.

Fixpoint rows_right (p : pk_parcel) (e : Z) (rows : list (Z * key_row)) : Prop :=
  match rows with
  | [] => True
  | kv :: rest => row_right p e kv /\ rows_right p (e + 1) rest
  end.

#[global] Instance row_right_dec p e kv : Decision (row_right p e kv).
Proof. unfold row_right, row_fits. apply _. Defined.

Lemma rows_right_lookup p e rows : rows_right p e rows <->
  forall i kv, rows !! i = Some kv -> row_right p (e + Z.of_nat i) kv.
Proof.
  revert e. induction rows as [|kv rest IH]; intros e; simpl; [by split; [intros _ i kv ?|]|]. rewrite IH. split.
  - intros [Hkv Hrest] [|i] kv' Hi; simpl in Hi.
    + injection Hi as <-. by rewrite Z.add_0_r.
    + specialize (Hrest i kv' Hi). by replace (e + Z.of_nat (S i)) with (e + 1 + Z.of_nat i) by lia.
  - intros H. split; [specialize (H 0%nat kv eq_refl); by rewrite Z.add_0_r in H|].
    intros i kv' Hi. specialize (H (S i) kv' Hi). by replace (e + 1 + Z.of_nat i) with (e + Z.of_nat (S i)) by lia.
Qed.


(** A sorted list of different numbers from [e] on without gaps. *)
Lemma sorted_run e (l : list Z) i x :
  StronglySorted Z.lt l -> Forall (fun x => e <= x) l ->
  (forall c x, e <= c < x -> x ∈ l -> c ∈ l) -> l !! i = Some x -> x = e + Z.of_nat i.
Proof.
  revert e i. induction l as [|h l IH]; intros e i Hs He Hgap Hi; [done|].
  apply StronglySorted_inv in Hs as [Hs Hlt]. apply Forall_cons in He as [Heh He]. rewrite Forall_forall in Hlt.
  assert (h = e) as ->.
  { destruct (decide (h = e)) as [?|Hne]; [done|]. assert (e ∈ h :: l) as Hin by (apply (Hgap e h); [lia|by left]).
    apply elem_of_cons in Hin as [->|Hin]; [done|]. specialize (Hlt e Hin). lia. }
  destruct i as [|i]; simpl in Hi; [injection Hi as <-; lia|].
  rewrite (IH (e + 1) i); [lia|done| | |done].
  - apply Forall_forall. intros y Hy. specialize (Hlt y Hy). lia.
  - intros c y Hc Hy. assert (c ∈ e :: l) as Hin by (apply (Hgap c y); [lia|by right]).
    apply elem_of_cons in Hin as [->|?]; [lia|done].
Qed.

Lemma rows_right_keyring p keys :
  int_keys keys -> chunks p <= 2 ^ 31 -> rows_right p 0 (table_rows keys) <-> keyring_ok p keys.
Proof.
  intros Hint Hp. rewrite rows_right_lookup. split.
  - intros Hr. assert (forall c row, keys !! c = Some row -> exists i, table_rows keys !! i = Some (c, row) /\ c = Z.of_nat i) as Hat.
    { intros c row Hc. assert (- 2 ^ 31 <= c < 2 ^ 31) as Hci by (apply Hint; eauto).
      apply elem_of_table_rows, list_elem_of_lookup in Hc as [i Hi]. exists i. split; [done|].
      destruct (Hr i _ Hi) as (Hu & Hlt & _). simpl in Hu. rewrite (u32_int c Hci) in Hu. case_decide; lia. }
    split.
    + intros c row Hc. destruct (Hat c row Hc) as (i & Hi & ->). destruct (Hr i _ Hi) as (_ & Hlt & _). lia.
    + intros c row Hc. destruct (Hat c row Hc) as (i & Hi & ->). apply (Hr i _ Hi).
    + intros c c' Hc [row' Hrow']. destruct (Hat c' row' Hrow') as (i & Hi & ->). apply lookup_lt_Some in Hi.
      destruct (lookup_lt_is_Some_2 (table_rows keys) (Z.to_nat c)) as [[c2 row] Hrow]; [lia|].
      pose proof (list_elem_of_lookup_2 _ _ _ Hrow) as Hin. apply elem_of_table_rows in Hin.
      destruct (Hr _ _ Hrow) as (Hu & Hlt2 & _). simpl in Hu.
      assert (- 2 ^ 31 <= c2 < 2 ^ 31) as Hc2 by (apply Hint; eauto). rewrite (u32_int c2 Hc2) in Hu.
      assert (c2 = c) as -> by (case_decide; lia). by rewrite Hin.
  - intros [Hrange Hfits Hgaps] i [c row] Hi. pose proof (list_elem_of_lookup_2 _ _ _ Hi) as Hin. apply elem_of_table_rows in Hin.
    assert (c = 0 + Z.of_nat i) as Hc.
    { apply (sorted_run 0 (table_rows keys).*1); [apply table_rows_lt| | |by rewrite list_lookup_fmap, Hi].
      - apply Forall_forall. intros x ([x' r] & -> & Hx%elem_of_table_rows)%list_elem_of_fmap. by apply Hrange in Hx as [? _].
      - intros x y Hx ([y' r] & -> & Hy%elem_of_table_rows)%list_elem_of_fmap. destruct (Hgaps x y' Hx) as [r' Hr']; [eauto|].
        apply list_elem_of_fmap. exists (x, r'). split; [done|]. by apply elem_of_table_rows. }
    destruct (Hrange c row Hin) as [H0 Hlt]. rewrite <- Hc. split_and!; [|done|by eapply Hfits]. simpl.
    rewrite u32_int by (apply Hint; eauto). by rewrite decide_True.
Qed.

(** ** The loop *)

(** A row that is right moves the expected chunk on, and one that is not is a flaw. *)
Lemma keyring_row_eval {R} kv s :
  exists s', (keyring_row kv : pk vstate R ()) s = Some (inl (), s') /\ v_pk s' = v_pk s /\
    if decide (row_right (parcel (v_pk s)) (v_expected s) kv)
    then v_ok s' = v_ok s /\ v_ret s' = v_ret s /\ v_expected s' = u32 (v_expected s + 1)
    else v_ok s' = false /\ v_ret s' = PK_INVALID.
Proof.
  unfold keyring_row, when, flaw. rewrite !bind_gets.
  destruct (decide (u32 kv.1 >= chunks (parcel (v_pk s)))) as [Hge|Hge].
  { eexists. split; [done|]. split; [done|]. by rewrite decide_False by (intros (? & ? & _); lia). }
  destruct (decide (u32 kv.1 < v_expected s)) as [Hlt|Hlt].
  { eexists. split; [done|]. split; [done|]. by rewrite decide_False by (intros (? & ? & _); lia). }
  destruct (decide (v_expected s < u32 kv.1)) as [Hm|Hm]; [|assert (u32 kv.1 = v_expected s) as Heq by lia].
  - destruct (decide (Z.of_nat (length (kr_tag _)) <> _)), (decide (Z.of_nat (length (kr_key _)) <> _)), (decide (_ = false));
      (eexists; split; [done|]; split; [done|]; by rewrite decide_False by (intros (? & _); lia)).
  - rewrite Heq.
    destruct (decide (Z.of_nat (length (kr_tag _)) <> _)) as [H1|H1], (decide (Z.of_nat (length (kr_key _)) <> _)) as [H2|H2],
      (decide (_ = false)) as [H3|H3];
      (eexists; split; [done|]; split; [done|]); (case_decide as Hx; [|try done]);
      try (destruct Hx as (_ & _ & ? & ? & Hx); congruence); try done.
    destruct Hx. split; [done|]. split; [lia|]. split_and!; [lia|lia|]. by destruct (iu_chunk_compress_is_enabled _ _).
Qed.

(** The parcelkeeper's state is [p], the connection apart. *)
Definition looks (p : pk_state) (s : vstate) : Prop := exists b, v_pk s = set_pkdb b p.

Lemma looks_stable p : stable (looks p).
Proof. intros b s [b' Hs]. exists b. simpl. by rewrite Hs. Qed.

Section keyring.
Context (p0 : pk_state) (d0 : dbs) (keys : gmap Z key_row) (fs0 : list (option (sqlite_fault * bool))).
Context (Hkeys : main_keys d0 = Some keys) (Hint : int_keys keys) (Hp : chunks (parcel p0) <= 2 ^ 31).
Context (ok0 : bool).

Local Abbreviation right := (keyring_ok (parcel p0) keys).

Definition sound_so_far (s : vstate) : Prop := v_ok s = ok0 /\ v_ret s = PK_SUCCESS.
Definition flaw_found (s : vstate) : Prop := v_ok s = false /\ v_ret s = PK_INVALID /\ ~ right.

Definition keyring_inv (s : vstate) : Prop := looks p0 s /\ (sound_so_far s \/ flaw_found s).

Definition keyring_rows (rows : list (Z * key_row)) (d : dbs) (s : vstate) : Prop :=
  d = d0 /\ looks p0 s /\
  (sound_so_far s /\ (rows_right (parcel p0) (v_expected s) rows <-> right) \/ flaw_found s).

Lemma keyring_rows_stable rows d : stable (keyring_rows rows d).
Proof. intros b s (? & ? & ?). split; [done|]. split; [by apply looks_stable|done]. Qed.

Lemma keyring_inv_stable : stable keyring_inv.
Proof. intros b s (? & ?). split; [by apply looks_stable|done]. Qed.

Lemma keyring_row_ok {R} fs X r rest d :
  triple (at_data fs d0 d (keyring_rows (r :: rest) d)) (keyring_row r : pk vstate R ())
    (fun _ s => exists d', at_data fs d0 d' (keyring_rows rest d') s) X.
Proof.
  intros s (Ha & Hw & -> & [b Hl] & Hcase). destruct (keyring_row_eval (R:=R) r s) as (s' & Hr & Hpk & Hout).
  exists (inl ()), s'. split; [done|]. exists d0. unfold at_data.
  assert (get_db s' = get_db s) as -> by (cbn; by rewrite Hpk). split; [done|]. split; [done|]. split; [done|].
  split; [exists b; by rewrite Hpk|]. rewrite Hl in Hout. cbn [parcel set_pkdb] in Hout.
  case_decide as Hrow.
  - destruct Hout as (Hok & Hret & He). destruct Hcase as [[[Hs1 Hs2] Hiff]|(? & ? & ?)].
    + left. split; [split; congruence|]. destruct Hrow as (Hu & Hlt & Hfit). rewrite He, u32_id.
      2:{ pose proof (Z.mod_pos_bound r.1 (2 ^ 32)). unfold u32, is_u in *. lia. }
      rewrite <- Hiff. simpl. split; [intros ?; split; [by split_and!|done]|by intros [_ ?]].
    + right. by split_and!; congruence.
  - destruct Hout as [Hok Hret]. right. split_and!; [done|done|]. destruct Hcase as [[_ Hiff]|(_ & _ & ?)]; [|done].
    rewrite <- Hiff. simpl. by intros [? _].
Qed.

Definition keyring_post (err : pk_err) (s : vstate) : Prop :=
  idle d0 (get_db s) /\ within fs0 (get_db s) /\ looks p0 s /\
  (err = PK_SUCCESS /\ v_ok s = ok0 /\ right \/ err = PK_INVALID /\ v_ok s = false /\ ~ right \/
   err = PK_IOERR /\ ~ Forall contention fs0 /\ (v_ok s = ok0 \/ v_ok s = false /\ ~ right)).

Definition keyring_error (err : pk_err) : Prop := err = PK_IOERR /\ ~ Forall contention fs0.

Lemma keyring_body_ok fs :
  fs `suffix_of` fs0 ->
  tx_body d0 keyring_inv keyring_post keyring_error keyring_body fs.
Proof.
  intros Hfs s (Hi & Hw & Hl & Hcase). unfold keyring_body. rewrite bind_modify. simpl.
  assert (forall fs', fs' `suffix_of` fs0 -> ~ Forall contention fs' -> ~ Forall contention fs0) as Hcont
    by (intros; by eapply contention_suffix).
  enough (triple (fun s => idle d0 (get_db s) /\ within fs (get_db s) /\ keyring_inv s /\ v_expected s = 0)
    (ok ← try_db begin; if ok : bool then keyring_steps else ret PK_IOERR) keyring_post
    (tx_exit fs d0 keyring_inv keyring_post keyring_error)) as Ht by (apply Ht; by split_and!).
  clear s Hi Hw Hl Hcase. apply (tx_start fs d0 _ _ _ (fun s => keyring_inv s /\ v_expected s = 0)).
  - intros b s [? ?]. split; [by apply keyring_inv_stable|done].
  - intros s Hi Hw [[Hl Hcase] _] Hn. split; [done|]. split; [by eapply within_trans|]. split; [done|]. right. right. split; [done|]. split; [by eapply Hcont|].
    by destruct Hcase as [[? ?]|(? & _ & ?)]; [left|right].
  - eapply triple_bind.
    { eapply triple_pre; [apply (for_each_ok fs d0 keyring_rows keyring_rows_stable sql_select_keys keyring_row d0 d0 (table_rows keys))|].
      - unfold sql_select_keys. by rewrite Hkeys.
      - intros r rest d. apply keyring_row_ok.
      - intros s (Ha & Hw & (Hl & Hcase) & He). split; [done|]. split; [done|]. split; [done|]. split; [done|].
        destruct Hcase as [?|?]; [left|by right]. split; [done|]. rewrite He. by apply rows_right_keyring. }
    intros [] s (Hw & Hdone). rewrite bind_gets. destruct (query_ok (get_db s)); simpl.
    + destruct Hdone as (d & Ha & -> & Hl & Hcase).
      destruct (rollback_ok (R:=pk_err) fs d0 d0 (keyring_rows [] d0) s) as (s' & Hr & Hi & Hw' & _ & Hl' & Hcase');
        [apply keyring_rows_stable|by split_and!|].
      rewrite (bind_step _ _ _ _ _ Hr), bind_gets. eexists _, _. split; [done|]. split; [done|].
      split; [by eapply within_trans|]. split; [done|].
      destruct Hcase' as [[[Hok Hret] Hiff]|(Hok & Hret & Hn)].
      * left. split_and!; [done|done|by apply Hiff].
      * right. left. by split_and!.
    + destruct Hdone as (Hb & (rows & d & -> & Hl & Hcase) & Hn). eexists _, _. split; [done|]. split; [done|]. split; [done|].
      split; [|intros Hbusy; split; [done|by eapply Hcont, Hn]]. split; [done|].
      by destruct Hcase as [[? _]|?]; [left|right].
Qed.

Lemma validate_keyring_ok s :
  looks p0 s -> idle d0 (get_db s) -> within fs0 (get_db s) -> v_ok s = ok0 ->
  exists err s', validate_keyring s = Some (err, s') /\ keyring_post err s'.
Proof.
  intros Hpk Hi Hfs Hok. unfold validate_keyring.
  destruct (transaction_spec fs0 d0 keyring_inv keyring_post keyring_error keyring_body (set_v_ret PK_SUCCESS s))
    as (err & s' & Hr & Hpost); try done.
  - apply keyring_body_ok.
  - apply keyring_inv_stable.
  - split; [exact Hpk|by left].
  - exists err, s'. split; [exact Hr|]. destruct Hpost as [?|(? & ? & [Hl Hcase] & -> & Hn)]; [done|].
    split; [done|]. split; [done|]. split; [done|]. right. right. split_and!; [done|done|].
    by destruct Hcase as [[? ?]|(? & _ & ?)]; [left|right].
Qed.
End keyring.

(** * The data of the cached chunks *)

(** The file has all bytes of a chunk of [n] bytes, and they have the SHA-1 [tag]. *)
Definition covered (s : pk_state) (c n : Z) : Prop := length (slot s c (Z.to_nat n)) = Z.to_nat n.
Definition intact (s : pk_state) (c n : Z) (tag : list Z) : Prop := Fips180.sha1 (slot s c (Z.to_nat n)) = tag.

Lemma read_with_tag c room n tag s :
  _cache_read_chunk c room n (Some tag) s =
    match _cache_read_chunk c room n None s with
    | Some (PK_SUCCESS, buf, s') =>
        match iu_chunk_crypto_digest (crypto (parcel s)) buf with
        | None => None
        | Some None => Some (PK_CALLFAIL, buf, s')
        | Some (Some t) =>
            Some (if decide (take (Z.to_nat (hashlen (parcel s))) tag <> take (Z.to_nat (hashlen (parcel s))) t)
                  then PK_TAGFAIL else PK_SUCCESS, buf, s')
        end
    | r => r
    end.
Proof.
  unfold _cache_read_chunk, body, pread, mbind, pk_mbind, pk_bind, gets, next_io, defined.
  destruct (io s) as [|o rest]; (destruct (decide (_ <= room)); [|done]); unfold pk_ret;
    (destruct (decide (_ <> _)); [done|]); unfold ret; (destruct (iu_chunk_crypto_digest _ _) as [[t|]|]; [|done|done]); by destruct (decide _).
Qed.

Lemma read_tagged s c n tag :
  geometry s -> bytes (cache_content s) -> 0 <= n <= chunksize (parcel s) -> length tag = 20%nat ->
  exists err buf rest, _cache_read_chunk c (chunksize (parcel s)) n (Some tag) s = Some (err, buf, set_io rest s) /\
    rest `suffix_of` io s /\
    (err = PK_SUCCESS /\ buf = slot s c (Z.to_nat n) /\ covered s c n /\ intact s c n tag \/
     err = PK_TAGFAIL /\ covered s c n /\ ~ intact s c n tag \/ err = PK_IOERR) /\
    (io s = [] -> covered s c n -> err <> PK_IOERR).
Proof.
  intros Hg Hb Hn Htag. destruct (read_slot s c n Hg Hb Hn) as (err & buf & rest & Hr & Hsuf & Hbuf & Hcase & Hio).
  rewrite read_with_tag, Hr. destruct Hcase as [(-> & -> & Hcov)| ->].
  - rewrite (g_crypto s Hg), digest_sha1, (g_hashlen s Hg) by done. change (Z.to_nat 20) with 20%nat.
    rewrite !take_ge by (rewrite ?length_sha1; lia). unfold intact.
    destruct (decide (tag <> _)) as [Hne|Heq]; eexists _, _, _; (split; [done|]); (split; [done|]); (split; [|done]).
    + right. left. split_and!; [done|done|congruence].
    + left. apply dec_stable in Heq. split_and!; done.
  - eexists _, _, _. split; [done|]. split; [done|]. split; [by right; right|]. intros Hi Hc. by specialize (Hio Hi Hc).
Qed.

(** * The chunks of the cache *)

(** The parcelkeeper's state is [p], the connection and reads of files apart. *)
Definition reads (p : pk_state) (s : vstate) : Prop :=
  exists b l, v_pk s = set_io l (set_pkdb b p) /\ l `suffix_of` io p.

Lemma reads_stable p : stable (reads p).
Proof. intros b s (b' & l & Hs & ?). exists b, l. split; [|done]. simpl. by rewrite Hs. Qed.

Lemma slot_reads p s c n : reads p s -> slot (v_pk s) c n = slot p c n.
Proof. by intros (b & l & -> & _). Qed.

Section cachefile.
Context (p0 : pk_state) (d0 : dbs) (m p : gmap Z key_row) (t : gmap Z Z) (ver : Z).
Context (Hm : main_keys d0 = Some m) (Hp : prev_keys d0 = Some p) (Hc : cache d0 = Some (mk_index ver (Some t))).
Context (Hmi : int_keys m) (Hti : int_keys t).

(** The databases when the chunks in [B] have been reverted: they have the key of the previous version, and
    none of them is in the cache. *)
Definition spliced (B : list Z) : dbs :=
  set_cache (Some (mk_index ver (Some (filter (fun kv => ~ kv.1 ∈ B) t))))
    (set_main_keys (Some (filter (fun kv => kv.1 ∈ B) p ∪ m)) d0).

Lemma spliced_nil : spliced [] = d0.
Proof.
  assert (filter (fun kv : Z * Z => ~ kv.1 ∈ []) t = t) as Ht.
  { apply map_filter_id. intros c n _. apply not_elem_of_nil. }
  assert (filter (fun kv : Z * key_row => kv.1 ∈ []) p = ∅) as Hpe.
  { apply map_empty. intros c. apply map_lookup_filter_None. right. intros row _. apply not_elem_of_nil. }
  unfold spliced. rewrite Ht, Hpe, map_empty_union. destruct d0. simpl in *. by subst.
Qed.

Lemma spliced_table (B : list Z) c n :
  (filter (fun kv : Z * Z => ~ kv.1 ∈ B) t) !! c = Some n <-> t !! c = Some n /\ ~ c ∈ B.
Proof. by rewrite map_lookup_filter_Some. Qed.

(** The two statements of revert_chunk. *)
Lemma revert_statements (B : list Z) c :
  - 2 ^ 31 <= c < 2 ^ 31 ->
  exists d rows rows', sql_revert_key (u32 c) (spliced B) = inr (d, rows) /\
    sql_delete_length (u32 c) d = inr (spliced (B ++ [c]), rows').
Proof.
  intros Hci. unfold sql_revert_key, sql_delete_length. rewrite (s32_int c Hci). cbn. rewrite Hp.
  assert (filter (fun kv : Z * Z => ~ kv.1 ∈ B ++ [c]) t = delete c (filter (fun kv : Z * Z => ~ kv.1 ∈ B) t)) as Ht.
  { apply map_eq. intros i. destruct (decide (i = c)) as [->|Hne].
    - rewrite lookup_delete_eq. apply map_lookup_filter_None. right. intros n _ Hn. apply Hn. apply elem_of_app. right. by left.
    - rewrite lookup_delete_ne by done. apply option_eq. intros n. rewrite !map_lookup_filter_Some. simpl.
      rewrite not_elem_of_app, list_elem_of_singleton. tauto. }
  assert (forall i, i <> c -> filter (fun kv : Z * key_row => kv.1 ∈ B ++ [c]) p !! i = filter (fun kv : Z * key_row => kv.1 ∈ B) p !! i) as Hother.
  { intros i Hne. apply option_eq. intros r. rewrite !map_lookup_filter_Some. simpl. rewrite elem_of_app, list_elem_of_singleton. tauto. }
  assert (filter (fun kv : Z * key_row => kv.1 ∈ B ++ [c]) p ∪ m =
    match p !! c with
    | Some row => <[c := row]> (filter (fun kv : Z * key_row => kv.1 ∈ B) p ∪ m)
    | None => filter (fun kv : Z * key_row => kv.1 ∈ B) p ∪ m
    end) as Hmain.
  { apply map_eq. intros i. destruct (decide (i = c)) as [->|Hne].
    - destruct (p !! c) as [row|] eqn:Hpc.
      + rewrite lookup_insert_eq. apply lookup_union_Some_l, map_lookup_filter_Some. split; [done|].
        apply elem_of_app. right. by left.
      + rewrite !lookup_union. f_equal. transitivity (@None key_row); [|symmetry]; apply map_lookup_filter_None; by left.
    - destruct (p !! c); [rewrite lookup_insert_ne by done|]; rewrite !lookup_union; by rewrite Hother. }
  unfold spliced. rewrite Ht, Hmain. destruct (p !! c) as [row|]; eexists _, _, _; (split; [done|]); reflexivity.
Qed.

(** ** What is wrong with the chunks *)

Context (fs0 : list (option (sqlite_fault * bool))) (ok0 : bool).
Context (Hg : geometry p0) (Hbytes : bytes (cache_content p0)).

Local Abbreviation splice := (has_flag (flags (conf p0)) WANT_SPLICE).
Local Abbreviation full := (has_flag (flags (conf p0)) WANT_FULL_CHECK).

(** The modified chunks that are not in the cache, and the rows of the cached ones. *)
Definition missing : list Z :=
  filter (fun c => t !! c = None) (table_rows (filter (fun kv => tag_differs p kv = true) m)).*1.
Definition cached : list (Z * Z * option (list Z)) :=
  (fun kv => (kv.1, kv.2, kr_tag <$> m !! kv.1)) <$> table_rows t.

(** The number and the length of a cached chunk, and its tag, can be right. *)
Definition plausible (r : Z * Z * option (list Z)) : Prop :=
  u32 r.1.1 <= chunks (parcel p0) /\ 0 < u32 r.1.2 <= chunksize (parcel p0) /\
  exists tag, r.2 = Some tag /\ Z.of_nat (length tag) = hashlen (parcel p0).

#[local] Instance plausible_dec r : Decision (plausible r).
Proof.
  unfold plausible. destruct (r.2) as [tag|]; [|right; by intros (_ & _ & tag & ? & _)].
  destruct (decide (u32 r.1.1 <= chunks (parcel p0) /\ 0 < u32 r.1.2 <= chunksize (parcel p0) /\
    Z.of_nat (length tag) = hashlen (parcel p0))) as [(? & ? & ?)|Hn]; [left; eauto|right].
  intros (? & ? & ? & [= <-] & ?). by apply Hn.
Defined.

(** Its data is not what its tag says. *)
Definition corrupt (r : Z * Z * option (list Z)) : Prop :=
  exists tag, r.2 = Some tag /\ covered p0 (u32 r.1.1) (u32 r.1.2) /\ ~ intact p0 (u32 r.1.1) (u32 r.1.2) tag.

Definition flawed : Prop :=
  missing <> [] \/ exists r, r ∈ cached /\ (~ plausible r \/ full = true /\ plausible r /\ corrupt r).

Definition cachefile_inv (s : vstate) : Prop :=
  reads p0 s /\ (v_ok s = true -> ok0 = true) /\ (v_ok s = false -> ok0 = false \/ flawed).

Definition check_error (err : pk_err) : Prop := err = PK_IOERR /\ ~ Forall contention fs0.

Lemma cachefile_inv_stable : stable cachefile_inv.
Proof. intros b s [? ?]. split; [by apply reads_stable|done]. Qed.

Lemma elem_of_cached r :
  r ∈ cached <-> t !! r.1.1 = Some r.1.2 /\ r.2 = kr_tag <$> m !! r.1.1.
Proof.
  unfold cached. rewrite list_elem_of_fmap. split.
  - intros ([c n] & -> & Hin%elem_of_table_rows). done.
  - intros [Ht Hr]. exists (r.1.1, r.1.2). split; [|by apply elem_of_table_rows]. destruct r as [[c n] o]. simpl in *. by subst.
Qed.

Lemma cached_int r : r ∈ cached -> - 2 ^ 31 <= r.1.1 < 2 ^ 31.
Proof. intros [Ht _]%elem_of_cached. apply Hti. eauto. Qed.

Lemma elem_of_missing c :
  c ∈ missing <-> t !! c = None /\ exists row, m !! c = Some row /\ tag_differs p (c, row) = true.
Proof.
  unfold missing. rewrite list_elem_of_filter, list_elem_of_fmap. split.
  - intros [Ht ([c' row] & -> & Hin)]. apply elem_of_table_rows, map_lookup_filter_Some in Hin as [? ?]. eauto.
  - intros (Ht & row & Hrow & Hd). split; [done|]. exists (c, row). split; [done|].
    by apply elem_of_table_rows, map_lookup_filter_Some.
Qed.

Lemma missing_int c : c ∈ missing -> - 2 ^ 31 <= c < 2 ^ 31.
Proof. intros (_ & row & ? & _)%elem_of_missing. apply Hmi. eauto. Qed.

Lemma select_missing : sql_missing_modified d0 = inr (d0, missing).
Proof.
  unfold sql_missing_modified, modified_chunks, chunk_table. rewrite Hm, Hp, Hc. cbn. done.
Qed.

(** Reverting missing chunks does not touch the rows of the cached ones. *)
Lemma select_cached B :
  (forall c, c ∈ B -> c ∈ missing) -> sql_cached_chunks (spliced B) = inr (spliced B, cached).
Proof.
  intros HB. assert (filter (fun kv : Z * Z => ~ kv.1 ∈ B) t = t) as Ht.
  { apply map_filter_id. intros c n Hcn Hin. apply HB, elem_of_missing in Hin as [Hnone _]. simpl in *. congruence. }
  unfold sql_cached_chunks, chunk_table. cbn. rewrite Ht. do 2 f_equal. unfold cached.
  apply list_fmap_ext. intros i [c n] Hi. apply list_elem_of_lookup_2, elem_of_table_rows in Hi. simpl. f_equal. f_equal.
  apply lookup_union_r, map_lookup_filter_None. right. intros row _ Hin. apply HB, elem_of_missing in Hin as [Hnone _]. simpl in *. congruence.
Qed.

(** ** The loops *)

Section loops.
Context (fs : list (option (sqlite_fault * bool))) (Hfs : fs `suffix_of` fs0) (Q : pk_err -> vstate -> Prop).
Local Abbreviation leave := (tx_exit fs d0 cachefile_inv Q check_error).

Lemma refused_error : ~ Forall contention fs -> check_error PK_IOERR.
Proof. intros Hn. split; [done|]. by eapply contention_suffix. Qed.

Lemma must_revert_ok B c P :
  - 2 ^ 31 <= c < 2 ^ 31 -> stable P -> (forall e s, P s -> P (set_v_ret e s)) -> (forall s, P s -> cachefile_inv s) ->
  triple (at_data fs d0 (spliced B) P) (must_revert (u32 c))
    (fun _ => at_data fs d0 (spliced (B ++ [c])) (fun s => P s /\ v_ret s = PK_SUCCESS)) leave.
Proof.
  intros Hci HP Hret HPI. destruct (revert_statements B c Hci) as (d & rows & rows' & H1 & H2).
  unfold must_revert. eapply triple_bind with (Q := fun err s =>
    if decide (err = PK_SUCCESS) then at_data fs d0 (spliced (B ++ [c])) P s else err = PK_IOERR /\ failed fs d0 P s).
  - apply triple_call_body. eapply (any_stmt_step fs d0 (Return PK_IOERR)); [exact H1|done|intros s ?; by rewrite decide_False|].
    eapply (any_stmt_step fs d0 (Return PK_IOERR)); [exact H2|done|intros s ?; by rewrite decide_False|].
    apply triple_return. intros s ?. by rewrite decide_True.
  - intros err s Hs. rewrite bind_modify. destruct (decide (err = PK_SUCCESS)) as [->|He].
    + rewrite decide_False by (intros Hn; by apply Hn). eexists _, _. split; [done|].
      destruct Hs as (? & ? & ?). split_and!; try done. by apply Hret.
    + rewrite decide_True by done. destruct Hs as (-> & Hb & Hw & Hs & Hn). eexists _, _. split; [done|].
      split_and!; try done; [by apply HPI, Hret|]. intros Hnb. by apply refused_error, Hn.
Qed.

Lemma want_reads flag s : reads p0 s -> want flag s = has_flag (flags (conf p0)) flag.
Proof. unfold want. by intros (b & l & -> & _). Qed.

(** [c :: rest] are the missing chunks still to come. *)
Definition missing_rows (rest : list Z) (d : dbs) (s : vstate) : Prop :=
  cachefile_inv s /\ exists past, missing = past ++ rest /\ d = spliced (if splice then past else []) /\
    (v_ok s = true -> past = []) /\ (past = [] -> v_ret s = PK_SUCCESS).

Lemma missing_rows_stable rest d : stable (missing_rows rest d).
Proof. intros b s [? ?]. split; [by apply cachefile_inv_stable|done]. Qed.

Lemma missing_row_ok c rest d :
  triple (at_data fs d0 d (missing_rows (c :: rest) d)) (missing_row c)
    (fun _ s => exists d', at_data fs d0 d' (missing_rows rest d') s) leave.
Proof.
  intros s (Ha & Hw & Hinv & past & Hd & -> & _ & _). unfold missing_row. rewrite bind_gets, want_reads by apply Hinv.
  assert (c ∈ missing) as Hc' by (rewrite Hd; apply elem_of_app; right; by left).
  assert (flawed) as Hflaw by (left; intros Hn; rewrite Hn in Hc'; by apply not_elem_of_nil in Hc').
  assert (missing = (past ++ [c]) ++ rest) as Hd' by (by rewrite <- app_assoc).
  eapply triple_bind with (P := at_data fs d0 (spliced (if splice then past else [])) cachefile_inv)
    (Q := fun _ => at_data fs d0 (spliced (if splice then past ++ [c] else [])) cachefile_inv); [| |by split_and!].
  - destruct splice; [|by apply triple_ret]. eapply triple_weaken; [apply (must_revert_ok past c cachefile_inv)|done| |done].
    + by apply missing_int.
    + apply cachefile_inv_stable.
    + done.
    + done.
    + by intros _ s' (? & ? & ? & _).
  - intros _. apply triple_modify. intros s' (Ha' & Hw' & Hr & _). exists (spliced (if splice then past ++ [c] else [])).
    split; [done|]. split; [done|]. split; [split; [done|]; split; [done|by right]|]. exists (past ++ [c]).
    split_and!; try done. by destruct past.
Qed.

(** [r :: rest] are the rows of the cache index still to come, [B] what has been reverted of those before. *)
Definition cached_rows (rest : list (Z * Z * option (list Z))) (d : dbs) (s : vstate) : Prop :=
  cachefile_inv s /\ exists past B, cached = past ++ rest /\
    d = spliced ((if splice then missing else []) ++ B) /\
    (forall c, c ∈ B -> splice = true /\ full = true /\ exists r, r ∈ past /\ r.1.1 = c /\ plausible r /\ corrupt r) /\
    (io p0 = [] -> splice = true -> full = true -> forall r, r ∈ past -> plausible r -> corrupt r -> r.1.1 ∈ B) /\
    (v_ok s = true -> missing = [] /\ forall r, r ∈ past -> plausible r /\ (io p0 = [] -> full = true -> ~ corrupt r)) /\
    (io p0 = [] -> missing = [] -> (forall r, r ∈ cached -> plausible r /\ covered p0 (u32 r.1.1) (u32 r.1.2) /\ ~ corrupt r) ->
       v_ret s = PK_SUCCESS) /\
    (v_ok s = true -> full = true -> v_ret s = PK_SUCCESS -> forall r, last past = Some r -> covered p0 (u32 r.1.1) (u32 r.1.2)).

Lemma cached_rows_stable rest d : stable (cached_rows rest d).
Proof. intros b s [? ?]. split; [by apply cachefile_inv_stable|done]. Qed.

(** What a row leads to: it may be reverted, and what is wrong with it is noted. *)
Record row_outcome (r : Z * Z * option (list Z)) (back : bool) (s s' : vstate) : Prop := mk_row_outcome {
  ro_inv : cachefile_inv s';
  ro_back : back = true -> splice = true /\ full = true /\ plausible r /\ corrupt r;
  ro_repaired : io p0 = [] -> splice = true -> full = true -> plausible r -> corrupt r -> back = true;
  ro_noted : v_ok s' = true -> v_ok s = true /\ plausible r /\ (io p0 = [] -> full = true -> ~ corrupt r);
  ro_fine : io p0 = [] -> plausible r -> covered p0 (u32 r.1.1) (u32 r.1.2) -> ~ corrupt r ->
    v_ret s = PK_SUCCESS -> v_ret s' = PK_SUCCESS;
  ro_covered : v_ok s' = true -> full = true -> v_ret s' = PK_SUCCESS -> covered p0 (u32 r.1.1) (u32 r.1.2)
}.

Lemma cached_rows_next r rest past B back s s' :
  cached = past ++ r :: rest ->
  (forall c, c ∈ B -> splice = true /\ full = true /\ exists r, r ∈ past /\ r.1.1 = c /\ plausible r /\ corrupt r) ->
  (io p0 = [] -> splice = true -> full = true -> forall r, r ∈ past -> plausible r -> corrupt r -> r.1.1 ∈ B) ->
  (v_ok s = true -> missing = [] /\ forall r, r ∈ past -> plausible r /\ (io p0 = [] -> full = true -> ~ corrupt r)) ->
  (io p0 = [] -> missing = [] -> (forall r, r ∈ cached -> plausible r /\ covered p0 (u32 r.1.1) (u32 r.1.2) /\ ~ corrupt r) ->
     v_ret s = PK_SUCCESS) ->
  row_outcome r back s s' ->
  cached_rows rest (spliced ((if splice then missing else []) ++ B ++ (if back then [r.1.1] else []))) s'.
Proof.
  intros Hd HB Hall Hgood Hret [Hinv Hback Hrep Hnoted Hfine Hcov]. split; [done|].
  exists (past ++ [r]), (B ++ (if back then [r.1.1] else [])). split; [by rewrite <- app_assoc|]. split; [done|].
  assert (forall x, x ∈ past ++ [r] <-> x ∈ past \/ x = r) as Hel by (intros; by rewrite elem_of_app, list_elem_of_singleton).
  split_and!.
  - intros c [Hin|Hin]%elem_of_app.
    + destruct (HB c Hin) as (? & ? & r' & ? & ?). split; [done|]. split; [done|]. exists r'. rewrite Hel. auto.
    + destruct back; [|by apply not_elem_of_nil in Hin]. apply list_elem_of_singleton in Hin as ->.
      destruct (Hback eq_refl) as (? & ? & ? & ?). split; [done|]. split; [done|]. exists r. rewrite Hel. auto.
  - intros Hio Hs Hf x [Hx| ->]%Hel Hp' Hc'; apply elem_of_app; [left; by apply Hall|right].
    rewrite Hrep by done. by left.
  - intros Hok. destruct (Hnoted Hok) as (Hok' & ? & ?). destruct (Hgood Hok') as [? Hgd]. split; [done|].
    intros x [Hx| ->]%Hel; [by apply Hgd|done].
  - intros Hio Hmiss Hfine'. assert (r ∈ cached) as Hr by (rewrite Hd; apply elem_of_app; right; by left).
    destruct (Hfine' r Hr) as (? & ? & ?). by apply Hfine, Hret.
  - intros Hok Hf Hr x. rewrite last_snoc. intros [= <-]. by apply Hcov.
Qed.

(** ** A row *)

Lemma cached_row_implausible r s : reads p0 s -> ~ plausible r -> cached_row r s = flaw s.
Proof.
  intros (b & l & Hs & _) Hn. unfold cached_row. rewrite bind_gets, Hs. cbn [parcel set_io set_pkdb].
  destruct (decide (u32 r.1.1 > _)) as [|H1]; [done|]. destruct (decide (_ \/ _)) as [|H2]; [done|].
  destruct r as [[c n] [[|x tag]|]]; [done| |done]. simpl in *. destruct (decide (_ <> _)) as [|H3]; [done|].
  destruct Hn. unfold plausible. cbn [fst snd]. split; [lia|]. split.
  - assert (0 <= u32 n) by (apply Z.mod_pos_bound; lia). lia.
  - exists (x :: tag). split; [done|]. apply dec_stable in H3. exact H3.
Qed.

(** What the full check does with a row. *)
Definition check_data (chunk chunklen : Z) (tag : list Z) : pk vstate pk_err () :=
  p ← gets (fun s => parcel (v_pk s));
  '(err, _) ← call (on_pk (_cache_read_chunk chunk (chunksize p) chunklen (Some tag)));
  _ ← modify (set_v_ret err);
  if decide (err = PK_TAGFAIL) then
    splice ← gets (want WANT_SPLICE);
    _ ← (if splice : bool then must_revert chunk else pk_ret ());
    modify (set_v_ok false)
  else pk_ret ().

Lemma cached_row_plausible r tag s :
  reads p0 s -> plausible r -> r.2 = Some tag ->
  cached_row r s = (if full then check_data (u32 r.1.1) (u32 r.1.2) tag else pk_ret ()) s.
Proof.
  intros (b & l & Hs & _) (H1 & H2 & tag' & Htag & Hl) Hr. assert (tag' = tag) as -> by congruence.
  unfold cached_row. rewrite bind_gets, Hs. cbn [parcel set_io set_pkdb].
  rewrite (decide_False (P := _ > _)), (decide_False (P := _ \/ _)), Hr by lia.
  assert (tag <> []) as Hne. { intros ->. rewrite (g_hashlen p0 Hg) in Hl. done. }
  destruct tag as [|x tag]; [done|]. rewrite (decide_False (P := _ <> _)) by (intros Hn; by apply Hn).
  rewrite bind_gets. unfold want. rewrite Hs. cbn [conf set_io set_pkdb]. destruct full; [|done].
  unfold check_data. rewrite bind_gets, Hs. done.
Qed.

(** Reading a chunk from a state that looks like [p0]. *)
Lemma read_tagged_reads s c n tag :
  reads p0 s -> 0 <= n <= chunksize (parcel p0) -> length tag = 20%nat ->
  exists err buf l, on_pk (_cache_read_chunk c (chunksize (parcel (v_pk s))) n (Some tag)) s =
      Some ((err, buf), set_v_pk (set_io l (v_pk s)) s) /\ reads p0 (set_v_pk (set_io l (v_pk s)) s) /\
    (err = PK_SUCCESS /\ covered p0 c n /\ intact p0 c n tag \/ err = PK_TAGFAIL /\ covered p0 c n /\ ~ intact p0 c n tag \/
     err = PK_IOERR) /\
    (io p0 = [] -> covered p0 c n -> err <> PK_IOERR).
Proof.
  intros Hs Hn Htag. pose proof Hs as (b & l & Hpk & Hl).
  destruct (read_tagged (v_pk s) c n tag) as (err & buf & l' & Hr & Hsuf & Hcase & Hio).
  - rewrite Hpk. by destruct Hg.
  - rewrite Hpk. exact Hbytes.
  - by rewrite Hpk.
  - done.
  - unfold covered, intact in *. rewrite (slot_reads p0 s c _ Hs) in *. exists err, buf, l'.
    split; [unfold on_pk; cbn [get_pk vstate_has_pk]; by rewrite Hr|]. split.
    { exists b, l'. split; [simpl; by rewrite Hpk|]. etrans; [exact Hsuf|]. by rewrite Hpk. }
    split; [|].
    + destruct Hcase as [(? & _ & ? & ?)|[?|?]]; auto.
    + intros Hnil. apply Hio. rewrite Hpk. cbn. rewrite Hnil in Hl. by apply suffix_nil_inv in Hl.
Qed.

Lemma check_data_ok r tag B0 s1 :
  r ∈ cached -> plausible r -> r.2 = Some tag -> full = true -> cachefile_inv s1 ->
  triple (fun s => s = s1 /\ active d0 (spliced B0) (get_db s) /\ within fs (get_db s))
    (check_data (u32 r.1.1) (u32 r.1.2) tag)
    (fun _ s => exists back, active d0 (spliced (B0 ++ if back : bool then [r.1.1] else [])) (get_db s) /\
       within fs (get_db s) /\ row_outcome r back s1 s) leave.
Proof.
  intros Hr Hpl Htag Hfull Hinv s (-> & Ha & Hw). pose proof Hpl as (_ & Hlen & tag' & Htag' & Hhl).
  assert (tag' = tag) as -> by congruence. rewrite (g_hashlen p0 Hg) in Hhl.
  assert (forall tag', r.2 = Some tag' -> tag' = tag) as Hsame by (intros; congruence).
  unfold check_data. rewrite bind_gets.
  destruct (read_tagged_reads s1 (u32 r.1.1) (u32 r.1.2) tag) as (err & buf & l & Hrd & Hreads & Hcase & Hio);
    [apply Hinv|lia|lia|].
  erewrite bind_step by (unfold call; by rewrite Hrd). cbv beta iota. rewrite bind_modify.
  set (s2 := set_v_ret err _). assert (cachefile_inv s2) as Hinv2 by (split; [done|apply Hinv]).
  assert (corrupt r -> covered p0 (u32 r.1.1) (u32 r.1.2) /\ ~ intact p0 (u32 r.1.1) (u32 r.1.2) tag) as Hcor.
  { intros (tg & Htg%Hsame & ? & ?). by subst. }
  destruct (decide (err = PK_TAGFAIL)) as [->|Herr].
  - destruct Hcase as [(? & _)|[(_ & Hcov & Hbad)|?]]; [done| |done].
    assert (corrupt r) as Hc' by (exists tag; by split_and!).
    assert (flawed) as Hflaw by (right; exists r; split; [done|]; by right).
    rewrite bind_gets, want_reads by apply Hreads.
    eapply triple_bind with (P := at_data fs d0 (spliced B0) cachefile_inv)
      (Q := fun _ => at_data fs d0 (spliced (B0 ++ if splice then [r.1.1] else [])) cachefile_inv); [| |by split_and!].
    { destruct splice; [|rewrite app_nil_r; by apply triple_ret].
      eapply triple_weaken; [apply (must_revert_ok B0 r.1.1 cachefile_inv)|done| |done];
        [by apply cached_int|apply cachefile_inv_stable|done|done|by intros _ s' (? & ? & ? & _)]. }
    intros []. apply triple_modify. intros s3 (Ha3 & Hw3 & Hr3 & _). exists splice. split; [done|]. split; [done|]. split.
    + split; [done|]. split; [done|by right].
    + intros Hs. by split_and!.
    + done.
    + done.
    + by intros _ _ _ ?.
    + done.
  - eexists _, _. split; [done|]. exists false. rewrite app_nil_r. split; [done|]. split; [done|]. split; [done|done| | | |].
    + intros Hnil _ _ _ [Hcov Hbad]%Hcor. destruct Hcase as [(_ & _ & ?)|[(? & _)|He]]; [done|done|]. by destruct (Hio Hnil Hcov).
    + intros Hok. split; [done|]. split; [done|]. intros Hnil _ [Hcov Hbad]%Hcor.
      destruct Hcase as [(_ & _ & ?)|[(? & _)|He]]; [done|done|]. by destruct (Hio Hnil Hcov).
    + intros Hnil _ Hcov _ _. destruct Hcase as [(? & _)|[(? & _)|He]]; [done|done|]. by destruct (Hio Hnil Hcov).
    + intros _ _ Hs. destruct Hcase as [(_ & ? & _)|[(? & _)|He]]; [done|done|]. simpl in Hs; congruence.
Qed.

Lemma cached_row_ok r rest d :
  triple (at_data fs d0 d (cached_rows (r :: rest) d)) (cached_row r)
    (fun _ s => exists d', at_data fs d0 d' (cached_rows rest d') s) leave.
Proof.
  intros s (Ha & Hw & Hinv & past & B & Hd & -> & HB & Hall & Hgood & Hret & _). pose proof Hinv as (Hreads & Hok1 & Hok2).
  assert (r ∈ cached) as Hr by (rewrite Hd; apply elem_of_app; right; by left).
  assert (forall back s', row_outcome r back s s' ->
    active d0 (spliced (((if splice then missing else []) ++ B) ++ if back : bool then [r.1.1] else [])) (get_db s') ->
    within fs (get_db s') -> exists d', at_data fs d0 d' (cached_rows rest d') s') as Hnext.
  { intros back s' Hout Ha' Hw'. eexists. split; [exact Ha'|]. split; [done|]. rewrite <- app_assoc. by eapply cached_rows_next. }
  destruct (decide (plausible r)) as [Hpl|Hn].
  - pose proof Hpl as (_ & _ & tag & Htag & _). rewrite (cached_row_plausible r tag s Hreads Hpl Htag).
    destruct full eqn:Hfull.
    + destruct (check_data_ok r tag ((if splice then missing else []) ++ B) s Hr Hpl Htag Hfull Hinv s)
        as (x & s' & Hx & Hout); [by split_and!|].
      exists x, s'. split; [done|]. destruct x as [[]|e]; [|done]. destruct Hout as (back & ? & ? & ?). by eapply Hnext.
    + eexists _, _. split; [done|]. eapply (Hnext false); [|by rewrite app_nil_r|done]. split; try done.
      all: by rewrite Hfull.
  - rewrite cached_row_implausible by done. eexists _, _. split; [done|].
    eapply (Hnext false); [|by rewrite app_nil_r|done]. split; try done.
    split; [done|]. split; [done|]. intros _. right. right. exists r. split; [done|]. by left.
Qed.
End loops.

(** ** The transaction *)

Definition cachefile_post (err : pk_err) (s : vstate) : Prop :=
  within fs0 (get_db s) /\
  ((exists d, idle d (get_db s) /\ cached_rows [] d s /\ err = v_ret s) \/
   idle d0 (get_db s) /\ cachefile_inv s /\ check_error err).

Section body.
Context (fs : list (option (sqlite_fault * bool))) (Hfs : fs `suffix_of` fs0).
Local Abbreviation leave := (tx_exit fs d0 cachefile_inv cachefile_post check_error).

(** What follows a loop. *)
Lemma after_loop {A} (J : list A -> dbs -> vstate -> Prop) (k : pk vstate pk_err pk_err) :
  (forall rows d s, J rows d s -> cachefile_inv s) ->
  (forall d, triple (at_data fs d0 d (J [] d)) k cachefile_post leave) ->
  triple (rows_done fs d0 J) (ok ← gets (fun s => query_ok (get_db s)); if negb ok then goto_bad PK_IOERR else k)
    cachefile_post leave.
Proof.
  intros HJ Hk s (Hw & Hdone). rewrite bind_gets. destruct (query_ok (get_db s)); simpl.
  - destruct Hdone as (d & Ha & Hs). apply (Hk d). by split_and!.
  - destruct Hdone as (Hb & (rows & d & Hs) & Hn). eexists _, _. split; [done|]. split_and!; [done|done|by eapply HJ|].
    intros Hnb. by apply (refused_error fs Hfs), Hn.
Qed.

Lemma cachefile_end d :
  triple (at_data fs d0 d (cached_rows [] d))
    (err ← gets v_ret; ok ← try_db commit; if ok : bool then ret err else goto_bad PK_IOERR) cachefile_post leave.
Proof.
  intros s Hs. rewrite bind_gets. revert s Hs.
  enough (forall err, triple (at_data fs d0 d (fun s => cached_rows [] d s /\ err = v_ret s))
    (ok ← try_db commit; if ok : bool then ret err else goto_bad PK_IOERR) cachefile_post leave) as Hend.
  { intros s (Ha & Hw & Hs). apply Hend. by split_and!. }
  intros err. apply (tx_commit_step fs d0 cachefile_post check_error cachefile_inv d).
  - by intros s [[? _] _].
  - intros b s [? ?]. split; [by apply cached_rows_stable|done].
  - apply (refused_error fs Hfs).
  - intros s Hi Hw [Hs Herr]. split; [by eapply within_trans|]. left. eauto.
Qed.

Lemma cachefile_steps_ok :
  triple (at_data fs d0 d0 (fun s => cachefile_inv s /\ v_ret s = PK_SUCCESS)) cachefile_steps cachefile_post leave.
Proof.
  assert (exists x, sql_sum_lengths d0 = inr (d0, [x])) as [x Hsum].
  { unfold sql_sum_lengths, chunk_table. rewrite Hc. cbn. eauto. }
  apply (tx_row_step fs d0 _ _ _ d0 x [] sql_sum_lengths _ PK_IOERR (fun _ => _)); [done|by intros s [? _]| |apply (refused_error fs Hfs)|].
  { intros b s [? ?]. split; [by apply cachefile_inv_stable|done]. }
  eapply triple_bind.
  { eapply triple_pre; [apply (for_each_ok fs d0 missing_rows missing_rows_stable sql_missing_modified missing_row d0 d0 missing)|].
    - apply select_missing.
    - intros c rest d. by apply missing_row_ok.
    - intros s (Ha & Hw & Hinv & Hret). split; [done|]. split; [done|]. split; [done|]. exists []. split_and!; try done.
      destruct splice; by rewrite spliced_nil. }
  intros a. apply after_loop; [by intros rows d s [? _]|]. intros d. eapply triple_bind.
  { eapply triple_pre; [apply (for_each_ok fs d0 cached_rows cached_rows_stable sql_cached_chunks cached_row
      (spliced (if splice then missing else [])) (spliced (if splice then missing else [])) cached)|].
    - apply select_cached. intros c. destruct splice; [done|]. by intros ?%not_elem_of_nil.
    - intros r rest d'. by apply cached_row_ok.
    - intros s (Ha & Hw & Hinv & past & Hd & -> & Hok & Hret). rewrite app_nil_r in Hd. subst past. split; [done|]. split; [done|].
      split; [done|]. exists [], []. rewrite app_nil_r. split_and!; try done.
      + by intros c ?%not_elem_of_nil.
      + by intros _ _ _ r ?%not_elem_of_nil.
      + intros Hok'. split; [by apply Hok|]. by intros r ?%not_elem_of_nil.
      + intros _ Hmiss _. by apply Hret. }
  intros a2. apply after_loop; [by intros rows d' s [? _]|]. apply cachefile_end.
Qed.
End body.

Lemma validate_cachefile_ok s :
  cachefile_inv s -> idle d0 (get_db s) -> within fs0 (get_db s) ->
  exists err s', validate_cachefile s = Some (err, s') /\ cachefile_post err s'.
Proof.
  intros Hinv Hi Hw.
  destruct (transaction_spec fs0 d0 cachefile_inv cachefile_post check_error cachefile_body s) as (err & s' & Hr & Hpost); try done.
  - intros fs Hfs s1 (Hi1 & Hw1 & Hinv1). unfold cachefile_body. rewrite bind_modify.
    apply (tx_start fs d0 cachefile_post check_error cachefile_inv (fun s => cachefile_inv s /\ v_ret s = PK_SUCCESS)).
    + intros b s2 [? ?]. split; [by apply cachefile_inv_stable|done].
    + intros s2 Hi2 Hw2 [Hinv2 _] Hn. split; [by eapply within_trans|]. right. split_and!; try done. by apply (refused_error fs Hfs).
    + by apply cachefile_steps_ok.
    + by split_and!.
  - apply cachefile_inv_stable.
  - exists err, s'. split; [exact Hr|]. destruct Hpost as [?|(? & ? & ? & ?)]; [done|]. split; [done|]. by right.
Qed.
End cachefile.

(** * The databases *)

Section sqlite.
Context (check : dbs -> list bool) (p0 : pk_state) (fs0 : list (option (sqlite_fault * bool))).

(** What validate_sqlite leaves: all is as it was if the databases are found in order; the flag is cleared if
    not, even when the index could be created again. *)
Definition sqlite_post (d : dbs) (ok0 : bool) (err : pk_err) (s : vstate) : Prop :=
  looks p0 s /\ within fs0 (get_db s) /\
  exists d', idle d' (get_db s) /\ (d' = d \/ d' = set_keys_tags (Some true) d /\ v_ok s = false) /\
    (v_ok s = true -> err = PK_SUCCESS /\ head (check d) = Some true /\ ok0 = true) /\
    (head (check d) = Some true -> Forall contention fs0 -> err = PK_SUCCESS /\ v_ok s = ok0 /\ d' = d).

Definition recreated (d : dbs) (created : bool) (s : vstate) : Prop :=
  looks p0 s /\ v_ok s = false /\ within fs0 (get_db s) /\
  idle (if created then set_keys_tags (Some true) d else d) (get_db s).

Lemma recreate_index_ok d s :
  looks p0 s -> v_ok s = false -> idle d (get_db s) -> within fs0 (get_db s) ->
  exists created s', transaction recreate_index s = Some (created, s') /\ recreated d created s'.
Proof.
  intros Hl Hok Hi Hw. set (I s := looks p0 s /\ v_ok s = false).
  assert (stable I) as HI by (intros b s' [? ?]; split; [by apply looks_stable|done]).
  destruct (transaction_spec fs0 d I (recreated d) (fun created => created = false) recreate_index s)
    as (created & s' & Hr & Hpost); try done.
  - intros fs Hfs. apply (tx_start fs d (recreated d) (fun created => created = false) I I); [done| |].
    { intros s1 Hi1 Hw1 [? ?] _. split_and!; try done. by eapply within_trans. }
    apply (tx_any_step fs d); [done|done|done|]. intros d1 rows1 H1.
    apply (tx_any_step fs d); [done|done|done|]. intros d2 rows2 H2.
    assert (d2 = set_keys_tags (Some true) d) as ->.
    { unfold sql_drop_keys_tags, sql_create_keys_tags in *. destruct (keys_tags d); [|done]. injection H1 as <- <-.
      cbn in H2. destruct (main_keys d); [|done]. by injection H2 as <- <-. }
    apply (tx_commit_step fs d (recreated d) (fun created => created = false) I); [done|done|done|].
    intros s1 Hi1 Hw1 [? ?]. split_and!; try done. by eapply within_trans.
  - exists created, s'. split; [done|]. destruct Hpost as [?|(? & ? & [? ?] & ->)]; [done|by split_and!].
Qed.

Lemma validate_db_step d s :
  looks p0 s -> idle d (get_db s) -> within fs0 (get_db s) ->
  exists ok s', (try_db (validate_db check) : pk vstate pk_err bool) s = Some (inl ok, s') /\
    looks p0 s' /\ v_ok s' = v_ok s /\ idle d (get_db s') /\ within fs0 (get_db s') /\
    v_pk s' = set_pkdb (get_db s') (v_pk s) /\
    (ok = true -> head (check d) = Some true) /\ (head (check d) = Some true -> Forall contention fs0 -> ok = true).
Proof.
  intros Hl Hi Hw. destruct (validate_db_spec fs0 check d (get_db s) Hi Hw) as (ok & b & Hb & Hib & Hwb & H1 & H2).
  exists ok, (set_db b s). split; [unfold try_db; by rewrite Hb|]. rewrite get_set_db. split; [by apply looks_stable|]. by split_and!.
Qed.

Lemma validate_sqlite_ok d s :
  looks p0 s -> idle d (get_db s) -> within fs0 (get_db s) ->
  exists err s', validate_sqlite check s = Some (err, s') /\ sqlite_post d (v_ok s) err s'.
Proof.
  intros Hl Hi Hw. unfold validate_sqlite.
  destruct (validate_db_step d s Hl Hi Hw) as (ok & s1 & Hs1 & Hl1 & Hok1 & Hi1 & Hw1 & _ & Hyes & Hfair).
  unfold body. rewrite (bind_step _ _ _ _ _ Hs1). destruct ok.
  { eexists _, _. split; [done|]. split; [done|]. split; [done|]. exists d. rewrite Hok1.
    split_and!; try done; [by left|by intros ->; auto]. }
  rewrite bind_modify, bind_gets. set (s2 := set_v_ok false s1).
  assert (forall d' err s', looks p0 s' -> within fs0 (get_db s') -> v_ok s' = false -> idle d' (get_db s') ->
    (d' = d \/ d' = set_keys_tags (Some true) d) -> sqlite_post d (v_ok s) err s') as Hend.
  { intros d' err s' ? ? Hok' ? Hd'. split; [done|]. split; [done|]. exists d'. rewrite Hok'. split_and!; try done.
    - destruct Hd' as [?|?]; [by left|by right].
    - intros Hh Hc. by specialize (Hfair Hh Hc). }
  destruct (want WANT_SPLICE s2); simpl.
  2:{ eexists _, _. split; [done|]. apply (Hend d); try done. by left. }
  destruct (recreate_index_ok d s2) as (created & s3 & Hr & Hl3 & Hok3 & Hw3 & Hi3); try done.
  erewrite bind_step by (unfold call; by rewrite Hr). destruct created; simpl.
  2:{ eexists _, _. split; [done|]. apply (Hend d); try done. by left. }
  destruct (validate_db_step _ s3 Hl3 Hi3 Hw3) as (ok & s4 & Hs4 & Hl4 & Hok4 & Hi4 & Hw4 & _).
  rewrite (bind_step _ _ _ _ _ Hs4). destruct ok; eexists _, _; (split; [done|]);
    (apply (Hend (set_keys_tags (Some true) d)); try done; [congruence|by right]).
Qed.
End sqlite.
