(* ===== verification/CacheVerdict.v ===== *)
(** CacheVerdict: the properties of validate_cache (CacheModes.v): its answer is right, its repair
    leaves a consistent cache, and the one way in which it can miss a chunk. *)

From stdpp Require Import sorting.
From S2P Require Import Prelude Cipher HashStream Sha1 Hash Compress LzfStream Chunk Effects Sql SqlConn SqlRows Pk Cache CacheProofs CacheModes CacheModesProofs.

#[local] Opaque Fips180.sha1.

(** What validate_cache is given: an open cache with its previous version attached. *)
Record to_check (s : pk_state) (m p : gmap Z key_row) (t : gmap Z Z) (ver : Z) : Prop := mk_to_check {
  tc_idle : idle (data (conn s)) (conn s);
  tc_main : main_keys (data (conn s)) = Some m;
  tc_prev : prev_keys (data (conn s)) = Some p;
  tc_cache : cache (data (conn s)) = Some (mk_index ver (Some t));
  tc_int_main : int_keys m;
  tc_int_table : int_keys t;
  tc_geometry : geometry s;
  tc_bytes : bytes (cache_content s);
  tc_chunks : chunks (parcel s) <= 2 ^ 31
}.

(** The keyring, the cache index and the data agree. *)
Record consistent (s : pk_state) (m p : gmap Z key_row) (t : gmap Z Z) : Prop := mk_consistent {
  cs_keyring : keyring_ok (parcel s) m;
  cs_present c row : m !! c = Some row -> tag_differs p (c, row) = true -> is_Some (t !! c);
  cs_length c n : t !! c = Some n -> u32 c <= chunks (parcel s) /\ 0 < u32 n <= chunksize (parcel s);
  cs_tag c n : t !! c = Some n -> exists row, m !! c = Some row /\ Z.of_nat (length (kr_tag row)) = hashlen (parcel s);
  cs_data c n row : t !! c = Some n -> m !! c = Some row -> covered s (u32 c) (u32 n) ->
    intact s (u32 c) (u32 n) (kr_tag row)
}.

(** The cache file has all bytes of every cached chunk. *)
Definition all_covered (s : pk_state) (t : gmap Z Z) : Prop := forall c n, t !! c = Some n -> covered s (u32 c) (u32 n).

(** The rows that validate_cachefile looks at say the same. *)
Lemma consistent_rows s m p t :
  keyring_ok (parcel s) m ->
  consistent s m p t <-> missing m p t = [] /\ forall r, r ∈ cached m t -> plausible s r /\ ~ corrupt s r.
Proof.
  intros Hk. split.
  - intros [_ Hpres Hlen Htag Hdata]. split.
    + destruct (missing m p t) as [|c l] eqn:Hmiss; [done|]. assert (c ∈ missing m p t) as Hc by (rewrite Hmiss; by left).
      apply elem_of_missing in Hc as (Hnone & row & Hrow & Hd). destruct (Hpres c row Hrow Hd) as [n Hn]. congruence.
    + intros [[c n] o] [Ht Ho]%elem_of_cached. simpl in *. destruct (Htag c n Ht) as (row & Hrow & Hl). rewrite Hrow in Ho. simpl in Ho.
      subst o. split.
      * split; [by apply (Hlen c n)|]. split; [by apply (Hlen c n)|]. by exists (kr_tag row).
      * intros (tag & [= <-] & Hcov & Hbad). apply Hbad. by eapply Hdata.
  - intros [Hmiss Hrows].
    assert (forall c n, t !! c = Some n -> (c, n, kr_tag <$> m !! c) ∈ cached m t) as Hin by (intros; by apply elem_of_cached).
    split; [done| | | |].
    + intros c row Hrow Hd. destruct (t !! c) as [n|] eqn:Ht; [done|].
      assert (c ∈ missing m p t) as Hc by (apply elem_of_missing; eauto). rewrite Hmiss in Hc. by apply not_elem_of_nil in Hc.
    + intros c n Ht. destruct (Hrows _ (Hin c n Ht)) as [(? & ? & _) _]. done.
    + intros c n Ht. destruct (Hrows _ (Hin c n Ht)) as [(_ & _ & tag & Htag & Hl) _]. simpl in Htag.
      destruct (m !! c) as [row|]; [|done]. injection Htag as <-. by exists row.
    + intros c n row Ht Hrow Hcov. destruct (Hrows _ (Hin c n Ht)) as [_ Hgood]. rewrite Hrow in Hgood. simpl in Hgood.
      unfold intact. destruct (decide (Fips180.sha1 (slot s (u32 c) (Z.to_nat (u32 n))) = kr_tag row)) as [?|Hne]; [done|].
      destruct Hgood. exists (kr_tag row). by split_and!.
Qed.

(** The chunks come in the order of their numbers, which is that of their places in the cache file: when all
    of the last one is there, so are the others. *)
Lemma last_covered s m p t :
  consistent s m p t -> geometry s -> int_keys t ->
  (forall r, last (cached m t) = Some r -> covered s (u32 r.1.1) (u32 r.1.2)) -> all_covered s t.
Proof.
  intros Hcons Hg Hti Hlast c n Ht.
  assert (forall c n, t !! c = Some n -> u32 c = c /\ 0 < u32 n <= chunksize (parcel s) /\ 0 <= c) as Hnum.
  { intros c' n' Ht'. destruct (cs_tag _ _ _ _ Hcons c' n' Ht') as (row & Hrow & _).
    pose proof (ko_range _ _ (cs_keyring _ _ _ _ Hcons) c' row Hrow). specialize (Hti c' ltac:(eauto)).
    destruct (cs_length _ _ _ _ Hcons c' n' Ht'). split; [|lia]. apply Z.mod_small. lia. }
  assert ((c, n) ∈ table_rows t) as Hin by (by apply elem_of_table_rows).
  destruct (last (table_rows t)) as [[c' n']|] eqn:Hl; [|apply last_None in Hl; rewrite Hl in Hin; by apply not_elem_of_nil in Hin].
  specialize (Hlast (c', n', kr_tag <$> m !! c')). unfold cached in Hlast. rewrite fmap_last, Hl in Hlast.
  specialize (Hlast eq_refl). cbn [fst snd] in Hlast.
  apply last_Some in Hl as [l Hl]. assert (t !! c' = Some n') as Ht'.
  { apply elem_of_table_rows. rewrite Hl. apply elem_of_app. right. by left. }
  rewrite Hl in Hin. apply elem_of_app in Hin as [Hin|Hin].
  2:{ apply list_elem_of_singleton in Hin. congruence. }
  assert (c < c') as Hlt.
  { pose proof (table_rows_lt t) as Hs. rewrite Hl, fmap_app in Hs.
    apply (StronglySorted_app_1_elem_of _ _ _ _ _ Hs); [|by left]. apply list_elem_of_fmap. by exists (c, n). }
  destruct (Hnum c n Ht) as (Hc & Hn & Hc0), (Hnum c' n' Ht') as (Hc' & Hn' & _). revert Hlast.
  unfold covered, slot, range, cache_chunk_to_offset. rewrite !length_take, !length_drop, Hc, Hc'.
  pose proof (g_chunksize s Hg). pose proof (g_offset s Hg). unfold is_u in *.
  assert (chunksize (parcel s) * c + chunksize (parcel s) <= chunksize (parcel s) * c') by nia. lia.
Qed.

Section verdict.
Context (check : dbs -> list bool) (s : pk_state) (m p : gmap Z key_row) (t : gmap Z Z) (ver : Z) (Hs : to_check s m p t ver).
Local Abbreviation d0 := (data (conn s)).
Local Abbreviation fs0 := (faults (conn s)).
Local Abbreviation full := (has_flag (flags (conf s)) WANT_FULL_CHECK).
Local Abbreviation splice := (has_flag (flags (conf s)) WANT_SPLICE).

(** When validate_cachefile has been run to its end, with the databases as [d1] before. *)
Definition checked (d1 : dbs) (ok1 : bool) (err : pk_err) (v : vstate) : Prop :=
  (d1 = d0 \/ d1 = set_keys_tags (Some true) d0 /\ ok1 = false) /\ cachefile_post s d1 m p t ver fs0 ok1 err v.

Definition checks_post (err : pk_err) (v : vstate) : Prop :=
  reads s v /\ within fs0 (get_db v) /\
  (head (check d0) = Some true /\ keyring_ok (parcel s) m /\ checked d0 true err v \/
   (v_ok v = false \/ err <> PK_SUCCESS) /\
   (Forall contention fs0 -> head (check d0) = Some true ->
      err = PK_INVALID /\ v_ok v = false /\ ~ keyring_ok (parcel s) m /\ idle d0 (get_db v))).

Lemma looks_reads v : looks s v -> reads s v.
Proof. intros [b Hv]. exists b, (io s). split; [|done]. rewrite Hv. by destruct s. Qed.

Lemma run_checks_ok : exists err v, run_checks check (mk_vstate s true PK_SUCCESS 0) = Some (err, v) /\ checks_post err v.
Proof.
  destruct Hs as [Hidle Hm Hp Hc Hmi Hti Hg Hb Hch]. unfold run_checks. set (v0 := mk_vstate _ _ _ _).
  assert (looks s v0) as Hl0 by (exists (conn s); by destruct s).
  destruct (validate_sqlite_ok check s fs0 d0 v0) as (err & v1 & -> & Hl1 & Hw1 & d1 & Hi1 & Hd1 & Hyes & Hfair); [done|done|apply within_refl|].
  cbn [mbind option_bind]. destruct (decide (err <> PK_SUCCESS)) as [Herr|Herr].
  { eexists _, _. split; [done|]. split; [by apply looks_reads|]. split; [done|]. right. split; [by right|].
    intros Hcont Hh. by destruct (Hfair Hh Hcont) as (? & _). }
  assert (main_keys d1 = Some m /\ prev_keys d1 = Some p /\ cache d1 = Some (mk_index ver (Some t))) as (Hm1 & Hp1 & Hc1).
  { by destruct Hd1 as [->|[-> _]]. }
  destruct (validate_keyring_ok s d1 m fs0 Hm1 Hmi Hch (v_ok v1) v1) as (err2 & v2 & -> & Hi2 & Hw2 & Hl2 & Hcase); try done.
  cbn [mbind option_bind]. destruct (decide (err2 <> PK_SUCCESS)) as [Herr2|Herr2].
  { eexists _, _. split; [done|]. split; [by apply looks_reads|]. split; [done|]. right. split; [by right|].
    intros Hcont Hh. destruct (Hfair Hh Hcont) as (_ & _ & ->). destruct Hcase as [(-> & _)|[(-> & ? & ?)|(_ & Hn & _)]]; by split_and!. }
  apply dec_stable in Herr2 as ->. destruct Hcase as [(_ & Hok2 & Hk)|[(? & _)|(? & _)]]; [|done|done].
  destruct (validate_cachefile_ok s d1 m p t ver Hm1 Hp1 Hc1 Hmi Hti fs0 (v_ok v1) Hg Hb v2) as (err3 & v3 & -> & Hpost); try done.
  { split; [by apply looks_reads|]. split; [congruence|]. intros Hf. left. congruence. }
  pose proof Hpost as [Hw3 Hcase3]. assert (cachefile_inv s m p t (v_ok v1) v3) as Hinv3 by (destruct Hcase3 as [(? & _ & [? _] & _)|(_ & ? & _)]; done).
  eexists _, _. split; [done|]. split; [apply Hinv3|]. split; [done|]. destruct (v_ok v1) eqn:Hok1.
  - destruct (Hyes eq_refl) as (_ & Hh & _). destruct Hd1 as [->|[_ ?]]; [|done]. left. split; [done|]. split; [done|]. by split; [left|].
  - right. split.
    + left. destruct (v_ok v3) eqn:Hok3; [|done]. by apply Hinv3 in Hok3.
    + intros Hcont Hh. by destruct (Hfair Hh Hcont) as (_ & ? & _).
Qed.

Lemma not_flawed : keyring_ok (parcel s) m -> consistent s m p t -> ~ flawed s m p t.
Proof.
  intros Hk [Hmiss Hrows]%(consistent_rows s m p t Hk) [Hn|(r & Hr & Hbad)]; [done|].
  destruct (Hrows r Hr) as [? ?]. by destruct Hbad as [?|(_ & _ & ?)].
Qed.

(** Nothing was found: the cache is consistent, and nothing has been changed. *)
Lemma checked_sound v :
  io s = [] -> full = true -> keyring_ok (parcel s) m -> checked d0 true PK_SUCCESS v -> v_ok v = true ->
  consistent s m p t /\ idle d0 (get_db v) /\ forall r, last (cached m t) = Some r -> covered s (u32 r.1.1) (u32 r.1.2).
Proof.
  intros Hio Hfull Hk [_ [_ [(d & Hi & [_ (past & B & Hd & Hdd & HB & _ & Hgood & _ & Hlast)] & Hret)|(_ & _ & [? _])]]] Hok; [|done].
  destruct (Hgood Hok) as [Hmiss Hrows]. rewrite app_nil_r in Hd. rewrite <- Hd in *.
  split. { apply consistent_rows; [done|]. split; [done|]. intros r Hr. destruct (Hrows r Hr). split; auto. }
  split; [|intros r Hr; by apply Hlast].
  assert (B = []) as ->.
  { destruct B as [|c B]; [done|]. destruct (HB c) as (_ & _ & r & Hr & _ & _ & Hcor); [by left|].
    destruct (Hrows r Hr) as [_ Hgd]. by destruct (Hgd Hio Hfull). }
  assert (spliced d0 m p t ver [] = d0) as Hnil by (apply spliced_nil; apply Hs).
  subst d. rewrite Hmiss in Hi. destruct splice; cbn [app] in Hi; by rewrite Hnil in Hi.
Qed.

(** Nothing is there to be found. *)
Lemma checked_complete err v :
  io s = [] -> Forall contention fs0 -> consistent s m p t -> all_covered s t -> checked d0 true err v ->
  err = PK_SUCCESS /\ v_ok v = true.
Proof.
  intros Hio Hcont Hcons Hcov [_ [_ Hcase]]. pose proof (cs_keyring _ _ _ _ Hcons) as Hk.
  pose proof (not_flawed Hk Hcons) as Hnf. pose proof Hcons as [Hmiss Hrows]%(consistent_rows s m p t Hk).
  destruct Hcase as [(d & Hi & [Hinv (past & B & Hd & Hdd & _ & _ & _ & Hret & _)] & ->)|(_ & _ & [_ Hn])]; [|done].
  split.
  - apply Hret; [done|done|]. intros r Hr. destruct (Hrows r Hr) as [? ?]. split; [done|]. split; [|done].
    apply elem_of_cached in Hr as [Ht _]. by apply Hcov.
  - destruct (v_ok v) eqn:Hok; [done|]. destruct Hinv as (_ & _ & Hf). by destruct (Hf Hok) as [?|?].
Qed.

(** Something is there, and is found. *)
Lemma checked_finds err v :
  io s = [] -> full = true -> Forall contention fs0 -> keyring_ok (parcel s) m -> ~ consistent s m p t -> checked d0 true err v ->
  v_ok v = false.
Proof.
  intros Hio Hfull Hcont Hk Hbad [_ [_ Hcase]]. destruct (v_ok v) eqn:Hok; [|done]. destruct Hbad. apply consistent_rows; [done|].
  destruct Hcase as [(d & Hi & [Hinv (past & B & Hd & Hdd & _ & _ & Hgood & _)] & ->)|(_ & _ & [_ Hn])]; [|done].
  rewrite app_nil_r in Hd. rewrite <- Hd in Hgood. destruct (Hgood Hok) as [Hmiss Hrows]. split; [done|].
  intros r Hr. destruct (Hrows r Hr). split; auto.
Qed.
End verdict.

(** ** The flags *)

(** Writing the flags of the cache file, which changes nothing else. *)
Lemma cache_set_flags_spec f s :
  exists err s', cache_set_flags f s = Some (err, s') /\ conn s' = conn s /\ conf s' = conf s /\ parcel s' = parcel s /\
    cache_fd s' = cache_fd s /\ cache_flags s' = (if decide (err = PK_SUCCESS) then f else cache_flags s) /\
    (io s = [] -> cache_fd s = true -> has_flag (flags (conf s)) WANT_LOCK = true -> err = PK_SUCCESS /\ io s' = []).
Proof.
  unfold cache_set_flags, body. rewrite !bind_gets. destruct (has_flag (flags (conf s)) WANT_LOCK); simpl negb; cbv iota.
  2:{ eexists _, _. split; [done|]. by split_and!. }
  destruct (cache_fd s) eqn:Hfd; simpl negb; cbv iota.
  2:{ eexists _, _. split; [done|]. by split_and!. }
  unfold pwrite, io_ok, mbind, pk_mbind, pk_bind, next_io, modify, ret, pk_ret.
  destruct (io s) as [|o rest] eqn:Hio.
  - cbn -[STORE32H file_write Z.to_nat]. rewrite Hio. cbn -[STORE32H file_write Z.to_nat]. rewrite take_ge, decide_False by (rewrite ?length_STORE32H; lia).
    cbn -[STORE32H file_write Z.to_nat]. rewrite Hio. cbn -[STORE32H file_write Z.to_nat].
    eexists _, _. split; [done|]. by split_and!.
  - cbn -[STORE32H file_write Z.to_nat]. rewrite Hio. cbn -[STORE32H file_write Z.to_nat]. destruct (decide (Z.of_nat _ <> 4)).
    { eexists _, _. split; [done|]. by split_and!. }
    cbn -[STORE32H file_write Z.to_nat]. destruct rest as [|[k|] rest]; (eexists _, _; split; [done|]); by split_and!.
Qed.

(** The flags that the two functions give. *)
Lemma flag_set f flag s : cache_flags s = Z.lor f flag -> cache_test_flag s flag = true.
Proof.
  intros Hf. unfold cache_test_flag. apply bool_decide_eq_true. rewrite Hf. apply Z.bits_inj'. intros i Hi.
  rewrite Z.land_spec, Z.lor_spec. by destruct (Z.testbit f i), (Z.testbit flag i).
Qed.

Lemma dirty_cleared f s : cache_flags s = Z.land f (u32 (Z.lnot CA_F_DIRTY)) -> cache_test_flag s CA_F_DIRTY = false.
Proof.
  intros Hf. unfold cache_test_flag. apply bool_decide_eq_false. rewrite Hf, <- Z.land_assoc.
  change (Z.land (u32 (Z.lnot CA_F_DIRTY)) CA_F_DIRTY) with 0. by rewrite Z.land_0_r.
Qed.

Lemma damaged_kept f s :
  cache_flags s = Z.land (Z.lor f CA_F_DAMAGED) (u32 (Z.lnot CA_F_DIRTY)) -> cache_test_flag s CA_F_DAMAGED = true.
Proof.
  intros Hf. unfold cache_test_flag. apply bool_decide_eq_true. rewrite Hf, <- Z.land_assoc.
  change (Z.land (u32 (Z.lnot CA_F_DIRTY)) CA_F_DAMAGED) with CA_F_DAMAGED. apply Z.bits_inj'. intros i Hi.
  rewrite Z.land_spec, Z.lor_spec. by destruct (Z.testbit f i), (Z.testbit CA_F_DAMAGED i).
Qed.

(** The cache file is open for writing, and no file operation fails. *)
Definition writable (s : pk_state) : Prop :=
  io s = [] /\ cache_fd s = true /\ has_flag (flags (conf s)) WANT_LOCK = true.

Lemma finish_ok err ok s :
  exists r s', finish_validation err ok s = Some (r, s') /\ conn s' = conn s /\ (r = 0 <-> ok = true /\ err = PK_SUCCESS) /\
    (writable s -> r = 0 -> has_flag (flags (conf s)) WANT_FULL_CHECK = true -> cache_test_flag s' CA_F_DIRTY = false) /\
    (writable s -> ok = false -> cache_test_flag s' CA_F_DAMAGED = true /\ cache_test_flag s' CA_F_DIRTY = false).
Proof.
  unfold finish_validation. destruct (decide (ok = true /\ err = PK_SUCCESS)) as [Hboth|Hnot].
  - destruct (cache_test_flag s CA_F_DIRTY) eqn:Hd; simpl andb; [destruct (has_flag (flags (conf s)) WANT_FULL_CHECK) eqn:Hf|]; simpl.
    + destruct (cache_set_flags_spec (Z.land (cache_flags s) (u32 (Z.lnot CA_F_DIRTY))) s) as (e & s' & Hr & Hcn & _ & _ & _ & Hfl & Hok).
      unfold cache_clear_flag. rewrite Hr. cbn [mbind option_bind]. eexists _, _. split; [done|]. split_and!; try done.
      * intros (Hio & Hfd & Hl) _ _. destruct (Hok Hio Hfd Hl) as [-> _]. by apply (dirty_cleared (cache_flags s)).
      * by intros _ ->; destruct Hboth.
    + eexists _, _. split; [done|]. split_and!; try done. by intros _ ->; destruct Hboth.
    + eexists _, _. split; [done|]. split_and!; try done. by intros _ ->; destruct Hboth.
  - destruct ok; simpl.
    { eexists _, _. split; [done|]. split_and!; done. }
    destruct (cache_set_flags_spec (Z.lor (cache_flags s) CA_F_DAMAGED) s) as (e & s1 & Hr & Hcn & Hcf & _ & Hfd1 & Hfl & Hok).
    unfold cache_set_flag. rewrite Hr. cbn [mbind option_bind]. destruct (decide (e = PK_SUCCESS)) as [->|He].
    + destruct (cache_set_flags_spec (Z.land (cache_flags s1) (u32 (Z.lnot CA_F_DIRTY))) s1) as (e2 & s2 & Hr2 & Hcn2 & _ & _ & _ & Hfl2 & Hok2).
      unfold cache_clear_flag. rewrite Hr2. cbn [mbind option_bind]. eexists _, _. split; [done|].
      split; [congruence|]. split; [by split; [|intros [? _]]|]. split; [done|]. intros (Hio & Hfd & Hl) _. destruct (Hok Hio Hfd Hl) as [_ Hio1].
      destruct Hok2 as [-> _]; [done|congruence|by rewrite Hcf|]. rewrite decide_True in Hfl2 by done. rewrite Hfl in Hfl2.
      split; [by apply (damaged_kept (cache_flags s))|by eapply dirty_cleared].
    + eexists _, _. split; [done|]. split; [done|]. split; [by split; [|intros [? _]]|]. split; [done|].
      intros (Hio & Hfd & Hl) _. destruct (Hok Hio Hfd Hl) as [? _]. done.
Qed.

(** ** The whole check *)

Lemma validate_cache_ok check s m p t ver :
  to_check s m p t ver -> has_flag (flags (conf s)) WANT_CHECK = false ->
  exists err v r s', validate_cache check s = Some (r, s') /\ checks_post check s m p t ver err v /\
    conn s' = get_db v /\ (r = 0 <-> v_ok v = true /\ err = PK_SUCCESS) /\
    (io s = [] -> cache_fd s = true -> has_flag (flags (conf s)) WANT_LOCK = true ->
       (r = 0 -> has_flag (flags (conf s)) WANT_FULL_CHECK = true -> cache_test_flag s' CA_F_DIRTY = false) /\
       (v_ok v = false -> cache_test_flag s' CA_F_DAMAGED = true /\ cache_test_flag s' CA_F_DIRTY = false)).
Proof.
  intros Hs Hw. unfold validate_cache. rewrite Hw. destruct (run_checks_ok check s m p t ver Hs) as (err & v & -> & Hpost).
  cbn [mbind option_bind]. destruct (finish_ok err (v_ok v) (v_pk v)) as (r & s' & -> & Hcn & Hr & H0 & H1).
  exists err, v, r, s'. split; [done|]. split; [done|]. split; [done|]. split; [done|]. intros Hio Hfd Hl.
  destruct Hpost as [(b & l & Hpk & Hsuf) _]. rewrite Hio in Hsuf. apply suffix_nil_inv in Hsuf as ->.
  assert (writable (v_pk v)) as Hwr by (rewrite Hpk; by split_and!). split.
  - intros -> Hf. apply H0; [done|done|]. by rewrite Hpk.
  - by apply H1.
Qed.

(** What has to be reverted: a modified chunk that is not there, or one with the wrong data. *)
Definition bad_chunk (s : pk_state) (m p : gmap Z key_row) (t : gmap Z Z) (c : Z) : Prop :=
  match t !! c with
  | None => exists row, m !! c = Some row /\ tag_differs p (c, row) = true
  | Some n => exists row, m !! c = Some row /\ covered s (u32 c) (u32 n) /\ ~ intact s (u32 c) (u32 n) (kr_tag row)
  end.

(** The databases afterwards. *)
Record repaired (s : pk_state) (m p : gmap Z key_row) (t : gmap Z Z) (m' : gmap Z key_row) (t' : gmap Z Z) : Prop := mk_repaired {
  rp_bad c : bad_chunk s m p t c -> t' !! c = None /\ forall row, p !! c = Some row -> m' !! c = Some row;
  rp_other c : ~ bad_chunk s m p t c -> t' !! c = t !! c /\ m' !! c = m !! c
}.

Section repair.
Context (s : pk_state) (m p : gmap Z key_row) (t : gmap Z Z) (B : list Z).
Context (Hm : keyring_ok (parcel s) m) (Hp : forall c row, p !! c = Some row -> row_fits (parcel s) row).
Context (Hplaus : forall r, r ∈ cached m t -> plausible s r).
Context (HB : forall c, c ∈ B <-> bad_chunk s m p t c).

Local Abbreviation m' := (filter (fun kv => kv.1 ∈ B) p ∪ m).
Local Abbreviation t' := (filter (fun kv => ~ kv.1 ∈ B) t).

Lemma spliced_keys c : m' !! c = if decide (c ∈ B) then (match p !! c with Some row => Some row | None => m !! c end) else m !! c.
Proof.
  case_decide as Hc.
  - destruct (p !! c) as [row|] eqn:Hpc.
    + apply lookup_union_Some_l, map_lookup_filter_Some. by split.
    + apply lookup_union_r, map_lookup_filter_None. by left.
  - apply lookup_union_r, map_lookup_filter_None. right. by intros row _ Hin.
Qed.

Lemma spliced_lengths c : t' !! c = if decide (c ∈ B) then None else t !! c.
Proof.
  case_decide as Hc.
  - apply map_lookup_filter_None. right. intros n _ Hn. by apply Hn.
  - apply option_eq. intros n. rewrite map_lookup_filter_Some. by split; [intros [? _]|].
Qed.

Lemma bad_in_keyring c : c ∈ B -> is_Some (m !! c).
Proof. rewrite HB. unfold bad_chunk. destruct (t !! c); intros (row & Hrow & _); eauto. Qed.

Lemma spliced_repaired : repaired s m p t m' t'.
Proof.
  split; intros c; rewrite <- HB; intros Hc; rewrite spliced_keys, spliced_lengths.
  - rewrite !decide_True by done. split; [done|]. by intros row ->.
  - by rewrite !decide_False.
Qed.

Lemma spliced_dom c : is_Some (m' !! c) <-> is_Some (m !! c).
Proof.
  rewrite spliced_keys. case_decide as Hc; [|done]. pose proof (bad_in_keyring c Hc). destruct (p !! c); [|done]. by split.
Qed.

Lemma spliced_keyring : keyring_ok (parcel s) m'.
Proof.
  destruct Hm as [Hrange Hfits Hgaps].
  assert (forall c row, m' !! c = Some row -> is_Some (m !! c)) as Hdom by (intros; apply spliced_dom; eauto). split.
  - intros c row Hrow. destruct (Hdom c row Hrow) as [r Hr]. by eapply Hrange.
  - intros c row. rewrite spliced_keys. case_decide; [destruct (p !! c) as [r|] eqn:Hpc|]; [|by apply Hfits..].
    intros [= <-]. by eapply Hp.
  - intros c c' Hc [row Hrow]. apply spliced_dom. apply (Hgaps c c' Hc). by eapply Hdom.
Qed.

Lemma spliced_consistent : consistent s m' p t'.
Proof.
  assert (forall c row, m' !! c = Some row -> tag_differs p (c, row) = true -> ~ c ∈ B /\ m !! c = Some row) as Hmod.
  { intros c row. rewrite spliced_keys. unfold tag_differs. simpl. case_decide as Hc; [|done]. destruct (p !! c) as [r|] eqn:Hpc; [|done].
    intros [= ->]. by rewrite bool_decide_eq_true. }
  assert (forall c n, t' !! c = Some n -> ~ c ∈ B /\ t !! c = Some n /\ m' !! c = m !! c) as Hkept.
  { intros c n. rewrite spliced_lengths, spliced_keys. by case_decide. }
  split.
  - apply spliced_keyring.
  - intros c row Hrow Hd. destruct (Hmod c row Hrow Hd) as [Hn Hr]. rewrite spliced_lengths, decide_False by done.
    destruct (t !! c) as [n|] eqn:Ht; [done|]. destruct Hn. apply HB. unfold bad_chunk. rewrite Ht. eauto.
  - intros c n (_ & Ht & _)%Hkept. assert ((c, n, kr_tag <$> m !! c) ∈ cached m t) as Hin by (by apply elem_of_cached).
    by destruct (Hplaus _ Hin) as (? & ? & _).
  - intros c n (_ & Ht & ->)%Hkept. assert ((c, n, kr_tag <$> m !! c) ∈ cached m t) as Hin by (by apply elem_of_cached).
    destruct (Hplaus _ Hin) as (_ & _ & tag & Htag & Hl). simpl in Htag. destruct (m !! c) as [row|]; [|done].
    injection Htag as <-. eauto.
  - intros c n row (Hn & Ht & Hr)%Hkept Hrow Hcov. rewrite Hr in Hrow.
    unfold intact. destruct (decide (Fips180.sha1 (slot s (u32 c) (Z.to_nat (u32 n))) = kr_tag row)) as [?|Hne]; [done|].
    destruct Hn. apply HB. unfold bad_chunk. rewrite Ht. eauto.
Qed.
End repair.

Lemma consistent_not_bad s m p t c : consistent s m p t -> ~ bad_chunk s m p t c.
Proof.
  unfold bad_chunk. intros [_ Hpres _ _ Hdata]. destruct (t !! c) as [n|] eqn:Ht.
  - intros (row & Hrow & Hcov & Hbad). by apply Hbad, (Hdata c n row).
  - intros (row & Hrow & Hd). destruct (Hpres c row Hrow Hd) as [n Hn]. congruence.
Qed.

Lemma not_bad_consistent s m p t :
  keyring_ok (parcel s) m -> (forall r, r ∈ cached m t -> plausible s r) -> (forall c, ~ bad_chunk s m p t c) ->
  consistent s m p t.
Proof.
  intros Hk Hpl Hnone. apply consistent_rows; [done|]. split.
  - destruct (missing m p t) as [|c l] eqn:Hmiss; [done|]. assert (c ∈ missing m p t) as Hc by (rewrite Hmiss; by left).
    apply elem_of_missing in Hc as (Hn & row & Hrow & Hd). destruct (Hnone c). unfold bad_chunk. rewrite Hn. eauto.
  - intros r Hr. split; [by apply Hpl|]. intros (tag & Htag & Hcov & Hbad).
    apply elem_of_cached in Hr as [Ht Ho]. apply (Hnone r.1.1). unfold bad_chunk. rewrite Ht. rewrite Ho in Htag.
    destruct (m !! r.1.1) as [row|]; [|done]. injection Htag as <-. eauto.
Qed.

(** The chunks that a full check without failures reverts are the bad ones. *)
Lemma reverted_bad s m p t B c :
  (forall r, r ∈ cached m t -> plausible s r) ->
  (forall c, c ∈ B -> exists r, r ∈ cached m t /\ r.1.1 = c /\ plausible s r /\ corrupt s r) ->
  (forall r, r ∈ cached m t -> plausible s r -> corrupt s r -> r.1.1 ∈ B) ->
  c ∈ missing m p t ++ B <-> bad_chunk s m p t c.
Proof.
  intros Hpl HB Hall. rewrite elem_of_app, elem_of_missing. unfold bad_chunk. destruct (t !! c) as [n|] eqn:Ht.
  - split.
    + intros [[? _]|Hin]; [done|]. destruct (HB c Hin) as (r & [Hr Ho]%elem_of_cached & <- & _ & tag & Htag & Hcov & Hbad).
      rewrite Hr in Ht. injection Ht as <-. rewrite Ho in Htag. destruct (m !! r.1.1) as [row|]; [|done]. injection Htag as <-. eauto.
    + intros (row & Hrow & Hcov & Hbad). right.
      assert ((c, n, kr_tag <$> m !! c) ∈ cached m t) as Hin by (by apply elem_of_cached).
      apply (Hall (c, n, kr_tag <$> m !! c)); [done|by apply Hpl|]. rewrite Hrow. exists (kr_tag row). by split_and!.
  - split; [intros [[_ ?]|Hin]|]; [done| |by left].
    destruct (HB c Hin) as (r & [Hr _]%elem_of_cached & <- & _). congruence.
Qed.

(** * Properties *)

(** C7: when validate_cache with a full check answers 0, and no file operation fails, the keyring has all
    entries up to its last and they fit, every modified chunk is in the cache, and every cached chunk is
    there in full and has the data that its tag says, also if the cache file is too short for some, and whatever
    fails in the databases; these are unchanged, and the cache is no longer marked dirty. *)
Theorem validate_cache_sound check s m p t ver :
  to_check s m p t ver -> has_flag (flags (conf s)) WANT_CHECK = false ->
  has_flag (flags (conf s)) WANT_FULL_CHECK = true -> io s = [] ->
  exists r s', validate_cache check s = Some (r, s') /\
    (r = 0 -> consistent s m p t /\ head (check (data (conn s))) = Some true /\ idle (data (conn s)) (conn s') /\
       (forall c n, t !! c = Some n -> covered s (u32 c) (u32 n) /\
          exists row, m !! c = Some row /\ intact s (u32 c) (u32 n) (kr_tag row)) /\
       (cache_fd s = true -> has_flag (flags (conf s)) WANT_LOCK = true -> cache_test_flag s' CA_F_DIRTY = false)).
Proof.
  intros Hs Hw Hf Hio. destruct (validate_cache_ok check s m p t ver Hs Hw) as (err & v & r & s' & Hr & Hpost & Hcn & Hzero & Hfl).
  exists r, s'. split; [done|]. intros Hr0. destruct (proj1 Hzero Hr0) as [Hok ->].
  destruct Hpost as (_ & _ & [(Hh & Hk & Hch)|([Hn|Hn] & _)]); [|congruence|done].
  destruct (checked_sound s m p t ver Hs v Hio Hf Hk Hch Hok) as (Hcons & Hi & Hlast). rewrite <- Hcn in Hi.
  split; [done|]. split; [done|]. split; [done|]. split.
  - intros c n Ht. assert (covered s (u32 c) (u32 n)) as Hcov.
    { apply (last_covered s m p t Hcons); [apply Hs|apply Hs|exact Hlast|done]. }
    destruct (cs_tag _ _ _ _ Hcons c n Ht) as (row & Hrow & _). split; [done|]. exists row. split; [done|].
    by apply (cs_data _ _ _ _ Hcons c n row).
  - intros Hfd Hl. destruct (Hfl Hio Hfd Hl) as [H0 _]. by apply H0.
Qed.

(** C5: without other failures than contention, and with the data of all cached chunks there to be read, a full
    check answers 0 exactly if keyring, index and data agree; if not it marks the cache as damaged, and no
    longer as dirty. *)
Theorem validate_cache_exact check s m p t ver :
  to_check s m p t ver -> has_flag (flags (conf s)) WANT_CHECK = false ->
  has_flag (flags (conf s)) WANT_FULL_CHECK = true -> writable s -> Forall contention (faults (conn s)) ->
  head (check (data (conn s))) = Some true -> all_covered s t ->
  exists r s', validate_cache check s = Some (r, s') /\ (r = 0 <-> consistent s m p t) /\
    cache_test_flag s' CA_F_DIRTY = false /\ (~ consistent s m p t -> cache_test_flag s' CA_F_DAMAGED = true).
Proof.
  intros Hs Hw Hf (Hio & Hfd & Hl) Hcont Hh Hcov.
  destruct (validate_cache_ok check s m p t ver Hs Hw) as (err & v & r & s' & Hr & Hpost & Hcn & Hzero & Hfl).
  destruct (Hfl Hio Hfd Hl) as [H0 H1]. exists r, s'. split; [done|].
  destruct Hpost as (_ & _ & [(_ & Hk & Hch)|(_ & Hbad)]).
  - assert (consistent s m p t -> r = 0) as Hyes.
    { intros Hc. apply Hzero. destruct (checked_complete s m p t ver err v Hio Hcont Hc Hcov Hch). done. }
    assert (~ consistent s m p t -> v_ok v = false) as Hno by (intros Hc; by apply (checked_finds s m p t ver err v)).
    assert (r = 0 -> consistent s m p t) as Hzc.
    { intros Hr0. destruct (proj1 Hzero Hr0) as [Hok ->]. by apply (checked_sound s m p t ver Hs v). }
    split; [done|]. split; [|intros Hc; by apply H1, Hno].
    destruct (v_ok v) eqn:Hok; [|by apply H1]. destruct (decide (err = PK_SUCCESS)) as [->|He]; [by apply H0; [apply Hzero|]|].
    exfalso. apply He. assert (consistent s m p t -> False) as Hnc.
    { intros Hc. by destruct (proj1 Hzero (Hyes Hc)). }
    by specialize (Hno Hnc).
  - destruct (Hbad Hcont Hh) as (-> & Hok & Hnk & _). destruct (H1 Hok) as [Hdam Hdir].
    split; [|split; [exact Hdir|by intros _]]. split; [intros [? _]%Hzero; congruence|]. intros [Hk _ _ _ _]. done.
Qed.


(** ** A small cache: two chunks of 64 zeros *)

Definition zeros_tag : list Z := Fips180.sha1 (replicate 64 0).
Definition good_row : key_row := mk_key_row zeros_tag (replicate 20 0) IU_CHUNK_COMP_NONE.

Definition demo_check (m p : gmap Z key_row) (t : gmap Z Z) (l : list (option nat)) : pk_state :=
  mk_state (mk_config (Z.lor (Z.lor WANT_LOCK WANT_CACHE) (Z.lor WANT_FULL_CHECK WANT_SPLICE)) IU_CHUNK_COMP_LZF 1)
    (parcel demo) true None
    (mk_db (mk_dbs (Some m) (Some p) (Some (mk_index CA_INDEX_VERSION (Some t))) (Some true) None) None
       [Some (F_BUSY, false)] false SQLITE_OK false 0)
    64 CA_F_DIRTY (fun _ => 0) (mk_files ∅ (Some true) ∅ (Some (replicate 192 0)) None) l.

Definition two {A} (a b : A) : gmap Z A := {[0 := a; 1 := b]}.
Definition no_message (d : dbs) : list bool := [true].

Lemma two_lookup {A} (a b : A) c x : two a b !! c = Some x -> c = 0 /\ x = a \/ c = 1 /\ x = b.
Proof. unfold two. intros [[<- <-]|[_ [<- <-]%lookup_singleton_Some]]%lookup_insert_Some; auto. Qed.

Lemma int_keys_two {A} (a b : A) : int_keys (two a b).
Proof. by intros c [x [[-> _]|[-> _]]%two_lookup]. Qed.

Lemma demo_to_check (a b : key_row) p n k l :
  to_check (demo_check (two a b) p (two n k) l) (two a b) p (two n k) CA_INDEX_VERSION.
Proof.
  split; [done|done|done|done|apply int_keys_two|apply int_keys_two| |by apply Forall_replicate|done].
  split; try done. right. by eexists.
Qed.

Lemma contention_once : Forall contention [Some (F_BUSY, false)].
Proof. by repeat constructor. Qed.

Lemma demo_keyring m p t l a b :
  Z.of_nat (length (kr_tag a)) = 20 -> Z.of_nat (length (kr_tag b)) = 20 -> Z.of_nat (length (kr_key a)) = 20 ->
  Z.of_nat (length (kr_key b)) = 20 -> kr_compression a = IU_CHUNK_COMP_NONE -> kr_compression b = IU_CHUNK_COMP_NONE ->
  keyring_ok (parcel (demo_check m p t l)) (two a b).
Proof.
  intros ? ? ? ? Ha Hb. split.
  - by intros c row [[-> _]|[-> _]]%two_lookup.
  - intros c row [[_ ->]|[_ ->]]%two_lookup; split_and!; try done; [rewrite Ha|rewrite Hb]; reflexivity.
  - intros c c' Hc [row [[-> _]|[-> _]]%two_lookup]; [lia|]. assert (c = 0) as -> by lia. by eexists.
Qed.

Lemma demo_covered m p l : all_covered (demo_check m p (two 64 64) l) (two 64 64).
Proof. intros c n [[-> ->]|[-> ->]]%two_lookup; reflexivity. Qed.

Lemma demo_plausible a b p l r :
  length (kr_tag a) = 20%nat -> length (kr_tag b) = 20%nat ->
  r ∈ cached (two a b) (two 64 64) -> plausible (demo_check (two a b) p (two 64 64) l) r.
Proof.
  intros Ha Hb [Ht Hr]%elem_of_cached. destruct r as [[c n] o]. simpl in *.
  apply two_lookup in Ht as [[-> ->]|[-> ->]]; (split; [done|]; split; [done|]); simpl; subst o.
  - exists (kr_tag a). split; [done|]. simpl. by rewrite Ha.
  - exists (kr_tag b). split; [done|]. simpl. by rewrite Hb.
Qed.

Definition answer {A} (x : option (Z * A)) : option Z := fst <$> x.

Lemma validate_cache_sound_witness : exists s',
  validate_cache no_message (demo_check (two good_row good_row) ∅ (two 64 64) []) = Some (0, s') /\
  intact (demo_check (two good_row good_row) ∅ (two 64 64) []) (u32 1) (u32 64) (kr_tag good_row).
Proof.
  assert (answer (validate_cache no_message (demo_check (two good_row good_row) ∅ (two 64 64) [])) = Some 0) as Hz
    by (vm_compute; reflexivity).
  destruct (validate_cache_sound no_message (demo_check (two good_row good_row) ∅ (two 64 64) [])
    (two good_row good_row) ∅ (two 64 64) CA_INDEX_VERSION) as (r & s' & Hr & Hsound).
  - apply demo_to_check.
  - reflexivity.
  - reflexivity.
  - reflexivity.
  - rewrite Hr in Hz. injection Hz as ->. exists s'. split; [exact Hr|].
    destruct (Hsound eq_refl) as (_ & _ & _ & Hall & _). destruct (Hall 1 64 eq_refl) as (_ & row & Hrow & Hint).
    injection Hrow as <-. exact Hint.
Defined.

Lemma validate_cache_exact_witness : exists r s',
  validate_cache no_message (demo_check (two good_row demo_row) ∅ (two 64 64) []) = Some (r, s') /\
  cache_test_flag s' CA_F_DIRTY = false.
Proof.
  destruct (validate_cache_exact no_message (demo_check (two good_row demo_row) ∅ (two 64 64) [])
    (two good_row demo_row) ∅ (two 64 64) CA_INDEX_VERSION) as (r & s' & Hr & _ & Hd & _).
  - apply demo_to_check.
  - reflexivity.
  - reflexivity.
  - split; [|split]; reflexivity.
  - apply contention_once.
  - reflexivity.
  - apply demo_covered.
  - exists r, s'. split; [exact Hr|exact Hd].
Defined.


(** A chunk that cannot be read is forgotten when the next one can be: with a failing read, a full check
    answers 0 and no longer marks the cache as dirty, although the chunk has the wrong data. *)
Theorem validate_cache_forgets_failed_read :
  exists s m t s', to_check s m ∅ t CA_INDEX_VERSION /\ has_flag (flags (conf s)) WANT_FULL_CHECK = true /\
    io s = [Some 0%nat] /\ all_covered s t /\ ~ consistent s m ∅ t /\ cache_test_flag s CA_F_DIRTY = true /\
    validate_cache no_message s = Some (0, s') /\ cache_test_flag s' CA_F_DIRTY = false.
Proof.
  set (s := demo_check (two demo_row good_row) ∅ (two 64 64) [Some 0%nat]).
  exists s, (two demo_row good_row), (two 64 64).
  assert (exists s', validate_cache no_message s = Some (0, s') /\ cache_test_flag s' CA_F_DIRTY = false) as (s' & ? & ?).
  { assert (match validate_cache no_message s with
            | Some (r, s') => bool_decide (r = 0) && negb (cache_test_flag s' CA_F_DIRTY) | None => false end = true) as Hv
      by (vm_compute; reflexivity).
    destruct (validate_cache no_message s) as [[r s']|]; [|done]. apply andb_prop in Hv as [->%bool_decide_eq_true Hv].
    exists s'. split; [done|]. by apply negb_true_iff. }
  exists s'. split; [apply demo_to_check|]. split; [reflexivity|]. split; [reflexivity|]. split; [apply demo_covered|].
  split; [|split; [reflexivity|by split]].
  intros [_ _ _ _ Hdata]. specialize (Hdata 0 64 demo_row eq_refl eq_refl eq_refl).
  assert (Fips180.sha1 (slot s (u32 0) (Z.to_nat (u32 64))) <> kr_tag demo_row) as Hne by (apply (bool_decide_unpack _); vm_compute; exact I).
  exact (Hne Hdata).
Qed.
