(* ===== verification/Image.v ===== *)
(** Image: the virtual disk of src/parcelkeeper/fuse_image.c — a write-back cache of decrypted
    chunks over the local cache, and reads and writes of arbitrary byte ranges.

    The requests run one at a time (WANT_SINGLE_THREAD), with rounds of the cleaner thread in
    between, each of which is taken as one step: requests that come in while the cleaner has released the
    image lock to store a chunk (entry_clean) are not modelled.  Waiting for a busy entry or for a
    reclaimable one would then never end, and is a fault, as is a failed g_assert.  A GQueue of
    entries is the list of their chunk numbers; an entry is linked into a queue iff its number
    is in the list. *)

From S2P Require Import Prelude Compress LzfStream Chunk Effects Sql Pk Cache.

Definition MAX_CACHE_MULT : Z := 1.
Definition MAX_CACHE_DIV : Z := 10.
Definition DIRTY_WRITEBACK_DELAY : Z := 5.

Definition EIO : Z := 5.
Definition ENOSPC : Z := 28.

Record cache_entry := mk_entry {
  e_busy : bool;
  e_data : option (list Z);
  e_dirty : Z;
  e_error : bool
}.

(** The members of struct pk_fuse that the image uses. *)
Record image := mk_image {
  im_chunks : gmap Z cache_entry;
  im_dirty : list Z;
  im_reclaimable : list Z;
  im_allocatable : Z;
  im_stopping : bool;
  leave_dirty : bool
}.

(** [now] is what time() returns. *)
Record fuse_state := mk_fuse { pks : pk_state; im : image; now : Z }.

Definition set_pks p s := mk_fuse p (im s) (now s).
Definition set_im i s := mk_fuse (pks s) i (now s).

Definition set_chunks v i := mk_image v (im_dirty i) (im_reclaimable i) (im_allocatable i)
  (im_stopping i) (leave_dirty i).
Definition set_dirty_queue v i := mk_image (im_chunks i) v (im_reclaimable i) (im_allocatable i)
  (im_stopping i) (leave_dirty i).
Definition set_reclaimable v i := mk_image (im_chunks i) (im_dirty i) v (im_allocatable i)
  (im_stopping i) (leave_dirty i).
Definition set_allocatable v i := mk_image (im_chunks i) (im_dirty i) (im_reclaimable i) v
  (im_stopping i) (leave_dirty i).
Definition set_stopping v i := mk_image (im_chunks i) (im_dirty i) (im_reclaimable i)
  (im_allocatable i) v (leave_dirty i).
Definition set_leave_dirty v i := mk_image (im_chunks i) (im_dirty i) (im_reclaimable i)
  (im_allocatable i) (im_stopping i) v.

Definition set_busy v e := mk_entry v (e_data e) (e_dirty e) (e_error e).
Definition set_data v e := mk_entry (e_busy e) v (e_dirty e) (e_error e).
Definition set_dirty v e := mk_entry (e_busy e) (e_data e) v (e_error e).
Definition set_error v e := mk_entry (e_busy e) (e_data e) (e_dirty e) v.

(** * Elementary steps *)

Section steps.
Context {R : Type}.
Local Abbreviation M := (pk fuse_state R).

Definition on_cache {A} (f : pk_fun A) : M A := fun s =>
  '(a, p) ← f (pks s); Some (inl a, set_pks p s).
Definition on_shm (m : pk pk_state () ()) : M () := fun s =>
  match m (pks s) with Some (inl _, p) => Some (inl (), set_pks p s) | _ => None end.
Definition on_stats (f : stat) (n : Z) : M () :=
  modify (fun s => set_pks (stats_increment f n (pks s)) s).

Definition on_image (f : image -> image) : M () := modify (fun s => set_im (f (im s)) s).

(** The entry of a chunk, which must exist. *)
Definition entry (c : Z) : M cache_entry := fun s =>
  e ← im_chunks (im s) !! c; Some (inl e, s).
Definition put_entry (c : Z) (e : cache_entry) : M () :=
  on_image (fun i => set_chunks (<[c := e]> (im_chunks i)) i).

Definition queue_delete (c : Z) (q : list Z) : list Z := filter (fun x => x <> c) q.

(** The two queue operations with a link, on the dirty and on the reclaimable queue. *)
Definition push_dirty (c : Z) : M () :=
  q ← gets (fun s => im_dirty (im s));
  _ ← defined (~ c ∈ q);
  on_image (set_dirty_queue (q ++ [c])).
Definition delete_dirty (c : Z) : M () :=
  on_image (fun i => set_dirty_queue (queue_delete c (im_dirty i)) i).
Definition push_reclaimable (c : Z) : M () :=
  q ← gets (fun s => im_reclaimable (im s));
  _ ← defined (~ c ∈ q);
  on_image (set_reclaimable (q ++ [c])).
Definition delete_reclaimable (c : Z) : M () :=
  on_image (fun i => set_reclaimable (queue_delete c (im_reclaimable i)) i).
End steps.

(** * Entries *)

Section entries.
Context (env : compress_env) `{!ChunkSource} {R : Type}.
Local Abbreviation M := (pk fuse_state R).

Definition entry_set_error (c : Z) : M () :=
  _ ← on_stats chunk_errors 1;
  _ ← on_image (set_leave_dirty true);
  e ← entry c;
  put_entry c (set_error true e).

(** The code releases the image lock around cache_update and takes it again: the entry is busy and off the
    dirty queue meanwhile, and no other request comes in here, where requests run one at a time. *)
Definition entry_clean (c : Z) : M () :=
  e ← entry c;
  q ← gets (fun s => im_dirty (im s));
  _ ← defined (e_dirty e > 0);
  _ ← defined (c ∈ q);
  match e_data e with
  | None => fault
  | Some d =>
      _ ← delete_dirty c;
      err ← on_cache (cache_update env c d);
      _ ← (if decide (err <> PK_SUCCESS) then entry_set_error c else pk_ret ());
      e ← entry c;
      _ ← put_entry c (set_dirty 0 e);
      on_shm (cache_shm_set_cache_dirty c false)
  end.

Definition _entry_acquire (c : Z) : M () :=
  _ ← delete_reclaimable c;
  e ← entry c;
  _ ← defined (e_busy e = false);
  put_entry c (set_busy true e).

Definition _entry_release (c : Z) : M () :=
  e ← entry c;
  match e_data e with
  | None =>
      q ← gets (fun s => im_reclaimable (im s));
      _ ← defined (~ c ∈ q);
      on_image (fun i => set_chunks (delete c (im_chunks i)) i)
  | Some _ =>
      _ ← put_entry c (set_busy false e);
      push_reclaimable c
  end.

(** Getting a buffer for an entry: a new one, of unspecified content, or that of the entry at the
    head of the reclaimable queue. *)
Definition take_buffer (c : Z) : M () :=
  n ← gets (fun s => im_allocatable (im s));
  cs ← gets (fun s => chunksize (parcel (pks s)));
  if decide (n > 0) then
    _ ← on_image (set_allocatable (n - 1));
    e ← entry c;
    put_entry c (set_data (Some (replicate (Z.to_nat cs) (e_junk env))) e)
  else
    q ← gets (fun s => im_reclaimable (im s));
    match q with
    | [] => fault
    | reclaim :: _ =>
        _ ← on_stats cache_evictions 1;
        _ ← _entry_acquire reclaim;
        re ← entry reclaim;
        _ ← (if decide (e_dirty re <> 0)
             then _ ← entry_clean reclaim; on_stats cache_evictions_dirty 1
             else pk_ret ());
        re ← entry reclaim;
        match e_data re with
        | None => fault
        | Some d =>
            e ← entry c;
            _ ← put_entry c (set_data (Some d) e);
            _ ← put_entry reclaim (set_data None re);
            _ ← on_shm (cache_shm_set_cached reclaim false);
            _entry_release reclaim
        end
    end.

(** "Populate it if requested." *)
Definition populate (c : Z) (with_data : bool) : M () :=
  if with_data then
    '(err, buf) ← on_cache (cache_get env c);
    _ ← (if decide (err <> PK_SUCCESS) then entry_set_error c
         else e ← entry c; put_entry c (set_data (Some buf) e));
    on_stats cache_misses 1
  else pk_ret ().

Definition entry_acquire (c : Z) (with_data : bool) : M () :=
  tab ← gets (fun s => im_chunks (im s));
  _ ← (match tab !! c with
       | None => put_entry c (mk_entry false None 0 false)
       | Some _ => pk_ret ()
       end);
  _ ← _entry_acquire c;
  e ← entry c;
  match e_data e with
  | None =>
      _ ← take_buffer c;
      _ ← on_shm (cache_shm_set_cached c true);
      populate c with_data
  | Some _ => if with_data then on_stats cache_hits 1 else pk_ret ()
  end.

Definition entry_release (c : Z) (dirty : bool) : M () :=
  _ ← (if dirty then on_shm (cache_shm_set_dirty c) else pk_ret ());
  e ← entry c;
  _ ← (if decide (dirty = true /\ e_dirty e = 0) then
         t ← gets now;
         _ ← put_entry c (set_dirty t e);
         _ ← push_dirty c;
         on_shm (cache_shm_set_cache_dirty c true)
       else pk_ret ());
  _entry_release c.

(** Every round takes an entry off the dirty queue, or is the last. *)
Fixpoint clean_loop (n : nat) (force : bool) : M () :=
  match n with
  | O => fault
  | S n =>
      q ← gets (fun s => im_dirty (im s));
      match q with
      | [] => pk_ret ()
      | c :: _ =>
          _ ← _entry_acquire c;
          e ← entry c;
          t ← gets now;
          if decide (e_dirty e = 0) then _ ← _entry_release c; clean_loop n force
          else if decide (force = false /\ e_dirty e + DIRTY_WRITEBACK_DELAY > t)
          then _entry_release c
          else
            _ ← entry_clean c;
            _ ← _entry_release c;
            clean_loop n force
      end
  end.

Definition entry_clean_all (force : bool) : M () :=
  q ← gets (fun s => im_dirty (im s));
  clean_loop (S (length q)) force.
End entries.

(** * The image *)

(** struct io_cursor *)
Record io_cursor := mk_cursor {
  cur_chunk : Z;
  cur_offset : Z;
  cur_length : Z;
  cur_buf_offset : Z;
  cur_eof : bool;
  cur_start : Z;
  cur_count : Z
}.

Definition io_start (start count : Z) : io_cursor := mk_cursor 0 0 0 0 false start count.

Definition io_chunk (p : pk_parcel) (cur : io_cursor) : bool * io_cursor :=
  let bo := u32 (cur_buf_offset cur + cur_length cur) in
  if decide (bo >= cur_count cur) then
    (false, mk_cursor (cur_chunk cur) (cur_offset cur) (cur_length cur) bo (cur_eof cur)
              (cur_start cur) (cur_count cur))
  else
    let c := u32 (Z.quot (cur_start cur + bo) (chunksize p)) in
    if decide (c >= chunks p) then
      (false, mk_cursor c (cur_offset cur) (cur_length cur) bo true (cur_start cur) (cur_count cur))
    else
      let off := u32 (cur_start cur + bo - u32 (c * chunksize p)) in
      let len := u32 (Z.min (u32 (chunksize p - off)) (cur_count cur - bo)) in
      (true, mk_cursor c off len bo (cur_eof cur) (cur_start cur) (cur_count cur)).

Section image.
Context (env : compress_env) `{!ChunkSource}.

(** The value of "(int) x ?: y". *)
Definition or_else (x y : Z) : Z := if decide (s32 x = 0) then y else s32 x.

(** One pass of the loop per chunk, each of at least one byte; [buf] is what has been read. *)
Fixpoint read_loop (n : nat) (cur : io_cursor) (buf : list Z) : pk fuse_state (Z * list Z) (Z * list Z) :=
  match n with
  | O => fault
  | S n =>
      p ← gets (fun s => parcel (pks s));
      let '(more, cur) := io_chunk p cur in
      if more : bool then
        let c := cur_chunk cur in
        _ ← entry_acquire env c true;
        e ← entry c;
        if e_error e then
          _ ← entry_release c false;
          ret (or_else (cur_buf_offset cur) (- EIO), buf)
        else
          match e_data e with
          | None => fault
          | Some d =>
              _ ← defined (cur_offset cur + cur_length cur <= Z.of_nat (length d));
              let piece := take (Z.to_nat (cur_length cur)) (drop (Z.to_nat (cur_offset cur)) d) in
              _ ← entry_release c false;
              _ ← on_stats bytes_read (cur_length cur);
              read_loop n cur (buf ++ piece)
          end
      else ret (s32 (cur_buf_offset cur), buf)
  end.

(** image_read: the result, and the bytes that were put into the buffer. *)
Definition image_read (start count : Z) : fuse_state -> option ((Z * list Z) * fuse_state) :=
  body (read_loop (S (Z.to_nat count)) (io_start start count) []).

Fixpoint write_loop (n : nat) (cur : io_cursor) (buf : list Z) : pk fuse_state Z Z :=
  match n with
  | O => fault
  | S n =>
      p ← gets (fun s => parcel (pks s));
      let '(more, cur) := io_chunk p cur in
      if more : bool then
        let c := cur_chunk cur in
        let whole_chunk := bool_decide (cur_length cur = chunksize p) in
        _ ← entry_acquire env c (negb whole_chunk);
        e ← entry c;
        if e_error e then
          _ ← entry_release c false;
          ret (or_else (cur_buf_offset cur) (- EIO))
        else
          match e_data e with
          | None => fault
          | Some d =>
              let piece := take (Z.to_nat (cur_length cur)) (drop (Z.to_nat (cur_buf_offset cur)) buf) in
              _ ← defined (cur_offset cur + cur_length cur <= Z.of_nat (length d));
              _ ← defined (Z.of_nat (length piece) = cur_length cur);
              _ ← put_entry c (set_data (Some (blit d (Z.to_nat (cur_offset cur)) piece)) e);
              _ ← entry_release c true;
              _ ← on_stats bytes_written (cur_length cur);
              _ ← (if whole_chunk then on_stats whole_chunk_updates 1 else pk_ret ());
              write_loop n cur buf
          end
      else if decide (cur_eof cur = true /\ cur_buf_offset cur = 0) then ret (- ENOSPC)
      else ret (s32 (cur_buf_offset cur))
  end.

Definition image_write (buf : list Z) (start count : Z) : fuse_state -> option (Z * fuse_state) :=
  body (write_loop (S (Z.to_nat count)) (io_start start count) buf).

Definition image_sync : fuse_state -> option (() * fuse_state) := body (entry_clean_all env true).

(** One round of entry_cleaner. *)
Definition entry_cleaner : fuse_state -> option (() * fuse_state) := body (entry_clean_all env false).

(** "Free chunk buffers" *)
Fixpoint free_loop (n : nat) : pk fuse_state () () :=
  match n with
  | O => fault
  | S n =>
      q ← gets (fun s => im_reclaimable (im s));
      match q with
      | [] => pk_ret ()
      | c :: _ =>
          _ ← _entry_acquire c;
          e ← entry c;
          _ ← defined (e_dirty e = 0);
          match e_data e with
          | None => fault
          | Some _ =>
              _ ← put_entry c (set_data None e);
              _ ← on_shm (cache_shm_set_cached c false);
              _ ← _entry_release c;
              free_loop n
          end
      end
  end.

Definition image_shutdown : fuse_state -> option (() * fuse_state) := body (
  _ ← on_image (set_stopping true);
  _ ← entry_clean_all env true;
  q ← gets (fun s => im_reclaimable (im s));
  _ ← free_loop (S (length q));
  tab ← gets (fun s => im_chunks (im s));
  defined (tab = ∅)).

(** [phys_pages] and [page_size] are what sysconf returns; [thread] says whether the cleaner
    thread could be created. *)
Definition image_init (phys_pages page_size : Z) (thread : bool) (p : pk_state) (t : Z) :
    pk_err * fuse_state :=
  let empty := mk_image ∅ [] [] 0 false false in
  let max_mb := u32 (u64 (MAX_CACHE_MULT * phys_pages * page_size) / Z.shiftl MAX_CACHE_DIV 20) in
  if decide (chunk_cache (conf p) = 0) then (PK_INVALID, mk_fuse p empty t)
  else if decide (chunk_cache (conf p) > max_mb) then (PK_INVALID, mk_fuse p empty t)
  else
    let n := u32 (chunk_cache (conf p) * (Z.shiftl 1 20 / chunksize (parcel p))) in
    (if thread then PK_SUCCESS else PK_CALLFAIL, mk_fuse p (set_allocatable n empty) t).
End image.
