(* ===== verification/ImageProofs.v ===== *)
(** ImageProofs: the virtual disk of Image.v is a flat array of bytes.

    [inv] relates the chunk cache and the local cache to the contents of the disk; reads, writes,
    the cleaner, sync and shutdown are shown to act on that array as they should. *)

From S2P Require Import Prelude Compress LzfStream Chunk Effects Sql Pk Cache CacheProofs Image.

Section proofs.
Context (env : compress_env) `{!ChunkSource} `{!ChunkStore env}.
Context (junk_byte : is_u 8 (e_junk env)).

(** * The abstract disk and the invariant *)

Definition chunk_of (p : pk_parcel) (flat : list Z) (c : Z) : list Z :=
  range flat (Z.to_nat (c * chunksize p)) (Z.to_nat (chunksize p)).

Record entry_ok (p : pk_parcel) (c : Z) (e : cache_entry) : Prop := mk_entry_ok {
  eo_range : 0 <= c < chunks p;
  eo_error : e_error e = false;
  eo_dirty : 0 <= e_dirty e;
  eo_data d : e_data e = Some d -> Z.of_nat (length d) = chunksize p /\ bytes d;
  eo_held : e_dirty e <> 0 -> is_Some (e_data e)
}.

(** A chunk that no one is working on: its entry, or else the local cache, has the contents. *)
Definition view_ok (p : pk_state) (flat : list Z) (c : Z) (oe : option cache_entry) : Prop :=
  match oe with
  | None => readable env p c (chunk_of (parcel p) flat c)
  | Some e => e_busy e = false /\ e_data e = Some (chunk_of (parcel p) flat c) /\
              (e_dirty e = 0 -> readable env p c (chunk_of (parcel p) flat c))
  end.

(** The chunks in [B] are being worked on. *)
Record inv (B : list Z) (flat : list Z) (s : fuse_state) : Prop := mk_inv {
  i_healthy : healthy (pks s);
  i_flat : Z.of_nat (length flat) = chunks (parcel (pks s)) * chunksize (parcel (pks s));
  i_bytes : bytes flat;
  i_now : 0 < now s;
  i_nodup_dirty : NoDup (im_dirty (im s));
  i_dirty c : c ∈ im_dirty (im s) <-> exists e, im_chunks (im s) !! c = Some e /\ e_dirty e <> 0;
  i_nodup_recl : NoDup (im_reclaimable (im s));
  i_recl c : c ∈ im_reclaimable (im s) <-> is_Some (im_chunks (im s) !! c) /\ ~ c ∈ B;
  i_entries c e : im_chunks (im s) !! c = Some e -> entry_ok (parcel (pks s)) c e;
  i_view c : 0 <= c < chunks (parcel (pks s)) -> ~ c ∈ B ->
    view_ok (pks s) flat c (im_chunks (im s) !! c);
  i_leave : leave_dirty (im s) = false
}.

(** A buffer can be had. *)
Definition room (s : fuse_state) : Prop :=
  im_allocatable (im s) > 0 \/ im_reclaimable (im s) <> [].

(** * Elementary steps *)

Lemma elem_of_queue_delete x c q : x ∈ queue_delete c q <-> x ∈ q /\ x <> c.
Proof. unfold queue_delete. rewrite list_elem_of_filter. tauto. Qed.

Lemma NoDup_queue_delete c q : NoDup q -> NoDup (queue_delete c q).
Proof. apply NoDup_filter. Qed.

Lemma NoDup_push (q : list Z) c : NoDup q -> ~ c ∈ q -> NoDup (q ++ [c]).
Proof.
  intros Hq Hc. apply NoDup_app. split_and!; [done| |apply NoDup_singleton].
  intros x Hx ->%list_elem_of_singleton. done.
Qed.

Lemma inv_keeps B flat s p ex :
  inv B flat s -> keeps env ex (pks s) p -> (forall c, ex c -> c ∈ B) ->
  inv B flat (set_pks p s).
Proof.
  intros [] (Hh & Hp & Hk) Hex. split; simpl; rewrite ?Hp; try done.
  intros c Hc HB. specialize (i_view0 c Hc HB). unfold view_ok in *. simpl. rewrite Hp.
  destruct (im_chunks (im s) !! c) as [e|].
  - destruct i_view0 as (? & ? & Hr). split_and!; try done. intros Hd. apply Hk; auto.
  - apply Hk; auto.
Qed.

(** Changing the entry of a chunk that is being worked on. *)
Lemma inv_put B flat s c e e' :
  inv B flat s -> c ∈ B -> im_chunks (im s) !! c = Some e ->
  entry_ok (parcel (pks s)) c e' -> (e_dirty e' <> 0 <-> e_dirty e <> 0) ->
  inv B flat (set_im (set_chunks (<[c := e']> (im_chunks (im s))) (im s)) s).
Proof.
  intros [] Hc He Hok Hd. split; simpl; try done.
  - intros x. rewrite i_dirty0. destruct (decide (x = c)) as [->|Hne].
    + rewrite lookup_insert_eq. split; [intros (e0 & He0 & ?)|intros (e0 & [= <-] & ?)].
      * exists e'. split; [done|]. apply Hd. by simplify_eq.
      * exists e. split; [done|]. by apply Hd.
    + by rewrite lookup_insert_ne.
  - intros x. rewrite i_recl0. destruct (decide (x = c)) as [->|Hne].
    + rewrite lookup_insert_eq, He. split; intros [_ ?]; by split; eauto.
    + by rewrite lookup_insert_ne.
  - intros x ex. destruct (decide (x = c)) as [->|Hne].
    + rewrite lookup_insert_eq. by intros [= <-].
    + rewrite lookup_insert_ne by done. apply i_entries0.
  - intros x Hx HB. assert (x <> c) by (by intros ->). rewrite lookup_insert_ne by done. auto.
Qed.

Lemma entry_some {R} s c e :
  im_chunks (im s) !! c = Some e -> (entry c : pk fuse_state R _) s = Some (inl e, s).
Proof. intros He. unfold entry. by rewrite He. Qed.

(** The map of chunk states and the statistics do not matter. *)
Lemma on_shm_ok {R} B flat s c set clear (m : pk pk_state () ()) :
  m = shm_update c set clear -> inv B flat s -> 0 <= c < chunks (parcel (pks s)) ->
  exists p, (on_shm m : pk fuse_state R ()) s = Some (inl (), set_pks p s) /\
    keeps env (fun _ => False) (pks s) p /\ inv B flat (set_pks p s).
Proof.
  intros -> Hi Hc. destruct (store_shm (pks s) c set clear (i_healthy _ _ _ Hi) Hc) as (p & Hm & Hk).
  exists p. unfold on_shm. rewrite Hm. split_and!; try done. by eapply inv_keeps.
Qed.

Lemma on_stats_ok B flat s f n :
  inv B flat s ->
  keeps env (fun _ => False) (pks s) (stats_increment f n (pks s)) /\
  inv B flat (set_pks (stats_increment f n (pks s)) s).
Proof.
  intros Hi. assert (keeps env (fun _ => False) (pks s) (stats_increment f n (pks s))) as Hk.
  { apply store_stats, (i_healthy _ _ _ Hi). }
  split; [done|]. by eapply inv_keeps.
Qed.

Lemma keeps_trans ex p1 p2 p3 :
  keeps env ex p1 p2 -> keeps env ex p2 p3 -> keeps env ex p1 p3.
Proof.
  intros (H1 & Hp1 & Hk1) (H2 & Hp2 & Hk2). split_and!; [done|congruence|].
  intros c b Hc Hex Hr. apply Hk2; [by rewrite Hp1|done|]. by apply Hk1.
Qed.

Lemma keeps_weaken (ex ex' : Z -> Prop) p1 p2 :
  (forall c, ex c -> ex' c) -> keeps env ex p1 p2 -> keeps env ex' p1 p2.
Proof. intros Hx (H1 & Hp & Hk). split_and!; try done. intros c b Hc Hn. apply Hk; auto. Qed.

(** * Entries *)

(** The busy flag is taken: the chunk joins those being worked on. *)
Definition taken (c : Z) (e : cache_entry) (s : fuse_state) : fuse_state :=
  set_im (set_chunks (<[c := set_busy true e]> (im_chunks (im s)))
            (set_reclaimable (queue_delete c (im_reclaimable (im s))) (im s))) s.

Lemma _entry_acquire_ok {R} B flat s c e :
  inv B flat s -> ~ c ∈ B -> im_chunks (im s) !! c = Some e ->
  (_entry_acquire c : pk fuse_state R ()) s = Some (inl (), taken c e s) /\
  inv (c :: B) flat (taken c e s).
Proof.
  intros Hi HB He. pose proof (i_entries _ _ _ Hi _ _ He) as Hok.
  pose proof (i_view _ _ _ Hi c (eo_range _ _ _ Hok) HB) as Hv. rewrite He in Hv.
  destruct Hv as (Hbusy & _). split.
  - unfold _entry_acquire, delete_reclaimable, on_image. step.
    erewrite bind_step by (apply entry_some; exact He). step. done.
  - destruct Hi. split; simpl; try done.
    + intros x. rewrite i_dirty0. destruct (decide (x = c)) as [->|Hne].
      * rewrite lookup_insert_eq, He. split; intros (e0 & [= <-] & ?); eauto.
      * by rewrite lookup_insert_ne.
    + by apply NoDup_queue_delete.
    + intros x. rewrite elem_of_queue_delete, i_recl0, not_elem_of_cons.
      destruct (decide (x = c)) as [->|Hne]; [tauto|]. rewrite lookup_insert_ne by done. tauto.
    + intros x ex. destruct (decide (x = c)) as [->|Hne].
      * rewrite lookup_insert_eq. intros [= <-]. by destruct Hok.
      * rewrite lookup_insert_ne by done. apply i_entries0.
    + intros x Hx [Hne HB']%not_elem_of_cons. rewrite lookup_insert_ne by done. auto.
Qed.

(** The busy flag is dropped: the chunk's buffer is right, and it becomes reclaimable. *)
Definition released (c : Z) (e : cache_entry) (s : fuse_state) : fuse_state :=
  set_im (set_reclaimable (im_reclaimable (im s) ++ [c])
            (set_chunks (<[c := set_busy false e]> (im_chunks (im s))) (im s))) s.

Lemma _entry_release_ok {R} B flat s c e :
  inv (c :: B) flat s -> ~ c ∈ B -> im_chunks (im s) !! c = Some e ->
  e_data e = Some (chunk_of (parcel (pks s)) flat c) ->
  (e_dirty e = 0 -> readable env (pks s) c (chunk_of (parcel (pks s)) flat c)) ->
  (_entry_release c : pk fuse_state R ()) s = Some (inl (), released c e s) /\
  inv B flat (released c e s).
Proof.
  intros Hi HB He Hd Hr.
  assert (~ c ∈ im_reclaimable (im s)) as Hnr.
  { rewrite (i_recl _ _ _ Hi). intros [_ Hn]. apply Hn. by left. }
  pose proof (i_entries _ _ _ Hi _ _ He) as Hok. split.
  - unfold _entry_release. erewrite bind_step by (apply entry_some; exact He). rewrite Hd.
    unfold put_entry, on_image. step. unfold push_reclaimable. step. step. done.
  - destruct Hi. split; simpl; try done.
    + intros x. rewrite i_dirty0. destruct (decide (x = c)) as [->|Hne].
      * rewrite lookup_insert_eq, He. split; intros (e0 & [= <-] & ?); eauto.
      * by rewrite lookup_insert_ne.
    + by apply NoDup_push.
    + intros x. rewrite elem_of_app, list_elem_of_singleton, i_recl0, not_elem_of_cons.
      destruct (decide (x = c)) as [->|Hne]; [|rewrite lookup_insert_ne by done; tauto].
      rewrite lookup_insert_eq. split; [intros _; split; [by eexists|done]|by right].
    + intros x ex. destruct (decide (x = c)) as [->|Hne].
      * rewrite lookup_insert_eq. intros [= <-]. by destruct Hok.
      * rewrite lookup_insert_ne by done. apply i_entries0.
    + intros x Hx HB'. destruct (decide (x = c)) as [->|Hne].
      * rewrite lookup_insert_eq. by split_and!.
      * rewrite lookup_insert_ne by done. apply i_view0; [done|]. apply not_elem_of_cons. done.
Qed.

(** An entry without a buffer is dropped. *)
Definition dropped (c : Z) (s : fuse_state) : fuse_state :=
  set_im (set_chunks (delete c (im_chunks (im s))) (im s)) s.

Lemma _entry_drop_ok {R} B flat s c e :
  inv (c :: B) flat s -> ~ c ∈ B -> im_chunks (im s) !! c = Some e ->
  e_data e = None -> readable env (pks s) c (chunk_of (parcel (pks s)) flat c) ->
  (_entry_release c : pk fuse_state R ()) s = Some (inl (), dropped c s) /\
  inv B flat (dropped c s).
Proof.
  intros Hi HB He Hd Hr.
  assert (~ c ∈ im_reclaimable (im s)) as Hnr.
  { rewrite (i_recl _ _ _ Hi). intros [_ Hn]. apply Hn. by left. }
  pose proof (i_entries _ _ _ Hi _ _ He) as Hok.
  assert (e_dirty e = 0) as Hclean.
  { destruct (decide (e_dirty e = 0)) as [|Hx]; [done|]. destruct (eo_held _ _ _ Hok Hx).
    by simplify_eq. }
  split.
  - unfold _entry_release. erewrite bind_step by (apply entry_some; exact He). rewrite Hd.
    step. step. done.
  - destruct Hi. split; simpl; try done.
    + intros x. rewrite i_dirty0. destruct (decide (x = c)) as [->|Hne].
      * rewrite lookup_delete_eq, He. split; intros (e0 & [= <-] & ?); done.
      * by rewrite lookup_delete_ne.
    + intros x. rewrite i_recl0, not_elem_of_cons. destruct (decide (x = c)) as [->|Hne].
      * rewrite lookup_delete_eq. split; [tauto|]. intros [[? [=]] _].
      * rewrite lookup_delete_ne by done. tauto.
    + intros x ex. destruct (decide (x = c)) as [->|Hne].
      * by rewrite lookup_delete_eq.
      * rewrite lookup_delete_ne by done. apply i_entries0.
    + intros x Hx HB'. destruct (decide (x = c)) as [->|Hne].
      * by rewrite lookup_delete_eq.
      * rewrite lookup_delete_ne by done. apply i_view0; [done|]. apply not_elem_of_cons. done.
Qed.

(** An entry has been written back. *)
Definition cleaned (c : Z) (e : cache_entry) (p : pk_state) (s : fuse_state) : fuse_state :=
  mk_fuse p (set_chunks (<[c := set_dirty 0 e]> (im_chunks (im s)))
               (set_dirty_queue (queue_delete c (im_dirty (im s))) (im s))) (now s).

Lemma inv_cleaned B flat s c e p :
  inv B flat s -> c ∈ B -> im_chunks (im s) !! c = Some e -> keeps env (eq c) (pks s) p ->
  inv B flat (cleaned c e p s).
Proof.
  intros Hi HB He Hk. pose proof (i_entries _ _ _ Hi _ _ He) as Hok.
  assert (inv B flat (set_pks p s)) as Hi' by (eapply inv_keeps; [done..|by intros ? <-]).
  pose proof Hk as (_ & Hp & _). destruct Hi'; simpl in *. split; simpl; try done.
  - by apply NoDup_queue_delete.
  - intros x. rewrite elem_of_queue_delete, i_dirty0. destruct (decide (x = c)) as [->|Hne].
    + rewrite lookup_insert_eq. split; [tauto|]. by intros (? & [= <-] & ?).
    + rewrite lookup_insert_ne by done. tauto.
  - intros x. rewrite i_recl0. destruct (decide (x = c)) as [->|Hne].
    + rewrite lookup_insert_eq, He. split; intros [_ ?]; by split; eauto.
    + by rewrite lookup_insert_ne.
  - intros x ex. destruct (decide (x = c)) as [->|Hne].
    + rewrite lookup_insert_eq. intros [= <-]. rewrite Hp. by destruct Hok.
    + rewrite lookup_insert_ne by done. apply i_entries0.
  - intros x Hx HB'. assert (x <> c) by (by intros ->). rewrite lookup_insert_ne by done. auto.
Qed.

Lemma entry_clean_ok {R} B flat s c e d :
  inv B flat s -> c ∈ B -> im_chunks (im s) !! c = Some e ->
  e_dirty e <> 0 -> e_data e = Some d ->
  exists p, (entry_clean env c : pk fuse_state R ()) s = Some (inl (), cleaned c e p s) /\
    keeps env (eq c) (pks s) p /\ readable env p c d /\ inv B flat (cleaned c e p s).
Proof.
  intros Hi HB He Hnd Hd. pose proof (i_entries _ _ _ Hi _ _ He) as Hok.
  destruct Hok as [Hc _ Hpos Hdata _]. destruct (Hdata d Hd) as [Hl Hb].
  destruct (store_update (pks s) c d (i_healthy _ _ _ Hi) Hc Hb Hl) as (p1 & Hup & Hk1 & Hr1).
  pose proof Hk1 as (Hh1 & Hp1 & _).
  destruct (store_shm p1 c 0 SHM_CACHE_DIRTY Hh1) as (p2 & Hs2 & Hk2); [by rewrite Hp1|].
  assert (keeps env (eq c) (pks s) p2) as Hk.
  { eapply keeps_trans; [done|]. by eapply keeps_weaken, Hk2. }
  exists p2. split_and!; [|done| |].
  - unfold entry_clean. erewrite bind_step by (apply entry_some; exact He). step. step.
    rewrite bind_defined by (apply (i_dirty _ _ _ Hi); eauto). rewrite Hd.
    unfold delete_dirty, on_image. step.
    erewrite bind_step by (unfold on_cache; simpl; by rewrite Hup).
    rewrite decide_False by (by intros []). step.
    erewrite bind_step by (apply entry_some; exact He). unfold put_entry, on_image. step.
    unfold on_shm, cache_shm_set_cache_dirty. simpl. by rewrite Hs2.
  - destruct Hk2 as (_ & _ & Hk2). apply Hk2; [by rewrite Hp1|by intros []|done].
  - by apply inv_cleaned.
Qed.

(** * Acquiring an entry *)

(** Writing an entry back before its buffer is taken, if it is dirty. *)
Lemma writeback_ok {R} B flat s c e d :
  inv B flat s -> c ∈ B -> im_chunks (im s) !! c = Some e -> e_data e = Some d ->
  (e_dirty e = 0 -> readable env (pks s) c d) ->
  exists s', (if decide (e_dirty e <> 0)
      then _ ← entry_clean env c; on_stats cache_evictions_dirty 1
      else pk_ret ()) s = Some (inl () : () + exit R, s') /\
    inv B flat s' /\ im_chunks (im s') = <[c := set_dirty 0 e]> (im_chunks (im s)) /\
    keeps env (eq c) (pks s) (pks s') /\ readable env (pks s') c d.
Proof.
  intros Hi HB He Hd Hr. destruct (decide (e_dirty e <> 0)) as [Hnd|Hnd].
  - destruct (@entry_clean_ok R B flat s c e d Hi HB He Hnd Hd) as (p & Hcl & Hk & Hrd & Hi').
    destruct (on_stats_ok _ _ _ cache_evictions_dirty 1 Hi') as [Hks Hi2].
    eexists. erewrite bind_step by exact Hcl. unfold on_stats, modify.
    split_and!; [done|exact Hi2|done| |].
    + eapply keeps_trans; [done|]. by eapply keeps_weaken, Hks.
    + destruct Hks as (_ & _ & Hks). apply Hks; [|by intros []|done].
      destruct Hk as (_ & Hp & _). simpl. rewrite Hp. apply (i_entries _ _ _ Hi _ _ He).
  - assert (e_dirty e = 0) as Hz by lia. exists s. split_and!; try done.
    + rewrite insert_id; [done|]. rewrite He. f_equal. destruct e; simpl in *. by subst.
    + split_and!; [apply Hi|done|]. auto.
    + auto.
Qed.

(** A clean entry that is being worked on gives up its buffer. *)
Lemma evict_ok {R} B flat s r re :
  inv (r :: B) flat s -> ~ r ∈ B -> im_chunks (im s) !! r = Some re -> e_dirty re = 0 ->
  readable env (pks s) r (chunk_of (parcel (pks s)) flat r) ->
  exists p, (_ ← put_entry r (set_data None re);
             _ ← on_shm (cache_shm_set_cached r false);
             _entry_release r : pk fuse_state R ()) s
      = Some (inl (), mk_fuse p (set_chunks (delete r (im_chunks (im s))) (im s)) (now s)) /\
    inv B flat (mk_fuse p (set_chunks (delete r (im_chunks (im s))) (im s)) (now s)) /\
    keeps env (fun _ => False) (pks s) p.
Proof.
  intros Hi HB He Hz Hr. pose proof (i_entries _ _ _ Hi _ _ He) as Hok.
  pose proof (inv_put _ _ _ r re (set_data None re) Hi ltac:(by left) He) as Hput.
  set (s1 := set_im _ s) in Hput.
  assert (inv (r :: B) flat s1) as Hi1.
  { apply Hput; [|done]. destruct Hok. by split. }
  destruct (@on_shm_ok R _ _ s1 r 0 SHM_CACHED (cache_shm_set_cached r false) eq_refl Hi1)
    as (p & Hshm & Hk & Hi2); [apply Hok|].
  pose proof Hk as (_ & Hp & Hrk). simpl in Hp, Hrk.
  destruct (@_entry_drop_ok R B flat (set_pks p s1) r (set_data None re)) as [Hrel Hi3]; try done.
  { simpl. by rewrite lookup_insert_eq. }
  { simpl. rewrite Hp. apply Hrk; [apply Hok|tauto|done]. }
  assert (dropped r (set_pks p s1) =
    mk_fuse p (set_chunks (delete r (im_chunks (im s))) (im s)) (now s)) as Heq.
  { unfold dropped, set_im, set_chunks. simpl. by rewrite delete_insert_eq. }
  rewrite Heq in *. exists p. split_and!; try done.
  unfold put_entry, on_image. step. erewrite bind_step by exact Hshm. exact Hrel.
Qed.

(** The entry at the head of the reclaimable queue gives up its buffer. *)
Lemma reclaim_ok {R} flat s c e r q :
  inv [c] flat s -> im_chunks (im s) !! c = Some e -> e_data e = None -> e_dirty e = 0 ->
  readable env (pks s) c (chunk_of (parcel (pks s)) flat c) ->
  im_allocatable (im s) <= 0 -> im_reclaimable (im s) = r :: q ->
  exists d s', (take_buffer env c : pk fuse_state R ()) s = Some (inl (), s') /\
    inv [c] flat s' /\ im_chunks (im s') !! c = Some (set_data (Some d) e) /\
    Z.of_nat (length d) = chunksize (parcel (pks s)) /\ parcel (pks s') = parcel (pks s) /\
    readable env (pks s') c (chunk_of (parcel (pks s)) flat c).
Proof.
  intros Hi He Hd Hcl Hr Hal Hq.
  assert (r ∈ im_reclaimable (im s)) as Hrq by (rewrite Hq; by left).
  apply (i_recl _ _ _ Hi) in Hrq as [[re Hre] HrB].
  assert (r <> c) as Hrc by (intros ->; apply HrB; by left).
  destruct (on_stats_ok _ _ _ cache_evictions 1 Hi) as [Hk0 Hi0].
  set (s0 := set_pks _ s) in *.
  destruct (@_entry_acquire_ok R _ _ s0 r re Hi0 HrB Hre) as [Hacq Hi1].
  set (s1 := taken r re s0) in *.
  pose proof (eo_range _ _ _ (i_entries _ _ _ Hi _ _ Hre)) as Hrr.
  pose proof (eo_range _ _ _ (i_entries _ _ _ Hi _ _ He)) as Hcr.
  pose proof (i_view _ _ _ Hi r Hrr HrB) as Hview.
  rewrite Hre in Hview. destruct Hview as (_ & Hrd & Hrc0).
  set (d := chunk_of (parcel (pks s)) flat r) in *.
  assert (im_chunks (im s1) !! r = Some (set_busy true re)) as Hre1 by (simpl; by rewrite lookup_insert_eq).
  destruct (@writeback_ok R [r; c] flat s1 r (set_busy true re) d Hi1)
    as (s2 & Hwb & Hi2 & Htab & Hk2 & Hrd2); [by left|done|done| |].
  { intros Hz. destruct Hk0 as (_ & _ & Hk0). apply Hk0; auto. }
  assert (keeps env (eq r) (pks s) (pks s2)) as (_ & Hp2 & Hk).
  { eapply keeps_trans; [by eapply keeps_weaken, Hk0|done]. }
  assert (readable env (pks s2) c (chunk_of (parcel (pks s)) flat c)) as Hr2 by (by apply Hk).
  set (re2 := set_dirty 0 (set_busy true re)) in *.
  assert (im_chunks (im s2) !! r = Some re2) as Hre2 by (by rewrite Htab, lookup_insert_eq).
  assert (im_chunks (im s2) !! c = Some e) as He2.
  { rewrite Htab, lookup_insert_ne by done. simpl. by rewrite lookup_insert_ne. }
  pose proof (i_entries _ _ _ Hi2 _ _ Hre2) as Hok2. rewrite Hp2 in Hok2.
  pose proof (i_entries _ _ _ Hi2 _ _ He2) as Hoke2. rewrite Hp2 in Hoke2.
  destruct (eo_data _ _ _ Hok2 d) as [Hdl Hdb]; [done|].
  pose proof (inv_put _ _ _ c e (set_data (Some d) e) Hi2 ltac:(right; by left) He2) as Hput3.
  set (s3 := set_im _ s2) in Hput3.
  assert (inv [r; c] flat s3) as Hi3.
  { apply Hput3; [|done]. rewrite Hp2. destruct Hoke2. split; try done; simpl. by intros ? [= <-]. }
  assert (im_chunks (im s3) !! r = Some re2) as Hre3 by (simpl; by rewrite lookup_insert_ne).
  destruct (@evict_ok R [c] flat s3 r re2 Hi3 HrB Hre3) as (p5 & Hev & Hi5 & _ & Hp5 & Hrk5); [done| |].
  { simpl. by rewrite Hp2. }
  simpl in Hp5, Hrk5. rewrite Hp2 in Hp5, Hrk5.
  eexists d, _. split_and!; [|exact Hi5| |done|done|].
  - unfold take_buffer. step. step. rewrite decide_False by lia. step. rewrite Hq.
    erewrite bind_step by reflexivity. fold s0.
    erewrite bind_step by exact Hacq. fold s1.
    erewrite bind_step by (apply entry_some; exact Hre1). erewrite bind_step by exact Hwb.
    erewrite bind_step by (apply entry_some; exact Hre2). simpl. rewrite Hrd.
    erewrite bind_step by (apply entry_some; exact He2).
    erewrite bind_step by reflexivity. exact Hev.
  - simpl. by rewrite lookup_delete_ne, lookup_insert_eq.
  - simpl. apply Hrk5; auto.
Qed.

Lemma healthy_chunksize p : healthy p -> 16 <= chunksize (parcel p) < 2 ^ 31.
Proof. intros Hh. apply (g_chunksize _ (wf_geometry _ (h_wf _ Hh))). Qed.

Lemma healthy_chunks p : healthy p -> is_u 32 (chunks (parcel p)).
Proof. intros Hh. apply (g_chunks _ (wf_geometry _ (h_wf _ Hh))). Qed.

(** A buffer of any content, for an entry that has none. *)
Lemma take_buffer_ok {R} flat s c e :
  inv [c] flat s -> room s -> im_chunks (im s) !! c = Some e -> e_data e = None -> e_dirty e = 0 ->
  readable env (pks s) c (chunk_of (parcel (pks s)) flat c) ->
  exists d s', (take_buffer env c : pk fuse_state R ()) s = Some (inl (), s') /\
    inv [c] flat s' /\ im_chunks (im s') !! c = Some (set_data (Some d) e) /\
    Z.of_nat (length d) = chunksize (parcel (pks s)) /\ parcel (pks s') = parcel (pks s) /\
    readable env (pks s') c (chunk_of (parcel (pks s)) flat c).
Proof.
  intros Hi Hroom He Hd Hcl Hr. destruct (decide (im_allocatable (im s) > 0)) as [Hal|Hal].
  - pose proof (healthy_chunksize _ (i_healthy _ _ _ Hi)) as Hcs.
    set (d := replicate (Z.to_nat (chunksize (parcel (pks s)))) (e_junk env)).
    assert (Z.of_nat (length d) = chunksize (parcel (pks s))) as Hdl.
    { subst d. rewrite length_replicate. lia. }
    set (s1 := set_im (set_allocatable (im_allocatable (im s) - 1) (im s)) s).
    assert (inv [c] flat s1) as Hi1 by (destruct Hi; by split).
    exists d. eexists. split_and!.
    + unfold take_buffer. step. step. rewrite decide_True by done. unfold on_image. step. fold s1.
      erewrite bind_step by (apply entry_some; exact He). done.
    + eapply inv_put; [exact Hi1|by left|exact He| |done].
      pose proof (i_entries _ _ _ Hi _ _ He) as []. split; try done; simpl.
      intros ? [= <-]. split; [done|]. by apply Forall_replicate.
    + simpl. by rewrite lookup_insert_eq.
    + done.
    + done.
    + done.
  - destruct Hroom as [?|Hne]; [done|]. destruct (im_reclaimable (im s)) as [|r q] eqn:Hq; [done|].
    by apply (reclaim_ok flat s c e r q); try lia.
Qed.

(** What [entry_acquire] guarantees. *)
Record acquired (flat : list Z) (c : Z) (with_data : bool) (s s' : fuse_state) (e : cache_entry)
    (d : list Z) : Prop := mk_acquired {
  a_inv : inv [c] flat s';
  a_entry : im_chunks (im s') !! c = Some e;
  a_data : e_data e = Some d;
  a_len : Z.of_nat (length d) = chunksize (parcel (pks s));
  a_parcel : parcel (pks s') = parcel (pks s);
  a_contents : with_data = true \/ e_dirty e <> 0 -> d = chunk_of (parcel (pks s)) flat c;
  a_clean : e_dirty e = 0 -> readable env (pks s') c (chunk_of (parcel (pks s)) flat c)
}.

(** A chunk in the cache: its buffer is right. *)
Lemma acquire_hit {R} flat s c e wd :
  inv [] flat s -> im_chunks (im s) !! c = Some e ->
  exists s' d, (entry_acquire env c wd : pk fuse_state R ()) s = Some (inl (), s') /\
    acquired flat c wd s s' (set_busy true e) d.
Proof.
  intros Hi He. destruct (@_entry_acquire_ok R [] flat s c e Hi) as [Hacq Hi1];
    [by apply not_elem_of_nil|done|].
  pose proof (eo_range _ _ _ (i_entries _ _ _ Hi _ _ He)) as Hc.
  pose proof (i_view _ _ _ Hi c Hc (not_elem_of_nil c)) as Hv. rewrite He in Hv.
  destruct Hv as (_ & Hd & Hr). set (s1 := taken c e s) in *.
  assert (im_chunks (im s1) !! c = Some (set_busy true e)) as He1 by (simpl; by rewrite lookup_insert_eq).
  destruct (eo_data _ _ _ (i_entries _ _ _ Hi1 _ _ He1) _ Hd) as [Hl _].
  destruct (on_stats_ok _ _ _ cache_hits 1 Hi1) as [Hk Hi2].
  exists (if wd then set_pks (stats_increment cache_hits 1 (pks s1)) s1 else s1), (chunk_of (parcel (pks s)) flat c).
  split.
  - unfold entry_acquire. step. rewrite He. step. erewrite bind_step by exact Hacq. fold s1.
    erewrite bind_step by (apply entry_some; exact He1). simpl. rewrite Hd. by destruct wd.
  - destruct wd; split; done.
Qed.

(** A new entry for a chunk, taken at once. *)
Definition inserted (c : Z) (s : fuse_state) : fuse_state :=
  set_im (set_chunks (<[c := mk_entry false None 0 false]> (im_chunks (im s))) (im s)) s.

Lemma insert_ok {R} flat s c :
  inv [] flat s -> room s -> 0 <= c < chunks (parcel (pks s)) -> im_chunks (im s) !! c = None ->
  let e := mk_entry false None 0 false in let s1 := taken c e (inserted c s) in
  (_entry_acquire c : pk fuse_state R ()) (inserted c s) = Some (inl (), s1) /\
  inv [c] flat s1 /\ room s1 /\ im_chunks (im s1) !! c = Some (set_busy true e).
Proof.
  intros Hi Hroom Hc Hnone e s1. split_and!.
  - unfold _entry_acquire, delete_reclaimable, on_image. step.
    erewrite bind_step by (apply entry_some; simpl; by rewrite lookup_insert_eq). step. done.
  - destruct Hi. split; simpl; try done.
    + intros x. rewrite i_dirty0. destruct (decide (x = c)) as [->|Hne].
      * rewrite lookup_insert_eq, Hnone. split; [by intros (? & [=] & _)|by intros (? & [= <-] & ?)].
      * by rewrite !lookup_insert_ne.
    + by apply NoDup_queue_delete.
    + intros x. rewrite elem_of_queue_delete, i_recl0, list_elem_of_singleton.
      destruct (decide (x = c)) as [->|Hne]; [tauto|]. rewrite !lookup_insert_ne by done.
      split; [tauto|]. intros [? ?]. split_and!; try done. apply not_elem_of_nil.
    + intros x ex. destruct (decide (x = c)) as [->|Hne].
      * rewrite lookup_insert_eq. intros [= <-]. by split.
      * rewrite !lookup_insert_ne by done. apply i_entries0.
    + intros x Hx [Hne _]%not_elem_of_cons. rewrite !lookup_insert_ne by done.
      apply i_view0; [done|apply not_elem_of_nil].
  - destruct Hroom as [?|Hne]; [by left|]. right. simpl. intros Hnil. apply Hne.
    destruct (im_reclaimable (im s)) as [|x q] eqn:Hq; [done|]. exfalso.
    assert (x ∈ im_reclaimable (im s)) as Hx by (rewrite Hq; by left).
    assert (x ∈ queue_delete c (x :: q)) as Hx'; [|by rewrite Hnil in Hx'; apply not_elem_of_nil in Hx'].
    rewrite elem_of_queue_delete. split; [by left|]. intros ->.
    apply (i_recl _ _ _ Hi) in Hx as [[? Hx] _]. by rewrite Hnone in Hx.
  - simpl. by rewrite lookup_insert_eq.
Qed.

Lemma populate_ok {R} flat s c e d wd :
  inv [c] flat s -> im_chunks (im s) !! c = Some e -> e_data e = Some d -> e_dirty e = 0 ->
  Z.of_nat (length d) = chunksize (parcel (pks s)) ->
  readable env (pks s) c (chunk_of (parcel (pks s)) flat c) ->
  exists s' e' d', (populate env c wd : pk fuse_state R ()) s = Some (inl (), s') /\
    acquired flat c wd s s' e' d'.
Proof.
  intros Hi He Hd Hz Hl Hr. destruct wd.
  2:{ exists s, e, d. split; [done|]. split; try done. intros [?|?]; done. }
  pose proof (i_entries _ _ _ Hi _ _ He) as Hok. pose proof (eo_range _ _ _ Hok) as Hc.
  set (b := chunk_of (parcel (pks s)) flat c) in *.
  destruct (store_get (pks s) c b (i_healthy _ _ _ Hi) Hc Hr) as (p & Hget & Hk & Hlen).
  assert (inv [c] flat (set_pks p s)) as Hi1 by (eapply inv_keeps; [done|exact Hk|done]).
  pose proof Hk as (_ & Hp & Hrk).
  assert (bytes b) as Hbb by (apply bytes_range, Hi).
  assert (inv [c] flat (set_im (set_chunks (<[c := set_data (Some b) e]> (im_chunks (im s))) (im s))
            (set_pks p s))) as Hi2.
  { eapply (inv_put [c] flat (set_pks p s)); [done|by left|exact He| |done]. simpl. rewrite Hp.
    destruct Hok. split; try done; simpl. by intros ? [= <-]. }
  set (s2 := set_im _ (set_pks p s)) in *.
  destruct (on_stats_ok _ _ _ cache_misses 1 Hi2) as [(_ & _ & Hk3) Hi3].
  eexists _, (set_data (Some b) e), b. split.
  - unfold populate. erewrite bind_step by (unfold on_cache; by rewrite Hget).
    cbv beta iota. rewrite decide_False by (by intros []).
    erewrite bind_step; [reflexivity|]. erewrite bind_step by (apply entry_some; exact He). done.
  - split; try done; simpl; [by rewrite lookup_insert_eq|].
    intros _. apply Hk3; [simpl; by rewrite Hp|by intros []|]. apply Hrk; auto.
Qed.

(** A chunk that is not in the cache: it is given a buffer, and filled if requested. *)
Lemma acquire_miss {R} flat s c wd :
  inv [] flat s -> room s -> 0 <= c < chunks (parcel (pks s)) -> im_chunks (im s) !! c = None ->
  exists s' e d, (entry_acquire env c wd : pk fuse_state R ()) s = Some (inl (), s') /\
    acquired flat c wd s s' e d.
Proof.
  intros Hi Hroom Hc Hnone. pose proof (i_view _ _ _ Hi c Hc (not_elem_of_nil c)) as Hr.
  rewrite Hnone in Hr. simpl in Hr.
  destruct (@insert_ok R flat s c Hi Hroom Hc Hnone) as (Hacq & Hi1 & Hroom1 & He1).
  set (s1 := taken c _ _) in *.
  destruct (@take_buffer_ok R flat s1 c _ Hi1 Hroom1 He1 eq_refl eq_refl Hr)
    as (d & s2 & Htake & Hi2 & He2 & Hdl & Hp2 & Hr2). simpl in Hp2, Hdl, Hr2.
  destruct (@on_shm_ok R _ _ s2 c SHM_CACHED 0 (cache_shm_set_cached c true) eq_refl Hi2)
    as (p3 & Hshm & (Hh3 & Hp3 & Hk3) & Hi3); [by rewrite Hp2|]. rewrite Hp2 in Hp3, Hk3.
  destruct (@populate_ok R flat (set_pks p3 s2) c _ d wd Hi3 He2 eq_refl eq_refl)
    as (s4 & e4 & d4 & Hpop & Ha); [simpl; by rewrite Hp3|simpl; rewrite Hp3; by apply Hk3; auto|].
  exists s4, e4, d4. split.
  - unfold entry_acquire. step. rewrite Hnone.
    erewrite bind_step by reflexivity. fold (inserted c s).
    erewrite bind_step by exact Hacq. erewrite bind_step by (apply entry_some; exact He1).
    cbn [set_busy e_data]. erewrite bind_step by exact Htake. erewrite bind_step by exact Hshm.
    exact Hpop.
  - destruct Ha. simpl in *. rewrite Hp3 in *. by split.
Qed.

Lemma entry_acquire_ok {R} flat s c wd :
  inv [] flat s -> room s -> 0 <= c < chunks (parcel (pks s)) ->
  exists s' e d, (entry_acquire env c wd : pk fuse_state R ()) s = Some (inl (), s') /\
    acquired flat c wd s s' e d.
Proof.
  intros Hi Hroom Hc. destruct (im_chunks (im s) !! c) as [e|] eqn:He.
  - destruct (@acquire_hit R flat s c e wd Hi He) as (s' & d & ? & ?). eauto.
  - by apply acquire_miss.
Qed.

(** * Releasing an entry *)

Lemma released_room c e s : room (released c e s).
Proof. right. simpl. by destruct (im_reclaimable (im s)). Qed.

Lemma entry_release_clean_ok {R} flat s c e :
  inv [c] flat s -> im_chunks (im s) !! c = Some e ->
  e_data e = Some (chunk_of (parcel (pks s)) flat c) ->
  (e_dirty e = 0 -> readable env (pks s) c (chunk_of (parcel (pks s)) flat c)) ->
  exists s', (entry_release c false : pk fuse_state R ()) s = Some (inl (), s') /\
    inv [] flat s' /\ room s' /\ parcel (pks s') = parcel (pks s).
Proof.
  intros Hi He Hd Hr.
  destruct (@_entry_release_ok R [] flat s c e Hi (not_elem_of_nil c) He Hd Hr) as [Hrel Hi1].
  exists (released c e s). split_and!; [|done|apply released_room|done].
  unfold entry_release. step. erewrite bind_step by (apply entry_some; exact He).
  rewrite decide_False by (by intros []). step. exact Hrel.
Qed.

(** The contents of the chunk that is being worked on may change. *)
Lemma inv_flat_change flat flat' s c :
  inv [c] flat s -> length flat' = length flat -> bytes flat' ->
  (forall x, 0 <= x < chunks (parcel (pks s)) -> x <> c ->
     chunk_of (parcel (pks s)) flat' x = chunk_of (parcel (pks s)) flat x) ->
  inv [c] flat' s.
Proof.
  intros [] Hl Hb Hx. split; try done; [by rewrite Hl|].
  intros x Hxr HB. pose proof HB as [Hne _]%not_elem_of_cons. specialize (i_view0 x Hxr HB).
  unfold view_ok in *. by rewrite Hx.
Qed.

Definition marked (c : Z) (e : cache_entry) (s : fuse_state) : fuse_state :=
  set_im (set_dirty_queue (im_dirty (im s) ++ [c])
            (set_chunks (<[c := set_dirty (now s) e]> (im_chunks (im s))) (im s))) s.

Lemma inv_marked flat s c e d :
  inv [c] flat s -> im_chunks (im s) !! c = Some e -> e_data e = Some d -> e_dirty e = 0 ->
  ~ c ∈ im_dirty (im s) /\ inv [c] flat (marked c e s).
Proof.
  intros Hi He Hd Hz. assert (~ c ∈ im_dirty (im s)) as Hnd.
  { rewrite (i_dirty _ _ _ Hi). intros (e0 & He0 & Hx). by simplify_eq. }
  pose proof (i_entries _ _ _ Hi _ _ He) as Hok. split; [done|]. destruct Hi. split; simpl; try done.
  - by apply NoDup_push.
  - intros x. rewrite elem_of_app, list_elem_of_singleton, i_dirty0.
    destruct (decide (x = c)) as [->|Hne]; [|rewrite lookup_insert_ne by done; tauto].
    rewrite lookup_insert_eq. split; [|by right]. intros _. eexists. split; [done|]. simpl. lia.
  - intros x. rewrite i_recl0. destruct (decide (x = c)) as [->|Hne].
    + rewrite lookup_insert_eq, He. split; intros [_ ?]; by split; eauto.
    + by rewrite lookup_insert_ne.
  - intros x ex. destruct (decide (x = c)) as [->|Hne].
    + rewrite lookup_insert_eq. intros [= <-]. destruct Hok. split; simpl; try done; try lia.
      all: intros _; by eexists.
    + rewrite lookup_insert_ne by done. apply i_entries0.
  - intros x Hx HB. pose proof HB as [Hne _]%not_elem_of_cons. rewrite lookup_insert_ne by done. auto.
Qed.

Lemma entry_release_dirty_ok {R} flat s c e :
  inv [c] flat s -> im_chunks (im s) !! c = Some e ->
  e_data e = Some (chunk_of (parcel (pks s)) flat c) ->
  exists s', (entry_release c true : pk fuse_state R ()) s = Some (inl (), s') /\
    inv [] flat s' /\ room s' /\ parcel (pks s') = parcel (pks s).
Proof.
  intros Hi He Hd. pose proof (eo_range _ _ _ (i_entries _ _ _ Hi _ _ He)) as Hc.
  pose proof (i_now _ _ _ Hi) as Hnow.
  destruct (@on_shm_ok R _ _ s c _ 0 (cache_shm_set_dirty c) eq_refl Hi Hc) as (p1 & Hs1 & Hk1 & Hi1).
  pose proof Hk1 as (_ & Hp1 & _). set (s1 := set_pks p1 s) in *.
  assert (exists s2 e2, (if decide (true = true /\ e_dirty e = 0) then
      t ← gets now; _ ← put_entry c (set_dirty t e); _ ← push_dirty c;
      on_shm (cache_shm_set_cache_dirty c true) else pk_ret ()) s1 = Some (inl () : () + exit R, s2) /\
    inv [c] flat s2 /\ im_chunks (im s2) !! c = Some e2 /\ e_data e2 = e_data e /\ e_dirty e2 <> 0 /\
    parcel (pks s2) = parcel (pks s)) as (s2 & e2 & Hmark & Hi2 & He2 & Hd2 & Hnz & Hp2).
  { destruct (decide _) as [[_ Hz]|Hz].
    - destruct (inv_marked flat s1 c e _ Hi1 He Hd Hz) as [Hnq Him].
      destruct (@on_shm_ok R _ _ (marked c e s1) c SHM_CACHE_DIRTY 0
        (cache_shm_set_cache_dirty c true) eq_refl Him) as (p2 & Hs2 & Hk2 & Hi2);
        [simpl; by rewrite Hp1|]. pose proof Hk2 as (_ & Hp2 & _).
      exists (set_pks p2 (marked c e s1)), (set_dirty (now s) e). split_and!; try done.
      + step. erewrite bind_step by reflexivity.
        erewrite bind_step by (unfold push_dirty; step; rewrite bind_defined by done; reflexivity).
        exact Hs2.
      + simpl. by rewrite lookup_insert_eq.
      + simpl. lia.
      + simpl. by rewrite Hp2.
    - exists s1, e. split_and!; try done. intros ?. apply Hz. auto. }
  assert (e_data e2 = Some (chunk_of (parcel (pks s2)) flat c)) as Hd3 by (by rewrite Hd2, Hp2).
  destruct (@_entry_release_ok R [] flat s2 c e2 Hi2 (not_elem_of_nil c) He2 Hd3) as [Hrel Hi3]; [done|].
  exists (released c e2 s2). split_and!; [|done|apply released_room|done].
  unfold entry_release. erewrite bind_step by exact Hs1.
  erewrite bind_step by (apply entry_some; exact He). erewrite bind_step by exact Hmark. exact Hrel.
Qed.

(** * Byte ranges *)

(** The request stays within what 32-bit chunk numbers and an int result can express. *)
Record request_ok (p : pk_parcel) (start count : Z) : Prop := mk_request {
  r_start : 0 <= start;
  r_count : 0 <= count < 2 ^ 31;
  r_end : start + count <= 2 ^ 32 * chunksize p
}.

Definition total (p : pk_parcel) : Z := chunks p * chunksize p.

(** The next piece of a request of which [bo] bytes are done. *)
Lemma io_chunk_spec p cur start count :
  16 <= chunksize p < 2 ^ 31 -> is_u 32 (chunks p) -> request_ok p start count ->
  cur_start cur = start -> cur_count cur = count ->
  let bo := cur_buf_offset cur + cur_length cur in
  0 <= bo <= count ->
  exists more cur', io_chunk p cur = (more, cur') /\ cur_buf_offset cur' = bo /\
    cur_start cur' = start /\ cur_count cur' = count /\
    if more then
      start + bo < total p /\ cur_eof cur' = cur_eof cur /\
      cur_chunk cur' = (start + bo) / chunksize p /\ 0 <= cur_chunk cur' < chunks p /\
      cur_offset cur' = (start + bo) mod chunksize p /\ 0 <= cur_offset cur' /\
      0 < cur_length cur' <= count - bo /\ cur_offset cur' + cur_length cur' <= chunksize p /\
      start + bo + cur_length cur' <= total p
    else bo = count /\ cur_eof cur' = cur_eof cur \/
         bo < count /\ total p <= start + bo /\ cur_eof cur' = true.
Proof.
  intros Hcs Hch [Hs Hc He] Hst Hco bo Hbo. unfold io_chunk. fold bo. rewrite Hst, Hco.
  rewrite (u32_id bo) by (unfold is_u; lia).
  destruct (decide (bo >= count)) as [Hge|Hlt].
  { eexists _, _. split; [done|]. simpl. split_and!; try done. left. split; [lia|done]. }
  pose proof (Z.div_mod (start + bo) (chunksize p) ltac:(lia)) as Hdm.
  pose proof (Z.mod_pos_bound (start + bo) (chunksize p) ltac:(lia)) as Hmb.
  rewrite Z.quot_div_nonneg by lia. set (c := (start + bo) / chunksize p) in *.
  assert (0 <= c < 2 ^ 32) as Hcr by nia. rewrite (u32_id c) by done. unfold is_u in Hch.
  destruct (decide (c >= chunks p)) as [Hend|Hin].
  { eexists _, _. split; [done|]. simpl. split_and!; try done. right. unfold total. split_and!; [lia|nia|done]. }
  assert (u32 (start + bo - u32 (c * chunksize p)) = (start + bo) mod chunksize p) as ->.
  { unfold u32. rewrite Zminus_mod_idemp_r. replace (start + bo - c * chunksize p)
      with ((start + bo) mod chunksize p) by lia. apply Z.mod_small. lia. }
  rewrite (u32_id (chunksize p - _)) by (unfold is_u; lia).
  rewrite u32_id by (unfold is_u; lia).
  assert (c * chunksize p + chunksize p <= chunks p * chunksize p) by nia.
  eexists _, _. split; [done|]. simpl. unfold total. split_and!; try done; lia.
Qed.

(** The bytes of a chunk that a request covers. *)
Lemma chunk_piece p flat start off len :
  16 <= chunksize p -> 0 <= start -> off = start mod chunksize p -> 0 <= len ->
  off + len <= chunksize p ->
  range (chunk_of p flat (start / chunksize p)) (Z.to_nat off) (Z.to_nat len)
    = range flat (Z.to_nat start) (Z.to_nat len).
Proof.
  intros Hcs Hs Ho Hl Hle. pose proof (Z.div_mod start (chunksize p) ltac:(lia)) as Hdm.
  pose proof (Z.mod_pos_bound start (chunksize p) ltac:(lia)) as Hmb.
  pose proof (Z.div_pos start (chunksize p) ltac:(lia) ltac:(lia)) as Hq.
  unfold chunk_of. rewrite range_range by lia. f_equal. nia.
Qed.

(** Overwriting part of one chunk of the disk. *)
Lemma chunk_write p flat start off data :
  16 <= chunksize p -> 0 <= start -> off = start mod chunksize p ->
  off + Z.of_nat (length data) <= chunksize p ->
  Z.of_nat (length flat) = total p -> start < total p ->
  let flat' := blit flat (Z.to_nat start) data in
  length flat' = length flat /\
  chunk_of p flat' (start / chunksize p) = blit (chunk_of p flat (start / chunksize p)) (Z.to_nat off) data /\
  forall x, 0 <= x < chunks p -> x <> start / chunksize p -> chunk_of p flat' x = chunk_of p flat x.
Proof.
  intros Hcs Hs Ho Hle Hfl Hlt flat'. unfold total in *.
  pose proof (Z.div_mod start (chunksize p) ltac:(lia)) as Hdm.
  pose proof (Z.mod_pos_bound start (chunksize p) ltac:(lia)) as Hmb.
  pose proof (Z.div_pos start (chunksize p) ltac:(lia) ltac:(lia)) as Hq.
  set (c := start / chunksize p) in *. assert (c < chunks p) as Hc by nia.
  assert ((c + 1) * chunksize p <= chunks p * chunksize p) as Hfit by nia.
  split_and!.
  - apply length_blit. nia.
  - unfold chunk_of, flat'. replace (Z.to_nat start) with (Z.to_nat (c * chunksize p) + Z.to_nat off)%nat by nia.
    apply range_blit_inside; nia.
  - intros x Hx Hne. unfold chunk_of, flat'. apply range_blit_other; [nia|].
    destruct (decide (x < c)); [left|right].
    + assert ((x + 1) * chunksize p <= c * chunksize p) by nia. nia.
    + assert ((c + 1) * chunksize p <= x * chunksize p) by nia. nia.
Qed.

(** * Reading *)

(** One pass of the read loop. *)
Lemma read_step n cur cur' buf flat s d0 :
  inv [] flat s -> room s -> io_chunk (parcel (pks s)) cur = (true, cur') ->
  0 <= cur_chunk cur' < chunks (parcel (pks s)) -> 0 <= cur_offset cur' -> 0 <= cur_length cur' ->
  cur_offset cur' + cur_length cur' <= chunksize (parcel (pks s)) ->
  d0 = range (chunk_of (parcel (pks s)) flat (cur_chunk cur')) (Z.to_nat (cur_offset cur'))
         (Z.to_nat (cur_length cur')) ->
  exists s', read_loop env (S n) cur buf s = read_loop env n cur' (buf ++ d0) s' /\
    inv [] flat s' /\ room s' /\ parcel (pks s') = parcel (pks s).
Proof.
  intros Hi Hroom Hio Hc Ho Hl Hol ->.
  destruct (@entry_acquire_ok (Z * list Z) flat s (cur_chunk cur') true Hi Hroom Hc)
    as (s1 & e & d & Hacq & [Hi1 He Hd Hdl Hp Hcont Hclean]).
  specialize (Hcont ltac:(by left)). subst d.
  pose proof (eo_error _ _ _ (i_entries _ _ _ Hi1 _ _ He)) as Herr.
  destruct (@entry_release_clean_ok (Z * list Z) flat s1 (cur_chunk cur') e Hi1 He)
    as (s2 & Hrel & Hi2 & Hroom2 & Hp2); [by rewrite Hp|by rewrite Hp|].
  destruct (on_stats_ok _ _ _ bytes_read (cur_length cur') Hi2) as [(_ & Hp3 & _) Hi3].
  eexists. split; [|split; [exact Hi3|split; [exact Hroom2|simpl; by rewrite Hp2]]].
  cbn [read_loop]. step. rewrite Hio. erewrite bind_step by exact Hacq.
  erewrite bind_step by (apply entry_some; exact He). rewrite Herr, Hd.
  rewrite bind_defined by lia. erewrite bind_step by exact Hrel.
  erewrite bind_step by reflexivity. done.
Qed.

Lemma read_loop_ok n cur buf flat s start count :
  inv [] flat s -> room s -> request_ok (parcel (pks s)) start count ->
  cur_start cur = start -> cur_count cur = count ->
  0 <= cur_buf_offset cur + cur_length cur <= count ->
  count - (cur_buf_offset cur + cur_length cur) < Z.of_nat n ->
  buf = range flat (Z.to_nat start) (length buf) ->
  Z.of_nat (length buf) = cur_buf_offset cur + cur_length cur ->
  exists s', read_loop env n cur buf s =
      Some (inr (Return (Z.of_nat (length (range flat (Z.to_nat start) (Z.to_nat count))),
                         range flat (Z.to_nat start) (Z.to_nat count))), s') /\
    inv [] flat s' /\ room s' /\ parcel (pks s') = parcel (pks s).
Proof.
  revert cur buf s. induction n as [|n IH]; intros cur buf s Hi Hroom Hreq Hst Hco Hbo Hn Hbuf Hlen; [lia|].
  pose proof (healthy_chunksize _ (i_healthy _ _ _ Hi)) as Hcs.
  pose proof (healthy_chunks _ (i_healthy _ _ _ Hi)) as Hch.
  pose proof (i_flat _ _ _ Hi) as Hfl. pose proof Hreq as [Hs0 Hc0 _].
  destruct (io_chunk_spec _ cur start count Hcs Hch Hreq Hst Hco Hbo)
    as (more & cur' & Hio & Hbo' & Hst' & Hco' & Hmore).
  set (bo := cur_buf_offset cur + cur_length cur) in *. destruct more.
  - destruct Hmore as (Hin & _ & Hchunk & Hcr & Hoff & Ho0 & Hl & Hol & Hend). unfold total in *.
    set (piece := range flat (Z.to_nat (start + bo)) (Z.to_nat (cur_length cur'))).
    assert (length piece = Z.to_nat (cur_length cur')) as Hpl.
    { subst piece. rewrite length_range. lia. }
    destruct (read_step n cur cur' buf flat s piece Hi Hroom Hio) as (s1 & Hstep & Hi1 & Hroom1 & Hp1);
      [done|lia|lia|lia|rewrite Hchunk; symmetry; apply chunk_piece; lia|].
    rewrite Hstep. destruct (IH cur' (buf ++ piece) s1) as (s2 & Hrun & Hi2 & Hroom2 & Hp2);
      try done; rewrite ?Hp1; try done; try lia.
    + rewrite length_app, Hpl, <- range_app, <- Hbuf. subst piece. do 2 f_equal. lia.
    + rewrite length_app. lia.
    + exists s2. split_and!; try done. congruence.
  - exists s. split_and!; try done. cbn [read_loop]. step. rewrite Hio.
    assert (buf = range flat (Z.to_nat start) (Z.to_nat count)) as Hfin.
    { rewrite Hbuf. destruct Hmore as [[Heq _]|(Hlt & Hend & _)].
      - f_equal. lia.
      - unfold range. unfold total in Hend. rewrite !take_ge; rewrite ?length_drop; try lia. done. }
    unfold ret. rewrite <- Hfin. do 5 f_equal. rewrite Hbo', s32_id by lia. lia.
Qed.

(** * Writing *)

Lemma blit_whole (d data : list Z) : length d = length data -> blit d 0 data = data.
Proof. intros Hl. unfold blit. rewrite take_0. simpl. rewrite drop_ge by lia. apply app_nil_r. Qed.

(** The buffer of the chunk after the copy, whether its old contents were read or not. *)
Lemma write_buffer p flat start off (wd : bool) d piece e_d :
  16 <= chunksize p -> 0 <= start -> off = start mod chunksize p ->
  off + Z.of_nat (length piece) <= chunksize p -> Z.of_nat (length flat) = total p -> start < total p ->
  Z.of_nat (length d) = chunksize p -> wd = negb (bool_decide (Z.of_nat (length piece) = chunksize p)) ->
  (wd = true \/ e_d -> d = chunk_of p flat (start / chunksize p)) ->
  blit d (Z.to_nat off) piece = chunk_of p (blit flat (Z.to_nat start) piece) (start / chunksize p).
Proof.
  intros Hcs Hs Ho Hle Hfl Hlt Hdl Hwd Hd.
  destruct (chunk_write p flat start off piece Hcs Hs Ho Hle Hfl Hlt) as (_ & -> & _).
  case_bool_decide as Hw; simpl in Hwd.
  - assert (off = 0) as ->.
    { pose proof (Z.mod_pos_bound start (chunksize p) ltac:(lia)). lia. }
    assert (0 <= start / chunksize p < chunks p) as Hc.
    { unfold total in Hlt. split; [apply Z.div_pos; lia|]. apply Z.div_lt_upper_bound; lia. }
    rewrite !blit_whole; [done| |lia]. unfold chunk_of. rewrite length_range. unfold total in *. nia.
  - by rewrite Hd by (left; done).
Qed.

Lemma write_step n cur cur' buf flat s start piece :
  inv [] flat s -> room s -> io_chunk (parcel (pks s)) cur = (true, cur') ->
  0 <= start < total (parcel (pks s)) -> cur_chunk cur' = start / chunksize (parcel (pks s)) ->
  0 <= cur_chunk cur' < chunks (parcel (pks s)) ->
  cur_offset cur' = start mod chunksize (parcel (pks s)) ->
  cur_offset cur' + cur_length cur' <= chunksize (parcel (pks s)) ->
  range buf (Z.to_nat (cur_buf_offset cur')) (Z.to_nat (cur_length cur')) = piece ->
  Z.of_nat (length piece) = cur_length cur' -> bytes piece ->
  let flat' := blit flat (Z.to_nat start) piece in
  exists s', write_loop env (S n) cur buf s = write_loop env n cur' buf s' /\
    inv [] flat' s' /\ room s' /\ parcel (pks s') = parcel (pks s).
Proof.
  intros Hi Hroom Hio Hst Hch Hc Hoff Hol Hpiece Hpl Hpb flat'.
  pose proof (healthy_chunksize _ (i_healthy _ _ _ Hi)) as Hcs. pose proof (i_flat _ _ _ Hi) as Hfl.
  set (p := parcel (pks s)) in *. set (c := cur_chunk cur') in *.
  set (wd := negb (bool_decide (cur_length cur' = chunksize p))).
  destruct (@entry_acquire_ok Z flat s c wd Hi Hroom Hc)
    as (s1 & e & d & Hacq & [Hi1 He Hd Hdl Hp Hcont Hclean]). fold p in Hp, Hdl, Hcont.
  pose proof (i_entries _ _ _ Hi1 _ _ He) as Hok. rewrite Hp in Hok.
  destruct (eo_data _ _ _ Hok _ Hd) as [_ Hdb].
  destruct (chunk_write p flat start (cur_offset cur') piece) as (Hfl' & _ & Hother);
    [lia|lia|done|lia|done|lia|]. fold flat' in Hfl', Hother.
  assert (blit d (Z.to_nat (cur_offset cur')) piece = chunk_of p flat' c) as Hnd.
  { rewrite Hch. eapply (write_buffer p flat start _ wd); try done; try lia; [subst wd; by rewrite Hpl|].
    rewrite <- Hch. exact Hcont. }
  assert (bytes flat') as Hfb by (apply bytes_blit; [apply Hi|done]).
  set (e1 := set_data (Some (chunk_of p flat' c)) e).
  assert (inv [c] flat' (set_im (set_chunks (<[c := e1]> (im_chunks (im s1))) (im s1)) s1)) as Hi2.
  { apply (inv_flat_change flat); [|done|done|simpl; rewrite Hp, <- Hch in *; done].
    eapply inv_put; [done|by left|exact He| |done]. rewrite Hp. destruct Hok.
    split; simpl; try done. intros ? [= <-]. rewrite <- Hnd. split.
    - rewrite length_blit; [done|]. pose proof (Z.mod_pos_bound start (chunksize p) ltac:(lia)). lia.
    - by apply bytes_blit. }
  set (s2 := set_im _ s1) in *.
  destruct (@entry_release_dirty_ok Z flat' s2 c e1 Hi2) as (s3 & Hrel & Hi3 & Hroom3 & Hp3);
    [simpl; by rewrite lookup_insert_eq|simpl; by rewrite Hp|].
  destruct (on_stats_ok _ _ _ bytes_written (cur_length cur') Hi3) as [(_ & Hp4 & _) Hi4].
  set (s4 := set_pks _ s3) in *.
  assert (exists s5, (if bool_decide (cur_length cur' = chunksize p) then on_stats whole_chunk_updates 1
      else pk_ret ()) s4 = Some (inl () : () + exit Z, s5) /\ inv [] flat' s5 /\ room s5 /\
    parcel (pks s5) = p) as (s5 & Hst5 & Hi5 & Hroom5 & Hp5).
  { assert (parcel (pks s4) = p) by (simpl; by rewrite Hp3).
    destruct (bool_decide _); [|by exists s4].
    destruct (on_stats_ok _ _ _ whole_chunk_updates 1 Hi4) as [_ ?]. eexists. by split_and!. }
  exists s5. split_and!; try done.
  cbn [write_loop]. step. fold p. rewrite Hio. fold c wd. erewrite bind_step by exact Hacq.
  erewrite bind_step by (apply entry_some; exact He). rewrite (eo_error _ _ _ Hok), Hd.
  change (take _ (drop _ buf)) with
    (range buf (Z.to_nat (cur_buf_offset cur')) (Z.to_nat (cur_length cur'))). rewrite Hpiece.
  rewrite bind_defined by lia. rewrite bind_defined by done. rewrite Hnd. fold e1.
  erewrite bind_step by reflexivity. fold s2. erewrite bind_step by exact Hrel.
  erewrite bind_step by reflexivity. fold s4. erewrite bind_step by exact Hst5. done.
Qed.

(** How much of a write fits on the disk, and what is returned for it. *)
Definition fits (p : pk_parcel) (start count : Z) : Z := Z.min count (Z.max 0 (total p - start)).

Definition write_result (p : pk_parcel) (start count : Z) : Z :=
  if decide (fits p start count = 0 /\ 0 < count) then - ENOSPC else fits p start count.

Definition disk_write (p : pk_parcel) (flat buf : list Z) (start count : Z) : list Z :=
  blit flat (Z.to_nat start) (take (Z.to_nat (fits p start count)) buf).

Lemma write_loop_ok n cur buf flat s start count :
  let bo := cur_buf_offset cur + cur_length cur in
  inv [] (blit flat (Z.to_nat start) (take (Z.to_nat bo) buf)) s -> room s ->
  Z.of_nat (length flat) = total (parcel (pks s)) ->
  request_ok (parcel (pks s)) start count ->
  cur_start cur = start -> cur_count cur = count -> cur_eof cur = false ->
  0 <= bo <= count -> bo = 0 \/ start + bo <= total (parcel (pks s)) ->
  count - bo < Z.of_nat n -> Z.of_nat (length buf) = count -> bytes buf ->
  exists s', write_loop env n cur buf s =
      Some (inr (Return (write_result (parcel (pks s)) start count)), s') /\
    inv [] (disk_write (parcel (pks s)) flat buf start count) s' /\ room s' /\
    parcel (pks s') = parcel (pks s).
Proof.
  revert cur s. induction n as [|n IH]; intros cur s bo Hi Hroom Hfl Hreq Hst Hco Heof Hbo Hin Hn Hbl Hbb; [lia|].
  pose proof (healthy_chunksize _ (i_healthy _ _ _ Hi)) as Hcs.
  pose proof (healthy_chunks _ (i_healthy _ _ _ Hi)) as Hch.
  pose proof Hreq as [Hs0 Hc0 _].
  destruct (io_chunk_spec _ cur start count Hcs Hch Hreq Hst Hco Hbo)
    as (more & cur' & Hio & Hbo' & Hst' & Hco' & Hmore). fold bo in Hbo', Hmore.
  destruct more.
  - destruct Hmore as (Hlt & Heof' & Hchunk & Hcr & Hoff & Ho0 & Hl & Hol & Hend).
    set (piece := range buf (Z.to_nat (cur_buf_offset cur')) (Z.to_nat (cur_length cur'))).
    assert (length piece = Z.to_nat (cur_length cur')) as Hpl.
    { subst piece. rewrite length_range. lia. }
    destruct (write_step n cur cur' buf _ s (start + bo) piece Hi Hroom Hio)
      as (s1 & Hstep & Hi1 & Hroom1 & Hp1); try done; try lia; [by apply bytes_range|].
    rewrite Hstep. destruct (IH cur' s1) as (s2 & Hrun & Hi2 & Hroom2 & Hp2);
      rewrite ?Hp1 in *; try done; try lia; [| |by exists s2].
    + assert (length (take (Z.to_nat bo) buf) = Z.to_nat bo) as Htl by (rewrite length_take; lia).
      replace (Z.to_nat (start + bo)) with (Z.to_nat start + length (take (Z.to_nat bo) buf))%nat in Hi1 by lia.
      rewrite blit_app_next in Hi1 by lia.
      replace (take (Z.to_nat (cur_buf_offset cur' + cur_length cur')) buf)
        with (take (Z.to_nat bo) buf ++ piece); [done|].
      subst piece. rewrite Hbo'. pose proof (range_app buf 0 (Z.to_nat bo) (Z.to_nat (cur_length cur'))) as Hra.
      unfold range in *. rewrite Nat.add_0_l, !drop_0 in Hra. rewrite Hra. f_equal. lia.
    + congruence.
  - exists s. cbn [write_loop]. step. rewrite Hio, Hbo'. unfold write_result, disk_write, fits.
    destruct Hmore as [[Heq Heof']|(Hlt & Hend & Heof')]; rewrite Heof'.
    + rewrite Heof, decide_False by (by intros []).
      replace (Z.min count (Z.max 0 (total (parcel (pks s)) - start))) with bo by lia.
      rewrite decide_False by lia. split_and!; try done. unfold ret. by rewrite s32_id by lia.
    + replace (Z.min count (Z.max 0 (total (parcel (pks s)) - start))) with bo by lia.
      destruct (decide (bo = 0)) as [Hz|Hz].
      * rewrite !decide_True by (done || lia). by split_and!.
      * rewrite !decide_False by (intros [? ?]; lia). split_and!; try done. unfold ret. by rewrite s32_id by lia.
Qed.

(** * Writing back *)

Lemma length_queue_delete c q : NoDup q -> c ∈ q -> (length (queue_delete c q) < length q)%nat.
Proof.
  intros _ Hc. unfold queue_delete. induction q as [|x q IH]; [by apply not_elem_of_nil in Hc|].
  rewrite filter_cons. pose proof (length_filter (fun y => y <> c) q) as Hle.
  destruct (decide (x <> c)) as [Hne|Heq]; simpl.
  - apply elem_of_cons in Hc as [->|Hc]; [done|]. specialize (IH Hc). lia.
  - lia.
Qed.

Lemma clean_loop_ok {R} n force flat s :
  inv [] flat s -> (length (im_dirty (im s)) < n)%nat ->
  exists s', (clean_loop env n force : pk fuse_state R ()) s = Some (inl (), s') /\ inv [] flat s' /\
    (room s -> room s') /\ parcel (pks s') = parcel (pks s) /\ (force = true -> im_dirty (im s') = []).
Proof.
  revert s. induction n as [|n IH]; intros s Hi Hn; [lia|]. cbn [clean_loop]. step.
  destruct (im_dirty (im s)) as [|c q] eqn:Hq.
  { exists s. by split_and!. }
  assert (c ∈ im_dirty (im s)) as Hcq by (rewrite Hq; by left).
  pose proof Hcq as Hcd. apply (i_dirty _ _ _ Hi) in Hcd as (e & He & Hnz).
  pose proof (eo_range _ _ _ (i_entries _ _ _ Hi _ _ He)) as Hc.
  pose proof (i_view _ _ _ Hi c Hc (not_elem_of_nil c)) as Hv. rewrite He in Hv.
  destruct Hv as (_ & Hd & _).
  destruct (@_entry_acquire_ok R [] flat s c e Hi (not_elem_of_nil c) He) as [Hacq Hi1].
  set (s1 := taken c e s) in *.
  assert (im_chunks (im s1) !! c = Some (set_busy true e)) as He1 by (simpl; by rewrite lookup_insert_eq).
  erewrite bind_step by exact Hacq. erewrite bind_step by (apply entry_some; exact He1). step.
  rewrite decide_False by done. destruct (decide (force = false /\ _)) as [[-> _]|Hripe].
  - destruct (@_entry_release_ok R [] flat s1 c _ Hi1 (not_elem_of_nil c) He1 Hd) as [Hrel Hi2]; [done|].
    exists (released c (set_busy true e) s1). split_and!; try done. intros _. apply released_room.
  - destruct (@entry_clean_ok R [c] flat s1 c _ _ Hi1 ltac:(by left) He1 Hnz Hd)
      as (p & Hcl & (_ & Hp & _) & Hrd & Hi2).
    set (s2 := cleaned c _ p s1) in *. erewrite bind_step by exact Hcl.
    assert (im_chunks (im s2) !! c = Some (set_dirty 0 (set_busy true e))) as He2
      by (simpl; by rewrite lookup_insert_eq).
    destruct (@_entry_release_ok R [] flat s2 c _ Hi2 (not_elem_of_nil c) He2) as [Hrel Hi3];
      [simpl; by rewrite Hp|simpl; by rewrite Hp|].
    erewrite bind_step by exact Hrel. destruct (IH (released c _ s2) Hi3) as (s4 & Hrun & Hi4 & Hr4 & Hp4 & Hf4).
    { simpl. pose proof (length_queue_delete c _ (i_nodup_dirty _ _ _ Hi) Hcq) as Hlt.
      rewrite Hq in Hlt. rewrite Hq. simpl in *. lia. }
    exists s4. split_and!; try done; [intros _; apply Hr4, released_room|]. by rewrite Hp4.
Qed.

Lemma entry_clean_all_ok {R} force flat s :
  inv [] flat s ->
  exists s', (entry_clean_all env force : pk fuse_state R ()) s = Some (inl (), s') /\ inv [] flat s' /\
    (room s -> room s') /\ parcel (pks s') = parcel (pks s) /\ (force = true -> im_dirty (im s') = []).
Proof. intros Hi. unfold entry_clean_all. step. apply clean_loop_ok; [done|lia]. Qed.

(** * Shutting down *)

Lemma free_loop_ok n flat s :
  inv [] flat s -> im_dirty (im s) = [] -> (length (im_reclaimable (im s)) < n)%nat ->
  exists s', free_loop n s = Some (inl (), s') /\ inv [] flat s' /\
    parcel (pks s') = parcel (pks s) /\ im_chunks (im s') = ∅.
Proof.
  revert s. induction n as [|n IH]; intros s Hi Hnd Hn; [lia|]. cbn [free_loop]. step.
  destruct (im_reclaimable (im s)) as [|r q] eqn:Hq.
  { exists s. split_and!; try done. apply map_empty. intros c.
    destruct (im_chunks (im s) !! c) as [e|] eqn:He; [|done].
    assert (c ∈ im_reclaimable (im s)) as Hin; [|rewrite Hq in Hin; by apply not_elem_of_nil in Hin].
    apply (i_recl _ _ _ Hi). split; [by eexists|apply not_elem_of_nil]. }
  assert (r ∈ im_reclaimable (im s)) as Hrq by (rewrite Hq; by left).
  pose proof Hrq as [[e He] _]%(i_recl _ _ _ Hi).
  pose proof (eo_range _ _ _ (i_entries _ _ _ Hi _ _ He)) as Hr.
  pose proof (i_view _ _ _ Hi r Hr (not_elem_of_nil r)) as Hv. rewrite He in Hv.
  destruct Hv as (_ & Hd & Hrd).
  assert (e_dirty e = 0) as Hz.
  { destruct (decide (e_dirty e = 0)) as [|Hnz]; [done|].
    assert (r ∈ im_dirty (im s)) as Hin by (apply (i_dirty _ _ _ Hi); eauto).
    rewrite Hnd in Hin. by apply not_elem_of_nil in Hin. }
  destruct (@_entry_acquire_ok () [] flat s r e Hi (not_elem_of_nil r) He) as [Hacq Hi1].
  set (s1 := taken r e s) in *.
  assert (im_chunks (im s1) !! r = Some (set_busy true e)) as He1 by (simpl; by rewrite lookup_insert_eq).
  destruct (@evict_ok () [] flat s1 r _ Hi1 (not_elem_of_nil r) He1 Hz (Hrd Hz)) as (p & Hev & Hi2 & _ & Hp & _).
  set (s2 := mk_fuse p _ _) in *. destruct (IH s2 Hi2) as (s3 & Hrun & Hi3 & Hp3 & He3).
  { done. }
  { pose proof (length_queue_delete r _ (i_nodup_recl _ _ _ Hi) Hrq) as Hlt.
    simpl. rewrite Hq in *. simpl in *. lia. }
  exists s3. split_and!; try done; [|by rewrite Hp3].
  erewrite bind_step by exact Hacq. erewrite bind_step by (apply entry_some; exact He1). step.
  simpl. rewrite Hd. erewrite bind_step3 by exact Hev. exact Hrun.
Qed.
End proofs.
