(* ===== verification/Disk.v ===== *)
(** Disk: the virtual disk as its users see it.

    An abstract disk is a flat list of bytes; [disk_perform] says what each operation does to it.
    The image of Image.v, over the local cache, is shown to refine it: for any sequence of
    requests, cleaner rounds and syncs, from image_init to image_shutdown. *)

From S2P Require Import Prelude Compress LzfStream Chunk Effects Sql Pk Cache CacheProofs Image ImageProofs.

(** * Operations, concrete and abstract *)

Inductive disk_op :=
  | Op_read (start count : Z)
  | Op_write (start : Z) (buf : list Z)
  | Op_sync
  | Op_clean
  | Op_tick (t : Z).

Inductive reply := Did_read (n : Z) (buf : list Z) | Did_write (n : Z) | Did.

Section concrete.
Context (env : compress_env) `{!ChunkSource}.

(** The operation on the image; [Op_clean] is a round of the cleaner thread, and [Op_tick] the
    passing of time. *)
Definition perform (op : disk_op) (s : fuse_state) : option (reply * fuse_state) :=
  match op with
  | Op_read start count => '((n, buf), s) ← image_read env start count s; Some (Did_read n buf, s)
  | Op_write start buf =>
      '(n, s) ← image_write env buf start (Z.of_nat (length buf)) s; Some (Did_write n, s)
  | Op_sync => '(_, s) ← image_sync env s; Some (Did, s)
  | Op_clean => '(_, s) ← entry_cleaner env s; Some (Did, s)
  | Op_tick t => Some (Did, mk_fuse (pks s) (im s) t)
  end.

Fixpoint perform_all (ops : list disk_op) (s : fuse_state) : option (list reply * fuse_state) :=
  match ops with
  | [] => Some ([], s)
  | op :: ops =>
      '(r, s) ← perform op s;
      '(rs, s) ← perform_all ops s;
      Some (r :: rs, s)
  end.
End concrete.

Definition disk_perform (p : pk_parcel) (op : disk_op) (flat : list Z) : reply * list Z :=
  match op with
  | Op_read start count =>
      let buf := range flat (Z.to_nat start) (Z.to_nat count) in
      (Did_read (Z.of_nat (length buf)) buf, flat)
  | Op_write start buf =>
      let count := Z.of_nat (length buf) in
      (Did_write (write_result p start count), disk_write p flat buf start count)
  | Op_sync | Op_clean | Op_tick _ => (Did, flat)
  end.

Fixpoint disk_all (p : pk_parcel) (ops : list disk_op) (flat : list Z) : list reply * list Z :=
  match ops with
  | [] => ([], flat)
  | op :: ops =>
      let '(r, flat) := disk_perform p op flat in
      let '(rs, flat) := disk_all p ops flat in
      (r :: rs, flat)
  end.

Definition op_ok (p : pk_parcel) (op : disk_op) : Prop :=
  match op with
  | Op_read start count => request_ok p start count
  | Op_write start buf => request_ok p start (Z.of_nat (length buf)) /\ bytes buf
  | Op_tick t => 0 < t
  | Op_sync | Op_clean => True
  end.

(** * Simulation *)

Section simulation.
Context (env : compress_env) `{!ChunkSource} `{!ChunkStore env}.
Context (junk_byte : is_u 8 (e_junk env)).

Lemma image_read_ok flat s start count :
  inv env [] flat s -> room s -> request_ok (parcel (pks s)) start count ->
  let buf := range flat (Z.to_nat start) (Z.to_nat count) in
  exists s', image_read env start count s = Some ((Z.of_nat (length buf), buf), s') /\
    inv env [] flat s' /\ room s' /\ parcel (pks s') = parcel (pks s).
Proof.
  intros Hi Hroom Hreq. pose proof Hreq as [_ Hc _].
  destruct (read_loop_ok env junk_byte (S (Z.to_nat count)) (io_start start count) [] flat s start count)
    as (s' & Hrun & Hs'); try done; simpl; try lia.
  exists s'. split; [|done]. unfold image_read, body. by rewrite Hrun.
Qed.

Lemma image_write_ok flat s buf start count :
  inv env [] flat s -> room s -> request_ok (parcel (pks s)) start count ->
  Z.of_nat (length buf) = count -> bytes buf ->
  exists s', image_write env buf start count s = Some (write_result (parcel (pks s)) start count, s') /\
    inv env [] (disk_write (parcel (pks s)) flat buf start count) s' /\ room s' /\
    parcel (pks s') = parcel (pks s).
Proof.
  intros Hi Hroom Hreq Hl Hb. pose proof Hreq as [_ Hc _]. pose proof (i_flat _ _ _ _ Hi) as Hfl.
  destruct (write_loop_ok env junk_byte (S (Z.to_nat count)) (io_start start count) buf flat s start count)
    as (s' & Hrun & Hs'); try done; simpl; try lia.
  - rewrite take_0. unfold blit. simpl. rewrite Nat.add_0_r, take_drop. done.
  - exists s'. split; [|done]. unfold image_write, body. by rewrite Hrun.
Qed.

Lemma clean_all_ok force flat s :
  inv env [] flat s ->
  exists s', body (entry_clean_all env force) s = Some ((), s') /\ inv env [] flat s' /\
    (room s -> room s') /\ parcel (pks s') = parcel (pks s) /\ (force = true -> im_dirty (im s') = []).
Proof.
  intros Hi. destruct (@entry_clean_all_ok env _ _ () force flat s Hi) as (s' & Hrun & Hs').
  exists s'. split; [|done]. unfold body. by rewrite Hrun.
Qed.

Lemma perform_ok op flat s :
  inv env [] flat s -> room s -> op_ok (parcel (pks s)) op ->
  let '(r, flat') := disk_perform (parcel (pks s)) op flat in
  exists s', perform env op s = Some (r, s') /\ inv env [] flat' s' /\ room s' /\
    parcel (pks s') = parcel (pks s).
Proof.
  intros Hi Hroom Hop. destruct op as [start count|start buf| | |t]; simpl in *.
  - destruct (image_read_ok flat s start count Hi Hroom Hop) as (s' & -> & ?). by exists s'.
  - destruct Hop as [Hreq Hb].
    destruct (image_write_ok flat s buf start _ Hi Hroom Hreq eq_refl Hb) as (s' & -> & ?). by exists s'.
  - unfold image_sync. destruct (clean_all_ok true flat s Hi) as (s' & -> & ? & ? & ? & _). exists s'. auto.
  - unfold entry_cleaner. destruct (clean_all_ok false flat s Hi) as (s' & -> & ? & ? & ? & _).
    exists s'. auto.
  - eexists. split; [done|]. split_and!; try done. by destruct Hi.
Qed.

Lemma perform_all_ok ops flat s :
  inv env [] flat s -> room s -> Forall (op_ok (parcel (pks s))) ops ->
  exists s', perform_all env ops s = Some (fst (disk_all (parcel (pks s)) ops flat), s') /\
    inv env [] (snd (disk_all (parcel (pks s)) ops flat)) s' /\ room s' /\
    parcel (pks s') = parcel (pks s).
Proof.
  revert flat s. induction ops as [|op ops IH]; intros flat s Hi Hroom Hops; simpl; [by exists s|].
  apply Forall_cons in Hops as [Hop Hops]. pose proof (perform_ok op flat s Hi Hroom Hop) as Hone.
  destruct (disk_perform _ op flat) as [r flat1]. destruct Hone as (s1 & -> & Hi1 & Hr1 & Hp1). simpl.
  destruct (IH flat1 s1 Hi1 Hr1) as (s2 & Hall & Hi2 & Hr2 & Hp2); [by rewrite Hp1|].
  rewrite Hp1 in *. exists s2. rewrite Hall. by destruct (disk_all _ ops flat1) as [rs flat2].
Qed.

Lemma image_shutdown_ok flat s :
  inv env [] flat s ->
  exists s', image_shutdown env s = Some ((), s') /\ inv env [] flat s' /\
    parcel (pks s') = parcel (pks s) /\ im_chunks (im s') = ∅.
Proof.
  intros Hi. unfold image_shutdown, body.
  set (s0 := set_im (set_stopping true (im s)) s).
  assert (inv env [] flat s0) as Hi0 by (by destruct Hi).
  destruct (@entry_clean_all_ok env _ _ () true flat s0 Hi0) as (s1 & Hcl & Hi1 & _ & Hp1 & Hd1).
  destruct (free_loop_ok env (S (length (im_reclaimable (im s1)))) flat s1 Hi1 (Hd1 eq_refl))
    as (s2 & Hfr & Hi2 & Hp2 & He2); [lia|].
  exists s2. split_and!; try done; [|by rewrite Hp2, Hp1].
  unfold on_image. step. fold s0. erewrite bind_step by exact Hcl. step.
  erewrite bind_step by exact Hfr. step. unfold defined. by rewrite decide_True.
Qed.
End simulation.

(** * Sessions *)

(** The parcel, as the local cache, the hoard cache and the server hold it, has the contents
    [flat]. *)
Record holds (env : compress_env) `{!ChunkSource} (p : pk_state) (flat : list Z) : Prop := mk_holds {
  ho_length : Z.of_nat (length flat) = total (parcel p);
  ho_bytes : bytes flat;
  ho_chunks c : 0 <= c < chunks (parcel p) -> readable env p c (chunk_of (parcel p) flat c)
}.

(** The configured size of the chunk cache, as a number of chunks, is not zero and does not
    overflow. *)
Definition cache_size_ok (p : pk_state) : Prop :=
  0 < chunk_cache (conf p) * (2 ^ 20 / chunksize (parcel p)) < 2 ^ 32.

(** From image_init to image_shutdown, with the operations in between. *)
Definition session (env : compress_env) `{!ChunkSource} (pages page_size : Z) (p : pk_state) (t : Z)
    (ops : list disk_op) : option (list reply * pk_state) :=
  let '(err, s) := image_init pages page_size true p t in
  if decide (err = PK_SUCCESS) then
    '(rs, s) ← perform_all env ops s;
    '(_, s) ← image_shutdown env s;
    Some (rs, pks s)
  else None.

Section sessions.
Context (env : compress_env) `{!ChunkSource} `{!ChunkStore env}.
Context (junk_byte : is_u 8 (e_junk env)).

(** An image without any entry. *)
Lemma fresh_inv p flat n t :
  healthy p -> holds env p flat -> 0 < t ->
  inv env [] flat (mk_fuse p (mk_image ∅ [] [] n false false) t).
Proof.
  intros Hh [Hl Hb Hc] Ht. split; simpl; try done; [apply NoDup_nil_2| |apply NoDup_nil_2| |].
  - intros c. split; [by intros ?%not_elem_of_nil|]. intros (e & He & _). by rewrite lookup_empty in He.
  - intros c. split; [by intros ?%not_elem_of_nil|]. intros [[e He] _]. by rewrite lookup_empty in He.
  - intros c Hr _. rewrite lookup_empty. by apply Hc.
Qed.

Lemma image_init_ok pages page_size thread p t flat s :
  image_init pages page_size thread p t = (PK_SUCCESS, s) -> healthy p -> holds env p flat ->
  cache_size_ok p -> 0 < t -> inv env [] flat s /\ room s /\ parcel (pks s) = parcel p.
Proof.
  intros Hinit Hh Hho Hsz Ht. unfold image_init in Hinit.
  destruct (decide _); [done|]. destruct (decide _); [done|]. injection Hinit as _ <-.
  split_and!; [by apply fresh_inv|left; simpl|done].
  unfold cache_size_ok in Hsz. change (Z.shiftl 1 20) with (2 ^ 20). rewrite u32_id; unfold is_u; lia.
Qed.

Lemma inv_empty_holds flat s : inv env [] flat s -> im_chunks (im s) = ∅ -> holds env (pks s) flat.
Proof.
  intros Hi He. split; [apply Hi..|]. intros c Hc.
  pose proof (i_view _ _ _ _ Hi c Hc (not_elem_of_nil c)) as Hv. by rewrite He in Hv.
Qed.

Lemma session_ok pages page_size p t ops flat :
  healthy p -> holds env p flat -> cache_size_ok p -> 0 < t -> Forall (op_ok (parcel p)) ops ->
  fst (image_init pages page_size true p t) = PK_SUCCESS ->
  exists p', session env pages page_size p t ops = Some (fst (disk_all (parcel p) ops flat), p') /\
    healthy p' /\ parcel p' = parcel p /\ holds env p' (snd (disk_all (parcel p) ops flat)).
Proof.
  intros Hh Hho Hsz Ht Hops Hinit. unfold session.
  destruct (image_init _ _ _ _ _) as [err s0] eqn:Hi0. simpl in Hinit. subst err.
  destruct (image_init_ok _ _ _ _ _ _ _ Hi0 Hh Hho Hsz Ht) as (Hi & Hroom & Hp).
  rewrite <- Hp in Hops. destruct (perform_all_ok env junk_byte ops flat s0 Hi Hroom Hops)
    as (s1 & Hrun & Hi1 & _ & Hp1). rewrite Hp in *.
  destruct (image_shutdown_ok env _ s1 Hi1) as (s2 & Hsd & Hi2 & Hp2 & He2).
  exists (pks s2). rewrite decide_True by done. rewrite Hrun. simpl. rewrite Hsd. simpl.
  split_and!; [done|apply Hi2|congruence|]. by apply inv_empty_holds.
Qed.
End sessions.

(** * Properties *)

(** C1: the virtual disk, from image_init to image_shutdown, is a flat array of bytes.  Whatever
    reads and writes (of any range that ends within 2^32 chunks, of whole chunks or parts of them, across
    chunks or past the end of the disk), syncs, rounds of the cleaner and passing of time come in between, with any
    size of the chunk cache, and however often SQLite reports contention (nothing else fails): the session does not
    fault or block, every request gets the reply that the array gives, and after the shutdown
    the local cache gives back exactly the array's final contents, chunk by chunk. *)
Theorem image_session_refines env (src : ChunkSource) pages page_size p t ops flat :
  zlib_ok (e_zlib env) -> is_u 8 (e_junk env) ->
  healthy p -> holds env p flat -> cache_size_ok p -> 0 < t -> Forall (op_ok (parcel p)) ops ->
  fst (image_init pages page_size true p t) = PK_SUCCESS ->
  exists p', session env pages page_size p t ops = Some (fst (disk_all (parcel p) ops flat), p') /\
    forall c, 0 <= c < chunks (parcel p) -> exists p'',
      cache_get env c p' =
        Some ((PK_SUCCESS, chunk_of (parcel p) (snd (disk_all (parcel p) ops flat)) c), p'').
Proof.
  intros Hz Hj Hh Hho Hsz Ht Hops Hinit.
  pose proof (@cache_store env (chunk_codec env Hz Hj) src) as Hcs.
  destruct (session_ok env Hj _ _ _ _ _ _ Hh Hho Hsz Ht Hops Hinit) as (p' & Hs & Hh' & Hp & [_ _ Hc]).
  exists p'. split; [done|]. rewrite Hp in Hc. intros c Hcr.
  destruct (store_get p' c _ Hh' ltac:(by rewrite Hp) (Hc c Hcr)) as (p'' & Hg & _). by exists p''.
Qed.

(** The invariant of the image (entries, dirty and reclaimable queues, contents of every
    chunk in memory or in the local cache, a buffer to be had) is kept by every operation, and
    the operation's reply is that of the flat disk. *)
Theorem image_op_preserves_inv env (src : ChunkSource) op flat s :
  zlib_ok (e_zlib env) -> is_u 8 (e_junk env) ->
  inv env [] flat s -> room s -> op_ok (parcel (pks s)) op ->
  exists s', perform env op s = Some (fst (disk_perform (parcel (pks s)) op flat), s') /\
    inv env [] (snd (disk_perform (parcel (pks s)) op flat)) s' /\ room s'.
Proof.
  intros Hz Hj Hi Hr Hop. pose proof (@cache_store env (chunk_codec env Hz Hj) src) as Hcs.
  pose proof (perform_ok env Hj op flat s Hi Hr Hop) as Hone.
  destruct (disk_perform _ op flat) as [r flat']. destruct Hone as (s' & ? & ? & ? & _). by exists s'.
Qed.

(** C12: image_sync makes writes durable: it ends with no dirty chunk, and if the process and
    its chunk cache are lost right afterwards, the local cache alone has the contents of the
    disk. *)
Theorem image_sync_durable env (src : ChunkSource) flat s :
  zlib_ok (e_zlib env) -> is_u 8 (e_junk env) -> inv env [] flat s ->
  exists s', image_sync env s = Some ((), s') /\ im_dirty (im s') = [] /\ holds env (pks s') flat.
Proof.
  intros Hz Hj Hi. pose proof (@cache_store env (chunk_codec env Hz Hj) src) as Hcs.
  destruct (clean_all_ok env true flat s Hi) as (s' & Hrun & Hi' & _ & _ & Hd).
  specialize (Hd eq_refl). exists s'. split_and!; [done|done|].
  split; [apply Hi'..|]. intros c Hc. pose proof (i_view _ _ _ _ Hi' c Hc (not_elem_of_nil c)) as Hv.
  destruct (im_chunks (im s') !! c) as [e|] eqn:He; [|done]. destruct Hv as (_ & _ & Hv).
  apply Hv. destruct (decide (e_dirty e = 0)) as [|Hnz]; [done|].
  assert (c ∈ im_dirty (im s')) as Hin by (apply (i_dirty _ _ _ _ Hi'); eauto).
  rewrite Hd in Hin. by apply not_elem_of_nil in Hin.
Qed.

(** A chunk number is taken modulo 2^32: shifting a request by 2^32 chunks does not change the
    piece it starts with. *)
Lemma io_chunk_wrap p start count :
  16 <= chunksize p < 2 ^ 31 -> is_u 32 (chunks p) -> 0 <= start < total p ->
  0 < count -> start mod chunksize p + count <= chunksize p ->
  io_chunk p (io_start (start + 2 ^ 32 * chunksize p) count) =
    (true, mk_cursor (start / chunksize p) (start mod chunksize p) count 0 false
             (start + 2 ^ 32 * chunksize p) count).
Proof.
  intros Hcs [_ Hch] Hs Hc Hle. unfold total in Hs. set (cs := chunksize p) in *.
  pose proof (Z.mod_pos_bound start cs ltac:(lia)) as Hm.
  pose proof (Z.div_mod start cs ltac:(lia)) as Hd.
  assert (0 <= start / cs < chunks p) as Hq.
  { split; [apply Z.div_pos; lia|apply Z.div_lt_upper_bound; lia]. }
  unfold io_chunk, io_start. cbn [cur_buf_offset cur_length cur_start cur_count cur_chunk cur_eof].
  fold cs. change (u32 (0 + 0)) with 0. rewrite decide_False by lia.
  rewrite Z.add_0_r, Z.quot_div_nonneg, Z.div_add by lia.
  assert (u32 (start / cs + 2 ^ 32) = start / cs) as ->.
  { unfold u32. rewrite <- (Z.mul_1_l (2 ^ 32)) at 1. rewrite Z.mod_add by lia.
    apply Z.mod_small. lia. }
  rewrite decide_False by lia.
  assert (u32 (start + 2 ^ 32 * cs - u32 (start / cs * cs)) = start mod cs) as ->.
  { unfold u32. rewrite Zminus_mod_idemp_r.
    replace (start + 2 ^ 32 * cs - start / cs * cs) with (start mod cs + cs * 2 ^ 32) by lia.
    rewrite Z.mod_add by lia. apply Z.mod_small. lia. }
  rewrite (u32_id (cs - start mod cs)) by (unfold is_u; lia).
  rewrite Z.min_r, Z.sub_0_r, u32_id by (unfold is_u; lia). done.
Qed.

(** A write far past the end of the disk is not refused with -ENOSPC but overwrites data: the
    chunk number of an offset is truncated to 32 bits, so that a write at 2^32 chunks past
    [start] succeeds and changes the bytes at [start]. *)
Theorem image_write_wraps env (src : ChunkSource) flat s buf start :
  zlib_ok (e_zlib env) -> is_u 8 (e_junk env) ->
  inv env [] flat s -> room s -> 0 <= start < total (parcel (pks s)) -> bytes buf -> buf <> [] ->
  start mod chunksize (parcel (pks s)) + Z.of_nat (length buf) <= chunksize (parcel (pks s)) ->
  exists s', image_write env buf (start + 2 ^ 32 * chunksize (parcel (pks s))) (Z.of_nat (length buf)) s
      = Some (Z.of_nat (length buf), s') /\
    inv env [] (blit flat (Z.to_nat start) buf) s'.
Proof.
  intros Hz Hj Hi Hr Hs Hb Hne Hle. pose proof (@cache_store env (chunk_codec env Hz Hj) src) as Hst.
  pose proof (healthy_chunksize _ (i_healthy _ _ _ _ Hi)) as Hcs.
  pose proof (healthy_chunks _ (i_healthy _ _ _ _ Hi)) as Hch.
  assert (0 < length buf)%nat as Hpos by (destruct buf; simpl; [done|lia]).
  pose proof (Z.mod_pos_bound start (chunksize (parcel (pks s))) ltac:(lia)) as Hm.
  pose proof (io_chunk_wrap (parcel (pks s)) start (Z.of_nat (length buf)) Hcs Hch Hs ltac:(lia) Hle) as Hio.
  destruct (write_step env Hj (length buf) _ _ buf flat s start buf Hi Hr Hio) as (s1 & Hrun & Hi1 & _); try done.
  { simpl. unfold total in Hs. split; [apply Z.div_pos; lia|apply Z.div_lt_upper_bound; lia]. }
  { simpl. unfold range. rewrite drop_0, Nat2Z.id. apply firstn_all. }
  exists s1. split; [|done]. unfold image_write, body. rewrite Nat2Z.id, Hrun.
  destruct (length buf) as [|n] eqn:Hn; [lia|]. cbn [write_loop]. step.
  unfold io_chunk. cbn [cur_buf_offset cur_length cur_start cur_count cur_chunk cur_eof].
  rewrite Z.add_0_l, u32_id by (unfold is_u; lia). rewrite decide_True by lia.
  cbn [cur_buf_offset cur_eof]. rewrite decide_False by (by intros []).
  unfold ret. rewrite s32_id by lia. done.
Qed.

(** With chunks of more than 1 MB the chunk cache gets no buffer at all: image_init succeeds,
    and the first read of the disk then waits for a buffer for ever. *)
Theorem image_init_no_buffers env (src : ChunkSource) pages page_size p t start count :
  2 ^ 20 < chunksize p.(parcel) < 2 ^ 31 -> is_u 32 (chunks (parcel p)) ->
  request_ok (parcel p) start count -> 0 < count -> start < total (parcel p) ->
  fst (image_init pages page_size true p t) = PK_SUCCESS ->
  image_read env start count (snd (image_init pages page_size true p t)) = None.
Proof.
  intros Hcs Hch Hreq Hc Hs Hinit. unfold image_init in *.
  destruct (decide _); [done|]. destruct (decide _); [done|]. simpl. change (Z.shiftl 1 20) with (2 ^ 20).
  rewrite Z.div_small, Z.mul_0_r by lia. change (u32 0) with 0.
  destruct (io_chunk_spec (parcel p) (io_start start count) start count ltac:(lia) Hch Hreq eq_refl eq_refl)
    as (more & cur' & Hio & _ & _ & _ & Hmore); [simpl; lia|]. simpl in Hmore.
  destruct more; [|destruct Hmore as [[? _]|(_ & ? & _)]; lia].
  unfold image_read, body. cbn [read_loop]. step. cbn [pks]. rewrite Hio.
  unfold entry_acquire, mbind, pk_mbind, pk_bind, gets. simpl. rewrite lookup_empty.
  unfold _entry_acquire, put_entry, delete_reclaimable, entry, on_image, modify, mbind, pk_mbind, pk_bind. simpl.
  rewrite lookup_insert_eq. simpl. rewrite lookup_insert_eq. done.
Qed.

(** The end of entry_clean. *)
Lemma entry_clean_finish s c e :
  cache_wf (pks s) -> 0 <= c < chunks (parcel (pks s)) -> im_chunks (im s) !! c = Some e ->
  exists m, (e ← entry c; _ ← put_entry c (set_dirty 0 e);
             on_shm (cache_shm_set_cache_dirty c false) : pk fuse_state () ()) s =
      Some (inl (), mk_fuse (set_shm m (pks s)) (set_chunks (<[c := set_dirty 0 e]> (im_chunks (im s))) (im s)) (now s)) /\
    cache_wf (set_shm m (pks s)).
Proof.
  intros Hwf Hc He. destruct (@shm_update_ok () c 0 SHM_CACHE_DIRTY (pks s)) as (m & Hm & Hml);
    [apply (g_shm _ (wf_geometry _ Hwf))|done|].
  exists m. split; [|destruct Hwf as [[]]; by split].
  erewrite bind_step by (apply entry_some; exact He). erewrite bind_step by reflexivity.
  unfold on_shm, cache_shm_set_cache_dirty. simpl. by rewrite Hm.
Qed.

(** C13: writing back a dirty chunk never fails silently, whatever fails in the database or in the
    cache file: either the chunk's contents are in the local cache, or the entry is marked as
    failed, so that reads and writes of it return -EIO, and the cache is left marked dirty. *)
Theorem entry_clean_never_silent env c e d s :
  zlib_ok (e_zlib env) -> is_u 8 (e_junk env) ->
  cache_wf (pks s) -> 0 <= c < chunks (parcel (pks s)) -> in_keyring (pks s) c ->
  im_chunks (im s) !! c = Some e -> 0 < e_dirty e -> c ∈ im_dirty (im s) ->
  e_data e = Some d -> bytes d -> Z.of_nat (length d) = chunksize (parcel (pks s)) ->
  exists s' e', (entry_clean env c : pk fuse_state () ()) s = Some (inl (), s') /\
    cache_wf (pks s') /\ im_dirty (im s') = queue_delete c (im_dirty (im s)) /\
    im_chunks (im s') !! c = Some e' /\ e_dirty e' = 0 /\ e_data e' = Some d /\
    (stored env (pks s') c d \/ e_error e' = true /\ leave_dirty (im s') = true).
Proof.
  intros Hz Hj Hwf Hc Hk He Hnz Hq Hd Hb Hl.
  destruct (@cache_update_spec env (chunk_codec env Hz Hj) (pks s) c d Hwf Hc Hk Hb Hl) as (err & p1 & Hu & Hr1).
  unfold entry_clean. erewrite bind_step by (apply entry_some; exact He). step.
  rewrite bind_defined by lia. rewrite bind_defined by done. rewrite Hd.
  erewrite bind_step by reflexivity. erewrite bind_step by (unfold on_cache; simpl; by rewrite Hu).
  destruct Hr1 as (_ & Hw1 & _ & Hp1 & _ & _ & _ & _ & Hr).
  set (q := set_dirty_queue (queue_delete c (im_dirty (im s))) (im s)).
  destruct (decide (err <> PK_SUCCESS)) as [Hne|Heq].
  - set (s2 := mk_fuse (stats_increment chunk_errors 1 p1)
      (set_chunks (<[c := set_error true e]> (im_chunks (im s))) (set_leave_dirty true q)) (now s)).
    destruct (entry_clean_finish s2 c (set_error true e)) as (m & Hm & Hwm);
      [destruct Hw1 as [[]]; by split|simpl; by rewrite Hp1|simpl; by rewrite lookup_insert_eq|].
    eexists _, _. split.
    + erewrite bind_step; [exact Hm|]. unfold entry_set_error.
      erewrite bind_step by reflexivity. erewrite bind_step by reflexivity.
      erewrite bind_step by (apply entry_some; exact He). reflexivity.
    + split_and!; [exact Hwm|done|simpl; by rewrite lookup_insert_eq|done|done|by right].
  - destruct (entry_clean_finish (mk_fuse p1 q (now s)) c e) as (m & Hm & Hwm);
      [done|simpl; by rewrite Hp1|done|].
    eexists _, _. split; [step; exact Hm|split; [exact Hwm|]].
    split_and!; [done|simpl; by rewrite lookup_insert_eq|done|done|].
    left. destruct Hr as [[_ Hst]|(-> & _)]; [by apply set_shm_stored|by destruct Heq].
Qed.

(** * A state in which every chunk is in the local cache *)

Lemma demo_healthy : healthy demo.
Proof.
  split; [apply demo_wf|by split; [apply Forall_nil_2|]|].
  intros c Hc. eexists. split; [done|]. exists demo_row.
  assert (c = 0 \/ c = 1) as [-> | ->] by (simpl in Hc; lia); vm_compute; reflexivity.
Qed.

#[local] Instance demo_store : ChunkStore (H := no_source) stored_env.
Proof. apply @cache_store, (chunk_codec stored_env stored_zlib_ok junk_byte_0). Defined.

Lemma run_update_ok s c b :
  healthy s -> 0 <= c < chunks (parcel s) -> bytes b -> Z.of_nat (length b) = chunksize (parcel s) ->
  exists s', run_update c b s = Some s' /\ keeps (H := no_source) stored_env (eq c) s s' /\
    readable (H := no_source) stored_env s' c b.
Proof.
  intros Hh Hc Hb Hl. destruct (store_update (H := no_source) s c b Hh Hc Hb Hl) as (s' & Hu & ?).
  exists s'. split; [|done]. unfold run_update. by rewrite Hu.
Qed.

Definition first_chunk : list Z := replicate 64 5.
Definition second_chunk : list Z := replicate 64 7.
Definition filled : pk_state :=
  default demo (s ← run_update 0 first_chunk demo; run_update 1 second_chunk s).
Definition filled_flat : list Z := first_chunk ++ second_chunk.

Lemma two_updates_ok s a b :
  healthy s -> chunks (parcel s) = 2 -> chunksize (parcel s) = 64 ->
  bytes a -> bytes b -> length a = 64%nat -> length b = 64%nat ->
  let s' := default s (s1 ← run_update 0 a s; run_update 1 b s1) in
  healthy s' /\ holds (H := no_source) stored_env s' (a ++ b) /\ parcel s' = parcel s.
Proof.
  intros Hh Hn Hcs Ha Hb Hla Hlb.
  destruct (run_update_ok s 0 a) as (s1 & -> & (Hh1 & Hp1 & _) & Hr1); [done|lia|done|lia|].
  destruct (run_update_ok s1 1 b) as (s2 & Hu2 & (Hh2 & Hp2 & Hk2) & Hr2); [done|rewrite Hp1; lia|done|rewrite Hp1; lia|].
  simpl. rewrite Hu2. simpl. split_and!; [done| |congruence]. rewrite Hp1 in Hp2.
  split; rewrite ?Hp2; [|by apply Forall_app|].
  - unfold total. rewrite length_app. lia.
  - intros c Hc. assert (c = 0 \/ c = 1) as [-> | ->] by lia; unfold chunk_of, range; rewrite Hcs.
    + change (Z.to_nat (0 * 64)) with 0%nat. change (Z.to_nat 64) with 64%nat.
      rewrite drop_0, take_app_length' by lia. apply Hk2; [rewrite Hp1; lia|lia|done].
    + change (Z.to_nat (1 * 64)) with 64%nat. change (Z.to_nat 64) with 64%nat.
      by rewrite drop_app_length', firstn_all2 by lia.
Qed.

Lemma filled_ok : healthy filled /\ holds (H := no_source) stored_env filled filled_flat /\
  parcel filled = parcel demo.
Proof.
  apply two_updates_ok; [apply demo_healthy|reflexivity|reflexivity| | |reflexivity|reflexivity];
    by apply Forall_replicate.
Qed.

Definition demo_image : fuse_state := mk_fuse filled (mk_image ∅ [] [] 1 false false) 100.

Lemma demo_image_ok : inv (H := no_source) stored_env [] filled_flat demo_image /\ room demo_image.
Proof. destruct filled_ok as (Hh & Hho & _). split; [by apply fresh_inv|by left]. Qed.

(** ** Witnesses *)

Definition demo_ops : list disk_op :=
  [Op_write 60 (replicate 8 1); Op_read 56 16; Op_clean; Op_tick 110; Op_write 64 (replicate 64 2);
   Op_clean; Op_write 120 (replicate 16 3); Op_sync; Op_read 112 32; Op_write 128 [1]].

Lemma demo_ops_ok : Forall (op_ok (parcel demo)) demo_ops.
Proof. repeat apply Forall_cons_2; try apply Forall_nil_2; repeat split; by repeat constructor. Qed.

Lemma image_session_refines_witness :
  exists p', session (H := no_source) stored_env (2 ^ 20) 4096 filled 100 demo_ops =
      Some (fst (disk_all (parcel filled) demo_ops filled_flat), p') /\
    forall c, 0 <= c < chunks (parcel filled) -> exists p'',
      cache_get (H := no_source) stored_env c p' =
        Some ((PK_SUCCESS, chunk_of (parcel filled) (snd (disk_all (parcel filled) demo_ops filled_flat)) c), p'').
Proof.
  destruct filled_ok as (Hh & Hho & Hp).
  apply (image_session_refines stored_env no_source (2 ^ 20) 4096 filled 100 demo_ops filled_flat);
    [apply stored_zlib_ok|apply junk_byte_0|exact Hh|exact Hho| |lia| |vm_compute; reflexivity].
  - unfold cache_size_ok. vm_compute. split; reflexivity.
  - rewrite Hp. apply demo_ops_ok.
Defined.

(** The replies of that session, as the array gives them. *)
Example demo_session_replies :
  fst (disk_all (parcel demo) demo_ops filled_flat) =
    [Did_write 8; Did_read 16 (replicate 4 5 ++ replicate 8 1 ++ replicate 4 7); Did; Did; Did_write 64;
     Did; Did_write 8; Did; Did_read 16 (replicate 8 2 ++ replicate 8 3); Did_write (- ENOSPC)].
Proof. vm_compute. reflexivity. Qed.

Lemma image_op_preserves_inv_witness :
  exists s', perform (H := no_source) stored_env (Op_write 60 (replicate 8 1)) demo_image =
      Some (fst (disk_perform (parcel (pks demo_image)) (Op_write 60 (replicate 8 1)) filled_flat), s') /\
    inv (H := no_source) stored_env []
      (snd (disk_perform (parcel (pks demo_image)) (Op_write 60 (replicate 8 1)) filled_flat)) s' /\ room s'.
Proof.
  destruct demo_image_ok as [Hi Hr]. destruct filled_ok as (_ & _ & Hp).
  apply (image_op_preserves_inv stored_env no_source (Op_write 60 (replicate 8 1)) filled_flat demo_image);
    [apply stored_zlib_ok|apply junk_byte_0|exact Hi|exact Hr|].
  change (pks demo_image) with filled. rewrite Hp. pose proof demo_ops_ok as Hops.
  apply Forall_cons in Hops as [Hop _]. exact Hop.
Defined.

Lemma image_sync_durable_witness :
  exists s', image_sync stored_env demo_image = Some ((), s') /\ im_dirty (im s') = [] /\
    holds (H := no_source) stored_env (pks s') filled_flat.
Proof.
  apply (image_sync_durable stored_env no_source filled_flat demo_image);
    [apply stored_zlib_ok|apply junk_byte_0|]. apply demo_image_ok.
Defined.

Lemma image_write_wraps_witness :
  exists s', image_write (H := no_source) stored_env (replicate 8 1)
      (4 + 2 ^ 32 * chunksize (parcel (pks demo_image))) (Z.of_nat (length (replicate 8 1))) demo_image
      = Some (Z.of_nat (length (replicate 8 1)), s') /\
    inv (H := no_source) stored_env [] (blit filled_flat (Z.to_nat 4) (replicate 8 1)) s'.
Proof.
  destruct demo_image_ok as [Hi Hr]. destruct filled_ok as (_ & _ & Hp).
  assert (parcel (pks demo_image) = parcel demo) as Hpd by exact Hp.
  apply (image_write_wraps stored_env no_source filled_flat demo_image (replicate 8 1) 4).
  - apply stored_zlib_ok.
  - apply junk_byte_0.
  - exact Hi.
  - exact Hr.
  - rewrite Hpd. clear. vm_compute. by split.
  - clear. by apply Forall_replicate.
  - clear. done.
  - rewrite Hpd. clear. by vm_compute.
Defined.

(** The same parcel with chunks of 2 MB. *)
Definition big_chunks : pk_state :=
  mk_state (conf demo)
    (mk_parcel (crypto (parcel demo)) (required_compress (parcel demo)) 2 (2 ^ 21) 512 20)
    (cache_fd demo) (shm demo) (conn demo) (offset demo) (cache_flags demo) (stats demo) (disk demo) (io demo).

Lemma image_init_no_buffers_witness :
  image_read (H := no_source) stored_env 0 512 (snd (image_init (2 ^ 20) 4096 true big_chunks 100)) = None.
Proof.
  apply (image_init_no_buffers stored_env no_source (2 ^ 20) 4096 big_chunks 100 0 512); try done.
Defined.

Definition dirty_image : fuse_state :=
  mk_fuse (failing_commit demo)
    (mk_image {[1 := mk_entry true (Some second_chunk) 100 false]} [1] [] 0 false false) 100.

Lemma entry_clean_never_silent_witness :
  exists s' e', (entry_clean stored_env 1 : pk fuse_state () ()) dirty_image = Some (inl (), s') /\
    cache_wf (pks s') /\ im_dirty (im s') = queue_delete 1 (im_dirty (im dirty_image)) /\
    im_chunks (im s') !! 1 = Some e' /\ e_dirty e' = 0 /\ e_data e' = Some second_chunk /\
    (stored stored_env (pks s') 1 second_chunk \/ e_error e' = true /\ leave_dirty (im s') = true).
Proof.
  apply (entry_clean_never_silent stored_env 1 (mk_entry true (Some second_chunk) 100 false) second_chunk dirty_image);
    [apply stored_zlib_ok|apply junk_byte_0| |done|apply demo_in_keyring|done|done|by left|done| |done].
  - destruct demo_wf as [[]]. by split.
  - by apply Forall_replicate.
Defined.
