(* ===== verification/Lockfile.v ===== *)
(** Lockfile: the lock file of src/parcelkeeper/util.c (file_lock, acquire_lockfile,
    release_lockfile), which keeps two processes from working on the same parcel.

    Any number of processes run the two functions, interleaved system call by system call, and may
    die anywhere.  The kernel is modelled as far as the code uses it: the file the path names, the
    fcntl write locks by inode, and that closing a file drops the process's lock on it.  No one
    makes hard links to the lock file. *)

From S2P Require Import Prelude Compress LzfStream Chunk Effects Sql Pk.

(** * file_lock *)

Definition EINTR : Z := 4.
Definition EAGAIN : Z := 11.
Definition EACCES : Z := 13.

(** The calls of fcntl until one does not ask for a retry: what each returns, and errno if it is
    -1.  [None] is the loop going on after the calls given. *)
Fixpoint file_lock (calls : list (option Z)) : option pk_err :=
  match calls with
  | [] => None
  | None :: _ => Some PK_SUCCESS
  | Some errno :: calls =>
      if decide (errno = EACCES \/ errno = EAGAIN) then Some PK_BUSY
      else if decide (errno <> EINTR) then Some PK_CALLFAIL
      else file_lock calls
  end.

(** * Processes and the kernel *)

(** Where a process is: not in either function, or between the system calls of one of them,
    with the inode of its lf->fd. *)
Inductive lock_pc :=
  | Idle                         (** has no lock file *)
  | Opened (ino : nat)           (** acquire_lockfile: after open *)
  | Locked (ino : nat)           (** acquire_lockfile: after get_file_lock *)
  | Returned (err : pk_err)      (** acquire_lockfile returned an error *)
  | Held (ino : nat)             (** acquire_lockfile returned PK_SUCCESS *)
  | Unlinked (ino : nat).        (** release_lockfile: after unlink *)

#[global] Instance lock_pc_eq_dec : EqDecision lock_pc.
Proof. solve_decision. Defined.

Record lock_sys := mk_lock_sys {
  at_path : option nat;
  locked_by : gmap nat nat;
  next_ino : nat;
  pcs : gmap nat lock_pc
}.

Definition pc_of (s : lock_sys) (p : nat) : lock_pc := default Idle (pcs s !! p).

Definition goto (p : nat) (c : lock_pc) (s : lock_sys) : lock_sys :=
  mk_lock_sys (at_path s) (locked_by s) (next_ino s) (<[p := c]> (pcs s)).

(** close, which drops the lock of process [p] on the file *)
Definition close (p ino : nat) (s : lock_sys) : lock_sys :=
  mk_lock_sys (at_path s)
    (if decide (locked_by s !! ino = Some p) then delete ino (locked_by s) else locked_by s)
    (next_ino s) (pcs s).

(** How a system call of the code goes: as it should, or with an error it can have at any time. *)
Inductive syscall := Works | Fails (errno : Z).

(** The next system call of process [p], and what the code does with its result. *)
Definition lock_step (p : nat) (o : syscall) (s : lock_sys) : lock_sys :=
  match pc_of s p, o with
  | (Idle | Returned _), Works =>
      match at_path s with
      | Some i => goto p (Opened i) s
      | None => goto p (Opened (next_ino s))
                  (mk_lock_sys (Some (next_ino s)) (locked_by s) (S (next_ino s)) (pcs s))
      end
  | (Idle | Returned _), Fails _ => goto p (Returned PK_IOERR) s
  | Opened i, Works =>
      match locked_by s !! i with
      | None => goto p (Locked i)
                  (mk_lock_sys (at_path s) (<[i := p]> (locked_by s)) (next_ino s) (pcs s))
      | Some _ => goto p (Returned PK_BUSY) (close p i s)
      end
  | Opened i, Fails errno =>
      match file_lock [Some errno] with
      | None => s
      | Some err => goto p (Returned err) (close p i s)
      end
  | Locked i, Works =>
      if decide (at_path s = Some i) then goto p (Held i) s
      else goto p Idle (close p i s)
  | Locked i, Fails _ => goto p (Returned PK_CALLFAIL) (close p i s)
  | Held i, Works => goto p (Unlinked i) (mk_lock_sys None (locked_by s) (next_ino s) (pcs s))
  | Held i, Fails _ => goto p (Unlinked i) s
  | Unlinked i, _ => goto p Idle (close p i s)
  end.

(** Process [p] dies: the kernel closes its files. *)
Definition lock_die (p : nat) (s : lock_sys) : lock_sys :=
  match pc_of s p with
  | Idle | Returned _ => s
  | Opened i | Locked i | Held i | Unlinked i => goto p Idle (close p i s)
  end.

Inductive lock_event := Step (p : nat) (o : syscall) | Die (p : nat).

Definition lock_run (s : lock_sys) (es : list lock_event) : lock_sys :=
  fold_left (fun s e => match e with Step p o => lock_step p o s | Die p => lock_die p s end) es s.

(** No process has the lock file, which may be there or not, left by an earlier one. *)
Definition lock_init (left_over : option nat) : lock_sys :=
  mk_lock_sys left_over ∅ (S (default O left_over)) ∅.

(** * Mutual exclusion *)

(** The inode on which a process has the lock. *)
Definition lock_of (c : lock_pc) : option nat :=
  match c with
  | Locked i | Held i | Unlinked i => Some i
  | Idle | Opened _ | Returned _ => None
  end.

(** The lock table is what the processes think; the file of a holder is still the one at the
    path, since only a holder unlinks. *)
Record lock_inv (s : lock_sys) : Prop := mk_lock_inv {
  li_locks p i : locked_by s !! i = Some p <-> lock_of (pc_of s p) = Some i;
  li_held p i : pc_of s p = Held i -> at_path s = Some i
}.

Lemma pc_of_goto s p q c : pc_of (goto p c s) q = if decide (q = p) then c else pc_of s q.
Proof.
  unfold pc_of. simpl. destruct (decide (q = p)) as [->|Hne].
  - by rewrite lookup_insert_eq.
  - by rewrite lookup_insert_ne.
Qed.

Lemma holder_unique s p q i j : lock_inv s -> pc_of s p = Held i -> pc_of s q = Held j -> p = q.
Proof.
  intros [Hl Hh] Hp Hq. pose proof (Hh p i Hp) as Hi. rewrite (Hh q j Hq) in Hi. injection Hi as ->.
  assert (locked_by s !! i = Some p) as Hlp by (apply Hl; by rewrite Hp).
  assert (locked_by s !! i = Some q) as Hlq by (apply Hl; by rewrite Hq).
  congruence.
Qed.

(** A process closes its file: it is then without a lock, and no one else's lock is touched. *)
Lemma close_inv s p i c :
  lock_inv s -> (forall j, lock_of (pc_of s p) = Some j -> j = i) ->
  lock_of c = None -> lock_inv (goto p c (close p i s)).
Proof.
  intros [Hl Hh] Hi Hc. split.
  - intros q j. rewrite pc_of_goto. simpl. destruct (decide (q = p)) as [->|Hne].
    + rewrite Hc. split; [|done]. intros Hj. exfalso. case_decide as Hd.
      * apply lookup_delete_Some in Hj as [Hne Hj]. apply Hl, Hi in Hj. done.
      * pose proof Hj as Hj'. apply Hl, Hi in Hj'. subst. done.
    + change (pc_of (close p i s) q) with (pc_of s q). rewrite <- Hl. case_decide as Hd; [|done].
      destruct (decide (i = j)) as [->|Hij].
      * rewrite lookup_delete_eq, Hd. split; congruence.
      * by rewrite lookup_delete_ne.
  - intros q j. rewrite pc_of_goto. case_decide as Hd; [by intros ->|]. apply Hh.
Qed.

(** A process moves on, with the same lock; if it now holds the lock file, that is at the path. *)
Lemma goto_inv s p c :
  lock_inv s -> lock_of c = lock_of (pc_of s p) -> (forall i, c = Held i -> at_path s = Some i) ->
  lock_inv (goto p c s).
Proof.
  intros [Hl Hh] Hc Hp. split.
  - intros q j. rewrite pc_of_goto. change (locked_by (goto p c s)) with (locked_by s). rewrite Hl.
    case_decide as Hd; [subst; by rewrite Hc|done].
  - intros q j. rewrite pc_of_goto. case_decide as Hd; [apply Hp|apply Hh].
Qed.

Lemma lock_step_inv p o s : lock_inv s -> lock_inv (lock_step p o s).
Proof.
  intros Hi. pose proof Hi as [Hl Hh]. unfold lock_step.
  assert (forall f n, (forall q i, pc_of s q = Held i -> f = Some i) ->
    lock_inv (mk_lock_sys f (locked_by s) n (pcs s))) as Hpath by (intros f n Hf; by split).
  destruct (pc_of s p) as [|i|i|e|i|i] eqn:Hpc; destruct o as [|errno];
    try (apply close_inv; [done|rewrite Hpc; simpl; congruence|done]);
    try (apply goto_inv; [done|by rewrite Hpc|done]).
  - destruct (at_path s) as [i|] eqn:Hat; (apply goto_inv; [|by simpl; unfold pc_of in *; simpl; rewrite Hpc|done]);
      [done|]. apply Hpath. intros q j Hq. apply Hh in Hq. congruence.
  - destruct (locked_by s !! i) as [q|] eqn:Hlk; [apply close_inv; [done|rewrite Hpc; simpl; congruence|done]|].
    split.
    + intros q j. rewrite pc_of_goto. simpl. destruct (decide (i = j)) as [->|Hij].
      * rewrite lookup_insert_eq. case_decide as Hd; [subst; done|].
        change (pc_of _ q) with (pc_of s q). rewrite <- Hl, Hlk. split; congruence.
      * rewrite lookup_insert_ne by done. rewrite Hl. case_decide as Hd; [|done].
        subst. rewrite Hpc. simpl. split; congruence.
    + intros q j. rewrite pc_of_goto. case_decide as Hd; [done|]. apply Hh.
  - destruct (file_lock _); [|done]. apply close_inv; [done|rewrite Hpc; simpl; congruence|done].
  - destruct (decide (at_path s = Some i)) as [Hat|Hat].
    + apply goto_inv; [done|by rewrite Hpc|]. by intros j [= <-].
    + apply close_inv; [done|rewrite Hpc; simpl; congruence|done].
  - destruct (at_path s) as [i|] eqn:Hat; (apply goto_inv; [|by simpl; unfold pc_of in *; simpl; rewrite Hpc|done]);
      [done|]. apply Hpath. intros q j Hq. apply Hh in Hq. congruence.
  - split.
    + intros q j. rewrite pc_of_goto. simpl. rewrite Hl. case_decide as Hd; [|done]. subst. by rewrite Hpc.
    + intros q j. rewrite pc_of_goto. case_decide as Hd; [done|]. intros Hq. destruct Hd.
      by apply (holder_unique s q p j i).
Qed.

Lemma lock_die_inv p s : lock_inv s -> lock_inv (lock_die p s).
Proof.
  intros Hi. unfold lock_die.
  destruct (pc_of s p) as [|i|i|e|i|i] eqn:Hpc; try done;
    (apply close_inv; [done|rewrite Hpc; simpl; congruence|done]).
Qed.

Lemma lock_init_inv f : lock_inv (lock_init f).
Proof.
  split; [|done]. intros p i. simpl. rewrite lookup_empty. done.
Qed.

Lemma lock_run_inv es s : lock_inv s -> lock_inv (lock_run s es).
Proof.
  revert s. induction es as [|[p o|p] es IH]; intros s Hi; simpl; [done|..]; apply IH;
    [by apply lock_step_inv|by apply lock_die_inv].
Qed.

(** * Properties *)

(** C14: mutual exclusion.  However any number of processes acquire and release the lock file,
    interleaved system call by system call, with errors and with processes dying anywhere, no two
    of them have it at the same time; and the file of the one that has it is the one at the
    path. *)
Theorem lockfile_mutual_exclusion left_over es p q i j :
  let s := lock_run (lock_init left_over) es in
  pc_of s p = Held i -> pc_of s q = Held j -> p = q /\ at_path s = Some i.
Proof.
  intros s Hp Hq. pose proof (lock_run_inv es _ (lock_init_inv left_over)) as Hi. fold s in Hi.
  split; [by apply (holder_unique s p q i j)|by apply (li_held s Hi p)].
Qed.

(** The lock file does not become stale.  Whatever happened before, and whether a lock file
    was left behind or not: if no other process has a lock, acquire_lockfile succeeds at its
    first try. *)
Theorem lockfile_not_stale left_over es p :
  let s := lock_run (lock_init left_over) es in
  (pc_of s p = Idle \/ exists err, pc_of s p = Returned err) ->
  (forall q, q <> p -> lock_of (pc_of s q) = None) ->
  exists i, pc_of (lock_run s [Step p Works; Step p Works; Step p Works]) p = Held i.
Proof.
  intros s Hp Hq. pose proof (lock_run_inv es _ (lock_init_inv left_over)) as [Hl _]. fold s in Hl.
  assert (lock_of (pc_of s p) = None) as Hnp by (destruct Hp as [->|[err ->]]; done).
  assert (forall i, locked_by s !! i = None) as Hfree.
  { intros i. destruct (locked_by s !! i) as [q|] eqn:Hi; [|done]. apply Hl in Hi.
    destruct (decide (q = p)) as [->|Hne]; [|rewrite Hq in Hi by done]; congruence. }
  assert (exists i s1, lock_step p Works s = goto p (Opened i) s1 /\ at_path s1 = Some i /\
    locked_by s1 = locked_by s) as (i & s1 & Hs1 & Hat & Hlk).
  { unfold lock_step. destruct Hp as [->|[err ->]]; destruct (at_path s) as [i|] eqn:Hat; eexists _, _; by split_and!. }
  exists i. unfold lock_run. cbn [fold_left]. rewrite Hs1.
  unfold lock_step at 2. rewrite pc_of_goto, decide_True by done. simpl. rewrite Hlk, Hfree.
  unfold lock_step. rewrite pc_of_goto, decide_True by done. simpl. rewrite decide_True by done.
  by rewrite pc_of_goto, decide_True.
Qed.

(** ** Witnesses *)

(** Process 1 takes the lock file and dies; 2 gets it while 3 is refused; 2 lets it go just after
    3 has opened it again, so that 3 locks a deleted file, notices, and gets a new one. *)
Definition lock_story : list lock_event :=
  [Step 1 Works; Step 1 Works; Step 1 Works; Die 1;
   Step 2 Works; Step 3 Works; Step 2 (Fails EINTR); Step 2 Works; Step 3 Works; Step 2 Works;
   Step 3 Works; Step 2 Works; Step 2 Works; Step 3 Works; Step 3 Works;
   Step 3 Works; Step 3 Works; Step 3 Works]%nat.

Lemma lockfile_mutual_exclusion_witness :
  pc_of (lock_run (lock_init None) lock_story) 3 = Held 2 /\
  3%nat = 3%nat /\ at_path (lock_run (lock_init None) lock_story) = Some 2%nat.
Proof.
  split; [vm_compute; reflexivity|].
  apply (lockfile_mutual_exclusion None lock_story 3 3 2 2); vm_compute; reflexivity.
Defined.

Lemma lockfile_not_stale_witness :
  exists i, pc_of (lock_run (lock_run (lock_init (Some 7%nat)) [Step 1 Works; Step 1 Works; Step 1 Works; Die 1])
    [Step 2 Works; Step 2 Works; Step 2 Works]) 2 = Held i.
Proof.
  apply (lockfile_not_stale (Some 7%nat) [Step 1 Works; Step 1 Works; Step 1 Works; Die 1] 2).
  - by left.
  - intros q _. unfold pc_of.
    set (m := pcs (lock_run _ _)).
    assert (map_Forall (fun _ c => lock_of c = None) m) as Hm.
    { apply (bool_decide_eq_true_1 _). vm_compute. reflexivity. }
    destruct (m !! q) as [c|] eqn:Hc; [by apply (Hm q)|done].
Defined.
