(* ===== verification/Util.v ===== *)
(** Util: the functions of src/parcelkeeper/util.c on numbers and names: parseuint with the
    strtoul of the C library, the paths of chunks on the server, tags in hexadecimal, the
    progress counter, and the mapping of file errors. *)

From stdpp Require Import strings.
From Stdlib Require Import Ascii String.
From S2P Require Import Prelude Compress LzfStream Chunk Effects Sql Pk.

(** * strtoul in base 10 *)

Definition ULONG_MAX : Z := 2 ^ 64 - 1.

(** isspace and isdigit in the C locale *)
Definition isspace (c : Ascii.ascii) : bool :=
  bool_decide (Ascii.nat_of_ascii c = 32 \/ 9 <= Ascii.nat_of_ascii c <= 13)%nat.
Definition isdigit (c : Ascii.ascii) : bool := bool_decide (48 <= Ascii.nat_of_ascii c <= 57)%nat.

Definition digit_value (c : Ascii.ascii) : Z := Z.of_nat (Ascii.nat_of_ascii c) - 48.

Fixpoint skip_space (s : string) : string :=
  match s with
  | String c s' => if isspace c then skip_space s' else s
  | EmptyString => s
  end.

(** The digits at the start of [s], and what follows them. *)
Fixpoint read_digits (v : Z) (s : string) : Z * string :=
  match s with
  | String c s' => if isdigit c then read_digits (v * 10 + digit_value c) s' else (v, s)
  | EmptyString => (v, s)
  end.

Definition sign (s : string) : bool * string :=
  match s with
  | String "-"%char s => (true, s)
  | String "+"%char s => (false, s)
  | _ => (false, s)
  end.

Definition strtoul (s : string) : Z * string :=
  let '(neg, t) := sign (skip_space s) in
  match t with
  | String c _ =>
      if isdigit c then
        let '(v, rest) := read_digits 0 t in
        (if decide (v > ULONG_MAX) then ULONG_MAX else if neg : bool then u64 (- v) else v, rest)
      else (0, s)
  | EmptyString => (0, s)
  end.

(** The value is stored only on success. *)
Definition parseuint (s : string) : pk_err * option Z :=
  let '(val, rest) := strtoul s in
  if decide (s = EmptyString \/ rest <> EmptyString) then (PK_INVALID, None)
  else (PK_SUCCESS, Some (u32 val)).

(** * printf of an unsigned *)

Definition digit (n : Z) : Ascii.ascii := Ascii.ascii_of_nat (48 + Z.to_nat n).

Fixpoint dec_digits (fuel : nat) (n : Z) (acc : string) : string :=
  match fuel with
  | O => acc
  | S fuel =>
      if decide (n < 10) then String (digit n) acc
      else dec_digits fuel (n / 10) (String (digit (n mod 10)) acc)
  end.

(** "%u": an unsigned has at most ten digits. *)
Definition fmt_u (n : Z) : string := dec_digits 10 n EmptyString.

Fixpoint zeros (n : nat) (s : string) : string :=
  match n with O => s | S n => String "0"%char (zeros n s) end.

(** "%.4u": at least four digits. *)
Definition fmt_4u (n : Z) : string := zeros (4 - String.length (fmt_u n)) (fmt_u n).

(** The division by chunks_per_dir faults if that is 0. *)
Definition form_chunk_path (p : pk_parcel) (prefix : string) (chunk : Z) : option string :=
  if decide (chunks_per_dir p = 0) then None
  else Some (prefix +:+ "/" +:+ fmt_4u (chunk / chunks_per_dir p) +:+ "/"
             +:+ fmt_4u (chunk mod chunks_per_dir p)).

(** "%.2x" of a byte *)
Definition hex_digit (n : Z) : Ascii.ascii :=
  if decide (n < 10) then digit n else Ascii.ascii_of_nat (87 + Z.to_nat n).

Fixpoint format_tag (tag : list Z) : string :=
  match tag with
  | [] => EmptyString
  | b :: tag => String (hex_digit (b / 16)) (String (hex_digit (b mod 16)) (format_tag tag))
  end.

(** The percentage printed by print_progress_chunks, in unsigned arithmetic. *)
Definition progress_chunks_percent (chunks maxchunks : Z) : Z :=
  if decide (maxchunks <> 0) then u32 (chunks * 100) / maxchunks else 0.

(** The percentage printed by print_progress_mb. *)
Definition progress_mb_percent (bytes max_bytes : Z) : Z :=
  let mb := u64 (Z.shiftr bytes 20) in
  let max_mb := u64 (Z.shiftr max_bytes 20) in
  if decide (max_mb <> 0) then u32 (u64 (mb * 100) / max_mb) else 0.

(** * Reading a file *)

(** The codes of GFileError that read_file distinguishes. *)
Inductive file_error := G_FILE_ERROR_NOENT | G_FILE_ERROR_NOMEM | G_FILE_ERROR_OTHER.

(** [contents] is what g_file_get_contents gives. *)
Definition read_file (contents : file_error + string) : pk_err + string :=
  match contents with
  | inr data => inr data
  | inl G_FILE_ERROR_NOENT => inl PK_NOTFOUND
  | inl G_FILE_ERROR_NOMEM => inl PK_NOMEM
  | inl G_FILE_ERROR_OTHER => inl PK_IOERR
  end.

(** * Numbers are printed and read *)

Lemma nat_of_digit n : 0 <= n < 10 -> Ascii.nat_of_ascii (digit n) = (48 + Z.to_nat n)%nat.
Proof. intros Hn. unfold digit. apply Ascii.nat_ascii_embedding. lia. Qed.

Lemma isdigit_digit n : 0 <= n < 10 -> isdigit (digit n) = true /\ digit_value (digit n) = n.
Proof.
  intros Hn. unfold isdigit, digit_value. rewrite nat_of_digit by done. split; [|lia].
  apply bool_decide_eq_true_2. lia.
Qed.

Lemma read_digits_dec fuel n acc :
  0 <= n < 10 ^ Z.of_nat fuel -> read_digits 0 (dec_digits fuel n acc) = read_digits n acc.
Proof.
  revert n acc. induction fuel as [|fuel IH]; intros n acc Hn.
  { simpl. f_equal. change (10 ^ Z.of_nat 0) with 1 in Hn. lia. }
  cbn [dec_digits]. destruct (decide (n < 10)) as [Hlt|Hge].
  - cbn [read_digits]. destruct (isdigit_digit n ltac:(lia)) as [-> ->]. f_equal; lia.
  - pose proof (Z.div_mod n 10 ltac:(lia)). pose proof (Z.mod_pos_bound n 10 ltac:(lia)).
    rewrite IH.
    + cbn [read_digits]. destruct (isdigit_digit (n mod 10) ltac:(lia)) as [-> ->]. f_equal; lia.
    + rewrite Nat2Z.inj_succ, Z.pow_succ_r in Hn by lia.
      split; [apply Z.div_pos; lia|apply Z.div_lt_upper_bound; lia].
Qed.

Lemma dec_digits_app fuel n acc tail :
  dec_digits fuel n acc +:+ tail = dec_digits fuel n (acc +:+ tail).
Proof.
  revert n acc. induction fuel as [|fuel IH]; intros n acc; simpl; [done|].
  destruct (decide (n < 10)); [done|]. by rewrite IH.
Qed.

Lemma read_digits_zeros n s : read_digits 0 (zeros n s) = read_digits 0 s.
Proof. induction n as [|n IH]; [done|]. simpl. exact IH. Qed.

Lemma zeros_app n s tail : zeros n s +:+ tail = zeros n (s +:+ tail).
Proof. induction n as [|n IH]; simpl; [done|]. by rewrite <- IH. Qed.

Lemma read_fmt_4u n tail : is_u 32 n -> read_digits 0 (fmt_4u n +:+ tail) = read_digits n tail.
Proof.
  intros Hn. unfold is_u in Hn. unfold fmt_4u. rewrite zeros_app, read_digits_zeros.
  unfold fmt_u. rewrite dec_digits_app. apply (read_digits_dec 10). simpl in *. lia.
Qed.

Lemma string_app_inv (p s t : string) : p +:+ s = p +:+ t -> s = t.
Proof. induction p as [|c p IH]; simpl; [done|]. by intros [= ?%IH]. Qed.

Lemma string_app_nil (s : string) : s +:+ EmptyString = s.
Proof. induction s as [|c s IH]; [done|]. change (String c (s +:+ EmptyString) = String c s). by rewrite IH. Qed.

Lemma dec_digits_head fuel n acc :
  0 <= n < 10 ^ Z.of_nat (S fuel) ->
  exists k rest, 0 <= k < 10 /\ dec_digits (S fuel) n acc = String (digit k) rest.
Proof.
  revert n acc. induction fuel as [|fuel IH]; intros n acc Hn.
  - exists n, acc. change (10 ^ Z.of_nat 1) with 10 in Hn. split; [done|].
    cbn [dec_digits]. rewrite decide_True by lia. reflexivity.
  - cbn [dec_digits]. destruct (decide (n < 10)) as [Hlt|Hge]; [exists n, acc; split; [lia|done]|].
    apply IH. rewrite Nat2Z.inj_succ, Z.pow_succ_r in Hn by lia.
    split; [apply Z.div_pos; lia|apply Z.div_lt_upper_bound; lia].
Qed.

Lemma sign_digit k rest :
  0 <= k < 10 -> sign (skip_space (String (digit k) rest)) = (false, String (digit k) rest).
Proof.
  intros Hk. assert (k = 0 \/ k = 1 \/ k = 2 \/ k = 3 \/ k = 4 \/ k = 5 \/ k = 6 \/ k = 7 \/ k = 8 \/ k = 9)
    as Hcases by lia. by repeat destruct Hcases as [->|Hcases]; subst.
Qed.

(** ** Properties *)

(** The chunks of a parcel have distinct paths on the server and in an upload directory. *)
Theorem form_chunk_path_injective p prefix c1 c2 path :
  is_u 32 c1 -> is_u 32 c2 -> is_u 32 (chunks_per_dir p) ->
  form_chunk_path p prefix c1 = Some path -> form_chunk_path p prefix c2 = Some path -> c1 = c2.
Proof.
  intros Hc1 Hc2 Hd H1 H2. unfold form_chunk_path in *. destruct (decide _) as [|Hz]; [done|].
  unfold is_u in *. set (d := chunks_per_dir p) in *.
  assert (forall c, 0 <= c < 2 ^ 32 -> is_u 32 (c / d) /\ is_u 32 (c mod d)) as Hu.
  { intros c Hc. pose proof (Z.mod_pos_bound c d ltac:(lia)). unfold is_u.
    split; [split; [apply Z.div_pos; lia|apply Z.div_lt_upper_bound; nia]|].
    pose proof (Z.mod_le c d ltac:(lia) ltac:(lia)). lia. }
  destruct (Hu c1 Hc1) as [Hq1 Hr1]. destruct (Hu c2 Hc2) as [Hq2 Hr2].
  injection H1 as <-. injection H2 as Heq.
  apply string_app_inv, (string_app_inv "/") in Heq.
  apply (f_equal (read_digits 0)) in Heq. rewrite !read_fmt_4u in Heq by done. injection Heq as Hq Heq.
  apply (f_equal (read_digits 0)) in Heq.
  rewrite <- (string_app_nil (fmt_4u (c2 mod d))), <- (string_app_nil (fmt_4u (c1 mod d))) in Heq.
  change ("" +:+ ?s)%string with s in Heq. rewrite !read_fmt_4u in Heq by done. injection Heq as Hr.
  rewrite (Z.div_mod c1 d), (Z.div_mod c2 d) by lia. congruence.
Qed.


(** parseuint gives back every unsigned number from the way "%u" prints it. *)
Theorem parseuint_roundtrip n : is_u 32 n -> parseuint (fmt_u n) = (PK_SUCCESS, Some n).
Proof.
  intros Hn. pose proof Hn as Hn'. unfold is_u in Hn'. unfold parseuint, strtoul, fmt_u.
  destruct (dec_digits_head 9 n EmptyString) as (k & rest & Hk & Heq); [change (10 ^ Z.of_nat 10) with 10000000000; lia|].
  pose proof (read_digits_dec 10 n EmptyString ltac:(change (10 ^ Z.of_nat 10) with 10000000000; lia)) as Hread.
  rewrite Heq in *. rewrite sign_digit by done. destruct (isdigit_digit k Hk) as [-> _].
  rewrite Hread. cbn [read_digits]. rewrite (decide_False (P := n > ULONG_MAX)) by (unfold ULONG_MAX; lia).
  rewrite decide_False by (by intros [?|?]). by rewrite u32_id.
Qed.

(** ** Witnesses *)

Definition demo_parcel : pk_parcel := mk_parcel IU_CHUNK_CRY_AES_SHA1 3 4096 131072 512 20.

Lemma form_chunk_path_injective_witness :
  form_chunk_path demo_parcel "/srv" 1234 = Some "/srv/0002/0210"%string /\ 1234 = 1234.
Proof.
  split; [vm_compute; reflexivity|].
  apply (form_chunk_path_injective demo_parcel "/srv" 1234 1234 "/srv/0002/0210"); done || vm_compute; reflexivity.
Defined.

Lemma parseuint_roundtrip_witness : parseuint (fmt_u 131072) = (PK_SUCCESS, Some 131072).
Proof. by apply (parseuint_roundtrip 131072). Defined.

(** Only the low 32 bits of the number are kept, and a sign is accepted. *)
Example parseuint_truncates :
  parseuint "4294967299" = (PK_SUCCESS, Some 3) /\ parseuint "-1" = (PK_SUCCESS, Some (2 ^ 32 - 1)).
Proof. split; vm_compute; reflexivity. Qed.
