(* ===== verification/Config.v ===== *)
(** Config: reading parcel.cfg (src/parcelkeeper/parcelcfg.c).

    GLib's g_strsplit and g_strstrip and libuuid are parameters.  The parser goes through the
    lines once; it is compared with a declarative reading of the file as a list of settings. *)

From stdpp Require Import strings.
From Stdlib Require Import Ascii String.
From S2P Require Import Prelude Compress LzfStream Chunk Effects Sql Pk Util.

Definition MIN_DATAVER : Z := 3.
Definition MAX_DATAVER : Z := 4.

(** g_strsplit (string, delimiter, maximum number of tokens or 0) and g_strstrip *)
Class GLib := {
  g_strsplit : string -> string -> nat -> list string;
  g_strstrip : string -> string
}.

(** uuid_parse followed by uuid_unparse_lower *)
Class LibUuid := { uuid_canonical : string -> option string }.

Inductive pc_ident :=
  | PC_VERSION | PC_CHUNKSIZE | PC_NUMCHUNKS | PC_CHUNKSPERDIR | PC_CRYPTO | PC_COMPRESS | PC_UUID
  | PC_SERVER | PC_USER | PC_PARCEL | PC_RPATH | PC_DUPLICATE | PC_IGNORE.

#[global] Instance pc_ident_eq_dec : EqDecision pc_ident.
Proof. solve_decision. Defined.

Definition pc_options : list (string * pc_ident) :=
  [("VERSION", PC_VERSION); ("CHUNKSIZE", PC_CHUNKSIZE); ("NUMCHUNKS", PC_NUMCHUNKS);
   ("CHUNKSPERDIR", PC_CHUNKSPERDIR); ("CRYPTO", PC_CRYPTO); ("COMPRESS", PC_COMPRESS);
   ("UUID", PC_UUID); ("SERVER", PC_SERVER); ("USER", PC_USER); ("PARCEL", PC_PARCEL);
   ("RPATH", PC_RPATH)]%string.

(** struct pk_parcel with its strings; an unset one is NULL. *)
Record parcel_cfg := mk_cfg {
  numbers : pk_parcel;
  uuid : option string;
  server : option string;
  user : option string;
  parcel_name : option string;
  master : option string
}.

Record pc_parse_ctx := mk_ctx { pdata : parcel_cfg; rpath : option string; seen : pc_ident -> bool }.

Definition set_numbers f c :=
  mk_ctx (mk_cfg (f (numbers (pdata c))) (uuid (pdata c)) (server (pdata c)) (user (pdata c))
            (parcel_name (pdata c)) (master (pdata c))) (rpath c) (seen c).
Definition set_strings f c := mk_ctx (f (pdata c)) (rpath c) (seen c).
Definition set_seen i c :=
  mk_ctx (pdata c) (rpath c) (fun j => bool_decide (j = i) || seen c j).

(** The searching loop of pc_find_option, from [opts] on. *)
Fixpoint find_from (opts : list (string * pc_ident)) (ctx : pc_parse_ctx) (key : string) :
    pc_ident * pc_parse_ctx :=
  match opts with
  | [] => (PC_IGNORE, ctx)
  | (k, ident) :: opts =>
      if decide (key <> k) then find_from opts ctx key
      else if seen ctx ident then (PC_DUPLICATE, ctx)
      else (ident, set_seen ident ctx)
  end.

Definition pc_find_option (ctx : pc_parse_ctx) (key : string) : pc_ident * pc_parse_ctx :=
  find_from pc_options ctx key.

Definition pc_have_options (ctx : pc_parse_ctx) : bool :=
  forallb (fun opt => seen ctx (snd opt)) pc_options.

Section parse.
Context `{!GLib} `{!LibUuid}.

Definition canonicalize_uuid (s : string) : pk_err * option string :=
  match uuid_canonical s with
  | None => (PK_INVALID, None)
  | Some u => (PK_SUCCESS, Some u)
  end.

(** The loop over the compression types; [None] is an unknown one. *)
Fixpoint compress_mask (mask : Z) (strs : list string) : option Z :=
  match strs with
  | [] => Some mask
  | s :: strs =>
      let c := iu_chunk_compress_parse s in
      if decide (c = IU_CHUNK_COMP_UNKNOWN) then None
      else compress_mask (Z.lor mask (Z.shiftl 1 c)) strs
  end.

Definition pc_handle_option (ctx : pc_parse_ctx) (ident : pc_ident) (value : string) :
    pk_err * pc_parse_ctx :=
  match ident with
  | PC_VERSION =>
      match parseuint value with
      | (PK_SUCCESS, Some u) =>
          if decide (u < MIN_DATAVER \/ u > MAX_DATAVER) then (PK_INVALID, ctx) else (PK_SUCCESS, ctx)
      | _ => (PK_INVALID, ctx)
      end
  | PC_CHUNKSIZE =>
      match parseuint value with
      | (PK_SUCCESS, Some u) =>
          let ctx := set_numbers (fun p => mk_parcel (crypto p) (required_compress p) (chunks p) u
                                             (chunks_per_dir p) (hashlen p)) ctx in
          if decide (u < 512 \/ Z.land u (u32 (u - 1)) <> 0) then (PK_INVALID, ctx)
          else (PK_SUCCESS, ctx)
      | _ => (PK_INVALID, ctx)
      end
  | PC_NUMCHUNKS =>
      match parseuint value with
      | (PK_SUCCESS, Some u) =>
          (PK_SUCCESS, set_numbers (fun p => mk_parcel (crypto p) (required_compress p) u (chunksize p)
                                               (chunks_per_dir p) (hashlen p)) ctx)
      | _ => (PK_INVALID, ctx)
      end
  | PC_CHUNKSPERDIR =>
      match parseuint value with
      | (PK_SUCCESS, Some u) =>
          (PK_SUCCESS, set_numbers (fun p => mk_parcel (crypto p) (required_compress p) (chunks p)
                                               (chunksize p) u (hashlen p)) ctx)
      | _ => (PK_INVALID, ctx)
      end
  | PC_CRYPTO =>
      let c := iu_chunk_crypto_parse value in
      if decide (c = IU_CHUNK_CRY_UNKNOWN) then (PK_INVALID, ctx)
      else (PK_SUCCESS, set_numbers (fun p => mk_parcel c (required_compress p) (chunks p) (chunksize p)
                                                (chunks_per_dir p) (Z.of_nat (iu_chunk_crypto_hashlen c))) ctx)
  | PC_COMPRESS =>
      match compress_mask (Z.shiftl 1 IU_CHUNK_COMP_NONE) (g_strsplit value "," 0) with
      | None => (PK_INVALID, ctx)
      | Some mask =>
          (PK_SUCCESS, set_numbers (fun p => mk_parcel (crypto p) mask (chunks p) (chunksize p)
                                               (chunks_per_dir p) (hashlen p)) ctx)
      end
  | PC_UUID =>
      match canonicalize_uuid value with
      | (PK_SUCCESS, Some u) =>
          (PK_SUCCESS, set_strings (fun c => mk_cfg (numbers c) (Some u) (server c) (user c)
                                               (parcel_name c) (master c)) ctx)
      | _ => (PK_INVALID, ctx)
      end
  | PC_SERVER =>
      (PK_SUCCESS, set_strings (fun c => mk_cfg (numbers c) (uuid c) (Some value) (user c)
                                           (parcel_name c) (master c)) ctx)
  | PC_USER =>
      (PK_SUCCESS, set_strings (fun c => mk_cfg (numbers c) (uuid c) (server c) (Some value)
                                           (parcel_name c) (master c)) ctx)
  | PC_PARCEL =>
      (PK_SUCCESS, set_strings (fun c => mk_cfg (numbers c) (uuid c) (server c) (user c)
                                           (Some value) (master c)) ctx)
  | PC_RPATH => (PK_SUCCESS, mk_ctx (pdata ctx) (Some value) (seen ctx))
  | PC_DUPLICATE => (PK_INVALID, ctx)
  | PC_IGNORE => (PK_SUCCESS, ctx)
  end.

Definition is_comment (line : string) : bool :=
  match line with
  | EmptyString => true
  | String c _ => bool_decide (c = "#"%char)
  end.

(** The loop over the lines; [None] is the jump to "bad_free". *)
Fixpoint parse_lines (ctx : pc_parse_ctx) (lines : list string) : option pc_parse_ctx :=
  match lines with
  | [] => Some ctx
  | line :: lines =>
      let line := g_strstrip line in
      if is_comment line then parse_lines ctx lines
      else
        match g_strsplit line "=" 2 with
        | [key; value] =>
            let '(ident, ctx) := pc_find_option ctx (g_strstrip key) in
            let '(err, ctx) := pc_handle_option ctx ident (g_strstrip value) in
            if decide (err <> PK_SUCCESS) then None else parse_lines ctx lines
        | _ => None
        end
  end.

Definition ctx0 : pc_parse_ctx :=
  mk_ctx (mk_cfg (mk_parcel 0 0 0 0 0 0) None None None None None) None (fun _ => false).

(** The outer [None] would be a fault: a NULL string printed with "%s". *)
Definition parse_parcel_cfg (contents : file_error + string) : option (pk_err * option parcel_cfg) :=
  match read_file contents with
  | inl err => Some (err, None)
  | inr data =>
      match parse_lines ctx0 (g_strsplit data (String (ascii_of_nat 10) EmptyString) 0) with
      | None => Some (PK_IOERR, None)
      | Some ctx =>
          if negb (pc_have_options ctx) then Some (PK_IOERR, None)
          else
            match rpath ctx, user (pdata ctx), parcel_name (pdata ctx) with
            | Some r, Some u, Some n =>
                let c := pdata ctx in
                Some (PK_SUCCESS, Some (mk_cfg (numbers c) (uuid c) (server c) (user c) (parcel_name c)
                  (Some (r +:+ "/" +:+ u +:+ "/" +:+ n +:+ "/last/hdk"))))
            | _, _, _ => None
            end
      end
  end.
End parse.

(** * The file as a list of settings *)

Fixpoint assoc {K A} `{EqDecision K} (k : K) (l : list (K * A)) : option A :=
  match l with
  | [] => None
  | (k', a) :: l => if decide (k = k') then Some a else assoc k l
  end.

Definition uint (v : string) : option Z := snd (parseuint v).

Section reference.
Context `{!GLib} `{!LibUuid}.

(** The lines that are not comments, as keys and values; [None] if one has no "=". *)
Definition settings (lines : list string) : option (list (string * string)) :=
  mapM (fun line => match g_strsplit line "=" 2 with
                    | [k; v] => Some (g_strstrip k, g_strstrip v)
                    | _ => None
                    end)
    (filter (fun line => is_comment line = false) (g_strstrip <$> lines)).

(** The settings whose keys are known. *)
Definition known (kvs : list (string * string)) : list (pc_ident * string) :=
  omap (fun '(k, v) => i ← assoc k pc_options; Some (i, v)) kvs.

Definition power_of_2 (n : Z) : Prop := n = 2 ^ Z.log2 n.

Definition value_ok (i : pc_ident) (v : string) : Prop :=
  match i with
  | PC_VERSION => exists n, uint v = Some n /\ 3 <= n <= 4
  | PC_CHUNKSIZE => exists n, uint v = Some n /\ 512 <= n /\ power_of_2 n
  | PC_NUMCHUNKS | PC_CHUNKSPERDIR => is_Some (uint v)
  | PC_CRYPTO => v = "aes-sha1"%string
  | PC_COMPRESS => Forall (fun s => s ∈ ["none"; "zlib"; "lzf"]%string) (g_strsplit v "," 0)
  | PC_UUID => is_Some (uuid_canonical v)
  | PC_SERVER | PC_USER | PC_PARCEL | PC_RPATH => True
  | PC_DUPLICATE | PC_IGNORE => False
  end.

(** Every known key exactly once, with a value that is right for it. *)
Record well_formed (ivs : list (pc_ident * string)) : Prop := mk_well_formed {
  wf_once : NoDup ivs.*1;
  wf_values : Forall (fun iv => value_ok iv.1 iv.2) ivs;
  wf_all : Forall (fun o => o.2 ∈ ivs.*1) pc_options
}.

(** The bits of the compression types that are named, and of "none". *)
Definition compress_bits (names : list string) : Z :=
  foldl (fun m s => Z.lor m (Z.shiftl 1 (iu_chunk_compress_parse s)))
    (Z.shiftl 1 IU_CHUNK_COMP_NONE) names.

Definition cfg_of (ivs : list (pc_ident * string)) : parcel_cfg :=
  let v i := default EmptyString (assoc i ivs) in
  let n i := default 0 (uint (v i)) in
  mk_cfg
    (mk_parcel IU_CHUNK_CRY_AES_SHA1 (compress_bits (g_strsplit (v PC_COMPRESS) "," 0))
       (n PC_NUMCHUNKS) (n PC_CHUNKSIZE) (n PC_CHUNKSPERDIR) 20)
    (uuid_canonical (v PC_UUID)) (Some (v PC_SERVER)) (Some (v PC_USER)) (Some (v PC_PARCEL))
    (Some (v PC_RPATH +:+ "/" +:+ v PC_USER +:+ "/" +:+ v PC_PARCEL +:+ "/last/hdk")).

(** ** Options one by one *)

(** What an option with a right value changes. *)
Definition store (i : pc_ident) (v : string) (ctx : pc_parse_ctx) : pc_parse_ctx :=
  snd (pc_handle_option ctx i v).

#[local] Instance value_ok_dec i v : Decision (value_ok i v).
Proof.
  destruct i; simpl; try apply _.
  - destruct (uint v) as [n|]; [|right; by intros (? & [=] & _)].
    destruct (decide (3 <= n <= 4)); [left; eauto|right; by intros (? & [= <-] & ?)].
  - destruct (uint v) as [n|]; [|right; by intros (? & [=] & _)].
    destruct (decide (512 <= n)); [|right; by intros (? & [= <-] & ? & _)].
    destruct (decide (n = 2 ^ Z.log2 n)); [left; eauto|right; by intros (? & [= <-] & _ & ?)].
Defined.

Lemma parseuint_uint v : parseuint v = match uint v with Some n => (PK_SUCCESS, Some n) | None => (PK_INVALID, None) end.
Proof. unfold uint, parseuint. destruct (strtoul v) as [n rest]. by case_decide. Qed.

Lemma uint_u32 v n : uint v = Some n -> is_u 32 n.
Proof.
  unfold uint, parseuint. destruct (strtoul v) as [x rest]. case_decide; [done|]. intros [= <-].
  apply is_u32_u32.
Qed.

(** The test of the code for a power of two. *)
Lemma land_power_of_2 n : 0 < n -> Z.land n (n - 1) = 0 <-> power_of_2 n.
Proof.
  intros Hn. unfold power_of_2. pose proof (Z.log2_spec n Hn) as [Hlo Hhi].
  pose proof (Z.log2_nonneg n) as Hlog. split.
  - intros Hl. destruct (decide (n = 2 ^ Z.log2 n)) as [|Hne]; [done|exfalso].
    assert (Z.log2 (n - 1) = Z.log2 n) as Hlog1 by (apply Z.log2_unique; lia).
    assert (Z.testbit (Z.land n (n - 1)) (Z.log2 n) = true) as Hb.
    { rewrite Z.land_spec, Z.bit_log2 by lia. rewrite <- Hlog1 at 1. simpl. apply Z.bit_log2.
      assert (0 < 2 ^ Z.log2 n) by (apply Z.pow_pos_nonneg; lia). lia. }
    by rewrite Hl, Z.bits_0 in Hb.
  - intros ->. set (k := Z.log2 n). replace (2 ^ k - 1) with (Z.ones k) by (rewrite Z.ones_equiv; lia).
    rewrite Z.land_ones by done. apply Z_mod_same_full.
Qed.

Lemma compress_mask_ok names m :
  compress_mask m names =
    if decide (Forall (fun s => s ∈ ["none"; "zlib"; "lzf"]%string) names)
    then Some (foldl (fun m s => Z.lor m (Z.shiftl 1 (iu_chunk_compress_parse s))) m names) else None.
Proof.
  revert m. induction names as [|s names IH]; intros m; simpl; [done|].
  assert (iu_chunk_compress_parse s = IU_CHUNK_COMP_UNKNOWN <-> ~ s ∈ ["none"; "zlib"; "lzf"]%string) as Hs.
  { unfold iu_chunk_compress_parse. rewrite !elem_of_cons, elem_of_nil.
    repeat case_decide; split; intros Hx; try done; tauto. }
  destruct (decide (iu_chunk_compress_parse s = _)) as [He|He].
  - rewrite decide_False; [done|]. intros [Hin _]%Forall_cons. by apply Hs in He.
  - rewrite IH. destruct (decide (s ∈ ["none"; "zlib"; "lzf"]%string)) as [Hin|Hin]; [|by apply Hs in Hin].
    destruct (decide (Forall _ names)) as [Hf|Hf].
    + by rewrite decide_True by (by apply Forall_cons).
    + rewrite decide_False; [done|]. by intros [_ ?]%Forall_cons.
Qed.

Lemma handle_ok ctx i v :
  i <> PC_IGNORE -> fst (pc_handle_option ctx i v) = if decide (value_ok i v) then PK_SUCCESS else PK_INVALID.
Proof.
  intros Hi. unfold pc_handle_option. rewrite parseuint_uint.
  destruct i; try done; simpl.
  - destruct (uint v) as [n|] eqn:Hn; [|rewrite decide_False; [done|by intros (? & [=] & _)]].
    unfold MIN_DATAVER, MAX_DATAVER. destruct (decide (3 <= n <= 4)).
    + rewrite decide_False, decide_True by (lia || eauto). done.
    + rewrite decide_True, decide_False by (lia || by intros (? & [= <-] & ?)). done.
  - destruct (uint v) as [n|] eqn:Hn; [|rewrite decide_False; [done|by intros (? & [=] & _)]].
    pose proof (uint_u32 v n Hn) as Hu. unfold is_u in Hu.
    destruct (decide (512 <= n)); [|rewrite decide_True, decide_False by (lia || by intros (? & [= <-] & ? & _)); done].
    rewrite u32_id by (unfold is_u; lia). pose proof (land_power_of_2 n ltac:(lia)) as Hp.
    destruct (decide (power_of_2 n)) as [Hpo|Hpo].
    + rewrite decide_False, decide_True by (eauto || (intros [?|Hx]; [lia|by apply Hx, Hp])). done.
    + rewrite decide_True, decide_False by ((by intros (? & [= <-] & _ & ?)) || (right; by rewrite Hp)). done.
  - by destruct (uint v).
  - by destruct (uint v).
  - unfold iu_chunk_crypto_parse. destruct (decide (v = "aes-sha1"%string)) as [->|Hne]; done.
  - rewrite compress_mask_ok. by destruct (decide (Forall _ _)).
  - unfold canonicalize_uuid. by destruct (uuid_canonical v).
Qed.

(** ** The pass over the lines *)

Definition add (ctx : pc_parse_ctx) (iv : pc_ident * string) : pc_parse_ctx :=
  store iv.1 iv.2 (set_seen iv.1 ctx).

Fixpoint options (ctx : pc_parse_ctx) (ivs : list (pc_ident * string)) : option pc_parse_ctx :=
  match ivs with
  | [] => Some ctx
  | iv :: ivs =>
      if seen ctx iv.1 then None
      else if decide (value_ok iv.1 iv.2) then options (add ctx iv) ivs else None
  end.

Lemma find_assoc opts ctx key :
  find_from opts ctx key =
    match assoc key opts with
    | None => (PC_IGNORE, ctx)
    | Some i => if seen ctx i then (PC_DUPLICATE, ctx) else (i, set_seen i ctx)
    end.
Proof.
  induction opts as [|[k i] opts IH]; simpl; [done|].
  destruct (decide (key = k)) as [->|Hne].
  - by rewrite decide_False by tauto.
  - by rewrite decide_True, IH.
Qed.

Lemma assoc_elem {K A} `{EqDecision K} (k : K) (l : list (K * A)) a : assoc k l = Some a -> (k, a) ∈ l.
Proof.
  induction l as [|[k' a'] l IH]; simpl; [done|]. case_decide as Hk.
  - intros [= <-]. subst. by left.
  - intros ?%IH. by right.
Qed.

Lemma known_ident key i : assoc key pc_options = Some i -> i <> PC_IGNORE.
Proof.
  intros Hk%assoc_elem ->. repeat (apply elem_of_cons in Hk as [[=]|Hk]). by apply not_elem_of_nil in Hk.
Qed.

#[local] Opaque pc_options.

Lemma parse_lines_options ctx lines :
  parse_lines ctx lines = settings lines ≫= (fun kvs => options ctx (known kvs)).
Proof.
  revert ctx. induction lines as [|line lines IH]; intros ctx; [done|].
  unfold settings in *. cbn [parse_lines fmap list_fmap]. rewrite filter_cons.
  destruct (is_comment (g_strstrip line)) eqn:Hc.
  { rewrite decide_False by done. apply IH. }
  rewrite decide_True by done. cbn [mapM].
  destruct (g_strsplit (g_strstrip line) "=" 2) as [|k [|v [|? ?]]]; try done.
  unfold pc_find_option. rewrite find_assoc. simpl.
  destruct (assoc (g_strstrip k) pc_options) as [i|] eqn:Hk.
  - destruct (seen ctx i) eqn:Hs; simpl.
    { destruct (mapM _ _) as [kvs|]; [|done]. simpl.
      rewrite Hk. simpl. by rewrite Hs. }
    pose proof (handle_ok (set_seen i ctx) i (g_strstrip v) (known_ident _ _ Hk)) as Hh.
    destruct (pc_handle_option _ i _) as [err ctx'] eqn:Hopt. simpl in Hh. subst err.
    destruct (decide (value_ok i (g_strstrip v))) as [Hok|Hok].
    + rewrite decide_False by tauto. rewrite IH.
      destruct (mapM _ _) as [kvs|]; [|done]. simpl. rewrite Hk. simpl.
      rewrite Hs, decide_True by done. unfold add, store. simpl. by rewrite Hopt.
    + rewrite decide_True by done. destruct (mapM _ _) as [kvs|]; [|done]. simpl.
      rewrite Hk. simpl. by rewrite Hs, decide_False.
  - simpl. rewrite IH.
    destruct (mapM _ _) as [kvs|]; [|done]. simpl. by rewrite Hk.
Qed.

Lemma seen_store i v ctx : seen (store i v ctx) = seen ctx.
Proof.
  unfold store, pc_handle_option. rewrite parseuint_uint.
  destruct i; simpl; try done; try (destruct (uint v); simpl; try done; by case_decide).
  - by destruct (compress_mask _ _).
  - unfold canonicalize_uuid. by destruct (uuid_canonical v).
Qed.

Lemma seen_add ctx iv j : seen (add ctx iv) j = bool_decide (j = iv.1) || seen ctx j.
Proof. unfold add. by rewrite seen_store. Qed.

Lemma options_ok ctx ivs :
  options ctx ivs =
    if decide ((NoDup ivs.*1 /\ Forall (fun i => seen ctx i = false) ivs.*1) /\
               Forall (fun iv => value_ok iv.1 iv.2) ivs)
    then Some (foldl add ctx ivs) else None.
Proof.
  revert ctx. induction ivs as [|[i v] ivs IH]; intros ctx.
  { rewrite decide_True; [done|]. split; [split; [apply NoDup_nil_2|apply Forall_nil_2]|apply Forall_nil_2]. }
  cbn [options fmap list_fmap foldl fst snd].
  destruct (seen ctx i) eqn:Hs.
  { rewrite decide_False; [done|]. intros ((_ & [Hx _]%Forall_cons) & _). simpl in Hx. congruence. }
  destruct (decide (value_ok i v)) as [Hok|Hok].
  2:{ rewrite decide_False; [done|]. intros (_ & [Hx _]%Forall_cons). done. }
  rewrite IH. apply decide_ext. rewrite !Forall_cons, NoDup_cons. simpl.
  assert (Forall (fun j => seen (add ctx (i, v)) j = false) ivs.*1 <->
    ~ i ∈ ivs.*1 /\ Forall (fun j => seen ctx j = false) ivs.*1) as ->; [|tauto].
  rewrite !Forall_forall. setoid_rewrite seen_add. setoid_rewrite orb_false_iff.
  setoid_rewrite bool_decide_eq_false. simpl. split.
  - intros Hall. split; [intros Hin; by apply Hall in Hin as []|]. intros j Hj. by apply Hall.
  - intros [Hni Hall] j Hj. split; [|by apply Hall]. by intros ->.
Qed.
(** ** What the options leave behind *)

(** The fields an option sets, and what it sets them to. *)
Definition field (i : pc_ident) (ctx : pc_parse_ctx) : list (Z + option string) :=
  let p := numbers (pdata ctx) in
  match i with
  | PC_CHUNKSIZE => [inl (chunksize p)]
  | PC_NUMCHUNKS => [inl (chunks p)]
  | PC_CHUNKSPERDIR => [inl (chunks_per_dir p)]
  | PC_CRYPTO => [inl (crypto p); inl (hashlen p)]
  | PC_COMPRESS => [inl (required_compress p)]
  | PC_UUID => [inr (uuid (pdata ctx))]
  | PC_SERVER => [inr (server (pdata ctx))]
  | PC_USER => [inr (user (pdata ctx))]
  | PC_PARCEL => [inr (parcel_name (pdata ctx))]
  | PC_RPATH => [inr (rpath ctx)]
  | PC_VERSION | PC_DUPLICATE | PC_IGNORE => []
  end.

Definition expected (i : pc_ident) (v : string) : list (Z + option string) :=
  match i with
  | PC_CHUNKSIZE | PC_NUMCHUNKS | PC_CHUNKSPERDIR => [inl (default 0 (uint v))]
  | PC_CRYPTO => [inl IU_CHUNK_CRY_AES_SHA1; inl 20]
  | PC_COMPRESS => [inl (compress_bits (g_strsplit v "," 0))]
  | PC_UUID => [inr (uuid_canonical v)]
  | PC_SERVER | PC_USER | PC_PARCEL | PC_RPATH => [inr (Some v)]
  | PC_VERSION | PC_DUPLICATE | PC_IGNORE => []
  end.

Lemma field_store i v ctx : value_ok i v -> field i (store i v ctx) = expected i v.
Proof.
  intros Hok. unfold store, pc_handle_option. rewrite parseuint_uint.
  destruct i; simpl in Hok |- *; try done.
  - destruct Hok as (n & -> & _). by case_decide.
  - by destruct Hok as [n ->].
  - by destruct Hok as [n ->].
  - by subst.
  - by rewrite compress_mask_ok, decide_True.
  - destruct Hok as [u Hu]. unfold canonicalize_uuid. by rewrite Hu.
Qed.

Lemma field_store_other i j v ctx : i <> j -> field i (store j v ctx) = field i ctx.
Proof.
  intros Hij. unfold store, pc_handle_option. rewrite parseuint_uint.
  destruct j; try done;
    try (destruct (uint v); [|by destruct i]); try (case_decide; by destruct i); try by destruct i.
  - destruct (compress_mask _ _); by destruct i.
  - unfold canonicalize_uuid. destruct (uuid_canonical v); by destruct i.
Qed.

Lemma field_add i iv ctx :
  value_ok iv.1 iv.2 -> field i (add ctx iv) = if decide (i = iv.1) then expected i iv.2 else field i ctx.
Proof.
  intros Hok. unfold add. case_decide as Hi.
  - subst. by apply field_store.
  - rewrite field_store_other by done. by destruct i.
Qed.

Lemma field_fold i ctx ivs :
  NoDup ivs.*1 -> Forall (fun iv => value_ok iv.1 iv.2) ivs ->
  field i (foldl add ctx ivs) = match assoc i ivs with Some v => expected i v | None => field i ctx end.
Proof.
  revert ctx. induction ivs as [|[j w] ivs IH]; intros ctx Hnd Hok; [done|].
  apply NoDup_cons in Hnd as [Hj Hnd]. apply Forall_cons in Hok as [Hjw Hok].
  cbn [foldl assoc]. rewrite IH, field_add by done. simpl. case_decide as Hi; [|done]. subst.
  destruct (assoc j ivs) as [v|] eqn:Ha; [|done]. destruct Hj. apply list_elem_of_fmap.
  exists (j, v). split; [done|]. by apply assoc_elem.
Qed.

Lemma seen_fold ctx ivs j : seen (foldl add ctx ivs) j = bool_decide (j ∈ ivs.*1) || seen ctx j.
Proof.
  revert ctx. induction ivs as [|[i w] ivs IH]; intros ctx; [done|]. cbn [foldl]. rewrite IH, seen_add. simpl.
  destruct (seen ctx j); [by rewrite !orb_true_r|]. rewrite !orb_false_r.
  apply eq_true_iff_eq. rewrite orb_true_iff, !bool_decide_eq_true, elem_of_cons. tauto.
Qed.

Lemma assoc_fst {A} (i : pc_ident) (l : list (pc_ident * A)) : i ∈ l.*1 -> is_Some (assoc i l).
Proof.
  induction l as [|[j a] l IH]; simpl; [by intros ?%not_elem_of_nil|].
  rewrite elem_of_cons. case_decide; [by eexists|]. intros [?|?]; [done|auto].
Qed.

Lemma have_options_fold ivs :
  pc_have_options (foldl add ctx0 ivs) = true <-> Forall (fun o => o.2 ∈ ivs.*1) pc_options.
Proof.
  unfold pc_have_options. rewrite forallb_forall, Forall_forall.
  setoid_rewrite list_elem_of_In. apply forall_proper. intros o.
  rewrite seen_fold, orb_false_r, bool_decide_eq_true, list_elem_of_In. done.
Qed.

#[local] Instance well_formed_dec ivs : Decision (well_formed ivs).
Proof.
  destruct (decide (NoDup ivs.*1 /\ Forall (fun iv => value_ok iv.1 iv.2) ivs /\
                    Forall (fun o => o.2 ∈ ivs.*1) pc_options)) as [(?&?&?)|Hn].
  - left. by split.
  - right. intros []. tauto.
Defined.

(** The file read as a list of settings. *)
Definition read_settings (data : string) : option parcel_cfg :=
  kvs ← settings (g_strsplit data (String (ascii_of_nat 10) EmptyString) 0);
  if decide (well_formed (known kvs)) then Some (cfg_of (known kvs)) else None.

Lemma all_present i ivs : well_formed ivs -> i ∈ pc_options.*2 -> is_Some (assoc i ivs).
Proof.
  intros [_ _ Hall] Hi. apply assoc_fst. apply list_elem_of_fmap in Hi as (o & -> & Ho).
  rewrite Forall_forall in Hall. by apply Hall.
Qed.

#[local] Transparent pc_options.

Lemma fold_cfg ivs :
  well_formed ivs -> let ctx := foldl add ctx0 ivs in
  exists r u n, rpath ctx = Some r /\ user (pdata ctx) = Some u /\ parcel_name (pdata ctx) = Some n /\
    mk_cfg (numbers (pdata ctx)) (uuid (pdata ctx)) (server (pdata ctx)) (user (pdata ctx))
      (parcel_name (pdata ctx)) (Some (r +:+ "/" +:+ u +:+ "/" +:+ n +:+ "/last/hdk")) = cfg_of ivs.
Proof.
  intros Hwf ctx. pose proof Hwf as [Hnd Hok _].
  assert (forall i, i ∈ pc_options.*2 -> field i ctx = expected i (default EmptyString (assoc i ivs))) as Hf.
  { intros i Hi. subst ctx. rewrite field_fold by done. by destruct (all_present i ivs Hwf Hi) as [v ->]. }
  clearbody ctx. destruct ctx as [[[]] r sn]. simpl in *.
  pose proof (Hf PC_CHUNKSIZE ltac:(set_solver)) as [= ->].
  pose proof (Hf PC_NUMCHUNKS ltac:(set_solver)) as [= ->].
  pose proof (Hf PC_CHUNKSPERDIR ltac:(set_solver)) as [= ->].
  pose proof (Hf PC_CRYPTO ltac:(set_solver)) as [= -> ->].
  pose proof (Hf PC_COMPRESS ltac:(set_solver)) as [= ->].
  pose proof (Hf PC_UUID ltac:(set_solver)) as [= ->].
  pose proof (Hf PC_SERVER ltac:(set_solver)) as [= ->].
  pose proof (Hf PC_USER ltac:(set_solver)) as [= ->].
  pose proof (Hf PC_PARCEL ltac:(set_solver)) as [= ->].
  pose proof (Hf PC_RPATH ltac:(set_solver)) as [= ->].
  eexists _, _, _. by split_and!.
Qed.
End reference.

Section results.
Context `{!GLib} `{!LibUuid}.

Lemma parse_settings data :
  parse_parcel_cfg (inr data) =
    Some (match read_settings data with
          | Some cfg => (PK_SUCCESS, Some cfg)
          | None => (PK_IOERR, None)
          end).
Proof.
  unfold parse_parcel_cfg, read_file, read_settings. rewrite parse_lines_options.
  destruct (settings _) as [kvs|]; [|done]. simpl. rewrite options_ok.
  destruct (decide (well_formed (known kvs))) as [Hwf|Hwf].
  - pose proof Hwf as [Hnd Hok Hall]. rewrite decide_True.
    2:{ split; [split; [done|]|done]. apply Forall_forall. done. }
    rewrite (proj2 (have_options_fold _) Hall).
    destruct (fold_cfg _ Hwf) as (r & u & n & Hr & Hu & Hn & Hcfg). simpl. rewrite Hr, Hu, Hn.
    by rewrite <- Hcfg, Hu, Hn.
  - case_decide as Hd; [|done]. destruct Hd as ((Hnd & _) & Hok).
    destruct (pc_have_options _) eqn:Hhave; [|done]. apply have_options_fold in Hhave.
    destruct Hwf. by split.
Qed.


Definition known_compress (c : Z) : Prop :=
  c = IU_CHUNK_COMP_NONE \/ c = IU_CHUNK_COMP_ZLIB \/ c = IU_CHUNK_COMP_LZF.

Lemma shiftl_1_testbit k c : 0 <= k -> 0 <= c -> Z.testbit (Z.shiftl 1 k) c = true -> c = k.
Proof.
  intros Hk Hc. rewrite Z.shiftl_spec by done. destruct (decide (c - k < 0)) as [|Hge].
  - by rewrite Z.testbit_neg_r.
  - destruct (decide (c = k)) as [|Hne]; [done|]. change 1 with (2 ^ 0).
    by rewrite Z.pow2_bits_false by lia.
Qed.

Lemma compress_bits_known names c :
  Forall (fun s => s ∈ ["none"; "zlib"; "lzf"]%string) names -> 0 <= c ->
  Z.testbit (compress_bits names) c = true -> known_compress c.
Proof.
  intros Hn Hc. unfold compress_bits.
  assert (Z.testbit (Z.shiftl 1 IU_CHUNK_COMP_NONE) c = true -> known_compress c) as Hm.
  { intros ?%shiftl_1_testbit; [by left|done|done]. }
  revert Hm. generalize (Z.shiftl 1 IU_CHUNK_COMP_NONE). induction Hn as [|s names Hs _ IH]; intros m Hm; [done|].
  apply IH. rewrite Z.lor_spec, orb_true_iff. intros [?|Hb]; [auto|].
  unfold known_compress. repeat (apply elem_of_cons in Hs as [->|Hs]); [..|by apply not_elem_of_nil in Hs];
    apply shiftl_1_testbit in Hb; (done || (subst; vm_compute; tauto)).
Qed.

Lemma cfg_of_sound ivs :
  well_formed ivs -> let p := numbers (cfg_of ivs) in
  512 <= chunksize p < 2 ^ 32 /\ power_of_2 (chunksize p) /\ is_u 32 (chunks p) /\
  is_u 32 (chunks_per_dir p) /\
  forall c, 0 <= c -> Z.testbit (required_compress p) c = true -> known_compress c.
Proof.
  intros Hwf. pose proof Hwf as [_ Hok _]. rewrite Forall_forall in Hok.
  assert (forall i, i ∈ pc_options.*2 -> value_ok i (default EmptyString (assoc i ivs))) as Hv.
  { intros i Hi. destruct (all_present i ivs Hwf Hi) as [v Ha]. rewrite Ha.
    apply (Hok (i, v)). by apply assoc_elem. }
  pose proof (Hv PC_CHUNKSIZE ltac:(set_solver)) as (cs & Hcs & Hge & Hpow).
  pose proof (Hv PC_NUMCHUNKS ltac:(set_solver)) as [n Hn].
  pose proof (Hv PC_CHUNKSPERDIR ltac:(set_solver)) as [d Hd].
  pose proof (Hv PC_COMPRESS ltac:(set_solver)) as Hcomp. clear Hv.
  pose proof (uint_u32 _ _ Hcs) as [_ Hlt]. pose proof (uint_u32 _ _ Hn). pose proof (uint_u32 _ _ Hd).
  simpl. rewrite Hcs, Hn, Hd. simpl. split_and!; try done. intros c. by apply compress_bits_known.
Qed.
End results.

(** * Properties *)

(** C31: the one-pass parser of parcel.cfg is equivalent to reading the file as a list of settings:
    it accepts a file exactly if every line that is not a comment has a key and a value, and every
    known key occurs exactly once, with a value that is right for it, in any order and among any
    other keys; it then returns those values, and it never prints a NULL string. *)
Theorem parse_parcel_cfg_equiv (glib : GLib) (libuuid : LibUuid) data :
  parse_parcel_cfg (inr data) =
    Some (match read_settings data with
          | Some cfg => (PK_SUCCESS, Some cfg)
          | None => (PK_IOERR, None)
          end).
Proof. apply parse_settings. Qed.

(** C40: a parcel that is accepted can be worked with: its chunk size is a power of two of at least
    512 bytes, its numbers fit in 32 bits, its crypto suite is known with the right hash length, and it
    allows no other than the known compression types. *)
Theorem parcel_cfg_sound (glib : GLib) (libuuid : LibUuid) contents cfg :
  parse_parcel_cfg contents = Some (PK_SUCCESS, Some cfg) ->
  let p := numbers cfg in
  512 <= chunksize p < 2 ^ 32 /\ power_of_2 (chunksize p) /\ is_u 32 (chunks p) /\
  is_u 32 (chunks_per_dir p) /\ crypto p = IU_CHUNK_CRY_AES_SHA1 /\
  hashlen p = Z.of_nat (iu_chunk_crypto_hashlen (crypto p)) /\
  forall c, 0 <= c -> Z.testbit (required_compress p) c = true ->
    known_compress c.
Proof.
  intros Hp. destruct contents as [[]|data]; try done. rewrite parse_settings in Hp.
  unfold read_settings in Hp. destruct (settings _) as [kvs|]; [|done]. simpl in Hp.
  destruct (decide (well_formed (known kvs))) as [Hwf|]; [|done]. injection Hp as <-.
  destruct (cfg_of_sound _ Hwf) as ([? ?] & ? & ? & ? & Hc).
  by split_and!.
Qed.

(** ** A file, with GLib and libuuid as they are documented *)

Fixpoint split_on (c : ascii) (max : nat) (s : string) : list string :=
  match s with
  | EmptyString => [EmptyString]
  | String d s' =>
      if decide (d = c /\ max <> 1%nat) then EmptyString :: split_on c (pred max) s'
      else match split_on c max s' with
           | [] => [String d EmptyString]
           | t :: ts => String d t :: ts
           end
  end.

Fixpoint strip_end (s : string) : string :=
  match s with
  | EmptyString => EmptyString
  | String c s' =>
      match strip_end s' with
      | EmptyString => if isspace c then EmptyString else String c EmptyString
      | t => String c t
      end
  end.

#[local] Instance demo_glib : GLib := {|
  g_strsplit s d max :=
    match s, d with
    | EmptyString, _ => []
    | _, String c EmptyString => split_on c max s
    | _, _ => [s]
    end;
  g_strstrip s := strip_end (skip_space s)
|}.

#[local] Instance demo_uuid : LibUuid := {|
  uuid_canonical s := if decide (String.length s = 36%nat) then Some s else None
|}.

Definition cfg_file (chunksize per_dir : string) : string :=
  String.concat (String (ascii_of_nat 10) EmptyString)
    ["# parcel.cfg"; "VERSION = 4"; "CHUNKSIZE=" +:+ chunksize; "NUMCHUNKS = 1024"; "";
     "CHUNKSPERDIR = " +:+ per_dir; "CRYPTO = aes-sha1"; "COMPRESS = none,zlib,lzf";
     "UUID = 01234567-89ab-cdef-0123-456789abcdef"; "SERVER = isr.example.org"; "USER = joe";
     "PARCEL = win"; "PROTOCOL = http"; "RPATH = http://isr.example.org/isr"]%string.

Definition demo_cfg : option (pk_err * option parcel_cfg) := parse_parcel_cfg (inr (cfg_file "131072" "512")).

(** CHUNKSPERDIR = 0 is accepted, and the path of any chunk of such a parcel is then a division
    by zero. *)
Theorem parcel_cfg_zero_per_dir :
  exists cfg, parse_parcel_cfg (inr (cfg_file "131072" "0")) = Some (PK_SUCCESS, Some cfg) /\
    forall prefix chunk, form_chunk_path (numbers cfg) prefix chunk = None.
Proof. eexists. split; [vm_compute; reflexivity|]. done. Qed.

(** A chunk size of 2 MB is accepted as well. *)
Example parcel_cfg_big_chunks :
  (chunksize ∘ numbers) <$> ('(_, c) ← parse_parcel_cfg (inr (cfg_file "2097152" "512")); c) = Some (2 ^ 21).
Proof. vm_compute. reflexivity. Qed.

Definition demo_result : parcel_cfg := Eval vm_compute in
  default (mk_cfg (mk_parcel 0 0 0 0 0 0) None None None None None) ('(_, c) ← demo_cfg; c).

Lemma parcel_cfg_sound_witness :
  let p := numbers demo_result in
  512 <= chunksize p < 2 ^ 32 /\ power_of_2 (chunksize p) /\ is_u 32 (chunks p) /\
  is_u 32 (chunks_per_dir p) /\ crypto p = IU_CHUNK_CRY_AES_SHA1 /\
  hashlen p = Z.of_nat (iu_chunk_crypto_hashlen (crypto p)) /\
  forall c, 0 <= c -> Z.testbit (required_compress p) c = true -> known_compress c.
Proof.
  apply (parcel_cfg_sound demo_glib demo_uuid (inr (cfg_file "131072" "512")) demo_result).
  vm_compute. reflexivity.
Defined.
