(* ===== verification/Transport.v ===== *)
(** Transport: downloading a chunk (src/parcelkeeper/transport.c).

    libcurl and the server are a parameter: for each transfer, the data that arrives, piece by
    piece, and the code curl_easy_perform returns.  The data is not trusted. *)

From stdpp Require Import strings.
From S2P Require Import Prelude Cipher HashStream Sha1 Hash Compress LzfStream Chunk Effects Sql Pk Util.

Definition TRANSPORT_TRIES : nat := 5.
Definition TRANSPORT_RETRY_DELAY : Z := 5.

(** CURLcode *)
Definition CURLE_OK : Z := 0.
Definition CURLE_COULDNT_RESOLVE_PROXY : Z := 5.
Definition CURLE_COULDNT_RESOLVE_HOST : Z := 6.
Definition CURLE_COULDNT_CONNECT : Z := 7.
Definition CURLE_HTTP_RETURNED_ERROR : Z := 22.
Definition CURLE_WRITE_ERROR : Z := 23.
Definition CURLE_OPERATION_TIMEOUTED : Z := 28.
Definition CURLE_GOT_NOTHING : Z := 52.
Definition CURLE_SEND_ERROR : Z := 55.
Definition CURLE_RECV_ERROR : Z := 56.
Definition CURLE_BAD_CONTENT_ENCODING : Z := 61.

(** The [n]-th use of libcurl: whether a handle can be made and set up and whether the URL can be
    set, the pieces of data that arrive for the URL, and the code of curl_easy_perform, given
    whether the callback took all of them.  As documented, a transfer whose data was not all
    taken does not return CURLE_OK. *)
Class Curl := {
  curl_handle : nat -> bool;
  curl_set_url : nat -> string -> bool;
  curl_pieces : nat -> string -> list (list Z);
  curl_code : nat -> string -> bool -> Z;
  curl_short n url : curl_code n url false <> CURLE_OK;
  curl_bytes n url : Forall bytes (curl_pieces n url)
}.

(** struct pk_connection, while a transfer runs: the buffer and how much of it is used. *)
Record pk_connection := mk_connection { c_buf : list Z; c_offset : Z }.

(** struct pk_connection_pool: the number of idle connections; [uses] counts the uses of libcurl,
    [slept] the seconds waited, and [hoarded] the calls of hoard_put_chunk. *)
Record pool := mk_pool {
  conns : nat;
  uses : nat;
  slept : Z;
  hoarded : list (list Z * list Z)
}.

Section transport.
Context `{!Curl} (p : pk_parcel) (url_prefix : string).

(** The number of bytes taken, and the connection; [None] is a write outside the buffer. *)
Definition curl_callback (data : list Z) (conn : pk_connection) : option (Z * pk_connection) :=
  let count := Z.min (Z.of_nat (length data)) (u64 (chunksize p - c_offset conn)) in
  if decide (c_offset conn + count <= Z.of_nat (length (c_buf conn))) then
    Some (count, mk_connection (blit (c_buf conn) (Z.to_nat (c_offset conn)) (take (Z.to_nat count) data))
                   (u64 (c_offset conn + count)))
  else None.

(** curl_easy_perform calls the callback for each piece until one is not taken whole. *)
Fixpoint deliver (pieces : list (list Z)) (conn : pk_connection) : option (bool * pk_connection) :=
  match pieces with
  | [] => Some (true, conn)
  | data :: pieces =>
      '(count, conn) ← curl_callback data conn;
      if decide (count = Z.of_nat (length data)) then deliver pieces conn else Some (false, conn)
  end.

Definition transport_conn_get (s : pool) : bool * pool :=
  match conns s with
  | S n => (true, mk_pool n (uses s) (slept s) (hoarded s))
  | O => (curl_handle (uses s), mk_pool O (S (uses s)) (slept s) (hoarded s))
  end.

Definition transport_conn_put (s : pool) : pool :=
  mk_pool (S (conns s)) (uses s) (slept s) (hoarded s).

Definition curl_err (err : Z) : pk_err :=
  if decide (err = CURLE_OK) then PK_SUCCESS
  else if decide (err ∈ [CURLE_COULDNT_RESOLVE_PROXY; CURLE_COULDNT_RESOLVE_HOST; CURLE_COULDNT_CONNECT;
                         CURLE_HTTP_RETURNED_ERROR; CURLE_OPERATION_TIMEOUTED; CURLE_GOT_NOTHING;
                         CURLE_SEND_ERROR; CURLE_RECV_ERROR; CURLE_BAD_CONTENT_ENCODING])
  then PK_NETFAIL
  else PK_IOERR.

(** The result, the buffer, the length, which is stored only on success, and the pool. *)
Definition transport_get (buf : list Z) (chunk : Z) (s : pool) :
    option (pk_err * list Z * option Z * pool) :=
  let '(ok, s) := transport_conn_get s in
  if negb ok then Some (PK_CALLFAIL, buf, None, s)
  else
    url ← form_chunk_path p url_prefix chunk;
    let n := uses s in
    let s := mk_pool (conns s) (S n) (slept s) (hoarded s) in
    if negb (curl_set_url n url) then Some (PK_CALLFAIL, buf, None, transport_conn_put s)
    else
      '(all, conn) ← deliver (curl_pieces n url) (mk_connection buf 0);
      let err := curl_err (curl_code n url all) in
      Some (err, c_buf conn, if decide (err = PK_SUCCESS) then Some (c_offset conn) else None,
            transport_conn_put s).

(** "for (i=0; i<TRANSPORT_TRIES; i++)"; [len] is that of the last transfer that set it. *)
Fixpoint tries (i : nat) (ret : pk_err) (buf : list Z) (len : Z) (chunk : Z) (s : pool) :
    option (pk_err * list Z * Z * pool) :=
  match i with
  | O => Some (ret, buf, len, s)
  | S i =>
      '(ret, buf, l, s) ← transport_get buf chunk s;
      let len := default len l in
      if decide (ret <> PK_NETFAIL) then Some (ret, buf, len, s)
      else tries i ret buf len chunk
             (mk_pool (conns s) (uses s) (slept s + TRANSPORT_RETRY_DELAY) (hoarded s))
  end.

(** The result, the buffer and the length, and the pool. *)
Definition transport_fetch_chunk (buf : list Z) (chunk : Z) (tag : list Z) (s : pool) :
    option (pk_err * list Z * option Z * pool) :=
  '(ret, buf, len, s) ← tries TRANSPORT_TRIES PK_SUCCESS buf 0 chunk s;
  if decide (ret <> PK_SUCCESS) then Some (ret, buf, None, s)
  else
    digest ← iu_chunk_crypto_digest (crypto p) (take (Z.to_nat len) buf);
    match digest with
    | None => Some (PK_CALLFAIL, buf, None, s)
    | Some calctag =>
        if decide (take (Z.to_nat (hashlen p)) tag <> take (Z.to_nat (hashlen p)) calctag)
        then Some (PK_TAGFAIL, buf, None, s)
        else Some (PK_SUCCESS, buf, Some len,
                   mk_pool (conns s) (uses s) (slept s) (hoarded s ++ [(tag, take (Z.to_nat len) buf)]))
    end.
End transport.

(** * The buffer *)

Section proofs.
Context `{!Curl} (p : pk_parcel) (url_prefix : string).
Context (chunksize_ok : 0 <= chunksize p < 2 ^ 32).

(** A buffer of the chunk size of which the first [c_offset] bytes are [got]. *)
Record receiving (got : list Z) (conn : pk_connection) : Prop := mk_receiving {
  rc_length : Z.of_nat (length (c_buf conn)) = chunksize p;
  rc_bytes : bytes (c_buf conn);
  rc_offset : c_offset conn = Z.of_nat (length got);
  rc_got : take (length got) (c_buf conn) = got
}.

Lemma receiving_le got conn : receiving got conn -> Z.of_nat (length got) <= chunksize p.
Proof. intros [Hl _ _ Hg]. apply (f_equal length) in Hg. rewrite length_take in Hg. lia. Qed.

Lemma callback_ok got conn data :
  receiving got conn -> bytes data ->
  exists taken conn', curl_callback p data conn = Some (Z.of_nat (length taken), conn') /\
    taken = take (length taken) data /\ receiving (got ++ taken) conn' /\
    (Z.of_nat (length got + length data) <= chunksize p -> taken = data).
Proof.
  intros Hr Hb. pose proof (receiving_le _ _ Hr) as Hle. destruct Hr as [Hl Hbb Ho Hg].
  set (count := Z.min (Z.of_nat (length data)) (chunksize p - Z.of_nat (length got))).
  assert (length (take (Z.to_nat count) data) = Z.to_nat count) as Htl by (rewrite length_take; lia).
  exists (take (Z.to_nat count) data). rewrite Htl. eexists. split_and!; [| done| |].
  - unfold curl_callback. rewrite Ho. rewrite (u64_id (chunksize p - _)) by (unfold is_u; lia). fold count.
    rewrite decide_True by lia. by rewrite Z2Nat.id by lia.
  - assert (length (blit (c_buf conn) (length got) (take (Z.to_nat count) data)) = length (c_buf conn)) as Hbl.
    { apply length_blit. lia. }
    rewrite u64_id by (unfold is_u; lia).
    split; cbn [c_buf c_offset]; rewrite ?Nat2Z.id, ?Hbl, ?length_app, ?Htl; try lia.
    + apply bytes_blit; [done|]. by apply Forall_take.
    + unfold blit. rewrite app_assoc, Hg. rewrite take_app_le by (rewrite length_app, Htl; lia).
      apply take_ge. rewrite length_app. lia.
  - intros Hfit. apply take_ge. lia.
Qed.

Lemma deliver_ok got conn pieces :
  receiving got conn -> Forall bytes pieces ->
  exists all conn' got', deliver p pieces conn = Some (all, conn') /\ receiving got' conn' /\
    (all = true -> got' = got ++ concat pieces) /\
    (Z.of_nat (length got + length (concat pieces)) <= chunksize p -> all = true).
Proof.
  revert got conn. induction pieces as [|data pieces IH]; intros got conn Hr Hb.
  { exists true, conn, got. split_and!; try done. intros _. by rewrite app_nil_r. }
  apply Forall_cons in Hb as [Hd Hb].
  destruct (callback_ok got conn data Hr Hd) as (taken & conn1 & Hcb & Ht & Hr1 & Hfit).
  cbn [deliver concat]. rewrite Hcb. simpl. rewrite length_app.
  destruct (decide (Z.of_nat (length taken) = Z.of_nat (length data))) as [Heq|Hne].
  - assert (taken = data) as -> by (rewrite Ht; apply take_ge; lia).
    destruct (IH (got ++ data) conn1 Hr1 Hb) as (all & conn' & got' & -> & Hr' & Hall & Hf).
    exists all, conn', got'. split_and!; try done.
    + intros Ha. rewrite (Hall Ha). by rewrite app_assoc.
    + intros Hx. apply Hf. rewrite length_app. lia.
  - eexists false, conn1, _. split_and!; try done. intros Hx. rewrite Hfit in Hne by lia. done.
Qed.

(** ** One transfer *)

Definition url_of (chunk : Z) : string := default EmptyString (form_chunk_path p url_prefix chunk).

(** What a transfer can do to the pool. *)
Definition pool_step (s s' : pool) : Prop := slept s' = slept s /\ hoarded s' = hoarded s.

Lemma get_ok buf chunk s :
  chunks_per_dir p <> 0 -> Z.of_nat (length buf) = chunksize p -> bytes buf ->
  exists err buf' l s', transport_get p url_prefix buf chunk s = Some (err, buf', l, s') /\
    length buf' = length buf /\ bytes buf' /\ pool_step s s' /\
    (err = PK_SUCCESS -> exists len, l = Some len /\ 0 <= len <= chunksize p).
Proof.
  intros Hd Hl Hb. unfold transport_get, pool_step.
  destruct (transport_conn_get s) as [ok s1] eqn:Hc.
  assert (slept s1 = slept s /\ hoarded s1 = hoarded s) as [Hs1 Hh1].
  { unfold transport_conn_get in Hc. destruct (conns s); by injection Hc as <- <-. }
  destruct ok; simpl; [|eexists _, _, _, _; split_and!; done].
  unfold form_chunk_path. rewrite decide_False by done. simpl.
  set (url := _ +:+ _). destruct (curl_set_url (uses s1) url); simpl; [|eexists _, _, _, _; by split_and!].
  assert (receiving [] (mk_connection buf 0)) as Hr by (by split).
  destruct (deliver_ok _ _ _ Hr (curl_bytes (uses s1) url)) as (all & conn & got & -> & Hr' & _). simpl.
  pose proof (receiving_le _ _ Hr') as Hle. destruct Hr' as [Hl' Hb' Ho _].
  eexists _, _, _, _. split_and!; try done; [lia|]. intros ->. rewrite decide_True by done.
  eexists. split; [done|]. rewrite Ho. lia.
Qed.

Lemma tries_ok i ret buf len chunk s :
  chunks_per_dir p <> 0 -> Z.of_nat (length buf) = chunksize p -> bytes buf -> ret <> PK_SUCCESS \/ i <> O ->
  exists err buf' len' s', tries p url_prefix i ret buf len chunk s = Some (err, buf', len', s') /\
    length buf' = length buf /\ bytes buf' /\ hoarded s' = hoarded s /\
    slept s' <= slept s + Z.of_nat i * TRANSPORT_RETRY_DELAY /\
    (err = PK_SUCCESS -> 0 <= len' <= chunksize p).
Proof.
  revert ret buf len s. induction i as [|i IH]; intros ret buf len s Hd Hl Hb Hret; simpl.
  { eexists _, _, _, _. split_and!; try done; [lia|]. by destruct Hret. }
  destruct (get_ok buf chunk s Hd Hl Hb) as (err & buf1 & l & s1 & -> & Hl1 & Hb1 & [Hs1 Hh1] & Hok). simpl.
  destruct (decide (err <> PK_NETFAIL)) as [Hne|Heq].
  - eexists _, _, _, _. split_and!; try done.
    + rewrite Hs1. unfold TRANSPORT_RETRY_DELAY. lia.
    + intros He. by destruct (Hok He) as (len1 & -> & ?).
  - destruct (IH err buf1 (default len l) (mk_pool (conns s1) (uses s1) (slept s1 + TRANSPORT_RETRY_DELAY) (hoarded s1)))
      as (err' & buf' & len' & s' & Hrun & Hl' & Hb' & Hh' & Hs' & Hok'); try done; [lia| |].
    { left. intros ->. apply Heq. done. }
    eexists _, _, _, _. split_and!; try done; [congruence|simpl in *; congruence|].
    simpl in Hs'. unfold TRANSPORT_RETRY_DELAY in *. lia.
Qed.

(** ** Network failures, then data *)

Lemma curl_err_netfail c : curl_err c = PK_NETFAIL -> c <> CURLE_OK.
Proof. intros Hc ->. done. Qed.

(** A transfer on an idle connection that fails in the network, or that succeeds. *)
Lemma get_idle buf chunk s n :
  chunks_per_dir p <> 0 -> Z.of_nat (length buf) = chunksize p -> bytes buf ->
  conns s = S n -> curl_set_url (uses s) (url_of chunk) = true ->
  exists all buf' l, transport_get p url_prefix buf chunk s =
      Some (curl_err (curl_code (uses s) (url_of chunk) all), buf', l,
            mk_pool (conns s) (S (uses s)) (slept s) (hoarded s)) /\
    length buf' = length buf /\ bytes buf' /\
    (let d := concat (curl_pieces (uses s) (url_of chunk)) in
     Z.of_nat (length d) <= chunksize p -> all = true /\ take (length d) buf' = d /\
     (curl_code (uses s) (url_of chunk) all = CURLE_OK -> l = Some (Z.of_nat (length d)))).
Proof.
  intros Hd Hl Hb Hc Hurl. unfold transport_get, transport_conn_get. rewrite Hc. simpl.
  unfold url_of in *. destruct (form_chunk_path p url_prefix chunk) as [url|] eqn:Hf.
  2:{ unfold form_chunk_path in Hf. by rewrite decide_False in Hf. }
  simpl in *. rewrite Hurl. simpl. assert (receiving [] (mk_connection buf 0)) as Hr by (by split).
  destruct (deliver_ok _ _ _ Hr (curl_bytes (uses s) url)) as (all & conn & got & -> & [Hl' Hb' Ho Hg] & Hall & Hfit).
  simpl. eexists all, _, _. split; [done|]. split_and!; [lia|done|]. intros Hsm.
  specialize (Hfit Hsm). rewrite (Hall Hfit) in *. split_and!; [done|done|].
  intros Hok. rewrite Hok. simpl. by rewrite Ho.
Qed.

Lemma tries_retry k i ret buf len chunk s n :
  let url := url_of chunk in let d := concat (curl_pieces (uses s + k) url) in
  chunks_per_dir p <> 0 -> Z.of_nat (length buf) = chunksize p -> bytes buf -> conns s = S n ->
  (k < i)%nat -> (forall m, curl_set_url m url = true) ->
  (forall m b, (m < k)%nat -> curl_err (curl_code (uses s + m) url b) = PK_NETFAIL) ->
  Z.of_nat (length d) <= chunksize p -> curl_code (uses s + k) url true = CURLE_OK ->
  exists buf' s', tries p url_prefix i ret buf len chunk s = Some (PK_SUCCESS, buf', Z.of_nat (length d), s') /\
    length buf' = length buf /\ bytes buf' /\ take (length d) buf' = d /\ hoarded s' = hoarded s /\
    slept s' = slept s + Z.of_nat k * TRANSPORT_RETRY_DELAY.
Proof.
  revert i ret buf len s n. induction k as [|k IH]; intros [|i] ret buf len s n url d Hd Hl Hb Hc Hi Hurl Hfail Hsm Hok;
    try lia; cbn [tries]; destruct (get_idle buf chunk s n Hd Hl Hb Hc (Hurl _)) as (all & buf1 & l & -> & Hl1 & Hb1 & Hget).
  - subst d. rewrite Nat.add_0_r in *. destruct (Hget Hsm) as (-> & Htk & Hlen).
    cbn [mbind option_bind]. fold url. rewrite Hok. simpl. rewrite (Hlen Hok). simpl.
    eexists _, _. split_and!; try done. cbn [slept]. unfold TRANSPORT_RETRY_DELAY. lia.
  - cbn [mbind option_bind]. fold url.
    pose proof (Hfail O all ltac:(lia)) as Hf0. rewrite Nat.add_0_r in Hf0. rewrite Hf0.
    rewrite decide_False by tauto.
    set (s1 := mk_pool _ _ _ _). assert (uses s1 = S (uses s)) as Hu by done.
    destruct (IH i PK_NETFAIL buf1 (default len l) s1 n) as (buf' & s' & Hrun & Hl' & Hb' & Htk & Hh & Hs);
      rewrite ?Hu, ?Nat.add_succ_comm; try done; try lia.
    { intros m b Hm. rewrite Nat.add_succ_comm. apply Hfail. lia. }
    exists buf', s'. rewrite Hu, Nat.add_succ_comm in *. split_and!; try done; [congruence|].
    rewrite Hs. cbn [s1 slept]. unfold TRANSPORT_RETRY_DELAY. lia.
Qed.
End proofs.

(** What a fetch can return. *)
Lemma transport_fetch_spec (curl : Curl) p url_prefix buf chunk tag s :
  512 <= chunksize p < 2 ^ 32 -> chunks_per_dir p <> 0 -> crypto p = IU_CHUNK_CRY_AES_SHA1 ->
  hashlen p = 20 -> Z.of_nat (length buf) = chunksize p -> bytes buf -> length tag = 20%nat ->
  exists err buf' len s', transport_fetch_chunk p url_prefix buf chunk tag s = Some (err, buf', len, s') /\
    length buf' = length buf /\ bytes buf' /\ slept s' <= slept s + 25 /\
    match len with
    | Some l => err = PK_SUCCESS /\ 0 <= l <= chunksize p /\
                Fips180.sha1 (take (Z.to_nat l) buf') = tag /\
                hoarded s' = hoarded s ++ [(tag, take (Z.to_nat l) buf')]
    | None => err <> PK_SUCCESS /\ hoarded s' = hoarded s
    end.
Proof.
  intros Hcs Hd Hcry Hhl Hl Hb Htag. unfold transport_fetch_chunk.
  destruct (tries_ok p url_prefix ltac:(lia) TRANSPORT_TRIES PK_SUCCESS buf 0 chunk s Hd Hl Hb ltac:(by right))
    as (err & buf' & len & s' & -> & Hl' & Hb' & Hh & Hs & Hok). cbn [mbind option_bind].
  unfold TRANSPORT_TRIES, TRANSPORT_RETRY_DELAY in Hs.
  destruct (decide (err <> PK_SUCCESS)) as [Hne|Heq].
  { eexists _, _, _, _. split_and!; done || lia. }
  assert (err = PK_SUCCESS) as -> by (by apply dec_stable).
  rewrite Hcry, digest_sha1 by (by apply Forall_take). cbn [mbind option_bind]. rewrite Hhl.
  change (Z.to_nat 20) with 20%nat. rewrite take_sha1, (take_ge tag) by lia.
  destruct (decide (tag <> _)) as [Hne|Htg].
  - eexists _, _, _, _. split_and!; done || lia.
  - assert (tag = Fips180.sha1 (take (Z.to_nat len) buf')) as Ht by (by apply dec_stable).
    destruct (Hok eq_refl) as [Hlo Hhi].
    eexists _, _, (Some len), _. split_and!; try done; simpl; by rewrite Hh.
Qed.

(** * Properties *)

(** C29: whatever the server sends and however the network fails, fetching a chunk never writes
    outside the buffer of the chunk size and ends after at most five transfers; it succeeds only
    with data whose SHA-1 is the tag, and only such data is given to the hoard cache. *)
Theorem transport_fetch_chunk_verified (curl : Curl) p url_prefix buf chunk tag s :
  512 <= chunksize p < 2 ^ 32 -> chunks_per_dir p <> 0 -> crypto p = IU_CHUNK_CRY_AES_SHA1 ->
  hashlen p = 20 -> Z.of_nat (length buf) = chunksize p -> bytes buf -> length tag = 20%nat ->
  exists err buf' len s', transport_fetch_chunk p url_prefix buf chunk tag s = Some (err, buf', len, s') /\
    length buf' = length buf /\ slept s' <= slept s + 25 /\
    match len with
    | Some l => err = PK_SUCCESS /\ 0 <= l <= chunksize p /\
                Fips180.sha1 (take (Z.to_nat l) buf') = tag /\
                hoarded s' = hoarded s ++ [(tag, take (Z.to_nat l) buf')]
    | None => err <> PK_SUCCESS /\ hoarded s' = hoarded s
    end.
Proof.
  intros Hcs Hd Hcry Hhl Hl Hb Htag.
  destruct (transport_fetch_spec curl p url_prefix buf chunk tag s Hcs Hd Hcry Hhl Hl Hb Htag)
    as (err & buf' & len & s' & ? & ? & _ & ? & ?). by exists err, buf', len, s'.
Qed.

(** Network failures are retried: if up to four transfers fail in the network and the next one
    delivers a chunk that matches the tag, however it is cut into pieces, the chunk is fetched. *)
Theorem transport_fetch_chunk_retries (curl : Curl) p url_prefix buf chunk s k n :
  let url := url_of p url_prefix chunk in let d := concat (curl_pieces (uses s + k) url) in
  512 <= chunksize p < 2 ^ 32 -> chunks_per_dir p <> 0 -> crypto p = IU_CHUNK_CRY_AES_SHA1 ->
  hashlen p = 20 -> Z.of_nat (length buf) = chunksize p -> bytes buf -> conns s = S n ->
  (k < 5)%nat -> (forall m, curl_set_url m url = true) ->
  (forall m b, (m < k)%nat -> curl_err (curl_code (uses s + m) url b) = PK_NETFAIL) ->
  Z.of_nat (length d) <= chunksize p -> curl_code (uses s + k) url true = CURLE_OK ->
  exists buf' s', transport_fetch_chunk p url_prefix buf chunk (Fips180.sha1 d) s =
      Some (PK_SUCCESS, buf', Some (Z.of_nat (length d)), s') /\ take (length d) buf' = d.
Proof.
  intros url d Hcs Hd Hcry Hhl Hl Hb Hc Hk Hurl Hfail Hsm Hok. unfold transport_fetch_chunk.
  destruct (tries_retry p url_prefix ltac:(lia) k TRANSPORT_TRIES PK_SUCCESS buf 0 chunk s n Hd Hl Hb Hc Hk Hurl Hfail Hsm Hok)
    as (buf' & s' & Hrun & Hl' & Hb' & Htk & _ & _). fold url d in Hrun, Htk. rewrite Hrun. cbn [mbind option_bind].
  rewrite decide_False by tauto. rewrite Nat2Z.id, Htk, Hcry.
  rewrite digest_sha1. 2:{ rewrite <- Htk. by apply Forall_take. }
  cbn [mbind option_bind]. rewrite decide_False by tauto. by eexists _, _.
Qed.

(** ** Witnesses *)

(** Two transfers fail: the server cannot be reached, then times out half-way; the third one
    delivers the chunk in two pieces. *)
#[local] Instance demo_curl : Curl.
Proof.
  refine {|
    curl_handle _ := true;
    curl_set_url _ _ := true;
    curl_pieces n _ :=
      match n with O => [] | 1%nat => [replicate 100 9] | _ => [replicate 100 1; replicate 28 2] end;
    curl_code n _ all :=
      if all : bool then
        match n with O => CURLE_COULDNT_CONNECT | 1%nat => CURLE_OPERATION_TIMEOUTED | _ => CURLE_OK end
      else match n with O => CURLE_COULDNT_CONNECT | 1%nat => CURLE_OPERATION_TIMEOUTED
           | _ => CURLE_WRITE_ERROR end
  |}.
  - by intros [|[|n]] url.
  - intros [|[|n]] url; repeat (apply Forall_cons_2; [by apply Forall_replicate|]); apply Forall_nil_2.
Defined.

Definition small_parcel : pk_parcel := mk_parcel IU_CHUNK_CRY_AES_SHA1 3 4096 512 512 20.
Definition demo_data : list Z := replicate 100 1 ++ replicate 28 2.

Lemma transport_fetch_chunk_retries_witness :
  exists buf' s', transport_fetch_chunk small_parcel "http://srv" (replicate 512 0) 7 (Fips180.sha1 demo_data)
      (mk_pool 1 0 0 []) = Some (PK_SUCCESS, buf', Some (Z.of_nat (length demo_data)), s') /\
    take (length demo_data) buf' = demo_data.
Proof.
  apply (transport_fetch_chunk_retries demo_curl small_parcel "http://srv" (replicate 512 0) 7 (mk_pool 1 0 0 []) 2 0);
    try done; [by apply Forall_replicate|lia|].
  intros [|[|m]] b Hm; [by destruct b..|lia].
Defined.

Lemma transport_fetch_chunk_verified_witness :
  exists err buf' len s', transport_fetch_chunk small_parcel "http://srv" (replicate 512 0) 7 (replicate 20 0)
      (mk_pool 0 0 0 []) = Some (err, buf', len, s') /\
    length buf' = length (replicate 512 0) /\ slept s' <= 0 + 25 /\
    match len with
    | Some l => err = PK_SUCCESS /\ 0 <= l <= 512 /\
                Fips180.sha1 (take (Z.to_nat l) buf') = replicate 20 0 /\
                hoarded s' = [] ++ [(replicate 20 0, take (Z.to_nat l) buf')]
    | None => err <> PK_SUCCESS /\ hoarded s' = []
    end.
Proof.
  apply (transport_fetch_chunk_verified demo_curl small_parcel "http://srv" (replicate 512 0) 7 (replicate 20 0)
    (mk_pool 0 0 0 [])); done || by apply Forall_replicate.
Defined.
