(* ===== verification/Hoard.v ===== *)
(** Hoard: the hoard cache (src/parcelkeeper/hoard.c), a file of 128 KB slots that holds encrypted
    chunks of any parcel by their tag, with an index in SQLite.

    A process reserves free slots in batches: they are marked as allocated in the table of chunks
    and kept in a temporary table, its slot cache, until they are flushed back with the tags they
    were filled with.  A table is the list of its rows. *)

From stdpp Require Import strings.
From S2P Require Import Prelude Cipher HashStream Sha1 Hash Compress LzfStream Chunk Effects Sql Pk.

Definition EXPAND_CHUNKS : nat := 256.

(** ** The index *)

Record hchunk := mk_hchunk {
  hc_tag : option (list Z);
  hc_offset : Z;
  hc_length : Z;
  hc_crypto : Z;
  hc_allocated : bool
}.

Record hslot := mk_hslot {
  hs_tag : option (list Z);
  hs_offset : Z;
  hs_length : Z;
  hs_crypto : Z
}.

(** The names of a parcel, and its number in the index. *)
Record hparcel := mk_hparcel {
  hp_parcel : Z;
  hp_uuid : string;
  hp_server : string;
  hp_user : string;
  hp_name : string
}.

(** [hd_slots] is the temporary table of the connection. *)
Record hoard_db := mk_hoard {
  hd_chunks : list hchunk;
  hd_refs : list (Z * list Z);
  hd_slots : list hslot;
  hd_parcels : list hparcel
}.

Definition set_hchunks v d := mk_hoard v (hd_refs d) (hd_slots d) (hd_parcels d).
Definition set_hslots v d := mk_hoard (hd_chunks d) (hd_refs d) v (hd_parcels d).
Definition set_hparcels v d := mk_hoard (hd_chunks d) (hd_refs d) (hd_slots d) v.

(** The members of pk_state that the hoard cache uses; [hoard_dir] says whether there is one. *)
Record hoard_state := mk_hstate {
  h_parcel : pk_parcel;
  hoard_dir : bool;
  hoard : db hoard_db;
  hoard_file : list Z;
  hoard_io : list (option nat)
}.

Definition set_hoard v s := mk_hstate (h_parcel s) (hoard_dir s) v (hoard_file s) (hoard_io s).
Definition set_hoard_file v s := mk_hstate (h_parcel s) (hoard_dir s) (hoard s) v (hoard_io s).
Definition set_hoard_io v s := mk_hstate (h_parcel s) (hoard_dir s) (hoard s) (hoard_file s) v.

#[global] Program Instance hoard_has_db : HasDb hoard_state hoard_db := {
  get_db := hoard;
  set_db := set_hoard
}.
Solve Obligations with done.

(** ** Statements *)

Definition hq (A : Type) : Type := hoard_db -> stmt_error + hoard_db * list A.
(** An INTEGER column is read with [s32], as sqlite3_column_int does. *)
Definition hrun {R A} (f : hq A) : pk hoard_state R (bool * list A) := on_db (query (Stmt f)).
Definition hnext {R A} (rows : list A) : pk hoard_state R (bool * list A) := on_db (query_next rows).

(** UPDATE of the rows with [P]; the result row is the number of changes. *)
Definition update {A} (P : A -> Prop) `{forall r, Decision (P r)} (f : A -> A) (t : list A) : list A :=
  (fun r => if decide (P r) then f r else r) <$> t.
Definition changes {A} (P : A -> Prop) `{forall r, Decision (P r)} (t : list A) : list Z :=
  [Z.of_nat (length (filter P t))].

(** SELECT offset, length FROM temp.slots WHERE tag == ? *)
Definition sql_slot_by_tag (tag : list Z) : hq (Z * Z) := fun d =>
  inr (d, (fun r => (hs_offset r, hs_length r)) <$> filter (fun r => hs_tag r = Some tag) (hd_slots d)).

(** SELECT offset, length FROM chunks WHERE tag == ? *)
Definition sql_chunk_by_tag (tag : list Z) : hq (Z * Z) := fun d =>
  inr (d, (fun r => (hc_offset r, hc_length r)) <$> filter (fun r => hc_tag r = Some tag) (hd_chunks d)).

(** SELECT offset FROM temp.slots WHERE tag ISNULL LIMIT 1 *)
Definition sql_free_slot : hq Z := fun d =>
  inr (d, take 1 (hs_offset <$> filter (fun r => hs_tag r = None) (hd_slots d))).

(** UPDATE temp.slots SET tag = ?, length = ?, crypto = ? WHERE offset = ?; tags are unique. *)
Definition sql_fill_slot (tag : list Z) (len crypto offset : Z) : hq Z := fun d =>
  if decide (Exists (fun r => hs_tag r = Some tag /\ hs_offset r <> offset) (hd_slots d)) then inl E_CONSTRAINT
  else
    inr (set_hslots (update (fun r => hs_offset r = offset)
                       (fun r => mk_hslot (Some tag) (hs_offset r) len crypto) (hd_slots d)) d,
         changes (fun r => hs_offset r = offset) (hd_slots d)).

(** UPDATE temp.slots SET tag = NULL, length = 0, crypto = 0 WHERE offset = ? *)
Definition sql_empty_slot (offset : Z) : hq Z := fun d =>
  inr (set_hslots (update (fun r => hs_offset r = offset) (fun r => mk_hslot None (hs_offset r) 0 0)
                     (hd_slots d)) d,
       changes (fun r => hs_offset r = offset) (hd_slots d)).

(** SELECT tag, offset, length, crypto FROM temp.slots WHERE tag NOTNULL *)
Definition sql_used_slots : hq hslot := fun d =>
  inr (d, filter (fun r => is_Some (hs_tag r)) (hd_slots d)).

(** UPDATE chunks SET tag = ?, length = ?, crypto = ?, allocated = 1 WHERE offset = ?; tags are
    unique, NULL apart. *)
Definition sql_fill_chunk (tag : option (list Z)) (len crypto offset : Z) : hq Z := fun d =>
  if decide (Exists (fun r => is_Some tag /\ hc_tag r = tag /\ hc_offset r <> offset) (hd_chunks d))
  then inl E_CONSTRAINT
  else
    inr (set_hchunks (update (fun r => hc_offset r = offset)
                        (fun r => mk_hchunk tag (hc_offset r) len crypto true) (hd_chunks d)) d,
         changes (fun r => hc_offset r = offset) (hd_chunks d)).

Definition release (r : hchunk) : hchunk :=
  mk_hchunk (hc_tag r) (hc_offset r) (hc_length r) (hc_crypto r) false.

(** UPDATE chunks SET allocated = 0 WHERE offset == ? *)
Definition sql_release_chunk (offset : Z) : hq Z := fun d =>
  inr (set_hchunks (update (fun r => hc_offset r = offset) release (hd_chunks d)) d,
       changes (fun r => hc_offset r = offset) (hd_chunks d)).

(** The offsets of the slots that have no chunk. *)
Definition unused (d : hoard_db) : list Z := hs_offset <$> filter (fun r => hs_tag r = None) (hd_slots d).

(** UPDATE chunks SET allocated = 0 WHERE offset IN (SELECT offset FROM temp.slots WHERE tag
    ISNULL) *)
Definition sql_release_unused : hq Z := fun d =>
  inr (set_hchunks (update (fun r => hc_offset r ∈ unused d) release (hd_chunks d)) d,
       changes (fun r => hc_offset r ∈ unused d) (hd_chunks d)).

(** DELETE FROM temp.slots *)
Definition sql_clear_slots : hq Z := fun d => inr (set_hslots [] d, [Z.of_nat (length (hd_slots d))]).

Definition new_slot (offset : Z) : hslot := mk_hslot None offset 0 0.

(** INSERT OR IGNORE INTO temp.slots (offset) SELECT offset FROM chunks WHERE allocated == 0 LIMIT
    ? *)
Definition sql_reclaim (needed : nat) : hq Z := fun d =>
  let free := take needed (hc_offset <$> filter (fun r => hc_allocated r = false) (hd_chunks d)) in
  let fresh := filter (fun o => ~ o ∈ hs_offset <$> hd_slots d) free in
  inr (set_hslots (hd_slots d ++ (new_slot <$> fresh)) d, [Z.of_nat (length fresh)]).

(** UPDATE chunks SET allocated = 1 WHERE offset IN (SELECT offset FROM temp.slots) *)
Definition sql_allocate : hq Z := fun d =>
  inr (set_hchunks (update (fun r => hc_offset r ∈ hs_offset <$> hd_slots d)
                      (fun r => mk_hchunk (hc_tag r) (hc_offset r) (hc_length r) (hc_crypto r) true)
                      (hd_chunks d)) d,
       changes (fun r => hc_offset r ∈ hs_offset <$> hd_slots d) (hd_chunks d)).

(** SELECT max(offset) FROM chunks: one row, which is NULL if the table is empty. *)
Definition sql_max_offset : hq (option Z) := fun d =>
  inr (d, [match hd_chunks d with
           | [] => None
           | r :: rs => Some (foldr Z.max (hc_offset r) (hc_offset <$> rs))
           end]).

(** INSERT INTO temp.slots (offset) VALUES (?) *)
Definition sql_add_slot (offset : Z) : hq Z := fun d =>
  if decide (offset ∈ hs_offset <$> hd_slots d) then inl E_CONSTRAINT
  else inr (set_hslots (hd_slots d ++ [new_slot offset]) d, [1]).

(** INSERT OR IGNORE INTO chunks (offset, allocated) SELECT offset, 1 FROM temp.slots *)
Definition sql_add_chunks : hq Z := fun d =>
  let fresh := filter (fun o => ~ o ∈ hc_offset <$> hd_chunks d) (hs_offset <$> hd_slots d) in
  inr (set_hchunks (hd_chunks d ++ ((fun o => mk_hchunk None o 0 0 true) <$> fresh)) d,
       [Z.of_nat (length fresh)]).

(** SELECT offset FROM chunks WHERE offset == ? AND tag == ? *)
Definition sql_chunk_at (offset : Z) (tag : list Z) : hq Z := fun d =>
  inr (d, hc_offset <$> filter (fun r => hc_offset r = offset /\ hc_tag r = Some tag) (hd_chunks d)).

Definition emptied (r : hchunk) : hchunk := mk_hchunk None (hc_offset r) 0 0 false.

(** UPDATE chunks SET tag = NULL, length = 0, crypto = 0, allocated = 0 WHERE offset = ? *)
Definition sql_empty_chunk (offset : Z) : hq Z := fun d =>
  inr (set_hchunks (update (fun r => hc_offset r = offset) emptied (hd_chunks d)) d,
       changes (fun r => hc_offset r = offset) (hd_chunks d)).

(** A chunk that no parcel refers to. *)
Definition unreferenced (d : hoard_db) (r : hchunk) : Prop :=
  match hc_tag r with Some t => ~ t ∈ (hd_refs d).*2 | None => False end.

#[global] Instance unreferenced_dec d r : Decision (unreferenced d r).
Proof. unfold unreferenced. destruct (hc_tag r); apply _. Defined.

(** UPDATE chunks SET tag = NULL, length = 0, crypto = 0, allocated = 0 WHERE tag NOTNULL AND tag
    NOT IN (SELECT tag FROM refs) *)
Definition sql_gc : hq Z := fun d =>
  inr (set_hchunks (update (unreferenced d) emptied (hd_chunks d)) d, changes (unreferenced d) (hd_chunks d)).

(** ** Slots *)

Section slots.

(** "for (i=0; i<needed; i++)" *)
Fixpoint add_slots (n : nat) (start i step : Z) : pk hoard_state pk_err () :=
  match n with
  | O => pk_ret ()
  | S n =>
      '(ok, _) ← hrun (sql_add_slot (s32 (start + i * step)));
      if negb ok then ret PK_IOERR else add_slots n start (i + 1) step
  end.

Definition expand_slot_cache : hoard_state -> option (pk_err * hoard_state) := body (
  step ← gets (fun s => s32 (Z.shiftr (chunksize (h_parcel s)) 9));
  '(ok, rows) ← hrun (sql_reclaim EXPAND_CHUNKS);
  if negb ok then ret PK_IOERR
  else
    let needed := s32 (Z.of_nat EXPAND_CHUNKS - default 0 (head rows)) in
    '(ok, _) ← hrun sql_allocate;
    if negb ok then ret PK_IOERR
    else if decide (needed = 0) then ret PK_SUCCESS
    else
      '(_, rows) ← hrun sql_max_offset;
      has ← gets (fun s => query_has_row (hoard s));
      if negb has then ret PK_IOERR
      else
        let start := match head rows with Some (Some m) => s32 (m + step) | _ => 0 end in
        _ ← add_slots (Z.to_nat needed) start 0 step;
        '(ok, _) ← hrun sql_add_chunks;
        if negb ok then ret PK_IOERR else ret PK_SUCCESS).

(** The loop over the slots with a chunk, [row :: rows] being what the query has still to give; each
    round takes a row. *)
Fixpoint flush_loop (n : nat) (rows : list hslot) : pk hoard_state pk_err () :=
  match n with
  | O => fault
  | S n =>
      has ← gets (fun s => query_has_row (hoard s));
      if has : bool then
        match rows with
        | [] => fault
        | r :: _ =>
            _ ← hrun (sql_fill_chunk (hs_tag r) (s32 (hs_length r)) (s32 (hs_crypto r)) (s32 (hs_offset r)));
            constrained ← gets (fun s => query_constrained (hoard s));
            has ← gets (fun s => query_has_row (hoard s));
            _ ← (if constrained : bool then
                   '(ok, _) ← hrun (sql_release_chunk (s32 (hs_offset r)));
                   if negb ok then ret PK_IOERR else pk_ret ()
                 else if negb has then ret PK_IOERR
                 else pk_ret ());
            '(_, rows) ← hnext rows;
            flush_loop n rows
        end
      else pk_ret ()
  end.

Definition _flush_slot_cache : hoard_state -> option (pk_err * hoard_state) := body (
  '(_, rows) ← hrun sql_used_slots;
  _ ← flush_loop (S (length rows)) rows;
  ok ← gets (fun s => query_ok (hoard s));
  if negb ok then ret PK_IOERR
  else
    '(ok, _) ← hrun sql_release_unused;
    if negb ok then ret PK_IOERR
    else
      '(ok, _) ← hrun sql_clear_slots;
      if negb ok then ret PK_IOERR else ret PK_SUCCESS).

(** The wrapper TRANSACTION_WRAPPER around a function that is called within a transaction. *)
Definition wrapper_body (f : hoard_state -> option (pk_err * hoard_state)) : pk hoard_state () () :=
  ok ← try_db begin;
  if ok : bool then
    err ← call f;
    if decide (err <> PK_SUCCESS) then goto_bad ()
    else
      ok ← try_db commit;
      if ok : bool then ret () else _ ← try_db rollback; ret ()
  else ret ().

Definition transaction_wrapper (f : hoard_state -> option (pk_err * hoard_state)) := transaction (wrapper_body f).

Definition flush_slot_cache := transaction_wrapper _flush_slot_cache.

(** Two rounds are enough: the second finds a slot that the first has added. *)
Fixpoint allocate_loop (n : nat) : pk hoard_state (pk_err * Z) (pk_err * Z) :=
  match n with
  | O => fault
  | S n =>
      '(_, rows) ← hrun sql_free_slot;
      has ← gets (fun s => query_has_row (hoard s));
      ok ← gets (fun s => query_ok (hoard s));
      if has : bool then match rows with [] => fault | offset :: _ => ret (PK_SUCCESS, s32 offset) end
      else if negb ok then ret (PK_IOERR, 0)
      else
        err ← call _flush_slot_cache;
        if decide (err <> PK_SUCCESS) then ret (err, 0)
        else
          err ← call expand_slot_cache;
          if decide (err <> PK_SUCCESS) then ret (err, 0) else allocate_loop n
  end.

Definition allocate_slot : hoard_state -> option ((pk_err * Z) * hoard_state) := body (allocate_loop 2).
End slots.

(** ** Chunks *)

Definition _hoard_invalidate_chunk (offset : Z) (tag : list Z) : hoard_state -> option (pk_err * hoard_state) :=
  body (
    _ ← hrun (sql_chunk_at offset tag);
    ok ← gets (fun s => query_ok (hoard s));
    has ← gets (fun s => query_has_row (hoard s));
    if ok : bool then ret PK_SUCCESS
    else if negb has then ret PK_IOERR
    else
      '(ok, _) ← hrun (sql_empty_chunk offset);
      if negb ok then ret PK_IOERR else ret PK_SUCCESS).

Definition _hoard_invalidate_slot_chunk (offset : Z) : hoard_state -> option (pk_err * hoard_state) := body (
  '(ok, _) ← hrun (sql_empty_slot offset);
  if negb ok then ret PK_IOERR else ret PK_SUCCESS).

Definition hoard_invalidate_chunk (offset : Z) (tag : list Z) :=
  transaction_wrapper (_hoard_invalidate_chunk offset tag).
Definition hoard_invalidate_slot_chunk (offset : Z) :=
  transaction_wrapper (_hoard_invalidate_slot_chunk offset).

(** The limit on the next file operation, as for the local cache. *)
Definition hoard_next_io {R} : pk hoard_state R (option nat) := fun s =>
  match hoard_io s with
  | o :: rest => Some (inl o, set_hoard_io rest s)
  | [] => Some (inl None, s)
  end.

(** The result, and the data that was read; state->parcel is not NULL. *)
Definition _hoard_read_chunk (offset len crypto : Z) (tag : list Z) :
    hoard_state -> option ((pk_err * list Z) * hoard_state) := body (
  p ← gets h_parcel;
  let hashlen := iu_chunk_crypto_hashlen crypto in
  if decide (length tag <> hashlen) then ret (PK_BADFORMAT, [])
  else if decide (offset < 0 \/ len <= 0 \/ u32 len > chunksize p) then ret (PK_BADFORMAT, [])
  else
    o ← hoard_next_io;
    file ← gets hoard_file;
    let buf := range file (Z.to_nat (Z.shiftl offset 9)) (limit (Z.to_nat len) o) in
    if decide (Z.of_nat (length buf) <> len) then ret (PK_IOERR, [])
    else
      match iu_chunk_crypto_digest crypto buf with
      | None => fault
      | Some None => ret (PK_CALLFAIL, [])
      | Some (Some calctag) =>
          if decide (tag <> calctag) then ret (PK_TAGFAIL, []) else ret (PK_SUCCESS, buf)
      end).

(** The database part of hoard_get_chunk: the error to return, or where the chunk is. *)
Definition hoard_find_body (tag : list Z) : pk hoard_state (pk_err + Z * Z * bool) (pk_err + Z * Z * bool) :=
  ok ← try_db begin;
  if ok : bool then
    '(ok, rows) ← hrun (sql_slot_by_tag tag);
    if negb ok then goto_bad (inl PK_IOERR)
    else
      has ← gets (fun s => query_has_row (hoard s));
      found ← (if has : bool then
                 match rows with [] => fault | (offset, clen) :: _ => pk_ret (s32 offset, s32 clen, true) end
               else
                 '(_, rows) ← hrun (sql_chunk_by_tag tag);
                 ok ← gets (fun s => query_ok (hoard s));
                 has ← gets (fun s => query_has_row (hoard s));
                 if ok : bool then
                   ok ← try_db commit;
                   if ok : bool then ret (inl PK_NOTFOUND) else goto_bad (inl PK_IOERR)
                 else if negb has then goto_bad (inl PK_IOERR)
                 else match rows with [] => fault | (offset, clen) :: _ => pk_ret (s32 offset, s32 clen, false) end);
      ok ← try_db commit;
      if ok : bool then ret (inr found) else goto_bad (inl PK_IOERR)
  else ret (inl PK_IOERR).

Definition hoard_find_chunk (tag : list Z) := transaction (hoard_find_body tag).

(** Every round but the last either makes a bad entry disappear from one of the two tables, or meets
    a refusal of SQLite. *)
Fixpoint get_loop (n : nat) (tag : list Z) (s : hoard_state) : option ((pk_err * list Z) * hoard_state) :=
  match n with
  | O => None
  | S n =>
      '(r, s) ← hoard_find_chunk tag s;
      match r with
      | inl err => Some ((err, []), s)
      | inr (offset, clen, slot_cache) =>
          '((err, buf), s) ← _hoard_read_chunk offset clen (crypto (h_parcel s)) tag s;
          if decide (err <> PK_SUCCESS) then
            '(_, s) ← (if slot_cache : bool then hoard_invalidate_slot_chunk offset s
                       else hoard_invalidate_chunk offset tag s);
            get_loop n tag s
          else Some ((PK_SUCCESS, buf), s)
      end
  end.

Definition hoard_get_chunk (tag : list Z) (s : hoard_state) : option ((pk_err * list Z) * hoard_state) :=
  if hoard_dir s then get_loop (3 + length (faults (hoard s))) tag s else Some ((PK_NOTFOUND, []), s).

Definition SLOT_SIZE : Z := 131072.

Definition _hoard_write_chunk (offset : Z) (buf : list Z) : hoard_state -> option (pk_err * hoard_state) := body (
  if decide (Z.of_nat (length buf) > SLOT_SIZE) then ret PK_INVALID
  else
    let data := buf ++ replicate (Z.to_nat SLOT_SIZE - length buf) 0 in
    o ← hoard_next_io;
    let data := take (limit (length data) o) data in
    _ ← modify (fun s => set_hoard_file (file_write (hoard_file s) (Z.to_nat (Z.shiftl offset 9)) data) s);
    if decide (Z.of_nat (length data) <> SLOT_SIZE) then ret PK_IOERR else ret PK_SUCCESS).

(** Of the two lookups only whether there is a row matters. *)
Definition hoard_put_body (tag buf : list Z) : pk hoard_state pk_err pk_err :=
  ok ← try_db begin;
  if ok : bool then
    _ ← hrun (sql_slot_by_tag tag);
    has ← gets (fun s => query_has_row (hoard s));
    ok ← gets (fun s => query_ok (hoard s));
    if has : bool then
      ok ← try_db commit;
      if ok : bool then ret PK_SUCCESS else goto_bad PK_IOERR
    else if negb ok then goto_bad PK_SQLERR
    else
      _ ← hrun (sql_chunk_by_tag tag);
      has ← gets (fun s => query_has_row (hoard s));
      ok ← gets (fun s => query_ok (hoard s));
      if has : bool then
        ok ← try_db commit;
        if ok : bool then ret PK_SUCCESS else goto_bad PK_IOERR
      else if negb ok then goto_bad PK_SQLERR
      else
        '(err, offset) ← call allocate_slot;
        if decide (err <> PK_SUCCESS) then goto_bad err
        else
          cry ← gets (fun s => crypto (h_parcel s));
          '(ok, _) ← hrun (sql_fill_slot tag (s32 (Z.of_nat (length buf))) (s32 cry) offset);
          if negb ok then goto_bad PK_IOERR
          else
            err ← call (_hoard_write_chunk offset buf);
            if decide (err <> PK_SUCCESS) then goto_bad PK_IOERR
            else
              ok ← try_db commit;
              if ok : bool then ret PK_SUCCESS else goto_bad PK_IOERR
  else ret PK_IOERR.

Definition hoard_put_chunk (tag buf : list Z) (s : hoard_state) : option (pk_err * hoard_state) :=
  if hoard_dir s then transaction (hoard_put_body tag buf) s else Some (PK_SUCCESS, s).

Definition _hoard_gc : hoard_state -> option (pk_err * hoard_state) := body (
  '(ok, _) ← hrun sql_gc;
  if negb ok then ret PK_IOERR else ret PK_SUCCESS).

Definition hoard_gc_body : pk hoard_state pk_err pk_err :=
  ok ← try_db begin;
  if ok : bool then
    err ← call _hoard_gc;
    if decide (err <> PK_SUCCESS) then goto_bad PK_IOERR
    else
      ok ← try_db commit;
      if ok : bool then ret PK_SUCCESS else goto_bad PK_IOERR
  else ret PK_IOERR.

Definition hoard_gc : hoard_state -> option (pk_err * hoard_state) := transaction hoard_gc_body.
