(* ===== verification/HoardProofs.v ===== *)
(** HoardProofs: the hoard cache of Hoard.v gives back what it was given.

    [hoard_wf] is the invariant of the index, [sound] says that the file has what the index
    promises; both survive any failure, and what is put can be got. *)

From S2P Require Import Prelude Cipher HashStream Sha1 Hash Compress LzfStream Chunk Effects Sql Pk Hoard.

Lemma filter_all {A} (P : A -> Prop) `{!forall x, Decision (P x)} l : Forall P l -> filter P l = l.
Proof. induction 1 as [|x l Hx _ IH]; [done|]. by rewrite filter_cons, decide_True, IH. Qed.

Lemma filter_none {A} (P : A -> Prop) `{!forall x, Decision (P x)} l : Forall (fun x => ~ P x) l -> filter P l = [].
Proof. induction 1 as [|x l Hx _ IH]; [done|]. by rewrite filter_cons, decide_False. Qed.

(** * The index *)

(** Offsets are in sectors; a slot has 256 of them. *)
Definition aligned (o : Z) : Prop := o mod 256 = 0 /\ 0 <= o < 2 ^ 31.

Record hoard_wf (d : hoard_db) : Prop := mk_hoard_wf {
  wf_chunk_offsets : NoDup (hc_offset <$> hd_chunks d);
  wf_chunk_tags r1 r2 t : r1 ∈ hd_chunks d -> r2 ∈ hd_chunks d ->
    hc_tag r1 = Some t -> hc_tag r2 = Some t -> r1 = r2;
  wf_slot_offsets : NoDup (hs_offset <$> hd_slots d);
  wf_slot_tags r1 r2 t : r1 ∈ hd_slots d -> r2 ∈ hd_slots d ->
    hs_tag r1 = Some t -> hs_tag r2 = Some t -> r1 = r2;
  wf_reserved sl : sl ∈ hd_slots d -> exists r, r ∈ hd_chunks d /\ hc_offset r = hs_offset sl /\
    hc_allocated r = true /\ hc_tag r = None;
  wf_free r : r ∈ hd_chunks d -> hc_allocated r = false -> hc_tag r = None;
  wf_aligned r : r ∈ hd_chunks d -> aligned (hc_offset r);
  wf_ints sl : sl ∈ hd_slots d -> s32 (hs_length sl) = hs_length sl /\ s32 (hs_crypto sl) = hs_crypto sl
}.

(** The index says that the chunk with tag [t] is at [o]. *)
Definition slot_entry (d : hoard_db) (t : list Z) (o len : Z) : Prop :=
  exists r, r ∈ hd_slots d /\ hs_tag r = Some t /\ hs_offset r = o /\ hs_length r = len.
Definition chunk_entry (d : hoard_db) (t : list Z) (o len : Z) : Prop :=
  exists r, r ∈ hd_chunks d /\ hc_tag r = Some t /\ hc_offset r = o /\ hc_length r = len.
Definition entry (d : hoard_db) (t : list Z) (o len : Z) : Prop :=
  slot_entry d t o len \/ chunk_entry d t o len.

Definition indexed (d : hoard_db) (t : list Z) : Prop := exists o len, entry d t o len.

(** An entry that counts: a slot whose tag is also in the table of chunks (another process has stored
    the same chunk) is to be dropped by the next flush. *)
Definition firm (d : hoard_db) (t : list Z) (o len : Z) : Prop :=
  chunk_entry d t o len \/ slot_entry d t o len /\ ~ exists o' len', chunk_entry d t o' len'.

Lemma chunk_entry_dec d t : {exists o l, chunk_entry d t o l} + {~ exists o l, chunk_entry d t o l}.
Proof.
  destruct (decide (Exists (fun r => hc_tag r = Some t) (hd_chunks d))) as [He|Hn]; [left|right].
  - apply Exists_exists in He as (r & Hr & Ht). exists (hc_offset r), (hc_length r). by exists r.
  - intros (o & l & r & Hr & Ht & _). apply Hn, Exists_exists. eauto.
Defined.

Lemma indexed_firm d t : indexed d t <-> exists o l, firm d t o l.
Proof.
  split.
  - intros (o & l & He). destruct (chunk_entry_dec d t) as [(o' & l' & Hc)|Hn]; [exists o', l'; by left|].
    exists o, l. destruct He as [?|?]; [by right|by left].
  - intros (o & l & [?|[? _]]); exists o, l; [by right|by left].
Qed.

Lemma firm_entry d t o l : firm d t o l -> entry d t o l.
Proof. intros [?|[? _]]; [by right|by left]. Qed.

(** ** Slots of other processes *)

(** A row that is reserved, but not by the slot cache of this process. *)
Definition foreign (d : hoard_db) (r : hchunk) : Prop :=
  r ∈ hd_chunks d /\ hc_allocated r = true /\ hc_tag r = None /\ ~ hc_offset r ∈ hs_offset <$> hd_slots d.

(** Such rows, the references and the parcels are left alone. *)
Definition spared (d d' : hoard_db) : Prop :=
  (forall r, foreign d r -> foreign d' r) /\ hd_refs d' = hd_refs d /\ hd_parcels d' = hd_parcels d.

#[global] Instance spared_preorder : PreOrder spared.
Proof. split; [by split|]. intros d1 d2 d3 (H1 & R1 & P1) (H2 & R2 & P2). split_and!; [by eauto|by rewrite R2|by rewrite P2]. Qed.

Lemma elem_of_update {A} (P : A -> Prop) `{!forall r, Decision (P r)} (f : A -> A) t r :
  r ∈ update P f t <-> exists r0, r0 ∈ t /\ (P r0 /\ r = f r0 \/ ~ P r0 /\ r = r0).
Proof.
  unfold update. rewrite list_elem_of_fmap. split.
  - intros (r0 & -> & Hr0). exists r0. split; [done|]. case_decide; auto.
  - intros (r0 & Hr0 & [[? ->]|[? ->]]); exists r0; by case_decide.
Qed.

Lemma update_fmap {A B} (g : A -> B) (P : A -> Prop) `{!forall r, Decision (P r)} (f : A -> A) t :
  (forall r, g (f r) = g r) -> g <$> update P f t = g <$> t.
Proof.
  intros Hg. unfold update. rewrite <- list_fmap_compose. apply list_fmap_ext.
  intros i r _. simpl. by case_decide.
Qed.

Lemma offset_inj {A} (g : A -> Z) (l : list A) r1 r2 :
  NoDup (g <$> l) -> r1 ∈ l -> r2 ∈ l -> g r1 = g r2 -> r1 = r2.
Proof.
  intros Hnd Hr1 Hr2 Hg. apply list_elem_of_lookup in Hr1 as [i Hi].
  apply list_elem_of_lookup in Hr2 as [j Hj].
  assert (i = j) as ->; [|congruence].
  eapply (NoDup_lookup _ i j (g r1) Hnd); rewrite list_lookup_fmap; [by rewrite Hi|].
  rewrite Hj. simpl. by rewrite Hg.
Qed.

Section wf.
Context (d : hoard_db) (Hwf : hoard_wf d).

(** No chunk is at the place of a slot without one. *)
Lemma free_slot_unindexed sl t o len :
  sl ∈ hd_slots d -> hs_tag sl = None -> entry d t o len -> o <> hs_offset sl.
Proof.
  intros Hsl Hn He ->. destruct He as [(r & Hr & Ht & Ho & _)|(r & Hr & Ht & Ho & _)].
  - pose proof (offset_inj hs_offset _ _ _ (wf_slot_offsets d Hwf) Hr Hsl Ho) as ->. congruence.
  - destruct (wf_reserved d Hwf sl Hsl) as (r' & Hr' & Ho' & _ & Ht').
    pose proof (offset_inj hc_offset _ _ _ (wf_chunk_offsets d Hwf) Hr Hr' ltac:(congruence)) as ->. congruence.
Qed.

Lemma slot_aligned sl : sl ∈ hd_slots d -> aligned (hs_offset sl).
Proof.
  intros Hsl. destruct (wf_reserved d Hwf sl Hsl) as (r & Hr & Ho & _). rewrite <- Ho.
  by apply (wf_aligned d Hwf).
Qed.

Lemma slot_chunk_apart sl t o l : sl ∈ hd_slots d -> chunk_entry d t o l -> o <> hs_offset sl.
Proof.
  intros Hsl (r & Hr & Ht & <- & _) Ho. destruct (wf_reserved d Hwf sl Hsl) as (r' & Hr' & Ho' & _ & Ht').
  pose proof (offset_inj hc_offset _ _ _ (wf_chunk_offsets d Hwf) Hr Hr' ltac:(congruence)) as ->. congruence.
Qed.

Lemma firm_unique t o l o' l' : firm d t o l -> firm d t o' l' -> o = o' /\ l = l'.
Proof.
  intros [Hc|[Hs Hn]] [Hc'|[Hs' Hn']].
  - destruct Hc as (r & Hr & Ht & <- & <-), Hc' as (r' & Hr' & Ht' & <- & <-).
    by rewrite (wf_chunk_tags d Hwf r r' t).
  - destruct Hn'. eauto.
  - destruct Hn. eauto.
  - destruct Hs as (r & Hr & Ht & <- & <-), Hs' as (r' & Hr' & Ht' & <- & <-).
    by rewrite (wf_slot_tags d Hwf r r' t).
Qed.

Lemma entry_aligned t o len : entry d t o len -> aligned o.
Proof.
  intros [(r & Hr & _ & <- & _)|(r & Hr & _ & <- & _)]; [by apply slot_aligned|by apply (wf_aligned d Hwf)].
Qed.

(** ** Filling and emptying *)

Lemma fill_slot_ok tag len cry sl :
  sl ∈ hd_slots d -> hs_tag sl = None -> ~ indexed d tag -> s32 len = len -> s32 cry = cry ->
  exists d' n, sql_fill_slot tag len cry (hs_offset sl) d = inr (d', n) /\ n <> [] /\ hoard_wf d' /\
    (forall t o l, firm d' t o l <-> firm d t o l \/ t = tag /\ o = hs_offset sl /\ l = len).
Proof.
  intros Hsl Hn Hni Hlen Hcry. unfold sql_fill_slot. rewrite decide_False.
  2:{ intros (r & Hr & Ht & _)%Exists_exists. apply Hni. exists (hs_offset r), (hs_length r). left. by exists r. }
  set (d' := set_hslots _ d). eexists d', _. split; [done|]. split; [done|].
  assert (forall r, r ∈ hd_slots d' <-> r ∈ hd_slots d /\ hs_offset r <> hs_offset sl \/
    r = mk_hslot (Some tag) (hs_offset sl) len cry) as Hel.
  { intros r. subst d'. simpl. rewrite elem_of_update. split.
    - intros (r0 & Hr0 & [[Ho ->]|[Ho ->]]); [right; by rewrite Ho|by left].
    - intros [[Hr Ho]| ->]; [exists r; auto|]. exists sl. auto. }
  assert (hd_chunks d' = hd_chunks d) as Hch by done.
  destruct Hwf as [Hco Hct Hso Hst Hres Hfree Hal Hint]. split.
  - split; rewrite ?Hch; try done.
    + subst d'. simpl. by rewrite update_fmap.
    + intros r1 r2 t Hr1 Hr2 Ht1 Ht2. apply Hel in Hr1 as [[Hr1 _]| ->]; apply Hel in Hr2 as [[Hr2 _]| ->];
        simpl in *; simplify_eq; [by eapply Hst| | |done];
        (exfalso; apply Hni; eexists _, _; left; eexists; by split_and!).
    + intros r [[Hr _]| ->]%Hel; [by apply Hres|]. simpl. by apply Hres.
    + intros r [[Hr _]| ->]%Hel; [by apply Hint|done].
  - assert (forall t o l, slot_entry d' t o l <-> slot_entry d t o l \/ t = tag /\ o = hs_offset sl /\ l = len) as Hse.
    { intros t o l. unfold slot_entry. setoid_rewrite Hel. split.
      - intros (r & [[Hr _]| ->] & Ht & Ho & Hl); [left; eauto|simpl in *; simplify_eq; by right].
      - intros [(r & Hr & Ht & Ho & Hl)|(-> & -> & ->)]; [|eexists; split; [by right|done]].
        exists r. split_and!; try done. left. split; [done|]. intros Hx.
        pose proof (offset_inj hs_offset _ _ _ Hso Hr Hsl Hx) as ->. congruence. }
    assert (forall t o l, chunk_entry d' t o l <-> chunk_entry d t o l) as Hce by done.
    intros t o l. unfold firm. setoid_rewrite Hce. rewrite Hse. split; [tauto|].
    intros [|(-> & -> & ->)]; [tauto|]. right. split; [auto|]. intros (o' & l' & Hc). apply Hni. exists o', l'. by right.
Qed.

Lemma empty_slot_ok o :
  exists d' n, sql_empty_slot o d = inr (d', n) /\ n <> [] /\ hoard_wf d' /\
    (forall t o' l, slot_entry d' t o' l <-> slot_entry d t o' l /\ o' <> o) /\ hd_chunks d' = hd_chunks d /\
    spared d d'.
Proof.
  unfold sql_empty_slot. set (d' := set_hslots _ d). eexists d', _. split; [done|]. split; [done|].
  assert (forall r, r ∈ hd_slots d' <-> exists r0, r0 ∈ hd_slots d /\
    (hs_offset r0 = o /\ r = mk_hslot None (hs_offset r0) 0 0 \/ hs_offset r0 <> o /\ r = r0)) as Hel.
  { intros r. subst d'. simpl. apply elem_of_update. }
  destruct Hwf as [Hco Hct Hso Hst Hres Hfree Hal Hint]. split_and!; try done.
  - split; try done.
    + subst d'. simpl. by rewrite update_fmap.
    + intros r1 r2 t (q1 & Hq1 & [[_ ->]|[_ ->]])%Hel (q2 & Hq2 & [[_ ->]|[_ ->]])%Hel Ht1 Ht2; try done.
      by eapply Hst.
    + intros r (q & Hq & [[_ ->]|[_ ->]])%Hel; exact (Hres q Hq).
    + intros r (q & Hq & [[_ ->]|[_ ->]])%Hel; [done|]. by apply Hint.
  - intros t o' l. split.
    + intros (r & (q & Hq & [[_ ->]|[Hne ->]])%Hel & Ht & <- & Hl); [done|]. split; [|done]. by exists q.
    + intros [(r & Hr & Ht & <- & Hl) Hne]. exists r. split_and!; try done. apply Hel. exists r. auto.
  - split; [|done]. intros r (Hr & Ha & Ht & Hno). split_and!; try done. subst d'. simpl. by rewrite update_fmap.
Qed.

(** Chunks are taken out of the index. *)
Lemma emptied_ok (P : hchunk -> Prop) `{!forall r, Decision (P r)} :
  (forall r, r ∈ hd_chunks d -> P r -> is_Some (hc_tag r)) ->
  let d' := set_hchunks (update P emptied (hd_chunks d)) d in
  hoard_wf d' /\ spared d d' /\
  forall t o l, chunk_entry d' t o l <->
    exists r, r ∈ hd_chunks d /\ ~ P r /\ hc_tag r = Some t /\ hc_offset r = o /\ hc_length r = l.
Proof.
  intros HP d'. assert (forall r, r ∈ hd_chunks d' <-> exists r0, r0 ∈ hd_chunks d /\
    (P r0 /\ r = emptied r0 \/ ~ P r0 /\ r = r0)) as Hel by (intros r; apply elem_of_update).
  destruct Hwf as [Hco Hct Hso Hst Hres Hfree Hal Hint]. split_and!.
  - split; try done.
    + subst d'. simpl. by rewrite update_fmap.
    + intros r1 r2 t (q1 & Hq1 & [[_ ->]|[_ ->]])%Hel (q2 & Hq2 & [[_ ->]|[_ ->]])%Hel Ht1 Ht2; try done.
      by eapply Hct.
    + intros sl Hsl. destruct (Hres sl Hsl) as (r & Hr & Ho & Ha & Ht). exists r. split_and!; try done.
      apply Hel. exists r. split; [done|]. right. split; [|done]. intros HPr.
      destruct (HP r Hr HPr). congruence.
    + intros r (q & Hq & [[_ ->]|[_ ->]])%Hel; [done|]. by apply Hfree.
    + intros r (q & Hq & [[_ ->]|[_ ->]])%Hel; exact (Hal q Hq).
  - split; [|done]. intros r (Hr & Ha & Ht & Hno). split_and!; try done. apply Hel. exists r. split; [done|].
    right. split; [|done]. intros HPr. destruct (HP r Hr HPr). congruence.
  - intros t o l. split.
    + intros (r & (q & Hq & [[_ ->]|[Hn ->]])%Hel & Ht & Ho & Hl); [done|]. by exists q.
    + intros (r & Hr & Hn & Ht & Ho & Hl). exists r. split_and!; try done. apply Hel. exists r. auto.
Qed.
End wf.

(** * The file *)

Definition place (o : Z) : nat := Z.to_nat (Z.shiftl o 9).
Definition content (f : list Z) (o len : Z) : list Z := range f (place o) (Z.to_nat len).

(** What the index promises is in the file. *)
Definition sound (d : hoard_db) (f : list Z) : Prop :=
  forall t o len, firm d t o len -> 0 < len <= SLOT_SIZE /\
    Z.of_nat (length (content f o len)) = len /\ Fips180.sha1 (content f o len) = t.

Lemma places_apart o o' : aligned o -> aligned o' -> o <> o' ->
  (place o + Z.to_nat SLOT_SIZE <= place o' \/ place o' + Z.to_nat SLOT_SIZE <= place o)%nat.
Proof.
  intros [Ho Hr] [Ho' Hr'] Hne. unfold place, SLOT_SIZE. rewrite !Z.shiftl_mul_pow2 by lia.
  change (2 ^ 9) with 512. apply Z.mod_divide in Ho as [k ->]; [|lia]. apply Z.mod_divide in Ho' as [k' ->]; [|lia].
  assert (k <> k') by congruence. lia.
Qed.

(** Writing a slot leaves the contents of other places. *)
Lemma content_write f o data o' len :
  aligned o -> aligned o' -> o <> o' -> (length data <= Z.to_nat SLOT_SIZE)%nat -> 0 < len <= SLOT_SIZE ->
  Z.of_nat (length (content f o' len)) = len -> content (file_write f (place o) data) o' len = content f o' len.
Proof.
  intros Ho Ho' Hne Hd Hl Hfull. unfold content in *. pose proof (places_apart o o' Ho Ho' Hne) as Hap.
  unfold SLOT_SIZE in *. rewrite length_range in Hfull. apply range_file_write_other; lia.
Qed.

(** * Flushing the slot cache *)

(** Nothing is lost from the index, nothing is made up, and other processes are left alone. *)
Record same_index (d d' : hoard_db) : Prop := mk_same_index {
  si_firm t o l : firm d' t o l <-> firm d t o l;
  si_spared : spared d d'
}.

#[global] Instance same_index_preorder : PreOrder same_index.
Proof.
  split; [by split|]. intros d1 d2 d3 [H1 S1] [H2 S2]. split; [|by etrans]. intros t o l. by rewrite H2.
Qed.

(** The slots [todo] have still to be flushed. *)
Record flushing (dS : hoard_db) (todo : list hslot) (d : hoard_db) : Prop := mk_flushing {
  fl_slots : hd_slots d = hd_slots dS;
  fl_offsets : hc_offset <$> hd_chunks d = hc_offset <$> hd_chunks dS;
  fl_tags r1 r2 t : r1 ∈ hd_chunks d -> r2 ∈ hd_chunks d ->
    hc_tag r1 = Some t -> hc_tag r2 = Some t -> r1 = r2;
  fl_free r : r ∈ hd_chunks d -> hc_allocated r = false -> hc_tag r = None;
  fl_reserved sl : sl ∈ hd_slots dS -> hs_tag sl = None \/ sl ∈ todo ->
    exists r, r ∈ hd_chunks d /\ hc_offset r = hs_offset sl /\ hc_allocated r = true /\ hc_tag r = None;
  fl_cover t o l : firm dS t o l -> chunk_entry d t o l \/
    exists sl, sl ∈ todo /\ hs_tag sl = Some t /\ hs_offset sl = o /\ hs_length sl = l;
  fl_keep t o l : chunk_entry dS t o l -> chunk_entry d t o l;
  fl_source t o l : chunk_entry d t o l -> firm dS t o l;
  fl_todo : todo `sublist_of` hd_slots dS;
  fl_foreign r : foreign dS r -> r ∈ hd_chunks d;
  fl_rest : hd_refs d = hd_refs dS /\ hd_parcels d = hd_parcels dS
}.

Section flush.
Context (dS : hoard_db) (Hwf : hoard_wf dS).

Lemma flush_start : flushing dS (filter (fun r => is_Some (hs_tag r)) (hd_slots dS)) dS.
Proof.
  destruct Hwf as [Hco Hct Hso Hst Hres Hfree Hal Hint]. split; try done.
  - intros sl Hsl _. by apply Hres.
  - intros t o l [?|[(r & Hr & Ht & ? & ?) _]]; [by left|]. right. exists r. split; [|done].
    apply list_elem_of_filter. split; [by rewrite Ht|done].
  - by left.
  - apply sublist_filter.
  - by intros r [? _].
Qed.

Lemma flush_next_offset sl todo sl' :
  sl :: todo `sublist_of` hd_slots dS -> sl' ∈ hd_slots dS -> hs_tag sl' = None \/ sl' ∈ todo ->
  is_Some (hs_tag sl) -> hs_offset sl' <> hs_offset sl.
Proof.
  intros Hsub Hsl' Hor [t Ht] Ho. pose proof (wf_slot_offsets dS Hwf) as Hso.
  assert (sl ∈ hd_slots dS) as Hsl by (eapply elem_of_sublist; [by left|done]).
  pose proof (offset_inj hs_offset _ _ _ Hso Hsl' Hsl Ho) as ->.
  destruct Hor as [Hn|Hin]; [congruence|].
  apply (fmap_sublist hs_offset) in Hsub. apply (sublist_NoDup _ _ Hso) in Hsub. rename Hsub into Hso'. simpl in Hso'.
  apply NoDup_cons in Hso' as [Hni _]. apply Hni. apply list_elem_of_fmap. eauto.
Qed.

(** The row of the next slot, which is reserved for it alone. *)
Lemma flush_row sl todo d :
  flushing dS (sl :: todo) d -> is_Some (hs_tag sl) ->
  exists r, r ∈ hd_chunks d /\ hc_offset r = hs_offset sl /\ hc_tag r = None /\
    (forall q, q ∈ hd_chunks d -> hc_offset q = hs_offset sl -> q = r) /\
    (forall sl', sl' ∈ hd_slots dS -> hs_tag sl' = None \/ sl' ∈ todo ->
       exists x, x ∈ hd_chunks d /\ hc_offset x <> hs_offset sl /\ hc_offset x = hs_offset sl' /\
         hc_allocated x = true /\ hc_tag x = None) /\
    todo `sublist_of` hd_slots dS /\ sl ∈ hd_slots dS.
Proof.
  intros [Hs Ho Htag Hfree Hres Hcov Hkp Hsrc Htodo _ _] Ht.
  assert (sl ∈ hd_slots dS) as Hsl by (eapply elem_of_sublist; [by left|done]).
  destruct (Hres sl Hsl ltac:(right; by left)) as (r & Hr & Hro & _ & Hrt).
  assert (NoDup (hc_offset <$> hd_chunks d)) as Hnd by (rewrite Ho; apply Hwf).
  exists r. split_and!; try done.
  - intros q Hq Hqo. eapply (offset_inj hc_offset); [done..|]. by rewrite Hro.
  - intros sl' Hsl' Hor. destruct (Hres sl' Hsl') as (x & Hx & Hxo & Hxa & Hxt).
    { destruct Hor; [by left|right; by right]. }
    exists x. split_and!; try done. rewrite Hxo. by eapply flush_next_offset.
  - etrans; [|exact Htodo]. by apply sublist_cons.
Qed.

(** Rows other than that of the slot stay. *)
Lemma flush_foreign sl d d' f :
  sl ∈ hd_slots dS -> (forall r, foreign dS r -> r ∈ hd_chunks d) ->
  hd_chunks d' = update (fun r => hc_offset r = hs_offset sl) f (hd_chunks d) ->
  forall r, foreign dS r -> r ∈ hd_chunks d'.
Proof.
  intros Hsl Hd -> r Hr. apply elem_of_update. exists r. split; [by apply Hd|]. right. split; [|done].
  intros Ho. apply Hr. rewrite Ho. apply list_elem_of_fmap. eauto.
Qed.

(** The tag is already there: the slot is given up. *)
Lemma flush_released sl todo d t q :
  flushing dS (sl :: todo) d -> hs_tag sl = Some t ->
  q ∈ hd_chunks d -> hc_tag q = Some t -> hc_offset q <> hs_offset sl ->
  flushing dS todo (set_hchunks (update (fun r => hc_offset r = hs_offset sl) release (hd_chunks d)) d).
Proof.
  intros Hfl Ht Hq Hqt Hqo. destruct (flush_row _ _ _ Hfl ltac:(by rewrite Ht)) as (r & Hr & Hro & Hrt & Huniq & Hoth & Hsub & Hslin).
  destruct Hfl as [Hs Ho Htag Hfree _ Hcov Hkp Hsrc _ Hfor Hrefs]. set (d' := set_hchunks _ d).
  assert (forall x, x ∈ hd_chunks d' <-> exists x0, x0 ∈ hd_chunks d /\
    (hc_offset x0 = hs_offset sl /\ x = release x0 \/ hc_offset x0 <> hs_offset sl /\ x = x0)) as Hel
    by (intros x; apply elem_of_update).
  assert (forall t' o l, chunk_entry d t' o l -> chunk_entry d' t' o l) as Hkeep.
  { intros t' o l (x & Hx & Hxt & Hxo & Hxl). exists x. split_and!; try done. apply Hel. exists x.
    split; [done|]. right. split; [|done]. intros Hx'. apply Huniq in Hx'; [|done]. congruence. }
  split; try done.
  - subst d'. simpl. by rewrite update_fmap.
  - intros r1 r2 t' (q1 & Hq1 & [[H1 ->]|[H1 ->]])%Hel (q2 & Hq2 & [[H2 ->]|[H2 ->]])%Hel Ht1 Ht2; simpl in *;
      try (apply Huniq in H1; [|done]); try (apply Huniq in H2; [|done]); subst; try congruence. by eapply Htag.
  - intros x (q1 & Hq1 & [[H1 ->]|[H1 ->]])%Hel; [|by apply Hfree]. intros _. simpl.
    apply Huniq in H1; [|done]. by subst.
  - intros sl' Hsl' Hor. destruct (Hoth sl' Hsl' Hor) as (x & Hx & Hne & Hrest).
    exists x. split; [|done]. apply Hel. eauto.
  - intros t' o l Hfi. pose proof Hfi as [Hce|(sl' & [->|Hin]%elem_of_cons & Hst & Hso & Hsl)]%Hcov;
      [left; auto| |right; eauto]. assert (t' = t) as -> by congruence.
    destruct (firm_unique dS Hwf t (hc_offset q) (hc_length q) o l) as [? _]; [|done|congruence].
    apply Hsrc. by exists q.
  - intros t' o l Hc. by apply Hkeep, Hkp.
  - intros t' o l (x & (q1 & Hq1 & [[H1 ->]|[H1 ->]])%Hel & Hxt & Hxo & Hxl); simpl in *.
    + apply Huniq in H1; [|done]. subst. congruence.
    + apply Hsrc. by exists q1.
  - by eapply flush_foreign.
Qed.

Lemma flush_filled sl todo d t :
  flushing dS (sl :: todo) d -> hs_tag sl = Some t ->
  (forall q, q ∈ hd_chunks d -> hc_tag q = Some t -> hc_offset q = hs_offset sl) ->
  flushing dS todo (set_hchunks (update (fun r => hc_offset r = hs_offset sl)
    (fun r => mk_hchunk (hs_tag sl) (hc_offset r) (hs_length sl) (hs_crypto sl) true) (hd_chunks d)) d).
Proof.
  intros Hfl Ht Hnoc. destruct (flush_row _ _ _ Hfl ltac:(by rewrite Ht)) as (r & Hr & Hro & Hrt & Huniq & Hoth & Hsub & Hsl).
  destruct Hfl as [Hs Ho Htag Hfree _ Hcov Hkp Hsrc _ Hfor Hrefs]. set (d' := set_hchunks _ d).
  assert (forall x, x ∈ hd_chunks d' <-> exists x0, x0 ∈ hd_chunks d /\
    (hc_offset x0 = hs_offset sl /\ x = mk_hchunk (hs_tag sl) (hc_offset x0) (hs_length sl) (hs_crypto sl) true \/
     hc_offset x0 <> hs_offset sl /\ x = x0)) as Hel by (intros x; apply elem_of_update).
  assert (forall t' o l, chunk_entry d t' o l -> chunk_entry d' t' o l) as Hkeep.
  { intros t' o l (x & Hx & Hxt & Hxo & Hxl). exists x. split_and!; try done. apply Hel. exists x.
    split; [done|]. right. split; [|done]. intros Hx'. apply Huniq in Hx'; [|done]. congruence. }
  split; try done.
  - subst d'. simpl. by rewrite update_fmap.
  - intros r1 r2 t' (q1 & Hq1 & [[H1 ->]|[H1 ->]])%Hel (q2 & Hq2 & [[H2 ->]|[H2 ->]])%Hel Ht1 Ht2; simpl in *;
      simplify_eq; [by rewrite H1, H2| | |by eapply Htag].
    + apply Hnoc in Ht2; [done|congruence].
    + apply Hnoc in Ht1; [done|congruence].
  - intros x (q1 & Hq1 & [[H1 ->]|[H1 ->]])%Hel; [done|]. by apply Hfree.
  - intros sl' Hsl' Hor. destruct (Hoth sl' Hsl' Hor) as (x & Hx & Hne & Hrest).
    exists x. split; [|done]. apply Hel. eauto.
  - intros t' o l [Hc|(sl' & [->|Hin]%elem_of_cons & Hst & Hso & Hlen)]%Hcov; [left; auto| |right; eauto].
    left. eexists. split; [apply Hel; exists r; split; [done|]; left; by split|]. split_and!; try done. simpl. congruence.
  - intros t' o l Hc. by apply Hkeep, Hkp.
  - intros t' o l (x & (q1 & Hq1 & [[H1 ->]|[H1 ->]])%Hel & Hxt & Hxo & Hxl); simpl in *; [|apply Hsrc; by exists q1].
    right. split; [exists sl; split_and!; try done; congruence|]. intros (o' & l' & (x & Hx & Hxt' & _)%Hkp).
    assert (t' = t) as -> by congruence. pose proof (Hnoc x Hx Hxt') as Hxo'. apply Huniq in Hxo'; [|done]. congruence.
  - by eapply flush_foreign.
Qed.

Lemma flush_step sl todo d :
  flushing dS (sl :: todo) d -> is_Some (hs_tag sl) ->
  match sql_fill_chunk (hs_tag sl) (hs_length sl) (hs_crypto sl) (hs_offset sl) d with
  | inr (d', n) => n <> [] /\ flushing dS todo d'
  | inl e => e = E_CONSTRAINT /\ exists d' n, sql_release_chunk (hs_offset sl) d = inr (d', n) /\ n <> [] /\
               flushing dS todo d'
  end.
Proof.
  intros Hfl [t Ht]. unfold sql_fill_chunk. case_decide as Hc.
  - split; [done|]. apply Exists_exists in Hc as (q & Hq & _ & Hqt & Hqo). eexists _, _. split; [done|].
    split; [done|]. eapply flush_released; [done..|congruence|done].
  - split; [done|]. eapply flush_filled; [done..|]. intros q Hq Hqt.
    destruct (decide (hc_offset q = hs_offset sl)) as [|Hne]; [done|].
    destruct Hc. apply Exists_exists. exists q. rewrite Ht. by split_and!.
Qed.

(** The slots that were not used are released, and the slot cache is emptied. *)
Lemma flush_finish d :
  flushing dS [] d -> exists d1 n1 d2 n2, sql_release_unused d = inr (d1, n1) /\ n1 <> [] /\
    sql_clear_slots d1 = inr (d2, n2) /\ n2 <> [] /\ hoard_wf d2 /\ hd_slots d2 = [] /\ same_index dS d2 /\
    hc_offset <$> hd_chunks d2 = hc_offset <$> hd_chunks dS.
Proof.
  intros Hfl. unfold sql_release_unused. eexists _, _, _, _. split; [done|]. split; [done|]. split; [done|].
  split; [done|]. set (d2 := set_hslots [] _).
  pose proof Hfl as [Hs Ho Htag Hfree Hres Hcov Hkp Hsrc _ Hfor Hrefs].
  assert (forall x, x ∈ hd_chunks d2 <-> exists x0, x0 ∈ hd_chunks d /\
    (hc_offset x0 ∈ unused d /\ x = release x0 \/ ~ hc_offset x0 ∈ unused d /\ x = x0)) as Hel
    by (intros x; apply elem_of_update).
  assert (hc_offset <$> hd_chunks d2 = hc_offset <$> hd_chunks dS) as Ho2.
  { subst d2. simpl. by rewrite update_fmap. }
  assert (forall x, x ∈ hd_chunks d -> hc_offset x ∈ unused d -> hc_tag x = None) as Hun.
  { intros x Hx (sl & Hxo & [Hn Hsl]%list_elem_of_filter)%list_elem_of_fmap. rewrite Hs in Hsl.
    destruct (Hres sl Hsl (or_introl Hn)) as (x' & Hx' & Hxo' & _ & Hxt').
    assert (NoDup (hc_offset <$> hd_chunks d)) as Hnd by (rewrite Ho; apply Hwf).
    pose proof (offset_inj hc_offset _ _ _ Hnd Hx Hx' ltac:(congruence)) as ->. done. }
  assert (forall t o l, chunk_entry d2 t o l <-> chunk_entry d t o l) as Hce.
  { intros t o l. split.
    - intros (x & (q & Hq & [[Hu ->]|[_ ->]])%Hel & Ht & Hxo & Hl); by exists q.
    - intros (x & Hx & Ht & Hxo & Hl). exists x. split_and!; try done. apply Hel. exists x. split; [done|].
      right. split; [|done]. intros Hu%Hun; [congruence|done]. }
  split_and!; try done.
  - split; try done.
    + rewrite Ho2. apply Hwf.
    + intros r1 r2 t (q1 & Hq1 & [[H1 ->]|[H1 ->]])%Hel (q2 & Hq2 & [[H2 ->]|[H2 ->]])%Hel Ht1 Ht2; simpl in *;
        try (apply Hun in H1; [congruence|done]); try (apply Hun in H2; [congruence|done]). by eapply Htag.
    + apply NoDup_nil_2.
    + by intros ? ? ? ?%not_elem_of_nil.
    + by intros ? ?%not_elem_of_nil.
    + intros x (q & Hq & [[Hu ->]|[_ ->]])%Hel; [|by apply Hfree]. intros _. simpl. by apply Hun.
    + intros x Hx. assert (hc_offset x ∈ hc_offset <$> hd_chunks dS) as Hin.
      { rewrite <- Ho2. apply list_elem_of_fmap. eauto. }
      apply list_elem_of_fmap in Hin as (y & -> & Hy). by apply Hwf.
    + by intros ? ?%not_elem_of_nil.
  - split.
    + intros t o l. split.
      * intros [Hc|[(sl & Hsl & _) _]]; [|by apply not_elem_of_nil in Hsl]. by apply Hsrc, Hce.
      * intros [Hc|(sl & Hsl & _)]%Hcov; [|by apply not_elem_of_nil in Hsl]. left. by apply Hce.
    + split; [|done]. intros r Hr. pose proof Hr as (_ & Ha & Ht & Hno). split_and!; try done; [|apply not_elem_of_nil].
      apply Hel. exists r. split; [by apply Hfor|]. right. split; [|done].
      intros (sl & Hxo & [_ Hsl]%list_elem_of_filter)%list_elem_of_fmap. apply Hno. rewrite Hxo.
      apply list_elem_of_fmap. rewrite <- Hs. eauto.
Qed.
End flush.

(** * Expanding the slot cache *)

(** All slots are free, and there is one. *)
Definition all_free (d : hoard_db) : Prop := Forall (fun sl => hs_tag sl = None) (hd_slots d).

(** There is room for another batch of slots below the limit of an int. *)
Definition has_room (d : hoard_db) : Prop :=
  Forall (fun o => o + 257 * 256 < 2 ^ 31) (hc_offset <$> hd_chunks d).

Lemma all_free_firm d t o l : all_free d -> firm d t o l <-> chunk_entry d t o l.
Proof.
  intros Hf. split; [|by left]. intros [?|[(r & Hr & Ht & _) _]]; [done|].
  unfold all_free in Hf. rewrite Forall_forall in Hf. specialize (Hf r Hr). congruence.
Qed.

Section expand.
Context (d : hoard_db) (Hwf : hoard_wf d) (Hempty : hd_slots d = []).

Lemma reclaim_slots_ok :
  exists d1 n d2 m, sql_reclaim EXPAND_CHUNKS d = inr (d1, [Z.of_nat n]) /\ sql_allocate d1 = inr (d2, m) /\
    m <> [] /\ (n <= EXPAND_CHUNKS)%nat /\ length (hd_slots d2) = n /\ all_free d2 /\ hoard_wf d2 /\ same_index d d2 /\
    hc_offset <$> hd_chunks d2 = hc_offset <$> hd_chunks d.
Proof.
  unfold sql_reclaim. rewrite Hempty. set (frees := filter (fun r => hc_allocated r = false) (hd_chunks d)).
  set (fresh := filter _ _). assert (fresh = take EXPAND_CHUNKS (hc_offset <$> frees)) as Hfresh.
  { apply filter_all, Forall_forall. intros o _. apply not_elem_of_nil. }
  assert (fresh `sublist_of` hc_offset <$> hd_chunks d) as Hsub.
  { rewrite Hfresh. etrans; [apply sublist_take|]. apply fmap_sublist, sublist_filter. }
  assert (forall o, o ∈ fresh -> exists r, r ∈ hd_chunks d /\ hc_offset r = o /\ hc_allocated r = false) as Hin.
  { intros o Ho. rewrite Hfresh in Ho. eapply elem_of_sublist in Ho; [|apply sublist_take].
    apply list_elem_of_fmap in Ho as (r & -> & [Ha Hr]%list_elem_of_filter). eauto. }
  assert (hs_offset <$> (new_slot <$> fresh) = fresh) as Hoff.
  { rewrite <- list_fmap_compose. apply list_fmap_id. }
  unfold sql_allocate. eexists _, _, _, _. split; [done|]. split; [done|]. split; [done|].
  set (d2 := set_hchunks _ _).
  assert (hd_slots d2 = new_slot <$> fresh) as Hs2 by done.
  assert (forall x, x ∈ hd_chunks d2 <-> exists x0, x0 ∈ hd_chunks d /\
    (hc_offset x0 ∈ fresh /\ x = mk_hchunk (hc_tag x0) (hc_offset x0) (hc_length x0) (hc_crypto x0) true \/
     ~ hc_offset x0 ∈ fresh /\ x = x0)) as Hel.
  { intros x. subst d2. simpl. rewrite elem_of_update. by rewrite Hoff. }
  assert (hc_offset <$> hd_chunks d2 = hc_offset <$> hd_chunks d) as Ho2.
  { subst d2. simpl. by rewrite update_fmap. }
  assert (all_free d2) as Hfree2.
  { unfold all_free. rewrite Hs2. apply Forall_forall. by intros sl (o & -> & _)%list_elem_of_fmap. }
  destruct Hwf as [Hco Hct Hso Hst Hres Hfree Hal Hint]. split_and!; try done.
  - rewrite Hfresh, length_take. lia.
  - by rewrite Hs2, length_fmap.
  - split; rewrite ?Hs2, ?Hoff, ?Ho2; try done.
    + intros r1 r2 t (q1 & Hq1 & [[H1 ->]|[H1 ->]])%Hel (q2 & Hq2 & [[H2 ->]|[H2 ->]])%Hel Ht1 Ht2; simpl in *;
        (assert (q1 = q2) as -> by (by eapply Hct)); done.
    + by apply (sublist_NoDup _ _ Hco).
    + by intros ? ? ? (o & -> & _)%list_elem_of_fmap.
    + intros sl (o & -> & Ho)%list_elem_of_fmap. destruct (Hin o Ho) as (r & Hr & Hro & Ha).
      eexists. split; [apply Hel; exists r; split; [done|]; left; by rewrite Hro|]. simpl.
      split_and!; try done. by apply Hfree.
    + intros x (q & Hq & [[Hu ->]|[_ ->]])%Hel; [done|]. by apply Hfree.
    + intros x (q & Hq & [[Hu ->]|[_ ->]])%Hel; by apply (Hal q).
    + by intros sl (o & -> & _)%list_elem_of_fmap.
  - split; [intros t o l; rewrite all_free_firm by done; rewrite all_free_firm|split; [|done]].
    2:{ unfold all_free. by rewrite Hempty. }
    + split.
      * intros (x & (q & Hq & [[Hu ->]|[_ ->]])%Hel & Ht & Hxo & Hl); by exists q.
      * intros (x & Hx & Ht & Hxo & Hl). destruct (decide (hc_offset x ∈ fresh)) as [Hf|Hf].
        -- eexists. split; [apply Hel; exists x; split; [done|]; by left|]. by split_and!.
        -- exists x. split_and!; try done. apply Hel. exists x. auto.
    + intros r (Hr & Ha & Ht & _). assert (~ hc_offset r ∈ fresh) as Hnf.
      { intros (q & Hq & Hqo & Hqa)%Hin. pose proof (offset_inj hc_offset _ _ _ Hco Hq Hr Hqo) as ->. congruence. }
      split_and!; try done; [apply Hel; exists r; auto|by rewrite Hs2, Hoff].
Qed.
End expand.

(** The offset after the last one. *)
Definition next_offset (d : hoard_db) : Z :=
  match hd_chunks d with
  | [] => 0
  | r :: rs => foldr Z.max (hc_offset r) (hc_offset <$> rs) + 256
  end.

Lemma foldr_max_spec x l : x <= foldr Z.max x l /\ Forall (fun y => y <= foldr Z.max x l) l /\
  foldr Z.max x l ∈ x :: l.
Proof.
  induction l as [|y l (Hx & Hl & Hin)]; simpl; [split_and!; [lia|done|by left]|].
  split_and!; [lia|apply Forall_cons; split; [lia|]; eapply Forall_impl; [exact Hl|]; simpl; lia|].
  destruct (Z.max_spec y (foldr Z.max x l)) as [[_ ->]|[_ ->]]; [|right; by left].
  apply elem_of_cons in Hin as [->|Hin]; [by left|]. right. by right.
Qed.

Lemma next_offset_spec d :
  hoard_wf d -> has_room d ->
  next_offset d mod 256 = 0 /\ 0 <= next_offset d /\ next_offset d + 256 * 256 < 2 ^ 31 /\
  Forall (fun o => o < next_offset d) (hc_offset <$> hd_chunks d).
Proof.
  intros Hwf Hroom. unfold next_offset, has_room in *. destruct (hd_chunks d) as [|r rs] eqn:Hd; [by repeat split|].
  destruct (foldr_max_spec (hc_offset r) (hc_offset <$> rs)) as (Hx & Hl & Hin).
  set (m := foldr Z.max _ _) in *.
  assert (m ∈ hc_offset <$> hd_chunks d) as Hm by (by rewrite Hd).
  rewrite Forall_forall in Hroom. pose proof Hin as Hr%Hroom.
  apply list_elem_of_fmap in Hm as (q & Hq & Hqd). destruct (wf_aligned d Hwf q Hqd) as [Hal Hge]. rewrite <- Hq in *.
  split_and!; [|lia|lia|].
  - change 256 with (1 * 256) at 1. by rewrite Z.mod_add.
  - simpl. apply Forall_cons. split; [lia|]. eapply Forall_impl; [exact Hl|]. simpl. lia.
Qed.

(** All slots of the file end below the sector [b]. *)
Definition fits (b : Z) (d : hoard_db) : Prop := Forall (fun o => o + 256 <= b) (hc_offset <$> hd_chunks d).

(** The file may have grown by a batch of slots. *)
Definition grown (d d' : hoard_db) : Prop := forall b, 0 <= b -> fits b d -> fits (b + 65536) d'.

Lemma grown_same d d' : hc_offset <$> hd_chunks d' = hc_offset <$> hd_chunks d -> grown d d'.
Proof. unfold grown, fits. intros -> b Hb Hf. eapply Forall_impl; [exact Hf|]. simpl. lia. Qed.

Lemma grown_offsets d d' e :
  hc_offset <$> hd_chunks d' = hc_offset <$> hd_chunks d -> grown d' e -> grown d e.
Proof. unfold grown, fits. intros ->. done. Qed.

(** After [k] of the new slots have been added. *)
Definition new_offsets (start : Z) (k : nat) : list Z := (fun i => start + i * 256) <$> seqZ 0 (Z.of_nat k).
Definition with_slots (d : hoard_db) (start : Z) (k : nat) : hoard_db :=
  set_hslots (hd_slots d ++ (new_slot <$> new_offsets start k)) d.

Lemma elem_of_new_offsets start k o :
  o ∈ new_offsets start k <-> exists i, 0 <= i < Z.of_nat k /\ o = start + i * 256.
Proof.
  unfold new_offsets. rewrite list_elem_of_fmap. split.
  - intros (i & -> & Hi%elem_of_seqZ). exists i. split; [lia|done].
  - intros (i & Hi & ->). exists i. split; [done|]. apply elem_of_seqZ. lia.
Qed.

Lemma offsets_with_slots d start k :
  hs_offset <$> hd_slots (with_slots d start k) = (hs_offset <$> hd_slots d) ++ new_offsets start k.
Proof.
  unfold with_slots. simpl. rewrite fmap_app. f_equal. rewrite <- list_fmap_compose. apply list_fmap_id.
Qed.

Section grow.
Context (d : hoard_db) (Hwf : hoard_wf d) (Hfree : all_free d) (Hroom : has_room d).

Lemma slot_below sl : sl ∈ hd_slots d -> hs_offset sl < next_offset d.
Proof.
  intros Hsl. destruct (wf_reserved d Hwf sl Hsl) as (r & Hr & <- & _).
  destruct (next_offset_spec d Hwf Hroom) as (_ & _ & _ & Hlt). rewrite Forall_forall in Hlt.
  apply Hlt, list_elem_of_fmap. eauto.
Qed.

Lemma add_slot_ok k :
  (k < EXPAND_CHUNKS)%nat ->
  sql_add_slot (s32 (next_offset d + Z.of_nat k * 256)) (with_slots d (next_offset d) k) =
    inr (with_slots d (next_offset d) (S k), [1]).
Proof.
  intros Hk. unfold EXPAND_CHUNKS in Hk. destruct (next_offset_spec d Hwf Hroom) as (_ & Hge & Hlt & _).
  rewrite s32_id by lia. unfold sql_add_slot. rewrite offsets_with_slots, decide_False.
  - do 2 f_equal. unfold with_slots, set_hslots. simpl. f_equal. rewrite <- app_assoc. f_equal.
    unfold new_offsets. by rewrite seqZ_S, !fmap_app.
  - intros [(sl & Ho & Hsl)%list_elem_of_fmap|(i & Hi & Ho)%elem_of_new_offsets]%elem_of_app; [|lia].
    pose proof (slot_below sl Hsl). lia.
Qed.

Lemma new_offsets_nodup start k : NoDup (new_offsets start k).
Proof. unfold new_offsets. apply NoDup_fmap_2; [intros x y; lia|apply NoDup_seqZ]. Qed.

Lemma add_chunks_ok k :
  (0 < k <= EXPAND_CHUNKS)%nat ->
  exists d' n, sql_add_chunks (with_slots d (next_offset d) k) = inr (d', n) /\ n <> [] /\ hoard_wf d' /\
    all_free d' /\ hd_slots d' <> [] /\ same_index d d' /\ grown d d'.
Proof.
  intros Hk. unfold sql_add_chunks. rewrite offsets_with_slots. change (hd_chunks (with_slots _ _ _)) with (hd_chunks d).
  destruct (next_offset_spec d Hwf Hroom) as (Hmod & Hge & Hlt & Hall). rewrite Forall_forall in Hall.
  set (st := next_offset d) in *. assert (filter (fun o => ~ o ∈ hc_offset <$> hd_chunks d)
    ((hs_offset <$> hd_slots d) ++ new_offsets st k) = new_offsets st k) as ->.
  { rewrite filter_app, filter_none, filter_all; [done|..]; apply Forall_forall.
    - intros o (i & Hi & ->)%elem_of_new_offsets Hin%Hall. lia.
    - intros o (sl & -> & Hsl)%list_elem_of_fmap Hn. apply Hn.
      destruct (wf_reserved d Hwf sl Hsl) as (r & Hr & <- & _). apply list_elem_of_fmap. eauto. }
  eexists _, _. split; [done|]. split; [done|]. set (d' := set_hchunks _ _).
  assert (forall x, x ∈ hd_chunks d' <-> x ∈ hd_chunks d \/ exists o, o ∈ new_offsets st k /\ x = mk_hchunk None o 0 0 true) as Hel.
  { intros x. subst d'. simpl. rewrite elem_of_app, list_elem_of_fmap.
    split; [intros [?|(o & ? & ?)]|intros [?|(o & ? & ?)]]; eauto. }
  assert (forall sl, sl ∈ hd_slots d' <-> sl ∈ hd_slots d \/ exists o, o ∈ new_offsets st k /\ sl = new_slot o) as Hels.
  { intros x. subst d'. simpl. rewrite elem_of_app, list_elem_of_fmap.
    split; [intros [?|(o & ? & ?)]|intros [?|(o & ? & ?)]]; eauto. }
  assert (all_free d') as Hfree'.
  { apply Forall_forall. intros sl [Hsl|(o & _ & ->)]%Hels; [|done]. unfold all_free in Hfree.
    rewrite Forall_forall in Hfree. by apply Hfree. }
  split_and!; try done.
  - destruct Hwf as [Hco Hct Hso Hst Hres Hfr Hal Hint]. split.
    + subst d'. simpl. rewrite fmap_app, <- list_fmap_compose. change (hc_offset ∘ _) with (fun o : Z => o).
      rewrite list_fmap_id. apply NoDup_app. split_and!; [done| |apply new_offsets_nodup].
      intros o Ho%Hall (i & Hi & ->)%elem_of_new_offsets. lia.
    + intros r1 r2 t [Hr1|(o1 & _ & ->)]%Hel [Hr2|(o2 & _ & ->)]%Hel; try done. by apply Hct.
    + change (hd_slots d') with (hd_slots (with_slots d st k)). rewrite offsets_with_slots.
      apply NoDup_app. split_and!; [done| |apply new_offsets_nodup].
      intros o (sl & -> & Hsl)%list_elem_of_fmap (i & Hi & Ho)%elem_of_new_offsets.
      pose proof (slot_below sl Hsl). lia.
    + intros r1 r2 t Hr1 _ Ht. unfold all_free in Hfree'. rewrite Forall_forall in Hfree'.
      rewrite Hfree' in Ht; done.
    + intros sl [Hsl|(o & Ho & ->)]%Hels.
      * destruct (Hres sl Hsl) as (r & Hr & Hrest). exists r. split; [|done]. apply Hel. by left.
      * eexists. split; [apply Hel; right; eauto|]. done.
    + intros r [Hr|(o & _ & ->)]%Hel; [by apply Hfr|done].
    + intros r [Hr|(o & (i & Hi & ->)%elem_of_new_offsets & ->)]%Hel; [by apply Hal|]. simpl.
      unfold EXPAND_CHUNKS in Hk. split; [by rewrite Z.mod_add|lia].
    + intros sl [Hsl|(o & Ho & ->)]%Hels; [by apply Hint|done].
  - intros Hx. assert (new_slot st ∈ hd_slots d') as Hin; [|rewrite Hx in Hin; by apply not_elem_of_nil in Hin].
    apply Hels. right. exists st. split; [|done]. apply elem_of_new_offsets. exists 0. lia.
  - split; [|split; [|done]].
    + intros t o l. rewrite !all_free_firm by done. split.
      * intros (r & [Hr|(o' & _ & ->)]%Hel & Hrest); [by exists r|]. by destruct Hrest.
      * intros (r & Hr & Hrest). exists r. split; [|done]. apply Hel. by left.
    + intros r (Hr & Ha & Ht & Hno). split_and!; try done; [apply Hel; by left|].
      change (hd_slots d') with (hd_slots (with_slots d st k)). rewrite offsets_with_slots.
      intros [?|(i & Hi & Ho)%elem_of_new_offsets]%elem_of_app; [done|].
      assert (hc_offset r < st) by (apply Hall, list_elem_of_fmap; eauto). lia.
  - intros b Hb Hf. apply Forall_forall. intros o (r & -> & Hr)%list_elem_of_fmap. unfold fits in Hf. rewrite Forall_forall in Hf.
    apply Hel in Hr as [Hr|(o & (i & Hi & ->)%elem_of_new_offsets & ->)].
    + assert (hc_offset r + 256 <= b) by (apply Hf, list_elem_of_fmap; eauto). lia.
    + assert (st <= b) as Hst.
      { subst st. unfold next_offset. destruct (hd_chunks d) as [|r rs]; [done|].
        destruct (foldr_max_spec (hc_offset r) (hc_offset <$> rs)) as (_ & _ & Hin). by apply Hf. }
      unfold EXPAND_CHUNKS in Hk. simpl. lia.
Qed.
End grow.

(** * Transactions *)

(** A statement inside a transaction, with the three ways it can go. *)
Lemma query_outcome {D A} fs (d0 d : D) (f : D -> stmt_error + D * list A) b :
  active d0 d b -> within fs b ->
  exists ok rows b', query (Stmt f) b = (ok, rows, b') /\ within fs b' /\ ok = succeeded (result b') /\
    ((exists d', f d = inr (d', rows) /\ active d0 d' b' /\
        result b' = match rows with [] => SQLITE_OK | _ => SQLITE_ROW end) \/
     (exists e, f d = inl e /\ active d0 d b' /\ result b' = error_code e) \/
     (broken fs d0 b' /\ (length (faults b') < length fs)%nat /\ ok = false /\ result b' <> SQLITE_CONSTRAINT /\
        (query_busy b' = false -> ~ Forall contention fs))).
Proof.
  intros Ha Hw. pose proof Ha as (Hl & Hu & Hs & Hd & Hr). unfold query. rewrite Hl.
  assert (forall b0, active d0 d b0 -> within fs b0 ->
    exists ok rows b', (let '(c, rows, b) := sqlite_execute (Stmt f) b0 in
      (succeeded (collapse c), rows, set_result (collapse c) b)) = (ok, rows, b') /\ within fs b' /\
      ok = succeeded (result b') /\
      ((exists d', f d = inr (d', rows) /\ active d0 d' b' /\
          result b' = match rows with [] => SQLITE_OK | _ => SQLITE_ROW end) \/
       (exists e, f d = inl e /\ active d0 d b' /\ result b' = error_code e))) as Hexec.
  { intros b0 (Hl0 & Hu0 & Hs0 & Hd0 & _) Hw0. simpl. rewrite Hd0. destruct (f d) as [e|[d' rows]].
    - eexists _, _, _. split; [done|]. split; [done|]. split; [by destruct e|]. right. exists e.
      split; [done|]. split; [split_and!; try done; by destruct e|by destruct e].
    - eexists _, _, _. split; [done|]. split; [done|]. split; [by destruct rows|]. left. exists d'.
      split; [done|]. destruct rows; by split. }
  unfold sqlite_run. destruct (faults b) as [|[[ft abort]|] rest] eqn:Hfs.
  - destruct (Hexec b Ha Hw) as (ok & rows & b' & ? & ? & ? & [?|?]); eexists _, _, _; eauto 10.
  - unfold within in *. rewrite Hfs in Hw. pose proof (within_cons _ _ _ Hw) as Hsuf.
    assert (length rest < length fs)%nat as Hlt by (apply suffix_length in Hw; simpl in Hw; lia).
    eexists _, _, _. split; [done|]. split; [by destruct abort|]. split; [done|]. right. right.
    split_and!; [| | |by destruct ft|].
    + split_and!; destruct abort; simpl; auto. rewrite Hs. auto.
    + by destruct abort.
    + by destruct ft.
    + intros Hnb Hc. pose proof (refusal_contention _ _ _ _ Hw Hc). by destruct ft, abort.
  - unfold within in *. rewrite Hfs in Hw.
    destruct (Hexec (set_faults rest b)) as (ok & rows & b' & ? & ? & ? & [?|?]);
      [by split_and!|by eapply within_cons|..]; eexists _, _, _; eauto 10.
Qed.

Section tx.
Context (s0 : hoard_state) (fs : list (option (sqlite_fault * bool))).
Context (Hfs : fs `suffix_of` faults (hoard s0)).
(** What holds of the file throughout, and whether the transaction uses it. *)
Context (J : list Z -> Prop) (K : Prop).
Local Abbreviation d0 := (data (hoard s0)).

(** No failure but contention. *)
Definition hoard_fair : Prop := Forall contention (faults (hoard s0)) /\ hoard_io s0 = [].

Record frame (s : hoard_state) : Prop := mk_frame {
  fr_parcel : h_parcel s = h_parcel s0;
  fr_dir : hoard_dir s = hoard_dir s0;
  fr_io : hoard_io s `suffix_of` hoard_io s0;
  fr_file : J (hoard_file s)
}.

Lemma frame_db b s : frame s -> frame (set_db b s).
Proof. intros []. by split. Qed.

Definition act (P : hoard_db -> list Z -> Prop) (s : hoard_state) : Prop :=
  exists d, active d0 d (hoard s) /\ within fs (hoard s) /\ frame s /\ P d (hoard_file s).

Definition bad (s : hoard_state) : Prop :=
  broken fs d0 (hoard s) /\ within fs (hoard s) /\ frame s /\ (query_busy (hoard s) = false -> ~ hoard_fair) /\
  ((length (faults (hoard s)) < length fs)%nat \/ K).

Lemma not_fair : ~ Forall contention fs -> ~ hoard_fair.
Proof. intros Hn [Hc _]. apply Hn. destruct Hfs as [k Hk]. rewrite Hk in Hc. by apply Forall_app in Hc as [_ ?]. Qed.

Lemma act_weaken (P Q : hoard_db -> list Z -> Prop) s : (forall d f, P d f -> Q d f) -> act P s -> act Q s.
Proof. intros HPQ (d & ? & ? & ? & ?). exists d. auto. Qed.

Lemma hrun_outcome {R A} P (q : hq A) (Q : list A -> hoard_db -> list Z -> Prop) (C : hoard_db -> list Z -> Prop) X :
  (forall d f, P d f -> match q d with inr (d', rows) => Q rows d' f | inl e => e = E_CONSTRAINT /\ C d f end) ->
  triple (act P) (hrun q : pk hoard_state R _)
    (fun r s => r.1 = succeeded (result (hoard s)) /\
       ((act (Q r.2) s /\ result (hoard s) = match r.2 with [] => SQLITE_OK | _ => SQLITE_ROW end) \/
        (act C s /\ result (hoard s) = SQLITE_CONSTRAINT) \/
        (bad s /\ r.1 = false /\ result (hoard s) <> SQLITE_CONSTRAINT)))
    X.
Proof.
  intros Hq s (d & Ha & Hw & Hfr & HP).
  destruct (query_outcome fs d0 d q (hoard s) Ha Hw) as (ok & rows & b & Hrun & Hwb & Hok & Hout).
  unfold hrun, on_db. simpl. rewrite Hrun. eexists _, _. split; [done|]. simpl. split; [done|].
  specialize (Hq d _ HP). destruct Hout as [(d' & Hd' & Ha' & Hr)|[(e & He & Ha' & Hr)|(Hb & Hlt & Hf & Hnc & Hnf)]].
  - rewrite Hd' in Hq. left. split; [|done]. exists d'. split_and!; try done. by apply frame_db.
  - rewrite He in Hq. destruct Hq as [-> HC]. right. left. split; [|done]. exists d. split_and!; try done. by apply frame_db.
  - right. right. split; [|done]. split_and!; [done|done|by apply frame_db| |by left].
    intros Hnb. by apply not_fair, Hnf.
Qed.

(** A statement that cannot fail by itself. *)
Lemma hrun_ok {R A} P (q : hq A) (Q : list A -> hoard_db -> list Z -> Prop) X :
  (forall d f, P d f -> exists d' rows, q d = inr (d', rows) /\ Q rows d' f) ->
  triple (act P) (hrun q : pk hoard_state R _)
    (fun r s => r.1 = succeeded (result (hoard s)) /\
       (r.1 = true /\ act (Q r.2) s /\ result (hoard s) = match r.2 with [] => SQLITE_OK | _ => SQLITE_ROW end \/
        r.1 = false /\ bad s))
    X.
Proof.
  intros Hq. eapply triple_weaken; [apply (hrun_outcome P q Q (fun _ _ => False) X)|done| |done].
  - intros d f HP. by destruct (Hq d f HP) as (d' & rows & -> & ?).
  - intros [ok rows] s (Hok & [(Ha & Hr)|[[(d & _ & _ & _ & []) _]|(Hb & Hf & _)]]); simpl in *; (split; [done|]).
    + left. split_and!; try done. rewrite Hok, Hr. by destruct rows.
    + by right.
Qed.

(** The post-condition of a function called within the transaction. *)
Definition result_is (Q : hoard_db -> list Z -> Prop) (err : pk_err) (s : hoard_state) : Prop :=
  if decide (err = PK_SUCCESS) then act Q s else bad s.

Lemma hoard_stmt_step {A} P (q : hq A) Q (k : list A -> pk hoard_state pk_err pk_err) Post :
  (forall d f, P d f -> exists d' rows, q d = inr (d', rows) /\ Q rows d' f) ->
  (forall rows, triple (act (Q rows)) (k rows) (result_is Post) (fun e => result_is Post (exit_result e))) ->
  triple (act P) ('(ok, rows) ← hrun q; if negb ok then ret PK_IOERR else k rows)
    (result_is Post) (fun e => result_is Post (exit_result e)).
Proof.
  intros Hq Hk. eapply triple_bind.
  { by apply (hrun_ok P q Q). }
  intros [ok rows]. simpl. intros s (_ & [(-> & Ha & _)|[-> Hb]]).
  - by apply Hk.
  - eexists _, _. split; [done|]. done.
Qed.

Lemma success_step (P Q : hoard_db -> list Z -> Prop) :
  (forall d f, P d f -> Q d f) ->
  triple (act P) (ret PK_SUCCESS : pk hoard_state pk_err pk_err) (result_is Q) (fun e => result_is Q (exit_result e)).
Proof. intros HPQ. apply triple_return. intros s Hs. by apply (act_weaken P). Qed.

(** The end of a transaction. *)
Lemma commit_step {R A} P (v w : R) (Q : A -> hoard_state -> Prop) (Post : R -> hoard_state -> Prop) E :
  (forall d s, idle d (hoard s) -> faults (hoard s) `suffix_of` faults (hoard s0) -> frame s ->
     P d (hoard_file s) -> Post v s) ->
  (forall n, ~ hoard_fair -> (n < length fs)%nat -> E w n) ->
  triple (act P) (ok ← try_db commit; if ok : bool then ret v else goto_bad w) Q
    (tx_exit_at fs d0 frame Post E).
Proof.
  intros HP HE s (d & Ha & Hw & Hfr & HPd).
  destruct (tx_commit (S:=hoard_state) (R:=R) fs d0 (fun s' => frame s' /\ hoard_file s' = hoard_file s) d) with (s := s)
    as (r & s' & Hr & Hpost); [|by split_and!|].
  { intros b s1 [? ?]. split; [by apply frame_db|done]. }
  destruct r as [ok|]; [|done]. destruct Hpost as (Hw' & [Hfr' Hf] & Hok). rewrite (bind_step _ _ _ _ _ Hr).
  destruct ok; (eexists _, _; split; [done|]); simpl.
  - apply (HP d); try done; [by etrans|]. by rewrite Hf.
  - destruct Hok as (? & ? & Hn & Hlt). split_and!; try done. intros _. apply HE; [by apply not_fair|done].
Qed.

(** ** Flushing *)

Lemma hnext_ok {R A} P (rows : list A) X :
  triple (act P) (hnext rows : pk hoard_state R _)
    (fun r s => (r.2 = tail rows /\ act P s /\ result (hoard s) = match tail rows with [] => SQLITE_OK | _ => SQLITE_ROW end) \/
       bad s /\ succeeded (result (hoard s)) = false)
    X.
Proof.
  intros s Hs. destruct (@hrun_ok R A P (fun d => inr (d, tail rows)) (fun r d f => r = tail rows /\ P d f) (fun _ _ => False)) with (s := s)
    as (r & s' & Hr & Hpost); [by eauto|done|].
  assert ((hnext rows : pk hoard_state R _) s = hrun (fun d => inr (d, tail rows)) s) as ->.
  { destruct Hs as (d & (Hl & _) & _). unfold hnext, hrun, on_db, query_next, query. simpl. by rewrite Hl. }
  exists r, s'. split; [done|]. destruct r as [[ok rows']|]; [|done]. simpl in *.
  destruct Hpost as (Hok & [(_ & (d & ? & ? & ? & -> & ?) & Hres)|[-> Hb]]); [left|by right].
  split_and!; try done. exists d. auto.
Qed.

(** The loop goes on with [rows], or has failed. *)
Definition loop_at (dS : hoard_db) (rows : list hslot) (s : hoard_state) : Prop :=
  (act (fun d _ => flushing dS rows d) s /\ Forall (fun sl => is_Some (hs_tag sl)) rows /\
   result (hoard s) = match rows with [] => SQLITE_OK | _ => SQLITE_ROW end) \/
  bad s /\ succeeded (result (hoard s)) = false.

Lemma no_row s : succeeded (result (hoard s)) = false -> query_has_row (hoard s) = false /\ query_ok (hoard s) = false.
Proof. intros Hs. unfold query_has_row, query_ok. by destruct (result (hoard s)). Qed.

(** Storing one slot. *)
Lemma flush_one dS sl rows (k : () -> pk hoard_state pk_err ()) Q X :
  hoard_wf dS -> is_Some (hs_tag sl) ->
  triple (act (fun d _ => flushing dS rows d)) (k ()) Q X -> (forall s, bad s -> X (Return PK_IOERR) s) ->
  triple (act (fun d _ => flushing dS (sl :: rows) d))
    (_ ← hrun (sql_fill_chunk (hs_tag sl) (hs_length sl) (hs_crypto sl) (hs_offset sl));
     constrained ← gets (fun s => query_constrained (hoard s));
     has ← gets (fun s => query_has_row (hoard s));
     _ ← (if constrained : bool then
            '(ok, _) ← hrun (sql_release_chunk (hs_offset sl));
            if negb ok then ret PK_IOERR else pk_ret ()
          else if negb has then ret PK_IOERR
          else pk_ret ());
     k ()) Q X.
Proof.
  intros Hwf Ht Hk HX. eapply triple_bind.
  { apply (hrun_outcome _ _ (fun n d _ => n <> [] /\ flushing dS rows d)
      (fun d _ => exists d' n, sql_release_chunk (hs_offset sl) d = inr (d', n) /\ flushing dS rows d')).
    intros d f Hfl. pose proof (flush_step dS Hwf sl rows d Hfl Ht) as Hst.
    destruct (sql_fill_chunk _ _ _ _ d) as [e|[d' n]]; [|done].
    destruct Hst as [-> (d' & n & ? & _ & ?)]. eauto. }
  intros [ok n] s (Hok & Hout). rewrite !bind_gets. unfold query_constrained, query_has_row.
  destruct Hout as [((d & Ha & Hw & Hfr & Hn & Hfl) & Hr)|[(Ha & Hr)|(Hb & Hf & Hnc)]]; simpl in *.
  - rewrite Hr. assert (result (hoard s) = SQLITE_ROW) as Hrow by (rewrite Hr; by destruct n).
    rewrite <- Hr, Hrow. simpl. rewrite bind_ret. apply Hk. exists d. auto.
  - rewrite Hr. simpl.
    revert s Ha Hr Hok. cut (triple (act (fun d _ => exists d' n, sql_release_chunk (hs_offset sl) d = inr (d', n) /\ flushing dS rows d'))
      (_ ← ('(ok, _) ← hrun (sql_release_chunk (hs_offset sl)); if negb ok then ret PK_IOERR else pk_ret ()); k ()) Q X).
    { intros Hc s Ha _ _. by apply Hc. }
    eapply triple_bind with (Q := fun _ => act (fun d _ => flushing dS rows d)); [|by intros []].
    eapply triple_bind.
    { apply (hrun_ok _ _ (fun _ d _ => flushing dS rows d)).
      intros d f (d' & n' & ? & ?). eauto. }
    intros [ok' n']. simpl. intros s (_ & [(-> & Ha & _)|[-> Hb]]); simpl.
    + eexists _, _. split; [done|]. done.
    + eexists _, _. split; [done|]. by apply HX.
  - assert (query_has_row (hoard s) = false /\ query_ok (hoard s) = false) as [Hnr _] by (apply no_row; congruence).
    unfold query_has_row in Hnr. rewrite Hnr, bool_decide_false by done. simpl.
    eexists _, _. split; [done|]. by apply HX.
Qed.

Lemma flush_loop_ok dS n rows :
  hoard_wf dS -> (length rows < n)%nat ->
  triple (loop_at dS rows) (flush_loop n rows)
    (fun _ => loop_at dS []) (fun e s => exit_result e = PK_IOERR /\ bad s).
Proof.
  intros Hwf. revert rows. induction n as [|n IH]; intros rows Hn s Hs; [lia|]. cbn [flush_loop]. rewrite bind_gets.
  destruct Hs as [(Ha & Hsome & Hr)|(Hb & Hf)].
  2:{ destruct (no_row s Hf) as [-> _]. eexists _, _. split; [done|]. by right. }
  unfold query_has_row. rewrite Hr. destruct rows as [|sl rows]; simpl.
  { eexists _, _. split; [done|]. by left. }
  apply Forall_cons in Hsome as [Ht Hsome]. simpl in Hn.
  assert (sl ∈ hd_slots dS) as Hsl.
  { destruct Ha as (d & _ & _ & _ & Hfl). eapply elem_of_sublist; [by left|apply Hfl]. }
  destruct (wf_ints dS Hwf sl Hsl) as [-> ->]. rewrite (s32_id (hs_offset sl)) by apply (slot_aligned dS Hwf sl Hsl).
  revert s Ha Hr. cut (triple (act (fun d _ => flushing dS (sl :: rows) d)) (
    _ ← hrun (sql_fill_chunk (hs_tag sl) (hs_length sl) (hs_crypto sl) (hs_offset sl));
    constrained ← gets (fun s => query_constrained (hoard s));
    has ← gets (fun s => query_has_row (hoard s));
    _ ← (if constrained : bool then
           '(ok, _) ← hrun (sql_release_chunk (hs_offset sl));
           if negb ok then ret PK_IOERR else pk_ret ()
         else if negb has then ret PK_IOERR
         else pk_ret ());
    '(_, rows) ← hnext (sl :: rows);
    flush_loop n rows) (fun _ => loop_at dS []) (fun e s => exit_result e = PK_IOERR /\ bad s)).
  { intros Hc s Ha _. by apply Hc. }
  apply (flush_one dS sl rows (fun _ => '(_, rows) ← hnext (sl :: rows); flush_loop n rows)); [done..| |done].
  eapply triple_bind; [apply hnext_ok|].
  intros [ok rows'] s [(Hrows & Ha & Hr)|(Hb & Hf)]; simpl in *.
  - subst rows'. apply (IH rows ltac:(lia)). by left.
  - destruct n as [|n]; [lia|]. cbn [flush_loop]. rewrite bind_gets. destruct (no_row s Hf) as [-> _].
    eexists _, _. split; [done|]. by right.
Qed.

(** The index between transactions, as the functions below find and leave it. *)
Definition steady (d : hoard_db) : Prop := hoard_wf d /\ same_index d0 d.

Lemma flush_slot_cache_triple {R} :
  hoard_wf d0 ->
  triple (act (fun d _ => d = d0)) (call _flush_slot_cache : pk hoard_state R _)
    (result_is (fun d _ => steady d /\ hd_slots d = [] /\ hc_offset <$> hd_chunks d = hc_offset <$> hd_chunks d0))
    (fun _ _ => False).
Proof.
  intros Hwf. apply triple_call_body. eapply triple_bind.
  { apply (hrun_ok _ _ (fun rows d _ => d = d0 /\ rows = filter (fun r => is_Some (hs_tag r)) (hd_slots d0))).
    intros d f ->. by eexists _, _. }
  intros [ok rows]. eapply triple_bind with (Q := fun _ => loop_at d0 []).
  { eapply triple_weaken; [apply (flush_loop_ok d0 (S (length rows)) rows Hwf); lia| |done|].
    - simpl. intros s (Hok & [(_ & (d & Ha & Hw & Hfr & -> & ->) & Hr)|[-> Hb]]); [left|right; split; [done|congruence]].
      split_and!; [exists d0; split_and!; try done; by apply flush_start| |done].
      apply Forall_forall. by intros sl [? _]%list_elem_of_filter.
    - intros e s [-> Hb]. done. }
  intros _ s [(Ha & _ & Hr)|(Hb & Hf)]; rewrite bind_gets.
  2:{ destruct (no_row s Hf) as [_ ->]. eexists _, _. split; [done|]. done. }
  unfold query_ok. rewrite Hr. simpl. revert s Ha Hr. set (m := (_ ≫= _)).
  cut (triple (act (fun d _ => flushing d0 [] d)) m
    (result_is (fun d _ => steady d /\ hd_slots d = [] /\ hc_offset <$> hd_chunks d = hc_offset <$> hd_chunks d0))
    (fun e => result_is (fun d _ => steady d /\ hd_slots d = [] /\ hc_offset <$> hd_chunks d = hc_offset <$> hd_chunks d0) (exit_result e))).
  { intros Hc s Ha _. by apply Hc. }
  apply (hoard_stmt_step _ _ (fun _ d _ => exists d2 n2, sql_clear_slots d = inr (d2, n2) /\ steady d2 /\ hd_slots d2 = [] /\
    hc_offset <$> hd_chunks d2 = hc_offset <$> hd_chunks d0) (fun _ => _)).
  { intros d f Hfl. destruct (flush_finish d0 Hwf d Hfl) as (d1 & n1 & d2 & n2 & ? & _ & ? & _ & ? & ? & ? & ?).
    eexists _, _. split; [done|]. eexists _, _. by split_and!. }
  intros _. apply (hoard_stmt_step _ _ (fun _ d _ => steady d /\ hd_slots d = [] /\
    hc_offset <$> hd_chunks d = hc_offset <$> hd_chunks d0) (fun _ => _)).
  { intros d f (d2 & n2 & ? & ?). eauto. }
  intros _. by apply success_step.
Qed.
(** ** Allocating *)

Lemma act_exists {A} (P : A -> hoard_db -> list Z -> Prop) s :
  act (fun d f => exists x, P x d f) s -> exists x, act (P x) s.
Proof. intros (d & ? & ? & ? & x & ?). exists x, d. auto. Qed.

Lemma act_pure (φ : Prop) P s : act (fun d f => φ /\ P d f) s -> φ /\ act P s.
Proof. intros (d & ? & ? & ? & ? & ?). split; [done|]. exists d. auto. Qed.

Lemma add_slots_ok d n k :
  hoard_wf d -> has_room d -> (k + n <= EXPAND_CHUNKS)%nat ->
  triple (act (fun d' _ => d' = with_slots d (next_offset d) k)) (add_slots n (next_offset d) (Z.of_nat k) 256)
    (fun _ => act (fun d' _ => d' = with_slots d (next_offset d) (k + n)))
    (fun e s => exit_result e = PK_IOERR /\ bad s).
Proof.
  intros Hwf Hroom. revert k. induction n as [|n IH]; intros k Hk; simpl.
  { apply triple_ret. by rewrite Nat.add_0_r. }
  eapply triple_bind.
  { apply (hrun_ok _ _ (fun _ d' _ => d' = with_slots d (next_offset d) (S k))). intros ? _ ->.
    eexists _, _. split; [|done]. apply add_slot_ok; [done..|lia]. }
  intros [ok rows]. simpl. intros s (_ & [(-> & Ha & _)|[-> Hb]]); simpl.
  - replace (Z.of_nat k + 1) with (Z.of_nat (S k)) by lia. rewrite <- Nat.add_succ_comm.
    apply IH; [lia|done].
  - eexists _, _. split; [done|]. done.
Qed.

(** What a transaction finds after slots have been made available. *)
Definition stocked (d : hoard_db) : Prop := steady d /\ all_free d /\ hd_slots d <> [] /\ grown d0 d.

(** The second half of expand_slot_cache. *)
Lemma expand_file_ok d n (k : () -> pk hoard_state pk_err pk_err) Q X :
  steady d -> all_free d -> has_room d -> hc_offset <$> hd_chunks d = hc_offset <$> hd_chunks d0 -> (0 < n <= EXPAND_CHUNKS)%nat ->
  triple (act (fun d _ => stocked d)) (k ()) Q X -> (forall e s, exit_result e = PK_IOERR -> bad s -> X e s) ->
  triple (act (fun d' _ => d' = d)) (
    '(_, rows) ← hrun sql_max_offset;
    has ← gets (fun s => query_has_row (hoard s));
    if negb has then ret PK_IOERR
    else
      let start := match head rows with Some (Some m) => s32 (m + 256) | _ => 0 end in
      _ ← add_slots n start 0 256;
      '(ok, _) ← hrun sql_add_chunks;
      if negb ok then ret PK_IOERR else k ()) Q X.
Proof.
  intros [Hwf Hsame] Hfree Hroom Hoffs Hn Hk HX. destruct (next_offset_spec d Hwf Hroom) as (_ & Hge & Hlt & _).
  eapply triple_bind.
  { apply (hrun_ok _ _ (fun rows d' _ => d' = d /\ exists m, rows = [m] /\
      match m with Some m => s32 (m + 256) | None => 0 end = next_offset d)).
    intros ? _ ->. eexists _, _. split; [done|]. split; [done|]. eexists. split; [done|].
    unfold next_offset in *. destruct (hd_chunks d) as [|r rs]; [done|]. apply s32_id. lia. }
  intros [ok rows] s (Hok & Hout). rewrite bind_gets. simpl in *. destruct Hout as [(-> & Ha & Hr)|[-> Hb]].
  2:{ destruct (no_row s ltac:(done)) as [-> _]. eexists _, _. split; [done|]. by apply HX. }
  assert (exists m, rows = [m] /\ match m with Some m => s32 (m + 256) | None => 0 end = next_offset d) as (m & -> & Hm).
  { by destruct Ha as (d' & _ & _ & _ & _ & ?). }
  unfold query_has_row. rewrite Hr. simpl. rewrite Hm.
  apply (act_weaken _ (fun d' _ => d' = d)) in Ha; [|by intros ? ? [? _]]. clear Hr Hok. revert s Ha.
  eapply triple_bind.
  { eapply triple_weaken; [apply (add_slots_ok d n 0 Hwf Hroom); lia| |by intros ? ? Ha; exact Ha|].
    - intros s. apply act_weaken. intros ? _ ->. unfold with_slots, new_offsets, set_hslots. simpl.
      rewrite app_nil_r. by destruct d.
    - intros e s [He Hb]. by apply HX. }
  intros []. eapply triple_bind.
  { apply (hrun_ok _ _ (fun _ d' _ => stocked d')). intros ? _ ->. simpl.
    destruct (add_chunks_ok d Hwf Hfree Hroom n Hn) as (d' & m' & ? & _ & ? & ? & ? & Hs & Hgr). eexists _, _. split; [done|].
    split; [split; [done|by etrans]|]. split_and!; [done|done|by eapply grown_offsets]. }
  intros [ok' m']. simpl. intros s (_ & [(-> & Ha & _)|[-> Hb]]); simpl; [by apply Hk|].
  eexists _, _. split; [done|]. by apply HX.
Qed.
Context (Hwf0 : hoard_wf d0) (Hroom : has_room d0) (Hcs : chunksize (h_parcel s0) = SLOT_SIZE).

(** After the slots that were released have been taken back. *)
Definition reclaimed (n : nat) (d : hoard_db) : Prop :=
  (n <= EXPAND_CHUNKS)%nat /\ length (hd_slots d) = n /\ steady d /\ all_free d /\ has_room d /\
  hc_offset <$> hd_chunks d = hc_offset <$> hd_chunks d0.

Lemma expand_slot_cache_triple {R} X :
  triple (act (fun d _ => steady d /\ hd_slots d = [] /\ hc_offset <$> hd_chunks d = hc_offset <$> hd_chunks d0))
    (call expand_slot_cache : pk hoard_state R _) (result_is (fun d _ => stocked d)) X.
Proof.
  apply triple_call_body. intros s Hs.
  assert (s32 (Z.shiftr (chunksize (h_parcel s)) 9) = 256) as Hstep.
  { destruct Hs as (d & _ & _ & [-> _ _ _] & _). by rewrite Hcs. }
  rewrite bind_gets, Hstep. clear Hstep. revert s Hs.
  apply (hoard_stmt_step _ _ (fun rows d _ => exists n, rows = [Z.of_nat n] /\ exists d2 m, sql_allocate d = inr (d2, m) /\ reclaimed n d2)
    (fun rows => let needed := s32 (Z.of_nat EXPAND_CHUNKS - default 0 (head rows)) in _)).
  { intros d f ([Hwf Hsame] & Hs & Ho). destruct (reclaim_slots_ok d Hwf Hs) as (d1 & n & d2 & m & ? & ? & _ & ? & ? & ? & ? & ? & Ho2).
    eexists _, _. split; [done|]. exists n. split; [done|]. exists d2, m. split; [done|]. split_and!; try done.
    - split; [done|by etrans].
    - unfold has_room. by rewrite Ho2, Ho.
    - by rewrite Ho2, Ho. }
  intros rows s Hs. apply act_exists in Hs as (n & Hs). apply act_pure in Hs as [-> Hs]. revert s Hs. simpl.
  apply (hoard_stmt_step _ _ (fun _ d _ => reclaimed n d) (fun _ => _)).
  { intros d f (d2 & m & ? & ?). eauto. }
  intros _ s Hs. assert (n <= 256)%nat as Hn by (by destruct Hs as (d & _ & _ & _ & ? & _)).
  change (Z.of_nat EXPAND_CHUNKS) with 256; rewrite s32_id by lia. case_decide as Hz.
  { revert s Hs. apply success_step. intros d _ (_ & Hlen & Hst & Hf & _ & Hoffs). split_and!; try done; [|by apply grown_same].
    intros Hnil. rewrite Hnil in Hlen. simpl in Hlen. lia. }
  destruct Hs as (d & Ha & Hw & Hfr & _ & _ & Hst & Hf & Hro & Hoffs).
  apply (expand_file_ok d (Z.to_nat (256 - Z.of_nat n)) (fun _ => ret PK_SUCCESS)); try done.
  - unfold EXPAND_CHUNKS. lia.
  - by apply success_step.
  - by intros e s' ->.
  - exists d. by split_and!.
Qed.

(** A slot without a chunk, at [offset]. *)
Definition free_at (offset : Z) (d : hoard_db) : Prop :=
  steady d /\ grown d0 d /\ exists sl, sl ∈ hd_slots d /\ hs_tag sl = None /\ hs_offset sl = offset.

Definition allocated_is (r : pk_err * Z) (s : hoard_state) : Prop :=
  result_is (fun d _ => free_at r.2 d) r.1 s.

(** A round of allocate_slot. *)
Lemma allocate_round P n :
  (forall d (f : list Z), P d f -> steady d /\ grown d0 d) ->
  triple (act (fun d f => P d f /\ Forall (fun r => hs_tag r <> None) (hd_slots d)))
    (err ← call _flush_slot_cache;
     if decide (err <> PK_SUCCESS) then ret (err, 0)
     else err ← call expand_slot_cache; if decide (err <> PK_SUCCESS) then ret (err, 0) else allocate_loop n)
    allocated_is (fun e => allocated_is (exit_result e)) ->
  triple (act P) (allocate_loop (S n)) allocated_is (fun e => allocated_is (exit_result e)).
Proof.
  intros HP Hk. simpl. eapply triple_bind.
  { apply (hrun_ok _ _ (fun rows d f => P d f /\ rows = take 1 (unused d))). eauto. }
  intros [ok rows] s (Hok & Hout). rewrite !bind_gets. simpl in *. destruct Hout as [(-> & Ha & Hr)|[-> Hb]].
  2:{ destruct (no_row s ltac:(done)) as [-> ->]. eexists _, _. by split. }
  unfold query_has_row, query_ok. rewrite Hr. destruct rows as [|o rows]; simpl.
  - apply Hk. eapply act_weaken; [|exact Ha]. intros d f [? Hn]. split; [done|]. apply Forall_forall.
    intros sl Hsl Ht. unfold unused in Hn.
    assert (sl ∈ filter (fun r => hs_tag r = None) (hd_slots d)) as Hin by (by apply list_elem_of_filter).
    destruct (filter _ _); [by apply not_elem_of_nil in Hin|done].
  - eexists _, _. split; [done|]. unfold allocated_is. simpl. eapply act_weaken; [|exact Ha].
    intros d f [HPd Hn]. destruct (HP d f HPd) as [Hst Hgr]. split; [done|]. split; [done|]. unfold unused in Hn.
    destruct (filter _ _) as [|sl l] eqn:Hfl; [done|]. simpl in Hn. simplify_eq. exists sl.
    assert (sl ∈ sl :: l) as Hin by (by left). rewrite <- Hfl in Hin. apply list_elem_of_filter in Hin as [? Hin].
    split_and!; try done. symmetry. apply s32_id. eapply (slot_aligned d); [apply Hst|done].
Qed.

(** A call whose failure allocate_slot passes on. *)
Lemma allocate_call P (f : hoard_state -> option (pk_err * hoard_state)) Q (k : pk hoard_state (pk_err * Z) (pk_err * Z)) :
  (forall X, triple P (call f : pk hoard_state (pk_err * Z) _) (result_is Q) X) ->
  triple (act Q) k allocated_is (fun e => allocated_is (exit_result e)) ->
  triple P (err ← call f; if decide (err <> PK_SUCCESS) then ret (err, 0) else k)
    allocated_is (fun e => allocated_is (exit_result e)).
Proof.
  intros Hf Hk. eapply triple_bind; [apply Hf|]. intros err. unfold result_is at 1. case_decide as He.
  - by rewrite decide_False by (intros Hn; by apply Hn).
  - rewrite decide_True by done. apply triple_return. intros s Hs. unfold allocated_is, result_is. simpl.
    by rewrite decide_False.
Qed.

Lemma allocate_slot_triple {R} X :
  triple (act (fun d _ => d = d0)) (call allocate_slot : pk hoard_state R _) allocated_is X.
Proof.
  apply triple_call_body. apply allocate_round.
  { intros d _ ->. split; [by split|by apply grown_same]. }
  eapply allocate_call.
  { intros X'. eapply triple_fall; [apply (flush_slot_cache_triple Hwf0)|]. intros s. apply act_weaken. by intros d f [-> _]. }
  eapply allocate_call; [apply expand_slot_cache_triple|]. apply (allocate_round _ 0).
  { by intros d _ (? & _ & _ & ?). }
  intros s (d & _ & _ & _ & (_ & Hf & Hne & _) & Hall). exfalso. destruct (hd_slots d) as [|sl l] eqn:Hd; [done|].
  unfold all_free in Hf. rewrite Hd in Hf. apply Forall_cons in Hf as [Hf _], Hall as [Hn _]. done.
Qed.
(** ** Storing a chunk *)

(** The places in the file that the index or another process uses are left. *)
Definition guarded (o : Z) : Prop := (exists t len, firm d0 t o len) \/ exists r, foreign d0 r /\ hc_offset r = o.

Definition kept (f : list Z) : Prop :=
  bytes f /\ forall o len, guarded o -> 0 < len <= SLOT_SIZE ->
    Z.of_nat (length (content (hoard_file s0) o len)) = len -> content f o len = content (hoard_file s0) o len.

Context (HJ : forall f, J f <-> kept f) (HK : K).

Lemma sound_frame s : frame s -> sound d0 (hoard_file s0) -> sound d0 (hoard_file s).
Proof.
  intros Hfr Hs t o len Hf. destruct (Hs t o len Hf) as (Hl & Hfull & Ht).
  apply fr_file, HJ in Hfr as [_ Hkeep]. rewrite (Hkeep o len); [done|left; eauto|done..].
Qed.

Context (tag buf : list Z) (Hbuf : 0 < Z.of_nat (length buf) <= SLOT_SIZE) (Hbytes : bytes buf).
Context (Htag : Fips180.sha1 buf = tag).

(** The index has the new chunk at [o] besides what it had. *)
Definition filled (o : Z) (d : hoard_db) : Prop :=
  hoard_wf d /\ aligned o /\ (forall o', guarded o' -> aligned o' /\ o' <> o) /\ (spared d0 d /\ grown d0 d) /\
  forall t o' l, firm d t o' l <-> firm d0 t o' l \/ t = tag /\ o' = o /\ l = Z.of_nat (length buf).

(** A file operation that fails makes the run an unfair one. *)
Lemma hoard_next_io_ok {R} P X :
  triple (act P) (hoard_next_io : pk hoard_state R _)
    (fun lim s => act P s /\ (lim <> None -> ~ hoard_fair)) X.
Proof.
  intros s (d & Ha & Hw & Hfr & HP). unfold hoard_next_io. pose proof (fr_io s Hfr) as Hsuf.
  destruct (hoard_io s) as [|o rest] eqn:Hio.
  - eexists _, _. split; [done|]. simpl. split; [|done]. exists d. by split_and!.
  - eexists _, _. split; [done|]. simpl. split.
    + exists d. split_and!; try done. destruct Hfr. split; try done. by eapply suffix_cons_l.
    + intros _ [_ He]. rewrite He in Hsuf. by apply suffix_nil_inv in Hsuf.
Qed.

Lemma act_bad P s : act P s -> ~ hoard_fair -> bad s.
Proof. intros (d & Ha & Hw & Hfr & _) Hn. split_and!; try done; [by eapply active_broken|by right]. Qed.

Lemma write_frame s o data :
  frame s -> aligned o -> (forall o', guarded o' -> aligned o' /\ o' <> o) ->
  bytes data -> (length data <= Z.to_nat SLOT_SIZE)%nat ->
  frame (set_hoard_file (file_write (hoard_file s) (place o) data) s).
Proof.
  intros [? ? ? [? Hf]%HJ] Ho Hap Hb Hlen. split; try done. apply HJ. split; [by apply bytes_file_write|]. simpl.
  intros o' len Hg Hl Hfull. destruct (Hap o' Hg). rewrite content_write; try done; [by apply Hf|].
  by rewrite (Hf o' len).
Qed.

Lemma hoard_write_chunk_triple o :
  triple (act (fun d _ => filled o d)) (call (_hoard_write_chunk o buf) : pk hoard_state pk_err _)
    (result_is (fun d f => filled o d /\ content f o (Z.of_nat (length buf)) = buf)) (fun _ _ => False).
Proof.
  apply triple_call_body. rewrite decide_False by lia.
  set (zs := buf ++ replicate (Z.to_nat SLOT_SIZE - length buf) 0).
  assert (length zs = Z.to_nat SLOT_SIZE) as Hzs by (unfold zs; rewrite length_app, length_replicate; lia).
  assert (bytes zs) as Hbz by (apply Forall_app_2; [done|]; by apply Forall_replicate).
  eapply triple_bind; [apply hoard_next_io_ok|]. intros lim s (Hs & Hlim). simpl in Hlim.
  set (data := take (limit (length zs) lim) zs). rewrite bind_modify.
  assert (length data <= Z.to_nat SLOT_SIZE)%nat as Hld by (subst data; rewrite length_take; lia).
  set (s' := set_hoard_file _ s).
  assert (act (fun d f => filled o d /\ f = file_write (hoard_file s) (place o) data) s') as Hs'.
  { destruct Hs as (d & Ha & Hw & Hfr & Hfi). exists d. split_and!; try done.
    destruct Hfi as (_ & Hal & Hap & _ & _). apply write_frame; try done. by apply Forall_take. }
  case_decide as Hshort; (eexists _, _; split; [done|]); simpl.
  - apply (act_bad _ _ Hs'). apply Hlim. intros ->. apply Hshort. subst data. simpl. rewrite length_take. lia.
  - unfold result_is. simpl. eapply act_weaken; [|exact Hs']. intros d f [Hfi ->]. split; [done|].
    unfold content. rewrite Nat2Z.id, range_file_write_same by lia.
    assert (data = zs) as ->. { subst data. apply take_ge. rewrite length_take in Hshort. lia. }
    unfold zs. apply take_app_length.
Qed.

(** ** The transaction of hoard_put_chunk *)

(** What a call leaves: on failure the index it found; on success also the new chunk. *)
Definition put_post (err : pk_err) (s : hoard_state) : Prop :=
  frame s /\ faults (hoard s) `suffix_of` faults (hoard s0) /\
  exists d, idle d (hoard s) /\
    if decide (err = PK_SUCCESS)
    then d = d0 /\ indexed d0 tag \/ exists o, filled o d /\ content (hoard_file s) o (Z.of_nat (length buf)) = buf
    else d = d0 /\ ~ hoard_fair.

Definition put_error (err : pk_err) : Prop := err <> PK_SUCCESS /\ ~ hoard_fair.

Local Abbreviation put_exit := (tx_exit fs d0 frame put_post put_error).

Lemma bad_exit err s : bad s -> err <> PK_SUCCESS -> put_exit (Goto_bad err) s.
Proof. intros (Hb & Hw & Hfr & Hnf & _) He. split_and!; try done. intros Hnb. split; auto. Qed.

Lemma put_commit P :
  (forall d s, P d (hoard_file s) ->
     d = d0 /\ indexed d0 tag \/ exists o, filled o d /\ content (hoard_file s) o (Z.of_nat (length buf)) = buf) ->
  triple (act P) (ok ← try_db commit; if ok : bool then ret PK_SUCCESS else goto_bad PK_IOERR) put_post put_exit.
Proof.
  intros HP. apply commit_step.
  - intros d s Hi Hsuf Hfr HPd. split; [done|]. split; [done|]. exists d. split; [done|].
    rewrite decide_True by done. by apply HP.
  - by intros n Hn _.
Qed.

Lemma put_lookup {A} (q : hq A) rows (k : pk hoard_state pk_err pk_err) :
  q d0 = inr (d0, rows) -> (rows <> [] -> indexed d0 tag) ->
  (rows = [] -> triple (act (fun d _ => d = d0)) k put_post put_exit) ->
  triple (act (fun d _ => d = d0))
    (_ ← hrun q;
     has ← gets (fun s => query_has_row (hoard s));
     ok ← gets (fun s => query_ok (hoard s));
     if has : bool then ok ← try_db commit; if ok : bool then ret PK_SUCCESS else goto_bad PK_IOERR
     else if negb ok then goto_bad PK_SQLERR
     else k) put_post put_exit.
Proof.
  intros Hq Hyes Hno. eapply triple_bind.
  { apply (hrun_ok _ _ (fun r d _ => r = rows /\ d = d0)). intros ? _ ->. eauto. }
  intros [ok r] s (Hok & Hout). rewrite !bind_gets. simpl in *. destruct Hout as [(-> & Ha & Hr)|[-> Hb]].
  2:{ destruct (no_row s ltac:(done)) as [-> ->]. eexists _, _. split; [done|]. by apply bad_exit. }
  apply act_pure in Ha as [-> Ha]. unfold query_has_row, query_ok. rewrite Hr. destruct rows as [|x rows]; simpl.
  - by apply Hno.
  - eapply put_commit; [|exact Ha]. intros d s' ->. left. split; [done|]. by apply Hyes.
Qed.

Lemma not_indexed :
  filter (fun r => hs_tag r = Some tag) (hd_slots d0) = [] ->
  filter (fun r => hc_tag r = Some tag) (hd_chunks d0) = [] -> ~ indexed d0 tag.
Proof.
  intros Hs Hc (o & l & [(r & Hr & Ht & _)|(r & Hr & Ht & _)]).
  - assert (r ∈ filter (fun r => hs_tag r = Some tag) (hd_slots d0)) as Hin by (by apply list_elem_of_filter).
    rewrite Hs in Hin. by apply not_elem_of_nil in Hin.
  - assert (r ∈ filter (fun r => hc_tag r = Some tag) (hd_chunks d0)) as Hin by (by apply list_elem_of_filter).
    rewrite Hc in Hin. by apply not_elem_of_nil in Hin.
Qed.

Lemma fill_slot_spared len cry o d d' n : sql_fill_slot tag len cry o d = inr (d', n) -> spared d d'.
Proof.
  unfold sql_fill_slot. case_decide; [done|]. intros [= <- _]. split; [|done]. intros r (Hr & Ha & Ht & Hno).
  split_and!; try done. cbn [hd_slots set_hslots]. by rewrite update_fmap.
Qed.

Lemma fill_free_slot o d cry :
  ~ indexed d0 tag -> free_at o d ->
  exists d' n, sql_fill_slot tag (s32 (Z.of_nat (length buf))) (s32 cry) o d = inr (d', n) /\ filled o d'.
Proof.
  intros Hni ([Hwf Hsame] & Hgr & sl & Hsl & Ht & <-).
  assert (s32 (Z.of_nat (length buf)) = Z.of_nat (length buf)) as Hlen by (apply s32_id; unfold SLOT_SIZE in *; lia).
  rewrite Hlen. destruct (fill_slot_ok d Hwf tag (Z.of_nat (length buf)) (s32 cry) sl Hsl Ht)
    as (d' & n & Hq & _ & Hwf' & Hfirm); [|done|apply s32_idemp|].
  { rewrite indexed_firm. setoid_rewrite (si_firm _ _ Hsame tag). by rewrite <- indexed_firm. }
  pose proof (si_spared _ _ Hsame) as [Hfor _].
  exists d', n. split; [done|]. split_and!; [done|by apply (slot_aligned d Hwf)| | | |].
  - intros o' [(t & l & Hf)|(r & Hr & <-)].
    + split; [by eapply (entry_aligned d0 Hwf0), firm_entry|].
      apply (si_firm _ _ Hsame) in Hf. eapply (free_slot_unindexed d Hwf); [done..|]. by apply firm_entry.
    + split; [by apply (wf_aligned d0 Hwf0), Hr|]. intros Ho. apply Hfor in Hr as (_ & _ & _ & Hno). apply Hno.
      rewrite Ho. apply list_elem_of_fmap. eauto.
  - etrans; [apply Hsame|]. eapply fill_slot_spared, Hq.
  - unfold sql_fill_slot in Hq. case_decide; [done|]. by injection Hq as <- _.
  - intros t o' l. by rewrite Hfirm, (si_firm _ _ Hsame t).
Qed.

Lemma filled_sound o d s :
  sound d0 (hoard_file s0) -> frame s -> filled o d -> content (hoard_file s) o (Z.of_nat (length buf)) = buf ->
  hoard_wf d /\ sound d (hoard_file s) /\ forall t, indexed d t <-> indexed d0 t \/ t = tag.
Proof.
  intros Hsound Hfr (Hwf & _ & _ & _ & Hfirm) Hc. split_and!; [done| |].
  - intros t o' l [Hf|(-> & -> & ->)]%Hfirm; [by apply (sound_frame s)|]. by rewrite Hc.
  - intros t. rewrite !indexed_firm. setoid_rewrite Hfirm. split.
    + intros (o' & l & [?|(-> & _)]); [left; eauto|by right].
    + intros [(o' & l & ?)| ->]; [exists o', l; auto|]. exists o, (Z.of_nat (length buf)). auto.
Qed.

Lemma hoard_put_body_ok : tx_body d0 frame put_post put_error (hoard_put_body tag buf) fs.
Proof.
  apply (tx_begin fs d0 frame put_post (fun r _ => put_error r) PK_IOERR (fun _ => _)); [intros; by apply frame_db| |].
  { intros s Hi Hw Hfr Hn _. split; [done|]. split; [by etrans|]. exists d0. split; [done|].
    rewrite decide_False by done. split; [done|by apply not_fair]. }
  eapply triple_pre with (P' := act (fun d _ => d = d0)).
  2:{ intros s (Ha & Hw & Hfr). exists d0. by split_and!. }
  eapply put_lookup; [done| |].
  { intros Hne. destruct (filter _ _) as [|r l] eqn:Hfl; [done|]. assert (r ∈ r :: l) as Hin by (by left).
    rewrite <- Hfl in Hin. apply list_elem_of_filter in Hin as [Ht Hr]. exists (hs_offset r), (hs_length r). left. by exists r. }
  intros Hns%fmap_nil_inv. eapply put_lookup; [done| |].
  { intros Hne. destruct (filter _ (hd_chunks d0)) as [|r l] eqn:Hfl; [done|]. assert (r ∈ r :: l) as Hin by (by left).
    rewrite <- Hfl in Hin. apply list_elem_of_filter in Hin as [Ht Hr]. exists (hc_offset r), (hc_length r). right. by exists r. }
  intros Hnc%fmap_nil_inv. pose proof (not_indexed Hns Hnc) as Hni.
  eapply triple_bind; [apply allocate_slot_triple|]. intros [err o]. unfold allocated_is, result_is. simpl.
  case_decide as He; last first.
  { rewrite decide_True by done. apply triple_goto_bad. intros s Hb. by apply bad_exit. }
  rewrite decide_False by (intros Hn; by apply Hn). intros s Hs. rewrite bind_gets. generalize (crypto (h_parcel s)).
  intros cry. revert s Hs. eapply triple_bind.
  { apply (hrun_ok _ _ (fun _ d _ => filled o d)). intros d _ Hf. destruct (fill_free_slot o d cry Hni Hf) as (d' & n & ? & ?).
    eauto. }
  intros [ok n]. simpl. intros s (_ & [(-> & Ha & _)|[-> Hb]]); simpl.
  2:{ eexists _, _. split; [done|]. by apply bad_exit. }
  revert s Ha. eapply triple_bind; [eapply triple_fall; [apply hoard_write_chunk_triple|done]|].
  intros err'. unfold result_is. case_decide as He'; last first.
  { rewrite decide_True by done. apply triple_goto_bad. intros s Hb. by apply bad_exit. }
  rewrite decide_False by (intros Hn; by apply Hn). apply put_commit. intros d s [Hf Hc]. right. eauto.
Qed.
End tx.

(** * Storing a chunk *)

Lemma frame_refl (J : list Z -> Prop) s : J (hoard_file s) -> frame s J s.
Proof. by split. Qed.

(** What a call of hoard_put_chunk leaves when the file has what the index promises. *)
Definition put_done (s0 : hoard_state) (tag : list Z) (err : pk_err) (s : hoard_state) : Prop :=
  frame s0 (kept s0) s /\ faults (hoard s) `suffix_of` faults (hoard s0) /\
  exists d, idle d (hoard s) /\ hoard_wf d /\ sound d (hoard_file s) /\ spared (data (hoard s0)) d /\ grown (data (hoard s0)) d /\
    if decide (err = PK_SUCCESS) then forall t, indexed d t <-> indexed (data (hoard s0)) t \/ t = tag
    else d = data (hoard s0) /\ ~ hoard_fair s0.

Lemma hoard_put_spec s tag buf :
  hoard_dir s = true -> idle (data (hoard s)) (hoard s) -> chunksize (h_parcel s) = SLOT_SIZE ->
  hoard_wf (data (hoard s)) -> sound (data (hoard s)) (hoard_file s) -> has_room (data (hoard s)) ->
  bytes (hoard_file s) -> bytes buf -> 0 < Z.of_nat (length buf) <= SLOT_SIZE -> Fips180.sha1 buf = tag ->
  exists err s', hoard_put_chunk tag buf s = Some (err, s') /\ put_done s tag err s'.
Proof.
  intros Hdir Hidle Hcs Hwf Hsound Hroom Hfile Hbytes Hbuf Htag. unfold hoard_put_chunk. rewrite Hdir.
  destruct (transaction_spec (faults (hoard s)) (data (hoard s)) (frame s (kept s)) (put_post s (kept s) tag buf) (put_error s)
    (hoard_put_body tag buf) s) as (err & s' & Hr & Hpost); try done.
  - intros fs' Hfs. by apply (hoard_put_body_ok s fs' Hfs (kept s) True).
  - intros b s'. apply frame_db.
  - apply within_refl.
  - exists err, s'. split; [done|].
    assert (forall s1, frame s (kept s) s1 -> sound (data (hoard s)) (hoard_file s1)) as Hstay
      by (intros s1 Hs1; by apply (sound_frame s (kept s))).
    destruct Hpost as [(Hfr & Hsuf & d & Hi & Hout)|(Hi & Hw & Hfr & He & Hn)]; (split; [done|]; split; [done|]).
    + exists d. split; [done|]. case_decide as He.
      * destruct Hout as [[-> Hin]|(o & Hf & Hc)].
        { split_and!; auto; [done|by apply grown_same|]. intros t. split; [by left|]. by intros [?| ->]. }
        edestruct (filled_sound s (kept s)) with (o := o) (d := d) (s := s') as (? & ? & ?); eauto.
        split_and!; try done; apply Hf.
      * destruct Hout as [-> ?]. split_and!; auto; [done|by apply grown_same].
    + exists (data (hoard s)). rewrite decide_False by done. split_and!; auto; [done|by apply grown_same].
Qed.
