(* ===== verification/HoardChunks.v ===== *)
(** HoardChunks: what hoard_put_chunk, hoard_get_chunk and hoard_gc of src/parcelkeeper/hoard.c
    promise to the rest of the parcelkeeper, whatever fails. *)

From S2P Require Import Prelude Cipher HashStream Sha1 Hash Compress LzfStream Chunk Effects Sql Pk Hoard HoardProofs.

(** * Transactions that leave the file alone *)

Section reading.
Context (s0 : hoard_state).
Local Abbreviation d0 := (data (hoard s0)).

Definition untouched (f : list Z) : Prop := f = hoard_file s0.

(** A wrapped function has had its effect [Q], or a refusal of SQLite has prevented it. *)
Definition wrapped (Q : hoard_db -> Prop) (s : hoard_state) : Prop :=
  frame s0 untouched s /\ faults (hoard s) `suffix_of` faults (hoard s0) /\
  exists d, idle d (hoard s) /\
    (Q d \/ d = d0 /\ (length (faults (hoard s)) < length (faults (hoard s0)))%nat /\ ~ hoard_fair s0).

Lemma wrapper_body_ok f Q fs :
  fs `suffix_of` faults (hoard s0) ->
  (forall X, triple (act s0 fs untouched (fun d _ => d = d0)) (call f : pk hoard_state () _)
     (result_is s0 fs untouched False (fun d _ => Q d)) X) ->
  tx_body_at d0 (frame s0 untouched) (fun _ => wrapped Q)
    (fun _ n => (n < length (faults (hoard s0)))%nat /\ ~ hoard_fair s0) (wrapper_body f) fs.
Proof.
  intros Hfs Hf. assert (forall n, (n < length fs -> n < length (faults (hoard s0)))%nat) as Hlen.
  { apply suffix_length in Hfs. lia. }
  apply (tx_begin fs d0 (frame s0 untouched) _ _ () (fun _ => _)); [intros; by apply frame_db| |].
  { intros s Hs Hw Hfr Hn Hlt. split; [done|]. split; [by etrans|]. exists d0. split; [done|]. right.
    split_and!; [done|by apply Hlen|by eapply not_fair]. }
  eapply triple_pre with (P' := act s0 fs untouched (fun d _ => d = d0)).
  2:{ intros s (Ha & Hw & Hfr). exists d0. by split_and!. }
  eapply triple_bind; [by apply Hf|]. intros err. unfold result_is. case_decide as He; last first.
  { rewrite decide_True by done. apply triple_goto_bad. intros s (Hb & Hw & Hfr & Hnf & [Hlt|[]]).
    split_and!; try done. intros Hnb. split; [by apply Hlen|by apply Hnf]. }
  rewrite decide_False by (intros Hn; by apply Hn). clear err He.
  intros s (d & Ha & Hw & Hfr & HQ).
  destruct (commit_spec fs d0 d _ Ha Hw) as (ok & b & Hc & Hwb & Hok).
  unfold mbind at 1, pk_mbind at 1, pk_bind at 1, try_db at 1. simpl. rewrite Hc. simpl. destruct ok.
  + eexists _, _. split; [done|]. simpl. split; [by apply frame_db|]. split; [by etrans|]. exists d. auto.
  + destruct Hok as (Hb & _ & Hn & Hlt). destruct (rollback_spec fs d0 b Hb Hwb) as (b' & Hrb & Hwb' & Hi' & Hle).
    unfold mbind at 1, pk_mbind at 1, pk_bind at 1, try_db at 1. simpl. rewrite Hrb.
    eexists _, _. split; [done|]. simpl. split; [by apply frame_db, frame_db|]. split; [by etrans|].
    exists d0. split; [done|]. right. split_and!; [done|apply Hlen; by eapply Nat.le_lt_trans|by eapply not_fair].
Qed.

Lemma wrapper_spec f Q :
  idle d0 (hoard s0) ->
  (forall fs, fs `suffix_of` faults (hoard s0) -> forall X,
     triple (act s0 fs untouched (fun d _ => d = d0)) (call f : pk hoard_state () _)
       (result_is s0 fs untouched False (fun d _ => Q d)) X) ->
  exists s, transaction_wrapper f s0 = Some ((), s) /\ wrapped Q s.
Proof.
  intros Hi Hf.
  destruct (transaction_spec_at (R:=()) (faults (hoard s0)) d0 (frame s0 untouched) (fun _ => wrapped Q)
    (fun _ n => (n < length (faults (hoard s0)))%nat /\ ~ hoard_fair s0)
    (wrapper_body f) s0) as ([] & s & Hr & Hpost); try done.
  - intros fs Hfs. apply wrapper_body_ok; auto.
  - intros b s. apply frame_db.
  - intros _ n n' [? ?] ?. split; [lia|done].
  - apply within_refl.
  - exists s. split; [done|]. destruct Hpost as [?|(? & ? & ? & ? & ?)]; [done|].
    split; [done|]. split; [done|]. exists d0. auto.
Qed.

(** ** Taking a chunk out of the index *)

Context (Hidle : idle d0 (hoard s0)) (Hwf : hoard_wf d0).

(** Only the entry in a slot is gone. *)
Definition slot_dropped (o : Z) (d : hoard_db) : Prop :=
  hoard_wf d /\ (forall t o' l, slot_entry d t o' l <-> slot_entry d0 t o' l /\ o' <> o) /\ hd_chunks d = hd_chunks d0 /\
  spared d0 d.

Lemma invalidate_slot_triple fs o X :
  fs `suffix_of` faults (hoard s0) ->
  triple (act s0 fs untouched (fun d _ => d = d0)) (call (_hoard_invalidate_slot_chunk o) : pk hoard_state () _)
    (result_is s0 fs untouched False (fun d _ => slot_dropped o d)) X.
Proof.
  intros Hfs. apply triple_call_body.
  apply (hoard_stmt_step s0 fs Hfs untouched False _ _ (fun _ d _ => slot_dropped o d) (fun _ => _)).
  { intros d _ ->. destruct (empty_slot_ok d0 Hwf o) as (d' & n & ? & _ & ? & ? & ? & ?). eexists _, _. by split. }
  intros _. by apply success_step.
Qed.

Lemma invalidate_slot_spec o :
  exists s, hoard_invalidate_slot_chunk o s0 = Some ((), s) /\ wrapped (slot_dropped o) s.
Proof. apply wrapper_spec; [done|]. intros fs Hfs X. by apply invalidate_slot_triple. Qed.

(** Only the entry in the table of chunks is gone. *)
Definition chunk_dropped (o : Z) (tag : list Z) (d : hoard_db) : Prop :=
  hoard_wf d /\ hd_slots d = hd_slots d0 /\ hc_offset <$> hd_chunks d = hc_offset <$> hd_chunks d0 /\ spared d0 d /\
  (forall r, r ∈ hd_chunks d -> is_Some (hc_tag r) -> r ∈ hd_chunks d0) /\
  forall t o' l, chunk_entry d t o' l <-> chunk_entry d0 t o' l /\ ~ (o' = o /\ t = tag).

Lemma empty_chunk_ok o tag :
  hc_offset <$> filter (fun r => hc_offset r = o /\ hc_tag r = Some tag) (hd_chunks d0) <> [] ->
  exists d n, sql_empty_chunk o d0 = inr (d, n) /\ chunk_dropped o tag d.
Proof.
  intros Hne. destruct (filter _ (hd_chunks d0)) as [|r l] eqn:Hfl; [done|]. assert (r ∈ r :: l) as Hin by (by left).
  rewrite <- Hfl in Hin. apply list_elem_of_filter in Hin as [[Ho Ht] Hr].
  assert (forall q, q ∈ hd_chunks d0 -> hc_offset q = o -> hc_tag q = Some tag) as Hq.
  { intros q Hq Hqo. pose proof (offset_inj hc_offset _ _ _ (wf_chunk_offsets d0 Hwf) Hq Hr ltac:(congruence)) as ->. done. }
  destruct (emptied_ok d0 Hwf (fun q => hc_offset q = o)) as (Hwf' & Hsp & He).
  { intros q Hqin Hqo. by rewrite (Hq q). }
  eexists _, _. split; [done|]. split; [done|]. split; [done|]. split; [by apply update_fmap|]. split; [done|].
  split; [by intros r' (r0 & Hr0 & [[_ ->]|[_ ->]])%elem_of_update Hsome; [destruct Hsome|]|].
  intros t o' l'. rewrite He. split.
  - intros (q & Hqin & Hno & Hqt & <- & Hl). split; [by exists q|]. by intros [? _].
  - intros [(q & Hqin & Hqt & <- & Hl) Hno]. exists q. split_and!; try done. intros Hqo. apply Hno.
    split; [done|]. specialize (Hq q Hqin Hqo). congruence.
Qed.

Lemma invalidate_chunk_triple fs o tag X :
  fs `suffix_of` faults (hoard s0) ->
  triple (act s0 fs untouched (fun d _ => d = d0)) (call (_hoard_invalidate_chunk o tag) : pk hoard_state () _)
    (result_is s0 fs untouched False (fun d _ => chunk_dropped o tag d)) X.
Proof.
  intros Hfs. apply triple_call_body. eapply triple_bind.
  { apply (hrun_ok s0 fs Hfs untouched False _ _ (fun rows d _ => d = d0 /\
      rows = hc_offset <$> filter (fun r => hc_offset r = o /\ hc_tag r = Some tag) (hd_chunks d0))).
    intros d _ ->. by eexists _, _. }
  intros [ok rows] s (Hok & Hout). rewrite !bind_gets. simpl in *. destruct Hout as [(-> & Ha & Hr)|[-> Hb]].
  2:{ destruct (no_row s ltac:(done)) as [-> ->]. eexists _, _. by split. }
  assert (rows = hc_offset <$> filter (fun r => hc_offset r = o /\ hc_tag r = Some tag) (hd_chunks d0)) as Hrows.
  { by destruct Ha as (d & _ & _ & _ & _ & ?). }
  unfold query_ok, query_has_row. rewrite Hr. destruct rows as [|x rows]; simpl.
  - eexists _, _. split; [done|]. simpl. unfold result_is. simpl. eapply act_weaken; [|exact Ha].
    intros d _ [-> _]. split; [done|]. split; [done|]. split; [done|]. split; [done|]. split; [done|]. intros t o' l. split; [|by intros [? _]].
    intros He. split; [done|]. intros [-> ->]. destruct He as (r & Hr' & Ht & Ho & _).
    assert (r ∈ filter (fun r => hc_offset r = o /\ hc_tag r = Some tag) (hd_chunks d0)) as Hin
      by (by apply list_elem_of_filter).
    symmetry in Hrows. apply fmap_nil_inv in Hrows. rewrite Hrows in Hin. by apply not_elem_of_nil in Hin.
  - clear Hr Hok. revert s Ha.
    apply (hoard_stmt_step s0 fs Hfs untouched False _ _ (fun _ d _ => chunk_dropped o tag d) (fun _ => _)).
    { intros d _ [-> _]. destruct (empty_chunk_ok o tag) as (d' & n & ? & ?); [by rewrite <- Hrows|]. eauto. }
    intros _. by apply success_step.
Qed.

Lemma invalidate_chunk_spec o tag :
  exists s, hoard_invalidate_chunk o tag s0 = Some ((), s) /\ wrapped (chunk_dropped o tag) s.
Proof. apply wrapper_spec; [done|]. intros fs Hfs X. by apply invalidate_chunk_triple. Qed.

(** ** Looking a chunk up *)

Context (tag : list Z).

Definition in_slot : Prop := exists o l, slot_entry d0 tag o l.

Definition found (r : pk_err + Z * Z * bool) : Prop :=
  match r with
  | inl err => err <> PK_SUCCESS /\ (err = PK_NOTFOUND /\ ~ indexed d0 tag \/ ~ hoard_fair s0)
  | inr (o, l, true) => exists l', slot_entry d0 tag o l' /\ l = s32 l'
  | inr (o, l, false) => ~ in_slot /\ exists l', chunk_entry d0 tag o l' /\ l = s32 l'
  end.

Definition find_post (r : pk_err + Z * Z * bool) (s : hoard_state) : Prop :=
  frame s0 untouched s /\ faults (hoard s) `suffix_of` faults (hoard s0) /\ idle d0 (hoard s) /\ found r.

Local Abbreviation find_error := (fun (r : pk_err + Z * Z * bool) (_ : nat) => found r).
Local Abbreviation find_exit fs := (tx_exit_at fs d0 (frame s0 untouched) find_post find_error).
Local Abbreviation at_start fs := (act s0 fs untouched (fun d _ => d = d0)).

Lemma find_failed fs s : bad s0 fs untouched False s -> find_exit fs (Goto_bad (inl PK_IOERR)) s.
Proof. intros (? & ? & ? & Hnf & _). split_and!; try done. intros Hnb. split; [done|]. right. auto. Qed.

Lemma find_commit {A} fs r (Q : A -> hoard_state -> Prop) :
  fs `suffix_of` faults (hoard s0) -> found r ->
  triple (at_start fs) (ok ← try_db commit; if ok : bool then ret r else goto_bad (inl PK_IOERR)) Q (find_exit fs).
Proof.
  intros Hfs Hr. apply (commit_step s0 fs Hfs untouched).
  - by intros d s Hi Hsuf Hfr ->.
  - intros n Hn _. split; [done|]. by right.
Qed.

Lemma slot_rows_found rows o l rest :
  rows = (fun r => (hs_offset r, hs_length r)) <$> filter (fun r => hs_tag r = Some tag) (hd_slots d0) ->
  rows = (o, l) :: rest -> found (inr (s32 o, s32 l, true)).
Proof.
  intros -> Hr. destruct (filter _ (hd_slots d0)) as [|r q] eqn:Hfl; [done|]. simpl in Hr. simplify_eq.
  assert (r ∈ r :: q) as Hin by (by left). rewrite <- Hfl in Hin. apply list_elem_of_filter in Hin as [Ht Hr].
  exists (hs_length r). split; [|done]. rewrite s32_id by apply (slot_aligned d0 Hwf r Hr). by exists r.
Qed.

Lemma no_slot_rows :
  (fun r => (hs_offset r, hs_length r)) <$> filter (fun r => hs_tag r = Some tag) (hd_slots d0) = [] -> ~ in_slot.
Proof.
  intros Hn%fmap_nil_inv (o & l & r & Hr & Ht & _).
  assert (r ∈ filter (fun r => hs_tag r = Some tag) (hd_slots d0)) as Hin by (by apply list_elem_of_filter).
  rewrite Hn in Hin. by apply not_elem_of_nil in Hin.
Qed.

Lemma chunk_rows_found rows : ~ in_slot ->
  rows = (fun r => (hc_offset r, hc_length r)) <$> filter (fun r => hc_tag r = Some tag) (hd_chunks d0) ->
  match rows with
  | [] => found (inl PK_NOTFOUND)
  | (o, l) :: _ => found (inr (s32 o, s32 l, false))
  end.
Proof.
  intros Hns ->. destruct (filter _ (hd_chunks d0)) as [|r q] eqn:Hfl; simpl.
  - split; [done|]. left. split; [done|]. intros (o & l & [He|(r & Hr & Ht & _)]); [apply Hns; by exists o, l|].
    assert (r ∈ filter (fun r => hc_tag r = Some tag) (hd_chunks d0)) as Hin by (by apply list_elem_of_filter).
    rewrite Hfl in Hin. by apply not_elem_of_nil in Hin.
  - assert (r ∈ r :: q) as Hin by (by left). rewrite <- Hfl in Hin. apply list_elem_of_filter in Hin as [Ht Hr].
    split; [done|]. exists (hc_length r). split; [|done]. rewrite s32_id by apply (wf_aligned d0 Hwf r Hr). by exists r.
Qed.

(** The second query of hoard_get_chunk. *)
Lemma find_in_chunks fs :
  fs `suffix_of` faults (hoard s0) -> ~ in_slot ->
  triple (at_start fs) (
    '(_, rows) ← hrun (sql_chunk_by_tag tag);
    ok ← gets (fun s => query_ok (hoard s));
    has ← gets (fun s => query_has_row (hoard s));
    if ok : bool then
      ok ← try_db commit;
      if ok : bool then ret (inl PK_NOTFOUND) else goto_bad (inl PK_IOERR)
    else if negb has then goto_bad (inl PK_IOERR)
    else match rows with [] => fault | (offset, clen) :: _ => pk_ret (s32 offset, s32 clen, false) end)
    (fun r s => at_start fs s /\ found (inr r)) (find_exit fs).
Proof.
  intros Hfs Hns. eapply triple_bind.
  { apply (hrun_ok s0 fs Hfs untouched False _ _ (fun rows d _ =>
      rows = (fun r => (hc_offset r, hc_length r)) <$> filter (fun r => hc_tag r = Some tag) (hd_chunks d0) /\ d = d0)).
    intros d _ ->. by eexists _, _. }
  intros [ok rows] s (Hok & Hout). rewrite !bind_gets. simpl in *. destruct Hout as [(-> & Ha & Hr)|[-> Hb]].
  2:{ destruct (no_row s ltac:(done)) as [-> ->]. eexists _, _. split; [done|]. by apply find_failed. }
  apply act_pure in Ha as [Hrows Ha]. pose proof (chunk_rows_found rows Hns Hrows) as Hfound.
  unfold query_ok, query_has_row. rewrite Hr. destruct rows as [|[o l] rows]; simpl.
  - by apply find_commit.
  - eexists _, _. split; [done|]. by split.
Qed.

Lemma find_body_ok fs :
  fs `suffix_of` faults (hoard s0) -> tx_body_at d0 (frame s0 untouched) find_post find_error (hoard_find_body tag) fs.
Proof.
  intros Hfs. apply (tx_begin fs d0 (frame s0 untouched) _ _ (inl PK_IOERR) (fun _ => _)); [intros; by apply frame_db| |].
  { intros s Hs Hw Hfr Hn Hlt. split_and!; try done; [by etrans|]. split; [done|]. right. by eapply not_fair. }
  eapply triple_pre with (P' := at_start fs).
  2:{ intros s (Ha & Hw & Hfr). exists d0. by split_and!. }
  eapply triple_bind.
  { apply (hrun_ok s0 fs Hfs untouched False _ _ (fun rows d _ =>
      rows = (fun r => (hs_offset r, hs_length r)) <$> filter (fun r => hs_tag r = Some tag) (hd_slots d0) /\ d = d0)).
    intros d _ ->. by eexists _, _. }
  intros [ok rows] s (Hok & Hout). simpl in *. destruct Hout as [(-> & Ha & Hr)|[-> Hb]]; simpl.
  2:{ eexists _, _. split; [done|]. by apply find_failed. }
  apply act_pure in Ha as [Hrows Ha]. unfold query_has_row. rewrite bind_gets, Hr.
  destruct rows as [|[o l] rows]; simpl.
  + clear Hok Hr. revert s Ha.
    eapply triple_bind; [apply find_in_chunks; [done|]; by apply no_slot_rows|].
    intros r s [Ha Hfd]. by apply find_commit.
  + rewrite bind_ret. apply find_commit; try done. by eapply slot_rows_found.
Qed.

Lemma hoard_find_spec : exists r s, hoard_find_chunk tag s0 = Some (r, s) /\ find_post r s.
Proof.
  destruct (transaction_spec_at (R:=pk_err + Z * Z * bool) (faults (hoard s0)) d0 (frame s0 untouched) find_post find_error
    (hoard_find_body tag) s0) as (r & s & Hr & Hpost); try done.
  - intros fs Hfs. by apply find_body_ok.
  - intros b s. apply frame_db.
  - apply within_refl.
  - exists r, s. split; [done|]. destruct Hpost as [?|(? & ? & ? & ?)]; done.
Qed.
End reading.

(** * Reading a chunk *)

Local Abbreviation idx s := (data (hoard s)).
Local Abbreviation unchanged s := (frame s (untouched s)).

Lemma unchanged_trans s1 s2 s3 : unchanged s1 s2 -> unchanged s2 s3 -> unchanged s1 s3.
Proof. unfold untouched. intros [? ? ? ?] [? ? ? ?]. split; try congruence. by etrans. Qed.

Lemma fair_later s s' : unchanged s s' -> faults (hoard s') `suffix_of` faults (hoard s) -> hoard_fair s -> hoard_fair s'.
Proof.
  intros [_ _ Hio _] [k Hk] [Hc He]. rewrite Hk in Hc. apply Forall_app in Hc as [_ ?]. split; [done|].
  rewrite He in Hio. by apply suffix_nil_inv in Hio.
Qed.

(** The state in which the hoard cache of a parcel is used. *)
Record usable (s : hoard_state) : Prop := mk_usable {
  u_idle : idle (idx s) (hoard s);
  u_wf : hoard_wf (idx s);
  u_chunksize : chunksize (h_parcel s) = SLOT_SIZE;
  u_crypto : crypto (h_parcel s) = IU_CHUNK_CRY_AES_SHA1;
  u_bytes : bytes (hoard_file s)
}.

Definition readable (f : list Z) (tag : list Z) (o len : Z) : Prop :=
  0 <= o /\ 0 < len <= SLOT_SIZE /\ Z.of_nat (length (content f o len)) = len /\
  Fips180.sha1 (content f o len) = tag.

Lemma hoard_read_spec s tag o len :
  usable s ->
  exists err buf s', _hoard_read_chunk o (s32 len) (crypto (h_parcel s)) tag s = Some ((err, buf), s') /\
    hoard s' = hoard s /\ unchanged s s' /\
    (err = PK_SUCCESS -> Fips180.sha1 buf = tag /\ 0 < Z.of_nat (length buf) <= SLOT_SIZE) /\
    (hoard_io s = [] -> readable (hoard_file s) tag o len -> err = PK_SUCCESS).
Proof.
  intros [Hi Hwf Hcs Hcry Hb]. unfold _hoard_read_chunk, body. rewrite bind_gets, Hcry, Hcs.
  change (iu_chunk_crypto_hashlen IU_CHUNK_CRY_AES_SHA1) with 20%nat. case_decide as Htag.
  { eexists _, _, _. split; [done|]. split_and!; try done. intros _ (_ & _ & _ & Ht).
    destruct Htag. rewrite <- Ht. apply length_sha1. }
  case_decide as Hguard.
  { eexists _, _, _. split; [done|]. split_and!; try done. intros _ (? & ? & _ & _).
    unfold SLOT_SIZE in *. rewrite s32_id, u32_id in Hguard by (unfold is_u; lia). lia. }
  assert (exists lim s', hoard_next_io (R:=pk_err * list Z) s = Some (inl lim, s') /\ hoard s' = hoard s /\ unchanged s s' /\
    (hoard_io s = [] -> lim = None)) as (lim & s' & Hio & Hdb & Hun & Hlim).
  { unfold hoard_next_io. destruct (hoard_io s) as [|x rest] eqn:Hio; eexists _, _; (split; [done|]).
    - by split_and!.
    - split_and!; try done. split; try done. rewrite Hio. simpl. by apply suffix_cons_r. }
  rewrite (bind_step _ _ _ _ _ Hio), bind_gets.
  pose proof (fr_file _ _ _ Hun) as Hfile. unfold untouched in Hfile. rewrite Hfile.
  set (buf := range _ _ _). case_decide as Hlen.
  { eexists _, _, _. split; [done|]. split_and!; try done. intros Hnil (Ho & Hl & Hfull & _). destruct Hlen.
    unfold buf. rewrite (Hlim Hnil). unfold SLOT_SIZE in *. simpl. rewrite s32_id by lia. exact Hfull. }
  assert (bytes buf) as Hbuf by (by apply bytes_range). rewrite digest_sha1 by done. case_decide as Ht.
  - eexists _, _, _. split; [done|]. split_and!; try done. intros Hnil (Ho & Hl & Hfull & Hsha). destruct Ht.
    rewrite <- Hsha. f_equal. unfold buf. rewrite (Hlim Hnil). unfold SLOT_SIZE in *. simpl. by rewrite s32_id by lia.
  - eexists _, _, _. split; [done|]. split_and!; try done. intros _. split; [done|]. rewrite Hlen. split; [lia|].
    assert (s32 len < 2 ^ 32).
    { unfold s32, u32. pose proof (Z.mod_pos_bound len (2 ^ 32)). case_decide; lia. }
    rewrite u32_id in Hguard by (unfold is_u; lia). lia.
Qed.

(** ** A round that fails *)

Definition slot_with (d : hoard_db) (tag : list Z) : Prop := Exists (fun r => hs_tag r = Some tag) (hd_slots d).
Definition chunk_with (d : hoard_db) (tag : list Z) : Prop := Exists (fun r => hc_tag r = Some tag) (hd_chunks d).

Lemma slot_with_entry d tag : slot_with d tag <-> exists o l, slot_entry d tag o l.
Proof.
  unfold slot_with, slot_entry. rewrite Exists_exists. split; [|by intros (o & l & r & Hr & Ht & _); eauto].
  intros (r & Hr & Ht). exists (hs_offset r), (hs_length r), r. by split_and!.
Qed.

Lemma chunk_with_entry d tag : chunk_with d tag <-> exists o l, chunk_entry d tag o l.
Proof.
  unfold chunk_with, chunk_entry. rewrite Exists_exists. split; [|by intros (o & l & r & Hr & Ht & _); eauto].
  intros (r & Hr & Ht). exists (hc_offset r), (hc_length r), r. by split_and!.
Qed.

#[global] Instance indexed_dec d tag : Decision (indexed d tag).
Proof.
  destruct (decide (slot_with d tag)) as [Hs|Hs], (decide (chunk_with d tag)) as [Hc|Hc];
    rewrite slot_with_entry in Hs; rewrite chunk_with_entry in Hc.
  1,2: left; destruct Hs as (o & l & ?); exists o, l; by left.
  - left. destruct Hc as (o & l & ?). exists o, l. by right.
  - right. intros (o & l & [?|?]); eauto.
Defined.

(** The number of tables that have the tag. *)
Definition rank (d : hoard_db) (tag : list Z) : nat :=
  Nat.b2n (bool_decide (slot_with d tag)) + Nat.b2n (bool_decide (chunk_with d tag)).

(** An entry of [tag], at [o], has been dropped. *)
Record dropped (tag f : list Z) (o len : Z) (d d' : hoard_db) : Prop := mk_dropped {
  dr_wf : hoard_wf d';
  dr_offsets : hc_offset <$> hd_chunks d' = hc_offset <$> hd_chunks d;
  dr_sound : sound d f -> sound d' f;
  dr_others t : t <> tag -> indexed d t <-> indexed d' t;
  dr_only : indexed d' tag -> indexed d tag;
  dr_rank : (rank d' tag < rank d tag)%nat;
  dr_keep : sound d f -> indexed d' tag \/ readable f tag o len
}.

Lemma sound_readable d f tag o len : hoard_wf d -> sound d f -> firm d tag o len -> readable f tag o len.
Proof.
  intros Hwf Hs Hf. destruct (Hs tag o len Hf) as (? & ? & ?). split_and!; try done; try lia.
  by eapply (entry_aligned d Hwf), firm_entry.
Qed.

Lemma sound_firm d d' f : (forall t o l, firm d' t o l -> firm d t o l) -> sound d f -> sound d' f.
Proof. intros Hf Hs t o l ?. by apply Hs, Hf. Qed.

Lemma slot_dropped_step s tag o len :
  hoard_wf (idx s) -> slot_entry (idx s) tag o len ->
  forall d', slot_dropped s o d' -> dropped tag (hoard_file s) o len (idx s) d'.
Proof.
  intros Hwf He d' (Hwf' & Hse & Hch & _). assert (forall t o' l, chunk_entry d' t o' l <-> chunk_entry (idx s) t o' l) as Hce.
  { intros. unfold chunk_entry. by rewrite Hch. }
  assert (forall t o' l, firm d' t o' l -> firm (idx s) t o' l) as Hfirm.
  { intros t o' l. unfold firm. setoid_rewrite Hce. rewrite Hse. tauto. }
  assert (forall t l, slot_entry (idx s) t o l -> t = tag) as Huniq.
  { intros t l (r & Hr & Ht & Ho & _). destruct He as (r' & Hr' & Ht' & Ho' & _).
    pose proof (offset_inj hs_offset _ _ _ (wf_slot_offsets _ Hwf) Hr Hr' ltac:(congruence)) as ->. congruence. }
  split; [done|by rewrite Hch|by apply sound_firm| | | |].
  - intros t Hne. split; [|rewrite !indexed_firm; intros (o' & l & ?); eauto].
    intros (o' & l & [Hs|Hc]); exists o', l; [left|right; by apply Hce]. apply Hse. split; [done|].
    intros ->. by apply Hne, (Huniq t l).
  - rewrite !indexed_firm. intros (o' & l & ?). eauto.
  - unfold rank. rewrite (bool_decide_true (slot_with (idx s) tag)) by (apply slot_with_entry; eauto).
    rewrite (bool_decide_false (slot_with d' tag)); [unfold chunk_with; rewrite Hch; simpl; lia|].
    rewrite slot_with_entry. intros (o' & l & [Hs Hne]%Hse). apply Hne.
    destruct Hs as (r & Hr & Ht & <- & _), He as (r' & Hr' & Ht' & <- & _).
    by rewrite (wf_slot_tags _ Hwf r r' tag).
  - intros Hs. destruct (chunk_entry_dec (idx s) tag) as [(o' & l & Hc)|Hn].
    + left. exists o', l. right. by apply Hce.
    + right. apply (sound_readable (idx s)); [done..|]. by right.
Qed.

Lemma chunk_dropped_step s tag o len :
  hoard_wf (idx s) -> ~ in_slot s tag -> chunk_entry (idx s) tag o len ->
  forall d', chunk_dropped s o tag d' -> dropped tag (hoard_file s) o len (idx s) d'.
Proof.
  intros Hwf Hns He d' (Hwf' & Hsl & Hoff & _ & _ & Hce). assert (forall t o' l, slot_entry d' t o' l <-> slot_entry (idx s) t o' l) as Hse.
  { intros. unfold slot_entry. by rewrite Hsl. }
  assert (forall o' l, chunk_entry (idx s) tag o' l -> o' = o) as Huniq.
  { intros o' l (r & Hr & Ht & <- & _). destruct He as (r' & Hr' & Ht' & <- & _).
    by rewrite (wf_chunk_tags _ Hwf r r' tag). }
  assert (forall o' l, ~ chunk_entry d' tag o' l) as Hgone.
  { intros o' l [Hc Hne]%Hce. apply Hne. split; [by apply (Huniq o' l)|done]. }
  assert (forall t o' l, t <> tag -> chunk_entry d' t o' l <-> chunk_entry (idx s) t o' l) as Hoth.
  { intros t o' l Hne. rewrite Hce. split; [by intros [? _]|]. intros ?. split; [done|]. by intros [_ ?]. }
  assert (forall t o' l, t <> tag -> firm d' t o' l <-> firm (idx s) t o' l) as Hfirm.
  { intros t o' l Hne. unfold firm. setoid_rewrite (Hoth t); [|done..]. by rewrite Hse. }
  assert (forall o' l, ~ firm d' tag o' l) as Hnf.
  { intros o' l [Hc|[Hs _]]; [by eapply Hgone|]. apply Hns. exists o', l. by apply Hse. }
  split; [done|done| | | | |].
  - apply sound_firm. intros t o' l Hf. destruct (decide (t = tag)) as [->|Hne]; [by apply Hnf in Hf|by apply Hfirm].
  - intros t Hne. rewrite !indexed_firm. by setoid_rewrite (Hfirm t); [|done..].
  - rewrite indexed_firm. intros (o' & l & []%Hnf).
  - unfold rank. rewrite (bool_decide_true (chunk_with (idx s) tag)) by (apply chunk_with_entry; eauto).
    rewrite (bool_decide_false (chunk_with d' tag)); [unfold slot_with; rewrite Hsl; simpl; lia|].
    rewrite chunk_with_entry. by intros (o' & l & []%Hgone).
  - intros Hs. right. apply (sound_readable (idx s)); [done..|]. by left.
Qed.

(** ** hoard_get_chunk *)

Record get_post (tag : list Z) (s : hoard_state) (r : pk_err * list Z) (s' : hoard_state) : Prop := mk_get_post {
  gp_usable : usable s';
  gp_unchanged : unchanged s s';
  gp_offsets : hc_offset <$> hd_chunks (idx s') = hc_offset <$> hd_chunks (idx s);
  gp_faults : faults (hoard s') `suffix_of` faults (hoard s);
  gp_sound : sound (idx s) (hoard_file s) -> sound (idx s') (hoard_file s');
  gp_others t : t <> tag -> indexed (idx s) t <-> indexed (idx s') t;
  gp_good : r.1 = PK_SUCCESS -> Fips180.sha1 r.2 = tag /\ 0 < Z.of_nat (length r.2) <= SLOT_SIZE;
  gp_fair : hoard_fair s -> sound (idx s) (hoard_file s) ->
    (indexed (idx s) tag -> r.1 = PK_SUCCESS /\ indexed (idx s') tag) /\ (~ indexed (idx s) tag -> r.1 = PK_NOTFOUND)
}.

Lemma usable_later s s' : usable s -> unchanged s s' -> idle (idx s') (hoard s') -> hoard_wf (idx s') -> usable s'.
Proof.
  intros [_ _ Hcs Hcry Hb] [Hp _ _ Hf] Hi Hwf. unfold untouched in Hf.
  split; try done; [by rewrite Hp|by rewrite Hp|by rewrite Hf].
Qed.

Lemma idle_data {D} (d : D) b : idle d b -> data b = d.
Proof. by intros (_ & _ & ?). Qed.

(** Nothing was dropped, and nothing else changed. *)
Lemma get_post_same tag s r s' :
  usable s -> unchanged s s' -> faults (hoard s') `suffix_of` faults (hoard s) -> idle (idx s) (hoard s') ->
  (r.1 = PK_SUCCESS -> Fips180.sha1 r.2 = tag /\ 0 < Z.of_nat (length r.2) <= SLOT_SIZE) ->
  (hoard_fair s -> (indexed (idx s) tag -> r.1 = PK_SUCCESS) /\ (~ indexed (idx s) tag -> r.1 = PK_NOTFOUND)) ->
  get_post tag s r s'.
Proof.
  intros Hu Hun Hsuf Hi Hgood Hfair. pose proof (idle_data _ _ Hi) as Hd. split; rewrite ?Hd; try done.
  - eapply usable_later; [done..| |]; rewrite Hd; [done|apply Hu].
  - by rewrite (fr_file _ _ _ Hun).
  - intros Hf _. destruct (Hfair Hf). split; [|done]. auto.
Qed.

(** After an entry was dropped, the rest is up to the next rounds. *)
Lemma get_post_drop tag s s1 r s' o len :
  usable s -> unchanged s s1 -> faults (hoard s1) `suffix_of` faults (hoard s) ->
  dropped tag (hoard_file s) o len (idx s) (idx s1) -> entry (idx s) tag o len ->
  (hoard_fair s -> ~ readable (hoard_file s) tag o len) -> get_post tag s1 r s' -> get_post tag s r s'.
Proof.
  intros Hu Hun Hsuf Hdr He Hnr [Hu' Hun' Hoff Hsuf' Hsound Hoth Hgood Hfair].
  pose proof (fr_file _ _ _ Hun) as Hfile. unfold untouched in Hfile.
  assert (sound (idx s) (hoard_file s) -> sound (idx s1) (hoard_file s1)) as Hs1.
  { rewrite Hfile. apply Hdr. }
  split; try done.
  - by eapply unchanged_trans.
  - rewrite Hoff. apply Hdr.
  - by etrans.
  - auto.
  - intros t Hne. by rewrite (dr_others _ _ _ _ _ _ Hdr t Hne), (Hoth t Hne).
  - intros Hf Hs. assert (indexed (idx s1) tag) as Hi1.
    { destruct (dr_keep _ _ _ _ _ _ Hdr Hs) as [?|Hr]; [done|]. by apply Hnr in Hr. }
    destruct (Hfair (fair_later _ _ Hun Hsuf Hf) (Hs1 Hs)) as [Hyes _]. split; [auto|].
    intros Hni. destruct Hni. by exists o, len.
Qed.

(** A refusal prevented the entry from being dropped. *)
Lemma get_post_retry tag s s1 r s' :
  unchanged s s1 -> faults (hoard s1) `suffix_of` faults (hoard s) -> idx s1 = idx s -> ~ hoard_fair s ->
  get_post tag s1 r s' -> get_post tag s r s'.
Proof.
  intros Hun Hsuf Hd Hnf [Hu' Hun' Hoff Hsuf' Hsound Hoth Hgood Hfair]. rewrite Hd, (fr_file _ _ _ Hun) in *.
  split; try done; [by eapply unchanged_trans|by etrans].
Qed.

Lemma drop_round tag s o len (slot : bool) :
  usable s ->
  (if slot then slot_entry (idx s) tag o len else ~ in_slot s tag /\ chunk_entry (idx s) tag o len) ->
  exists s', (if slot then hoard_invalidate_slot_chunk o s else hoard_invalidate_chunk o tag s) = Some ((), s') /\
    wrapped s (fun d => dropped tag (hoard_file s) o len (idx s) d) s'.
Proof.
  intros Hu He. destruct slot.
  - destruct (invalidate_slot_spec s (u_idle s Hu) (u_wf s Hu) o) as (s' & Hr & Hun & Hsuf & d & Hi & Hd).
    exists s'. split; [done|]. split; [done|]. split; [done|]. exists d. split; [done|].
    destruct Hd as [?|?]; [left|by right]. apply slot_dropped_step; [apply Hu|done..].
  - destruct (invalidate_chunk_spec s (u_idle s Hu) (u_wf s Hu) o tag) as (s' & Hr & Hun & Hsuf & d & Hi & Hd).
    exists s'. split; [done|]. split; [done|]. split; [done|]. exists d. split; [done|].
    destruct He. destruct Hd as [?|?]; [left|by right]. apply chunk_dropped_step; [apply Hu|done..].
Qed.

Lemma rank_fuel d tag k : (rank d tag + k < 3 + k)%nat.
Proof. unfold rank. destruct (bool_decide (slot_with _ _)), (bool_decide (chunk_with _ _)); simpl; lia. Qed.

Lemma get_loop_spec n tag s :
  usable s -> (rank (idx s) tag + length (faults (hoard s)) < n)%nat ->
  exists r s', get_loop n tag s = Some (r, s') /\ get_post tag s r s'.
Proof.
  revert s. induction n as [|n IH]; intros s Hu Hn; [lia|]. cbn [get_loop].
  destruct (hoard_find_spec s (u_idle s Hu) (u_wf s Hu) tag) as (r & s1 & Hr & Hun1 & Hsuf1 & Hi1 & Hfound).
  rewrite Hr. cbn [mbind option_bind]. pose proof (idle_data _ _ Hi1) as Hd1.
  destruct r as [err|[[o l] slot]].
  { eexists _, _. split; [done|]. destruct Hfound as [Hne Hor]. apply get_post_same; simpl; try done.
    intros Hf. destruct Hor as [[-> Hni]|Hnf]; [by split|done]. }
  assert (usable s1) as Hu1 by (eapply usable_later; [done..| |]; rewrite Hd1; [done|apply Hu]).
  assert (exists len, l = s32 len /\ entry (idx s1) tag o len /\
    if slot then slot_entry (idx s1) tag o len else ~ in_slot s1 tag /\ chunk_entry (idx s1) tag o len) as (len & -> & He & Hwhere).
  { unfold in_slot. rewrite Hd1. destruct slot; simpl in Hfound.
    - destruct Hfound as (len & He & ->). exists len. split_and!; try done. by left.
    - destruct Hfound as (Hns & len & He & ->). exists len. split_and!; try done. by right. }
  destruct (hoard_read_spec s1 tag o len Hu1) as (err & buf & s2 & Hread & Hdb & Hun2 & Hgood & Hok).
  rewrite Hread. cbn [mbind option_bind].
  assert (unchanged s s2) as Hun by (by eapply unchanged_trans).
  case_decide as Herr.
  2:{ eexists _, _. split; [done|]. apply get_post_same; simpl; try done; rewrite ?Hdb; try done; [by auto|].
      intros _. split; [done|]. intros Hni. destruct Hni. rewrite <- Hd1. by exists o, len. }
  assert (usable s2) as Hu2.
  { eapply usable_later; [exact Hu1|done|..]; rewrite Hdb; apply Hu1. }
  assert (if slot then slot_entry (idx s2) tag o len else ~ in_slot s2 tag /\ chunk_entry (idx s2) tag o len) as Hwhere2.
  { unfold in_slot in *. by rewrite Hdb. }
  destruct (drop_round tag s2 o len slot Hu2 Hwhere2) as (s3 & Hdrop & Hun3 & Hsuf3 & d & Hi3 & Hout).
  rewrite Hdrop. cbn [mbind option_bind]. pose proof (idle_data _ _ Hi3) as Hd3. subst d.
  assert (idx s2 = idx s) as Hds by (by rewrite Hdb). rewrite Hdb in Hsuf3.
  assert (faults (hoard s3) `suffix_of` faults (hoard s)) as Hsuf by (by etrans).
  assert (unchanged s s3) as Hun' by (by eapply unchanged_trans).
  pose proof (fr_file _ _ _ Hun) as Hf2. unfold untouched in Hf2. pose proof (suffix_length _ _ Hsuf) as Hlen.
  destruct Hout as [Hdr|(Hd3 & Hlt & Hnf)].
  - assert (usable s3) as Hu3 by (eapply usable_later; [exact Hu2|done|done|apply Hdr]).
    rewrite Hds, Hf2 in Hdr. destruct (IH s3 Hu3) as (r & s' & Hr' & Hpost).
    { pose proof (dr_rank _ _ _ _ _ _ Hdr). lia. }
    exists r, s'. split; [done|]. eapply get_post_drop; try done; [by rewrite <- Hd1|].
    intros Hf Hrd. apply Herr, Hok.
    + by apply (fair_later s s1).
    + pose proof (fr_file _ _ _ Hun1) as Hf1. unfold untouched in Hf1. by rewrite Hf1.
  - assert (idx s3 = idx s) as Hds3 by congruence.
    assert (usable s3) as Hu3.
    { eapply usable_later; [exact Hu2|done|done|]. rewrite Hds3. apply Hu. }
    destruct (IH s3 Hu3) as (r & s' & Hr' & Hpost).
    { rewrite Hds3. rewrite Hdb in Hlt. apply suffix_length in Hsuf1. lia. }
    exists r, s'. split; [done|]. apply (get_post_retry tag s s3); try done.
    intros Hf. apply Hnf. apply (fair_later s s2); [done|by rewrite Hdb|done].
Qed.

(** * Garbage collection *)

(** Exactly the chunks in the table that no parcel refers to are gone. *)
Definition collected (d d' : hoard_db) : Prop :=
  hoard_wf d' /\ hd_slots d' = hd_slots d /\ spared d d' /\ hc_offset <$> hd_chunks d' = hc_offset <$> hd_chunks d /\
  (forall r, r ∈ hd_chunks d' -> hc_allocated r = true -> r ∈ hd_chunks d) /\
  forall t o l, chunk_entry d' t o l <-> chunk_entry d t o l /\ t ∈ (hd_refs d).*2.

Lemma gc_ok d : hoard_wf d -> exists d' n, sql_gc d = inr (d', n) /\ collected d d'.
Proof.
  intros Hwf. destruct (emptied_ok d Hwf (unreferenced d)) as (Hwf' & Hsp & He).
  { intros r _. unfold unreferenced. by destruct (hc_tag r). }
  eexists _, _. split; [done|]. split_and!; try done.
  { cbn [hd_chunks set_hchunks]. by rewrite update_fmap. }
  { by intros r (r0 & Hr0 & [[_ ->]|[_ ->]])%elem_of_update Ha. }
  intros t o l. rewrite He. unfold unreferenced. split.
  - intros (r & Hr & Hu & Ht & <- & <-). rewrite Ht in Hu. split; [by exists r|]. by apply dec_stable.
  - intros [(r & Hr & Ht & <- & <-) Hin]. exists r. rewrite Ht. split_and!; try done. auto.
Qed.

Definition gc_post (s : hoard_state) (err : pk_err) (s' : hoard_state) : Prop :=
  unchanged s s' /\ faults (hoard s') `suffix_of` faults (hoard s) /\
  exists d, idle d (hoard s') /\
    if decide (err = PK_SUCCESS) then collected (idx s) d else d = idx s /\ ~ hoard_fair s.

Lemma gc_body_ok s fs :
  hoard_wf (idx s) -> fs `suffix_of` faults (hoard s) ->
  triple (act s fs (untouched s) (fun d _ => d = idx s)) (
    err ← call _hoard_gc;
    if decide (err <> PK_SUCCESS) then goto_bad PK_IOERR
    else ok ← try_db commit; if ok : bool then ret PK_SUCCESS else goto_bad PK_IOERR)
    (gc_post s) (tx_exit_at fs (idx s) (unchanged s) (gc_post s) (fun r _ => r <> PK_SUCCESS /\ ~ hoard_fair s)).
Proof.
  intros Hwf Hfs. eapply triple_bind.
  { apply triple_call_body. apply (hoard_stmt_step s fs Hfs (untouched s) False _ _ (fun _ d _ => collected (idx s) d) (fun _ => _)).
    { intros d _ ->. destruct (gc_ok _ Hwf) as (d' & n & ? & ?). eauto. }
    intros _. by apply (success_step s fs (untouched s) False _ (fun d _ => collected (idx s) d)). }
  intros err. unfold result_is. case_decide as He; last first.
  { rewrite decide_True by done. apply triple_goto_bad. intros s' (Hb & Hw & Hfr & Hnf & _). split_and!; try done.
    intros Hnb. split; [done|]. by apply Hnf. }
  rewrite decide_False by (intros Hn; by apply Hn). apply (commit_step s fs Hfs (untouched s)).
  - intros d s' Hi Hsuf Hfr Hc. split; [done|]. split; [done|]. exists d. by rewrite decide_True.
  - by intros n Hn _.
Qed.

Lemma gc_tx_ok s fs :
  hoard_wf (idx s) -> fs `suffix_of` faults (hoard s) ->
  tx_body_at (idx s) (unchanged s) (gc_post s) (fun r _ => r <> PK_SUCCESS /\ ~ hoard_fair s) hoard_gc_body fs.
Proof.
  intros Hwf Hfs. apply (tx_begin fs (idx s) (unchanged s) _ _ PK_IOERR (fun _ => _)); [intros; by apply frame_db| |].
  { intros s1 Hs Hw Hfr Hn Hlt. split; [done|]. split; [by etrans|]. exists (idx s). split; [done|].
    rewrite decide_False by done. split; [done|]. by eapply not_fair. }
  eapply triple_pre; [by apply gc_body_ok|]. intros s1 (Ha & Hw & Hfr). exists (idx s). by split_and!.
Qed.

Lemma hoard_gc_spec s :
  idle (idx s) (hoard s) -> hoard_wf (idx s) ->
  exists err s', hoard_gc s = Some (err, s') /\ gc_post s err s'.
Proof.
  intros Hi Hwf.
  destruct (transaction_spec_at (faults (hoard s)) (idx s) (unchanged s) (gc_post s)
    (fun r _ => r <> PK_SUCCESS /\ ~ hoard_fair s) hoard_gc_body s) as (err & s' & Hr & Hpost); try done.
  - intros fs Hfs. by apply gc_tx_ok.
  - intros b s1. apply frame_db.
  - apply within_refl.
  - exists err, s'. split; [done|]. destruct Hpost as [?|(? & ? & ? & ? & ?)]; [done|].
    split; [done|]. split; [done|]. exists (idx s). split; [done|]. by rewrite decide_False.
Qed.

(** * Properties *)

(** A hoard cache that holds a chunk at offset 0, with a free slot after it; the disk and the
    database work, but for contention. *)
Definition demo_hoard (fs : list (option (sqlite_fault * bool))) (io : list (option nat)) : hoard_state :=
  mk_hstate (mk_parcel IU_CHUNK_CRY_AES_SHA1 0 16 SLOT_SIZE 512 20) true
    (mk_db (mk_hoard [mk_hchunk (Some (Fips180.sha1 [1; 2; 3])) 0 3 1 true; mk_hchunk None 256 0 0 false]
              [(1, Fips180.sha1 [1; 2; 3])] [] [])
       None fs false SQLITE_OK false 0)
    [1; 2; 3] io.

Lemma demo_hoard_wf tag refs : hoard_wf (mk_hoard [mk_hchunk (Some tag) 0 3 1 true; mk_hchunk None 256 0 0 false] refs [] []).
Proof.
  split; cbn [hd_chunks hd_slots].
  - by apply NoDup_cons; split; [intros [? | []%not_elem_of_nil]%elem_of_cons|apply NoDup_singleton].
  - intros r1 r2 t [->|[->|[]%not_elem_of_nil]%elem_of_cons]%elem_of_cons [->|[->|[]%not_elem_of_nil]%elem_of_cons]%elem_of_cons;
      done.
  - constructor.
  - by intros r1 r2 t Hr1%not_elem_of_nil.
  - by intros sl Hsl%not_elem_of_nil.
  - by intros r [->|[->|[]%not_elem_of_nil]%elem_of_cons]%elem_of_cons.
  - by intros r [->|[->|[]%not_elem_of_nil]%elem_of_cons]%elem_of_cons.
  - by intros sl Hsl%not_elem_of_nil.
Qed.

Lemma demo_hoard_usable fs io : usable (demo_hoard fs io).
Proof. split; try done; [apply demo_hoard_wf|by repeat constructor]. Qed.

Lemma demo_hoard_sound fs io : sound (idx (demo_hoard fs io)) (hoard_file (demo_hoard fs io)).
Proof.
  cbn [demo_hoard hoard hoard_file data]. assert (content [1; 2; 3] 0 3 = [1; 2; 3] /\ length [1; 2; 3] = 3%nat) as Hc by done.
  revert Hc. generalize [1; 2; 3]. intros f [Hc Hl] t o len [He|[(r & Hr%not_elem_of_nil & _) _]]; [|done].
  destruct He as (r & [->|[->|[]%not_elem_of_nil]%elem_of_cons]%elem_of_cons & Ht & <- & <-); [|done].
  cbn [hc_offset hc_length hc_tag] in *. injection Ht as <-. rewrite Hc, Hl. by split_and!.
Qed.

(** C15: storing a chunk in the hoard cache always ends, and whatever operations of the disk and the
    database fail on the way, the index stays well-formed and every indexed chunk readable; on success
    the chunk is indexed besides the others, on failure the index is as before, and contention alone
    never makes it fail. *)
Theorem hoard_put_chunk_atomic s tag buf :
  usable s -> hoard_dir s = true -> sound (idx s) (hoard_file s) -> has_room (idx s) ->
  bytes buf -> 0 < Z.of_nat (length buf) <= SLOT_SIZE -> Fips180.sha1 buf = tag ->
  exists err s', hoard_put_chunk tag buf s = Some (err, s') /\ usable s' /\ sound (idx s') (hoard_file s') /\
    (err = PK_SUCCESS -> forall t, indexed (idx s') t <-> indexed (idx s) t \/ t = tag) /\
    (err <> PK_SUCCESS -> idx s' = idx s /\ ~ hoard_fair s).
Proof.
  intros [Hi Hwf Hcs Hcry Hb] Hdir Hs Hroom Hbuf Hlen Htag.
  destruct (hoard_put_spec s tag buf) as (err & s' & Hr & Hfr & Hsuf & d & Hi' & Hwf' & Hs' & Hsp & _ & Hout); try done.
  pose proof (idle_data _ _ Hi') as Hd. exists err, s'. rewrite Hd. split; [done|]. split; [|split; [done|]].
  - destruct Hfr as [Hp _ _ [? _]]. split; rewrite ?Hp, ?Hd; done.
  - case_decide; split; intros; try done.
Qed.

(** C16: reading a chunk from the hoard cache always ends, also from a corrupted file; it returns only
    data with the SHA-1 that was asked for and that fits the caller's buffer, leaves the file alone,
    and takes no entry but those of the tag out of the index. *)
Theorem hoard_get_chunk_verified s tag :
  usable s ->
  exists err buf s', hoard_get_chunk tag s = Some ((err, buf), s') /\ usable s' /\ hoard_file s' = hoard_file s /\
    (err = PK_SUCCESS -> Fips180.sha1 buf = tag /\ 0 < Z.of_nat (length buf) <= chunksize (h_parcel s)) /\
    (forall t, t <> tag -> indexed (idx s) t <-> indexed (idx s') t) /\
    (sound (idx s) (hoard_file s) -> sound (idx s') (hoard_file s')).
Proof.
  intros Hu. unfold hoard_get_chunk. destruct (hoard_dir s) eqn:Hdir.
  - destruct (get_loop_spec (3 + length (faults (hoard s))) tag s Hu) as ([err buf] & s' & Hr & [Hu' Hun _ _ Hs Ho Hg _]).
    { apply rank_fuel. }
    exists err, buf, s'. split; [done|]. rewrite (u_chunksize s Hu). split_and!; try done. apply Hun.
  - exists PK_NOTFOUND, [], s. by split_and!.
Qed.

(** What the hoard cache was given it gives back: after a successful put, with no failure but
    contention, a get of the tag succeeds with data of that SHA-1 — and so does a get of every tag that
    was there before. *)
Theorem hoard_get_after_put s tag buf t :
  usable s -> hoard_dir s = true -> sound (idx s) (hoard_file s) -> has_room (idx s) -> hoard_fair s ->
  bytes buf -> 0 < Z.of_nat (length buf) <= SLOT_SIZE -> Fips180.sha1 buf = tag ->
  indexed (idx s) t \/ t = tag ->
  exists s1 buf' s2, hoard_put_chunk tag buf s = Some (PK_SUCCESS, s1) /\
    hoard_get_chunk t s1 = Some ((PK_SUCCESS, buf'), s2) /\ Fips180.sha1 buf' = t.
Proof.
  intros [Hi Hwf Hcs Hcry Hb] Hdir Hs Hroom Hf Hbuf Hlen Htag Ht.
  destruct (hoard_put_spec s tag buf) as (err & s1 & Hr & Hfr & Hsuf & d & Hi' & Hwf' & Hs' & Hsp & _ & Hout); try done.
  case_decide as He; [subst err|by destruct Hout]. pose proof (idle_data _ _ Hi') as Hd. subst d.
  destruct Hfr as [Hp Hdir' Hio [? _]]. exists s1.
  assert (usable s1) as Hu1 by (split; rewrite ?Hp; done).
  assert (hoard_fair s1) as Hf1.
  { destruct Hf as [Hc He]. split; [|rewrite He in Hio; by apply suffix_nil_inv in Hio].
    destruct Hsuf as [k Hk]. rewrite Hk in Hc. by apply Forall_app in Hc as [_ ?]. }
  unfold hoard_get_chunk. rewrite Hdir', Hdir.
  destruct (get_loop_spec (3 + length (faults (hoard s1))) t s1 Hu1) as ([err buf'] & s2 & Hr2 & [_ _ _ _ _ _ Hg Hgf]).
  { apply rank_fuel. }
  destruct (Hgf Hf1 Hs') as [Hyes _]. destruct (Hyes ltac:(by apply Hout)) as [He _]. simpl in He. subst err.
  exists buf', s2. split_and!; try done. by apply Hg.
Qed.

(** Garbage collection removes exactly the stored chunks that no parcel refers to, or, if it fails,
    nothing. *)
Theorem hoard_gc_exact s :
  usable s -> exists err s', hoard_gc s = Some (err, s') /\ usable s' /\ hoard_file s' = hoard_file s /\
    (err = PK_SUCCESS -> hd_slots (idx s') = hd_slots (idx s) /\
       forall t o l, chunk_entry (idx s') t o l <-> chunk_entry (idx s) t o l /\ t ∈ (hd_refs (idx s)).*2) /\
    (err <> PK_SUCCESS -> idx s' = idx s /\ ~ hoard_fair s).
Proof.
  intros Hu. destruct (hoard_gc_spec s (u_idle s Hu) (u_wf s Hu)) as (err & s' & Hr & Hun & Hsuf & d & Hi & Hout).
  pose proof (idle_data _ _ Hi) as Hd. subst d. exists err, s'. split; [done|].
  assert (hoard_wf (idx s')) as Hwf.
  { case_decide; [apply Hout|]. destruct Hout as [-> _]. apply Hu. }
  split; [by eapply usable_later|]. split; [apply Hun|]. case_decide; split; intros; try done.
  destruct Hout as (_ & ? & _ & _ & _ & ?). by split.
Qed.

(** Contention, and a refusal that aborts the transaction. *)
Definition demo_faults : list (option (sqlite_fault * bool)) := [None; Some (F_BUSY, false); None; Some (F_IOERR, true)].

Lemma demo_hoard_room fs io : has_room (idx (demo_hoard fs io)).
Proof. by apply Forall_cons; split; [|apply Forall_singleton]. Qed.

Lemma hoard_put_chunk_atomic_witness : exists err s',
  hoard_put_chunk (Fips180.sha1 [4; 5]) [4; 5] (demo_hoard demo_faults [Some 3%nat]) = Some (err, s') /\ usable s'.
Proof.
  destruct (hoard_put_chunk_atomic (demo_hoard demo_faults [Some 3%nat]) (Fips180.sha1 [4; 5]) [4; 5])
    as (err & s' & Hr & Hu & _); [apply demo_hoard_usable|reflexivity|apply demo_hoard_sound|apply demo_hoard_room|..].
  - by repeat constructor.
  - by unfold SLOT_SIZE.
  - reflexivity.
  - exists err, s'. by split.
Defined.

Lemma hoard_get_chunk_verified_witness : exists err buf s',
  hoard_get_chunk (Fips180.sha1 [1; 2; 3]) (demo_hoard demo_faults []) = Some ((err, buf), s') /\
  hoard_file s' = hoard_file (demo_hoard demo_faults []).
Proof.
  destruct (hoard_get_chunk_verified (demo_hoard demo_faults []) (Fips180.sha1 [1; 2; 3]) (demo_hoard_usable _ _))
    as (err & buf & s' & Hr & _ & Hf & _). exists err, buf, s'. split; [exact Hr|exact Hf].
Defined.

Lemma hoard_get_after_put_witness : exists s1 buf' s2,
  hoard_put_chunk (Fips180.sha1 [4; 5]) [4; 5] (demo_hoard [Some (F_BUSY, false)] []) = Some (PK_SUCCESS, s1) /\
  hoard_get_chunk (Fips180.sha1 [4; 5]) s1 = Some ((PK_SUCCESS, buf'), s2) /\
  Fips180.sha1 buf' = Fips180.sha1 [4; 5].
Proof.
  apply (hoard_get_after_put (demo_hoard [Some (F_BUSY, false)] [])); [apply demo_hoard_usable|reflexivity|
    apply demo_hoard_sound|apply demo_hoard_room|..].
  - by split; [apply Forall_singleton|].
  - by repeat constructor.
  - by unfold SLOT_SIZE.
  - reflexivity.
  - by right.
Defined.

Lemma hoard_gc_exact_witness : exists err s',
  hoard_gc (demo_hoard demo_faults []) = Some (err, s') /\ usable s'.
Proof.
  destruct (hoard_gc_exact (demo_hoard demo_faults []) (demo_hoard_usable _ _)) as (err & s' & Hr & Hu & _).
  exists err, s'. split; [exact Hr|exact Hu].
Defined.
