(* ===== verification/Supply.v ===== *)
(** Supply: where a chunk that is not in the local cache comes from — the hoard cache or, failing
    that, the server, whose answer goes into the hoard cache (the second half of cache_get in
    src/parcelkeeper/cache.c, and the end of transport_fetch_chunk in src/parcelkeeper/transport.c). *)

From stdpp Require Import strings.
From S2P Require Import Prelude Cipher HashStream Sha1 Hash Compress LzfStream Chunk Effects Sql Pk Util.
From S2P Require Import Transport Hoard HoardProofs HoardChunks.

#[local] Opaque Fips180.sha1.

(** The hoard cache and the connections to the server. *)
Record supply := mk_supply { stock : hoard_state; net : pool }.

Section supply.
Context `{!Curl} (url_prefix : string).

(** transport_fetch_chunk, with its call of hoard_put_chunk carried out. *)
Definition fetch_and_hoard (buf : list Z) (chunk : Z) (tag : list Z) (s : supply) :
    option (pk_err * list Z * supply) :=
  '(err, buf, len, n) ← transport_fetch_chunk (h_parcel (stock s)) url_prefix buf chunk tag (net s);
  match len with
  | None => Some (err, [], mk_supply (stock s) n)
  | Some l =>
      let data := take (Z.to_nat l) buf in
      '(_, h) ← hoard_put_chunk tag data (stock s);
      Some (err, data, mk_supply h n)
  end.

(** The part of cache_get that finds the encrypted chunk; [buf] is what its buffer holds. *)
Definition missing_chunk (buf : list Z) (chunk : Z) (tag : list Z) (s : supply) :
    option (pk_err * list Z * supply) :=
  '((err, data), h) ← hoard_get_chunk tag (stock s);
  let s := mk_supply h (net s) in
  if decide (err <> PK_SUCCESS) then fetch_and_hoard buf chunk tag s else Some (PK_SUCCESS, data, s).
End supply.

(** The parcel and the hoard cache are in order. *)
Record supply_ok (s : supply) : Prop := mk_supply_ok {
  so_usable : usable (stock s);
  so_dir : hoard_dir (stock s) = true;
  so_sound : sound (data (hoard (stock s))) (hoard_file (stock s));
  so_per_dir : chunks_per_dir (h_parcel (stock s)) <> 0;
  so_hashlen : hashlen (h_parcel (stock s)) = 20
}.

Local Abbreviation index s := (data (hoard (stock s))).

Section proofs.
Context `{curl : !Curl} (url_prefix : string).

(** What an encrypted chunk from anywhere must be. *)
Definition genuine (tag d : list Z) : Prop := Fips180.sha1 d = tag /\ 0 < Z.of_nat (length d) <= SLOT_SIZE.

Lemma supply_later s h n :
  supply_ok s -> usable h -> h_parcel h = h_parcel (stock s) -> hoard_dir h = hoard_dir (stock s) ->
  sound (data (hoard h)) (hoard_file h) -> supply_ok (mk_supply h n).
Proof. intros [? ? ? ? ?] Hu Hp Hd Hs. split; simpl; rewrite ?Hp, ?Hd; done. Qed.

Lemma put_spec s tag d :
  supply_ok s -> has_room (index s) -> bytes d -> genuine tag d ->
  exists err h, hoard_put_chunk tag d (stock s) = Some (err, h) /\
    (forall n, supply_ok (mk_supply h n)) /\ (hoard_fair (stock s) -> hoard_fair h /\ indexed (data (hoard h)) tag).
Proof.
  intros Hs Hroom Hb [Htag Hlen]. pose proof Hs as [[Hi Hwf Hcs Hcry Hf] Hdir Hsound _ _].
  destruct (hoard_put_spec (stock s) tag d) as (err & h & Hr & Hfr & Hsuf & d' & Hi' & Hwf' & Hs' & Hsp & _ & Hout); try done.
  pose proof (idle_data _ _ Hi') as Hd. subst d'. destruct Hfr as [Hp Hdir' Hio [Hb' _]]. exists err, h. split; [done|]. split.
  - intros n. apply (supply_later s); try done. split; rewrite ?Hp; done.
  - intros [Hc Hnil]. split.
    + split; [|rewrite Hnil in Hio; by apply suffix_nil_inv in Hio].
      destruct Hsuf as [k Hk]. rewrite Hk in Hc. by apply Forall_app in Hc as [_ ?].
    + case_decide; [apply Hout; by right|]. destruct Hout as [_ Hn]. by destruct Hn.
Qed.

Lemma fetch_spec s buf chunk tag :
  supply_ok s -> has_room (index s) -> Z.of_nat (length buf) = SLOT_SIZE -> bytes buf ->
  length tag = 20%nat -> tag <> Fips180.sha1 [] ->
  exists err d s', fetch_and_hoard url_prefix buf chunk tag s = Some (err, d, s') /\ supply_ok s' /\
    (err = PK_SUCCESS -> genuine tag d /\ (hoard_fair (stock s) -> hoard_fair (stock s') /\ indexed (index s') tag)) /\
    (err <> PK_SUCCESS -> exists buf' n, transport_fetch_chunk (h_parcel (stock s)) url_prefix buf chunk tag (net s) = Some (err, buf', None, n)).
Proof.
  intros Hs Hroom Hl Hb Htag Hne. pose proof Hs as [Hu Hdir Hsound Hper Hhl].
  pose proof (u_chunksize _ Hu) as Hcs. unfold fetch_and_hoard.
  destruct (transport_fetch_spec curl (h_parcel (stock s)) url_prefix buf chunk tag (net s))
    as (err & buf' & len & n & Hr & Hl' & Hb' & _ & Hlen); rewrite ?Hcs; try done; [apply Hu|]. rewrite Hr. cbn [mbind option_bind].
  destruct len as [l|].
  - destruct Hlen as (-> & Hbound & Hsha & _).
    assert (genuine tag (take (Z.to_nat l) buf')) as Hg.
    { split; [done|]. split; [|rewrite length_take; unfold SLOT_SIZE in *; lia].
      assert (take (Z.to_nat l) buf' <> []) as Hnn by (intros Hz; rewrite Hz in Hsha; exact (Hne (eq_sym Hsha))).
      clear Hsha Hne. destruct (take (Z.to_nat l) buf'); [by destruct Hnn|simpl; lia]. }
    destruct (put_spec s tag (take (Z.to_nat l) buf') Hs Hroom) as (err & h & -> & Hok & Hfair); [by apply Forall_take|done|].
    eexists _, _, _. split; [done|]. split; [done|]. by split.
  - eexists _, _, _. split; [done|]. split; [by apply (supply_later s)|].
    destruct Hlen as [Hn _]. split; [by intros|]. intros _. by exists buf', n.
Qed.

Lemma get_spec s tag :
  supply_ok s ->
  exists err d h, hoard_get_chunk tag (stock s) = Some ((err, d), h) /\ (forall n, supply_ok (mk_supply h n)) /\
    h_parcel h = h_parcel (stock s) /\ (err = PK_SUCCESS -> genuine tag d) /\
    (has_room (index s) -> has_room (data (hoard h))) /\
    (hoard_fair (stock s) -> hoard_fair h /\ (indexed (index s) tag <-> err = PK_SUCCESS) /\
       (indexed (index s) tag -> indexed (data (hoard h)) tag)).
Proof.
  intros Hs. pose proof Hs as [Hu Hdir Hsound _ _]. unfold hoard_get_chunk. rewrite Hdir.
  destruct (get_loop_spec (3 + length (faults (hoard (stock s)))) tag (stock s) Hu) as ([err d] & h & Hr & [Hu' Hun Hoff Hsuf Hs' _ Hg Hf]).
  { apply rank_fuel. }
  exists err, d, h. split; [done|]. split; [|split_and!; try done].
  - intros n. apply (supply_later s); try done; [apply Hun|apply Hun|by apply Hs'].
  - apply Hun.
  - unfold has_room. by rewrite Hoff.
  - intros Hfair. destruct (Hf Hfair Hsound) as [Hyes Hno]. simpl in *. split; [by eapply fair_later|]. split; [split|].
    + intros Hi. by apply Hyes.
    + intros ->. destruct (indexed_dec (index s) tag) as [?|Hn]; [done|]. by specialize (Hno Hn).
    + intros Hi. by apply Hyes.
Qed.

(** A chunk in the hoard cache is found there. *)
Lemma found_again s tag :
  supply_ok s -> hoard_fair (stock s) -> indexed (index s) tag -> forall buf chunk, exists d s',
    missing_chunk url_prefix buf chunk tag s = Some (PK_SUCCESS, d, s') /\ genuine tag d /\ net s' = net s.
Proof.
  intros Hs Hf Hi buf chunk. destruct (get_spec s tag Hs) as (err & d & h & Hr & _ & _ & Hg & _ & Hfair).
  destruct (Hfair Hf) as (_ & Hyes & _). apply Hyes in Hi. subst err. unfold missing_chunk. rewrite Hr.
  cbn [mbind option_bind]. rewrite decide_False by (intros Hn; by apply Hn). eexists _, _. split; [done|]. auto.
Qed.
End proofs.

(** * Properties *)

(** C28: a chunk that is not in the local cache is got from the hoard cache or, failing that, the server.
    Whatever fails and whatever the server sends, the search ends with the hoard cache in order, and with a
    success returns only data with the SHA-1 asked for. If the hoard cache has the chunk and nothing but
    contention fails in it, the chunk comes from there, without the network; the search fails only if it
    does not come from there and the transfers fail, and then with their error. When the chunk has been found
    without other failures of the hoard cache than contention, the next search finds it there, without the
    network. *)
Theorem missing_chunk_supplied (curl : Curl) url_prefix s buf chunk tag :
  supply_ok s -> has_room (index s) -> Z.of_nat (length buf) = SLOT_SIZE -> bytes buf ->
  length tag = 20%nat -> tag <> Fips180.sha1 [] ->
  exists err d s', missing_chunk url_prefix buf chunk tag s = Some (err, d, s') /\ supply_ok s' /\
    (hoard_fair (stock s) -> indexed (index s) tag -> err = PK_SUCCESS /\ net s' = net s) /\
    if decide (err = PK_SUCCESS) then
      genuine tag d /\
      (hoard_fair (stock s) -> forall buf' chunk', exists d' s'',
         missing_chunk url_prefix buf' chunk' tag s' = Some (PK_SUCCESS, d', s'') /\ genuine tag d' /\ net s'' = net s')
    else exists buf' n, transport_fetch_chunk (h_parcel (stock s)) url_prefix buf chunk tag (net s) = Some (err, buf', None, n).
Proof.
  intros Hs Hroom Hl Hb Htag Hne.
  destruct (get_spec s tag Hs) as (err & d & h & Hr & Hok & Hpar & Hg & Hroom' & Hfair). unfold missing_chunk at 1. rewrite Hr.
  cbn [mbind option_bind]. destruct (decide (err <> PK_SUCCESS)) as [Herr|Herr].
  - destruct (fetch_spec url_prefix (mk_supply h (net s)) buf chunk tag) as (err' & d' & s' & -> & Hs' & Hgot & Hno); [done|by apply Hroom'|done..|].
    exists err', d', s'. split; [done|]. split; [done|]. split; [intros Hf Hi; destruct (Hfair Hf) as (_ & Hyes & _); by apply Hyes in Hi|].
    simpl in Hno. rewrite Hpar in Hno. case_decide as He; [|by apply Hno].
    destruct (Hgot He) as [? Hidx]. split; [done|]. intros Hf. destruct (Hidx ltac:(by apply Hfair)). by apply found_again.
  - apply dec_stable in Herr as ->. exists PK_SUCCESS, d, (mk_supply h (net s)). split; [done|]. split; [done|]. split; [done|].
    rewrite decide_True by done. split; [by apply Hg|]. intros Hf. destruct (Hfair Hf) as (Hf' & Hyes & Hkeep).
    apply found_again; [done|done|]. by apply Hkeep, Hyes.
Qed.

Definition demo_supply : supply := mk_supply (demo_hoard [Some (F_BUSY, false)] []) (mk_pool 1 0 0 []).
Definition demo_tag : list Z := Fips180.sha1 demo_data.

Lemma demo_supply_ok : supply_ok demo_supply.
Proof. split; [apply demo_hoard_usable|reflexivity|apply demo_hoard_sound|by cbn|reflexivity]. Qed.

(** Two transfers fail, the third one succeeds. *)
Lemma demo_fetched : exists buf l n,
  transport_fetch_chunk (H:=demo_curl) (h_parcel (stock demo_supply)) "http://srv" (replicate (Z.to_nat SLOT_SIZE) 0) 7 demo_tag
    (net demo_supply) = Some (PK_SUCCESS, buf, Some l, n).
Proof.
  destruct (transport_fetch_chunk_retries demo_curl (h_parcel (stock demo_supply)) "http://srv" (replicate (Z.to_nat SLOT_SIZE) 0) 7
    (net demo_supply) 2 0) as (buf & n & Hr & _).
  - by split.
  - by cbn.
  - reflexivity.
  - reflexivity.
  - rewrite length_replicate. reflexivity.
  - apply Forall_replicate. by split.
  - reflexivity.
  - lia.
  - reflexivity.
  - intros [|[|m]] b Hm; [by destruct b..|lia].
  - by cbn.
  - reflexivity.
  - eexists _, _, _. exact Hr.
Qed.

Lemma demo_tag_ne : demo_tag <> Fips180.sha1 [].
Proof. apply (bool_decide_unpack _). vm_compute. exact I. Qed.

(** The chunk is not in the hoard cache: the third transfer from the server brings it, and the next search,
    for the same chunk of another version of the parcel, does not need the network. *)
Lemma missing_chunk_supplied_witness :
  exists d s' d' s'', missing_chunk (H:=demo_curl) "http://srv" (replicate (Z.to_nat SLOT_SIZE) 0) 7 demo_tag demo_supply =
    Some (PK_SUCCESS, d, s') /\ Fips180.sha1 d = demo_tag /\
    missing_chunk (H:=demo_curl) "http://srv" [] 8 demo_tag s' = Some (PK_SUCCESS, d', s'') /\ net s'' = net s'.
Proof.
  destruct (missing_chunk_supplied demo_curl "http://srv" demo_supply (replicate (Z.to_nat SLOT_SIZE) 0) 7 demo_tag)
    as (err & d & s' & Hr & _ & _ & Hcase).
  - apply demo_supply_ok.
  - apply demo_hoard_room.
  - rewrite length_replicate. reflexivity.
  - apply Forall_replicate. by split.
  - apply length_sha1.
  - apply demo_tag_ne.
  - destruct (decide (err = PK_SUCCESS)) as [->|He].
    + destruct Hcase as [[Htag _] Hagain]. destruct (Hagain ltac:(split; [repeat constructor|reflexivity]) [] 8) as (d' & s'' & Hr' & _ & Hn).
      exists d, s', d', s''. split; [exact Hr|]. split; [exact Htag|]. split; [exact Hr'|exact Hn].
    + destruct Hcase as (buf' & n & Hf). destruct demo_fetched as (buf'' & l & n' & Hf'). rewrite Hf' in Hf. discriminate Hf.
Defined.
