(* ===== verification/HoardAdmin.v ===== *)
(** HoardAdmin: the rest of src/parcelkeeper/hoard.c — the table of parcels, the references that keep
    chunks alive, the cleanup at shutdown, and the creation and upgrade of the index. *)

From stdpp Require Import strings.
From S2P Require Import Prelude Cipher HashStream Sha1 Hash Compress LzfStream Chunk Effects Sql SqlConn Pk Hoard HoardProofs HoardChunks.

(** * Parcels *)

(** The next INTEGER PRIMARY KEY. *)
Definition next_parcel (t : list hparcel) : Z := foldr Z.max 0 (hp_parcel <$> t) + 1.

(** INSERT OR IGNORE INTO parcels (uuid, server, user, name) VALUES (?, ?, ?, ?) *)
Definition sql_insert_parcel (uuid server user name : string) : hq Z := fun d =>
  if decide (uuid ∈ hp_uuid <$> hd_parcels d) then inr (d, [0])
  else inr (set_hparcels (hd_parcels d ++ [mk_hparcel (next_parcel (hd_parcels d)) uuid server user name]) d, [1]).

(** SELECT parcel FROM parcels WHERE uuid == ? *)
Definition sql_parcel_by_uuid (uuid : string) : hq Z := fun d =>
  inr (d, hp_parcel <$> filter (fun r => hp_uuid r = uuid) (hd_parcels d)).

(** UPDATE parcels SET server = ?, user = ?, name = ? WHERE parcel == ? AND (server != ? OR user != ? OR
    name != ?) *)
Definition sql_update_parcel (ident : Z) (server user name : string) : hq Z := fun d =>
  let stale r := hp_parcel r = ident /\ (hp_server r <> server \/ hp_user r <> user \/ hp_name r <> name) in
  inr (set_hparcels (update stale (fun r => mk_hparcel (hp_parcel r) (hp_uuid r) server user name) (hd_parcels d)) d,
       changes stale (hd_parcels d)).

(** The result, and state->hoard_ident. *)
Definition ident_steps (uuid server user name : string) : pk hoard_state (pk_err * Z) (pk_err * Z) :=
  '(ok, _) ← hrun (sql_insert_parcel uuid server user name);
  if negb ok then goto_bad (PK_IOERR, 0)
  else
    '(_, rows) ← hrun (sql_parcel_by_uuid uuid);
    has ← gets (fun s => query_has_row (hoard s));
    if negb has then goto_bad (PK_IOERR, 0)
    else
      match rows with
      | [] => fault
      | i :: _ =>
          let ident := s32 i in
          '(ok, _) ← hrun (sql_update_parcel ident server user name);
          if negb ok then goto_bad (PK_IOERR, 0)
          else
            ok ← try_db commit;
            if ok : bool then ret (PK_SUCCESS, ident) else goto_bad (PK_IOERR, 0)
      end.

Definition parcel_ident_body (uuid server user name : string) : pk hoard_state (pk_err * Z) (pk_err * Z) :=
  ok ← try_db begin; if ok : bool then ident_steps uuid server user name else ret (PK_IOERR, 0).

Definition get_parcel_ident (uuid server user name : string) := transaction (parcel_ident_body uuid server user name).

(** * Cleanup *)

(** SELECT parcel FROM parcels *)
Definition sql_parcels : hq Z := fun d => inr (d, hp_parcel <$> hd_parcels d).

(** SELECT parcel FROM refs WHERE parcel == ? LIMIT 1 *)
Definition sql_ref_of (ident : Z) : hq Z := fun d =>
  inr (d, take 1 (filter (fun p => p = ident) (hd_refs d).*1)).

(** DELETE FROM parcels WHERE parcel == ? *)
Definition sql_delete_parcel (ident : Z) : hq Z := fun d =>
  inr (set_hparcels (filter (fun r => hp_parcel r <> ident) (hd_parcels d)) d,
       changes (fun r => hp_parcel r = ident) (hd_parcels d)).

(** A slot that a process reserved and never gave back. *)
Definition orphaned (r : hchunk) : Prop := hc_allocated r = true /\ hc_tag r = None.

(** UPDATE chunks SET allocated = 0 WHERE allocated == 1 AND tag ISNULL *)
Definition sql_release_orphans : hq Z := fun d =>
  inr (set_hchunks (update orphaned release (hd_chunks d)) d, changes orphaned (hd_chunks d)).

(** The loop over the parcels, [row :: rows] being what the query has still to give. *)
Fixpoint parcels_loop (n : nat) (rows : list Z) : pk hoard_state pk_err () :=
  match n with
  | O => fault
  | S n =>
      has ← gets (fun s => query_has_row (hoard s));
      if has : bool then
        match rows with
        | [] => fault
        | i :: _ =>
            let ident := s32 i in
            '(ok, _) ← hrun (sql_ref_of ident);
            if negb ok then goto_bad PK_SQLERR
            else
              has ← gets (fun s => query_has_row (hoard s));
              _ ← (if negb has then
                     '(ok, _) ← hrun (sql_delete_parcel ident);
                     if negb ok then goto_bad PK_SQLERR else pk_ret ()
                   else pk_ret ());
              '(_, rows) ← hnext rows;
              parcels_loop n rows
        end
      else pk_ret ()
  end.

(** cleanup_action of util.c, whose message is left out. *)
Definition cleanup_action (q : hq Z) : hoard_state -> option (pk_err * hoard_state) := body (
  '(ok, _) ← hrun q; if negb ok then ret PK_IOERR else ret PK_SUCCESS).

(** [gc] says of each round, by the number of retries so far, whether it collects garbage: the flag
    WANT_GC is set and "g_random_int_range(0, 7)" is 0. *)
Definition cleanup_steps (gc : Z -> bool) : pk hoard_state pk_err pk_err :=
  '(_, rows) ← hrun sql_parcels;
  _ ← parcels_loop (S (length rows)) rows;
  ok ← gets (fun s => query_ok (hoard s));
  if negb ok then goto_bad PK_SQLERR
  else
    err ← call (cleanup_action sql_release_orphans);
    if decide (err <> PK_SUCCESS) then goto_bad err
    else
      n ← gets (fun s => retries (hoard s));
      err ← (if gc n then call _hoard_gc else pk_ret PK_SUCCESS);
      if decide (err <> PK_SUCCESS) then goto_bad err
      else
        ok ← try_db commit;
        if ok : bool then ret PK_SUCCESS else goto_bad PK_IOERR.

Definition cleanup_body (gc : Z -> bool) : pk hoard_state pk_err pk_err :=
  ok ← try_db begin; if ok : bool then cleanup_steps gc else ret PK_IOERR.

(** [lock] is the result of get_file_lock for writing. *)
Definition hoard_try_cleanup (lock : pk_err) (gc : Z -> bool) (vac : bool) (s : hoard_state) :
    option (pk_err * hoard_state) :=
  if decide (lock = PK_BUSY) then Some (PK_SUCCESS, s)
  else if decide (lock <> PK_SUCCESS) then Some (lock, s)
  else
    '(err, s) ← transaction (cleanup_body gc) s;
    if decide (err = PK_SUCCESS /\ vac = true) then '(_, b) ← vacuum (hoard s); Some (err, set_hoard b s)
    else Some (err, s).

(** The connection is closed afterwards, and with it the slot cache goes. *)
Definition hoard_shutdown (lock : pk_err) (gc : Z -> bool) (vac : bool) (s : hoard_state) : option hoard_state :=
  '(_, s) ← flush_slot_cache s;
  '(_, s) ← hoard_try_cleanup lock gc vac s;
  Some (set_hoard (set_conn (set_hslots [] (data (hoard s))) None (hoard s)) s).

(** * References *)

(** The tables of state->db that hoard_sync_refs uses: the tags of the two keyrings, the references in
    the attached hoard cache index, and its temporary table. *)
Record refs_db := mk_refs {
  rd_keys : list (list Z);
  rd_prev_keys : list (list Z);
  rd_refs : list (Z * list Z);
  rd_newrefs : option (list (list Z))
}.

Definition set_rd_refs v d := mk_refs (rd_keys d) (rd_prev_keys d) v (rd_newrefs d).
Definition set_rd_newrefs v d := mk_refs (rd_keys d) (rd_prev_keys d) (rd_refs d) v.

Definition rq (A : Type) : Type := refs_db -> stmt_error + refs_db * list A.
Definition rrun {R A} (f : rq A) : pk (db refs_db) R (bool * list A) := on_db (query (Stmt f)).

(** CREATE TEMP TABLE newrefs AS SELECT DISTINCT tag FROM keys (or prev.keys) *)
Definition sql_newrefs (new_chunks : bool) : rq () := fun d =>
  match rd_newrefs d with
  | Some _ => inl E_ERROR
  | None => inr (set_rd_newrefs (Some (remove_dups (if new_chunks then rd_keys d else rd_prev_keys d))) d, [])
  end.

(** CREATE INDEX temp.newrefs_tags ON newrefs (tag) *)
Definition sql_newrefs_index : rq () := fun d =>
  match rd_newrefs d with None => inl E_ERROR | Some _ => inr (d, []) end.

(** DELETE FROM hoard.refs WHERE parcel == ? AND tag NOT IN (SELECT tag FROM temp.newrefs) *)
Definition sql_drop_refs (ident : Z) : rq Z := fun d =>
  match rd_newrefs d with
  | None => inl E_ERROR
  | Some new =>
      let gone (r : Z * list Z) := r.1 = ident /\ ~ r.2 ∈ new in
      inr (set_rd_refs (filter (fun r => ~ gone r) (rd_refs d)) d, changes gone (rd_refs d))
  end.

(** INSERT OR IGNORE INTO hoard.refs (parcel, tag) SELECT ?, tag FROM temp.newrefs *)
Definition sql_add_refs (ident : Z) : rq Z := fun d =>
  match rd_newrefs d with
  | None => inl E_ERROR
  | Some new =>
      let fresh := filter (fun r => ~ r ∈ rd_refs d) (pair ident <$> new) in
      inr (set_rd_refs (rd_refs d ++ fresh) d, [Z.of_nat (length fresh)])
  end.

(** DROP TABLE temp.newrefs *)
Definition sql_drop_newrefs : rq () := fun d =>
  match rd_newrefs d with None => inl E_ERROR | Some _ => inr (set_rd_newrefs None d, []) end.

(** begin_immediate differs from begin in the lock it takes. *)
Definition begin_immediate {D} : db D -> option (bool * db D) := _begin true true.

(** The end of the transaction. *)
Definition insert_refs (ident : Z) : pk (db refs_db) pk_err pk_err :=
  '(ok, _) ← rrun (sql_add_refs ident);
  if negb ok then goto_bad PK_IOERR
  else
    '(ok, _) ← rrun sql_drop_newrefs;
    if negb ok then goto_bad PK_IOERR
    else
      ok ← try_db commit;
      if ok : bool then ret PK_SUCCESS else goto_bad PK_IOERR.

Definition renew_refs (ident : Z) (new_chunks : bool) : pk (db refs_db) pk_err pk_err :=
  _ ← rrun (sql_newrefs new_chunks);
  ok ← gets query_ok;
  if negb ok then goto_bad PK_IOERR
  else
    '(ok, _) ← rrun sql_newrefs_index;
    if negb ok then goto_bad PK_IOERR
    else if new_chunks then insert_refs ident
    else
      '(ok, _) ← rrun (sql_drop_refs ident);
      if negb ok then goto_bad PK_IOERR else insert_refs ident.

Definition sync_refs_body (ident : Z) (new_chunks : bool) : pk (db refs_db) pk_err pk_err :=
  ok ← try_db begin_immediate;
  if ok : bool then renew_refs ident new_chunks else ret PK_IOERR.

Definition hoard_sync_refs (hoard_dir : bool) (ident : Z) (new_chunks : bool) (b : db refs_db) : option (pk_err * db refs_db) :=
  if hoard_dir then transaction (sync_refs_body ident new_chunks) b else Some (PK_SUCCESS, b).

(** * References: what hoard_sync_refs does *)

Lemma begin_immediate_begin {D} : @begin_immediate D = begin.
Proof. reflexivity. Qed.

(** The tags that a parcel is to refer to. *)
Definition wanted (new_chunks : bool) (d : refs_db) : list (list Z) := if new_chunks then rd_keys d else rd_prev_keys d.

(** The references of the parcel are those of the keyring — besides the old ones, if only new chunks are
    to be added — and those of other parcels are as they were. *)
Definition synced (ident : Z) (new_chunks : bool) (d d' : refs_db) : Prop :=
  rd_keys d' = rd_keys d /\ rd_prev_keys d' = rd_prev_keys d /\ rd_newrefs d' = None /\
  (NoDup (rd_refs d) -> NoDup (rd_refs d')) /\
  forall p t, (p, t) ∈ rd_refs d' <->
    if decide (p = ident) then t ∈ wanted new_chunks d \/ new_chunks = true /\ (p, t) ∈ rd_refs d
    else (p, t) ∈ rd_refs d.

(** The references after the deletion, which happens unless only new chunks are to be added. *)
Definition kept_refs (ident : Z) (new_chunks : bool) (d : refs_db) : list (Z * list Z) :=
  if new_chunks then rd_refs d
  else filter (fun r => ~ (r.1 = ident /\ ~ r.2 ∈ remove_dups (wanted new_chunks d))) (rd_refs d).

Lemma sync_result ident new_chunks d :
  rd_newrefs d = None ->
  let new := remove_dups (wanted new_chunks d) in
  let kept := kept_refs ident new_chunks d in
  synced ident new_chunks d
    (mk_refs (rd_keys d) (rd_prev_keys d) (kept ++ filter (fun r => ~ r ∈ kept) (pair ident <$> new)) None).
Proof.
  intros Hn new kept. split_and!; try done.
  - intros Hnd. assert (NoDup kept) as Hk by (unfold kept, kept_refs; destruct new_chunks; [done|by apply NoDup_filter]).
    apply NoDup_app. split_and!; [done| |].
    + by intros r Hr [? _]%list_elem_of_filter.
    + apply NoDup_filter, NoDup_fmap_2; [by intros ? ? [= ->]|apply NoDup_remove_dups].
  - intros p t. cbn [rd_refs]. rewrite elem_of_app, list_elem_of_filter, list_elem_of_fmap.
    assert (forall t, t ∈ new <-> t ∈ wanted new_chunks d) as Hnew by (intros; apply elem_of_remove_dups).
    assert ((p, t) ∈ kept <-> (p, t) ∈ rd_refs d /\ (new_chunks = false -> p = ident -> t ∈ new)) as Hkept.
    { unfold kept, kept_refs. destruct new_chunks; [by split; [|intros [? _]]|]. rewrite list_elem_of_filter. simpl. fold new.
      split; [intros [Hng Hr]|intros [Hr Himp]]; (split; [try done|try done]).
      - intros _ ->. destruct (decide (t ∈ new)) as [?|Hni]; [done|]. by destruct Hng.
      - intros [-> Hni]. by apply Hni, Himp. }
    case_decide as Hp.
    + subst p. split.
      * intros [[Hr Himp]%Hkept|[_ (t' & [= <-] & Ht)]]; [|left; by apply Hnew].
        destruct new_chunks; [by right|]. left. apply Hnew, Himp; done.
      * intros Hor. destruct (decide ((ident, t) ∈ kept)) as [?|Hnk]; [by left|right]. split; [done|]. exists t. split; [done|].
        destruct Hor as [?|[-> Hr]]; [by apply Hnew|]. destruct Hnk. by apply Hkept.
    + rewrite Hkept. split; [intros [[? _]|[_ (t' & [= ? _] & _)]]; [done|congruence]|]. intros ?. left. split; [done|congruence].
Qed.

Section sync.
Context (ident : Z) (new_chunks : bool) (d : refs_db) (fs0 fs : list (option (sqlite_fault * bool))).
Context (Hfs : fs `suffix_of` fs0) (Hnew : rd_newrefs d = None).

Definition sync_done (err : pk_err) (b : db refs_db) : Prop :=
  err = PK_SUCCESS /\ within fs0 b /\ exists d', idle d' b /\ synced ident new_chunks d d'.
Definition sync_failed (err : pk_err) : Prop := err = PK_IOERR /\ ~ Forall contention fs0.

Local Abbreviation sync_exit := (tx_exit fs d (fun _ : db refs_db => True) sync_done sync_failed).
Local Abbreviation new := (remove_dups (wanted new_chunks d)).
Local Abbreviation at_data d' := (fun b => active d d' b /\ within fs b).

Lemma sync_refused : ~ Forall contention fs -> sync_failed PK_IOERR.
Proof.
  intros Hnc. split; [done|]. intros Hc. apply Hnc. destruct Hfs as [k Hk]. rewrite Hk in Hc. by apply Forall_app in Hc as [_ ?].
Qed.

Lemma insert_refs_ok :
  triple (at_data (mk_refs (rd_keys d) (rd_prev_keys d) (kept_refs ident new_chunks d) (Some new)))
    (insert_refs ident) sync_done sync_exit.
Proof.
  eapply (self_stmt fs d); [done|apply sync_refused|]. eapply (self_stmt fs d); [done|apply sync_refused|].
  eapply (self_commit fs d); [|apply sync_refused]. intros b Hi Hw. split; [done|].
  split; [by eapply within_trans|]. eexists. split; [exact Hi|]. by apply sync_result.
Qed.

Lemma renew_refs_ok : triple (at_data d) (renew_refs ident new_chunks) sync_done sync_exit.
Proof.
  eapply (self_define fs d); [unfold sql_newrefs; by rewrite Hnew|apply sync_refused|].
  eapply (self_stmt fs d); [done|apply sync_refused|]. pose proof insert_refs_ok as Hins. unfold kept_refs in Hins.
  destruct new_chunks; [exact Hins|]. eapply (self_stmt fs d); [done|apply sync_refused|exact Hins].
Qed.
End sync.

Lemma sync_refs_spec ident new_chunks d b :
  idle d b -> rd_newrefs d = None ->
  exists err b', hoard_sync_refs true ident new_chunks b = Some (err, b') /\
    within (faults b) b' /\
    (err = PK_SUCCESS /\ (exists d', idle d' b' /\ synced ident new_chunks d d') \/
     err = PK_IOERR /\ idle d b' /\ ~ Forall contention (faults b)).
Proof.
  intros Hi Hn. unfold hoard_sync_refs, sync_refs_body. rewrite begin_immediate_begin.
  destruct (self_transaction (faults b) d (sync_done ident new_chunks d (faults b)) (sync_failed (faults b)) PK_IOERR
    (renew_refs ident new_chunks) b) as (err & b' & Hr & Hpost); try done.
  - apply within_refl.
  - intros fs Hfs. by apply renew_refs_ok.
  - exists err, b'. split; [exact Hr|]. destruct Hpost as [(? & ? & ?)|(? & ? & ? & ?)]; (split; [done|]); [by left|by right].
Qed.

(** * The number of a parcel: what get_parcel_ident does *)

Local Abbreviation idx s := (data (hoard s)).

(** Numbers, of at most [m], and UUIDs identify the parcels. *)
Record parcels_wf (m : Z) (t : list hparcel) : Prop := mk_parcels_wf {
  pw_ids : NoDup (hp_parcel <$> t);
  pw_uuids : NoDup (hp_uuid <$> t);
  pw_int : Forall (fun i => 0 < i <= m) (hp_parcel <$> t)
}.

Lemma filter_parcels_wf m (P : hparcel -> Prop) `{!forall r, Decision (P r)} t : parcels_wf m t -> parcels_wf m (filter P t).
Proof.
  intros [Hi Hu Hn].
  assert (filter P t `sublist_of` t) as Hsub by apply sublist_filter. split.
  - eapply sublist_NoDup; [exact Hi|by apply fmap_sublist].
  - eapply sublist_NoDup; [exact Hu|by apply fmap_sublist].
  - rewrite !Forall_forall in *. intros i (r & -> & [_ Hr]%list_elem_of_filter)%list_elem_of_fmap. apply Hn, list_elem_of_fmap. eauto.
Qed.

(** Only the row of the parcel has changed. *)
Record parcel_known (uuid server user name : string) (ident : Z) (d d' : hoard_db) : Prop := mk_parcel_known {
  pk_row : mk_hparcel ident uuid server user name ∈ hd_parcels d';
  pk_others r : hp_uuid r <> uuid -> r ∈ hd_parcels d' <-> r ∈ hd_parcels d;
  pk_stable r : r ∈ hd_parcels d -> hp_uuid r = uuid -> hp_parcel r = ident;
  pk_number : ident ∈ hp_parcel <$> hd_parcels d \/ ident = next_parcel (hd_parcels d);
  pk_ids : NoDup (hp_parcel <$> hd_parcels d');
  pk_uuids : NoDup (hp_uuid <$> hd_parcels d');
  pk_rest : d' = set_hparcels (hd_parcels d') d
}.

Lemma next_parcel_spec m t : 0 <= m -> Forall (fun i => 0 < i <= m) (hp_parcel <$> t) ->
  0 < next_parcel t <= m + 1 /\ ~ next_parcel t ∈ hp_parcel <$> t.
Proof.
  intros Hm Ht. unfold next_parcel. destruct (foldr_max_spec 0 (hp_parcel <$> t)) as (H0 & Hl & Hin). split.
  - apply elem_of_cons in Hin as [->|Hin]; [lia|]. rewrite Forall_forall in Ht. specialize (Ht _ Hin). lia.
  - intros Hn. rewrite Forall_forall in Hl. specialize (Hl _ Hn). simpl in Hl. lia.
Qed.

Section ident.
Context (uuid server user name : string) (d : hoard_db).
Context (m : Z) (Hm : 0 <= m < 2 ^ 31 - 1) (Hwf : parcels_wf m (hd_parcels d)).

(** The table with a row for the UUID. *)
Lemma insert_parcel_ok :
  exists d1 n i, sql_insert_parcel uuid server user name d = inr (d1, n) /\ sql_parcel_by_uuid uuid d1 = inr (d1, [i]) /\
    s32 i = i /\ NoDup (hp_parcel <$> hd_parcels d1) /\ NoDup (hp_uuid <$> hd_parcels d1) /\
    d1 = set_hparcels (hd_parcels d1) d /\ (forall r, hp_uuid r <> uuid -> r ∈ hd_parcels d1 <-> r ∈ hd_parcels d) /\
    (exists r, r ∈ hd_parcels d1 /\ hp_uuid r = uuid /\ hp_parcel r = i) /\
    (forall r, r ∈ hd_parcels d -> hp_uuid r = uuid -> hp_parcel r = i) /\
    (i ∈ hp_parcel <$> hd_parcels d \/ i = next_parcel (hd_parcels d)).
Proof.
  destruct Hwf as [Hids Huuids Hint]. destruct (next_parcel_spec m _ ltac:(lia) Hint) as [Hn Hfresh].
  assert (forall t r, NoDup (hp_uuid <$> t) -> r ∈ t -> hp_uuid r = uuid -> filter (fun r => hp_uuid r = uuid) t = [r]) as Hone.
  { intros t r Hnd Hr Hu. apply list_elem_of_split in Hr as (l1 & l2 & ->). rewrite fmap_app in Hnd. simpl in Hnd.
    apply NoDup_app in Hnd as (_ & Hd & Hnd%NoDup_cons). rewrite filter_app, filter_cons, decide_True by done.
    rewrite !filter_none; [done|..]; apply Forall_forall; intros x Hx Hxu.
    - apply Hnd. rewrite Hu, <- Hxu. apply list_elem_of_fmap. eauto.
    - apply (Hd (hp_uuid x)); [apply list_elem_of_fmap; eauto|]. rewrite Hxu, <- Hu. by left. }
  unfold sql_insert_parcel, sql_parcel_by_uuid. case_decide as Hin.
  - apply list_elem_of_fmap in Hin as (r & Hu & Hr). exists d, [0], (hp_parcel r). rewrite (Hone _ r) by done.
    split; [done|]. split; [done|]. rewrite Forall_forall in Hint.
    assert (0 < hp_parcel r <= m) by (apply Hint, list_elem_of_fmap; eauto).
    split; [apply s32_id; lia|]. split_and!; try done; [by destruct d|by eauto| |left; apply list_elem_of_fmap; eauto].
    intros r' Hr' Hu'. assert (r' ∈ filter (fun r => hp_uuid r = uuid) (hd_parcels d)) as Hf by (by apply list_elem_of_filter).
    rewrite (Hone _ r) in Hf by done. by apply list_elem_of_singleton in Hf as ->.
  - set (r := mk_hparcel (next_parcel (hd_parcels d)) uuid server user name).
    assert (NoDup (hp_uuid <$> hd_parcels d ++ [r])) as Hnd.
    { rewrite fmap_app. apply NoDup_app. split_and!; [done| |apply NoDup_singleton].
      intros x Hx ->%list_elem_of_singleton. done. }
    eexists _, _, (next_parcel (hd_parcels d)). split; [done|]. cbn [hd_parcels set_hparcels].
    rewrite (Hone _ r); [|done|apply elem_of_app; right; by apply list_elem_of_singleton|done].
    split; [done|]. split; [apply s32_id; lia|]. split_and!; try done.
    + rewrite fmap_app. apply NoDup_app. split_and!; [done| |apply NoDup_singleton].
      intros x Hx ->%list_elem_of_singleton. done.
    + intros x Hx. rewrite elem_of_app, list_elem_of_singleton. split; [intros [?| ->]; [done|by destruct Hx]|by left].
    + exists r. split; [|done]. apply elem_of_app. right. by apply list_elem_of_singleton.
    + intros x Hx Hu. destruct Hin. rewrite <- Hu. apply list_elem_of_fmap. eauto.
    + by right.
Qed.

Lemma update_parcel_ok :
  exists d1 n i, sql_insert_parcel uuid server user name d = inr (d1, n) /\ sql_parcel_by_uuid uuid d1 = inr (d1, [i]) /\
    s32 i = i /\ exists d2 m, sql_update_parcel i server user name d1 = inr (d2, m) /\
    parcel_known uuid server user name i d d2.
Proof.
  destruct insert_parcel_ok as (d1 & n & i & H1 & H2 & H3 & Hids & Huuids & Hrest & Hoth & (r & Hr & Hu & Hi) & Hst & Hnum).
  exists d1, n, i. split_and!; try done. unfold sql_update_parcel. eexists _, _. split; [done|]. set (d2 := set_hparcels _ d1).
  assert (forall q, q ∈ hd_parcels d1 -> hp_parcel q = i -> q = r) as Huniq.
  { intros q Hq Hqi. eapply (offset_inj hp_parcel); [done..|congruence]. }
  assert (forall x, x ∈ hd_parcels d2 <-> exists x0, x0 ∈ hd_parcels d1 /\
    (hp_parcel x0 = i /\ (hp_server x0 <> server \/ hp_user x0 <> user \/ hp_name x0 <> name) /\
       x = mk_hparcel (hp_parcel x0) (hp_uuid x0) server user name \/
     ~ (hp_parcel x0 = i /\ (hp_server x0 <> server \/ hp_user x0 <> user \/ hp_name x0 <> name)) /\ x = x0)) as Hel.
  { intros x. subst d2. cbn [hd_parcels set_hparcels]. rewrite elem_of_update. split; intros (x0 & Hx0 & Hor); exists x0; tauto. }
  split; [|intros x Hx|done|done| | |].
  - apply Hel. exists r. split; [done|]. rewrite Hu.
    destruct (decide (hp_server r <> server \/ hp_user r <> user \/ hp_name r <> name)) as [Hs|Hs]; [left; by rewrite Hi|right].
    split; [tauto|]. destruct r as [ri ru rs rus rn]. simpl in *. subst.
    assert (rs = server /\ rus = user /\ rn = name) as (-> & -> & ->); [|done].
    split_and!; apply dec_stable; tauto.
  - rewrite Hel, <- Hoth by done. split.
    + intros (x0 & Hx0 & [(Hxi & _ & ->)|[_ ->]]); [|done]. apply Huniq in Hxi; [|done]. subst x0. by destruct Hx.
    + intros Hx1. exists x. split; [done|]. right. split; [|done]. intros [Hxi _]. apply Huniq in Hxi; [|done]. by subst.
  - subst d2. cbn [hd_parcels set_hparcels]. by rewrite update_fmap.
  - subst d2. cbn [hd_parcels set_hparcels]. by rewrite update_fmap.
  - subst d2. rewrite Hrest. done.
Qed.

Lemma parcels_known_wf ident d' : parcel_known uuid server user name ident d d' -> parcels_wf (m + 1) (hd_parcels d').
Proof.
  destruct Hwf as [_ _ Hint]. intros [Hrow Hoth _ Hnum Hids Huuids _]. split; [done..|].
  assert (forall i, i ∈ hp_parcel <$> hd_parcels d -> 0 < i <= m + 1) as Hold.
  { intros i Hi. rewrite Forall_forall in Hint. specialize (Hint i Hi). simpl in Hint. lia. }
  apply Forall_forall. intros i (r & -> & Hr)%list_elem_of_fmap.
  destruct (decide (hp_uuid r = uuid)) as [Hu|Hu].
  - assert (r = mk_hparcel ident uuid server user name) as ->.
    { apply list_elem_of_lookup in Hr as [a Ha]. apply list_elem_of_lookup in Hrow as [b Hb].
      assert (a = b) as ->; [|congruence]. eapply (NoDup_lookup _ a b uuid Huuids); rewrite list_lookup_fmap.
      - by rewrite Ha, <- Hu.
      - by rewrite Hb. }
    destruct Hnum as [Hn| ->]; [by apply Hold|]. by apply next_parcel_spec; [lia|].
  - apply Hold. apply list_elem_of_fmap. exists r. split; [done|]. by apply Hoth.
Qed.
End ident.

(** ** Transactions that leave the file alone *)

Local Abbreviation unchanged s := (frame s (untouched s)).

Section steps.
Context (s0 : hoard_state) (fs : list (option (sqlite_fault * bool))) (Hfs : fs `suffix_of` faults (hoard s0)).
Context {R : Type} (Post : R -> hoard_state -> Prop) (E : R -> nat -> Prop).

Local Abbreviation at_index P := (act s0 fs (untouched s0) P).
Local Abbreviation leave := (tx_exit_at fs (idx s0) (unchanged s0) Post E).

Lemma bad_leave (w : R) s :
  bad s0 fs (untouched s0) False s -> (forall n, ~ hoard_fair s0 -> E w n) -> leave (Goto_bad w) s.
Proof. intros (Hb & Hw & Hfr & Hnf & _) HE. split_and!; try done. intros Hnb. by apply HE, Hnf. Qed.

(** A statement whose failure leads to "bad:". *)
Lemma goto_stmt_step {A B} P (q : hq A) (Q : list A -> hoard_db -> list Z -> Prop) (w : R) (k : list A -> pk hoard_state R B) QQ :
  (forall d f, P d f -> exists d' rows, q d = inr (d', rows) /\ Q rows d' f) ->
  (forall n, ~ hoard_fair s0 -> E w n) ->
  (forall rows, triple (at_index (Q rows)) (k rows) QQ leave) ->
  triple (at_index P) ('(ok, rows) ← hrun q; if negb ok then goto_bad w else k rows) QQ leave.
Proof.
  intros Hq HE Hk. eapply triple_bind; [by apply (hrun_ok s0 fs Hfs (untouched s0) False P q Q)|].
  intros [ok rows]. simpl. intros s (_ & [(-> & Ha & _)|[-> Hb]]); [by apply Hk|].
  eexists _, _. split; [done|]. by apply bad_leave.
Qed.

(** A query that must give a row. *)
Lemma goto_row_step {A B} P (q : hq A) (Q : A -> hoard_db -> list Z -> Prop) (w : R) (k : A -> pk hoard_state R B) QQ :
  (forall d f, P d f -> exists d' a rest, q d = inr (d', a :: rest) /\ Q a d' f) ->
  (forall n, ~ hoard_fair s0 -> E w n) ->
  (forall a, triple (at_index (Q a)) (k a) QQ leave) ->
  triple (at_index P)
    ('(_, rows) ← hrun q;
     has ← gets (fun s => query_has_row (hoard s));
     if negb has then goto_bad w else match rows with [] => fault | a :: _ => k a end) QQ leave.
Proof.
  intros Hq HE Hk. eapply triple_bind.
  { apply (hrun_ok s0 fs Hfs (untouched s0) False P q (fun rows d f => exists a rest, rows = a :: rest /\ Q a d f)).
    intros d f HP. destruct (Hq d f HP) as (d' & a & rest & ? & ?). eauto 7. }
  intros [ok rows] s (Hok & Hout). rewrite bind_gets. simpl in *. destruct Hout as [(-> & Ha & Hr)|[-> Hb]].
  - assert (exists a rest, rows = a :: rest /\ at_index (Q a) s) as (a & rest & -> & Ha').
    { destruct Ha as (d & Had & Hw & Hfr & a & rest & -> & HQ). exists a, rest. split; [done|]. exists d. by split_and!. }
    unfold query_has_row. rewrite Hr. by apply Hk.
  - destruct (no_row s ltac:(done)) as [-> _]. eexists _, _. split; [done|]. by apply bad_leave.
Qed.
End steps.

Definition ended {R} (s : hoard_state) (Post : R -> hoard_state -> Prop) (E : R -> Prop) (r : R) (s' : hoard_state) : Prop :=
  Post r s' \/ unchanged s s' /\ faults (hoard s') `suffix_of` faults (hoard s) /\ idle (idx s) (hoard s') /\ E r.

Lemma hoard_tx_body {R} (s : hoard_state) (w : R) (m : pk hoard_state R R) Post (E : R -> Prop) fs :
  (~ hoard_fair s -> E w) -> fs `suffix_of` faults (hoard s) ->
  triple (act s fs (untouched s) (fun d _ => d = idx s)) m Post (tx_exit_at fs (idx s) (unchanged s) Post (fun r _ => E r)) ->
  tx_body_at (idx s) (unchanged s) (ended s Post E) (fun r _ => E r) (ok ← try_db begin; if ok : bool then m else ret w) fs.
Proof.
  intros HE Hfs Hm. apply (tx_begin fs (idx s) (unchanged s) _ _ w (fun _ => m)); [intros; by apply frame_db| |].
  { intros s1 Hs1 Hw Hfr Hn _. right. split; [done|]. split; [by etrans|]. split; [done|]. apply HE. by eapply not_fair. }
  eapply triple_weaken; [exact Hm| |by left|].
  + intros s1 (Ha & Hw & Hfr). exists (idx s). by split_and!.
  + intros [r|r] s1; simpl; [by left|done].
Qed.

Lemma hoard_transaction {R} (s : hoard_state) (w : R) (m : pk hoard_state R R) (Post : R -> hoard_state -> Prop) (E : R -> Prop) :
  idle (idx s) (hoard s) -> (~ hoard_fair s -> E w) ->
  (forall fs, fs `suffix_of` faults (hoard s) ->
     triple (act s fs (untouched s) (fun d _ => d = idx s)) m Post (tx_exit_at fs (idx s) (unchanged s) Post (fun r _ => E r))) ->
  exists r s', transaction (ok ← try_db begin; if ok : bool then m else ret w) s = Some (r, s') /\ ended s Post E r s'.
Proof.
  intros Hi HE Hm.
  destruct (transaction_spec_at (faults (hoard s)) (idx s) (unchanged s) (ended s Post E)
    (fun r _ => E r) (ok ← try_db begin; if ok : bool then m else ret w) s) as (r & s' & Hr & Hpost); try done.
  - intros fs Hfs. apply hoard_tx_body; auto.
  - intros b s1. apply frame_db.
  - apply within_refl.
  - exists r, s'. split; [done|]. destruct Hpost as [?|(? & ? & ? & ?)]; [done|]. right. by split_and!.
Qed.

Definition ident_post (uuid server user name : string) (s : hoard_state) (r : pk_err * Z) (s' : hoard_state) : Prop :=
  r.1 = PK_SUCCESS /\ unchanged s s' /\ faults (hoard s') `suffix_of` faults (hoard s) /\
  exists d, idle d (hoard s') /\ parcel_known uuid server user name r.2 (idx s) d.

Lemma get_parcel_ident_spec uuid server user name m s :
  idle (idx s) (hoard s) -> 0 <= m < 2 ^ 31 - 1 -> parcels_wf m (hd_parcels (idx s)) ->
  exists err ident s', get_parcel_ident uuid server user name s = Some ((err, ident), s') /\ unchanged s s' /\
    faults (hoard s') `suffix_of` faults (hoard s) /\
    exists d, idle d (hoard s') /\
      if decide (err = PK_SUCCESS) then parcel_known uuid server user name ident (idx s) d
      else d = idx s /\ ~ hoard_fair s.
Proof.
  intros Hi Hm Hwf. unfold get_parcel_ident, parcel_ident_body.
  destruct (update_parcel_ok uuid server user name (idx s) m Hm Hwf) as (d1 & n1 & i & H1 & H2 & Hint & d2 & n2 & H3 & Hk).
  destruct (hoard_transaction s (PK_IOERR, 0) (ident_steps uuid server user name) (ident_post uuid server user name s)
    (fun r => r.1 = PK_IOERR /\ ~ hoard_fair s)) as ([err ident] & s' & Hr & Hpost); try done.
  - intros fs Hfs.
    apply (goto_stmt_step s fs Hfs _ _ _ _ (fun _ d _ => d = d1) (PK_IOERR, 0)); [intros d f ->; eauto|by auto|].
    intros _. apply (goto_row_step s fs Hfs _ _ _ _ (fun a d _ => a = i /\ d = d1) (PK_IOERR, 0)
      (fun a => let ident := s32 a in _)); [intros d f ->; eauto 7|by auto|].
    intros a s1 Ha. apply act_pure in Ha as [-> Ha]. revert s1 Ha. cbv zeta. rewrite Hint.
    apply (goto_stmt_step s fs Hfs _ _ _ _ (fun _ d _ => d = d2) (PK_IOERR, 0)); [intros d f ->; eauto|by auto|].
    intros _. apply (commit_step s fs Hfs (untouched s)); [|by auto].
    intros d s1 Hid Hsuf Hfr ->. split_and!; try done. by exists d2.
  - exists err, ident, s'. split; [exact Hr|]. destruct Hpost as [(He & ? & ? & d & ? & ?)|(? & ? & ? & He & ?)]; simpl in *.
    + split_and!; try done. exists d. by rewrite decide_True.
    + split_and!; try done. exists (idx s). rewrite decide_False by (rewrite He; done). by split_and!.
Qed.

(** * Cleanup: what hoard_try_cleanup does *)

Definition referred (d : hoard_db) (r : hparcel) : Prop := hp_parcel r ∈ (hd_refs d).*1.

#[global] Instance referred_dec d r : Decision (referred d r).
Proof. unfold referred. apply _. Defined.

(** The parcels without references are gone, and no slot is reserved any more; with garbage collection
    the unreferenced chunks are gone as well. *)
Definition cleaned_chunks (gc : bool) (d : hoard_db) : list hchunk :=
  let t := update orphaned release (hd_chunks d) in if gc then update (unreferenced d) emptied t else t.

Definition cleaned (gc : bool) (d : hoard_db) : hoard_db :=
  set_hchunks (cleaned_chunks gc d) (set_hparcels (filter (referred d) (hd_parcels d)) d).

Section cleanup.
Context (s0 : hoard_state) (m : Z) (Hm : m < 2 ^ 31) (Hpw : parcels_wf m (hd_parcels (idx s0))).
Context (fs : list (option (sqlite_fault * bool))) (Hfs : fs `suffix_of` faults (hoard s0)).
Context (Post : pk_err -> hoard_state -> Prop).

Local Abbreviation d0 := (idx s0).
Local Abbreviation failed := (fun (err : pk_err) (_ : nat) => err <> PK_SUCCESS /\ ~ hoard_fair s0).
Local Abbreviation at_index P := (act s0 fs (untouched s0) P).
Local Abbreviation leave := (tx_exit_at fs d0 (unchanged s0) Post failed).

(** The parcels [rows] have not been looked at yet. *)
Definition pruning (rows : list Z) : hoard_db :=
  set_hparcels (filter (fun r => referred d0 r \/ hp_parcel r ∈ rows) (hd_parcels d0)) d0.

Lemma pruning_start : pruning (hp_parcel <$> hd_parcels d0) = d0.
Proof.
  unfold pruning. rewrite filter_all; [by destruct d0|]. apply Forall_forall. intros r Hr. right.
  apply list_elem_of_fmap. eauto.
Qed.

Lemma pruning_end : pruning [] = set_hparcels (filter (referred d0) (hd_parcels d0)) d0.
Proof.
  unfold pruning. f_equal. apply list_filter_iff. intros r. split; [intros [?|[]%not_elem_of_nil]; done|by left].
Qed.

(** A parcel with references stays, one without is deleted. *)
Lemma pruning_kept i rows : i ∈ (hd_refs d0).*1 -> pruning (i :: rows) = pruning rows.
Proof.
  intros Hi. unfold pruning. f_equal. apply list_filter_iff. intros r. unfold referred. rewrite elem_of_cons.
  split; [intros [?|[Hr|?]]; [by left|left; by rewrite Hr|by right]|intros [?|?]; [by left|right; by right]].
Qed.

Lemma pruning_deleted i rows :
  ~ i ∈ (hd_refs d0).*1 -> ~ i ∈ rows ->
  set_hparcels (filter (fun r => hp_parcel r <> i) (hd_parcels (pruning (i :: rows)))) (pruning (i :: rows)) = pruning rows.
Proof.
  intros Hi Hni. unfold pruning, set_hparcels. cbn [hd_chunks hd_refs hd_slots hd_parcels]. f_equal.
  rewrite list_filter_filter. apply list_filter_iff. intros r. unfold referred. rewrite elem_of_cons. split.
  - intros [Hne [?|[?|?]]]; [by left|done|by right].
  - intros Hor. split; [|destruct Hor; [by left|right; by right]]. intros Hr. rewrite Hr in Hor. by destruct Hor.
Qed.

Definition pruning_at (rows : list Z) (s : hoard_state) : Prop :=
  (at_index (fun d _ => d = pruning rows) s /\ result (hoard s) = match rows with [] => SQLITE_OK | _ => SQLITE_ROW end) \/
  bad s0 fs (untouched s0) False s /\ succeeded (result (hoard s)) = false.

Lemma ref_of_ok i rows :
  exists found, sql_ref_of i (pruning rows) = inr (pruning rows, found) /\ (found = [] <-> ~ i ∈ (hd_refs d0).*1).
Proof.
  eexists. split; [done|]. change (hd_refs (pruning rows)) with (hd_refs d0). split.
  - intros Hnil Hin. assert (i ∈ filter (fun p => p = i) (hd_refs d0).*1) as Hf by (by apply list_elem_of_filter).
    destruct (filter _ _); [by apply not_elem_of_nil in Hf|done].
  - intros Hni. rewrite filter_none; [done|]. apply Forall_forall. by intros p Hp ->.
Qed.

Lemma parcels_loop_ok n rows :
  (length rows < n)%nat -> NoDup rows -> Forall (fun i => s32 i = i) rows ->
  triple (pruning_at rows) (parcels_loop n rows) (fun _ => pruning_at []) leave.
Proof.
  revert rows. induction n as [|n IH]; intros rows Hn Hnd Hint s Hs; [lia|]. cbn [parcels_loop]. rewrite bind_gets.
  destruct Hs as [(Ha & Hr)|(Hb & Hf)].
  2:{ destruct (no_row s Hf) as [-> _]. eexists _, _. split; [done|]. by right. }
  unfold query_has_row at 1. rewrite Hr. destruct rows as [|i rows]; simpl.
  { eexists _, _. split; [done|]. by left. }
  apply Forall_cons in Hint as [-> Hint]. apply NoDup_cons in Hnd as [Hni Hnd]. clear Hr. revert s Ha.
  destruct (ref_of_ok i (i :: rows)) as (found & Hfound & Hiff).
  eapply triple_bind.
  { apply (hrun_ok s0 fs Hfs (untouched s0) False _ _ (fun r d _ => r = found /\ d = pruning (i :: rows))). intros d _ ->. eauto. }
  intros [ok rws] s (Hok & Hout). simpl in *. destruct Hout as [(-> & Ha & Hr)|[-> Hb]]; simpl.
  2:{ eexists _, _. split; [done|]. apply (bad_leave s0 fs Post failed); [done|]. by intros _ Hnf. }
  apply act_pure in Ha as [-> Ha]. rewrite bind_gets. unfold query_has_row at 1. rewrite Hr.
  assert (triple (at_index (fun d _ => d = pruning rows)) ('(_, rows) ← hnext (i :: rows); parcels_loop n rows)
    (fun _ => pruning_at []) leave) as Hnext.
  { eapply triple_bind; [apply (hnext_ok s0 fs Hfs (untouched s0) False)|].
    intros [ok rows'] s' [(Hrows & Ha' & Hr')|(Hb & Hf)]; simpl in *.
    - subst rows'. apply (IH rows ltac:(lia) Hnd Hint). by left.
    - destruct n as [|n]; [lia|]. cbn [parcels_loop]. rewrite bind_gets. destruct (no_row s' Hf) as [-> _].
      eexists _, _. split; [done|]. by right. }
  clear Hr Hok. revert s Ha. destruct found as [|x found]; simpl.
  - assert (~ i ∈ (hd_refs d0).*1) as Hnr by (by apply Hiff).
    eapply triple_bind with (Q := fun _ => at_index (fun d _ => d = pruning rows)); [|by intros []].
    apply (goto_stmt_step s0 fs Hfs Post failed _ _ (fun _ d _ => d = pruning rows) PK_SQLERR (fun _ => pk_ret ())).
    + intros d _ ->. unfold sql_delete_parcel. rewrite pruning_deleted by done. eauto.
    + by intros _ Hnf.
    + intros _. by apply triple_ret.
  - intros s Ha. rewrite bind_ret. apply Hnext. assert (i ∈ (hd_refs d0).*1) as Hin.
    { apply dec_stable. by intros Hx%Hiff. }
    by rewrite (pruning_kept i rows Hin) in Ha.
Qed.

(** A call whose failure leads to "bad:". *)
Lemma call_step P (f : hoard_state -> option (pk_err * hoard_state)) Q (k : pk hoard_state pk_err pk_err) :
  (forall X, triple (at_index P) (call f : pk hoard_state pk_err _)
     (result_is s0 fs (untouched s0) False Q) X) ->
  triple (at_index Q) k Post leave ->
  triple (at_index P) (err ← call f; if decide (err <> PK_SUCCESS) then goto_bad err else k) Post leave.
Proof.
  intros Hf Hk. eapply triple_bind; [apply Hf|]. intros err. unfold result_is. case_decide as He.
  - by rewrite decide_False by (intros Hn; by apply Hn).
  - rewrite decide_True by done. apply triple_goto_bad. intros s Hb. by apply (bad_leave s0 fs Post failed).
Qed.

Lemma cleanup_action_ok P (q : hq Z) (Q : hoard_db -> list Z -> Prop) {R} X :
  (forall d f, P d f -> exists d' n, q d = inr (d', n) /\ Q d' f) ->
  triple (at_index P) (call (cleanup_action q) : pk hoard_state R _) (result_is s0 fs (untouched s0) False Q) X.
Proof.
  intros Hq. apply triple_call_body.
  apply (hoard_stmt_step s0 fs Hfs (untouched s0) False _ _ (fun _ d f => Q d f) (fun _ => _)); [done|].
  intros _. by apply success_step.
Qed.

Lemma cleanup_steps_ok gc :
  (forall d s, idle d (hoard s) -> faults (hoard s) `suffix_of` faults (hoard s0) -> unchanged s0 s ->
     (exists b, d = cleaned b d0 /\ (exists n, gc n = b)) -> Post PK_SUCCESS s) ->
  triple (at_index (fun d _ => d = d0)) (cleanup_steps gc) Post leave.
Proof.
  intros HPost. destruct Hpw as [Hids _ Hint]. eapply triple_bind.
  { apply (hrun_ok s0 fs Hfs (untouched s0) False _ _ (fun rows d _ => rows = hp_parcel <$> hd_parcels d0 /\ d = d0)).
    intros d _ ->. by eexists _, _. }
  intros [ok rows]. eapply triple_bind with (Q := fun _ => pruning_at []).
  { intros s (Hok & Hout). cbn [fst snd] in *. destruct Hout as [(-> & Ha & Hr)|[-> Hb]].
    - apply act_pure in Ha as [-> Ha]. apply parcels_loop_ok; [lia|done| |].
      + eapply Forall_impl; [exact Hint|]. intros i Hi. simpl in Hi. apply s32_id. lia.
      + left. split; [|done]. by rewrite pruning_start.
    - cbn [parcels_loop]. rewrite bind_gets. destruct (no_row s ltac:(done)) as [-> _].
      eexists _, _. split; [done|]. right. by split. }
  intros [] s [(Ha & Hr)|(Hb & Hf)]; rewrite bind_gets.
  2:{ destruct (no_row s Hf) as [_ ->]. eexists _, _. split; [done|]. by apply (bad_leave s0 fs Post failed). }
  unfold query_ok at 1. rewrite Hr. simpl. clear Hr. revert s Ha. rewrite pruning_end.
  set (d1 := set_hparcels _ d0). set (d2 := set_hchunks (update orphaned release (hd_chunks d1)) d1).
  apply (call_step _ _ (fun d _ => d = d2)).
  { intros X. apply cleanup_action_ok. intros d _ ->. by eexists _, _. }
  intros s Ha. rewrite bind_gets. revert s Ha. generalize (retries (D:=hoard_db)). intros rt.
  cut (forall n, triple (at_index (fun d _ => d = d2)) (
    err ← (if gc n then call _hoard_gc else pk_ret PK_SUCCESS);
    if decide (err <> PK_SUCCESS) then goto_bad err
    else ok ← try_db commit; if ok : bool then ret PK_SUCCESS else goto_bad PK_IOERR) Post leave); [intros Hc s; by apply Hc|].
  intros n. destruct (gc n) eqn:Hgc.
  - apply (call_step _ _ (fun d _ => d = cleaned true d0)).
    { intros X. apply cleanup_action_ok. intros d _ ->. by eexists _, _. }
    apply (commit_step s0 fs Hfs (untouched s0)); [|by intros _ Hnf _].
    intros d s Hi Hsuf Hfr ->. apply (HPost (cleaned true d0)); try done. exists true. split; [done|]. by exists n.
  - intros s Ha. rewrite bind_ret, decide_False by (intros Hn; by apply Hn). revert s Ha.
    apply (commit_step s0 fs Hfs (untouched s0)); [|by intros _ Hnf _].
    intros d s Hi Hsuf Hfr ->. apply (HPost d2); try done. exists false. split; [done|]. by exists n.
Qed.
End cleanup.

(** ** The index after the cleanup *)

Lemma cleaned_entry gc d t o l :
  chunk_entry (cleaned gc d) t o l <-> chunk_entry d t o l /\ (gc = true -> t ∈ (hd_refs d).*2).
Proof.
  assert (forall r, r ∈ update orphaned release (hd_chunks d) <-> exists r0, r0 ∈ hd_chunks d /\
    (orphaned r0 /\ r = release r0 \/ ~ orphaned r0 /\ r = r0)) as Hel by (intros r; apply elem_of_update).
  unfold chunk_entry, cleaned, cleaned_chunks. cbn [hd_chunks set_hchunks]. split.
  - intros (r & Hr & Ht & <- & <-). destruct gc.
    + apply elem_of_update in Hr as (r0 & Hr0 & [[_ ->]|[Hu ->]]); [done|].
      apply Hel in Hr0 as (r1 & Hr1 & [[[_ Hn] ->]|[_ ->]]); [simpl in *; congruence|].
      split; [by exists r1|]. intros _. unfold unreferenced in Hu. rewrite Ht in Hu. by apply dec_stable.
    + apply Hel in Hr as (r1 & Hr1 & [[[_ Hn] ->]|[_ ->]]); [simpl in *; congruence|]. split; [by exists r1|done].
  - intros [(r & Hr & Ht & <- & <-) Hgc]. exists r. split_and!; try done.
    assert (r ∈ update orphaned release (hd_chunks d)) as Hin.
    { apply Hel. exists r. split; [done|]. right. split; [|done]. intros [_ Hn]. congruence. }
    destruct gc; [|done]. apply elem_of_update. exists r. split; [done|]. right. split; [|done].
    unfold unreferenced. rewrite Ht. intros Hn. by apply Hn, Hgc.
Qed.

(** No slot is reserved any more. *)
Lemma cleaned_released gc d r : r ∈ hd_chunks (cleaned gc d) -> ~ orphaned r.
Proof.
  assert (forall r, r ∈ update orphaned release (hd_chunks d) -> ~ orphaned r) as Hno.
  { intros q (r0 & _ & [[_ ->]|[Hn ->]])%elem_of_update; [by intros [? _]|done]. }
  unfold cleaned, cleaned_chunks. cbn [hd_chunks set_hchunks]. destruct gc; [|by apply Hno].
  intros (r0 & Hr0 & [[_ ->]|[_ ->]])%elem_of_update; [by intros [? _]|by apply Hno].
Qed.

Lemma update_wf d (P : hchunk -> Prop) `{!forall r, Decision (P r)} f :
  hoard_wf d -> hd_slots d = [] -> (forall r, hc_offset (f r) = hc_offset r) ->
  (forall r, r ∈ hd_chunks d -> P r -> hc_tag (f r) = None) -> hoard_wf (set_hchunks (update P f (hd_chunks d)) d).
Proof.
  intros [Hco Hct Hso Hst Hres Hfree Hal Hint] Hs Hfo Hft.
  assert (forall r, r ∈ update P f (hd_chunks d) <-> exists r0, r0 ∈ hd_chunks d /\ (P r0 /\ r = f r0 \/ ~ P r0 /\ r = r0)) as Hel
    by (intros r; apply elem_of_update).
  split; cbn [hd_chunks hd_slots set_hchunks]; try done.
  - by rewrite update_fmap.
  - intros r1 r2 t (q1 & Hq1 & [[H1 ->]|[_ ->]])%Hel (q2 & Hq2 & [[H2 ->]|[_ ->]])%Hel Ht1 Ht2;
      try (rewrite Hft in Ht1; done); try (rewrite Hft in Ht2; done). by eapply Hct.
  - rewrite Hs. by intros sl Hsl%not_elem_of_nil.
  - intros r (q & Hq & [[HP ->]|[_ ->]])%Hel; [by rewrite Hft|]. by apply Hfree.
  - intros r (q & Hq & [[HP ->]|[_ ->]])%Hel; rewrite ?Hfo; by apply Hal.
Qed.

(** The index without the slot cache. *)
Definition closed (d : hoard_db) : hoard_db := set_hslots [] d.

Lemma closed_wf d : hoard_wf d -> hoard_wf (closed d).
Proof. intros [? ? ? ? ? ? ? ?]. split; try done; [by apply NoDup_nil_2|by intros ? ? ? ?%not_elem_of_nil|by intros ? ?%not_elem_of_nil..]. Qed.

Lemma cleaned_wf gc d : hoard_wf (closed d) -> hoard_wf (closed (cleaned gc d)).
Proof.
  intros Hwf. assert (hoard_wf (set_hchunks (update orphaned release (hd_chunks d)) (closed d))) as Hwf1.
  { apply (update_wf (closed d)); try done. by intros r _ [_ Hn]. }
  assert (hoard_wf (set_hchunks (cleaned_chunks gc d) (closed d))) as Hwf2.
  { unfold cleaned_chunks. destruct gc; [|done]. exact (update_wf _ (unreferenced d) emptied Hwf1 eq_refl (fun _ => eq_refl) (fun _ _ _ => eq_refl)). }
  destruct Hwf2. by split.
Qed.

(** A transaction of the cleanup that has come through. *)
Definition cleanup_post (gc : Z -> bool) (s : hoard_state) (err : pk_err) (s' : hoard_state) : Prop :=
  err = PK_SUCCESS /\ unchanged s s' /\ faults (hoard s') `suffix_of` faults (hoard s) /\
  exists b, idle (cleaned b (idx s)) (hoard s') /\ (exists n, gc n = b).

Lemma cleanup_tx_ok gc m s fs :
  m < 2 ^ 31 -> parcels_wf m (hd_parcels (idx s)) -> fs `suffix_of` faults (hoard s) ->
  triple (act s fs (untouched s) (fun d _ => d = idx s)) (cleanup_steps gc) (cleanup_post gc s)
    (tx_exit_at fs (idx s) (unchanged s) (cleanup_post gc s) (fun r _ => r <> PK_SUCCESS /\ ~ hoard_fair s)).
Proof.
  intros Hm Hpw Hfs. apply (cleanup_steps_ok s m); try done. intros d s1 Hid Hsuf Hun (b & -> & Hb). split_and!; try done.
  by exists b.
Qed.

Lemma hoard_try_cleanup_spec lock gc vac m s :
  idle (idx s) (hoard s) -> m < 2 ^ 31 -> parcels_wf m (hd_parcels (idx s)) ->
  exists err s' d, hoard_try_cleanup lock gc vac s = Some (err, s') /\ unchanged s s' /\
    faults (hoard s') `suffix_of` faults (hoard s) /\ idle d (hoard s') /\
    (d = idx s /\ (lock = PK_SUCCESS -> ~ hoard_fair s) \/
     lock = PK_SUCCESS /\ exists b, d = cleaned b (idx s) /\ (exists n, gc n = b)).
Proof.
  intros Hi Hm Hpw. unfold hoard_try_cleanup. case_decide as Hbusy.
  { exists PK_SUCCESS, s, (idx s). split_and!; try done. left. split; [done|]. congruence. }
  case_decide as Hlock; [exists lock, s, (idx s); split_and!; try done; by left|].
  destruct (hoard_transaction s PK_IOERR (cleanup_steps gc) (cleanup_post gc s)
    (fun err => err <> PK_SUCCESS /\ ~ hoard_fair s)) as (err & s1 & Hr & Hpost); try done.
  { intros fs Hfs. by eapply cleanup_tx_ok. }
  unfold cleanup_body. rewrite Hr. cbn [mbind option_bind].
  assert (exists d, idle d (hoard s1) /\ unchanged s s1 /\ faults (hoard s1) `suffix_of` faults (hoard s) /\
    (d = idx s /\ (lock = PK_SUCCESS -> ~ hoard_fair s) \/
     lock = PK_SUCCESS /\ exists b, d = cleaned b (idx s) /\ (exists n, gc n = b)))
    as (d & Hid & Hun & Hsuf & Hd).
  { destruct Hpost as [(_ & ? & ? & b & ? & ?)|(? & ? & ? & _ & ?)]; [exists (cleaned b (idx s))|exists (idx s)]; split_and!; try done.
    - right. split; [done|]. by exists b.
    - by left. }
  case_decide as Hv; [|exists err, s1, d; by split_and!].
  destruct (vacuum_spec (faults (hoard s1)) d (hoard s1) Hid (within_refl _)) as (ok & b & Hvac & Hib & Hwb & _).
  rewrite Hvac. cbn [mbind option_bind]. exists err, (set_hoard b s1), d. split_and!; try done.
  - by apply (frame_db s (untouched s) b s1).
  - unfold within in Hwb. simpl. by etrans.
Qed.

(** flush_slot_cache, which hides its failures. *)
Lemma flush_spec s :
  idle (idx s) (hoard s) -> hoard_wf (idx s) ->
  exists s', flush_slot_cache s = Some ((), s') /\ wrapped s (fun d => hoard_wf d /\ same_index (idx s) d /\ hd_slots d = []) s'.
Proof.
  intros Hi Hwf. apply wrapper_spec; [done|]. intros fs Hfs X.
  eapply triple_weaken; [apply (flush_slot_cache_triple s fs Hfs (untouched s) False Hwf)|done| |done].
  intros err s1. unfold result_is. case_decide; [|done]. apply act_weaken. intros d _ ([? ?] & ? & _). by split_and!.
Qed.

(** * Properties *)

(** C27: hoard_sync_refs always ends. On success the parcel refers exactly to the chunks of its previous
    keyring, each once; for the chunks to be uploaded (new_chunks) nothing is dropped, and it refers exactly to
    the chunks of its current keyring and those that it referred to before. The references of other parcels
    are as they were and the temporary table is gone; on failure, which takes more than contention, nothing
    has changed. *)
Theorem hoard_sync_refs_exact ident new_chunks d b :
  idle d b -> rd_newrefs d = None ->
  exists err b' d', hoard_sync_refs true ident new_chunks b = Some (err, b') /\ idle d' b' /\
    if decide (err = PK_SUCCESS) then
      rd_keys d' = rd_keys d /\ rd_prev_keys d' = rd_prev_keys d /\ rd_newrefs d' = None /\
      (NoDup (rd_refs d) -> NoDup (rd_refs d')) /\
      forall p t, (p, t) ∈ rd_refs d' <->
        if decide (p = ident)
        then t ∈ (if new_chunks then rd_keys d else rd_prev_keys d) \/ new_chunks = true /\ (p, t) ∈ rd_refs d
        else (p, t) ∈ rd_refs d
    else err = PK_IOERR /\ d' = d /\ ~ Forall contention (faults b).
Proof.
  intros Hi Hn. destruct (sync_refs_spec ident new_chunks d b Hi Hn) as (err & b' & Hr & _ & [(-> & d' & ? & Hs)|(-> & ? & ?)]).
  - exists PK_SUCCESS, b', d'. split; [done|]. split; [done|]. rewrite decide_True by done. exact Hs.
  - exists PK_IOERR, b', d. split_and!; try done.
Qed.

(** The number of a parcel identifies it: two parcels that are looked up in the index one after the
    other get the same number if and only if they have the same UUID, whatever else of them differs; the
    index has their current names, and nothing but the table of parcels has changed. *)
Theorem parcel_ident_identifies u1 v1 w1 n1 u2 v2 w2 n2 m s :
  idle (idx s) (hoard s) -> 0 <= m < 2 ^ 31 - 2 -> parcels_wf m (hd_parcels (idx s)) -> hoard_fair s ->
  exists i1 s1 i2 s2, get_parcel_ident u1 v1 w1 n1 s = Some ((PK_SUCCESS, i1), s1) /\
    get_parcel_ident u2 v2 w2 n2 s1 = Some ((PK_SUCCESS, i2), s2) /\ (i1 = i2 <-> u1 = u2) /\
    mk_hparcel i2 u2 v2 w2 n2 ∈ hd_parcels (idx s2) /\
    (u1 <> u2 -> mk_hparcel i1 u1 v1 w1 n1 ∈ hd_parcels (idx s2)) /\
    idx s2 = set_hparcels (hd_parcels (idx s2)) (idx s) /\ hoard_file s2 = hoard_file s.
Proof.
  intros Hi Hm Hwf Hf.
  destruct (get_parcel_ident_spec u1 v1 w1 n1 m s Hi ltac:(lia) Hwf) as (e1 & i1 & s1 & Hr1 & Hun1 & Hsuf1 & d1 & Hi1 & Ho1).
  case_decide as He1; [subst e1|by destruct Ho1]. pose proof (idle_data _ _ Hi1) as <-.
  destruct (get_parcel_ident_spec u2 v2 w2 n2 (m + 1) s1 Hi1 ltac:(lia)) as (e2 & i2 & s2 & Hr2 & Hun2 & Hsuf2 & d2 & Hi2 & Ho2).
  { by apply (parcels_known_wf u1 v1 w1 n1 _ m ltac:(lia) Hwf i1). }
  case_decide as He2; [subst e2|by destruct (proj2 Ho2 (fair_later _ _ Hun1 Hsuf1 Hf))]. pose proof (idle_data _ _ Hi2) as <-.
  destruct Ho1 as [Hrow1 _ _ _ _ _ Hrest1], Ho2 as [Hrow2 Hoth2 Hst2 _ Hids2 _ Hrest2].
  exists i1, s1, i2, s2. split_and!; try done.
  - split; [|intros ->; by apply (Hst2 _ Hrow1)]. intros ->. destruct (decide (u1 = u2)) as [?|Hne]; [done|].
    assert (hp_uuid (mk_hparcel i2 u1 v1 w1 n1) <> u2) as Hne' by done.
    pose proof (proj2 (Hoth2 _ Hne') Hrow1) as Hrow. pose proof (offset_inj hp_parcel _ _ _ Hids2 Hrow Hrow2 eq_refl) as He. congruence.
  - intros Hne. by apply Hoth2.
  - rewrite Hrest2, Hrest1 at 1. done.
  - rewrite (fr_file _ _ _ Hun2). apply (fr_file _ _ _ Hun1).
Qed.

(** A row of the index after the cleanup, [gc] saying whether garbage has been collected: a reserved slot is
    given back, the chunk of a row is dropped if garbage is collected and no parcel refers to it, and
    any other row is as it was. *)
Definition cleaned_row (gc : bool) (refs : list (list Z)) (r : hchunk) : hchunk :=
  match hc_tag r with
  | None => mk_hchunk None (hc_offset r) (hc_length r) (hc_crypto r) false
  | Some t => if gc && negb (bool_decide (t ∈ refs)) then mk_hchunk None (hc_offset r) 0 0 false else r
  end.

Lemma cleaned_rows gc d : hd_chunks (cleaned gc d) = cleaned_row gc (hd_refs d).*2 <$> hd_chunks d.
Proof.
  unfold cleaned, cleaned_chunks, update. cbn [hd_chunks set_hchunks].
  assert (forall r, (if decide (orphaned r) then release r else r) =
    match hc_tag r with None => mk_hchunk None (hc_offset r) (hc_length r) (hc_crypto r) false | Some _ => r end) as Hrel.
  { intros [[t|] o l c [|]]; case_decide as Hd; try reflexivity; first [by destruct Hd|by destruct Hd as [? ?]]. }
  destruct gc; [rewrite <- list_fmap_compose|]; apply list_fmap_ext; intros i r _; cbn [compose]; rewrite Hrel; unfold cleaned_row.
  - destruct r as [[t|] o l c a]; cbn [hc_tag hc_offset hc_length hc_crypto andb].
    + destruct (decide (t ∈ (hd_refs d).*2)) as [Hin|Hni].
      * rewrite bool_decide_true, decide_False by first [done|intros Hx; by apply Hx]. done.
      * rewrite bool_decide_false, decide_True by done. done.
    + by rewrite decide_False by (intros []).
  - by destruct (hc_tag r).
Qed.

(** C26: the cleanup of the last process to leave always ends and does not touch the file. It happens only
    under the exclusive lock, and then unless SQLite refuses: exactly the reserved slots are given back, the
    parcels left are those with references, and of the chunks none is lost except, if garbage is collected,
    exactly those that no parcel refers to. *)
Theorem hoard_try_cleanup_exact lock gc vac m s :
  idle (idx s) (hoard s) -> m < 2 ^ 31 -> parcels_wf m (hd_parcels (idx s)) ->
  exists err s', hoard_try_cleanup lock gc vac s = Some (err, s') /\ hoard_file s' = hoard_file s /\ idle (idx s') (hoard s') /\
    (idx s' = idx s /\ (lock = PK_SUCCESS -> ~ hoard_fair s) \/
     lock = PK_SUCCESS /\ hd_refs (idx s') = hd_refs (idx s) /\ hd_slots (idx s') = hd_slots (idx s) /\
       (forall p, p ∈ hd_parcels (idx s') <-> p ∈ hd_parcels (idx s) /\ hp_parcel p ∈ (hd_refs (idx s)).*1) /\
       exists b, (exists i, gc i = b) /\ hd_chunks (idx s') = cleaned_row b (hd_refs (idx s)).*2 <$> hd_chunks (idx s)).
Proof.
  intros Hi Hm Hpw. destruct (hoard_try_cleanup_spec lock gc vac m s Hi Hm Hpw) as (err & s' & d & Hr & Hun & _ & Hi' & Hd).
  pose proof (idle_data _ _ Hi') as <-. exists err, s'. split; [done|]. split; [apply Hun|]. split; [done|].
  destruct Hd as [?|(Hl & b & Hd & Hb)]; [by left|right]. rewrite Hd. split_and!; try done.
  - intros p. cbn [cleaned hd_parcels set_hchunks set_hparcels]. rewrite list_elem_of_filter. unfold referred. tauto.
  - exists b. split; [done|]. apply cleaned_rows.
Qed.

(** ** Examples *)

Definition demo_refs : refs_db := mk_refs [[1]; [2]; [1]] [[2]; [3]] [(1, [4]); (1, [2]); (2, [4])] None.

Lemma hoard_sync_refs_exact_witness : exists err b' d',
  hoard_sync_refs true 1 false (mk_db demo_refs None [Some (F_BUSY, false)] false SQLITE_OK false 0) = Some (err, b') /\ idle d' b'.
Proof.
  destruct (hoard_sync_refs_exact 1 false demo_refs (mk_db demo_refs None [Some (F_BUSY, false)] false SQLITE_OK false 0))
    as (err & b' & d' & Hr & Hi & _); [done|done|]. exists err, b', d'. split; [exact Hr|exact Hi].
Defined.

(** The parcel 1 has references, the parcel 2 has none; a slot at 256 is reserved and nobody's. *)
Definition demo_admin : hoard_state :=
  mk_hstate (mk_parcel IU_CHUNK_CRY_AES_SHA1 0 16 SLOT_SIZE 512 20) true
    (mk_db (mk_hoard [mk_hchunk (Some [8]) 0 3 1 true; mk_hchunk None 256 0 0 true] [(1, [9])] []
              [mk_hparcel 1 "u1" "server" "user" "name"; mk_hparcel 2 "u2" "server" "user" "name"])
       None [None; Some (F_BUSY, false)] false SQLITE_OK false 0)
    [1; 2; 3] [].

Lemma demo_admin_parcels : parcels_wf 2 (hd_parcels (idx demo_admin)).
Proof.
  split; cbn [hd_parcels data demo_admin hoard].
  - apply NoDup_cons; split; [by intros ?%list_elem_of_singleton|apply NoDup_singleton].
  - apply NoDup_cons; split; [by intros ?%list_elem_of_singleton|apply NoDup_singleton].
  - by repeat (apply Forall_cons; split; [done|]).
Qed.

Lemma parcel_ident_identifies_witness : exists i1 s1 i2 s2,
  get_parcel_ident "u2" "server" "user" "new" demo_admin = Some ((PK_SUCCESS, i1), s1) /\
  get_parcel_ident "u3" "server" "user" "name" s1 = Some ((PK_SUCCESS, i2), s2) /\ i1 <> i2.
Proof.
  destruct (parcel_ident_identifies "u2" "server" "user" "new" "u3" "server" "user" "name" 2 demo_admin)
    as (i1 & s1 & i2 & s2 & H1 & H2 & Hiff & _); [done|done|apply demo_admin_parcels|by split; [repeat constructor|]|].
  exists i1, s1, i2, s2. split; [exact H1|]. split; [exact H2|]. intros He. by apply Hiff in He.
Defined.

Lemma hoard_try_cleanup_exact_witness : exists s',
  hoard_try_cleanup PK_SUCCESS (fun _ => false) true demo_admin = Some (PK_SUCCESS, s') /\
  hd_chunks (idx s') = [mk_hchunk (Some [8]) 0 3 1 true; mk_hchunk None 256 0 0 false].
Proof.
  destruct (hoard_try_cleanup_exact PK_SUCCESS (fun _ => false) true 2 demo_admin) as (err & s' & Hr & _ & _ & Hd);
    [done|done|apply demo_admin_parcels|]. exists s'. assert (err = PK_SUCCESS) as ->.
  { apply (f_equal (fmap fst)) in Hr. vm_compute in Hr. congruence. }
  split; [exact Hr|]. clear Hr.
  destruct Hd as [[_ Hn]|(_ & _ & _ & _ & b & [i Hb] & Hch)].
  - destruct (Hn eq_refl). split; [repeat constructor|done].
  - rewrite Hch, <- Hb. vm_compute. reflexivity.
Defined.

Lemma hoard_try_cleanup_collects :
  fst <$> hoard_try_cleanup PK_SUCCESS (fun _ => true) true demo_admin = Some PK_SUCCESS /\
  (fun x => hd_chunks (idx x.2)) <$> hoard_try_cleanup PK_SUCCESS (fun _ => true) true demo_admin =
    Some [mk_hchunk None 0 0 0 false; mk_hchunk None 256 0 0 false].
Proof. split; vm_compute; reflexivity. Qed.
