(* ===== verification/HoardModes.v ===== *)
(** HoardModes: the modes of the parcelkeeper that work on the hoard cache as a whole
    (src/parcelkeeper/hoard_modes.c): fetching all chunks of a parcel, statistics, removing a parcel,
    garbage collection, compaction, and the check of the index and the data.

    The index is attached to state->db as "hoard", and state->hoard is a connection of its own to the same
    file: what one of them has committed is handed to the other ([publish], [refetch]). *)

From stdpp Require Import strings sorting.
From S2P Require Import Prelude Cipher HashStream Sha1 Hash Compress LzfStream Chunk Effects Sql SqlConn SqlRows Pk Util Config Transport Hoard HoardProofs HoardChunks Supply HoardAdmin.

Definition WANT_COMPACT : Z := 0x0200.

(** What state->db has: the tables of the hoard cache, temp.to_check and temp.to_hoard, and the chunks and
    tags of prev.keys.  The slot cache in [m_hoard] is that of the other connection, and no statement here
    looks at it. *)
Record mode_db := mk_mode_db {
  m_hoard : hoard_db;
  to_check : option (list hchunk);
  to_hoard : option (list (Z * list Z));
  prev_chunks : list (Z * list Z)
}.

Definition set_m_hoard v d := mk_mode_db v (to_check d) (to_hoard d) (prev_chunks d).
Definition set_to_check v d := mk_mode_db (m_hoard d) v (to_hoard d) (prev_chunks d).
Definition set_to_hoard v d := mk_mode_db (m_hoard d) (to_check d) v (prev_chunks d).

(** The parcelkeeper, and the local variables that the parts of a function share. *)
Record modes := mk_modes {
  md_flags : Z;
  md_ident : Z;
  md_uuid : string;
  md_supply : supply;
  md_db : db mode_db;
  md_done : bool;
  md_ret : pk_err;
  md_number : Z
}.

Definition set_md_supply v s := mk_modes (md_flags s) (md_ident s) (md_uuid s) v (md_db s) (md_done s) (md_ret s) (md_number s).
Definition set_md_db v s := mk_modes (md_flags s) (md_ident s) (md_uuid s) (md_supply s) v (md_done s) (md_ret s) (md_number s).
Definition set_md_done v s := mk_modes (md_flags s) (md_ident s) (md_uuid s) (md_supply s) (md_db s) v (md_ret s) (md_number s).
Definition set_md_ret v s := mk_modes (md_flags s) (md_ident s) (md_uuid s) (md_supply s) (md_db s) (md_done s) v (md_number s).
Definition set_md_number v s := mk_modes (md_flags s) (md_ident s) (md_uuid s) (md_supply s) (md_db s) (md_done s) (md_ret s) v.

#[global] Program Instance modes_has_db : HasDb modes mode_db := { get_db := md_db; set_db := set_md_db }.
Solve Obligations with done.

Definition md_hoard (s : modes) : hoard_state := stock (md_supply s).
Definition set_md_hoard (h : hoard_state) (s : modes) : modes := set_md_supply (mk_supply h (net (md_supply s))) s.

(** Statements on state->db. *)
Definition mq (A : Type) : Type := mode_db -> stmt_error + mode_db * list A.
Definition mrun {R A} (q : mq A) : pk modes R (bool * list A) := on_db (query (Stmt q)).

(** One on a table of the hoard cache. *)
Definition in_hoard {A} (q : hq A) : mq A := fun d =>
  match q (m_hoard d) with
  | inr (h, rows) => inr (set_m_hoard h d, rows)
  | inl e => inl e
  end.

(** A call that works on state->hoard and the file of the hoard cache. *)
Definition on_hoard {A} (f : hoard_state -> option (A * hoard_state)) (s : modes) : option (A * modes) :=
  '(a, h) ← f (md_hoard s); Some (a, set_md_hoard h s).

(** state->hoard has what state->db has committed, and the other way round. *)
Definition publish (s : modes) : modes :=
  let h := md_hoard s in
  set_md_hoard (set_hoard (set_conn (m_hoard (data (md_db s))) (saved (hoard h)) (hoard h)) h) s.
Definition refetch (s : modes) : modes :=
  let b := md_db s in
  set_md_db (set_conn (set_m_hoard (data (hoard (md_hoard s))) (data b)) (saved b) b) s.

(** * Compaction *)

(** SELECT count(<star>) FROM hoard.chunks WHERE tag NOTNULL *)
Definition sql_count_present : hq Z := fun d =>
  inr (d, [Z.of_nat (length (filter (fun r => is_Some (hc_tag r)) (hd_chunks d)))]).

(** SELECT count(<star>) FROM hoard.chunks WHERE allocated == 0 AND offset < ? *)
Definition sql_count_gaps (offset : Z) : hq Z := fun d =>
  inr (d, [Z.of_nat (length (filter (fun r => hc_allocated r = false /\ hc_offset r < offset) (hd_chunks d)))]).

(** The slots below the length that the file will have, which are those to be filled. *)
Definition count_moves_body (chunksize : Z) : pk modes (pk_err * Z) (pk_err * Z) :=
  ok ← try_db begin;
  if ok : bool then
    '(_, rows) ← mrun (in_hoard sql_count_present);
    has ← gets (fun s => query_has_row (md_db s));
    if negb has then goto_bad (PK_IOERR, 0)
    else
      let offset := s32 (u32 (s32 (default 0 (head rows)) * Z.shiftr chunksize 9)) in
      '(_, rows) ← mrun (in_hoard (sql_count_gaps offset));
      has ← gets (fun s => query_has_row (md_db s));
      if negb has then goto_bad (PK_IOERR, 0)
      else
        ok ← try_db rollback;
        if ok : bool then ret (PK_SUCCESS, s32 (default 0 (head rows))) else goto_bad (PK_IOERR, 0)
  else ret (PK_IOERR, 0).

Definition _compact_hoard_count_moves (chunksize : Z) := transaction (count_moves_body chunksize).

Definition _compact_hoard_move_chunk (from to len crypto : Z) (tag : list Z) : modes -> option (pk_err * modes) := body (
  '(err, buf) ← call (on_hoard (_hoard_read_chunk from len crypto tag));
  if decide (err <> PK_SUCCESS) then ret err
  else
    err ← call (on_hoard (_hoard_write_chunk to buf));
    if decide (err <> PK_SUCCESS) then ret err
    else
      '(ok, _) ← mrun (in_hoard (sql_empty_chunk from));
      if negb ok then ret PK_IOERR
      else
        '(ok, _) ← mrun (in_hoard (sql_fill_chunk (Some tag) len crypto to));
        if negb ok then ret PK_IOERR else ret PK_SUCCESS).

(** The order of the table by offset. *)
Definition lower (a b : hchunk) : Prop := hc_offset a <= hc_offset b.
#[global] Instance lower_dec : RelDecision lower.
Proof. intros a b. unfold lower. apply _. Defined.

Definition by_offset (l : list hchunk) : list hchunk := merge_sort lower l.

(** SELECT tag, offset, length, crypto FROM hoard.chunks WHERE tag NOTNULL ORDER BY offset DESC LIMIT 16. The
    rows are those of the time of the query, while SQLite's cursor may see what the loop does to the table: it comes
    to a chunk that the loop has moved only after all rows above it, when the lowest free slot lies above
    that chunk, and the loop ends there; without that row it ends as well, at the next row or after the last
    one, and leaves the next round to find that there is nothing to do. *)
Definition sql_last_chunks : hq hchunk := fun d =>
  inr (d, take 16 (reverse (by_offset (filter (fun r => is_Some (hc_tag r)) (hd_chunks d))))).

(** SELECT offset FROM hoard.chunks WHERE allocated == 0 ORDER BY offset ASC LIMIT 1 *)
Definition sql_first_free : hq Z := fun d =>
  inr (d, take 1 (hc_offset <$> by_offset (filter (fun r => hc_allocated r = false) (hd_chunks d)))).

(** The loop, which "break" leaves as well; the number of chunks moved is only for the progress meter. *)
Fixpoint move_loop (n : nat) (rows : list hchunk) : pk modes pk_err () :=
  match n with
  | O => fault
  | S n =>
      has ← gets (fun s => query_has_row (md_db s));
      if negb has then pk_ret ()
      else
        match rows with
        | [] => fault
        | r :: _ =>
            let from := s32 (hc_offset r) in
            '(_, slots) ← mrun (in_hoard sql_first_free);
            has ← gets (fun s => query_has_row (md_db s));
            ok ← gets (fun s => query_ok (md_db s));
            if negb has then if ok : bool then modify (set_md_done true) else pk_ret ()
            else
              let to := s32 (default 0 (head slots)) in
              if decide (to >= from) then modify (set_md_done true)
              else
                err ← call (_compact_hoard_move_chunk from to (s32 (hc_length r)) (s32 (hc_crypto r)) (default [] (hc_tag r)));
                _ ← modify (set_md_ret err);
                if decide (err <> PK_SUCCESS) then goto_bad err
                else
                  '(_, rows) ← on_db (query_next rows);
                  move_loop n rows
        end
  end.

(** "ret" is what the last move has left in it. *)
Definition bad_with_ret {A} : pk modes pk_err A := err ← gets md_ret; goto_bad err.

Definition iteration_steps : pk modes pk_err pk_err :=
  '(_, rows) ← mrun (in_hoard sql_last_chunks);
  _ ← move_loop (S (length rows)) rows;
  ok ← gets (fun s => query_ok (md_db s));
  has ← gets (fun s => query_has_row (md_db s));
  if negb ok && negb has then bad_with_ret
  else
    _ ← (if decide (rows = []) then modify (set_md_done true) else pk_ret ());
    ok ← try_db commit;
    if ok : bool then ret PK_SUCCESS else bad_with_ret.

Definition iteration_body : pk modes pk_err pk_err :=
  _ ← modify (set_md_done false);
  _ ← modify (set_md_ret PK_IOERR);
  ok ← try_db begin_immediate;
  if ok : bool then iteration_steps else bad_with_ret.

Definition _compact_hoard_iteration (s : modes) : option (pk_err * modes) :=
  '(err, s) ← transaction iteration_body s; Some (err, publish s).

(** SELECT max(offset) FROM hoard.chunks WHERE allocated == 1: one row, which is NULL if there is none. *)
Definition sql_max_allocated : hq (option Z) := fun d =>
  inr (d, [match hc_offset <$> filter (fun r => hc_allocated r = true) (hd_chunks d) with
           | [] => None
           | o :: os => Some (foldr Z.max o os)
           end]).

(** DELETE FROM hoard.chunks WHERE offset >= ? *)
Definition sql_delete_from (offset : Z) : hq Z := fun d =>
  inr (set_hchunks (filter (fun r => hc_offset r < offset) (hd_chunks d)) d,
       [Z.of_nat (length (filter (fun r => offset <= hc_offset r) (hd_chunks d)))]).

(** ftruncate of the file of the hoard cache, which makes it longer as well, and refuses a negative length. *)
Definition resized (n : nat) (f : list Z) : list Z := take n f ++ replicate (n - length f) 0.

Definition hoard_ftruncate (len : Z) : hoard_state -> option (bool * hoard_state) := body (
  o ← hoard_next_io;
  if decide (o <> None \/ len < 0) then ret false
  else
    _ ← modify (fun s => set_hoard_file (resized (Z.to_nat len) (hoard_file s)) s);
    ret true).

(** The number of slots before, which is only for the log, comes from the first query. *)
Definition truncate_steps (chunksize : Z) : pk modes pk_err pk_err :=
  '(_, rows) ← mrun (in_hoard sql_max_offset);
  has ← gets (fun s => query_has_row (md_db s));
  if negb has then goto_bad PK_IOERR
  else
    '(_, rows) ← mrun (in_hoard sql_max_allocated);
    has ← gets (fun s => query_has_row (md_db s));
    if negb has then goto_bad PK_IOERR
    else
      let offset := match default None (head rows) with
                    | Some m => s32 (s32 m + Z.shiftr chunksize 9)
                    | None => 0
                    end in
      '(ok, _) ← mrun (in_hoard (sql_delete_from offset));
      if negb ok then goto_bad PK_IOERR
      else
        ok ← call (on_hoard (hoard_ftruncate (Z.shiftl offset 9)));
        if negb ok then goto_bad PK_IOERR
        else
          ok ← try_db commit;
          if ok : bool then ret PK_SUCCESS else goto_bad PK_IOERR.

Definition truncate_body (chunksize : Z) : pk modes pk_err pk_err :=
  ok ← try_db begin;
  if ok : bool then truncate_steps chunksize else ret PK_IOERR.

Definition _compact_hoard_truncate (chunksize : Z) (s : modes) : option (pk_err * modes) :=
  '(err, s) ← transaction (truncate_body chunksize) s; Some (err, publish s).

(** "while (!done)": each round that is not the last moves a chunk down or uses up a refusal. *)
Fixpoint compact_loop (n : nat) (s : modes) : option (pk_err * modes) :=
  match n with
  | O => None
  | S n =>
      '(err, s) ← _compact_hoard_iteration s;
      if decide (err <> PK_SUCCESS) then Some (err, s)
      else if md_done s then Some (PK_SUCCESS, s)
      else compact_loop n s
  end.

(** Where the chunks are: a move takes one to a lower offset. *)
Definition height (d : hoard_db) : nat :=
  sum_list_with (fun r => match hc_tag r with Some _ => Z.to_nat (hc_offset r) | None => O end) (hd_chunks d).

Definition compact_rounds (s : modes) : nat := S (height (m_hoard (data (md_db s))) + length (faults (md_db s))).

(** vacuum(state->hoard) *)
Definition hoard_vacuum (s : modes) : option (bool * modes) :=
  on_hoard (fun h => '(ok, b) ← vacuum (hoard h); Some (ok, set_hoard b h)) s.

Definition compact_hoard (s : modes) : option (pk_err * modes) :=
  let chunksize := 131072 in
  '(err, s) ← on_hoard hoard_gc s;
  let s := refetch s in
  if decide (err <> PK_SUCCESS) then Some (err, s)
  else
    '((err, _), s) ← _compact_hoard_count_moves chunksize s;
    if decide (err <> PK_SUCCESS) then Some (err, s)
    else
      '(err, s) ← compact_loop (compact_rounds s) s;
      if decide (err <> PK_SUCCESS) then Some (err, s)
      else
        '(err, s) ← _compact_hoard_truncate chunksize s;
        if decide (err <> PK_SUCCESS) then Some (err, s)
        else
          '(ok, s) ← hoard_vacuum s;
          if negb ok then Some (PK_IOERR, s) else Some (PK_SUCCESS, s).

(** * The check *)

(** SELECT uuid FROM hoard.parcels *)
Definition sql_uuids : hq string := fun d => inr (d, hp_uuid <$> hd_parcels d).

(** DELETE FROM hoard.parcels WHERE uuid == ? *)
Definition sql_delete_uuid (uuid : string) : hq Z := fun d =>
  inr (set_hparcels (filter (fun r => hp_uuid r <> uuid) (hd_parcels d)) d,
       changes (fun r => hp_uuid r = uuid) (hd_parcels d)).

(** SELECT offset FROM hoard.chunks ORDER BY offset *)
Definition sql_offsets : hq Z := fun d => inr (d, hc_offset <$> by_offset (hd_chunks d)).

(** SELECT offset, tag, crypto FROM hoard.chunks *)
Definition sql_chunks : hq hchunk := fun d => inr (d, hd_chunks d).

(** UPDATE hoard.chunks SET tag = NULL, length = 0, crypto = 0, allocated = 0 WHERE length < 0 OR length >
    131072 OR (length == 0 AND tag NOTNULL) *)
Definition bad_length (r : hchunk) : Prop :=
  hc_length r < 0 \/ hc_length r > 131072 \/ hc_length r = 0 /\ is_Some (hc_tag r).
Definition sql_clean_lengths : hq Z := fun d =>
  inr (set_hchunks (update bad_length emptied (hd_chunks d)) d, changes bad_length (hd_chunks d)).

(** UPDATE hoard.chunks SET tag = NULL, length = 0, crypto = 0, allocated = 0 WHERE allocated != 0 AND
    allocated != 1. The flag is a bool here, so that no row has another value and nothing changes; a database in
    which the column holds something else is outside the model. *)
Definition sql_clean_flags : hq Z := fun d => inr (d, [0]).

(** UPDATE hoard.chunks SET tag = NULL, length = 0, crypto = 0 WHERE allocated == 0 AND tag NOTNULL *)
Definition stray (r : hchunk) : Prop := hc_allocated r = false /\ is_Some (hc_tag r).
Definition sql_clean_strays : hq Z := fun d =>
  inr (set_hchunks (update stray emptied (hd_chunks d)) d, changes stray (hd_chunks d)).

(** DELETE FROM hoard.refs WHERE parcel NOT IN (SELECT parcel FROM hoard.parcels) *)
Definition dangling (d : hoard_db) (r : Z * list Z) : Prop := ~ r.1 ∈ hp_parcel <$> hd_parcels d.
Definition sql_clean_refs : hq Z := fun d =>
  inr (mk_hoard (hd_chunks d) (filter (fun r => ~ dangling d r) (hd_refs d)) (hd_slots d) (hd_parcels d),
       changes (dangling d) (hd_refs d)).

(** CREATE TEMP TABLE to_check AS SELECT tag, offset, length, crypto FROM hoard.chunks WHERE tag NOTNULL ORDER
    BY offset *)
Definition sql_create_to_check : mq () := fun d =>
  match to_check d with
  | Some _ => inl E_ERROR
  | None => inr (set_to_check (Some (by_offset (filter (fun r => is_Some (hc_tag r)) (hd_chunks (m_hoard d))))) d, [])
  end.

(** SELECT sum(length) FROM temp.to_check *)
Definition sql_sum_to_check : mq (option Z) := fun d =>
  match to_check d with
  | Some rows => inr (d, [if decide (rows = []) then None else Some (foldr Z.add 0 (hc_length <$> rows))])
  | None => inl E_ERROR
  end.

(** SELECT tag, offset, length, crypto FROM temp.to_check *)
Definition sql_to_check : mq hchunk := fun d => match to_check d with Some rows => inr (d, rows) | None => inl E_ERROR end.

(** DROP TABLE temp.to_check *)
Definition sql_drop_to_check : mq () := fun d =>
  match to_check d with Some _ => inr (set_to_check None d, []) | None => inl E_ERROR end.

(** ** The data *)

Definition check_row {R} (r : hchunk) : pk modes R () :=
  '(err, _) ← call (on_hoard (_hoard_read_chunk (s32 (hc_offset r)) (s32 (hc_length r)) (s32 (hc_crypto r)) (default [] (hc_tag r))));
  if decide (err <> PK_SUCCESS) then
    _ ← call (on_hoard (hoard_invalidate_chunk (s32 (hc_offset r)) (default [] (hc_tag r))));
    pk_ret ()
  else pk_ret ().

(** The flag of the result says whether it comes from "bad:", where the table is dropped after all. *)
Definition check_data_steps : pk modes (pk_err * bool) (pk_err * bool) :=
  '(_, rows) ← mrun sql_sum_to_check;
  has ← gets (fun s => query_has_row (md_db s));
  if negb has then goto_bad (PK_IOERR, true)
  else
    _ ← for_each sql_to_check check_row;
    ok ← gets (fun s => query_ok (md_db s));
    if negb ok then goto_bad (PK_IOERR, true)
    else
      '(ok, _) ← mrun sql_drop_to_check;
      if negb ok then goto_bad (PK_IOERR, true)
      else
        ok ← try_db commit;
        if ok : bool then ret (PK_SUCCESS, false) else goto_bad (PK_IOERR, true).

Definition check_data_body : pk modes (pk_err * bool) (pk_err * bool) :=
  ok ← try_db begin;
  if ok : bool then check_data_steps else ret (PK_IOERR, false).

(** "DROP TABLE" in a transaction of its own, whose failures are only logged. *)
Definition drop_temp (q : mq ()) : modes -> option (() * modes) := body (
  ok ← try_db begin;
  if negb ok then ret ()
  else
    _ ← mrun q;
    ok ← try_db commit;
    if ok : bool then ret () else _ ← try_db rollback; ret ()).

Definition check_hoard_data (s : modes) : option (pk_err * modes) :=
  '((err, drop), s) ← transaction check_data_body s;
  '(_, s) ← (if drop : bool then drop_temp sql_drop_to_check s else Some ((), s));
  Some (err, refetch s).

(** ** The index *)

Section check.
Context `{!LibUuid}.

Definition check_uuid (uuid : string) : pk modes Z () :=
  if decide ((canonicalize_uuid uuid).1 = PK_INVALID) then
    '(ok, _) ← mrun (in_hoard (sql_delete_uuid uuid));
    if negb ok then goto_bad 1 else pk_ret ()
  else pk_ret ().

(** next_offset is in [md_number]. *)
Definition check_offset (o : Z) : pk modes Z () :=
  next ← gets md_number;
  if decide (s32 o <> next) then goto_bad 1 else modify (set_md_number (s32 (next + 256))).

(** The pointer to an empty tag is NULL. *)
Definition bad_crypto (r : hchunk) : Prop :=
  match hc_tag r with
  | None | Some [] => s32 (hc_crypto r) <> 0
  | Some tag => iu_chunk_crypto_is_valid (s32 (hc_crypto r)) = false \/ iu_chunk_crypto_hashlen (s32 (hc_crypto r)) <> length tag
  end.

#[global] Instance bad_crypto_dec r : Decision (bad_crypto r).
Proof. unfold bad_crypto. destruct (hc_tag r) as [[]|]; apply _. Defined.

Definition check_crypto (r : hchunk) : pk modes Z () :=
  if decide (bad_crypto r) then
    '(ok, _) ← mrun (in_hoard (sql_empty_chunk (s32 (hc_offset r))));
    if negb ok then goto_bad 1 else pk_ret ()
  else pk_ret ().

(** A loop of the check, and its statements cleanup_action(state->db, ...), which lead to "bad:". *)
Definition check_all {A} (q : mq A) (m : A -> pk modes Z ()) : pk modes Z () :=
  _ ← for_each q m;
  ok ← gets (fun s => query_ok (md_db s));
  if negb ok then goto_bad 1 else pk_ret ().

Definition clean (q : mq Z) : pk modes Z () :=
  '(ok, _) ← mrun q; if negb ok then goto_bad 1 else pk_ret ().

Definition check_steps : pk modes Z Z :=
  _ ← check_all (in_hoard sql_uuids) check_uuid;
  _ ← modify (set_md_number 0);
  _ ← check_all (in_hoard sql_offsets) check_offset;
  _ ← check_all (in_hoard sql_chunks) check_crypto;
  _ ← clean (in_hoard sql_clean_lengths);
  _ ← clean (in_hoard sql_clean_flags);
  _ ← clean (in_hoard sql_clean_strays);
  _ ← clean (in_hoard sql_clean_refs);
  full ← gets (fun s => has_flag (md_flags s) WANT_FULL_CHECK);
  '(ok, _) ← (if full : bool then mrun sql_create_to_check else pk_ret (true, []));
  if negb ok then goto_bad 1
  else
    ok ← try_db commit;
    if ok : bool then ret 0 else goto_bad 1.

Definition check_body : pk modes Z Z :=
  ok ← try_db begin; if ok : bool then check_steps else ret 1.

(** [check] is the answer of "PRAGMA integrity_check(50)", see SqlConn.v. *)
Definition check_hoard (check : mode_db -> list bool) (s : modes) : option (Z * modes) :=
  '(valid, b) ← validate_db check (md_db s);
  let s := set_md_db b s in
  if negb valid then Some (1, s)
  else
    '(r, s) ← transaction check_body s;
    let s := publish s in
    if decide (r <> 0) then Some (r, s)
    else
      '(err, s) ← (if has_flag (md_flags s) WANT_FULL_CHECK then check_hoard_data s else Some (PK_SUCCESS, s));
      if decide (err <> PK_SUCCESS) then Some (1, s)
      else
        '(err, s) ← (if has_flag (md_flags s) WANT_COMPACT then compact_hoard s else Some (PK_SUCCESS, s));
        if decide (err <> PK_SUCCESS) then Some (1, s) else Some (0, s).
End check.

(** * Fetching all chunks *)

(** CREATE TEMP TABLE to_hoard (chunk INTEGER NOT NULL, tag BLOB UNIQUE NOT NULL) *)
Definition sql_create_to_hoard : mq () := fun d =>
  match to_hoard d with Some _ => inl E_ERROR | None => inr (set_to_hoard (Some []) d, []) end.

(** The rows with the first occurrence of each tag. *)
Fixpoint distinct (seen : list (list Z)) (rows : list (Z * list Z)) : list (Z * list Z) :=
  match rows with
  | [] => []
  | r :: rows => if decide (r.2 ∈ seen) then distinct seen rows else r :: distinct (r.2 :: seen) rows
  end.

(** INSERT OR IGNORE INTO temp.to_hoard (chunk, tag) SELECT chunk, tag FROM prev.keys WHERE tag NOT IN (SELECT
    tag FROM hoard.chunks): SQLite 3.5.9, which comes with the program, ignores the NULLs among the tags. *)
Definition sql_fill_to_hoard : mq Z := fun d =>
  match to_hoard d with
  | None => inl E_ERROR
  | Some old =>
      let new := distinct old.*2 (filter (fun r => ~ r.2 ∈ omap hc_tag (hd_chunks (m_hoard d))) (prev_chunks d)) in
      inr (set_to_hoard (Some (old ++ new)) d, [Z.of_nat (length new)])
  end.

(** SELECT count(<star>) FROM temp.to_hoard *)
Definition sql_count_to_hoard : mq Z := fun d =>
  match to_hoard d with Some rows => inr (d, [Z.of_nat (length rows)]) | None => inl E_ERROR end.

(** SELECT chunk, tag FROM temp.to_hoard *)
Definition sql_to_hoard : mq (Z * list Z) := fun d => match to_hoard d with Some rows => inr (d, rows) | None => inl E_ERROR end.

(** DROP TABLE temp.to_hoard *)
Definition sql_drop_to_hoard : mq () := fun d =>
  match to_hoard d with Some _ => inr (set_to_hoard None d, []) | None => inl E_ERROR end.

(** The number of chunks to hoard; the transaction is left open on success. *)
Definition build_table_body : pk modes (pk_err * Z) (pk_err * Z) :=
  ok ← try_db begin;
  if ok : bool then
    '(ok, _) ← mrun sql_create_to_hoard;
    if negb ok then goto_bad (PK_IOERR, 0)
    else
      '(ok, _) ← mrun sql_fill_to_hoard;
      if negb ok then goto_bad (PK_IOERR, 0)
      else
        '(_, rows) ← mrun sql_count_to_hoard;
        has ← gets (fun s => query_has_row (md_db s));
        if negb has then goto_bad (PK_IOERR, 0) else ret (PK_SUCCESS, s32 (default 0 (head rows)))
  else ret (PK_IOERR, 0).

Definition build_hoard_table := transaction build_table_body.

(** SELECT tag FROM chunks WHERE tag == ? *)
Definition sql_has_tag (tag : list Z) : hq (list Z) := fun d =>
  inr (d, omap hc_tag (filter (fun r => hc_tag r = Some tag) (hd_chunks d))).

Definition need_fetch_body (tag : list Z) : pk hoard_state bool bool :=
  ok ← try_db begin;
  if ok : bool then
    _ ← hrun (sql_has_tag tag);
    has ← gets (fun s => query_has_row (hoard s));
    ok ← gets (fun s => query_ok (hoard s));
    if has : bool then _ ← try_db rollback; ret false
    else if negb ok then goto_bad true
    else _ ← try_db rollback; ret true
  else ret true.

Definition need_fetch (tag : list Z) : hoard_state -> option (bool * hoard_state) := transaction (need_fetch_body tag).

Section fetch.
Context `{!Curl} (url_prefix : string).

Definition on_supply {A} (f : supply -> option (A * supply)) (s : modes) : option (A * modes) :=
  '(a, x) ← f (md_supply s); Some (a, set_md_supply x s).

(** The body of the loop; [buf] is the buffer, whose contents do not matter. *)
Definition hoard_row (buf : list Z) (r : Z * list Z) : pk modes () () :=
  let tag := r.2 in
  p ← gets (fun s => h_parcel (md_hoard s));
  if decide (Z.of_nat (length tag) <> hashlen p) then goto_bad ()
  else
    need ← call (on_hoard (need_fetch tag));
    if need : bool then
      '(err, _) ← call (on_supply (fetch_and_hoard url_prefix buf (u32 r.1) tag));
      if decide (err <> PK_SUCCESS) then goto_bad () else pk_ret ()
    else pk_ret ().

(** "ret" is in [md_number]: 0 once the loop has been run to its end. *)
Definition hoard_steps (buf : list Z) : pk modes () () :=
  _ ← for_each sql_to_hoard (hoard_row buf);
  ok ← gets (fun s => query_ok (md_db s));
  _ ← (if ok : bool then modify (set_md_number 0) else pk_ret ());
  goto_bad ().

Definition hoard_body (buf : list Z) : pk modes () () :=
  ok ← try_db begin; if ok : bool then hoard_steps buf else ret ().

(** From "out_early:": whether the table could not be dropped for want of a transaction. *)
Definition hoard_end : modes -> option (Z * modes) := body (
  ok ← try_db begin;
  if negb ok then ret 13 (* PK_SQLERR *)
  else
    _ ← mrun sql_drop_to_hoard;
    ok ← try_db commit;
    _ ← (if ok : bool then pk_ret true else try_db rollback);
    r ← gets md_number;
    ret r).

(** hoard() of hoard_modes.c *)
Definition hoard_all (buf : list Z) (s : modes) : option (Z * modes) :=
  '((err, n), s) ← build_hoard_table s;
  if decide (err <> PK_SUCCESS) then Some (1, s)
  else if has_flag (md_flags s) WANT_CHECK then
    '(_, b) ← rollback (md_db s);
    Some (if decide (n = 0) then 0 else 1, set_md_db b s)
  else
    '(ok, b) ← commit (md_db s);
    let s := set_md_db b s in
    if negb ok then '(_, b) ← rollback (md_db s); Some (1, set_md_db b s)
    else
      '(_, s) ← transaction (hoard_body buf) (set_md_number 1 s);
      '(r, s) ← hoard_end s;
      Some (r, refetch s).
End fetch.

(** * Statistics *)

(** SELECT count(<star>) FROM hoard.refs AS refs WHERE refs.parcel == ? *)
Definition sql_count_refs (ident : Z) : hq Z := fun d =>
  inr (d, [Z.of_nat (length (filter (fun r => r.1 = ident) (hd_refs d)))]).

(** SELECT count(<star>) FROM hoard.refs AS refs JOIN hoard.chunks AS chunks ON chunks.tag == refs.tag WHERE
    refs.parcel == ? *)
Definition sql_count_hoarded (ident : Z) : hq Z := fun d =>
  inr (d, [Z.of_nat (length (filter (fun r => r.1 = ident /\ r.2 ∈ omap hc_tag (hd_chunks d)) (hd_refs d)))]).

Definition examine_body : pk modes (option (Z * Z)) (option (Z * Z)) :=
  ok ← try_db begin;
  if ok : bool then
    ident ← gets md_ident;
    '(_, rows) ← mrun (in_hoard (sql_count_refs ident));
    has ← gets (fun s => query_has_row (md_db s));
    if negb has then goto_bad None
    else
      let max := s32 (default 0 (head rows)) in
      '(_, rows) ← mrun (in_hoard (sql_count_hoarded ident));
      has ← gets (fun s => query_has_row (md_db s));
      if negb has then goto_bad None
      else
        ok ← try_db commit;
        if ok : bool then ret (Some (max, s32 (default 0 (head rows)))) else goto_bad None
  else ret None.

(** The exit code, and what is printed: percentage, megabytes and megabytes at most. *)
Definition examine_hoard (s : modes) : option (Z * option (Z * Z * Z) * modes) :=
  '(r, s) ← transaction examine_body s;
  match r with
  | None => Some (1, None, s)
  | Some (max, valid) =>
      let mb n := u32 (Z.shiftr (u32 n * chunksize (h_parcel (md_hoard s))) 20) in
      Some (0, Some (if decide (u32 max <> 0) then u32 (100 * u32 valid) / u32 max else 100, mb valid, mb max), s)
  end.

(** A line of the list of parcels: names, chunks, and chunks of this parcel alone. *)
Record parcel_line := mk_line { ln_parcel : hparcel; ln_total : Z; ln_unique : Z }.

(** SELECT count(<star>) FROM hoard.chunks WHERE allocated == 0 *)
Definition sql_count_unused : hq Z := fun d =>
  inr (d, [Z.of_nat (length (filter (fun r => hc_allocated r = false) (hd_chunks d)))]).

(** SELECT hoard.parcels.parcel, uuid, server, user, name, total, uniq FROM hoard.parcels LEFT JOIN (SELECT parcel,
    count(<star>) AS total FROM hoard.refs WHERE tag IN (SELECT tag FROM hoard.chunks) GROUP BY parcel) AS sub1 ON
    parcels.parcel == sub1.parcel LEFT JOIN (SELECT parcel, count(parcel) AS uniq FROM (SELECT parcel FROM
    hoard.refs WHERE tag IN (SELECT tag FROM hoard.chunks) GROUP BY tag HAVING count(<star>) == 1) GROUP BY parcel)
    AS sub2 ON parcels.parcel == sub2.parcel *)
Definition sql_list_parcels : hq parcel_line := fun d =>
  let mine p := filter (fun r => r.1 = hp_parcel p /\ r.2 ∈ omap hc_tag (hd_chunks d)) (hd_refs d) in
  inr (d, (fun p => mk_line p (Z.of_nat (length (mine p)))
                      (Z.of_nat (length (filter (fun r => length (filter (fun q => q.2 = r.2) (hd_refs d)) = 1%nat) (mine p))))) <$> hd_parcels d).

(** The lines printed, in a state of its own; a retry prints them again. *)
Record listing := mk_listing { ls_modes : modes; ls_lines : list parcel_line; ls_shared : Z; ls_unused : Z; ls_ret : Z }.

#[global] Program Instance listing_has_db : HasDb listing mode_db := {
  get_db s := md_db (ls_modes s);
  set_db b s := mk_listing (set_md_db b (ls_modes s)) (ls_lines s) (ls_shared s) (ls_unused s) (ls_ret s)
}.
Solve Obligations with done.

Definition lrun {R A} (q : hq A) : pk listing R (bool * list A) := on_db (query (Stmt (in_hoard q))).

Definition list_line (l : parcel_line) : pk listing () () :=
  modify (fun s => mk_listing (ls_modes s) (ls_lines s ++ [l]) (s32 (ls_shared s - s32 (ln_unique l))) (ls_unused s) (ls_ret s)).

Definition list_steps : pk listing () () :=
  '(_, rows) ← lrun sql_count_present;
  has ← gets (fun s => query_has_row (get_db s));
  if negb has then goto_bad ()
  else
    _ ← modify (fun s => mk_listing (ls_modes s) (ls_lines s) (s32 (default 0 (head rows))) (ls_unused s) (ls_ret s));
    '(_, rows) ← lrun sql_count_unused;
    has ← gets (fun s => query_has_row (get_db s));
    if negb has then goto_bad ()
    else
      _ ← modify (fun s => mk_listing (ls_modes s) (ls_lines s) (ls_shared s) (s32 (default 0 (head rows))) (ls_ret s));
      _ ← for_each (in_hoard sql_list_parcels) list_line;
      ok ← gets (fun s => query_ok (get_db s));
      _ ← (if ok : bool then modify (fun s => mk_listing (ls_modes s) (ls_lines s) (ls_shared s) (ls_unused s) 0) else pk_ret ());
      goto_bad ().

Definition list_body : pk listing () () :=
  ok ← try_db begin;
  if ok : bool then list_steps
  else _ ← modify (fun s => mk_listing (ls_modes s) (ls_lines s) (ls_shared s) (ls_unused s) 1); ret ().

Definition list_hoard (s : modes) : option (() * listing) := transaction list_body (mk_listing s [] 0 0 1).

(** * Removing a parcel, and the rest *)

(** SELECT parcel, server, user, name FROM hoard.parcels WHERE uuid == ? *)
Definition sql_parcel_of (uuid : string) : hq hparcel := fun d =>
  inr (d, filter (fun r => hp_uuid r = uuid) (hd_parcels d)).

(** DELETE FROM hoard.refs WHERE parcel == ? *)
Definition sql_delete_refs (ident : Z) : hq Z := fun d =>
  inr (mk_hoard (hd_chunks d) (filter (fun r => r.1 <> ident) (hd_refs d)) (hd_slots d) (hd_parcels d),
       [Z.of_nat (length (filter (fun r => r.1 = ident) (hd_refs d)))]).

Definition rmhoard_body : pk modes Z Z :=
  ok ← try_db begin;
  if ok : bool then
    uuid ← gets md_uuid;
    '(_, rows) ← mrun (in_hoard (sql_parcel_of uuid));
    ok ← gets (fun s => query_ok (md_db s));
    has ← gets (fun s => query_has_row (md_db s));
    if ok : bool then _ ← try_db rollback; ret 0
    else if negb has then goto_bad 1
    else
      match rows with
      | [] => fault
      | r :: _ =>
          '(ok, _) ← mrun (in_hoard (sql_delete_refs (s32 (hp_parcel r))));
          if negb ok then goto_bad 1
          else
            ok ← try_db commit;
            if ok : bool then ret 0 else goto_bad 1
      end
  else ret 1.

Definition rmhoard (s : modes) : option (Z * modes) := '(r, s) ← transaction rmhoard_body s; Some (r, publish s).

Definition gchoard (s : modes) : option (Z * modes) :=
  '(err, s) ← on_hoard hoard_gc s;
  let s := refetch s in
  if decide (err <> PK_SUCCESS) then Some (1, s)
  else
    '(ok, s) ← hoard_vacuum s;
    Some (if ok : bool then 0 else 1, s).
