(* ===== verification/HoardCompact.v ===== *)
(** HoardCompact: the compaction of the hoard cache (compact_hoard of HoardModes.v) loses no chunk, whatever
    fails, ends, and leaves no gap. *)

From stdpp Require Import strings sorting.
From S2P Require Import Prelude Cipher HashStream Sha1 Hash Compress LzfStream Chunk Effects Sql SqlConn SqlRows Pk Util Config Transport Hoard HoardProofs HoardChunks Supply HoardAdmin HoardModes.

#[local] Opaque Fips180.sha1.

(** * Moving a chunk *)

(** The same chunks, in the same slots or others, and nothing else has changed. *)
Record relocated (d d' : hoard_db) : Prop := mk_relocated {
  rl_offsets : hc_offset <$> hd_chunks d' = hc_offset <$> hd_chunks d;
  rl_slots : hd_slots d' = hd_slots d;
  rl_refs : hd_refs d' = hd_refs d;
  rl_parcels : hd_parcels d' = hd_parcels d;
  rl_chunks t : (exists o l, chunk_entry d' t o l) <-> (exists o l, chunk_entry d t o l);
  rl_reserved r : hc_allocated r = true -> hc_tag r = None -> r ∈ hd_chunks d' <-> r ∈ hd_chunks d
}.

#[global] Instance relocated_preorder : PreOrder relocated.
Proof.
  split; [by split|]. intros d1 d2 d3 [] []. split; try congruence.
  - intros t. by rewrite rl_chunks1.
  - intros r Ha Ht. by rewrite rl_reserved1, rl_reserved0.
Qed.

Lemma relocated_indexed d d' t : relocated d d' -> indexed d' t <-> indexed d t.
Proof.
  intros Hr. pose proof (rl_chunks _ _ Hr t) as Hc. pose proof (rl_slots _ _ Hr) as Hs.
  assert (forall o l, slot_entry d' t o l <-> slot_entry d t o l) as Hse by (intros; unfold slot_entry; by rewrite Hs).
  unfold indexed, entry. split; intros (o & l & [He|He]).
  - exists o, l. left. by apply Hse.
  - destruct (proj1 Hc) as (o' & l' & ?); [eauto|]. exists o', l'. by right.
  - exists o, l. left. by apply Hse.
  - destruct (proj2 Hc) as (o' & l' & ?); [eauto|]. exists o', l'. by right.
Qed.

(** The encryption of all chunks is known. *)
Definition known_crypto (d : hoard_db) : Prop :=
  forall r, r ∈ hd_chunks d -> is_Some (hc_tag r) -> hc_crypto r = IU_CHUNK_CRY_AES_SHA1.

(** An index that compaction can work on, and a file that goes with it. *)
Record compactable (d : hoard_db) (f : list Z) : Prop := mk_compactable {
  cp_wf : hoard_wf d;
  cp_sound : sound d f;
  cp_crypto : known_crypto d;
  cp_bytes : bytes f
}.

Section move.
Context (d : hoard_db) (f : list Z) (r q : hchunk) (t : list Z) (Hd : compactable d f).
Context (Hr : r ∈ hd_chunks d) (Ht : hc_tag r = Some t) (Hq : q ∈ hd_chunks d) (Hfree : hc_allocated q = false).

Definition moved_row : hchunk := mk_hchunk (Some t) (hc_offset q) (hc_length r) (hc_crypto r) true.

(** The index after the two statements. *)
Definition moved : hoard_db :=
  set_hchunks (update (fun x => hc_offset x = hc_offset q)
                 (fun x => mk_hchunk (Some t) (hc_offset x) (hc_length r) (hc_crypto r) true)
                 (update (fun x => hc_offset x = hc_offset r) emptied (hd_chunks d))) d.

Lemma q_empty : hc_tag q = None.
Proof. by apply (wf_free d (cp_wf _ _ Hd)). Qed.

Lemma q_apart : hc_offset q <> hc_offset r.
Proof.
  pose proof q_empty. intros Ho. pose proof (offset_inj hc_offset _ _ _ (wf_chunk_offsets d (cp_wf _ _ Hd)) Hq Hr Ho). congruence.
Qed.

Lemma elem_of_moved x : x ∈ hd_chunks moved <->
  x ∈ hd_chunks d /\ hc_offset x <> hc_offset r /\ hc_offset x <> hc_offset q \/ x = emptied r \/ x = moved_row.
Proof.
  pose proof q_apart as Hne. pose proof (wf_chunk_offsets d (cp_wf _ _ Hd)) as Hnd.
  unfold moved. cbn [hd_chunks set_hchunks]. rewrite elem_of_update. setoid_rewrite elem_of_update. split.
  - intros (x1 & (x0 & Hx0 & [[Ho ->]|[Ho ->]]) & [[Ho1 ->]|[Ho1 ->]]); cbn [emptied hc_offset] in *.
    + congruence.
    + right. left. by rewrite (offset_inj hc_offset _ _ _ Hnd Hx0 Hr Ho).
    + right. right. unfold moved_row. by rewrite Ho1.
    + by left.
  - intros [(Hx & Ho & Ho1)|[->| ->]].
    + exists x. split; [|by right]. exists x. split; [done|by right].
    + exists (emptied r). split; [|right; split; [cbn; congruence|done]]. exists r. split; [done|by left].
    + exists q. split; [|by left]. exists q. split; [done|by right].
Qed.

Lemma move_statements :
  exists n1 n2, sql_empty_chunk (hc_offset r) d = inr (set_hchunks (update (fun x => hc_offset x = hc_offset r) emptied (hd_chunks d)) d, n1) /\
    sql_fill_chunk (Some t) (hc_length r) (hc_crypto r) (hc_offset q)
      (set_hchunks (update (fun x => hc_offset x = hc_offset r) emptied (hd_chunks d)) d) = inr (moved, n2).
Proof.
  eexists _, _. split; [done|]. unfold sql_fill_chunk. rewrite decide_False; [done|].
  intros (x & Hx & _ & Hxt & _)%Exists_exists. apply elem_of_update in Hx as (x0 & Hx0 & [[_ ->]|[Ho ->]]); [done|].
  apply Ho. f_equal. by apply (wf_chunk_tags d (cp_wf _ _ Hd) x0 r t).
Qed.

Lemma moved_entry t' o l : chunk_entry moved t' o l <->
  if decide (t' = t) then o = hc_offset q /\ l = hc_length r else chunk_entry d t' o l.
Proof.
  pose proof (cp_wf _ _ Hd) as Hwf. unfold chunk_entry at 1. setoid_rewrite elem_of_moved. case_decide as Heq.
  - subst t'. split.
    + intros (x & [(Hx & Ho & _)|[->| ->]] & Hxt & <- & <-); [|done|done].
      destruct Ho. by rewrite (wf_chunk_tags d Hwf x r t).
    + intros [-> ->]. exists moved_row. split; [by right; right|done].
  - split.
    + intros (x & [(Hx & _)|[->| ->]] & Hxt & Ho & Hl); [by exists x|done|]. cbn in Hxt. congruence.
    + intros (x & Hx & Hxt & Ho & Hl). exists x. split; [|done]. left. split; [done|]. split; intros Hxo.
      * pose proof (offset_inj hc_offset _ _ _ (wf_chunk_offsets d Hwf) Hx Hr Hxo). congruence.
      * pose proof (offset_inj hc_offset _ _ _ (wf_chunk_offsets d Hwf) Hx Hq Hxo). pose proof q_empty. congruence.
Qed.

Lemma moved_relocated : relocated d moved.
Proof.
  pose proof (cp_wf _ _ Hd) as Hwf. split; try done.
  - unfold moved. cbn [hd_chunks set_hchunks]. by rewrite !update_fmap.
  - intros t'. setoid_rewrite moved_entry. destruct (decide (t' = t)) as [->|?]; [|done]. split; [|by eauto].
    intros _. exists (hc_offset r), (hc_length r), r. by split_and!.
  - intros x Ha Hx. rewrite elem_of_moved. split.
    + intros [[? _]|[->| ->]]; done.
    + intros Hin. left. split; [done|]. split; intros Ho.
      * pose proof (offset_inj hc_offset _ _ _ (wf_chunk_offsets d Hwf) Hin Hr Ho). congruence.
      * pose proof (offset_inj hc_offset _ _ _ (wf_chunk_offsets d Hwf) Hin Hq Ho). congruence.
Qed.

Lemma moved_wf : hoard_wf moved.
Proof.
  pose proof moved_relocated as [Hoff Hsl _ _ _ Hres]. pose proof (cp_wf _ _ Hd) as [Hco Hct Hso Hst Hre Hf Hal Hint].
  split; rewrite ?Hoff, ?Hsl; try done.
  - intros x y t' Hx Hy Hxt Hyt. apply elem_of_moved in Hx as [(Hx & Hxo & _)|[->| ->]];
      apply elem_of_moved in Hy as [(Hy & Hyo & _)|[->| ->]]; try done.
    + by eapply Hct.
    + cbn in Hyt. destruct Hxo. f_equal. apply (Hct x r t'); [done|done|done|congruence].
    + cbn in Hxt. destruct Hyo. f_equal. apply (Hct y r t'); [done|done|done|congruence].
  - intros sl Hsl'. destruct (Hre sl Hsl') as (x & Hx & Ho & Ha & Hxt). exists x. split; [by apply Hres|done].
  - intros x [(Hx & _)|[->| ->]]%elem_of_moved Ha; [by apply Hf|done|done].
  - intros x [(Hx & _)|[->| ->]]%elem_of_moved; [by apply Hal|by apply (Hal r)|by apply (Hal q)].
Qed.

(** No chunk is where the free slot is. *)
Lemma free_unused t' o l : firm d t' o l -> aligned o /\ o <> hc_offset q.
Proof.
  pose proof (cp_wf _ _ Hd) as Hwf. intros Hf. split; [by eapply (entry_aligned d Hwf), firm_entry|]. intros ->.
  destruct Hf as [(x & Hx & Hxt & Ho & _)|[(sl & Hsl & _ & Ho & _) _]].
  - pose proof (offset_inj hc_offset _ _ _ (wf_chunk_offsets d Hwf) Hx Hq Ho). pose proof q_empty. congruence.
  - destruct (wf_reserved d Hwf sl Hsl) as (x & Hx & Hxo & Ha & _).
    pose proof (offset_inj hc_offset _ _ _ (wf_chunk_offsets d Hwf) Hx Hq ltac:(congruence)). congruence.
Qed.

Lemma free_aligned : aligned (hc_offset q).
Proof. by apply (wf_aligned d (cp_wf _ _ Hd)). Qed.

Context (data : list Z) (Hlen : (length data <= Z.to_nat SLOT_SIZE)%nat) (Hdata : bytes data).

Lemma write_sound : sound d (file_write f (place (hc_offset q)) data).
Proof.
  intros t' o l Hf. destruct (cp_sound _ _ Hd t' o l Hf) as (Hl & Hfull & Hsha). destruct (free_unused t' o l Hf) as [Hal Hne].
  rewrite content_write; [done|apply free_aligned|done|congruence|done|done|done].
Qed.

Lemma moved_sound :
  content (file_write f (place (hc_offset q)) data) (hc_offset q) (hc_length r) = content f (hc_offset r) (hc_length r) ->
  sound moved (file_write f (place (hc_offset q)) data).
Proof.
  intros Hcopy t' o l Hf. assert (firm d t (hc_offset r) (hc_length r)) as Hfr by (left; by exists r).
  destruct (decide (t' = t)) as [->|Hne].
  - assert (o = hc_offset q /\ l = hc_length r) as [-> ->].
    { destruct Hf as [He|[_ Hn]]; [apply moved_entry in He; by rewrite decide_True in He|].
      destruct Hn. exists (hc_offset q), (hc_length r). apply moved_entry. by rewrite decide_True. }
    rewrite Hcopy. by apply (cp_sound _ _ Hd).
  - apply write_sound. destruct Hf as [He|[Hs Hn]].
    + left. apply moved_entry in He. by rewrite decide_False in He.
    + right. split; [exact Hs|]. intros (o' & l' & He). apply Hn. exists o', l'. apply moved_entry. by rewrite decide_False.
Qed.

Lemma moved_compactable :
  content (file_write f (place (hc_offset q)) data) (hc_offset q) (hc_length r) = content f (hc_offset r) (hc_length r) ->
  compactable moved (file_write f (place (hc_offset q)) data).
Proof.
  intros Hcopy. split; [apply moved_wf|by apply moved_sound| |apply bytes_file_write; [apply Hd|done]].
  intros x [(Hx & _)|[->| ->]]%elem_of_moved; [by apply (cp_crypto _ _ Hd)|by intros []|].
  intros _. apply (cp_crypto _ _ Hd r Hr). by rewrite Ht.
Qed.
End move.

(** ** Heights *)

Local Abbreviation weight := (fun r => match hc_tag r with Some _ => Z.to_nat (hc_offset r) | None => O end).

Lemma sum_perm {A} (f : A -> nat) l l' : l ≡ₚ l' -> sum_list_with f l = sum_list_with f l'.
Proof. induction 1; simpl; lia. Qed.

Lemma sum_fmap {A B} (f : B -> nat) (g : A -> B) l : sum_list_with f (g <$> l) = sum_list_with (fun x => f (g x)) l.
Proof. induction l as [|x l IH]; [done|]. rewrite fmap_cons. cbn [sum_list_with]. by rewrite IH. Qed.

Lemma sum_ext {A} (f g : A -> nat) l : (forall x, x ∈ l -> f x = g x) -> sum_list_with f l = sum_list_with g l.
Proof.
  induction l as [|x l IH]; intros H; simpl; [done|]. rewrite (H x) by by left. f_equal. apply IH. intros y Hy. apply H. by right.
Qed.

Lemma moved_height d f r q t :
  compactable d f -> r ∈ hd_chunks d -> hc_tag r = Some t -> q ∈ hd_chunks d -> hc_allocated q = false ->
  hc_offset q < hc_offset r -> (height (moved d r q t) < height d)%nat.
Proof.
  intros Hd Hr Ht Hq Hfree Hlt. pose proof (q_empty d f q Hd Hq Hfree) as Hqt. pose proof (q_apart d f r q t Hd Hr Ht Hq Hfree) as Hne.
  pose proof (wf_aligned d (cp_wf _ _ Hd) q Hq) as [_ Hq0].
  pose proof (wf_chunk_offsets d (cp_wf _ _ Hd)) as Hnd. apply list_elem_of_split in Hr as (l1 & l2 & Hl).
  assert (hd_chunks d ≡ₚ r :: (l1 ++ l2)) as Hp by (rewrite Hl; by rewrite <- Permutation_middle).
  assert (q ∈ l1 ++ l2) as Hq'. { rewrite Hp in Hq. apply elem_of_cons in Hq as [->|?]; [done|done]. }
  apply list_elem_of_split in Hq' as (l3 & l4 & Hl'). rewrite Hl' in Hp.
  assert (hd_chunks d ≡ₚ r :: q :: (l3 ++ l4)) as Hp2 by (rewrite Hp; by rewrite <- (Permutation_middle l3 l4 q)).
  clear Hp. unfold height, moved, update. cbn [hd_chunks set_hchunks]. rewrite <- list_fmap_compose. set (g := _ ∘ _).
  assert (g r = emptied r) as Hgr.
  { unfold g, compose. rewrite (decide_True (P := hc_offset r = hc_offset r)) by done. by rewrite decide_False by (cbn; congruence). }
  assert (hc_tag (g q) = Some t /\ hc_offset (g q) = hc_offset q) as [Hgt Hgq].
  { unfold g, compose. rewrite (decide_False (P := hc_offset q = hc_offset r)) by done. by rewrite decide_True by done. }
  assert (forall x, x ∈ l3 ++ l4 -> g x = x) as Hgx.
  { intros x Hx. rewrite Hp2, !fmap_cons in Hnd. apply NoDup_cons in Hnd as [Hnr Hnd]. apply NoDup_cons in Hnd as [Hnq _].
    assert (hc_offset x ∈ hc_offset <$> l3 ++ l4) as Hxo by (apply list_elem_of_fmap; eauto).
    unfold g, compose. rewrite (decide_False (P := hc_offset x = hc_offset r)); [|intros Hxr; apply Hnr; right; by rewrite <- Hxr].
    rewrite decide_False; [done|]. intros Hxq. apply Hnq. by rewrite <- Hxq. }
  clearbody g. rewrite sum_fmap, (sum_perm _ _ _ Hp2), (sum_perm weight _ _ Hp2). cbn [sum_list_with].
  rewrite Hgr, Hgt, Hgq, Ht, Hqt. cbn [emptied hc_tag].
  rewrite (sum_ext (fun x => weight (g x)) weight) by (intros x Hx; by rewrite Hgx). lia.
Qed.

(** ** Lists in the order of the offsets *)

#[global] Instance lower_total : Total lower.
Proof. intros a b. unfold lower. lia. Qed.
#[global] Instance lower_trans : Transitive lower.
Proof. intros a b c. unfold lower. lia. Qed.

Lemma elem_of_by_offset l r : r ∈ by_offset l <-> r ∈ l.
Proof. unfold by_offset. by rewrite merge_sort_Permutation. Qed.

Lemma first_free d :
  match take 1 (hc_offset <$> by_offset (filter (fun r => hc_allocated r = false) (hd_chunks d))) with
  | [] => forall q, q ∈ hd_chunks d -> hc_allocated q = true
  | o :: _ => exists q, q ∈ hd_chunks d /\ hc_allocated q = false /\ hc_offset q = o /\
      forall x, x ∈ hd_chunks d -> hc_allocated x = false -> hc_offset q <= hc_offset x
  end.
Proof.
  set (free := filter _ _). pose proof (StronglySorted_merge_sort lower free) as Hs. fold (by_offset free) in Hs.
  assert (forall x, x ∈ by_offset free <-> hc_allocated x = false /\ x ∈ hd_chunks d) as Hel.
  { intros x. rewrite elem_of_by_offset. unfold free. by rewrite list_elem_of_filter. }
  destruct (by_offset free) as [|q l]; simpl.
  - intros q Hq. destruct (hc_allocated q) eqn:Ha; [done|]. assert (q ∈ []) as []%not_elem_of_nil by by apply Hel.
  - destruct (proj1 (Hel q)) as [Ha Hq]; [by left|]. exists q. split_and!; try done. intros x Hx Hxa.
    assert (x ∈ q :: l) as [->|Hin]%elem_of_cons by (by apply Hel); [lia|]. apply StronglySorted_inv in Hs as [_ Hall].
    rewrite Forall_forall in Hall. by apply Hall.
Qed.

(** The chunks from the highest offset down. *)
Definition ranked (d : hoard_db) : list hchunk := reverse (by_offset (filter (fun r => is_Some (hc_tag r)) (hd_chunks d))).

Lemma elem_of_ranked d r : r ∈ ranked d <-> is_Some (hc_tag r) /\ r ∈ hd_chunks d.
Proof. unfold ranked. by rewrite elem_of_reverse, elem_of_by_offset, list_elem_of_filter. Qed.

Lemma ranked_down d past r rest x :
  NoDup (hc_offset <$> hd_chunks d) -> ranked d = past ++ r :: rest -> x ∈ rest -> hc_offset x < hc_offset r.
Proof.
  intros Hnd Hl Hx. set (l := filter (fun r => is_Some (hc_tag r)) (hd_chunks d)) in *.
  pose proof (StronglySorted_merge_sort lower l) as Hs. fold (by_offset l) in Hs.
  assert (by_offset l = reverse rest ++ r :: reverse past) as Heq.
  { unfold ranked in Hl. fold l in Hl. apply (f_equal reverse) in Hl. rewrite reverse_involutive, reverse_app, reverse_cons, <- app_assoc in Hl. exact Hl. }
  assert (NoDup (hc_offset <$> by_offset l)) as Hnd2.
  { unfold by_offset. rewrite merge_sort_Permutation. eapply sublist_NoDup; [exact Hnd|]. apply fmap_sublist. apply sublist_filter. }
  rewrite Heq in Hs, Hnd2. apply elem_of_reverse in Hx. apply list_elem_of_split in Hx as (a & b & Hab). rewrite Hab in Hs, Hnd2.
  assert (lower x r) as Hle.
  { clear -Hs. induction a as [|y a IH]; simpl in Hs; apply StronglySorted_inv in Hs as [Hs Hall].
    - rewrite Forall_forall in Hall. apply Hall. apply elem_of_app. right. by left.
    - by apply IH. }
  unfold lower in Hle. enough (hc_offset x <> hc_offset r) by lia. intros Ho.
  rewrite <- app_assoc, fmap_app in Hnd2. apply NoDup_app in Hnd2 as (_ & _ & Hnd2). rewrite <- app_comm_cons, fmap_cons in Hnd2.
  apply NoDup_cons in Hnd2 as [Hni _]. apply Hni. rewrite fmap_app, fmap_cons, Ho. apply elem_of_app. right. by left.
Qed.

(** * The file *)

Lemma read_content o len c tag h buf h' :
  _hoard_read_chunk o len c tag h = Some ((PK_SUCCESS, buf), h') ->
  buf = content (hoard_file h) o len /\ Z.of_nat (length buf) = len.
Proof.
  unfold _hoard_read_chunk, body. rewrite bind_gets. case_decide; [done|]. case_decide as Hg; [done|].
  assert (exists lim h1, (hoard_next_io : pk hoard_state (pk_err * list Z) _) h = Some (inl lim, h1) /\ hoard_file h1 = hoard_file h)
    as (lim & h1 & Hio & Hf). { unfold hoard_next_io. destruct (hoard_io h); by eexists _, _. }
  rewrite (bind_step _ _ _ _ _ Hio), bind_gets, Hf. case_decide as Hlen; [done|].
  destruct (iu_chunk_crypto_digest _ _) as [[calc|]|]; [|done|done]. case_decide; [done|]. intros [= <- _]. split; [|done].
  unfold content, place. f_equal. rewrite length_range in Hlen. destruct lim as [k|]; simpl in *; lia.
Qed.

(** Of a write that fails, a part may have been written. *)
Lemma write_eval o buf h :
  Z.of_nat (length buf) <= SLOT_SIZE ->
  exists err n l, let zs := buf ++ replicate (Z.to_nat SLOT_SIZE - length buf) 0 in
    _hoard_write_chunk o buf h = Some (err, set_hoard_file (file_write (hoard_file h) (place o) (take n zs)) (set_hoard_io l h)) /\
    l `suffix_of` hoard_io h /\ (err = PK_SUCCESS -> take n zs = zs) /\ (hoard_io h = [] -> err = PK_SUCCESS).
Proof.
  intros Hl. unfold _hoard_write_chunk, body. rewrite decide_False by lia.
  set (zs := buf ++ _). assert (length zs = Z.to_nat SLOT_SIZE) as Hzs by (unfold zs; rewrite length_app, length_replicate; lia).
  assert (exists lim l, (hoard_next_io : pk hoard_state pk_err _) h = Some (inl lim, set_hoard_io l h) /\ l `suffix_of` hoard_io h /\
    (hoard_io h = [] -> lim = None)) as (lim & l & Hio & Hsuf & Hlim).
  { unfold hoard_next_io. destruct (hoard_io h) as [|x rest] eqn:Hx.
    - exists None, []. split; [by destruct h; cbn in *; subst|done].
    - exists x, rest. split; [done|]. split; [by apply suffix_cons_r|done]. }
  rewrite (bind_step _ _ _ _ _ Hio), bind_modify. case_decide as Hshort.
  - exists PK_IOERR, (limit (length zs) lim), l. split; [done|]. split; [done|]. split; [done|]. intros Hnil. destruct Hshort.
    rewrite (Hlim Hnil). simpl. rewrite take_ge by done. rewrite Hzs. unfold SLOT_SIZE. lia.
  - exists PK_SUCCESS, (limit (length zs) lim), l. split; [done|]. split; [done|]. split; [|done].
    intros _. apply take_ge. rewrite length_take in Hshort. lia.
Qed.

Lemma content_written f o buf :
  Z.of_nat (length buf) <= SLOT_SIZE ->
  content (file_write f (place o) (buf ++ replicate (Z.to_nat SLOT_SIZE - length buf) 0)) o (Z.of_nat (length buf)) = buf.
Proof.
  intros Hl. unfold content. rewrite Nat2Z.id, range_file_write_same by (rewrite length_app; lia). apply take_app_length.
Qed.

(** * Steps on state->db *)

Section steps.
Context (s0 : modes) (Husable : usable (md_hoard s0)).
Local Abbreviation D0 := (data (md_db s0)).
Local Abbreviation d0 := (m_hoard D0).
Local Abbreviation fs0 := (faults (md_db s0)).
Local Abbreviation file s := (hoard_file (md_hoard s)).

(** No failure but contention. *)
Definition smooth : Prop := Forall contention fs0 /\ hoard_io (md_hoard s0) = [].

(** What no step changes; the chunks of the index before are in the file throughout. *)
Record kept_modes (s : modes) : Prop := mk_kept {
  km_flags : md_flags s = md_flags s0;
  km_ident : md_ident s = md_ident s0;
  km_uuid : md_uuid s = md_uuid s0;
  km_net : net (md_supply s) = net (md_supply s0);
  km_hoard : hoard (md_hoard s) = hoard (md_hoard s0);
  km_parcel : h_parcel (md_hoard s) = h_parcel (md_hoard s0);
  km_dir : hoard_dir (md_hoard s) = hoard_dir (md_hoard s0);
  km_io : hoard_io (md_hoard s) `suffix_of` hoard_io (md_hoard s0);
  km_safe : compactable d0 (file s)
}.

Lemma kept_stable : stable kept_modes.
Proof. by intros b s []. Qed.

Lemma kept_usable s : kept_modes s -> usable (md_hoard s).
Proof.
  intros []. destruct Husable as [Hi Hwf Hcs Hcry Hb]. split; rewrite ?km_hoard0, ?km_parcel0; try done. apply km_safe0.
Qed.

Lemma kept_smooth s : kept_modes s -> smooth -> hoard_io (md_hoard s) = [].
Proof. intros [] [_ Hio]. rewrite Hio in km_io0. by apply suffix_nil_inv in km_io0. Qed.

Section round.
Context (fs : list (option (sqlite_fault * bool))) (Hfs : fs `suffix_of` fs0).

(** Inside the transaction, with the tables of the hoard cache as [d]. *)
Definition inside (d : hoard_db) (s : modes) : Prop :=
  active D0 (set_m_hoard d D0) (md_db s) /\ within fs (md_db s) /\ kept_modes s.

(** A statement or the commit has failed. *)
Definition lost (s : modes) : Prop :=
  broken fs D0 (md_db s) /\ within fs (md_db s) /\ kept_modes s /\ (query_busy (md_db s) = false -> ~ smooth) /\
  (length (faults (md_db s)) < length fs)%nat.

Lemma not_smooth : ~ Forall contention fs -> ~ smooth.
Proof. intros Hn [Hc _]. apply Hn. destruct Hfs as [k Hk]. rewrite Hk in Hc. by apply Forall_app in Hc as [_ ?]. Qed.

Lemma same_hoard D : set_m_hoard (m_hoard D) D = D.
Proof. by destruct D. Qed.

(** What a statement leaves: its rows, or a failure. *)
Definition stepped {A} (d' : hoard_db) (rows : list A) (r : bool * list A) (s s' : modes) : Prop :=
  s' = set_md_db (md_db s') s /\
  (r = (true, rows) /\ inside d' s' /\ result (md_db s') = (match rows with [] => SQLITE_OK | _ => SQLITE_ROW end) \/
   r.1 = false /\ lost s' /\ succeeded (result (md_db s')) = false).

Lemma mstmt_eval {R A} (q : mq A) d d' rows s :
  q (set_m_hoard d D0) = inr (set_m_hoard d' D0, rows) -> inside d s ->
  exists r s', (mrun q : pk modes R _) s = Some (inl r, s') /\ stepped d' rows r s s'.
Proof.
  intros Hq (Ha & Hw & Hk).
  destruct (query_outcome fs D0 (set_m_hoard d D0) q (md_db s) Ha Hw) as (ok & rows' & b & Hr & Hwb & Hok & Hout).
  exists (ok, rows'), (set_md_db b s). split; [unfold mrun, on_db; cbn; by rewrite Hr|]. split; [done|].
  destruct Hout as [(D' & HD & Ha' & Hres)|[(e & He & _)|(Hb & Hlt & -> & _ & Hn)]].
  - rewrite Hq in HD. injection HD as <- <-. left. split; [by rewrite Hok, Hres; destruct rows|]. split; [|done].
    split; [done|]. split; [done|by apply kept_stable].
  - congruence.
  - right. split; [done|]. split; [|done]. split; [done|]. split; [done|]. split; [by apply kept_stable|]. split; [|done].
    intros Hbusy. by apply not_smooth, Hn.
Qed.

Lemma mrun_eval {R A} (q : hq A) d d' rows s :
  q d = inr (d', rows) -> inside d s ->
  exists r s', (mrun (in_hoard q) : pk modes R _) s = Some (inl r, s') /\ stepped d' rows r s s'.
Proof. intros Hq. apply mstmt_eval. unfold in_hoard. cbn. by rewrite Hq. Qed.

Lemma next_eval {R A} (rows : list A) d s :
  inside d s ->
  exists r s', (on_db (query_next rows) : pk modes R _) s = Some (inl r, s') /\ stepped d (tail rows) r s s'.
Proof.
  intros Hs. destruct (mstmt_eval (R:=R) (fun D => inr (D, tail rows)) d d (tail rows) s eq_refl Hs) as (r & s' & Hr & Hpost).
  exists r, s'. split; [|done]. rewrite <- Hr. destruct Hs as ((Hl & _) & _). unfold mrun, on_db, query_next, query. cbn. by rewrite Hl.
Qed.

(** ** Moving a chunk *)

Lemma set_md_hoard_kept h s :
  kept_modes s -> hoard h = hoard (md_hoard s) -> h_parcel h = h_parcel (md_hoard s) -> hoard_dir h = hoard_dir (md_hoard s) ->
  hoard_io h `suffix_of` hoard_io (md_hoard s) -> compactable d0 (hoard_file h) -> kept_modes (set_md_hoard h s).
Proof. intros [] Hh Hp Hd Hio Hf. split; try done; cbn; try congruence. by etransitivity. Qed.

Lemma read_row_eval r t d s :
  compactable d (file s) -> r ∈ hd_chunks d -> hc_tag r = Some t -> inside d s ->
  exists err buf s', on_hoard (_hoard_read_chunk (hc_offset r) (hc_length r) (hc_crypto r) t) s = Some ((err, buf), s') /\
    inside d s' /\ md_db s' = md_db s /\ md_done s' = md_done s /\ md_ret s' = md_ret s /\ file s' = file s /\
    (err = PK_SUCCESS -> buf = content (file s) (hc_offset r) (hc_length r) /\ Z.of_nat (length buf) = hc_length r) /\
    (smooth -> err = PK_SUCCESS).
Proof.
  intros Hd Hr Ht (Ha & Hw & Hk). pose proof (kept_usable s Hk) as Hu.
  assert (firm d t (hc_offset r) (hc_length r)) as Hf by (left; by exists r).
  destruct (cp_sound _ _ Hd _ _ _ Hf) as (Hl & Hfull & Hsha).
  assert (s32 (hc_length r) = hc_length r) as Hs32 by (apply s32_id; unfold SLOT_SIZE in *; lia).
  assert (hc_crypto r = crypto (h_parcel (md_hoard s))) as Hcr.
  { rewrite (u_crypto _ Hu). apply (cp_crypto _ _ Hd r Hr). by rewrite Ht. }
  destruct (hoard_read_spec (md_hoard s) t (hc_offset r) (hc_length r) Hu) as (err & buf & h & Hrd & Hdb & [Hp Hdir Hio Hfl] & _ & Hfair).
  rewrite Hs32, <- Hcr in Hrd. unfold untouched in Hfl. exists err, buf, (set_md_hoard h s). unfold on_hoard. rewrite Hrd.
  split; [done|]. split. { split; [done|]. split; [done|]. apply set_md_hoard_kept; try done. rewrite Hfl. apply Hk. }
  split; [done|]. split; [done|]. split; [done|]. split; [done|]. split.
  - intros ->. by eapply read_content.
  - intros Hsm. apply Hfair; [by apply kept_smooth|]. by eapply sound_readable; [apply Hd|apply Hd|].
Qed.

Lemma move_chunk_eval r q t d s :
  compactable d (file s) -> r ∈ hd_chunks d -> hc_tag r = Some t -> q ∈ hd_chunks d -> hc_allocated q = false ->
  (exists q0, q0 ∈ hd_chunks d0 /\ hc_allocated q0 = false /\ hc_offset q0 = hc_offset q) ->
  inside d s -> query_has_row (md_db s) = true ->
  exists err s', _compact_hoard_move_chunk (hc_offset r) (hc_offset q) (hc_length r) (hc_crypto r) t s = Some (err, s') /\
    md_done s' = md_done s /\
    (err = PK_SUCCESS /\ inside (moved d r q t) s' /\ compactable (moved d r q t) (file s') \/
     err <> PK_SUCCESS /\ (lost s' \/ inside d s' /\ query_has_row (md_db s') = true /\ ~ smooth)).
Proof.
  intros Hd Hr Ht Hq Hfree (q0 & Hq0 & Hfree0 & Ho0) Hin Hrow.
  destruct (read_row_eval r t d s Hd Hr Ht Hin) as (err & buf & s1 & Hrd & Hin1 & Hdb1 & Hdone1 & _ & Hf1 & Hbuf & Hsm1).
  unfold _compact_hoard_move_chunk, body. rewrite (bind_step _ _ s (err, buf) s1) by (unfold call; by rewrite Hrd). case_decide as Herr.
  { eexists _, _. split; [done|]. split; [done|]. right. split; [done|]. right. rewrite Hdb1. split; [done|]. split; [done|]. auto. }
  subst err. destruct (Hbuf eq_refl) as [Hc Hl].
  assert (firm d t (hc_offset r) (hc_length r)) as Hf by (left; by exists r).
  destruct (cp_sound _ _ Hd _ _ _ Hf) as (Hlen & Hfull & Hsha).
  destruct (write_eval (hc_offset q) buf (md_hoard s1)) as (err & n & l & Hwr & Hl1 & Hall & Hsm2); [lia|].
  set (zs := buf ++ replicate (Z.to_nat SLOT_SIZE - length buf) 0) in *.
  set (s2 := set_md_hoard (set_hoard_file (file_write (file s1) (place (hc_offset q)) (take n zs)) (set_hoard_io l (md_hoard s1))) s1).
  erewrite bind_step by (unfold call, on_hoard; rewrite Hwr; done).
  fold zs. fold s2. destruct Hin1 as (Ha1 & Hw1 & Hk1).
  assert (bytes zs /\ length zs = Z.to_nat SLOT_SIZE) as [Hbz Hlz].
  { split; [apply Forall_app_2; [rewrite Hc; apply bytes_range, Hd|by apply Forall_replicate]|].
    unfold zs. rewrite length_app, length_replicate. lia. }
  assert (compactable d0 (file s2)) as Hsafe.
  { cbn. rewrite <- Ho0. pose proof (km_safe s1 Hk1) as Hs0. split; try apply Hs0.
    - apply write_sound; try done. rewrite length_take. lia.
    - apply bytes_file_write; [apply Hs0|by apply Forall_take]. }
  assert (inside d s2) as Hin2. { split; [done|]. split; [done|]. by apply set_md_hoard_kept. }
  case_decide as Herr.
  { eexists _, _. split; [done|]. split; [done|]. right. split; [done|]. right. split; [done|]. split; [cbn; by rewrite Hdb1|].
    intros Hs. apply Herr, Hsm2. by apply kept_smooth. }
  subst err. specialize (Hall eq_refl).
  destruct (move_statements d (file s) r q t Hd Hr Ht) as (n1 & n2 & Hst1 & Hst2).
  destruct (mrun_eval (R:=pk_err) _ _ _ _ s2 Hst1 Hin2) as ([ok x] & s3 & H3 & Heq3 & Hout3).
  rewrite (bind_step _ _ _ _ _ H3). destruct Hout3 as [([= -> ->] & Hin3 & Hres3)|(Hok & Hlost & _)].
  2:{ cbn in Hok. subst ok. eexists _, _. split; [done|]. split; [by rewrite Heq3|]. right. split; [done|]. by left. }
  cbn [negb]. destruct (mrun_eval (R:=pk_err) _ _ _ _ s3 Hst2 Hin3) as ([ok x] & s4 & H4 & Heq4 & Hout4).
  rewrite (bind_step _ _ _ _ _ H4). destruct Hout4 as [([= -> ->] & Hin4 & _)|(Hok & Hlost & _)].
  2:{ cbn in Hok. subst ok. eexists _, _. split; [done|]. split; [by rewrite Heq4, Heq3|]. right. split; [done|]. by left. }
  eexists _, _. split; [done|]. split; [by rewrite Heq4, Heq3|]. left. split; [done|]. split; [done|].
  assert (file s4 = file_write (file s) (place (hc_offset q)) zs) as ->.
  { rewrite Heq4, Heq3. cbn. by rewrite Hall, Hf1. }
  apply moved_compactable; try done; [lia|]. rewrite <- Hc, <- Hl. apply content_written. lia.
Qed.

(** ** The loop *)

(** Every chunk is before every free slot. *)
Definition packed (d : hoard_db) : Prop :=
  forall x q, x ∈ hd_chunks d -> is_Some (hc_tag x) -> q ∈ hd_chunks d -> hc_allocated q = false -> hc_offset x < hc_offset q.

(** The chunks [past] have been moved, [rows] are to be moved in this round, [later] are for the next ones. *)
Record looping (past rows later : list hchunk) (d : hoard_db) (s : modes) : Prop := mk_looping {
  lp_inside : inside d s;
  lp_ok : compactable d (file s);
  lp_relocated : relocated d0 d;
  lp_ranked : ranked d0 = past ++ rows ++ later;
  lp_rows r : r ∈ rows -> r ∈ hd_chunks d /\ is_Some (hc_tag r);
  lp_free q : q ∈ hd_chunks d -> hc_allocated q = false ->
    (exists q0, q0 ∈ hd_chunks d0 /\ hc_allocated q0 = false /\ hc_offset q0 = hc_offset q) \/
    forall r, r ∈ rows ++ later -> hc_offset r < hc_offset q;
  lp_top x : x ∈ hd_chunks d -> is_Some (hc_tag x) ->
    x ∈ rows ++ later \/ forall q, q ∈ hd_chunks d -> hc_allocated q = false -> hc_offset x < hc_offset q;
  lp_height : (height d + length past <= height d0)%nat
}.

(** The end of the loop. *)
Definition looped (all : list hchunk) (s : modes) : Prop :=
  exists d, inside d s /\ compactable d (file s) /\ relocated d0 d /\ (query_ok (md_db s) = true \/ query_has_row (md_db s) = true) /\
    if md_done s then packed d else (height d + length all <= height d0)%nat.

(** A move has failed, but not for the index. *)
Definition unmoved (s : modes) : Prop := (exists d, inside d s) /\ query_has_row (md_db s) = true /\ ~ smooth.

Lemma looping_started s :
  inside d0 s -> looping [] (take 16 (ranked d0)) (drop 16 (ranked d0)) d0 s.
Proof.
  intros Hin. pose proof Hin as (_ & _ & Hk). split; try done.
  - apply Hk.
  - by rewrite take_drop.
  - intros r Hr. assert (r ∈ ranked d0) as [? ?]%elem_of_ranked; [|done]. rewrite <- (take_drop 16 (ranked d0)), elem_of_app. by left.
  - intros q Hq Ha. left. by exists q.
  - intros x Hx Ht. left. rewrite take_drop. by apply elem_of_ranked.
  - simpl. lia.
Qed.

Lemma looping_packed past r rows later d s :
  looping past (r :: rows) later d s -> (forall q, q ∈ hd_chunks d -> hc_allocated q = false -> hc_offset r <= hc_offset q) -> packed d.
Proof.
  intros Hl Hq x q Hx Hxt Hqin Hqa. destruct (lp_top _ _ _ _ _ Hl x Hx Hxt) as [Hxr|?]; [|auto].
  pose proof (cp_wf _ _ (lp_ok _ _ _ _ _ Hl)) as Hwf. specialize (Hq q Hqin Hqa).
  assert (hc_offset x <= hc_offset r) as Hle.
  { apply elem_of_cons in Hxr as [->|Hxr]; [done|]. apply Z.lt_le_incl. eapply (ranked_down d0 past r (rows ++ later)); [|apply Hl|done].
    rewrite <- (rl_offsets _ _ (lp_relocated _ _ _ _ _ Hl)). apply Hwf. }
  enough (hc_offset x <> hc_offset q) by lia. intros Ho. pose proof (offset_inj hc_offset _ _ _ (wf_chunk_offsets _ Hwf) Hx Hqin Ho) as ->.
  rewrite (wf_free _ Hwf q Hqin Hqa) in Hxt. by destruct Hxt.
Qed.

Lemma looping_moved past r rows later d s q t s' :
  looping past (r :: rows) later d s -> hc_tag r = Some t -> q ∈ hd_chunks d -> hc_allocated q = false ->
  (forall x, x ∈ hd_chunks d -> hc_allocated x = false -> hc_offset q <= hc_offset x) -> hc_offset q < hc_offset r ->
  inside (moved d r q t) s' -> compactable (moved d r q t) (file s') -> looping (past ++ [r]) rows later (moved d r q t) s'.
Proof.
  intros Hl Ht Hq Hqa Hfirst Hlt Hin Hc. pose proof (lp_ok _ _ _ _ _ Hl) as Hd. pose proof (cp_wf _ _ Hd) as Hwf.
  destruct (lp_rows _ _ _ _ _ Hl r) as [Hr _]; [by left|]. pose proof (q_empty d _ q Hd Hq Hqa) as Hqt.
  assert (forall x, x ∈ rows ++ later -> hc_offset x < hc_offset r) as Hdown.
  { intros x Hx. eapply (ranked_down d0 past r (rows ++ later)); [|apply Hl|done].
    rewrite <- (rl_offsets _ _ (lp_relocated _ _ _ _ _ Hl)). apply Hwf. }
  assert (forall x, x ∈ hd_chunks d -> hc_offset x = hc_offset q -> x = q) as Hatq.
  { intros x Hx. by apply (offset_inj hc_offset _ _ _ (wf_chunk_offsets _ Hwf)). }
  assert (forall x, x ∈ hd_chunks d -> hc_offset x = hc_offset r -> x = r) as Hatr.
  { intros x Hx. by apply (offset_inj hc_offset _ _ _ (wf_chunk_offsets _ Hwf)). }
  pose proof (elem_of_moved d _ r q t Hd Hr Ht Hq Hqa) as Hel. split; try done.
  - etrans; [apply Hl|]. by eapply moved_relocated.
  - rewrite <- app_assoc. apply Hl.
  - intros x Hx. destruct (lp_rows _ _ _ _ _ Hl x) as [Hxd Hxt]; [by right|]. split; [|done]. apply Hel. left. split; [done|].
    assert (hc_offset x < hc_offset r) by (apply Hdown, elem_of_app; by left). split; [lia|]. intros Ho.
    rewrite (Hatq x Hxd Ho), Hqt in Hxt. by destruct Hxt.
  - intros x [(Hx & _ & _)|[->| ->]]%Hel Hxa; [|right; exact Hdown|done].
    destruct (lp_free _ _ _ _ _ Hl x Hx Hxa) as [?|Hall]; [by left|right]. intros y Hy. apply Hall. by right.
  - intros x [(Hx & Hxr & Hxq)|[->| ->]]%Hel Hxt; [|by destruct Hxt|].
    + destruct (lp_top _ _ _ _ _ Hl x Hx Hxt) as [[->|?]%elem_of_cons|Hall]; [done|by left|right].
      intros y [(Hy & _ & _)|[->| ->]]%Hel Hya; [by apply Hall| |done]. cbn. specialize (Hall q Hq Hqa). lia.
    + right. intros y [(Hy & _ & Hyq)|[->| ->]]%Hel Hya; [|done|done]. cbn. specialize (Hfirst y Hy Hya). lia.
  - rewrite length_app. simpl. pose proof (lp_height _ _ _ _ _ Hl). pose proof (moved_height d _ r q t Hd Hr Ht Hq Hqa Hlt). lia.
Qed.

Lemma looping_state past rows later d s s' :
  looping past rows later d s -> inside d s' -> file s' = file s -> looping past rows later d s'.
Proof. intros [] ? Hf. split; try done. by rewrite Hf. Qed.

Lemma inside_done d v s : inside d s -> inside d (set_md_done v s).
Proof. intros (? & ? & []). by split_and!. Qed.

Lemma inside_ret d v s : inside d s -> inside d (set_md_ret v s).
Proof. intros (? & ? & []). by split_and!. Qed.

Lemma lost_ret v s : lost s -> lost (set_md_ret v s).
Proof. intros (? & ? & [] & ? & ?). by split_and!. Qed.

Lemma not_succeeded b : succeeded (result b) = false -> query_has_row b = false /\ query_ok (D:=mode_db) b = false.
Proof. unfold query_has_row, query_ok. intros Hr. split; apply bool_decide_eq_false; intros He; by rewrite He in Hr. Qed.

Lemma no_row_ends n rows s :
  query_has_row (md_db s) = false -> (0 < n)%nat -> move_loop n rows s = Some (inl (), s).
Proof. intros Hrow Hn. destruct n as [|n]; [lia|]. cbn [move_loop]. by rewrite bind_gets, Hrow. Qed.

(** What a round has done when it leaves the loop. *)
Definition loop_post (all : list hchunk) (r : () + exit pk_err) (s : modes) : Prop :=
  match r with
  | inl _ => looped all s \/ lost s /\ query_has_row (md_db s) = false /\ query_ok (md_db s) = false
  | inr (Goto_bad err) => err <> PK_SUCCESS /\ (lost s \/ unmoved s)
  | inr (Return _) => False
  end.

(** The loop stops early when there is nothing left to fill. *)
Lemma looping_done past r rows later d s :
  looping past (r :: rows) later d s -> query_ok (md_db s) = true \/ query_has_row (md_db s) = true ->
  (forall q, q ∈ hd_chunks d -> hc_allocated q = false -> hc_offset r <= hc_offset q) ->
  looped (past ++ r :: rows) (set_md_done true s).
Proof.
  intros Hl Hres Hq. exists d. split; [apply inside_done, Hl|]. split; [apply Hl|]. split; [apply Hl|]. split; [done|].
  by eapply looping_packed.
Qed.

Lemma looping_ended past later d s :
  looping past [] later d s -> query_ok (md_db s) = true -> md_done s = false -> looped past s.
Proof. intros Hl Hok Hdone. exists d. rewrite Hdone. split_and!; try apply Hl. by left. Qed.

Lemma row_ints past r rows later d s :
  looping past (r :: rows) later d s ->
  s32 (hc_offset r) = hc_offset r /\ s32 (hc_length r) = hc_length r /\ s32 (hc_crypto r) = hc_crypto r.
Proof.
  intros Hl. destruct (lp_rows _ _ _ _ _ Hl r) as [Hr [t Ht]]; [by left|]. destruct (lp_ok _ _ _ _ _ Hl) as [Hwf Hs Hc _].
  destruct (wf_aligned _ Hwf r Hr) as [_ Hrange]. destruct (Hs t (hc_offset r) (hc_length r)) as [Hlen _]; [left; by exists r|].
  rewrite (Hc r Hr) by (by rewrite Ht). split_and!; [|..|done]; apply s32_id; unfold SLOT_SIZE in *; lia.
Qed.

Lemma move_loop_eval n past rows later d s :
  looping past rows later d s -> (length rows < n)%nat ->
  result (md_db s) = (match rows with [] => SQLITE_OK | _ => SQLITE_ROW end) -> md_done s = false ->
  exists r s', move_loop n rows s = Some (r, s') /\ loop_post (past ++ rows) r s'.
Proof.
  revert past rows d s. induction n as [|n IH]; intros past rows d s Hl Hn Hres Hdone; [lia|].
  destruct rows as [|r rows].
  { exists (inl ()), s. split; [apply no_row_ends; [unfold query_has_row; by rewrite Hres|lia]|]. left. rewrite app_nil_r.
    eapply looping_ended; [done|unfold query_ok; by rewrite Hres|done]. }
  cbn [move_loop]. rewrite bind_gets. replace (query_has_row (md_db s)) with true by (unfold query_has_row; by rewrite Hres).
  cbn [negb]. destruct (row_ints _ _ _ _ _ _ Hl) as (-> & -> & ->).
  destruct (mrun_eval (R:=pk_err) sql_first_free d d _ s eq_refl (lp_inside _ _ _ _ _ Hl)) as ([ok slots] & s1 & Hq & Heq & Hout).
  rewrite (bind_step _ _ _ _ _ Hq), !bind_gets. destruct Hout as [([= -> ->] & Hin & Hr1)|(_ & Hlost & Hr1)].
  2:{ destruct (not_succeeded _ Hr1) as [Hrow Hok]. rewrite Hrow, Hok. exists (inl ()), s1. split; [done|]. by right. }
  assert (file s1 = file s) as Hf1 by (by rewrite Heq). pose proof (looping_state _ _ _ _ _ _ Hl Hin Hf1) as Hl1.
  assert (md_done s1 = false) as Hd1 by (by rewrite Heq).
  pose proof (first_free d) as Hff. destruct (take 1 _) as [|o os].
  { unfold query_has_row, query_ok. rewrite Hr1. cbn. exists (inl ()), (set_md_done true s1). split; [done|]. left.
    eapply looping_done; [done|left; unfold query_ok; by rewrite Hr1|]. intros q Hqin Hqa. specialize (Hff q Hqin). congruence. }
  destruct Hff as (q & Hqin & Hqa & <- & Hfirst). assert (query_has_row (md_db s1) = true) as Hrow by (unfold query_has_row; by rewrite Hr1).
  rewrite Hrow. cbn [negb head default option_map from_option]. change (id (hc_offset q)) with (hc_offset q). destruct (lp_ok _ _ _ _ _ Hl1) as [Hwf _ _ _].
  assert (s32 (hc_offset q) = hc_offset q) as -> by (apply s32_id; destruct (wf_aligned _ Hwf q Hqin); lia). case_decide as Hlt.
  { exists (inl ()), (set_md_done true s1). split; [done|]. left.
    eapply looping_done; [done|by right|]. intros x Hx Hxa. specialize (Hfirst x Hx Hxa). lia. }
  destruct (lp_rows _ _ _ _ _ Hl1 r) as [Hr [t Ht]]; [by left|]. rewrite Ht. change (default [] (Some t)) with t.
  destruct (move_chunk_eval r q t d s1) as (err & s2 & Hm & Hdone2 & Hpost); [apply Hl1|done..| |done|done|].
  { destruct (lp_free _ _ _ _ _ Hl1 q Hqin Hqa) as [?|Hall]; [done|]. specialize (Hall r). destruct Hlt. apply Z.lt_le_incl in Hall; [lia|]. by left. }
  rewrite (bind_step _ _ s1 err s2) by (unfold call; by rewrite Hm). rewrite bind_modify.
  destruct Hpost as [(-> & Hin2 & Hc2)|(Herr & Hpost)].
  2:{ rewrite decide_True by done. eexists (inr (Goto_bad err)), _. split; [done|]. split; [done|].
      destruct Hpost as [?|(Hin2 & ? & ?)]; [left; by apply lost_ret|right]. split; [|done]. exists d. by apply inside_ret. }
  rewrite decide_False by (intros He; by apply He).
  assert (looping (past ++ [r]) rows later (moved d r q t) (set_md_ret PK_SUCCESS s2)) as Hl2.
  { eapply looping_moved; [exact Hl1|done..|lia|by apply inside_ret|done]. }
  destruct (next_eval (R:=pk_err) (r :: rows) _ _ (lp_inside _ _ _ _ _ Hl2)) as ([ok rows3] & s3 & Hnx & Heq3 & Hout3).
  rewrite (bind_step _ _ _ _ _ Hnx). destruct Hout3 as [([= -> ->] & Hin3 & Hr3)|(_ & Hlost & Hr3)].
  - destruct (IH (past ++ [r]) rows (moved d r q t) s3) as (x & s4 & Hx & Hx2); [|simpl in *; lia|done|by rewrite Heq3; cbn; rewrite Hdone2|].
    { eapply looping_state; [done|done|]. by rewrite Heq3. }
    rewrite <- app_assoc in Hx2. by exists x, s4.
  - destruct (not_succeeded _ Hr3) as [Hrow3 Hok3]. exists (inl ()), s3. split; [apply no_row_ends; [done|simpl in *; lia]|]. by right.
Qed.

(** ** A round *)

(** A round that has come through, and one that has been rolled back: a result of PK_SUCCESS is possible
    even then, since "ret" may be that of the last move. *)
Definition iteration_good (err : pk_err) (s : modes) : Prop :=
  err = PK_SUCCESS /\ within fs0 (md_db s) /\ kept_modes s /\
  exists d, idle (set_m_hoard d D0) (md_db s) /\ compactable d (file s) /\ relocated d0 d /\
    if md_done s then packed d else (height d < height d0)%nat.

Definition iteration_bad (err : pk_err) (s : modes) : Prop :=
  idle D0 (md_db s) /\ within fs0 (md_db s) /\ kept_modes s /\ ~ smooth /\
  (err = PK_SUCCESS -> (length (faults (md_db s)) < length fs0)%nat).

(** What "bad:" leaves when SQLite is to blame, and no retry follows. *)
Definition rolled_back (s : modes) : Prop :=
  idle D0 (md_db s) /\ within fs0 (md_db s) /\ kept_modes s /\ ~ smooth /\ (length (faults (md_db s)) < length fs0)%nat.

Lemma within_start b : within fs b -> within fs0 (D:=mode_db) b.
Proof. intros Hw. by eapply within_trans. Qed.

Lemma lost_ends {R} (Q F : R -> modes -> Prop) r s :
  (forall s, rolled_back s -> F r s) -> lost s -> ending D0 kept_modes Q F fs (Goto_bad r) s.
Proof.
  intros HF (Hb & Hw & Hk & Hn & Hlt). destruct (rollback_spec _ _ _ Hb Hw) as (b & Hrb & Hwb & Hib & Hlb).
  exists true, b. split; [done|]. split; [done|]. split; [done|]. destruct (query_busy (get_db s)) eqn:Hbusy.
  - split; [simpl in *; lia|done].
  - apply HF. split; [done|]. split; [by apply within_start|]. split; [by apply kept_stable|]. split; [by apply Hn|].
    apply suffix_length in Hfs. simpl in *. lia.
Qed.

Local Abbreviation leave := (ending D0 kept_modes iteration_good iteration_bad fs).

Lemma lost_leaves err s : lost s -> leave (Goto_bad err) s.
Proof. apply lost_ends. by intros s' (? & ? & ? & ? & ?). Qed.

(** The same after a failure of the disk. *)
Lemma stopped_ends {R} (Q F : R -> modes -> Prop) r d s :
  (forall s, idle D0 (md_db s) -> within fs0 (md_db s) -> kept_modes s -> F r s) -> inside d s -> query_has_row (md_db s) = true ->
  ending D0 kept_modes Q F fs (Goto_bad r) s.
Proof.
  intros HF (Ha & Hw & Hk) Hrow. destruct (rollback_spec fs D0 (md_db s)) as (b & Hrb & Hwb & Hib & Hlb); [by eapply active_broken|done|].
  exists true, b. split; [done|]. split; [done|]. split; [done|]. replace (query_busy (get_db s)) with false.
  - apply HF; [done|by apply within_start|by apply kept_stable].
  - unfold query_has_row in Hrow. apply bool_decide_eq_true in Hrow. unfold query_busy. simpl. by rewrite Hrow.
Qed.

Lemma unmoved_leaves err s : unmoved s -> err <> PK_SUCCESS -> leave (Goto_bad err) s.
Proof.
  intros ((d & Hin) & Hrow & Hn) Herr. eapply stopped_ends; [|done|done]. by intros s' Hi Hw Hk.
Qed.

Lemma refused_leaves err s :
  idle D0 (md_db s) -> within fs (md_db s) -> kept_modes s -> ~ Forall contention fs -> (length (faults (md_db s)) < length fs)%nat ->
  leave (Goto_bad err) s.
Proof.
  intros Hi Hw Hk Hn Hlt. destruct (rollback_idle D0 (md_db s) Hi) as (ok & b & Hrb & Hib & Hfb).
  exists ok, b. split; [done|]. split; [unfold within; by rewrite Hfb|]. split; [done|]. rewrite Hfb. destruct (query_busy _); [done|].
  split; [done|]. split; [apply within_start; unfold within; cbn; by rewrite Hfb|]. split; [by apply kept_stable|].
  split; [by apply not_smooth|]. intros _. cbn. rewrite Hfb. apply suffix_length in Hfs. lia.
Qed.

(** The end of a round. *)
Lemma round_commit d s :
  inside d s -> compactable d (file s) -> relocated d0 d -> (if md_done s then packed d else (height d < height d0)%nat) ->
  exists r s', (ok ← try_db commit; if ok : bool then ret PK_SUCCESS else bad_with_ret : pk modes pk_err pk_err) s = Some (inr r, s') /\ leave r s'.
Proof.
  intros (Ha & Hw & Hk) Hc Hr Hdone. destruct (commit_spec fs D0 _ _ Ha Hw) as (ok & b & Hb & Hwb & Hok).
  erewrite bind_step by (unfold try_db; cbn [get_db modes_has_db]; by rewrite Hb). destruct ok.
  - exists (Return PK_SUCCESS), (set_md_db b s). split; [done|]. split; [done|]. split; [by apply within_start|].
    split; [by apply kept_stable|]. exists d. by split_and!.
  - exists (Goto_bad (md_ret s)), (set_md_db b s). split; [done|]. destruct Hok as (Hbr & Hbusy & Hgu & Hlt).
    apply lost_leaves. split; [done|]. split; [done|]. split; [by apply kept_stable|]. split; [|done]. intros _. by apply not_smooth.
Qed.

Lemma iteration_steps_eval s :
  inside d0 s -> md_done s = false -> exists r s', iteration_steps s = Some (inr r, s') /\ leave r s'.
Proof.
  intros Hin Hdone. unfold iteration_steps.
  destruct (mrun_eval (R:=pk_err) sql_last_chunks d0 d0 (take 16 (ranked d0)) s eq_refl Hin) as ([ok rows] & s1 & Hq & Heq & Hout).
  rewrite (bind_step _ _ _ _ _ Hq). destruct Hout as [([= -> ->] & Hin1 & Hr1)|(_ & Hlost & Hr1)].
  2:{ destruct (not_succeeded _ Hr1) as [Hrow Hok]. erewrite bind_step by (apply no_row_ends; [done|lia]).
      rewrite !bind_gets, Hrow, Hok. cbn [negb andb]. exists (Goto_bad (md_ret s1)), s1. split; [done|]. by apply lost_leaves. }
  assert (md_done s1 = false) as Hdone1 by (by rewrite Heq).
  destruct (move_loop_eval (S (length (take 16 (ranked d0)))) [] (take 16 (ranked d0)) (drop 16 (ranked d0)) d0 s1)
    as (r & s2 & Hm & Hpost); [by apply looping_started|lia|done|done|].
  simpl app in Hpost. set (rows := take 16 (ranked d0)) in *. destruct r as [[]|[r|err]]; cbn [loop_post] in Hpost; [|done|].
  2:{ unfold mbind at 1, pk_mbind at 1, pk_bind at 1. rewrite Hm. exists (Goto_bad err), s2. split; [done|].
      destruct Hpost as [? [?|?]]; [by apply lost_leaves|by apply unmoved_leaves]. }
  rewrite (bind_step _ _ _ _ _ Hm), !bind_gets.
  destruct Hpost as [(d & Hin2 & Hc2 & Hrel & Hres & Hend)|(Hlost & -> & ->)].
  2:{ cbn [negb andb]. exists (Goto_bad (md_ret s2)), s2. split; [done|]. by apply lost_leaves. }
  replace (negb (query_ok (md_db s2)) && negb (query_has_row (md_db s2))) with false
    by (destruct Hres as [-> | ->]; [done|by rewrite andb_false_r]).
  destruct (decide (rows = [])) as [Hnil|Hne].
  - rewrite bind_modify. assert (ranked d0 = []) as Hnone.
    { unfold rows in Hnil. by destruct (ranked d0). }
    assert (packed d) as Hpacked.
    { intros x q Hx [t Hxt]. exfalso. destruct (proj1 (rl_chunks _ _ Hrel t)) as (o & l & y & Hy & Hyt & _); [by eexists _, _, x|].
      assert (y ∈ ranked d0) as Hyr by (apply elem_of_ranked; by rewrite Hyt). rewrite Hnone in Hyr. by apply not_elem_of_nil in Hyr. }
    apply (round_commit d (set_md_done true s2)); [by apply inside_done|done|done|done].
  - rewrite bind_ret. apply (round_commit d s2); [done..|]. destruct (md_done s2); [done|].
    destruct rows as [|r rows']; [done|]. simpl in Hend. lia.
Qed.

Lemma iteration_body_triple :
  triple (fun s => idle D0 (md_db s) /\ within fs (md_db s) /\ kept_modes s) iteration_body iteration_good leave.
Proof.
  intros s (Hi & Hw & Hk). unfold iteration_body. rewrite !bind_modify. set (s1 := set_md_ret PK_IOERR (set_md_done false s)).
  assert (kept_modes s1) as Hk1 by (by destruct Hk). rewrite begin_immediate_begin.
  destruct (begin_spec fs D0 (md_db s1) Hi Hw) as (ok & b & Hb & Hwb & Hok).
  unfold try_db, mbind at 1, pk_mbind at 1, pk_bind at 1. cbn [get_db modes_has_db]. rewrite Hb. cbn [mbind option_bind]. destruct ok.
  - destruct (iteration_steps_eval (set_md_db b s1)) as (r & s2 & Hr & Hl); [|done|].
    { split; [rewrite same_hoard; apply Hok|]. split; [done|]. by apply kept_stable. }
    by exists (inr r), s2.
  - destruct Hok as (Hib & Hn & Hlt). exists (inr (Goto_bad PK_IOERR)), (set_md_db b s1). split; [done|].
    apply refused_leaves; try done. by apply kept_stable.
Qed.

(** ** The count *)

(** A function that has not changed the index. *)
Definition looked (err : pk_err) (s : modes) : Prop :=
  idle D0 (md_db s) /\ within fs0 (md_db s) /\ kept_modes s /\ (err <> PK_SUCCESS -> ~ smooth).

Lemma rolled_looked err s : rolled_back s -> looked err s.
Proof. by intros (? & ? & ? & ? & _). Qed.

Lemma query_row_eval {R A} (q : hq A) r d s :
  q d = inr (d, [r]) -> inside d s ->
  exists rows s', (mrun (in_hoard q) : pk modes R _) s = Some (inl rows, s') /\ s' = set_md_db (md_db s') s /\
    (rows = (true, [r]) /\ query_has_row (md_db s') = true /\ inside d s' \/ query_has_row (md_db s') = false /\ lost s').
Proof.
  intros Hq Hin. destruct (mrun_eval (R:=R) q d d [r] s Hq Hin) as (rows & s' & Hr & Heq & [(-> & ? & Hres)|(_ & ? & Hres)]);
    eexists _, s'; (split; [done|]; split; [done|]); [left|right].
  - split; [done|]. split; [|done]. unfold query_has_row. by rewrite Hres.
  - by apply not_succeeded in Hres as [? _].
Qed.
End round.
End steps.

(** * All rounds *)

Local Abbreviation idx s := (data (hoard s)).

Definition tables (s : modes) : hoard_db := m_hoard (data (md_db s)).

(** Between the functions: both connections have the same index, and it goes with the file. *)
Record steady (s : modes) : Prop := mk_steady {
  sy_usable : usable (md_hoard s);
  sy_idle : idle (data (md_db s)) (md_db s);
  sy_ok : compactable (tables s) (hoard_file (md_hoard s));
  sy_same : idx (md_hoard s) = tables s
}.

(** What no function of this file touches. *)
Record advanced (s s' : modes) : Prop := mk_advanced {
  av_flags : md_flags s' = md_flags s;
  av_ident : md_ident s' = md_ident s;
  av_uuid : md_uuid s' = md_uuid s;
  av_net : net (md_supply s') = net (md_supply s);
  av_parcel : h_parcel (md_hoard s') = h_parcel (md_hoard s);
  av_dir : hoard_dir (md_hoard s') = hoard_dir (md_hoard s);
  av_io : hoard_io (md_hoard s') `suffix_of` hoard_io (md_hoard s);
  av_faults : faults (md_db s') `suffix_of` faults (md_db s);
  av_hfaults : faults (hoard (md_hoard s')) `suffix_of` faults (hoard (md_hoard s));
  av_tables : data (md_db s') = set_m_hoard (tables s') (data (md_db s))
}.

#[global] Instance advanced_preorder : PreOrder advanced.
Proof.
  split.
  - intros s. split; try done. unfold tables. by destruct (data (md_db s)).
  - intros s1 s2 s3 [] []. split; try congruence; try by etrans. by rewrite av_tables1, av_tables0.
Qed.

(** No failure but contention, on either connection. *)
Definition calm (s : modes) : Prop :=
  Forall contention (faults (md_db s)) /\ Forall contention (faults (hoard (md_hoard s))) /\ hoard_io (md_hoard s) = [].

Lemma suffix_contention fs fs' : fs' `suffix_of` fs -> Forall contention fs -> Forall contention fs'.
Proof. intros [k ->] H. by apply Forall_app in H as [_ ?]. Qed.

Lemma calm_later s s' : advanced s s' -> calm s -> calm s'.
Proof.
  intros [] (Hc & Hh & Hio). split_and!; [by eapply suffix_contention..|]. rewrite Hio in av_io0. by apply suffix_nil_inv in av_io0.
Qed.

(** The state that a function leaves, given the state of state->db and the file. *)
Lemma published s s1 d :
  steady s -> kept_modes s s1 -> faults (md_db s1) `suffix_of` faults (md_db s) -> idle (set_m_hoard d (data (md_db s))) (md_db s1) ->
  compactable d (hoard_file (md_hoard s1)) -> steady (publish s1) /\ advanced s (publish s1) /\ tables (publish s1) = d.
Proof.
  intros [[Hi _ Hcs Hcry _] _ _ _] [] Hf Hid Hc. pose proof (idle_data _ _ Hid) as Hdata.
  assert (tables (publish s1) = d) as Htab by (unfold tables; cbn; by rewrite Hdata).
  destruct Hi as (Hl & Hs & _). split; [|split; [|done]].
  - split; try done.
    + split; cbn; rewrite ?km_hoard0, ?km_parcel0, ?Hdata; try done; apply Hc.
    + cbn. by rewrite Hdata.
    + by rewrite Htab.
  - split; try done; [by cbn; rewrite km_hoard0|]. rewrite Htab. cbn. by rewrite Hdata.
Qed.

Definition load (s : modes) : nat := height (tables s) + length (faults (md_db s)).

Lemma steady_kept s : steady s -> kept_modes s s.
Proof. intros []. by split. Qed.

Lemma iteration_spec s :
  steady s -> exists err s', _compact_hoard_iteration s = Some (err, s') /\ steady s' /\ advanced s s' /\ relocated (tables s) (tables s') /\
    (err = PK_SUCCESS -> md_done s' = false -> (load s' < load s)%nat) /\
    (calm s -> err = PK_SUCCESS /\ (md_done s' = true -> packed (tables s'))).
Proof.
  intros Hs. pose proof Hs as [Hu Hi Hok Hsame].
  destruct (transaction_ends (data (md_db s)) (kept_modes s) (iteration_good s) (iteration_bad s) (faults (md_db s)) iteration_body s)
    as (err & s1 & Hr & Hpost).
  { intros fs' Hfs. by apply iteration_body_triple. }
  { apply kept_stable. }
  { done. }
  { apply within_refl. }
  { by apply steady_kept. }
  unfold _compact_hoard_iteration. rewrite Hr. cbn [mbind option_bind]. exists err, (publish s1). split; [done|].
  destruct Hpost as [(-> & Hw & Hk & d & Hid & Hc & Hrel & Hend)|(Hid & Hw & Hk & Hn & Hlt)].
  - destruct (published s s1 d Hs Hk Hw Hid Hc) as (Hst & Hav & Htab). rewrite Htab. split; [done|]. split; [done|]. split; [done|].
    unfold load. rewrite Htab. change (md_done (publish s1)) with (md_done s1). split.
    + intros _ Hnd. rewrite Hnd in Hend. apply suffix_length in Hw. unfold tables in *. cbn in *. lia.
    + intros _. split; [done|]. intros Hd. by rewrite Hd in Hend.
  - destruct (published s s1 (tables s) Hs Hk Hw) as (Hst & Hav & Htab);
      [unfold tables; by destruct (data (md_db s))|apply Hk|]. rewrite Htab. split; [done|]. split; [done|]. split; [done|].
    unfold load. rewrite Htab. split.
    + intros He _. specialize (Hlt He). cbn. lia.
    + intros (Hc & _ & Hio). by destruct Hn.
Qed.

Lemma compact_loop_spec n s :
  steady s -> (load s < n)%nat ->
  exists err s', compact_loop n s = Some (err, s') /\ steady s' /\ advanced s s' /\ relocated (tables s) (tables s') /\
    (calm s -> err = PK_SUCCESS /\ packed (tables s')).
Proof.
  revert s. induction n as [|n IH]; intros s Hs Hn; [lia|]. cbn [compact_loop].
  destruct (iteration_spec s Hs) as (err & s1 & -> & Hs1 & Hav & Hrel & Hload & Hcalm). cbn [mbind option_bind]. case_decide as Herr.
  { exists err, s1. split_and!; try done. intros Hc. by destruct (Hcalm Hc). }
  subst err. destruct (md_done s1) eqn:Hd.
  { exists PK_SUCCESS, s1. split_and!; try done. intros Hc. destruct (Hcalm Hc) as [_ Hp]. auto. }
  specialize (Hload eq_refl eq_refl). destruct (IH s1 Hs1) as (err & s2 & Hr & Hs2 & Hav2 & Hrel2 & Hcalm2); [lia|].
  exists err, s2. split; [done|]. split; [done|]. split; [by etrans|]. split; [by etrans|]. intros Hc. by apply Hcalm2, (calm_later s).
Qed.

(** * Garbage collection and the count *)

(** The functions on state->hoard alone, whose commits state->db sees. *)
Lemma refetched s h :
  steady s -> usable h -> compactable (idx h) (hoard_file h) -> h_parcel h = h_parcel (md_hoard s) ->
  hoard_dir h = hoard_dir (md_hoard s) -> hoard_io h `suffix_of` hoard_io (md_hoard s) ->
  faults (hoard h) `suffix_of` faults (hoard (md_hoard s)) ->
  let s' := refetch (set_md_hoard h s) in steady s' /\ advanced s s' /\ tables s' = idx h.
Proof.
  intros [_ (Hl & Hs & _) _ _] Hu Hc Hp Hd Hio Hf. split; [by split|]. by split.
Qed.

Lemma chunk_firm d t o l : hd_slots d = [] -> firm d t o l <-> chunk_entry d t o l.
Proof.
  intros Hs. split; [|by left]. intros [?|[(r & Hr & _) _]]; [done|]. rewrite Hs in Hr. by apply not_elem_of_nil in Hr.
Qed.

Lemma gc_spec s :
  steady s -> hd_slots (tables s) = [] ->
  exists err s1, on_hoard hoard_gc s = Some (err, s1) /\ let s' := refetch s1 in steady s' /\ advanced s s' /\
    (err = PK_SUCCESS -> collected (tables s) (tables s')) /\ (err <> PK_SUCCESS -> tables s' = tables s /\ ~ calm s).
Proof.
  intros Hs Hslots. pose proof Hs as [Hu Hi [Hwf Hsound Hcry Hb] Hsame]. unfold on_hoard.
  destruct (hoard_gc_spec (md_hoard s) (u_idle _ Hu) (u_wf _ Hu)) as (err & h & Hr & Hun & Hsuf & d & Hid & Hout).
  rewrite Hr. cbn [mbind option_bind]. exists err, (set_md_hoard h s). split; [done|]. pose proof (idle_data _ _ Hid) as <-.
  destruct Hun as [Hp Hdir Hio Hfl]. rewrite Hsame in Hout.
  assert (hoard_wf (idx h) /\ compactable (idx h) (hoard_file h)) as [Hwf' Hc].
  { rewrite Hfl. case_decide; [|by destruct Hout as [-> _]]. destruct Hout as (Hwf' & Hsl & _ & _ & Hin & He). split; [done|].
    split; try done.
    - intros t o l Hf. apply Hsound. rewrite chunk_firm in Hf |- * by congruence. by apply He in Hf as [? _].
    - intros r Hr' Ht. apply Hcry; [|done]. apply Hin; [done|]. destruct (hc_allocated r) eqn:Ha; [done|].
      rewrite (wf_free _ Hwf' r Hr' Ha) in Ht. by destruct Ht. }
  destruct (refetched s h Hs) as (Hs' & Hav & Htab); try done.
  { by eapply usable_later. }
  cbn zeta. rewrite Htab. split; [done|]. split; [done|]. case_decide; split; intros; try done.
  destruct Hout as [? Hn]. split; [done|]. intros (_ & Hc1 & Hio1). by apply Hn.
Qed.

Lemma count_body_triple chunksize s0 fs :
  usable (md_hoard s0) -> fs `suffix_of` faults (md_db s0) ->
  triple (fun s => idle (data (md_db s0)) (md_db s) /\ within fs (md_db s) /\ kept_modes s0 s) (count_moves_body chunksize)
    (fun r => looked s0 r.1) (ending (data (md_db s0)) (kept_modes s0) (fun r => looked s0 r.1) (fun r => looked s0 r.1) fs).
Proof.
  intros Hu Hfs s (Hi & Hw & Hk). unfold count_moves_body. set (F := fun (r : pk_err * Z) => looked s0 r.1).
  assert (forall r s, lost s0 fs s -> ending (data (md_db s0)) (kept_modes s0) F F fs (Goto_bad r) s) as Hlost.
  { intros r s1. apply (lost_ends s0 fs Hfs). intros s2. apply rolled_looked. }
  destruct (begin_spec fs _ (md_db s) Hi Hw) as (ok & b & Hb & Hwb & Hok).
  erewrite bind_step by (unfold try_db; cbn [get_db modes_has_db]; by rewrite Hb). destruct ok.
  2:{ destruct Hok as (Hib & Hn & Hlt). eexists _, _. split; [done|]. split; [done|]. split; [by eapply within_trans|].
      split; [by apply kept_stable|]. intros _. by eapply not_smooth. }
  assert (inside s0 fs (tables s0) (set_md_db b s)) as Hin.
  { split; [unfold tables; rewrite same_hoard; apply Hok|]. split; [done|]. by apply kept_stable. }
  destruct (query_row_eval s0 fs Hfs (R:=pk_err * Z) sql_count_present _ _ _ eq_refl Hin) as (rows & s1 & Hr & _ & Hout).
  rewrite (bind_step _ _ _ _ _ Hr). destruct Hout as [(-> & Hrow & Hin1)|[Hrow Hl]];
    [|destruct rows; rewrite bind_gets, Hrow; eexists _, s1; split; [done|]; by apply Hlost].
  rewrite bind_gets, Hrow.
  destruct (query_row_eval s0 fs Hfs (R:=pk_err * Z) (sql_count_gaps (s32 (u32 (s32 (default 0 (head [Z.of_nat (length
    (filter (fun r => is_Some (hc_tag r)) (hd_chunks (tables s0))))])) * Z.shiftr chunksize 9)))) _ _ _ eq_refl Hin1) as (rows & s2 & Hr2 & _ & Hout2).
  cbn [negb]. rewrite (bind_step _ _ _ _ _ Hr2). destruct Hout2 as [(-> & Hrow2 & Hin2)|[Hrow2 Hl]];
    [|destruct rows; rewrite bind_gets, Hrow2; eexists _, s2; split; [done|]; by apply Hlost].
  rewrite bind_gets, Hrow2.
  cbn [negb]. destruct Hin2 as (Ha2 & Hw2 & Hk2).
  destruct (rollback_spec fs (data (md_db s0)) (md_db s2)) as (b2 & Hrb & Hwb2 & Hib2 & _); [by eapply active_broken|done|].
  erewrite bind_step by (unfold try_db; cbn [get_db modes_has_db]; by rewrite Hrb).
  eexists _, _. split; [done|]. split; [done|]. split; [by eapply within_trans|]. split; [by apply kept_stable|done].
Qed.

Lemma looked_steady s s' err : steady s -> looked s err s' -> steady s' /\ advanced s s' /\ tables s' = tables s.
Proof.
  intros [[] Hi Hok Hsame] (Hid & Hw & [] & _). pose proof (idle_data _ _ Hid) as Hd.
  assert (tables s' = tables s) as Htab by (unfold tables; by rewrite Hd). split; [|split; [|done]].
  - split; rewrite ?Htab, ?Hd; try done; [|by rewrite km_hoard0]. split; rewrite ?km_hoard0, ?km_parcel0; try done. apply km_safe0.
  - split; rewrite ?Htab, ?Hd; try done; [by rewrite km_hoard0|]. unfold tables. by destruct (data (md_db s)).
Qed.

Lemma calm_smooth s : calm s -> smooth s.
Proof. by intros (? & _ & ?). Qed.

Lemma count_spec chunksize s :
  steady s -> exists err n s', _compact_hoard_count_moves chunksize s = Some ((err, n), s') /\ steady s' /\ advanced s s' /\
    tables s' = tables s /\ (calm s -> err = PK_SUCCESS).
Proof.
  intros Hs. pose proof Hs as [Hu Hi Hok Hsame].
  destruct (transaction_ends (data (md_db s)) (kept_modes s) (fun r => looked s r.1) (fun r => looked s r.1) (faults (md_db s))
    (count_moves_body chunksize) s) as ([err n] & s' & Hr & Hpost); [|apply kept_stable|done|apply within_refl|by apply steady_kept|].
  { intros fs Hfs. by apply count_body_triple. }
  assert (looked s err s') as Hl by (by destruct Hpost). destruct (looked_steady s s' err Hs Hl) as (? & ? & ?).
  exists err, n, s'. split_and!; try done. intros Hc. destruct Hl as (_ & _ & _ & Hn).
  destruct (decide (err = PK_SUCCESS)) as [|Hne]; [done|]. by destruct (Hn Hne (calm_smooth s Hc)).
Qed.
