(* ===== verification/HoardTruncate.v ===== *)
(** HoardTruncate: the end of the compaction, which gives the free slots at the end of the hoard cache back
    to the file system, and what compact_hoard does as a whole. *)

From stdpp Require Import strings sorting.
From S2P Require Import Prelude Cipher HashStream Sha1 Hash Compress LzfStream Chunk Effects Sql SqlConn SqlRows Pk Util Config Transport Hoard HoardProofs HoardChunks Supply HoardAdmin HoardModes HoardCompact.

#[local] Opaque Fips180.sha1.

(** * Cutting off the end *)

(** Where the slots end that are in use. *)
Definition top (d : hoard_db) : Z :=
  match hc_offset <$> filter (fun r => hc_allocated r = true) (hd_chunks d) with
  | [] => 0
  | o :: os => foldr Z.max o os + 256
  end.

Definition cut (o : Z) (d : hoard_db) : hoard_db := set_hchunks (filter (fun r => hc_offset r < o) (hd_chunks d)) d.

Lemma top_above d r : r ∈ hd_chunks d -> hc_allocated r = true -> hc_offset r + 256 <= top d.
Proof.
  intros Hr Ha. unfold top. assert (hc_offset r ∈ hc_offset <$> filter (fun r => hc_allocated r = true) (hd_chunks d)) as Hin.
  { apply list_elem_of_fmap. exists r. split; [done|]. by apply list_elem_of_filter. }
  destruct (hc_offset <$> _) as [|o os]; [by apply not_elem_of_nil in Hin|].
  destruct (foldr_max_spec o os) as (Ho & Hos & _). rewrite Forall_forall in Hos.
  apply elem_of_cons in Hin as [->|Hin]; [lia|]. specialize (Hos _ Hin). lia.
Qed.

Lemma top_spec d : top d = 0 \/ exists r, r ∈ hd_chunks d /\ hc_allocated r = true /\ top d = hc_offset r + 256.
Proof.
  unfold top. destruct (hc_offset <$> filter _ _) as [|o os] eqn:He; [by left|right].
  destruct (foldr_max_spec o os) as (_ & _ & Hin). rewrite <- He in Hin.
  apply list_elem_of_fmap in Hin as (r & -> & [Ha Hr]%list_elem_of_filter). by exists r.
Qed.

Lemma range_resized f n p l : (p + l <= n)%nat -> length (range f p l) = l -> range (resized n f) p l = range f p l.
Proof.
  intros Hn Hl. rewrite length_range in Hl. apply range_ext. intros i Hi. unfold resized. rewrite lookup_app_l by (rewrite length_take; lia).
  apply lookup_take_lt. lia.
Qed.

Lemma length_resized n f : length (resized n f) = n.
Proof. unfold resized. rewrite length_app, length_take, length_replicate. lia. Qed.

Lemma bytes_resized n f : bytes f -> bytes (resized n f).
Proof. intros Hf. apply Forall_app_2; [by apply Forall_take|]. by apply Forall_replicate. Qed.

Section cut.
Context (d : hoard_db) (f : list Z) (Hd : compactable d f).

Lemma firm_below t o l : firm d t o l -> 0 <= o /\ o + 256 <= top d.
Proof.
  pose proof (cp_wf _ _ Hd) as Hwf. intros Hf. split; [by eapply (entry_aligned d Hwf), firm_entry|].
  destruct Hf as [(r & Hr & Ht & <- & _)|[(sl & Hsl & _ & <- & _) _]].
  - apply top_above; [done|]. destruct (hc_allocated r) eqn:Ha; [done|]. pose proof (wf_free d Hwf r Hr Ha). congruence.
  - destruct (wf_reserved d Hwf sl Hsl) as (r & Hr & <- & Ha & _). by apply top_above.
Qed.

Lemma resized_compactable : compactable d (resized (Z.to_nat (Z.shiftl (top d) 9)) f).
Proof.
  destruct Hd as [Hwf Hs Hc Hb]. split; [done| |done|by apply bytes_resized]. intros t o l Hf.
  destruct (Hs t o l Hf) as (Hl & Hfull & Hsha). destruct (firm_below t o l Hf) as [Ho Htop].
  unfold content in *. rewrite range_resized; [done| |lia]. unfold place. rewrite !Z.shiftl_mul_pow2 by lia.
  change (2 ^ 9) with 512. unfold SLOT_SIZE in *. lia.
Qed.

Lemma elem_of_cut r : r ∈ hd_chunks (cut (top d) d) <-> r ∈ hd_chunks d /\ hc_offset r < top d.
Proof. cbn. rewrite list_elem_of_filter. tauto. Qed.

Lemma cut_keeps r : r ∈ hd_chunks d -> hc_allocated r = true -> r ∈ hd_chunks (cut (top d) d).
Proof. intros Hr Ha. apply elem_of_cut. split; [done|]. pose proof (top_above d r Hr Ha). lia. Qed.

Lemma cut_entry t o l : chunk_entry (cut (top d) d) t o l <-> chunk_entry d t o l.
Proof.
  split.
  - intros (r & [Hr _]%elem_of_cut & ?). by exists r.
  - intros (r & Hr & Ht & ?). exists r. split; [|done]. apply cut_keeps; [done|].
    destruct (hc_allocated r) eqn:Ha; [done|]. pose proof (wf_free d (cp_wf _ _ Hd) r Hr Ha). congruence.
Qed.

Lemma cut_compactable : compactable (cut (top d) d) (resized (Z.to_nat (Z.shiftl (top d) 9)) f).
Proof.
  pose proof resized_compactable as [[Hco Hct Hso Hst Hre Hf Hal Hint] Hs Hc Hb]. split; [split| | |done]; try done.
  - eapply sublist_NoDup; [exact Hco|]. apply fmap_sublist, sublist_filter.
  - intros r1 r2 t [Hr1 _]%elem_of_cut [Hr2 _]%elem_of_cut. by apply Hct.
  - intros sl Hsl. destruct (Hre sl Hsl) as (r & Hr & ? & Ha & ?). exists r. split; [by apply cut_keeps|done].
  - intros r [Hr _]%elem_of_cut. by apply Hf.
  - intros r [Hr _]%elem_of_cut. by apply Hal.
  - intros t o l [He|[Hsl Hn]]; apply Hs; [left; by apply cut_entry|right]. split; [exact Hsl|].
    intros (o' & l' & He). apply Hn. exists o', l'. by apply cut_entry.
  - intros r [Hr _]%elem_of_cut. by apply Hc.
Qed.
End cut.

(** * The transaction *)

Lemma ftruncate_eval len h :
  exists ok h', hoard_ftruncate len h = Some (ok, h') /\ hoard h' = hoard h /\ h_parcel h' = h_parcel h /\ hoard_dir h' = hoard_dir h /\
    hoard_io h' `suffix_of` hoard_io h /\
    if ok then 0 <= len /\ hoard_file h' = resized (Z.to_nat len) (hoard_file h)
    else hoard_file h' = hoard_file h /\ (hoard_io h = [] -> len < 0).
Proof.
  unfold hoard_ftruncate, body.
  assert (exists o l, (hoard_next_io : pk hoard_state bool _) h = Some (inl o, set_hoard_io l h) /\ l `suffix_of` hoard_io h /\
    (hoard_io h = [] -> o = None)) as (o & l & Hio & Hsuf & Ho).
  { unfold hoard_next_io. destruct (hoard_io h) as [|x rest] eqn:Hx.
    - exists None, []. split; [by destruct h; cbn in *; subst|done].
    - exists x, rest. split; [done|]. split; [by apply suffix_cons_r|done]. }
  rewrite (bind_step _ _ _ _ _ Hio). case_decide as Hf.
  - exists false, (set_hoard_io l h). split_and!; try done. intros Hnil. destruct Hf as [Hf|?]; [|done]. by destruct (Hf (Ho Hnil)).
  - exists true, (set_hoard_file (resized (Z.to_nat len) (hoard_file h)) (set_hoard_io l h)). split_and!; try done. lia.
Qed.

(** The new end of the cache, in sectors, or an overflow. *)
Lemma new_end d :
  hoard_wf d ->
  let o := match default None (head [match hc_offset <$> filter (fun r => hc_allocated r = true) (hd_chunks d) with
             | [] => None | o :: os => Some (foldr Z.max o os) end]) with
           | Some m => s32 (s32 m + Z.shiftr 131072 9)
           | None => 0
           end in
  o = top d /\ 0 <= o \/ o < 0 /\ 2 ^ 31 <= top d.
Proof.
  intros Hwf. cbn [head default]. change (Z.shiftr 131072 9) with 256. pose proof (top_spec d) as Ht. revert Ht. unfold top.
  destruct (hc_offset <$> _) as [|o os] eqn:He; cbn; [intros _; by left|].
  destruct (foldr_max_spec o os) as (_ & _ & Hin). rewrite <- He in Hin. set (m := foldr Z.max o os) in *.
  apply list_elem_of_fmap in Hin as (r & -> & [Ha Hr]%list_elem_of_filter). intros _.
  destruct (wf_aligned d Hwf r Hr) as [_ Hrange]. rewrite (s32_id (hc_offset r)) by lia.
  destruct (decide (hc_offset r + 256 < 2 ^ 31)); [left; rewrite s32_id by lia; lia|right]. split; [|lia].
  unfold s32. rewrite u32_id by (unfold is_u; lia). rewrite decide_False by lia. lia.
Qed.

(** What it leaves: the slots after the last one in use are gone, or nothing has happened to the index. *)
Definition truncated (s0 : modes) (err : pk_err) (s : modes) : Prop :=
  within (faults (md_db s0)) (md_db s) /\ kept_modes s0 s /\
  if decide (err = PK_SUCCESS) then
    let d := cut (top (tables s0)) (tables s0) in
    idle (set_m_hoard d (data (md_db s0))) (md_db s) /\ compactable d (hoard_file (md_hoard s)) /\
    length (hoard_file (md_hoard s)) = Z.to_nat (Z.shiftl (top (tables s0)) 9)
  else idle (data (md_db s0)) (md_db s) /\ (smooth s0 -> 2 ^ 31 <= top (tables s0)).

Section truncate.
Context (s0 : modes) (Hs0 : steady s0) (fs : list (option (sqlite_fault * bool))) (Hfs : fs `suffix_of` faults (md_db s0)).
Local Abbreviation D0 := (data (md_db s0)).
Local Abbreviation d0 := (tables s0).
Local Abbreviation F := (truncated s0).
Local Abbreviation leave := (ending D0 (kept_modes s0) F F fs).

Lemma lost_truncated s : lost s0 fs s -> leave (Goto_bad PK_IOERR) s.
Proof.
  apply (lost_ends s0 fs Hfs). intros s1 (Hi & Hw & Hk & Hn & _). split; [done|]. split; [done|].
  rewrite decide_False by done. by split.
Qed.

(** The file is as it was until it is truncated. *)
Lemma truncate_file_step o s :
  inside s0 fs (cut o d0) s -> query_has_row (md_db s) = true ->
  o = top d0 /\ 0 <= o \/ o < 0 /\ 2 ^ 31 <= top d0 ->
  exists r s', (ok ← call (on_hoard (hoard_ftruncate (Z.shiftl o 9)));
      if negb ok then goto_bad PK_IOERR
      else ok ← try_db commit; if ok : bool then ret PK_SUCCESS else goto_bad PK_IOERR : pk modes pk_err pk_err) s = Some (r, s') /\
    match r with inl a => F a s' | inr e => leave e s' end.
Proof.
  intros Hin Hrow Ho. pose proof Hin as (Hact & Hw & Hk). pose proof (sy_usable s0 Hs0) as Hu.
  destruct (ftruncate_eval (Z.shiftl o 9) (md_hoard s)) as (ok & h & Hr & Hh & Hp & Hdir & Hio & Hok).
  rewrite (bind_step _ _ s ok (set_md_hoard h s)) by (unfold call, on_hoard; by rewrite Hr). destruct ok; cbn [negb]; last first.
  { destruct Hok as [Hf Hneg]. eexists _, _. split; [done|]. eapply (stopped_ends s0 fs Hfs _ _ _ (cut o d0)); [| |exact Hrow].
    - intros s1 Hi1 Hw1 Hk1. split; [done|]. split; [done|]. rewrite decide_False by done. split; [done|]. intros Hsm.
      apply (kept_smooth s0 s Hk) in Hsm. specialize (Hneg Hsm). destruct Ho as [[_ Ho]|[_ ?]]; [|done].
      rewrite Z.shiftl_mul_pow2 in Hneg by lia. lia.
    - split; [done|]. split; [done|]. apply set_md_hoard_kept; try done. rewrite Hf. apply Hk. }
  destruct Hok as [Hpos Hf]. destruct Ho as [[-> Ho]|[? _]]; [|rewrite Z.shiftl_mul_pow2 in Hpos by lia; lia].
  set (s1 := set_md_hoard h s).
  assert (kept_modes s0 s1) as Hk1 by (apply set_md_hoard_kept; try done; rewrite Hf; apply resized_compactable, Hk).
  destruct (commit_spec fs D0 _ (md_db s1) Hact Hw) as (ok & b & Hb & Hwb & Hok).
  erewrite bind_step by (unfold try_db; cbn [get_db modes_has_db]; by rewrite Hb). destruct ok.
  - eexists _, _. split; [done|]. split; [by eapply within_trans|]. split; [by apply kept_stable|]. rewrite decide_True by done.
    split; [done|]. cbn. rewrite Hf. split; [apply cut_compactable, Hk|apply length_resized].
  - eexists _, _. split; [done|]. apply lost_truncated. destruct Hok as (Hbr & Hbusy & Hgu & Hlt).
    split; [done|]. split; [done|]. split; [by apply kept_stable|]. split; [|done]. intros _. by eapply not_smooth.
Qed.

Lemma truncate_steps_eval s :
  inside s0 fs d0 s ->
  exists r s', truncate_steps 131072 s = Some (r, s') /\ match r with inl a => F a s' | inr e => leave e s' end.
Proof.
  intros Hin. pose proof (sy_usable s0 Hs0) as Hu. unfold truncate_steps.
  destruct (query_row_eval s0 fs Hfs (R:=pk_err) sql_max_offset _ _ _ eq_refl Hin) as (rows & s1 & Hr & Heq1 & Hout).
  rewrite (bind_step _ _ _ _ _ Hr). destruct Hout as [(-> & Hrow & Hin1)|[Hrow Hl]];
    [|destruct rows; rewrite bind_gets, Hrow; eexists _, s1; split; [done|]; by apply lost_truncated].
  rewrite bind_gets, Hrow. cbn [negb].
  destruct (query_row_eval s0 fs Hfs (R:=pk_err) sql_max_allocated _ _ _ eq_refl Hin1) as (rows & s2 & Hr2 & Heq2 & Hout2).
  rewrite (bind_step _ _ _ _ _ Hr2). destruct Hout2 as [(-> & Hrow2 & Hin2)|[Hrow2 Hl]];
    [|destruct rows; rewrite bind_gets, Hrow2; eexists _, s2; split; [done|]; by apply lost_truncated].
  rewrite bind_gets, Hrow2. cbn [negb]. pose proof (new_end d0 (cp_wf _ _ (sy_ok _ Hs0))) as Hend. cbn zeta in Hend. revert Hend.
  set (o := match default None _ with Some m => _ | None => 0 end). intros Hend.
  destruct (mrun_eval s0 fs Hfs (R:=pk_err) (sql_delete_from o) _ _ _ _ eq_refl Hin2) as ([ok rows] & s3 & Hr3 & Heq3 & Hout3).
  rewrite (bind_step _ _ _ _ _ Hr3). destruct Hout3 as [([= -> ->] & Hin3 & Hrow3)|(Hok & Hl & _)]; last first.
  { cbn in Hok. subst ok. eexists _, s3. split; [done|]. by apply lost_truncated. }
  cbn [negb]. apply truncate_file_step; [done|unfold query_has_row; by rewrite Hrow3|done].
Qed.

Lemma truncate_body_triple :
  triple (fun s => idle D0 (md_db s) /\ within fs (md_db s) /\ kept_modes s0 s)
    (truncate_body 131072) F leave.
Proof.
  intros s (Hi & Hw & Hk). unfold truncate_body. destruct (begin_spec fs _ (md_db s) Hi Hw) as (ok & b & Hb & Hwb & Hok).
  erewrite bind_step by (unfold try_db; cbn [get_db modes_has_db]; by rewrite Hb). destruct ok.
  - apply truncate_steps_eval. split; [unfold tables; rewrite same_hoard; apply Hok|]. split; [done|]. by apply kept_stable.
  - destruct Hok as (Hib & Hn & Hlt). eexists _, _. split; [done|]. split; [by eapply within_trans|]. split; [by apply kept_stable|].
    rewrite decide_False by done. split; [done|]. intros Hsm. by destruct (not_smooth s0 fs Hfs Hn).
Qed.
End truncate.

Lemma truncate_spec s :
  steady s -> exists err s', _compact_hoard_truncate 131072 s = Some (err, s') /\ steady s' /\ advanced s s' /\
    (err = PK_SUCCESS -> tables s' = cut (top (tables s)) (tables s) /\
       length (hoard_file (md_hoard s')) = Z.to_nat (Z.shiftl (top (tables s)) 9)) /\
    (err <> PK_SUCCESS -> tables s' = tables s /\ (calm s -> 2 ^ 31 <= top (tables s))).
Proof.
  intros Hs. pose proof Hs as [Hu Hi Hok Hsame].
  destruct (transaction_ends (data (md_db s)) (kept_modes s) (truncated s) (truncated s) (faults (md_db s)) (truncate_body 131072) s)
    as (err & s1 & Hr & Hpost); [|apply kept_stable|done|apply within_refl|by apply steady_kept|].
  { intros fs Hfs. by apply truncate_body_triple. }
  unfold _compact_hoard_truncate. rewrite Hr. cbn [mbind option_bind]. exists err, (publish s1). split; [done|].
  assert (truncated s err s1) as (Hw & Hk & Hend) by (by destruct Hpost). case_decide as Herr.
  - destruct Hend as (Hid & Hc & Hlen). destruct (published s s1 _ Hs Hk Hw Hid Hc) as (Hst & Hav & Htab). split_and!; try done.
  - destruct Hend as [Hid Hn]. destruct (published s s1 (tables s) Hs Hk Hw) as (Hst & Hav & Htab);
      [unfold tables; by destruct (data (md_db s))|apply Hk|]. split_and!; try done. intros _. split; [done|].
    intros Hc. by apply Hn, calm_smooth.
Qed.

Lemma vacuum_modes_spec s :
  steady s -> exists ok s', hoard_vacuum s = Some (ok, s') /\ steady s' /\ advanced s s' /\ tables s' = tables s /\
    hoard_file (md_hoard s') = hoard_file (md_hoard s) /\ (calm s -> ok = true).
Proof.
  intros [Hu Hi Hok Hsame]. unfold hoard_vacuum, on_hoard.
  destruct (vacuum_spec (faults (hoard (md_hoard s))) _ (hoard (md_hoard s)) (u_idle _ Hu) (within_refl _)) as (ok & b & Hr & Hib & Hw & Hn).
  rewrite Hr. cbn [mbind option_bind]. exists ok, (set_md_hoard (set_hoard b (md_hoard s)) s). split; [done|].
  pose proof (idle_data _ _ Hib) as Hd. split.
  { split; try done; [|cbn; by rewrite Hd]. destruct Hu. split; cbn; rewrite ?Hd; done. }
  split. { split; try done. unfold tables. cbn. by destruct (data (md_db s)). }
  split; [done|]. split; [done|]. intros (_ & Hc & _). destruct ok; [done|]. by destruct (Hn eq_refl Hc).
Qed.

(** * The index as a whole *)

(** The slots are numbered from 0 on, as check_hoard asks for. *)
Definition dense (d : hoard_db) : Prop :=
  hc_offset <$> hd_chunks d ≡ₚ (fun i => 256 * Z.of_nat i) <$> seq 0 (length (hd_chunks d)).

(** No slot is reserved by a process. *)
Definition unreserved (d : hoard_db) : Prop :=
  forall r, r ∈ hd_chunks d -> hc_allocated r = true -> is_Some (hc_tag r).

Lemma filter_offsets o (l : list hchunk) : hc_offset <$> filter (fun r => hc_offset r < o) l = filter (fun z => z < o) (hc_offset <$> l).
Proof.
  induction l as [|r l IH]; [done|]. rewrite fmap_cons, !filter_cons. destruct (decide (hc_offset r < o)); [|done].
  by rewrite fmap_cons, IH.
Qed.

Lemma filter_numbers k n : (k <= n)%nat ->
  filter (fun z => z < 256 * Z.of_nat k) ((fun i => 256 * Z.of_nat i) <$> seq 0 n) = (fun i => 256 * Z.of_nat i) <$> seq 0 k.
Proof.
  intros Hk. replace n with (k + (n - k))%nat by lia. rewrite seq_app, fmap_app, filter_app, filter_all, filter_none; [by rewrite app_nil_r|..];
    apply Forall_fmap, Forall_forall; intros i Hi%elem_of_seq; simpl; lia.
Qed.

Lemma dense_cut d f :
  compactable d f -> dense d -> packed d -> unreserved d ->
  let d' := cut (top d) d in
  (forall r, r ∈ hd_chunks d' -> is_Some (hc_tag r)) /\ dense d' /\ top d = 256 * Z.of_nat (length (hd_chunks d')).
Proof.
  intros Hd Hn Hp Hu d'. pose proof (cp_wf _ _ Hd) as Hwf.
  assert (exists k, (k <= length (hd_chunks d))%nat /\ top d = 256 * Z.of_nat k) as (k & Hk & Htop).
  { destruct (top_spec d) as [->|(r & Hr & _ & ->)]; [exists O; lia|].
    assert (hc_offset r ∈ hc_offset <$> hd_chunks d) as Hin by (apply list_elem_of_fmap; eauto).
    unfold dense in Hn. rewrite Hn in Hin. apply list_elem_of_fmap in Hin as (i & -> & Hi%elem_of_seq). exists (S i). lia. }
  assert (hc_offset <$> hd_chunks d' ≡ₚ (fun i => 256 * Z.of_nat i) <$> seq 0 k) as Hperm.
  { unfold d', cut. cbn [hd_chunks set_hchunks]. rewrite filter_offsets, Htop. unfold dense in Hn. rewrite Hn. by rewrite filter_numbers. }
  assert (length (hd_chunks d') = k) as Hlen.
  { apply Permutation_length in Hperm. by rewrite !length_fmap, length_seq in Hperm. }
  split; [|split; [unfold dense; by rewrite Hlen|by rewrite Hlen]].
  intros r [Hr Ho]%(elem_of_cut d). destruct (hc_allocated r) eqn:Ha; [by apply Hu|]. exfalso.
  destruct (top_spec d) as [H0|(x & Hx & Hxa & Hx2)]; [destruct (wf_aligned d Hwf r Hr); lia|].
  pose proof (Hp x r Hx (Hu x Hx Hxa) Hr Ha) as Hlt. destruct (wf_aligned d Hwf r Hr) as [Hm _], (wf_aligned d Hwf x Hx) as [Hmx _].
  rewrite Hx2 in Ho. apply Z.mod_divide in Hm as [a Ha2]; [|lia]. apply Z.mod_divide in Hmx as [b Hb2]; [|lia]. lia.
Qed.

(** * Compaction *)

(** The chunk is in the table. *)
Definition stored (d : hoard_db) (t : list Z) : Prop := exists o l, chunk_entry d t o l.

(** What the compaction as a whole may do: drop chunks that no parcel refers to ([gone] says whether it has),
    and move the others. *)
Record compacting (gone : Prop) (d d' : hoard_db) : Prop := mk_compacting {
  cg_refs : hd_refs d' = hd_refs d;
  cg_parcels : hd_parcels d' = hd_parcels d;
  cg_subset t : stored d' t -> stored d t;
  cg_kept t : stored d t -> t ∈ (hd_refs d).*2 -> stored d' t;
  cg_gone t : gone -> stored d' t -> t ∈ (hd_refs d).*2;
  cg_reserved r : hc_allocated r = true -> hc_tag r = None -> r ∈ hd_chunks d' <-> r ∈ hd_chunks d
}.

Lemma compacting_same gone d : ~ gone -> compacting gone d d.
Proof. by intros Hn; split. Qed.

Lemma collected_compacting d d' : hoard_wf d -> hd_slots d = [] -> collected d d' -> compacting True d d'.
Proof.
  intros Hwf Hs (Hwf' & Hsl & (Hf & Hr & Hp) & _ & Hin & He). split; try done; unfold stored.
  - intros t (o & l & Hc). apply He in Hc as [? _]. eauto.
  - intros t (o & l & Hc) Ht. exists o, l. by apply He.
  - intros t _ (o & l & Hc). by apply He in Hc as [_ ?].
  - intros r Ha Ht. split; [by intros ?; apply Hin|]. intros Hr'. apply (Hf r). split_and!; try done.
    rewrite Hs. apply not_elem_of_nil.
Qed.

Lemma relocated_compacting gone d d1 d2 : compacting gone d d1 -> relocated d1 d2 -> compacting gone d d2.
Proof.
  intros [] []. split; try congruence; unfold stored in *; intros.
  - apply cg_subset0. by apply rl_chunks.
  - apply rl_chunks. auto.
  - apply cg_gone0; [done|]. by apply rl_chunks.
  - rewrite rl_reserved by done. auto.
Qed.

Lemma cut_compacting gone d d1 f : compactable d1 f -> compacting gone d d1 -> compacting gone d (cut (top d1) d1).
Proof.
  intros Hc []. pose proof (cut_entry d1 f Hc) as He. split; try done; unfold stored in *; intros t; try setoid_rewrite He; auto.
  intros Ha Ht. rewrite <- cg_reserved0 by done. split; [by intros [? _]%elem_of_cut|]. intros Hin. by apply cut_keeps.
Qed.

Lemma gc_fits d d' : collected d d' -> (dense d -> dense d') /\ (unreserved d -> unreserved d').
Proof.
  intros (_ & _ & _ & Ho & Hin & _). split.
  - unfold dense. rewrite Ho. replace (length (hd_chunks d')) with (length (hd_chunks d)); [done|].
    apply (f_equal length) in Ho. by rewrite !length_fmap in Ho.
  - intros Hu r Hr Ha. auto.
Qed.

Lemma relocated_fits d d' : relocated d d' -> (dense d -> dense d') /\ (unreserved d -> unreserved d').
Proof.
  intros Hrel. pose proof (rl_offsets _ _ Hrel) as Ho. split.
  - unfold dense. rewrite Ho. replace (length (hd_chunks d')) with (length (hd_chunks d)); [done|].
    apply (f_equal length) in Ho. by rewrite !length_fmap in Ho.
  - intros Hu r Hr Ha. destruct (hc_tag r) eqn:Ht; [done|]. apply (rl_reserved _ _ Hrel r Ha Ht) in Hr.
    specialize (Hu r Hr Ha). by rewrite Ht in Hu.
Qed.

Lemma relocated_top d d' b :
  relocated d d' -> (forall r, r ∈ hd_chunks d -> hc_offset r + 256 <= b) -> 0 <= b -> top d' <= b.
Proof.
  intros Hrel Hb Hb0. destruct (top_spec d') as [->|(r & Hr & _ & ->)]; [done|].
  assert (hc_offset r ∈ hc_offset <$> hd_chunks d) as (x & -> & Hx)%list_elem_of_fmap; [|auto].
  rewrite <- (rl_offsets _ _ Hrel). apply list_elem_of_fmap. eauto.
Qed.

(** The offsets do not overflow when the last slot is counted. *)
Definition in_range (d : hoard_db) : Prop := forall r, r ∈ hd_chunks d -> hc_offset r + 256 < 2 ^ 31.

Lemma relocated_in_range d d' : relocated d d' -> in_range d -> in_range d'.
Proof.
  intros Hrel Hb r Hr. assert (hc_offset r ∈ hc_offset <$> hd_chunks d) as (x & -> & Hx)%list_elem_of_fmap; [|auto].
  rewrite <- (rl_offsets _ _ Hrel). apply list_elem_of_fmap. eauto.
Qed.

Lemma collected_in_range d d' : collected d d' -> in_range d -> in_range d'.
Proof.
  intros (_ & _ & _ & Ho & _) Hb r Hr. assert (hc_offset r ∈ hc_offset <$> hd_chunks d) as (x & -> & Hx)%list_elem_of_fmap; [|auto].
  rewrite <- Ho. apply list_elem_of_fmap. eauto.
Qed.

Lemma in_range_top d : in_range d -> top d < 2 ^ 31.
Proof. intros Hb. destruct (top_spec d) as [->|(r & Hr & _ & ->)]; [lia|auto]. Qed.

(** What is left when nothing but contention gets in the way. *)
Definition compacted (d : hoard_db) (s : modes) : Prop :=
  dense d -> unreserved d -> (forall r, r ∈ hd_chunks (tables s) -> is_Some (hc_tag r)) /\ dense (tables s) /\
    Z.of_nat (length (hoard_file (md_hoard s))) = SLOT_SIZE * Z.of_nat (length (hd_chunks (tables s))).

(** The part after the garbage collection. *)
Lemma compact_rest_spec s :
  steady s ->
  exists err s', (
      '((err, _), s) ← _compact_hoard_count_moves 131072 s;
      if decide (err <> PK_SUCCESS) then Some (err, s)
      else
        '(err, s) ← compact_loop (compact_rounds s) s;
        if decide (err <> PK_SUCCESS) then Some (err, s)
        else
          '(err, s) ← _compact_hoard_truncate 131072 s;
          if decide (err <> PK_SUCCESS) then Some (err, s)
          else
            '(ok, s) ← hoard_vacuum s;
            if negb ok then Some (PK_IOERR, s) else Some (PK_SUCCESS, s)) = Some (err, s') /\
    steady s' /\ advanced s s' /\ (forall gone d, compacting gone d (tables s) -> compacting gone d (tables s')) /\
    (calm s -> in_range (tables s) -> err = PK_SUCCESS /\ compacted (tables s) s').
Proof.
  intros Hs. destruct (count_spec 131072 s Hs) as (err & n & s1 & -> & Hs1 & Hav1 & Htab1 & Hok1). cbn [mbind option_bind].
  case_decide as Herr; [|subst err].
  { exists err, s1. rewrite Htab1. split_and!; try done. by intros Hc%Hok1. }
  destruct (compact_loop_spec (compact_rounds s1) s1 Hs1) as (err & s2 & -> & Hs2 & Hav2 & Hrel & Hok2); [unfold compact_rounds, load, tables; lia|].
  rewrite Htab1 in Hrel. cbn [mbind option_bind]. assert (advanced s s2) as Hav by (by etrans).
  assert (forall gone d, compacting gone d (tables s) -> compacting gone d (tables s2)) as Hcg.
  { intros gone d Hc. by eapply relocated_compacting. }
  assert (calm s -> calm s1) as Hcalm1 by (by apply calm_later). case_decide as Herr; [|subst err].
  { exists err, s2. split_and!; try done. intros Hc. by destruct (Hok2 (Hcalm1 Hc)). }
  destruct (truncate_spec s2 Hs2) as (err & s3 & -> & Hs3 & Hav3 & Hyes & Hno). cbn [mbind option_bind].
  assert (calm s -> calm s2) as Hcalm2 by (by apply calm_later). case_decide as Herr; [|subst err].
  { destruct (Hno Herr) as [Htab3 Hbig]. exists err, s3. rewrite Htab3. split_and!; try done; [by etrans|].
    intros Hc Hr. pose proof (in_range_top _ (relocated_in_range _ _ Hrel Hr)). specialize (Hbig (Hcalm2 Hc)). lia. }
  destruct (Hyes eq_refl) as [Htab3 Hlen3]. assert (advanced s s3) as Hav' by (by etrans).
  destruct (vacuum_modes_spec s3 Hs3) as (ok & s4 & -> & Hs4 & Hav4 & Htab4 & Hf4 & Hok4). cbn [mbind option_bind].
  assert (forall gone d, compacting gone d (tables s) -> compacting gone d (tables s4)) as Hcg4.
  { intros gone d Hc. rewrite Htab4, Htab3. eapply cut_compacting; [apply Hs2|auto]. }
  assert (calm s -> ok = true) as Hvac by (intros Hc; by apply Hok4, (calm_later s)).
  exists (if ok then PK_SUCCESS else PK_IOERR), s4. split; [by destruct ok|]. split; [done|]. split; [by etrans|]. split; [done|].
  intros Hc Hr. rewrite Hvac by done. split; [done|]. intros Hden Hun. destruct (relocated_fits _ _ Hrel) as [Hd Hu].
  destruct (Hok2 (Hcalm1 Hc)) as [_ Hp]. destruct (dense_cut _ _ (sy_ok _ Hs2) (Hd Hden) Hp (Hu Hun)) as (Hall & Hdense & Htop).
  rewrite Hf4, Hlen3, Htab4, Htab3. split; [done|]. split; [done|]. rewrite Z.shiftl_mul_pow2 by lia. unfold SLOT_SIZE. lia.
Qed.

Lemma compact_hoard_spec s :
  steady s -> hd_slots (tables s) = [] ->
  exists err s' gone, compact_hoard s = Some (err, s') /\ steady s' /\ advanced s s' /\ compacting gone (tables s) (tables s') /\
    (calm s -> gone /\ (in_range (tables s) -> err = PK_SUCCESS /\ compacted (tables s) s')).
Proof.
  intros Hs Hslots. unfold compact_hoard. destruct (gc_spec s Hs Hslots) as (err & s1 & -> & Hs1 & Hav1 & Hyes & Hno).
  cbn [mbind option_bind]. case_decide as Herr; [|subst err].
  { destruct (Hno Herr) as [Htab Hn]. exists err, (refetch s1), False. rewrite Htab. by split_and!. }
  specialize (Hyes eq_refl). pose proof (cp_wf _ _ (sy_ok _ Hs)) as Hwf.
  destruct (compact_rest_spec _ Hs1) as (err & s2 & Hr & Hs2 & Hav2 & Hcg & Hok). exists err, s2, True. split; [exact Hr|].
  split; [done|]. split; [by etrans|]. split; [by apply Hcg, collected_compacting|]. intros Hc. split; [done|]. intros Hrange.
  destruct Hok as [He Hcomp]; [by eapply calm_later|by eapply collected_in_range|]. split; [done|]. intros Hden Hun.
  destruct (gc_fits _ _ Hyes) as [Hd Hu]. by apply Hcomp; [apply Hd|apply Hu].
Qed.

(** * Properties *)

(** C19: compacting the hoard cache always ends, and loses no chunk that is needed, whatever operations of
    the disk and the database fail on the way: afterwards, on success or error, the index is still well-formed
    and every chunk in it is in the file with its SHA-1, all chunks that some parcel refers to are still there,
    and the slots that other processes have reserved, the references and the parcels are as they were. *)
Theorem compact_hoard_safe s :
  steady s -> hd_slots (tables s) = [] ->
  exists err s', compact_hoard s = Some (err, s') /\ hoard_wf (tables s') /\ sound (tables s') (hoard_file (md_hoard s')) /\
    (forall t, stored (tables s) t -> t ∈ (hd_refs (tables s)).*2 -> stored (tables s') t) /\
    (forall t, stored (tables s') t -> stored (tables s) t) /\
    (forall r, hc_allocated r = true -> hc_tag r = None -> r ∈ hd_chunks (tables s') <-> r ∈ hd_chunks (tables s)) /\
    hd_refs (tables s') = hd_refs (tables s) /\ hd_parcels (tables s') = hd_parcels (tables s).
Proof.
  intros Hs Hslots. destruct (compact_hoard_spec s Hs Hslots) as (err & s' & gone & Hr & Hs' & _ & [] & _).
  exists err, s'. split_and!; try done; apply Hs'.
Qed.

(** C20: when nothing but contention gets in its way no slot is reserved and the slots
    are numbered from 0 on without gaps, the compaction succeeds and
    leaves no gap: the chunks are exactly those that some parcel refers to, every slot holds one, the slots are
    numbered from 0 on, and the file ends with the last of them. *)
Theorem compact_hoard_exact s :
  steady s -> hd_slots (tables s) = [] -> calm s -> dense (tables s) -> unreserved (tables s) -> in_range (tables s) ->
  exists s', compact_hoard s = Some (PK_SUCCESS, s') /\ sound (tables s') (hoard_file (md_hoard s')) /\
    (forall t, stored (tables s') t <-> stored (tables s) t /\ t ∈ (hd_refs (tables s)).*2) /\
    (forall r, r ∈ hd_chunks (tables s') -> is_Some (hc_tag r)) /\ dense (tables s') /\
    Z.of_nat (length (hoard_file (md_hoard s'))) = SLOT_SIZE * Z.of_nat (length (hd_chunks (tables s'))).
Proof.
  intros Hs Hslots Hc Hden Hun Hr. destruct (compact_hoard_spec s Hs Hslots) as (err & s' & gone & Hrun & Hs' & _ & [] & Hok).
  destruct (Hok Hc) as [Hg Hcomp]. destruct (Hcomp Hr) as [-> Hgood]. destruct (Hgood Hden Hun) as (Hall & Hdense & Hlen).
  exists s'. split_and!; try done; [apply Hs'|]. intros t. split; [|by intros [? ?]; auto]. intros Ht. split; auto.
Qed.

(** ** Examples *)

(** A free slot, and a chunk after it. *)
Definition demo_gap : hoard_db :=
  mk_hoard [mk_hchunk None 0 0 0 false; mk_hchunk (Some (Fips180.sha1 [1; 2; 3])) 256 3 IU_CHUNK_CRY_AES_SHA1 true]
    [(1, Fips180.sha1 [1; 2; 3])] [] [].
Definition demo_gap_file : list Z := replicate (Z.to_nat SLOT_SIZE) 0 ++ [1; 2; 3].
Definition demo_modes (fs hfs : list (option (sqlite_fault * bool))) (io : list (option nat)) : modes :=
  mk_modes WANT_COMPACT 1 "u"
    (mk_supply (mk_hstate (mk_parcel IU_CHUNK_CRY_AES_SHA1 0 16 SLOT_SIZE 512 20) true
                  (mk_db demo_gap None hfs false SQLITE_OK false 0) demo_gap_file io) (mk_pool 1 0 0 []))
    (mk_db (mk_mode_db demo_gap None None []) None fs false SQLITE_OK false 0) false PK_SUCCESS 0.

Lemma demo_gap_wf : hoard_wf demo_gap.
Proof.
  unfold demo_gap. generalize (Fips180.sha1 [1; 2; 3]). intros tag. split; cbn [hd_chunks hd_slots].
  - by apply NoDup_cons; split; [intros [? | []%not_elem_of_nil]%elem_of_cons|apply NoDup_singleton].
  - intros r1 r2 t [->|[->|[]%not_elem_of_nil]%elem_of_cons]%elem_of_cons [->|[->|[]%not_elem_of_nil]%elem_of_cons]%elem_of_cons;
      done.
  - constructor.
  - by intros r1 r2 t Hr1%not_elem_of_nil.
  - by intros sl Hsl%not_elem_of_nil.
  - by intros r [->|[->|[]%not_elem_of_nil]%elem_of_cons]%elem_of_cons.
  - by intros r [->|[->|[]%not_elem_of_nil]%elem_of_cons]%elem_of_cons.
  - by intros sl Hsl%not_elem_of_nil.
Qed.

Lemma demo_gap_content : content demo_gap_file 256 3 = [1; 2; 3].
Proof. unfold content, demo_gap_file, range. change (place 256) with (Z.to_nat SLOT_SIZE). by rewrite drop_app_length' by (by rewrite length_replicate). Qed.

Lemma demo_gap_compactable : compactable demo_gap demo_gap_file.
Proof.
  split.
  - apply demo_gap_wf.
  - intros t o l Hf. apply chunk_firm in Hf; [|reflexivity].
    destruct Hf as (r & [->|[->|[]%not_elem_of_nil]%elem_of_cons]%elem_of_cons & Ht & <- & <-); [discriminate Ht|].
    cbn [hc_offset hc_length hc_tag] in *. rewrite demo_gap_content. apply (inj Some) in Ht as <-. split; [done|split; reflexivity].
  - intros r [->|[->|[]%not_elem_of_nil]%elem_of_cons]%elem_of_cons Ht; [by destruct Ht|reflexivity].
  - apply Forall_app_2; [by apply Forall_replicate|by repeat constructor].
Qed.

Lemma demo_steady fs hfs io : steady (demo_modes fs hfs io).
Proof.
  split; [split|split; [reflexivity|split; reflexivity]|exact demo_gap_compactable|reflexivity].
  - split; [reflexivity|split; reflexivity].
  - exact demo_gap_wf.
  - reflexivity.
  - reflexivity.
  - exact (cp_bytes _ _ demo_gap_compactable).
Qed.

Lemma compact_hoard_safe_witness : exists err s',
  compact_hoard (demo_modes [None; Some (F_BUSY, true); None] [Some (F_IOERR, false)] [Some 3%nat]) = Some (err, s') /\ hoard_wf (tables s').
Proof.
  destruct (compact_hoard_safe (demo_modes [None; Some (F_BUSY, true); None] [Some (F_IOERR, false)] [Some 3%nat]))
    as (err & s' & Hr & Hwf & _); [apply demo_steady|reflexivity|]. exists err, s'. split; [exact Hr|exact Hwf].
Defined.

Lemma compact_hoard_exact_witness : exists s',
  compact_hoard (demo_modes [None; Some (F_BUSY, false)] [Some (F_BUSY, false)] []) = Some (PK_SUCCESS, s') /\
  (forall r, r ∈ hd_chunks (tables s') -> is_Some (hc_tag r)).
Proof.
  destruct (compact_hoard_exact (demo_modes [None; Some (F_BUSY, false)] [Some (F_BUSY, false)] []))
    as (s' & Hr & _ & _ & Hall & _); [apply demo_steady|reflexivity|split; [repeat constructor|split; [repeat constructor|reflexivity]]|..].
  - change ([0; 256] ≡ₚ [0; 256]). reflexivity.
  - intros r [->|[->|[]%not_elem_of_nil]%elem_of_cons]%elem_of_cons Ha; [discriminate Ha|by eexists].
  - by intros r [->|[->|[]%not_elem_of_nil]%elem_of_cons]%elem_of_cons.
  - exists s'. split; [exact Hr|exact Hall].
Defined.
