(* ===== verification/HoardCheck.v ===== *)
(** HoardCheck: check_hoard of HoardModes.v makes a hoard cache that meets the assumptions of the rest of the
    development out of any that has been read from the disk: an index of any contents, and any file. *)

From stdpp Require Import strings sorting.
From S2P Require Import Prelude Cipher HashStream Sha1 Hash Compress LzfStream Chunk Effects Sql SqlConn SqlRows Pk Util Config Transport Hoard HoardProofs HoardChunks Supply HoardAdmin HoardModes HoardCompact HoardTruncate.

#[local] Opaque Fips180.sha1.
Local Abbreviation idx s := (data (hoard s)).
Local Abbreviation unchanged s := (frame s (untouched s)).

(** * Taking bad rows out *)

(** The rows in [bad] have been emptied, and no others. *)
Record emptied_by (bad : hchunk -> Prop) (d d' : hoard_db) : Prop := mk_emptied_by {
  eb_offsets : hc_offset <$> hd_chunks d' = hc_offset <$> hd_chunks d;
  eb_slots : hd_slots d' = hd_slots d;
  eb_rows x : x ∈ hd_chunks d' -> x ∈ hd_chunks d /\ ~ bad x \/ exists y, y ∈ hd_chunks d /\ x = emptied y;
  eb_keep x : x ∈ hd_chunks d -> ~ bad x -> x ∈ hd_chunks d'
}.

Lemma emptied_by_none bad d : (forall x, x ∈ hd_chunks d -> ~ bad x) -> emptied_by bad d d.
Proof. intros Hb. split; try done. intros x Hx. left. auto. Qed.

Lemma emptied_by_weaken (bad bad' : hchunk -> Prop) d d' :
  emptied_by bad d d' -> (forall x, x ∈ hd_chunks d -> bad' x <-> bad x) -> emptied_by bad' d d'.
Proof.
  intros [Ho Hs Hr Hk] Hb. split; try done.
  - intros x [[Hx Hn]|?]%Hr; [left|by right]. by rewrite Hb.
  - intros x Hx Hn. apply Hk; [done|]. by rewrite <- Hb.
Qed.

(** One of the statements of the check. *)
Lemma emptied_by_update (bad bad' : hchunk -> Prop) `{!forall r, Decision (bad' r)} d d' :
  emptied_by bad d d' -> (forall y, ~ bad' (emptied y)) ->
  emptied_by (fun x => bad x \/ bad' x) d (set_hchunks (update bad' emptied (hd_chunks d')) d').
Proof.
  intros [Ho Hs Hr Hk] He. split; cbn [hd_chunks hd_slots set_hchunks]; try done.
  - by rewrite update_fmap.
  - intros x (y & Hy & [[Hb ->]|[Hb ->]])%elem_of_update; apply Hr in Hy as [[Hy Hn]|(z & Hz & ->)].
    + right. eauto.
    + by destruct (He z).
    + left. split; [done|]. by intros [?|?].
    + right. eauto.
  - intros x Hx Hn. apply elem_of_update. exists x. split; [apply Hk; [done|]; auto|]. right. split; [|done]. auto.
Qed.

(** One row, whose offset is its own. *)
Lemma emptied_by_row (bad : hchunk -> Prop) d d' r :
  NoDup (hc_offset <$> hd_chunks d) -> r ∈ hd_chunks d -> emptied_by bad d d' ->
  emptied_by (fun x => bad x \/ x = r) d (set_hchunks (update (fun x => hc_offset x = hc_offset r) emptied (hd_chunks d')) d').
Proof.
  intros Hnd Hin [Ho Hs Hr Hk]. split; cbn [hd_chunks hd_slots set_hchunks]; try done.
  - by rewrite update_fmap.
  - intros x (y & Hy & [[Hb ->]|[Hb ->]])%elem_of_update; apply Hr in Hy as [[Hy Hn]|(z & Hz & ->)].
    + right. eauto.
    + right. exists z. by split.
    + left. split; [done|]. intros [?| ->]; [done|]. by apply Hb.
    + right. eauto.
  - intros x Hx Hn. apply elem_of_update. exists x. split; [apply Hk; [done|]; auto|]. right. split; [|done].
    intros Hxo. apply Hn. right. by apply (offset_inj hc_offset _ _ _ Hnd).
Qed.

(** * Offsets in order *)

(** What check_offset asks for; the counter is an int. *)
Definition counted (l : list Z) : Prop := forall i o, l !! i = Some o -> s32 o = s32 (256 * Z.of_nat i).

(** The columns that the program reads as ints have ints in them. *)
Definition ints (d : hoard_db) : Prop :=
  forall r, r ∈ hd_chunks d -> s32 (hc_offset r) = hc_offset r /\ s32 (hc_crypto r) = hc_crypto r.

Lemma s32_bounds x : - 2 ^ 31 <= s32 x < 2 ^ 31.
Proof. unfold s32, u32. pose proof (Z.mod_pos_bound x (2 ^ 32)). case_decide; lia. Qed.

Lemma s32_mul i : 256 * Z.of_nat i < 2 ^ 31 -> s32 (256 * Z.of_nat i) = 256 * Z.of_nat i.
Proof. intros. apply s32_id. lia. Qed.

Lemma s32_plus x y : s32 (s32 x + y) = s32 (x + y).
Proof.
  assert (u32 (s32 x + y) = u32 (x + y)) as Hu.
  { unfold s32, u32. rewrite <- (Zplus_mod_idemp_l x y). case_decide; [done|].
    replace (x mod 2 ^ 32 - 2 ^ 32 + y) with (x mod 2 ^ 32 + y + (-1) * 2 ^ 32) by lia. by rewrite Z_mod_plus_full. }
  unfold s32 at 1 3. by rewrite Hu.
Qed.

Lemma sorted_fmap {A B} (R : relation A) (Q : relation B) (f : A -> B) l :
  (forall x y, R x y -> Q (f x) (f y)) -> StronglySorted R l -> StronglySorted Q (f <$> l).
Proof.
  intros HR. induction 1 as [|x l Hs IH Hall]; [constructor|]. rewrite fmap_cons. constructor; [done|].
  apply Forall_fmap. eapply Forall_impl; [exact Hall|]. intros y. apply HR.
Qed.

Lemma sorted_seq a n : StronglySorted lt (seq a n).
Proof.
  revert a. induction n as [|n IH]; intros a; [constructor|]. simpl. constructor; [apply IH|].
  apply Forall_forall. intros x Hx%elem_of_seq. lia.
Qed.

Lemma sorted_offsets d : StronglySorted Z.le (hc_offset <$> by_offset (hd_chunks d)).
Proof. eapply (sorted_fmap lower); [done|]. apply (StronglySorted_merge_sort lower). Qed.

Lemma counted_dense d : ints d -> counted (hc_offset <$> by_offset (hd_chunks d)) <-> dense d.
Proof.
  intros Hint. pose proof (sorted_offsets d) as Hs. set (l := hc_offset <$> by_offset (hd_chunks d)) in *.
  assert (hc_offset <$> hd_chunks d ≡ₚ l) as Hp by (unfold l, by_offset; by rewrite merge_sort_Permutation).
  assert (length l = length (hd_chunks d)) as Hlen by (apply Permutation_length in Hp; by rewrite length_fmap in Hp).
  assert (forall o, o ∈ l -> s32 o = o) as Hints.
  { intros o Ho. rewrite <- Hp in Ho. apply list_elem_of_fmap in Ho as (r & -> & Hr). by apply Hint. }
  split.
  - intros Hc. assert (forall o, o ∈ l -> 0 <= o) as Hpos.
    { intros o Ho. destruct l as [|o0 l']; [by apply not_elem_of_nil in Ho|]. pose proof (Hc O o0 eq_refl) as H0.
      rewrite (Hints o0) in H0 by left. apply StronglySorted_inv in Hs as [_ Hall]. rewrite Forall_forall in Hall.
      change (s32 (256 * Z.of_nat 0)) with 0 in H0. apply elem_of_cons in Ho as [->|Ho]; [lia|]. specialize (Hall o Ho). lia. }
    assert (forall i o, l !! i = Some o -> o = 256 * Z.of_nat i) as Hnum.
    { intros i o Hi. assert (256 * Z.of_nat i < 2 ^ 31) as Hsmall.
      { destruct (decide (Z.of_nat i < 2 ^ 23)); [lia|]. destruct (Z_of_nat_complete (2 ^ 23)) as [k Hk]; [lia|].
        destruct (lookup_lt_is_Some_2 l k) as [x Hx]; [apply lookup_lt_Some in Hi; lia|].
        pose proof (Hc _ _ Hx) as Hxc. assert (x ∈ l) as Hxl by (by eapply list_elem_of_lookup_2).
        rewrite (Hints x Hxl), <- Hk in Hxc. specialize (Hpos x Hxl).
        change (s32 (256 * 2 ^ 23)) with (- 2 ^ 31) in Hxc. lia. }
      rewrite <- (Hints o) by (by eapply list_elem_of_lookup_2). rewrite (Hc i o Hi). by apply s32_mul. }
    unfold dense. rewrite Hp, <- Hlen. replace ((fun i => 256 * Z.of_nat i) <$> seq 0 (length l)) with l; [done|].
    apply list_eq. intros i. rewrite list_lookup_fmap. destruct (decide (i < length l)%nat) as [Hi|Hi].
    + destruct (lookup_lt_is_Some_2 l i Hi) as [o Ho]. rewrite Ho, lookup_seq_lt by done. simpl. by rewrite (Hnum i o Ho).
    + rewrite lookup_ge_None_2, lookup_seq_ge by lia. done.
  - intros Hd i o Hi. unfold dense in Hd. rewrite Hp in Hd.
    assert (l = (fun i => 256 * Z.of_nat i) <$> seq 0 (length (hd_chunks d))) as Heq.
    { apply (StronglySorted_unique Z.le); [done| |done]. eapply (sorted_fmap lt); [|apply sorted_seq]. intros; simpl; lia. }
    rewrite Heq, list_lookup_fmap in Hi. destruct (seq 0 _ !! i) as [j|] eqn:Hj; [|done]. apply lookup_seq in Hj as [-> _].
    simpl in Hi. by injection Hi as <-.
Qed.

(** * The transaction over the index *)

Section index.
Context `{!LibUuid} (s0 : modes) (fs : list (option (sqlite_fault * bool))).
Local Abbreviation D0 := (data (md_db s0)).
Local Abbreviation d0 := (tables s0).
Local Abbreviation fs0 := (faults (md_db s0)).
Context (Hfs : fs `suffix_of` fs0).

(** Only the connection and the counter change. *)
Definition checking (s : modes) : Prop := s = set_md_number (md_number s) (set_md_db (md_db s) s0).

Lemma checking_stable : stable checking.
Proof. unfold stable, checking. intros b s Hs. by rewrite Hs. Qed.

(** What is left: rows without fault, parcels with valid UUIDs, and the references of these. *)
Definition faulty (r : hchunk) : Prop := bad_crypto r \/ bad_length r \/ stray r.

Definition valid_parcel (p : hparcel) : Prop := (canonicalize_uuid (hp_uuid p)).1 <> PK_INVALID.

Record checked (d : hoard_db) : Prop := mk_checked {
  ck_dense : dense d0;
  ck_emptied : emptied_by faulty d0 d;
  ck_parcels p : p ∈ hd_parcels d <-> p ∈ hd_parcels d0 /\ valid_parcel p;
  ck_refs r : r ∈ hd_refs d <-> r ∈ hd_refs d0 /\ r.1 ∈ hp_parcel <$> hd_parcels d
}.

(** The table for the check of the data. *)
Definition with_list (d : hoard_db) : mode_db :=
  let D := set_m_hoard d D0 in
  if has_flag (md_flags s0) WANT_FULL_CHECK
  then set_to_check (Some (by_offset (filter (fun r => is_Some (hc_tag r)) (hd_chunks d)))) D else D.

Definition check_error (r : Z) : Prop := r <> 0 /\ (dense d0 -> ~ Forall contention fs0).

Definition check_post (r : Z) (s : modes) : Prop :=
  within fs0 (md_db s) /\ checking s /\
  if decide (r = 0) then exists d, checked d /\ idle (with_list d) (md_db s)
  else idle D0 (md_db s) /\ check_error r.

Local Abbreviation leave := (tx_exit fs D0 checking check_post check_error).

(** Inside the transaction, with an index of which [φ] holds (and of the counter). *)
Definition at_index (φ : hoard_db -> Z -> Prop) (s : modes) : Prop :=
  exists d, at_data fs D0 (set_m_hoard d D0) (fun s => checking s /\ φ d (md_number s)) s.

Lemma refused_check : ~ Forall contention fs -> check_error 1.
Proof. intros Hn. split; [done|]. intros _ Hc. apply Hn. by eapply suffix_contention. Qed.

Lemma in_hoard_eval {A} (q : hq A) d d' rows :
  q d = inr (d', rows) -> in_hoard q (set_m_hoard d D0) = inr (set_m_hoard d' D0, rows).
Proof. intros Hq. unfold in_hoard. cbn. by rewrite Hq. Qed.

Lemma clean_ok (q : hq Z) (φ ψ : hoard_db -> Z -> Prop) :
  (forall d n, φ d n -> exists d' x, q d = inr (d', x) /\ ψ d' n) ->
  triple (at_index φ) (clean (in_hoard q)) (fun _ => at_index ψ) leave.
Proof.
  intros Hq s (d & Ha & Hw & Hs & Hφ). destruct (Hq d _ Hφ) as (d' & x & Hd & Hψ). unfold clean, mrun. revert s Ha Hw Hs Hφ Hψ.
  enough (forall n, ψ d' n -> triple (at_data fs D0 (set_m_hoard d D0) (fun s => checking s /\ md_number s = n))
    ('(ok, _) ← on_db (query (Stmt (in_hoard q))); if negb ok then goto_bad 1 else pk_ret ()) (fun _ => at_index ψ) leave) as Hn.
  { intros s Ha Hw Hs Hφ Hψ. by apply (Hn (md_number s)). }
  intros n Hψ. apply (tx_stmt_step fs D0 check_post check_error checking _ (set_m_hoard d' D0) x (in_hoard q) _ 1 (fun _ => pk_ret ())).
  - by apply in_hoard_eval.
  - by intros s [? _].
  - intros b s [? ?]. split; [by apply checking_stable|done].
  - apply refused_check.
  - apply triple_ret. intros s (Ha & Hw & Hs & <-). by exists d'.
Qed.

(** A loop of the check. *)
Definition looping_over {A} (J : list A -> hoard_db -> Z -> Prop) (rows : list A) (D : mode_db) (s : modes) : Prop :=
  checking s /\ exists d, D = set_m_hoard d D0 /\ J rows d (md_number s).

Lemma looping_over_stable {A} (J : list A -> hoard_db -> Z -> Prop) rows D : stable (looping_over J rows D).
Proof. intros b s [Hc Hd]. split; [by apply checking_stable|done]. Qed.

Lemma check_all_ok {A} (q : hq A) (m : A -> pk modes Z ()) (J : list A -> hoard_db -> Z -> Prop) rows :
  (forall r rest, triple (at_index (J (r :: rest))) (m r) (fun _ => at_index (J rest)) leave) ->
  triple (at_index (fun d n => J rows d n /\ q d = inr (d, rows))) (check_all (in_hoard q) m) (fun _ => at_index (J [])) leave.
Proof.
  intros Hm s (d & Ha & Hw & Hs & HJ & Hq). unfold check_all. revert s Ha Hw Hs HJ.
  enough (triple (at_data fs D0 (set_m_hoard d D0) (looping_over J rows (set_m_hoard d D0)))
    (_ ← for_each (in_hoard q) m; ok ← gets (fun s => query_ok (md_db s)); if negb ok then goto_bad 1 else pk_ret ())
    (fun _ => at_index (J [])) leave) as Hloop.
  { intros s Ha Hw Hs HJ. apply Hloop. split; [done|]. split; [done|]. split; [done|]. by exists d. }
  eapply triple_bind.
  { apply (for_each_ok fs D0 (looping_over J) (looping_over_stable J) (in_hoard q) m _ _ rows); [by apply in_hoard_eval|].
    intros r rest D s (Ha & Hw & Hc & d1 & -> & HJ). destruct (Hm r rest s) as (x & s' & Hx & Hpost); [by exists d1|].
    exists x, s'. split; [done|]. destruct x as [[]|e]; [|done]. destruct Hpost as (d2 & Ha2 & Hw2 & Hc2 & HJ2).
    exists (set_m_hoard d2 D0). split; [done|]. split; [done|]. split; [done|]. by exists d2. }
  intros [] s (Hw & Hdone). rewrite bind_gets. cbn [get_db modes_has_db] in Hw, Hdone. destruct (query_ok (md_db s)).
  - destruct Hdone as (D & Ha & Hc & d1 & -> & HJ). cbn [negb].
    eexists _, _. split; [done|]. by exists d1.
  - destruct Hdone as (Hb & (rows' & D & Hc & _) & Hn). cbn [negb].
    eexists _, _. split; [done|]. split_and!; try done. intros Hnb. by apply refused_check, Hn.
Qed.

(** ** Its steps *)

Context (Hints : ints d0).

Definition uuids_left (rows : list string) (d : hoard_db) (n : Z) : Prop :=
  hd_chunks d = hd_chunks d0 /\ hd_slots d = hd_slots d0 /\ hd_refs d = hd_refs d0 /\
  (forall p, p ∈ hd_parcels d -> p ∈ hd_parcels d0 /\ (valid_parcel p \/ hp_uuid p ∈ rows)) /\
  (forall p, p ∈ hd_parcels d0 -> valid_parcel p -> p ∈ hd_parcels d).

Lemma check_uuid_ok u rest : triple (at_index (uuids_left (u :: rest))) (check_uuid u) (fun _ => at_index (uuids_left rest)) leave.
Proof.
  unfold check_uuid. case_decide as Hu; last first.
  { apply triple_ret. intros s (d & Ha & Hw & Hs & Hc & Hsl & Hr & Hp & Hk). exists d. unfold at_data, uuids_left. split_and!; try done.
    intros p Hpd. destruct (Hp p Hpd) as [Hin [Hv|[Hpu|Hpu]%elem_of_cons]]; (split; [done|]); [by left| |by right].
    left. unfold valid_parcel. by rewrite Hpu. }
  apply (clean_ok (sql_delete_uuid u)). intros d n (Hc & Hsl & Hr & Hp & Hk). eexists _, _. split; [done|].
  unfold uuids_left. cbn [hd_chunks hd_slots hd_refs hd_parcels set_hparcels]. split_and!; try done.
  - intros p [Hpu Hpd]%list_elem_of_filter. destruct (Hp p Hpd) as [Hin [Hv|[?|?]%elem_of_cons]]; [by auto|done|by auto].
  - intros p Hpd Hv. apply list_elem_of_filter. split; [|by apply Hk]. intros Hpu. apply Hv. by rewrite Hpu.
Qed.

(** The parcels are done. *)
Definition parcels_done (d : hoard_db) : Prop :=
  (forall p, p ∈ hd_parcels d <-> p ∈ hd_parcels d0 /\ valid_parcel p) /\ hd_refs d = hd_refs d0.

Definition same_rows (d : hoard_db) : Prop := hd_chunks d = hd_chunks d0 /\ hd_slots d = hd_slots d0.

Lemma uuids_done d n : uuids_left [] d n -> parcels_done d /\ same_rows d.
Proof.
  intros (Hc & Hsl & Hr & Hp & Hk). split; [split; [|done]|done].
  intros p. split; [|by intros [? ?]; auto]. intros Hpd. by destruct (Hp p Hpd) as [? [?|[]%not_elem_of_nil]].
Qed.

Definition offsets_left (rows : list Z) (d : hoard_db) (n : Z) : Prop :=
  parcels_done d /\ same_rows d /\
  exists past, hc_offset <$> by_offset (hd_chunks d0) = past ++ rows /\ n = s32 (256 * Z.of_nat (length past)) /\ counted past.

Lemma check_offset_ok o rest : triple (at_index (offsets_left (o :: rest))) (check_offset o) (fun _ => at_index (offsets_left rest)) leave.
Proof.
  intros s (d & Ha & Hw & Hs & Hp & He & past & Hl & Hn & Hc). unfold check_offset. rewrite bind_gets, Hn. case_decide as Ho.
  - eexists _, _. split; [done|]. split_and!; try done; [by eapply active_broken|]. intros _. split; [done|]. intros Hd.
    exfalso. apply Ho. apply counted_dense in Hd; [|done]. apply Hd. rewrite Hl. rewrite lookup_app_r, Nat.sub_diag by lia. done.
  - eexists _, _. split; [done|]. exists d. split; [done|]. split; [done|]. split; [unfold checking in *; by rewrite Hs|].
    split; [done|]. split; [done|]. exists (past ++ [o]). split; [by rewrite <- app_assoc|]. split.
    + cbn. rewrite length_app, s32_plus. f_equal. simpl. lia.
    + intros i x Hi. destruct (decide (i < length past)%nat) as [Hlt|Hge].
      * rewrite lookup_app_l in Hi by done. by apply Hc.
      * rewrite lookup_app_r in Hi by lia. apply list_lookup_singleton_Some in Hi as [Hi <-].
        replace i with (length past) by lia. congruence.
Qed.

Definition crypto_left (rows : list hchunk) (d : hoard_db) (n : Z) : Prop :=
  parcels_done d /\ dense d0 /\ NoDup rows /\ (forall r, r ∈ rows -> r ∈ hd_chunks d0) /\ emptied_by (fun x => bad_crypto x /\ ~ x ∈ rows) d0 d.

Lemma dense_nodup d : dense d -> NoDup (hc_offset <$> hd_chunks d).
Proof. unfold dense. intros ->. apply NoDup_fmap; [intros x y; lia|apply NoDup_seq]. Qed.

Lemma check_crypto_ok r rest : triple (at_index (crypto_left (r :: rest))) (check_crypto r) (fun _ => at_index (crypto_left rest)) leave.
Proof.
  unfold check_crypto. case_decide as Hb; last first.
  { apply triple_ret. intros s (d & Ha & Hw & Hs & Hp & Hd & Hnd & Hr & He). exists d. split; [done|]. split; [done|]. split; [done|].
    split; [done|]. split; [done|]. split; [by apply NoDup_cons in Hnd as [_ ?]|]. split; [intros x Hx; apply Hr; by right|].
    eapply emptied_by_weaken; [exact He|].
    intros x Hx. cbv beta. rewrite elem_of_cons. split; [|tauto]. intros [Hbx Hx']. split; [done|]. by intros [->|?]. }
  intros s (d & Ha & Hw & Hs & Hp & Hd & Hnd & Hr & He). assert (r ∈ hd_chunks d0) as Hin by (apply Hr; by left).
  assert (s32 (hc_offset r) = hc_offset r) as -> by (by apply Hints).
  apply (clean_ok (sql_empty_chunk (hc_offset r)) (fun d n => crypto_left (r :: rest) d n)); [|by exists d].
  clear s Ha Hw Hs Hp d He. intros d n (Hp & _ & _ & _ & He). eexists _, _. split; [done|]. split; [done|]. split; [done|].
  apply NoDup_cons in Hnd as [Hnin Hnd].
  split; [done|]. split; [intros x Hx; apply Hr; by right|]. eapply emptied_by_weaken.
  - eapply (emptied_by_row (fun x => bad_crypto x /\ ~ x ∈ r :: rest) d0 d r); [by apply dense_nodup|done|exact He].
  - intros x Hx. cbv beta. rewrite elem_of_cons. destruct (decide (hc_offset x = hc_offset r)) as [Ho|Hne].
    + pose proof (offset_inj hc_offset _ _ _ (dense_nodup _ Hd) Hx Hin Ho) as ->. tauto.
    + assert (x <> r) by congruence. tauto.
Qed.

Definition cleaned (bad : hchunk -> Prop) (d : hoard_db) (n : Z) : Prop := parcels_done d /\ dense d0 /\ emptied_by bad d0 d.

Lemma clean_rows_ok (q : hq Z) (bad bad' : hchunk -> Prop) `{!forall r, Decision (bad' r)} :
  (forall d, exists n, q d = inr (set_hchunks (update bad' emptied (hd_chunks d)) d, n)) -> (forall y, ~ bad' (emptied y)) ->
  triple (at_index (cleaned bad)) (clean (in_hoard q)) (fun _ => at_index (cleaned (fun x => bad x \/ bad' x))) leave.
Proof.
  intros Hq He. apply clean_ok. intros d n (Hp & Hd & Hb). destruct (Hq d) as [m Hm]. eexists _, m. split; [exact Hm|].
  split; [done|]. split; [done|]. by apply emptied_by_update.
Qed.

Lemma bad_length_emptied y : ~ bad_length (emptied y).
Proof.
  unfold bad_length. change (hc_length (emptied y)) with 0. change (hc_tag (emptied y)) with (@None (list Z)).
  intros [?|[?|[_ Hs]]]; [lia|lia|by destruct Hs].
Qed.

Lemma stray_emptied y : ~ stray (emptied y).
Proof. intros [_ Hs]. by destruct Hs. Qed.

Lemma clean_refs_ok :
  triple (at_index (cleaned (fun x => (bad_crypto x \/ bad_length x) \/ stray x))) (clean (in_hoard sql_clean_refs))
    (fun _ => at_index (fun d _ => checked d)) leave.
Proof.
  apply clean_ok. intros d n ((Hp & Hr) & Hd & He). eexists _, _. split; [done|]. split; cbn [hd_parcels hd_refs]; try done.
  - eapply emptied_by_weaken; [destruct He as [H1 H2 H3 H4]; exact (mk_emptied_by _ d0 (mk_hoard _ _ _ _) H1 H2 H3 H4)|]. intros x _. unfold faulty. tauto.
  - intros r. rewrite list_elem_of_filter, Hr. unfold dangling. split; [|intros [? Hin]; split; [by intros Hn; apply Hn|done]].
    intros [Hn ?]. split; [done|]. by apply dec_stable.
Qed.

(** The end: the table for the check of the data, and the commit. *)
Context (Hlist : to_check D0 = None).

Lemma check_commit_ok d :
  checked d ->
  triple (at_data fs D0 (with_list d) checking) (ok ← try_db commit; if ok : bool then ret 0 else goto_bad 1 : pk modes Z Z) check_post leave.
Proof.
  intros Hd. apply (tx_commit_step fs D0 check_post check_error checking (with_list d)); [done|apply checking_stable|apply refused_check|].
  intros s Hi Hw Hs. split; [by eapply within_trans|]. split; [done|]. rewrite decide_True by done. by exists d.
Qed.

Lemma check_end_ok :
  triple (at_index (fun d _ => checked d)) (
    full ← gets (fun s => has_flag (md_flags s) WANT_FULL_CHECK);
    '(ok, _) ← (if full : bool then mrun sql_create_to_check else pk_ret (true, []));
    if negb ok then goto_bad 1
    else ok ← try_db commit; if ok : bool then ret 0 else goto_bad 1 : pk modes Z Z) check_post leave.
Proof.
  intros s (d & Ha & Hw & Hs & Hd). rewrite bind_gets. assert (md_flags s = md_flags s0) as -> by (rewrite Hs; done).
  pose proof (check_commit_ok d Hd) as Hcommit. unfold with_list in Hcommit. destruct (has_flag _ _).
  - unfold mrun. revert s Ha Hw Hs.
    enough (triple (at_data fs D0 (set_m_hoard d D0) checking)
      ('(ok, _) ← on_db (query (Stmt sql_create_to_check)); if negb ok then goto_bad 1
       else ok ← try_db commit; if ok : bool then ret 0 else goto_bad 1 : pk modes Z Z) check_post leave) as H'.
    { intros s Ha Hw Hs. by apply H'. }
    eapply (tx_stmt_step fs D0 check_post check_error checking _ _ [] sql_create_to_check checking 1 (fun _ => _));
      [|done|apply checking_stable|apply refused_check|apply Hcommit].
    unfold sql_create_to_check. cbn [to_check set_m_hoard]. by rewrite Hlist.
  - rewrite bind_ret. by apply Hcommit.
Qed.

Lemma check_steps_ok : triple (at_data fs D0 D0 checking) check_steps check_post leave.
Proof.
  unfold check_steps. eapply triple_bind.
  { eapply triple_pre; [apply (check_all_ok sql_uuids check_uuid uuids_left (hp_uuid <$> hd_parcels d0)); intros; apply check_uuid_ok|].
    intros s (Ha & Hw & Hs). exists d0. split; [unfold tables; by rewrite same_hoard|]. split; [done|]. split; [done|]. split; [|done].
    split_and!; try done. intros p Hp. split; [done|]. right. apply list_elem_of_fmap. eauto. }
  intros []. eapply (triple_bind _ _ _ (fun _ => at_index (fun d n => parcels_done d /\ same_rows d /\ n = 0))).
  { apply triple_modify. intros s (d & Ha & Hw & Hs & Hd). destruct (uuids_done _ _ Hd) as [? ?].
    exists d. split; [done|]. split; [done|]. split; [unfold checking in *; by rewrite Hs|done]. }
  intros []. eapply triple_bind.
  { eapply triple_pre; [apply (check_all_ok sql_offsets check_offset offsets_left (hc_offset <$> by_offset (hd_chunks d0))); intros; apply check_offset_ok|].
    intros s (d & Ha & Hw & Hs & Hp & Hr & Hn). exists d. split; [done|]. split; [done|]. split; [done|]. split.
    - split; [done|]. split; [done|]. exists []. split; [done|]. split; [done|]. intros i o Hi. by rewrite lookup_nil in Hi.
    - unfold sql_offsets. by rewrite (proj1 Hr). }
  intros []. eapply triple_bind.
  { eapply triple_pre; [apply (check_all_ok sql_chunks check_crypto crypto_left (hd_chunks d0)); intros; apply check_crypto_ok|].
    intros s (d & Ha & Hw & Hs & Hp & [Hc Hsl] & past & Hl & _ & Hcount). exists d. split; [done|]. split; [done|]. split; [done|].
    rewrite app_nil_r in Hl. subst past. apply counted_dense in Hcount; [|done].
    split; [|unfold sql_chunks; by rewrite Hc]. split; [done|]. split; [done|].
    split; [by eapply NoDup_fmap_1, dense_nodup|]. split; [done|]. split; rewrite ?Hc; try done.
    intros x Hx. left. split; [done|]. by intros [_ ?]. }
  intros []. eapply triple_bind.
  { eapply triple_pre; [apply (clean_rows_ok sql_clean_lengths bad_crypto bad_length); [by eexists|apply bad_length_emptied]|].
    intros s (d & Ha & Hw & Hs & Hp & Hd & _ & _ & He). exists d. unfold at_data, cleaned. split_and!; try done.
    eapply emptied_by_weaken; [exact He|]. intros x _. split; [|by intros [? _]]. intros ?. split; [done|]. apply not_elem_of_nil. }
  intros []. eapply triple_bind; [apply (clean_ok sql_clean_flags (cleaned (fun x => bad_crypto x \/ bad_length x)) (cleaned (fun x => bad_crypto x \/ bad_length x))); by eauto|].
  intros []. eapply triple_bind; [apply (clean_rows_ok sql_clean_strays _ stray); [by eexists|apply stray_emptied]|].
  intros []. eapply triple_bind; [apply clean_refs_ok|]. intros []. apply check_end_ok.
Qed.
End index.

(** What the check may rely on: SQLite keeps the tags apart, the columns of ints have ints, and nothing else
    has been begun. *)
Record on_disk (s : modes) : Prop := mk_on_disk {
  od_idle : idle (data (md_db s)) (md_db s);
  od_hidle : idle (idx (md_hoard s)) (hoard (md_hoard s));
  od_same : idx (md_hoard s) = tables s;
  od_slots : hd_slots (tables s) = [];
  od_unique r1 r2 t : r1 ∈ hd_chunks (tables s) -> r2 ∈ hd_chunks (tables s) -> hc_tag r1 = Some t -> hc_tag r2 = Some t -> r1 = r2;
  od_tags r : r ∈ hd_chunks (tables s) -> hc_tag r <> Some [];
  od_ints : ints (tables s);
  od_list : to_check (data (md_db s)) = None;
  od_chunksize : chunksize (h_parcel (md_hoard s)) = SLOT_SIZE;
  od_crypto : crypto (h_parcel (md_hoard s)) = IU_CHUNK_CRY_AES_SHA1;
  od_bytes : bytes (hoard_file (md_hoard s))
}.

Section checked.
Context `{!LibUuid} (s : modes) (Hs : on_disk s).

Lemma check_index_spec : exists r s', transaction check_body s = Some (r, s') /\ check_post s r s'.
Proof.
  destruct (transaction_spec (faults (md_db s)) (data (md_db s)) (checking s) (check_post s) (check_error s) check_body s)
    as (r & s' & Hr & Hpost); [|apply checking_stable|apply Hs|apply within_refl|by unfold checking; destruct s|].
  - intros fs Hfs. unfold tx_body, tx_body_at, check_body. apply (tx_start fs _ _ _ _ (checking s)); [apply checking_stable| |].
    + intros s1 Hi Hw Hc Hn. split; [by eapply within_trans|]. split; [done|]. rewrite decide_False by done. split; [done|].
      by apply (refused_check s fs).
    + apply check_steps_ok; [done|apply Hs|apply Hs].
  - exists r, s'. split; [done|]. destruct Hpost as [?|(? & ? & ? & Herr)]; [done|]. split; [done|]. split; [done|].
    destruct Herr as [Hr0 ?]. rewrite decide_False by done. by split.
Qed.

Context (d : hoard_db) (Hd : checked s d).

Lemma checked_row r : r ∈ hd_chunks d -> is_Some (hc_tag r) -> r ∈ hd_chunks (tables s) /\ ~ faulty r.
Proof. intros Hr Ht. destruct (eb_rows _ _ _ (ck_emptied _ _ Hd) r Hr) as [?|(y & _ & ->)]; [done|by destruct Ht]. Qed.

Lemma checked_crypto r : r ∈ hd_chunks d -> is_Some (hc_tag r) -> hc_crypto r = IU_CHUNK_CRY_AES_SHA1.
Proof.
  intros Hr Ht. destruct (checked_row r Hr Ht) as [Hr0 Hn]. destruct (od_ints s Hs r Hr0) as [_ Hc].
  assert (~ bad_crypto r) as Hb by (intros Hb; apply Hn; by left). unfold bad_crypto in Hb. rewrite Hc in Hb.
  pose proof (od_tags s Hs r Hr0) as Hne. destruct (hc_tag r) as [[|x t]|]; [done| |by destruct Ht].
  unfold iu_chunk_crypto_is_valid, crypto_get_algs in Hb. destruct (decide (hc_crypto r = IU_CHUNK_CRY_AES_SHA1)) as [|Hx]; [done|].
  exfalso. apply Hb. left. apply bool_decide_eq_false. by intros [? ?].
Qed.

Lemma checked_length r : r ∈ hd_chunks d -> is_Some (hc_tag r) -> 0 < hc_length r <= SLOT_SIZE.
Proof.
  intros Hr Ht. destruct (checked_row r Hr Ht) as [_ Hn]. assert (~ bad_length r) as Hb by (intros Hb; apply Hn; right; by left).
  unfold bad_length, SLOT_SIZE in *. destruct (decide (hc_length r = 0)); [|lia]. exfalso. apply Hb. auto.
Qed.

Lemma checked_dense : dense d.
Proof.
  pose proof (ck_dense _ _ Hd) as Hden. pose proof (eb_offsets _ _ _ (ck_emptied _ _ Hd)) as Ho. unfold dense. rewrite Ho.
  replace (length (hd_chunks d)) with (length (hd_chunks (tables s))); [done|]. apply (f_equal length) in Ho. by rewrite !length_fmap in Ho.
Qed.

Lemma checked_offset r : r ∈ hd_chunks d -> aligned (hc_offset r).
Proof.
  intros Hr. assert (hc_offset r ∈ hc_offset <$> hd_chunks d) as Hin by (apply list_elem_of_fmap; eauto). pose proof Hin as Hin0.
  rewrite (eb_offsets _ _ _ (ck_emptied _ _ Hd)) in Hin0. apply list_elem_of_fmap in Hin0 as (r0 & Ho & Hr0).
  destruct (od_ints s Hs r0 Hr0) as [Hint _]. pose proof (s32_bounds (hc_offset r0)) as Hb. rewrite Hint, <- Ho in Hb.
  pose proof checked_dense as Hden. unfold dense in Hden. rewrite Hden in Hin. apply list_elem_of_fmap in Hin as (i & Hi & _).
  rewrite Hi in *. split; [|lia]. rewrite Z.mul_comm. by apply Z_mod_mult.
Qed.

Lemma checked_wf : hoard_wf d.
Proof.
  assert (hd_slots d = []) as Hsl by (rewrite (eb_slots _ _ _ (ck_emptied _ _ Hd)); apply Hs).
  split; rewrite ?Hsl; try (by intros ? ?%not_elem_of_nil).
  - apply dense_nodup, checked_dense.
  - intros r1 r2 t Hr1 Hr2 Ht1 Ht2. destruct (checked_row r1) as [? _]; [done|by rewrite Ht1|].
    destruct (checked_row r2) as [? _]; [done|by rewrite Ht2|]. by apply (od_unique s Hs r1 r2 t).
  - constructor.
  - by intros r1 r2 t ?%not_elem_of_nil.
  - intros r Hr Ha. destruct (hc_tag r) as [t|] eqn:Ht; [|done]. destruct (checked_row r Hr) as [_ Hn]; [by rewrite Ht|].
    exfalso. apply Hn. right. right. split; [done|]. by rewrite Ht.
  - apply checked_offset.
Qed.

Lemma checked_entry t o l :
  chunk_entry d t o l <-> exists r, r ∈ hd_chunks (tables s) /\ hc_tag r = Some t /\ hc_offset r = o /\ hc_length r = l /\ ~ faulty r.
Proof.
  split.
  - intros (r & Hr & Ht & Ho & Hl). destruct (checked_row r Hr) as [? ?]; [by rewrite Ht|]. by exists r.
  - intros (r & Hr & Ht & Ho & Hl & Hn). exists r. split; [|done]. by apply (eb_keep _ _ _ (ck_emptied _ _ Hd)).
Qed.
End checked.

(** * The data *)

Section data.
Context (s0 : modes) (fs : list (option (sqlite_fault * bool))) (rows : list hchunk).
Local Abbreviation D1 := (data (md_db s0)).
Local Abbreviation d1 := (tables s0).
Local Abbreviation fs0 := (faults (md_db s0)).
Local Abbreviation f := (hoard_file (md_hoard s0)).
Context (Hfs : fs `suffix_of` fs0) (Hu0 : usable (md_hoard s0)) (Hsame : idx (md_hoard s0) = d1) (Hslots : hd_slots d1 = []).
Context (Hlist : to_check D1 = Some rows) (Hrows : forall r, r ∈ rows <-> is_Some (hc_tag r) /\ r ∈ hd_chunks d1).
Context (Hcry : known_crypto d1) (Hlen : forall r, r ∈ rows -> 0 < hc_length r <= SLOT_SIZE).

(** No failure of state->hoard or the disk. *)
Local Abbreviation fair := (hoard_fair (md_hoard s0)).

(** What happens to the index on the way: chunks are taken out, and none that can be read unless something fails. *)
Record sifting (s : modes) : Prop := mk_sifting {
  sf_state : s = set_md_hoard (md_hoard s) (set_md_db (md_db s) s0);
  sf_usable : usable (md_hoard s);
  sf_unchanged : unchanged (md_hoard s0) (md_hoard s);
  sf_faults : faults (hoard (md_hoard s)) `suffix_of` faults (hoard (md_hoard s0));
  sf_slots : hd_slots (idx (md_hoard s)) = [];
  sf_offsets : hc_offset <$> hd_chunks (idx (md_hoard s)) = hc_offset <$> hd_chunks d1;
  sf_rest : hd_refs (idx (md_hoard s)) = hd_refs d1 /\ hd_parcels (idx (md_hoard s)) = hd_parcels d1;
  sf_rows r : r ∈ hd_chunks (idx (md_hoard s)) -> is_Some (hc_tag r) -> r ∈ hd_chunks d1;
  sf_keep t o l : fair -> chunk_entry d1 t o l -> readable f t o l -> chunk_entry (idx (md_hoard s)) t o l
}.

Lemma sifting_stable : stable sifting.
Proof. intros b s []. split; try done. cbn. by rewrite sf_state0. Qed.

Lemma sifting_fair s : sifting s -> fair -> hoard_fair (md_hoard s).
Proof. intros [] Hf. by eapply fair_later. Qed.

(** The chunks that are still to be read are in [rest]. *)
Definition unread (rest : list hchunk) (s : modes) : Prop :=
  fair -> forall t o l, chunk_entry (idx (md_hoard s)) t o l ->
    readable f t o l \/ exists r, r ∈ rest /\ hc_tag r = Some t /\ hc_offset r = o /\ hc_length r = l.

Definition sifted (rest : list hchunk) (D : mode_db) (s : modes) : Prop :=
  D = D1 /\ sifting s /\ (forall r, r ∈ rest -> r ∈ rows) /\ unread rest s.

Lemma sifted_stable rest D : stable (sifted rest D).
Proof. intros b s (? & ? & ? & ?). split; [done|]. split; [by apply sifting_stable|done]. Qed.

Lemma sifted_start s : sifting s -> sifted rows D1 s.
Proof.
  intros Hs. split; [done|]. split; [done|]. split; [done|]. intros _ t o l (r & Hr & Ht & Ho & Hl). right.
  exists r. split; [|done]. apply Hrows. rewrite Ht. split; [done|]. apply (sf_rows _ Hs); [done|by rewrite Ht].
Qed.

Lemma sifting_read s h : sifting s -> hoard h = hoard (md_hoard s) -> unchanged (md_hoard s) h -> sifting (set_md_hoard h s).
Proof.
  intros [] Hh Hun. assert (unchanged (md_hoard s0) h) as Hun0 by (by eapply unchanged_trans). split; cbn; rewrite ?Hh; try done.
  - by rewrite sf_state0.
  - eapply usable_later; [exact sf_usable0|done|rewrite Hh; apply sf_usable0..].
Qed.

(** A chunk is taken out, or SQLite refuses. *)
Lemma sifting_dropped s o t h :
  sifting s -> wrapped (md_hoard s) (chunk_dropped (md_hoard s) o t) h -> (fair -> forall l, ~ readable f t o l \/ ~ chunk_entry d1 t o l) ->
  sifting (set_md_hoard h s) /\
  (fair -> forall t' o' l, chunk_entry (idx h) t' o' l -> chunk_entry (idx (md_hoard s)) t' o' l /\ ~ (o' = o /\ t' = t)).
Proof.
  intros Hs (Hun & Hsuf & d & Hid & Hd) Hnot. pose proof (idle_data _ _ Hid) as <-. pose proof Hs as [].
  assert (unchanged (md_hoard s0) h) as Hun0 by (by eapply unchanged_trans).
  destruct Hd as [(Hwf & Hsl & Ho & (_ & Hr & Hp) & Hin & He)|(Heq & Hlt & Hnf)].
  - split; [split; cbn; try done|].
    + by rewrite sf_state0.
    + by eapply usable_later.
    + by etrans.
    + congruence.
    + congruence.
    + destruct sf_rest0. split; congruence.
    + intros r Hr' Ht. apply sf_rows0; auto.
    + intros t' o' l Hf Hc Hread. apply He. split; [by apply sf_keep0|]. intros [-> ->]. by destruct (Hnot Hf l).
    + intros _ t' o' l Hc. by apply He.
  - split; [split; cbn; rewrite ?Heq; try done|].
    + by rewrite sf_state0.
    + eapply usable_later; [exact sf_usable0|done|by rewrite Heq in *|rewrite Heq; apply sf_usable0].
    + by etrans.
    + intros Hf. destruct Hnf. by apply sifting_fair.
Qed.

Lemma check_row_ok {X} r rest D :
  triple (at_data fs D1 D (sifted (r :: rest) D)) (check_row r : pk modes (pk_err * bool) ())
    (fun _ s => exists D', at_data fs D1 D' (sifted rest D') s) X.
Proof.
  intros s (Ha & Hw & -> & Hs & Hin & Hun). assert (r ∈ rows) as Hr by (apply Hin; by left).
  pose proof Hs as []. destruct (proj1 (Hrows r) Hr) as [[t Ht] Hrd]. pose proof (Hlen r Hr) as Hl.
  assert (aligned (hc_offset r)) as [_ Hal].
  { apply (wf_aligned d1); [rewrite <- Hsame; apply Hu0|done]. }
  assert (s32 (hc_length r) = hc_length r) as Hl32 by (apply s32_id; unfold SLOT_SIZE in *; lia).
  unfold check_row. rewrite Ht. change (default [] (Some t)) with t. rewrite (Hcry r Hrd) by (by rewrite Ht).
  change (s32 IU_CHUNK_CRY_AES_SHA1) with IU_CHUNK_CRY_AES_SHA1. rewrite (s32_id (hc_offset r)) by lia. rewrite Hl32.
  destruct (hoard_read_spec (md_hoard s) t (hc_offset r) (hc_length r) sf_usable0) as (err & buf & h & Hrd1 & Hdb & Hunh & Hgood & Hfair).
  rewrite (u_crypto _ sf_usable0), Hl32 in Hrd1. assert (hoard_file (md_hoard s) = f) as Hf by apply sf_unchanged0.
  rewrite (bind_step _ _ s (err, buf) (set_md_hoard h s)) by (unfold call, on_hoard; by rewrite Hrd1).
  pose proof (sifting_read s h Hs Hdb Hunh) as Hs1.
  assert (forall r', r' ∈ rest -> r' ∈ rows) as Hrest by (intros r' ?; apply Hin; by right).
  case_decide as Herr; last first.
  - subst err. destruct (read_content _ _ _ _ _ _ _ Hrd1) as [Hbuf Hlb]. destruct (Hgood eq_refl) as [Hsha _].
    eexists _, _. split; [done|]. exists D1. split; [done|]. split; [done|]. split; [done|]. split; [done|]. split; [done|].
    intros Hfr t' o' l He. cbn in He. rewrite Hdb in He. destruct (Hun Hfr t' o' l He) as [?|(r' & Hr' & Ht' & <- & <-)]; [by left|].
    apply elem_of_cons in Hr' as [->|Hr']; [left|right; by exists r']. assert (t' = t) as -> by congruence.
    rewrite <- Hf. split; [lia|]. split; [done|]. by rewrite <- Hbuf.
  - destruct (invalidate_chunk_spec h (u_idle _ (sf_usable _ Hs1)) (u_wf _ (sf_usable _ Hs1)) (hc_offset r) t) as (h2 & Hinv & Hwr).
    rewrite (bind_step _ _ (set_md_hoard h s) () (set_md_hoard h2 s)) by (unfold call, on_hoard; change (md_hoard (set_md_hoard h s)) with h; by rewrite Hinv).
    destruct (sifting_dropped (set_md_hoard h s) (hc_offset r) t h2 Hs1 Hwr) as [Hs2 Hout].
    { intros Hfr l. destruct (decide (l = hc_length r)) as [->|Hne]; [left|right].
      - intros Hread. apply Herr. rewrite <- Hf in Hread. apply Hfair; [|done]. apply (sifting_fair s Hs Hfr).
      - intros (r' & Hr' & Ht' & _ & Hl'). apply Hne. rewrite <- Hl'. f_equal.
        apply (wf_chunk_tags d1) with t; [rewrite <- Hsame; apply Hu0|done..]. }
    eexists _, _. split; [done|]. exists D1. split; [done|]. split; [done|]. split; [done|]. split; [done|]. split; [done|].
    intros Hfr t' o' l He. destruct (Hout Hfr t' o' l He) as [He1 Hno]. cbn in He1. rewrite Hdb in He1.
    destruct (Hun Hfr t' o' l He1) as [?|(r' & Hr' & Ht' & Ho' & Hl')]; [by left|].
    apply elem_of_cons in Hr' as [->|Hr']; [|right; by exists r']. exfalso. apply Hno. split; [done|congruence].
Qed.

(** ** The transaction *)

Definition data_error (r : pk_err * bool) : Prop := r.1 <> PK_SUCCESS /\ ~ Forall contention fs0.

Definition data_post (r : pk_err * bool) (s : modes) : Prop :=
  sifting s /\ within fs0 (md_db s) /\
  if decide (r.1 = PK_SUCCESS) then r.2 = false /\ idle (set_to_check None D1) (md_db s) /\ unread [] s
  else idle D1 (md_db s) /\ data_error r.

Local Abbreviation leave := (tx_exit fs D1 sifting data_post data_error).

Lemma refused_data b : ~ Forall contention fs -> data_error (PK_IOERR, b).
Proof. intros Hn. split; [done|]. intros Hc. apply Hn. by eapply suffix_contention. Qed.

(** After the loop. *)
Lemma data_end_ok :
  triple (at_data fs D1 D1 (sifted [] D1)) (
    '(ok, _) ← mrun sql_drop_to_check;
    if negb ok then goto_bad (PK_IOERR, true)
    else
      ok ← try_db commit;
      if ok : bool then ret (PK_SUCCESS, false) else goto_bad (PK_IOERR, true)) data_post leave.
Proof.
  assert (forall s, sifted [] D1 s -> sifting s) as HI by (by intros s (_ & ? & _)). unfold mrun.
  apply (tx_stmt_step fs D1 data_post data_error sifting D1 (set_to_check None D1) [] sql_drop_to_check (sifted [] D1) (PK_IOERR, true) (fun _ => _));
    [by unfold sql_drop_to_check; rewrite Hlist|done|apply sifted_stable|apply refused_data|].
  apply (tx_commit_step fs D1 data_post data_error sifting (set_to_check None D1)); [done|apply sifted_stable|apply refused_data|].
  intros s Hi Hw (_ & Hs & _ & Hun). split; [done|]. split; [by eapply within_trans|]. by rewrite decide_True.
Qed.

Lemma check_data_steps_ok : triple (at_data fs D1 D1 sifting) check_data_steps data_post leave.
Proof.
  assert (exists x, sql_sum_to_check D1 = inr (D1, [x])) as [x Hsum] by (unfold sql_sum_to_check; rewrite Hlist; by eexists).
  unfold check_data_steps, mrun. change (fun s : modes => query_has_row (md_db s)) with (fun s : modes => query_has_row (get_db s)).
  apply (tx_row_step fs D1 data_post data_error sifting D1 x [] sql_sum_to_check sifting (PK_IOERR, true) (fun _ => _));
    [done|done|apply sifting_stable|apply refused_data|].
  eapply triple_bind.
  { eapply triple_pre; [apply (for_each_ok fs D1 sifted sifted_stable sql_to_check check_row D1 D1 rows)|].
    - unfold sql_to_check. by rewrite Hlist.
    - intros r rest D. apply check_row_ok.
    - intros s (Ha & Hw & Hs). split; [done|]. split; [done|]. by apply sifted_start. }
  intros [] s (Hw & Hdone). rewrite bind_gets. cbn [get_db modes_has_db] in Hw, Hdone. destruct (query_ok (md_db s)); cbn [negb].
  - destruct Hdone as (D & Ha & Hs). pose proof Hs as [-> _]. by apply data_end_ok.
  - destruct Hdone as (Hb & (rest & D & _ & Hs & _) & Hn). eexists _, _. split; [done|]. split_and!; try done.
    intros Hnb. by apply refused_data, Hn.
Qed.

Lemma check_data_body_ok : tx_body D1 sifting data_post data_error check_data_body fs.
Proof.
  unfold tx_body, tx_body_at, check_data_body. apply (tx_start fs D1 _ _ _ sifting); [apply sifting_stable| |apply check_data_steps_ok].
  intros s Hi Hw Hs Hn. split; [done|]. split; [by eapply within_trans|]. rewrite decide_False by done.
  split; [done|]. by apply refused_data.
Qed.
End data.

(** A statement that has failed has left the data alone, in the transaction or after its end. *)
Lemma query_failed {D A} fs (d0 d : D) (q : D -> stmt_error + D * list A) b rows b' :
  active d0 d b -> within fs b -> query (Stmt q) b = (false, rows, b') ->
  locked b' = true /\ use_transaction b' = true /\ within fs b' /\
  (saved b' = Some d0 /\ data b' = d \/ saved b' = None /\ data b' = d0 /\ gave_up fs b').
Proof.
  intros (Hl & Hu & Hs & Hd & _) Hw. unfold query. rewrite Hl. unfold sqlite_run.
  destruct (faults b) as [|[[ft abort]|] rest] eqn:Hf.
  - simpl. rewrite Hd. destruct (q d) as [e|[d' r]]; [|by destruct r]. intros [= _ _ <-]. split_and!; try done. by left.
  - unfold within in *. rewrite Hf in Hw. intros [= _ _ <-]. destruct abort; simpl; rewrite ?Hs; split_and!; try done; try by eapply within_cons.
    + right. split; [done|]. split; [done|]. split; [|simpl; apply suffix_length in Hw; simpl in Hw; lia].
      intros Hc. pose proof (refusal_contention _ _ _ _ Hw Hc) as Hx. by destruct ft.
    + by left.
  - unfold within in *. rewrite Hf in Hw. simpl. rewrite Hd. destruct (q d) as [e|[d' r]]; [|by destruct r].
    intros [= _ _ <-]. split_and!; try done; [by eapply within_cons|by left].
Qed.

(** The attempt to drop the table after a failure ends, and changes nothing else. *)
Lemma drop_temp_ends D s :
  idle D (md_db s) ->
  exists s' D', drop_temp sql_drop_to_check s = Some ((), s') /\ s' = set_md_db (md_db s') s /\
    idle D' (md_db s') /\ set_to_check None D' = set_to_check None D.
Proof.
  intros Hi. unfold drop_temp, body. set (fs := faults (md_db s)).
  destruct (begin_spec fs D (md_db s) Hi (within_refl _)) as (ok & b & Hb & Hw & Hok).
  erewrite bind_step by (unfold try_db; cbn [get_db modes_has_db]; by rewrite Hb). destruct ok; cbn [negb].
  2:{ destruct Hok as [Hib _]. by exists (set_md_db b s), D. }
  destruct (query (Stmt sql_drop_to_check) b) as [[ok rows] b1] eqn:Hq.
  unfold mrun. erewrite bind_step by (unfold on_db; cbn [get_db set_db modes_has_db set_md_db md_db]; by rewrite Hq).
  assert (exists D1, locked b1 = true /\ use_transaction b1 = true /\ within fs b1 /\ set_to_check None D1 = set_to_check None D /\
    (saved b1 = Some D /\ data b1 = D1 \/ saved b1 = None /\ data b1 = D /\ gave_up fs b1)) as (D1 & Hl & Hu & Hw1 & HD1 & Hs).
  { destruct ok.
    - destruct (query_outcome fs D D sql_drop_to_check b Hok Hw) as (ok & rows' & b1' & Hq' & Hw1 & Hflag & Hout).
      rewrite Hq in Hq'. injection Hq' as <- <- <-. destruct Hout as [(D1 & HD & (Hl & Hu & Hs & Hd & _) & _)|[(e & He & _ & Hr)|(_ & _ & [=] & _)]].
      + exists D1. split_and!; try done; [|by left]. unfold sql_drop_to_check in HD. destruct (to_check D); [|done].
        by injection HD as <- _.
      + rewrite Hr in Hflag. by destruct e.
    - exists D. destruct (query_failed fs D D _ _ _ _ Hok Hw Hq) as (? & ? & ? & ?). by split_and!. }
  destruct (commit_loop_spec fs D D1 (rounds b1) b1 Hl Hu Hs) as (ok2 & b2 & Hc & Hw2 & Hok2); [unfold rounds; lia|done|].
  erewrite bind_step by (unfold try_db, commit; cbn [get_db set_db modes_has_db set_md_db md_db]; by rewrite Hc). destruct ok2.
  - by exists (set_md_db b2 s), D1.
  - destruct Hok2 as (Hbr & _). destruct (rollback_spec fs D b2 Hbr Hw2) as (b3 & Hrb & _ & Hib & _).
    erewrite bind_step by (unfold try_db; cbn [get_db set_db modes_has_db set_md_db md_db]; by rewrite Hrb). by exists (set_md_db b3 s), D.
Qed.

(** What check_hoard_data leaves. *)
Record data_checked (s0 : modes) (err : pk_err) (s : modes) : Prop := mk_data_checked {
  dk_sifting : sifting s0 s;
  dk_idle : idle (data (md_db s)) (md_db s);
  dk_same : idx (md_hoard s) = tables s;
  dk_good : err = PK_SUCCESS -> unread s0 [] s;
  dk_error : err <> PK_SUCCESS -> ~ Forall contention (faults (md_db s0))
}.

Lemma check_data_spec s0 rows :
  usable (md_hoard s0) -> idle (data (md_db s0)) (md_db s0) -> idx (md_hoard s0) = tables s0 -> hd_slots (tables s0) = [] ->
  to_check (data (md_db s0)) = Some rows -> (forall r, r ∈ rows <-> is_Some (hc_tag r) /\ r ∈ hd_chunks (tables s0)) ->
  known_crypto (tables s0) -> (forall r, r ∈ rows -> 0 < hc_length r <= SLOT_SIZE) ->
  exists err s, check_hoard_data s0 = Some (err, s) /\ data_checked s0 err s.
Proof.
  intros Hu Hi Hsame Hslots Hlist Hrows Hcry Hlen. assert (sifting s0 s0) as Hs0.
  { split; rewrite ?Hsame; try done. by destruct s0 as [? ? ? []]. }
  destruct (transaction_spec (faults (md_db s0)) (data (md_db s0)) (sifting s0) (data_post s0) (data_error s0) check_data_body s0)
    as ([err drop] & s1 & Hr & Hpost); [|apply sifting_stable|done|apply within_refl|done|].
  { intros fs Hfs. by apply (check_data_body_ok s0 fs rows). }
  assert (data_post s0 (err, drop) s1) as (Hs1 & Hw1 & Hend).
  { destruct Hpost as [?|(? & ? & ? & Herr)]; [done|]. split; [done|]. split; [done|].
    destruct Herr as [Hne ?]. rewrite decide_False by done. by split. }
  unfold check_hoard_data. rewrite Hr. cbn [mbind option_bind]. cbn [fst snd] in Hend.
  assert (exists s2 D, (if drop then drop_temp sql_drop_to_check s1 else Some ((), s1)) = Some ((), s2) /\ s2 = set_md_db (md_db s2) s1 /\ idle D (md_db s2))
    as (s2 & D & Hdrop & Heq2 & Hid2).
  { assert (exists D, idle D (md_db s1)) as [D Hid] by (case_decide; [destruct Hend as (_ & ? & _)|destruct Hend as [? _]]; eauto). destruct drop.
    - destruct (drop_temp_ends D s1 Hid) as (s2 & D' & ? & ? & ? & _). by exists s2, D'.
    - exists s1, D. split; [done|]. split; [by destruct s1|done]. }
  rewrite Hdrop. cbn [mbind option_bind]. exists err, (refetch s2). split; [done|].
  assert (md_hoard (refetch s2) = md_hoard s1) as Hh by (by rewrite Heq2).
  assert (sifting s0 (refetch s2)) as Hs2.
  { destruct Hs1. split; rewrite ?Hh; try done. rewrite Heq2, sf_state0. done. }
  split; try done.
  - destruct Hid2 as (? & ? & ?). by split.
  - intros ->. rewrite decide_True in Hend by done. destruct Hend as (_ & _ & Hun). unfold unread. by rewrite Hh.
  - intros Hne. rewrite decide_False in Hend by done. by destruct Hend as [_ [_ ?]].
Qed.

(** * check_hoard *)

Lemma on_disk_db s b : on_disk s -> idle (data (md_db s)) b -> on_disk (set_md_db b s).
Proof.
  intros [] Hi. pose proof (idle_data _ _ Hi) as Hd.
  assert (tables (set_md_db b s) = tables s) as Htab by (unfold tables; cbn; by rewrite Hd).
  split; rewrite ?Htab; cbn; rewrite ?Hd; done.
Qed.

(** The index has been checked, and its new state is known on both connections. *)
Lemma index_published `{!LibUuid} s s1 d :
  on_disk s -> checking s s1 -> checked s d -> idle (with_list s d) (md_db s1) ->
  let s' := publish s1 in
  usable (md_hoard s') /\ idle (data (md_db s')) (md_db s') /\ idx (md_hoard s') = d /\ tables s' = d /\
  hoard_file (md_hoard s') = hoard_file (md_hoard s) /\ hoard_io (md_hoard s') = hoard_io (md_hoard s) /\
  faults (hoard (md_hoard s')) = faults (hoard (md_hoard s)) /\ md_flags s' = md_flags s /\ md_db s' = md_db s1.
Proof.
  intros Hs Hc Hd Hid s'. pose proof (idle_data _ _ Hid) as Hdata. pose proof (checked_wf s Hs d Hd) as Hwf.
  assert (m_hoard (data (md_db s1)) = d) as Hm by (rewrite Hdata; unfold with_list; by destruct (has_flag _ _)).
  assert (md_hoard s1 = md_hoard s) as Hh by (by rewrite Hc). destruct (od_hidle s Hs) as (Hl & Hsv & _).
  assert (md_hoard s' = set_hoard (set_conn d (saved (hoard (md_hoard s))) (hoard (md_hoard s))) (md_hoard s)) as Hs'
    by (unfold s', publish; rewrite Hm, <- Hh; done).
  assert (md_flags s' = md_flags s) as Hfl by (change (md_flags s1 = md_flags s); by rewrite Hc).
  assert (idle (data (md_db s1)) (md_db s1)) as Hid1 by (by rewrite Hdata).
  rewrite Hs'. split; [split; cbn; try done; apply Hs|]. split; [exact Hid1|]. split; [done|]. split; [exact Hm|]. by split_and!.
Qed.

(** What the check makes of the hoard cache: [d] is the index that the first transaction leaves. *)
Record checked_hoard `{LibUuid} (s : modes) (d : hoard_db) (s' : modes) : Prop := mk_checked_hoard {
  ch_usable : usable (md_hoard s');
  ch_idle : idle (data (md_db s')) (md_db s');
  ch_same : idx (md_hoard s') = tables s';
  ch_file : hoard_file (md_hoard s') = hoard_file (md_hoard s);
  ch_slots : hd_slots (tables s') = [];
  ch_offsets : hc_offset <$> hd_chunks (tables s') = hc_offset <$> hd_chunks d;
  ch_rest : hd_refs (tables s') = hd_refs d /\ hd_parcels (tables s') = hd_parcels d;
  ch_rows r : r ∈ hd_chunks (tables s') -> is_Some (hc_tag r) -> r ∈ hd_chunks d
}.

Lemma sifting_checked `{!LibUuid} s s1 d err s' :
  on_disk s -> checked s d -> tables s1 = d -> hoard_file (md_hoard s1) = hoard_file (md_hoard s) -> data_checked s1 err s' -> checked_hoard s d s'.
Proof.
  intros Hs Hd Htab Hf [[] Hid Hsame _ _]. rewrite Htab in *. split; try done; try (by rewrite <- Hsame).
  rewrite <- Hf. apply sf_unchanged0.
Qed.

Lemma check_hoard_spec `{!LibUuid} check s :
  on_disk s -> has_flag (md_flags s) WANT_COMPACT = false ->
  exists r s', check_hoard check s = Some (r, s') /\
    (r <> 0 /\ tables s' = tables s /\ hoard_file (md_hoard s') = hoard_file (md_hoard s) /\
       (calm s -> head (check (data (md_db s))) = Some true -> ~ dense (tables s)) \/
     head (check (data (md_db s))) = Some true /\ exists d, checked s d /\ checked_hoard s d s' /\ (calm s -> r = 0) /\
       if has_flag (md_flags s) WANT_FULL_CHECK
       then (r = 0 -> calm s -> forall t o l, chunk_entry (tables s') t o l -> readable (hoard_file (md_hoard s)) t o l) /\
         (calm s -> forall t o l, chunk_entry d t o l -> readable (hoard_file (md_hoard s)) t o l -> chunk_entry (tables s') t o l)
       else tables s' = d).
Proof.
  intros Hs0 Hcompact. unfold check_hoard.
  destruct (validate_db_spec (faults (md_db s)) check _ (md_db s) (od_idle s Hs0) (within_refl _)) as (valid & b & -> & Hib & Hwb & Hval & Hvalid).
  cbn [mbind option_bind]. set (sb := set_md_db b s). assert (on_disk sb) as Hs by (by apply on_disk_db).
  assert (tables sb = tables s) as Htab by (unfold tables; cbn; by rewrite (idle_data _ _ Hib)).
  destruct valid; cbn [negb]; last first.
  { exists 1, sb. split; [done|]. left. split_and!; try done. intros (Hc & _) Hh. by discriminate (Hvalid Hh Hc). }
  specialize (Hval eq_refl). destruct (check_index_spec sb Hs) as (r & s1 & -> & Hw1 & Hc1 & Hend). cbn [mbind option_bind].
  assert (Forall contention (faults (md_db s)) -> Forall contention (faults (md_db sb))) as Hcont by (by apply suffix_contention).
  case_decide as Hr0; cycle 1.
  { destruct Hend as [Hid [_ Hn]]. rewrite decide_True by done. exists r, (publish s1). split; [done|]. left. split; [done|].
    pose proof (idle_data _ _ Hid) as Hd1. split; [unfold tables; change (md_db (publish s1)) with (md_db s1); by rewrite Hd1|].
    split; [by rewrite Hc1|]. intros (Hc & _) _ Hden. rewrite <- Htab in Hden. by destruct (Hn Hden (Hcont Hc)). }
  subst r. destruct Hend as (d & Hd & Hid). rewrite decide_False by (intros Hn; by apply Hn).
  destruct (index_published sb s1 d Hs Hc1 Hd Hid) as (Hu & Hi2 & Hsame & Htab2 & Hf & Hio & Hhf & Hfl & Hdb).
  set (s2 := publish s1) in *. assert (checked s d) as Hds.
  { destruct Hd as [H1 H2 H3 H4]. split; [by rewrite <- Htab|by rewrite <- Htab|intros p; by rewrite H3, Htab|intros p; by rewrite H4, Htab]. }
  rewrite Hfl. change (md_flags sb) with (md_flags s) in *. destruct (has_flag (md_flags s) WANT_FULL_CHECK) eqn:Hfull; last first.
  { cbn [mbind option_bind]. rewrite decide_False by (intros Hn; by apply Hn). rewrite Hfl. change (md_flags sb) with (md_flags s).
    rewrite Hcompact. cbn [mbind option_bind]. rewrite decide_False by (intros Hn; by apply Hn). exists 0, s2. split; [done|]. right.
    split; [done|]. exists d. split; [done|]. split; [|done]. split; rewrite ?Htab2; try done.
    rewrite (eb_slots _ _ _ (ck_emptied _ _ Hd)). apply Hs. }
  destruct (check_data_spec s2 (by_offset (filter (fun r => is_Some (hc_tag r)) (hd_chunks d)))) as (err & s3 & Hr3 & Hdc); try done.
  { rewrite Htab2, (eb_slots _ _ _ (ck_emptied _ _ Hd)). apply Hs. }
  { rewrite Hdb, (idle_data _ _ Hid). unfold with_list. change (md_flags sb) with (md_flags s). by rewrite Hfull. }
  { intros r. by rewrite elem_of_by_offset, list_elem_of_filter, Htab2. }
  { rewrite Htab2. intros r Hr Ht. by apply (checked_crypto sb Hs d Hd). }
  { intros r. rewrite elem_of_by_offset, list_elem_of_filter. intros [Ht Hr]. by apply (checked_length sb d Hd). }
  rewrite Hr3. cbn [mbind option_bind]. assert (hoard_file (md_hoard s2) = hoard_file (md_hoard s)) as Hf2 by exact Hf.
  pose proof (sifting_checked s s2 d err s3 Hs0 Hds Htab2 Hf2 Hdc) as Hch. destruct Hdc as [Hsift Hid3 Hsame3 Hgood Herr].
  assert (calm s -> hoard_fair (md_hoard s2)) as Hfair by (intros (_ & Hh & Hi0); split; [by rewrite Hhf|by rewrite Hio]).
  assert (calm s -> forall t o l, chunk_entry d t o l -> readable (hoard_file (md_hoard s)) t o l -> chunk_entry (tables s3) t o l) as Hkeep.
  { intros Hc t o l He Hread. rewrite <- Hsame3. apply (sf_keep _ _ Hsift); [auto|by rewrite Htab2|by rewrite Hf2]. }
  case_decide as He.
  { exists 1, s3. split; [done|]. right. split; [done|]. exists d. split; [done|]. split; [done|]. split; [|by split].
    intros Hc. destruct (Herr He). rewrite Hdb. eapply suffix_contention; [exact Hw1|]. apply Hcont, Hc. }
  subst err. assert (md_flags s3 = md_flags s) as Hfl3 by (rewrite (sf_state _ _ Hsift); exact Hfl).
  rewrite Hfl3, Hcompact. cbn [mbind option_bind]. rewrite decide_False by (intros Hn; by apply Hn). exists 0, s3. split; [done|]. right.
  split; [done|]. exists d. split; [done|]. split; [done|]. split; [done|]. split; [|done].
  intros _ Hc t o l Hent. rewrite <- Hsame3 in Hent. destruct (Hgood eq_refl (Hfair Hc) t o l Hent) as [Hread|(r & Hr & _)]; [by rewrite Hf2 in Hread|].
  by apply not_elem_of_nil in Hr.
Qed.

Lemma chunk_entry_row d t o l : chunk_entry d t o l -> exists r, r ∈ hd_chunks d /\ hc_tag r = Some t /\ hc_offset r = o /\ hc_length r = l.
Proof. done. Qed.

(** A row that is not faulty, in terms of its columns. *)
Lemma readable_row `{!LibUuid} s r t f :
  on_disk s -> r ∈ hd_chunks (tables s) -> hc_tag r = Some t -> readable f t (hc_offset r) (hc_length r) -> bytes f ->
  ~ faulty r <-> hc_allocated r = true /\ hc_crypto r = IU_CHUNK_CRY_AES_SHA1.
Proof.
  intros Hs Hr Ht (_ & Hl & _ & Hsha) Hb. destruct (od_ints s Hs r Hr) as [_ Hc]. pose proof (od_tags s Hs r Hr) as Hne.
  assert (length t = 20%nat) as Hlen by (rewrite <- Hsha; apply length_sha1). unfold faulty, stray, bad_length, bad_crypto. rewrite Ht, Hc.
  destruct t as [|x t]; [done|]. unfold iu_chunk_crypto_is_valid, iu_chunk_crypto_hashlen, crypto_get_algs, SLOT_SIZE in *. split.
  - intros Hn. destruct (decide (hc_crypto r = IU_CHUNK_CRY_AES_SHA1)) as [|Hx].
    + split; [|done]. destruct (hc_allocated r); [done|]. exfalso. apply Hn. right. right. by split.
    + exfalso. apply Hn. left. left. apply bool_decide_eq_false. by intros [? ?].
  - intros [Ha Hx]. rewrite Ha, decide_True by done. intros [[Hf|Hf]|[Hf|[Hf _]]]; [by apply bool_decide_eq_false in Hf; destruct Hf|done| |done].
    destruct Hf as [?|[?|[? _]]]; lia.
Qed.

(** * Properties *)

(** C21: checking the hoard cache always ends and never touches its file or the chunks that it keeps, whatever
    rows the tables have ([on_disk]: integer columns of an int, unique tags, flags of 0 or 1) and whatever fails; if it answers 0, the index is well-formed, with slots numbered
    from 0 on, known crypto suites, exactly those parcels whose UUIDs are valid, and exactly their references. *)
Theorem check_hoard_safe `{!LibUuid} check s :
  on_disk s -> has_flag (md_flags s) WANT_COMPACT = false ->
  exists r s', check_hoard check s = Some (r, s') /\ hoard_file (md_hoard s') = hoard_file (md_hoard s) /\
    (forall x, x ∈ hd_chunks (tables s') -> is_Some (hc_tag x) -> x ∈ hd_chunks (tables s)) /\
    (r = 0 -> head (check (data (md_db s))) = Some true /\ hoard_wf (tables s') /\ dense (tables s') /\ known_crypto (tables s') /\
       (forall p, p ∈ hd_parcels (tables s') <-> p ∈ hd_parcels (tables s) /\ (canonicalize_uuid (hp_uuid p)).1 <> PK_INVALID) /\
       (forall x, x ∈ hd_refs (tables s') <-> x ∈ hd_refs (tables s) /\ x.1 ∈ hp_parcel <$> hd_parcels (tables s'))).
Proof.
  intros Hs Hcompact. destruct (check_hoard_spec check s Hs Hcompact) as (r & s' & Hr & [(Hr0 & Htab & Hf & _)|(Hok & d & Hd & Hch & _ & _)]).
  - exists r, s'. rewrite Htab. split_and!; try done.
  - exists r, s'. destruct Hch as [Hu Hi Hsame Hf Hsl Ho [Hrefs Hparcels] Hrows]. split; [done|]. split; [done|]. split.
    { intros x Hx Hxt. apply (checked_row s d Hd x); [by apply Hrows|done]. }
    intros _. split; [done|]. split; [rewrite <- Hsame; apply Hu|]. split.
    { pose proof (checked_dense s d Hd) as Hden. unfold dense. rewrite Ho.
      replace (length (hd_chunks (tables s'))) with (length (hd_chunks d)); [done|]. apply (f_equal length) in Ho. by rewrite !length_fmap in Ho. }
    split; [intros x Hx Hxt; apply (checked_crypto s Hs d Hd); [by apply Hrows|done]|]. rewrite Hrefs, Hparcels.
    split; [apply Hd|apply Hd].
Qed.

(** C18: a check of index and data in which nothing but contention gets in the way answers 0 exactly if SQLite finds
    the file in order and the slots are numbered from 0 on; the hoard cache then meets the assumptions under
    which its operations are verified, and the chunks that it has are exactly those that can be read from the file
    with the SHA-1 of their tag. *)
Theorem check_hoard_exact `{!LibUuid} check s :
  on_disk s -> has_flag (md_flags s) WANT_FULL_CHECK = true -> has_flag (md_flags s) WANT_COMPACT = false -> calm s ->
  exists r s', check_hoard check s = Some (r, s') /\ hoard_file (md_hoard s') = hoard_file (md_hoard s) /\
    (r = 0 <-> head (check (data (md_db s))) = Some true /\ dense (tables s)) /\
    (r <> 0 -> tables s' = tables s) /\
    (r = 0 -> steady s' /\ dense (tables s') /\ forall t o l, chunk_entry (tables s') t o l <->
       exists x, x ∈ hd_chunks (tables s) /\ hc_tag x = Some t /\ hc_offset x = o /\ hc_length x = l /\
         hc_allocated x = true /\ hc_crypto x = IU_CHUNK_CRY_AES_SHA1 /\ readable (hoard_file (md_hoard s)) t o l).
Proof.
  intros Hs Hfull Hcompact Hc.
  destruct (check_hoard_spec check s Hs Hcompact) as (r & s' & Hr & [(Hr0 & Htab & Hf & Hn)|(Hok & d & Hd & Hch & Hr0 & Hdata)]).
  { exists r, s'. split; [done|]. split; [done|]. split; [|by split]. split; [done|]. intros [Hh Hden]. by destruct (Hn Hc Hh). }
  rewrite Hfull in Hdata. destruct Hdata as [Hgood Hkeep]. specialize (Hr0 Hc) as ->. specialize (Hgood eq_refl Hc). specialize (Hkeep Hc).
  exists 0, s'. destruct Hch as [Hu Hi Hsame Hf Hsl Ho [Hrefs Hparcels] Hrows]. split; [done|]. split; [done|].
  split; [split; [split; [done|apply Hd]|done]|]. split; [done|]. intros _. split; [|split].
  - split; try done. split; [rewrite <- Hsame; apply Hu| | |rewrite Hf; apply Hs].
    + intros t o l He%chunk_firm; [|done]. destruct (Hgood t o l He) as (_ & Hl & Hfulln & Hsha). by rewrite Hf.
    + intros x Hx Hxt. apply (checked_crypto s Hs d Hd); [by apply Hrows|done].
  - pose proof (checked_dense s d Hd) as Hden. unfold dense. rewrite Ho.
    replace (length (hd_chunks (tables s'))) with (length (hd_chunks d)); [done|]. apply (f_equal length) in Ho. by rewrite !length_fmap in Ho.
  - intros t o l. split.
    + intros He. pose proof (Hgood t o l He) as Hread. destruct He as (x & Hx & Ht & <- & <-).
      destruct (checked_row s d Hd x) as [Hx0 Hnf]; [apply Hrows; [done|by rewrite Ht]|by rewrite Ht|].
      destruct (proj1 (readable_row s x t _ Hs Hx0 Ht Hread (od_bytes s Hs)) Hnf). by exists x.
    + intros (x & Hx & Ht & <- & <- & Ha & Hcx & Hread). apply Hkeep; [|done]. apply (checked_entry s d Hd). exists x.
      split_and!; try done. by apply (readable_row s x t _ Hs Hx Ht Hread (od_bytes s Hs)).
Qed.

(** ** Examples *)

(** A free slot, a chunk, and a row with an unknown crypto suite. *)
Definition demo_found : hoard_db :=
  mk_hoard [mk_hchunk None 0 0 0 false; mk_hchunk (Some (Fips180.sha1 [1; 2; 3])) 256 3 IU_CHUNK_CRY_AES_SHA1 true;
            mk_hchunk (Some [9]) 512 5 7 true]
    [(1, Fips180.sha1 [1; 2; 3])] [] [].

Definition demo_unchecked (fs hfs : list (option (sqlite_fault * bool))) (io : list (option nat)) : modes :=
  mk_modes WANT_FULL_CHECK 1 "u"
    (mk_supply (mk_hstate (mk_parcel IU_CHUNK_CRY_AES_SHA1 0 16 SLOT_SIZE 512 20) true
                  (mk_db demo_found None hfs false SQLITE_OK false 0) demo_gap_file io) (mk_pool 1 0 0 []))
    (mk_db (mk_mode_db demo_found None None []) None fs false SQLITE_OK false 0) false PK_SUCCESS 0.

Lemma demo_on_disk fs hfs io : on_disk (demo_unchecked fs hfs io).
Proof.
  pose proof (length_sha1 [1; 2; 3]) as Hl.
  split; [split; [reflexivity|split; reflexivity]|split; [reflexivity|split; reflexivity]|reflexivity|reflexivity| | | |reflexivity|reflexivity|reflexivity|exact (cp_bytes _ _ demo_gap_compactable)];
    unfold tables, demo_unchecked; cbn [md_db data m_hoard]; unfold demo_found; revert Hl; generalize (Fips180.sha1 [1; 2; 3]); intros tag Hl.
  - intros r1 r2 t Hr1 Hr2. cbn [hd_chunks] in Hr1, Hr2. rewrite !elem_of_cons in Hr1, Hr2.
    destruct Hr1 as [->|[->|[->|[]%not_elem_of_nil]]], Hr2 as [->|[->|[->|[]%not_elem_of_nil]]]; cbn; try done;
      intros Ht1 Ht2; rewrite <- Ht1 in Ht2; injection Ht2 as Ht; by subst tag.
  - intros r Hr. cbn [hd_chunks] in Hr. rewrite !elem_of_cons in Hr. destruct Hr as [->|[->|[->|[]%not_elem_of_nil]]]; cbn; try done.
    intros Ht. injection Ht as Ht. by subst tag.
  - intros r Hr. cbn [hd_chunks] in Hr. rewrite !elem_of_cons in Hr. destruct Hr as [->|[->|[->|[]%not_elem_of_nil]]]; by split.
Qed.

Definition demo_no_uuid : LibUuid := {| uuid_canonical _ := None |}.

Lemma check_hoard_safe_witness : exists r s',
  check_hoard (H := demo_no_uuid) (fun _ => [true]) (demo_unchecked [None; Some (F_IOERR, true)] [Some (F_FULL, false)] [Some 1%nat]) = Some (r, s') /\
  hoard_file (md_hoard s') = hoard_file (md_hoard (demo_unchecked [None; Some (F_IOERR, true)] [Some (F_FULL, false)] [Some 1%nat])).
Proof.
  destruct (check_hoard_safe (H := demo_no_uuid) (fun _ => [true]) (demo_unchecked [None; Some (F_IOERR, true)] [Some (F_FULL, false)] [Some 1%nat]))
    as (r & s' & Hr & Hf & _); [apply demo_on_disk|reflexivity|]. exists r, s'. split; [exact Hr|exact Hf].
Defined.

Lemma check_hoard_exact_witness : exists s',
  check_hoard (H := demo_no_uuid) (fun _ => [true]) (demo_unchecked [Some (F_BUSY, false)] [Some (F_BUSY, false)] []) = Some (0, s') /\ steady s'.
Proof.
  destruct (check_hoard_exact (H := demo_no_uuid) (fun _ => [true]) (demo_unchecked [Some (F_BUSY, false)] [Some (F_BUSY, false)] []))
    as (r & s' & Hr & _ & Hiff & _ & Hgood); [apply demo_on_disk|reflexivity|reflexivity|split; [repeat constructor|split; [repeat constructor|reflexivity]]|].
  assert (r = 0) as He. { apply Hiff. split; [reflexivity|]. change ([0; 256; 512] ≡ₚ [0; 256; 512]). reflexivity. }
  exists s'. rewrite <- He. split; [exact Hr|]. apply Hgood. exact He.
Defined.
