(* ===== verification/Upload.v ===== *)
(** Upload: copying the modified chunks of a parcel to an upload directory (copy_for_upload of
    src/parcelkeeper/cache_modes.c), over the local cache, the hoard cache and a file system. *)

From stdpp Require Import strings gmap.
From S2P Require Import Prelude Cipher HashStream Sha1 Hash Compress LzfStream Chunk Effects Sql SqlConn SqlRows Pk Cache CacheProofs CacheModes CacheModesProofs CacheVerdict Util Hoard HoardProofs HoardChunks HoardAdmin.

(** The parcelkeeper's state with the parts that only this mode uses: conf->dest_dir, state->hoard and
    state->hoard_ident; the directories and the files of the file system, by path; and the local variable
    "ret" of copy_for_upload. *)
Record uploading := mk_uploading {
  up_pk : pk_state;
  dest_dir : string;
  up_hoard : hoard_state;
  hoard_ident : Z;
  up_dirs : gset string;
  up_files : gmap string (list Z);
  up_ret : Z
}.

Definition set_up_pk v s := mk_uploading v (dest_dir s) (up_hoard s) (hoard_ident s) (up_dirs s) (up_files s) (up_ret s).
Definition set_up_hoard v s := mk_uploading (up_pk s) (dest_dir s) v (hoard_ident s) (up_dirs s) (up_files s) (up_ret s).
Definition set_up_dirs v s := mk_uploading (up_pk s) (dest_dir s) (up_hoard s) (hoard_ident s) v (up_files s) (up_ret s).
Definition set_up_files v s := mk_uploading (up_pk s) (dest_dir s) (up_hoard s) (hoard_ident s) (up_dirs s) v (up_ret s).
Definition set_up_ret v s := mk_uploading (up_pk s) (dest_dir s) (up_hoard s) (hoard_ident s) (up_dirs s) (up_files s) v.

#[global] Program Instance uploading_has_pk : HasPk uploading := { get_pk := up_pk; set_pk := set_up_pk }.
Solve Obligations with done.

Definition urun {R A} (q : dbq A) : pk uploading R (bool * list A) := on_db (query (Stmt q)).

(** ** Files

    The schedule is that of the parcelkeeper's state. *)
Definition up_next_io {R} : pk uploading R (option nat) := fun s =>
  match io (up_pk s) with
  | o :: rest => Some (inl o, set_up_pk (set_io rest (up_pk s)) s)
  | [] => Some (inl None, s)
  end.

Definition up_io_ok {R} : pk uploading R bool := o ← up_next_io; pk_ret (bool_decide (o = None)).

(** mkdir, with the parent there. *)
Definition mkdir {R} (path : string) : pk uploading R bool :=
  ok ← up_io_ok;
  s ← gets (fun s => s);
  if decide (ok = false \/ path ∈ up_dirs s \/ is_Some (up_files s !! path)) then pk_ret false
  else _ ← modify (set_up_dirs ({[path]} ∪ up_dirs s)); pk_ret true.

(** open with O_WRONLY|O_CREAT|O_TRUNC of a file in the directory [dir]. *)
Definition open_trunc {R} (dir path : string) : pk uploading R bool :=
  ok ← up_io_ok;
  s ← gets (fun s => s);
  if decide (ok = false \/ ~ dir ∈ up_dirs s \/ path ∈ up_dirs s) then pk_ret false
  else _ ← modify (set_up_files (<[path := []]> (up_files s))); pk_ret true.

(** write to the file just opened: the number of bytes. *)
Definition write_file {R} (path : string) (data : list Z) : pk uploading R Z :=
  o ← up_next_io;
  let data := take (limit (length data) o) data in
  _ ← modify (fun s => set_up_files (<[path := data]> (up_files s)) s);
  pk_ret (Z.of_nat (length data)).

(** ** make_upload_dirs *)

Definition make_dir (path : string) : pk uploading pk_err () :=
  dirs ← gets up_dirs;
  if decide (path ∈ dirs) then pk_ret ()
  else
    ok ← mkdir path;
    if ok : bool then pk_ret () else ret PK_IOERR.

(** "%.4d" of an unsigned number *)
Definition fmt_4d (n : Z) : string := if decide (n < 2 ^ 31) then fmt_4u n else "-" +:+ fmt_4u (2 ^ 32 - n).

Definition numbered_dir (dest : string) (dir : Z) : string := dest +:+ "/" +:+ fmt_4d dir.

(** "for (dir=...; dir < numdirs; dir++)", [n] times. *)
Fixpoint make_numbered (n : nat) (dest : string) (dir : Z) : pk uploading pk_err () :=
  match n with
  | O => pk_ret ()
  | S n =>
      _ ← make_dir (numbered_dir dest dir);
      make_numbered n dest (dir + 1)
  end.

Definition numdirs (p : pk_parcel) : Z := u32 (u32 (chunks p + chunks_per_dir p) - 1) / chunks_per_dir p.

Definition make_upload_dirs : uploading -> option (pk_err * uploading) := body (
  dest ← gets dest_dir;
  _ ← make_dir dest;
  p ← gets (fun s => parcel (up_pk s));
  _ ← defined (chunks_per_dir p <> 0);
  _ ← make_numbered (Z.to_nat (numdirs p)) dest 0;
  ret PK_SUCCESS).

(** ** hoard_sync_refs

    The index of the hoard cache is attached to state->db as "hoard", where HoardAdmin.v's tables are
    those of this state. The attached tables are not part of the connection's data ([data]) but are kept with the
    hoard cache's own connection, as both are the same file: what is said of the one after the transaction does
    not cover the other. *)
Definition key_tags (t : option (gmap Z key_row)) : list (list Z) := kr_tag <$> (table_rows (default ∅ t)).*2.

Definition refs_view (refs : list (Z * list Z)) (d : dbs) : refs_db :=
  mk_refs (key_tags (main_keys d)) (key_tags (prev_keys d)) refs None.

Definition refs_conn (refs : list (Z * list Z)) (b : db dbs) : db refs_db :=
  mk_db (refs_view refs (data b)) (refs_view refs <$> saved b) (faults b) (locked b) (result b) (use_transaction b) (retries b).

(** The connection afterwards; its own tables are the same. *)
Definition back_conn (b : db dbs) (b' : db refs_db) : db dbs :=
  mk_db (data b) (saved b) (faults b') (locked b') (result b') (use_transaction b') (retries b').

Definition set_hrefs v d := mk_hoard (hd_chunks d) v (hd_slots d) (hd_parcels d).

Definition put_refs (refs : list (Z * list Z)) (h : hoard_state) : hoard_state :=
  set_hoard (set_conn (set_hrefs refs (data (hoard h))) (saved (hoard h)) (hoard h)) h.

Definition sync_refs (new_chunks : bool) (s : uploading) : option (pk_err * uploading) :=
  let h := up_hoard s in
  let b := conn (up_pk s) in
  '(err, b') ← hoard_sync_refs (hoard_dir h) (hoard_ident s) new_chunks (refs_conn (hd_refs (data (hoard h))) b);
  Some (err, set_up_hoard (put_refs (rd_refs (data b')) h) (set_up_pk (set_pkdb (back_conn b b') (up_pk s)) s)).

(** ** copy_for_upload *)

(** CREATE TEMP TABLE to_upload AS SELECT main.keys.chunk AS chunk, main.keys.tag AS tag,
    cache.chunks.length AS length FROM main.keys JOIN prev.keys ON main.keys.chunk == prev.keys.chunk LEFT
    JOIN cache.chunks ON main.keys.chunk == cache.chunks.chunk WHERE main.keys.tag != prev.keys.tag *)
Definition modified_rows (m p : gmap Z key_row) (t : gmap Z Z) : list (Z * list Z * option Z) :=
  (fun kv => (kv.1, kr_tag kv.2, t !! kv.1)) <$> filter (fun kv => tag_differs p kv = true) (table_rows m).

Definition sql_create_to_upload : dbq () := fun d =>
  match to_upload d, main_keys d, prev_keys d, chunk_table d with
  | None, Some m, Some p, Some t => inr (set_to_upload (Some (modified_rows m p t)) d, [])
  | _, _, _, _ => inl E_ERROR
  end.

(** SELECT sum(length) FROM temp.to_upload *)
Definition sql_sum_to_upload : dbq (option Z) := fun d =>
  match to_upload d with
  | Some rows =>
      let lens := omap (fun r => r.2) rows in
      inr (d, [if decide (lens = []) then None else Some (foldr Z.add 0 lens)])
  | None => inl E_ERROR
  end.

(** SELECT chunk, tag, length FROM temp.to_upload *)
Definition sql_select_to_upload : dbq (Z * list Z * option Z) := fun d =>
  match to_upload d with Some rows => inr (d, rows) | None => inl E_ERROR end.

(** "damaged:", from where it goes on at "out:". *)
Definition damaged : pk uploading () () :=
  _ ← call (on_pk (cache_set_flag CA_F_DAMAGED));
  goto_bad ().

(** The directory that form_chunk_path puts a chunk in. *)
Definition chunk_dir (p : pk_parcel) (dest : string) (chunk : Z) : string :=
  dest +:+ "/" +:+ fmt_4u (chunk / chunks_per_dir p).

Definition write_chunk_file (p : pk_parcel) (dest : string) (chunk len : Z) (tag buf : list Z) : pk uploading () () :=
  match form_chunk_path p dest chunk with
  | None => fault
  | Some path =>
      opened ← open_trunc (chunk_dir p dest chunk) path;
      if negb opened then goto_bad ()
      else
        n ← write_file path buf;
        if decide (n <> s32 len) then goto_bad ()
        else
          closed ← up_io_ok;
          if negb closed then goto_bad ()
          else
            h ← gets up_hoard;
            match hoard_put_chunk tag buf h with
            | None => fault
            | Some (_, h) => modify (set_up_hoard h)
            end
  end.

(** The body of the loop; the counts for the log are left out. *)
Definition upload_row (r : Z * list Z * option Z) : pk uploading () () :=
  let chunk := u32 r.1.1 in
  let tag := r.1.2 in
  let len := u32 (default 0 r.2) in
  p ← gets (fun s => parcel (up_pk s));
  dest ← gets dest_dir;
  if decide (chunk > chunks p) then damaged
  else if decide (Z.of_nat (length tag) <> hashlen p) then damaged
  else if decide (len = 0) then damaged
  else if decide (len > chunksize p) then damaged
  else
    '(err, buf) ← call (on_pk (_cache_read_chunk chunk (chunksize p) len (Some tag)));
    if decide (err = PK_TAGFAIL) then damaged
    else if decide (err <> PK_SUCCESS) then goto_bad ()
    else write_chunk_file p dest chunk len tag buf.

Definition upload_steps : pk uploading () () :=
  '(ok, _) ← urun sql_create_to_upload;
  if negb ok then goto_bad ()
  else
    '(_, rows) ← urun sql_sum_to_upload;
    has ← gets (fun s => query_has_row (get_db s));
    if negb has then goto_bad ()
    else
      _ ← for_each sql_select_to_upload upload_row;
      ok ← gets (fun s => query_ok (get_db s));
      _ ← (if ok : bool then modify (set_up_ret 0) else pk_ret ());
      goto_bad ().

Definition upload_body : pk uploading () () :=
  ok ← try_db begin;
  if ok : bool then upload_steps else ret ().

Definition upload_vacuum (s : uploading) : option (bool * uploading) :=
  '(ok, b) ← vacuum (conn (up_pk s)); Some (ok, set_db b s).

(** The transaction always ends at "bad:", but for a failing "begin". *)
Definition copy_for_upload (s : uploading) : option (Z * uploading) :=
  let s := set_up_ret 1 s in
  if cache_test_flag (up_pk s) CA_F_DAMAGED then Some (1, s)
  else if cache_test_flag (up_pk s) CA_F_DIRTY then Some (1, s)
  else
    '(err, s) ← make_upload_dirs s;
    if decide (err <> PK_SUCCESS) then Some (1, s)
    else
      '(err, s) ← sync_refs true s;
      if decide (err <> PK_SUCCESS) then Some (1, s)
      else
        '(ok, s) ← upload_vacuum s;
        if negb ok then Some (1, s)
        else
          '(_, s) ← transaction upload_body s;
          Some (up_ret s, s).

(** hoard_refresh of hoard_modes.c *)
Definition hoard_refresh (s : uploading) : option (Z * uploading) :=
  '(err, s) ← sync_refs false s; Some (if decide (err <> PK_SUCCESS) then 1 else 0, s).
