(* ===== verification/UploadProofs.v ===== *)
(** UploadProofs: what copy_for_upload (Upload.v) leaves in the upload directory, the hoard cache, the
    databases and the flags of the local cache. *)

From stdpp Require Import strings gmap.
From S2P Require Import Prelude Cipher HashStream Sha1 Hash Compress LzfStream Chunk Effects Sql SqlConn SqlRows Pk Cache CacheProofs CacheModes CacheModesProofs CacheVerdict Util Hoard HoardProofs HoardChunks HoardAdmin Upload.

#[local] Opaque Fips180.sha1.

(** * The hoard cache *)

Local Abbreviation hidx h := (data (hoard h)).

(** There is room for [n] more batches of slots. *)
Definition room (n : nat) (d : hoard_db) : Prop :=
  exists b, 0 <= b /\ fits b d /\ b + 65536 * Z.of_nat n < 2 ^ 31.

Lemma room_has_room n d : room (S n) d -> has_room d.
Proof. intros (b & Hb & Hf & Hlt). unfold has_room. eapply Forall_impl; [exact Hf|]. simpl. lia. Qed.

Lemma room_less n k d : (k <= n)%nat -> room n d -> room k d.
Proof. intros Hk (b & Hb & Hf & Hlt). exists b. split_and!; [done|done|lia]. Qed.

Lemma room_grown n d d' : grown d d' -> room (S n) d -> room n d'.
Proof. intros Hg (b & Hb & Hf & Hlt). exists (b + 65536). split_and!; [lia|by apply Hg|lia]. Qed.

(** If there is a hoard cache, it is in order, with room for [n] chunks. *)
Definition ready (n : nat) (h : hoard_state) : Prop :=
  hoard_dir h = true -> usable h /\ sound (hidx h) (hoard_file h) /\ room n (hidx h).

Lemma ready_less n k h : (k <= n)%nat -> ready n h -> ready k h.
Proof. intros Hk Hr Hd. destruct (Hr Hd) as (? & ? & ?). split_and!; [done|done|by eapply room_less]. Qed.

(** What a session has kept in the hoard cache, if nothing but contention got in the way. *)
Definition hoard_like (h h' : hoard_state) : Prop :=
  h_parcel h' = h_parcel h /\ hoard_dir h' = hoard_dir h /\
  (hoard_dir h = true -> hoard_fair h -> hoard_fair h' /\ forall t, indexed (hidx h) t -> indexed (hidx h') t).

(** Besides, it leaves the hoard cache in order, and the references alone. *)
Definition hoard_keeps (h h' : hoard_state) : Prop :=
  hoard_like h h' /\ hd_refs (hidx h') = hd_refs (hidx h) /\ (ready 0 h -> ready 0 h').

Definition hoarded (h h' : hoard_state) (tag : list Z) : Prop :=
  hoard_dir h = true -> hoard_fair h -> indexed (hidx h') tag.

Lemma hoard_keeps_refl h : hoard_keeps h h.
Proof. by split_and!. Qed.

Lemma put_ready n h tag buf :
  ready (S n) h -> bytes buf -> (hoard_dir h = true -> 0 < Z.of_nat (length buf) <= SLOT_SIZE) -> Fips180.sha1 buf = tag ->
  exists err h', hoard_put_chunk tag buf h = Some (err, h') /\ ready n h' /\ hoard_keeps h h' /\ hoarded h h' tag.
Proof.
  intros Hr Hb Hlen Htag. destruct (hoard_dir h) eqn:Hdir.
  - destruct (Hr Hdir) as ([Hi Hwf Hcs Hcry Hbf] & Hs & Hroom).
    destruct (hoard_put_spec h tag buf) as (err & h' & Hp & Hfr & Hsuf & d & Hi' & Hwf' & Hs' & Hsp & Hgr & Hout); try done.
    { by eapply room_has_room. } { by apply Hlen. }
    pose proof (idle_data _ _ Hi') as Hd. subst d. destruct Hfr as [Hp' Hdir' Hio [Hbf' _]]. exists err, h'. split; [done|]. split.
    { intros _. split; [split; rewrite ?Hp'; done|]. split; [done|]. by eapply room_grown. }
    assert (hoard_fair h -> hoard_fair h') as Hfair.
    { intros [Hc Hnil]. split; [|rewrite Hnil in Hio; by apply suffix_nil_inv in Hio].
      destruct Hsuf as [k Hk]. rewrite Hk in Hc. by apply Forall_app in Hc as [_ ?]. }
    assert (hoard_like h h' -> hoard_keeps h h') as Hkeep.
    { intros Hl. split; [done|]. split; [apply Hsp|]. intros Hr0 _. destruct (Hr0 Hdir) as (_ & _ & b & ? & ? & ?).
      split; [split; rewrite ?Hp'; done|]. split; [done|].
      assert (room 1 (hidx h)) as Hr1 by (by eapply (room_less (S n)); [lia|]). exact (room_grown 0 _ _ Hgr Hr1). }
    case_decide as He.
    + split; [|intros _ _; apply Hout; by right]. apply Hkeep. split; [done|]. split; [congruence|]. intros _ Hf. split; [by apply Hfair|].
      intros t Ht. apply Hout. by left.
    + destruct Hout as [_ Hn]. split; [|by intros _ Hf]. apply Hkeep. split; [done|]. split; [congruence|]. by intros _ Hf.
  - unfold hoard_put_chunk. rewrite Hdir. eexists _, _. split; [done|]. unfold ready, hoarded. rewrite Hdir.
    split; [done|]. split; [apply hoard_keeps_refl|done].
Qed.

Lemma hoard_like_trans h1 h2 h3 : hoard_like h1 h2 -> hoard_like h2 h3 -> hoard_like h1 h3.
Proof.
  intros (Hp & Hd & Hk) (Hp' & Hd' & Hk'). split; [congruence|]. split; [congruence|]. intros Hdir Hf.
  destruct (Hk Hdir Hf) as [Hf2 Hi]. destruct (Hk' ltac:(congruence) Hf2) as [Hf3 Hi']. split; [done|]. auto.
Qed.

Lemma hoard_keeps_trans h1 h2 h3 : hoard_keeps h1 h2 -> hoard_keeps h2 h3 -> hoard_keeps h1 h3.
Proof.
  intros [H1 [Hr1 Hy1]] [H2 [Hr2 Hy2]]. split; [by eapply hoard_like_trans|]. split; [congruence|]. auto.
Qed.

Lemma hoarded_later h h' h'' tag : hoard_keeps h h' -> hoarded h h' tag -> hoard_keeps h' h'' -> hoarded h h'' tag.
Proof.
  intros [(_ & Hd & Hf) _] Hh [(_ & _ & Hk) _] Hdir Hfair. destruct (Hf Hdir Hfair) as [Hfair' _].
  apply Hk; [congruence|done|]. by apply Hh.
Qed.

Lemma hoarded_shift h h' h'' tag : hoard_like h h' -> hoarded h' h'' tag -> hoarded h h'' tag.
Proof. intros (_ & Hd & Hf) Hh Hdir Hfair. apply Hh; [congruence|]. by apply Hf. Qed.

(** Renewing the references leaves the chunks alone. *)
Lemma ready_refs refs n h : ready n h -> ready n (put_refs refs h) /\ hoard_like h (put_refs refs h).
Proof.
  intros Hr. split.
  - intros Hd. destruct (Hr Hd) as ([(Hl & Hs & _) [] Hcs Hcry Hbf] & Hsound & Hroom). split; [|split]; [|exact Hsound|exact Hroom].
    split; try done.
  - split; [done|]. split; [done|]. intros _ [Hc Hio]. split; [by split|]. done.
Qed.

(** * The chunks *)

Section copy.
Context (s0 : uploading) (m p : gmap Z key_row) (t : gmap Z Z) (ver : Z).
Local Abbreviation pk0 := (up_pk s0).
Local Abbreviation d0 := (data (conn pk0)).
Local Abbreviation rows := (modified_rows m p t).
Context (Hm : main_keys d0 = Some m) (Hp : prev_keys d0 = Some p) (Hc : cache d0 = Some (mk_index ver (Some t))).
Context (Hnone : to_upload d0 = None) (Hmi : int_keys m).
Context (Hg : geometry pk0) (Hbytes : bytes (cache_content pk0)).
Context (Hparcel : h_parcel (up_hoard s0) = parcel pk0).
Context (Hper : is_u 32 (chunks_per_dir (parcel pk0))) (Hnz : chunks_per_dir (parcel pk0) <> 0).
Context (fs0 : list (option (sqlite_fault * bool))).

Local Abbreviation chunk_of r := (u32 (fst (fst r))).
Local Abbreviation tag_of r := (snd (fst r)).
Local Abbreviation len_of r := (u32 (default 0 (snd r))).

Definition path_of (r : Z * list Z * option Z) : option string := form_chunk_path (parcel pk0) (dest_dir s0) (chunk_of r).
Definition dir_of (r : Z * list Z * option Z) : string := chunk_dir (parcel pk0) (dest_dir s0) (chunk_of r).

Definition slot_of (r : Z * list Z * option Z) : list Z := slot pk0 (chunk_of r) (Z.to_nat (len_of r)).

(** The index and the cache file have the data of the chunk. *)
Record good (r : Z * list Z * option Z) : Prop := mk_good {
  gd_chunk : chunk_of r <= chunks (parcel pk0);
  gd_tag : Z.of_nat (length (tag_of r)) = hashlen (parcel pk0);
  gd_length : 0 < len_of r <= chunksize (parcel pk0);
  gd_covered : covered pk0 (chunk_of r) (len_of r);
  gd_intact : intact pk0 (chunk_of r) (len_of r) (tag_of r)
}.

(** The chunk is in its file in the upload directory, and in the hoard cache. *)
Definition uploaded (s : uploading) (r : Z * list Z * option Z) : Prop :=
  good r /\ hoarded (up_hoard s0) (up_hoard s) (tag_of r) /\
  exists path, path_of r = Some path /\ up_files s !! path = Some (slot_of r).

(** The file of a modified chunk. *)
Definition own (path : string) : Prop := exists r, r ∈ rows /\ path_of r = Some path.

Record base (s : uploading) : Prop := mk_base {
  b_pk : exists b l, up_pk s = set_io l (set_pkdb b pk0) /\ l `suffix_of` io pk0;
  b_dest : dest_dir s = dest_dir s0;
  b_dirs : up_dirs s = up_dirs s0;
  b_hoard : hoard_keeps (up_hoard s0) (up_hoard s);
  b_files path : ~ own path -> up_files s !! path = up_files s0 !! path
}.

(** Nothing but contention gets in the way, and the directories are there. *)
Definition steady : Prop :=
  Forall contention fs0 /\ io pk0 = [] /\
  (forall r, r ∈ rows -> dir_of r ∈ up_dirs s0 /\ forall path, path_of r = Some path -> ~ path ∈ up_dirs s0) /\
  (forall r, r ∈ rows -> 0 < len_of r <= chunksize (parcel pk0) -> covered pk0 (chunk_of r) (len_of r)).

Lemma base_stable : stable base.
Proof. intros b s [(b' & l & Hpk & Hl) ? ? ? ?]. split; try done. exists b, l. split; [|done]. simpl. by rewrite Hpk. Qed.

Lemma uploaded_stable r : stable (fun s => uploaded s r).
Proof. by intros b s. Qed.

(** ** Different chunks have different files *)

Lemma elem_of_rows r : r ∈ rows <->
  exists row, m !! r.1.1 = Some row /\ tag_differs p (r.1.1, row) = true /\ r.1.2 = kr_tag row /\ r.2 = t !! r.1.1.
Proof.
  unfold modified_rows. rewrite list_elem_of_fmap. split.
  - intros ([c row] & -> & [Hd Hin%elem_of_table_rows]%list_elem_of_filter). by exists row.
  - intros (row & Hrow & Hd & Ht & Ho). exists (r.1.1, row). destruct r as [[c tag] o]. simpl in *. subst. split; [done|].
    apply list_elem_of_filter. by rewrite elem_of_table_rows.
Qed.

Lemma rows_int r : r ∈ rows -> - 2 ^ 31 <= r.1.1 < 2 ^ 31.
Proof. intros (row & ? & _)%elem_of_rows. apply Hmi. eauto. Qed.

Lemma rows_chunk r r' : r ∈ rows -> r' ∈ rows -> chunk_of r = chunk_of r' -> r = r'.
Proof.
  intros Hr Hr' Heq. assert (r.1.1 = r'.1.1) as Hc1.
  { rewrite <- (s32_int r.1.1), <- (s32_int r'.1.1) by by apply rows_int. by rewrite Heq. }
  apply elem_of_rows in Hr as (row & Hrow & _ & Ht & Ho), Hr' as (row' & Hrow' & _ & Ht' & Ho').
  destruct r as [[c tag] o], r' as [[c' tag'] o']. simpl in *. subst. congruence.
Qed.

Lemma rows_nodup : NoDup rows.
Proof.
  unfold modified_rows. apply NoDup_fmap_2_strong; [|apply NoDup_filter, NoDup_table_rows].
  intros [c row] [c' row'] [_ H]%list_elem_of_filter [_ H']%list_elem_of_filter. rewrite elem_of_table_rows in H, H'.
  simpl. intros [= -> _ _]. congruence.
Qed.

Lemma path_defined r : exists path, path_of r = Some path.
Proof. unfold path_of, form_chunk_path. rewrite decide_False by done. eauto. Qed.

Lemma path_different r r' path : r ∈ rows -> r' ∈ rows -> path_of r = Some path -> path_of r' = Some path -> r = r'.
Proof.
  intros Hr Hr' H H'. apply rows_chunk; [done|done|].
  apply (form_chunk_path_injective (parcel pk0) (dest_dir s0) _ _ path); try done; unfold is_u, u32; apply Z.mod_pos_bound; lia.
Qed.

(** ** File operations *)

Definition same_but_io (s s' : uploading) : Prop :=
  get_db s' = get_db s /\ up_ret s' = up_ret s /\ up_hoard s' = up_hoard s /\ up_files s' = up_files s /\ up_dirs s' = up_dirs s.

Lemma up_next_io_eval {R} s :
  base s -> exists o s', (up_next_io : pk uploading R _) s = Some (inl o, s') /\ base s' /\ same_but_io s s' /\
    (steady -> o = None).
Proof.
  intros [(b & l & Hpk & Hl) ? ? ? ?]. unfold up_next_io. rewrite Hpk. cbn [set_io io].
  assert (steady -> l = []) as Hst. { intros (_ & Hio & _). rewrite Hio in Hl. by apply suffix_nil_inv in Hl. }
  destruct l as [|o rest].
  - eexists _, _. split; [done|]. split; [|by split]. split; try done. by exists b, [].
  - eexists _, _. split; [done|]. split; [|split; [|intros Hs; by apply Hst in Hs]].
    + split; try done. exists b, rest. split; [done|]. by eapply suffix_cons_l.
    + unfold same_but_io. cbn. by rewrite Hpk.
Qed.

Lemma up_io_ok_eval {R} s :
  base s -> exists ok s', (up_io_ok : pk uploading R _) s = Some (inl ok, s') /\ base s' /\ same_but_io s s' /\
    (steady -> ok = true).
Proof.
  intros Hb. destruct (up_next_io_eval (R:=R) s Hb) as (o & s' & Hr & Hb' & Hs & Hst). eexists _, _.
  split; [unfold up_io_ok; rewrite (bind_step _ _ _ _ _ Hr); done|]. split; [done|]. split; [done|].
  intros H. by rewrite (Hst H).
Qed.

(** As before, but for the file at [path] and the schedule. *)
Definition alike (path : string) (s s' : uploading) : Prop :=
  get_db s' = get_db s /\ up_ret s' = up_ret s /\ up_hoard s' = up_hoard s /\
  forall q, q <> path -> up_files s' !! q = up_files s !! q.

Lemma same_alike path s s' : same_but_io s s' -> alike path s s'.
Proof. intros (? & ? & ? & Hf & _). split_and!; try done. intros q _. by rewrite Hf. Qed.

Lemma alike_trans path s1 s2 s3 : alike path s1 s2 -> alike path s2 s3 -> alike path s1 s3.
Proof.
  intros (? & ? & ? & Hf) (? & ? & ? & Hf'). split_and!; try congruence. intros q Hq. by rewrite Hf', Hf.
Qed.

Lemma base_write s path data : base s -> own path -> base (set_up_files (<[path := data]> (up_files s)) s).
Proof.
  intros [] Hown. split; try done. intros q Hq. cbn. rewrite lookup_insert_ne; [by auto|]. by intros ->.
Qed.

Lemma alike_write s path data : alike path s (set_up_files (<[path := data]> (up_files s)) s).
Proof. split_and!; try done. intros q Hq. cbn. by rewrite lookup_insert_ne. Qed.

Lemma open_trunc_eval {R} r path s :
  base s -> r ∈ rows -> path_of r = Some path ->
  exists ok s', (open_trunc (dir_of r) path : pk uploading R _) s = Some (inl ok, s') /\ base s' /\ alike path s s' /\
    (steady -> ok = true).
Proof.
  intros Hb Hr Hpath. unfold open_trunc. destruct (up_io_ok_eval (R:=R) s Hb) as (ok & s1 & Hio & Hb1 & Hs1 & Hst).
  rewrite (bind_step _ _ _ _ _ Hio), bind_gets. apply (same_alike path) in Hs1. destruct (decide _) as [Hbad|Hok].
  - exists false, s1. split; [done|]. split; [done|]. split; [done|]. intros H. pose proof H as (_ & _ & Hdirs & _).
    destruct (Hdirs r Hr) as [Hd Hnd]. rewrite (b_dirs s1 Hb1) in Hbad. specialize (Hst H). specialize (Hnd path Hpath).
    by destruct Hbad as [?|[?|?]]; [congruence|..].
  - eexists _, _. split; [done|]. split; [by apply base_write; [|exists r]|]. split; [|done].
    eapply alike_trans; [exact Hs1|apply alike_write].
Qed.

Lemma write_file_eval {R} r path buf s :
  base s -> r ∈ rows -> path_of r = Some path ->
  exists n s', (write_file path buf : pk uploading R _) s = Some (inl (Z.of_nat n), s') /\ base s' /\ alike path s s' /\
    (n = length buf -> up_files s' !! path = Some buf) /\ (n <= length buf)%nat /\ (steady -> n = length buf).
Proof.
  intros Hb Hr Hpath. unfold write_file. destruct (up_next_io_eval (R:=R) s Hb) as (o & s1 & Hio & Hb1 & Hs1 & Hst).
  rewrite (bind_step _ _ _ _ _ Hio). apply (same_alike path) in Hs1. eexists _, _. split; [done|].
  split; [by apply base_write; [|exists r]|]. split; [eapply alike_trans; [exact Hs1|apply alike_write]|].
  split; [|split]; [|rewrite length_take; lia|].
  - intros Hn. cbn. rewrite lookup_insert_eq. f_equal. rewrite length_take in Hn. by rewrite take_ge by lia.
  - intros H. rewrite (Hst H). simpl. by rewrite take_ge by done.
Qed.

(** ** The loop *)

(** A chunk cannot be uploaded, and the cache is marked as damaged if its file can be written. *)
Definition flagged (s : uploading) : Prop :=
  (exists r, r ∈ rows /\ ~ good r) /\
  (cache_fd pk0 = true -> has_flag (flags (conf pk0)) WANT_LOCK = true -> cache_test_flag (up_pk s) CA_F_DAMAGED = true).

Record outcome (s : uploading) : Prop := mk_outcome {
  oc_hoard : hoard_keeps (up_hoard s0) (up_hoard s);
  oc_files path : ~ own path -> up_files s !! path = up_files s0 !! path;
  oc_result : up_ret s = 0 /\ Forall (uploaded s) rows \/ up_ret s = 1 /\ (steady -> flagged s)
}.

Lemma outcome_stable : stable outcome.
Proof. by intros b s []. Qed.

Definition at_start (k : nat) (s : uploading) : Prop :=
  base s /\ up_ret s = 1 /\ ready (length rows * S k) (up_hoard s).

Lemma at_start_stable k : stable (at_start k).
Proof. intros b s (? & ? & ?). split; [by apply base_stable|done]. Qed.

Definition copied (_ : ()) (s : uploading) : Prop := idle d0 (get_db s) /\ within fs0 (get_db s) /\ outcome s.

Section round.
Context (fs : list (option (sqlite_fault * bool))) (Hfs : fs `suffix_of` fs0).

Local Abbreviation leave := (round_exit d0 at_start copied (fun _ : () => outcome) fs).

Definition d1 : dbs := set_to_upload (Some rows) d0.

Definition on_row (rest : list (Z * list Z * option Z)) (d : dbs) (s : uploading) : Prop :=
  d = d1 /\ base s /\ up_ret s = 1 /\ ready (length rows * length fs + length rest) (up_hoard s) /\
  exists past, rows = past ++ rest /\ Forall (uploaded s) past.

Lemma on_row_stable rest d : stable (on_row rest d).
Proof. intros b s (? & ? & ? & ? & ?). split; [done|]. split; [by apply base_stable|done]. Qed.

(** Between two steps of the database. *)
Definition quiet (s : uploading) : Prop :=
  active d0 d1 (get_db s) /\ within fs (get_db s) /\ query_has_row (get_db s) = true.

Lemma quiet_leave s : quiet s -> outcome s -> leave (Goto_bad ()) s.
Proof.
  intros (Ha & Hw & Hrow) Ho. split; [by eapply active_broken|]. split; [done|]. split; [|done].
  unfold query_has_row, query_busy in *. apply bool_decide_eq_true in Hrow. by rewrite Hrow.
Qed.

Lemma gives_up s : base s -> up_ret s = 1 -> ~ steady -> outcome s.
Proof. intros [] Hret Hn. split; [done|done|]. by right. Qed.

Lemma damaged_ok r s :
  quiet s -> base s -> up_ret s = 1 -> r ∈ rows -> ~ good r ->
  exists s', damaged s = Some (inr (Goto_bad ()), s') /\ leave (Goto_bad ()) s'.
Proof.
  intros Hq Hb Hret Hr Hbad. unfold damaged, call, on_pk, cache_set_flag.
  destruct (cache_set_flags_spec (Z.lor (cache_flags (up_pk s)) CA_F_DAMAGED) (up_pk s))
    as (err & pk' & Hset & Hcn & Hcf & Hpar & Hfd & Hfl & Hok).
  eexists. split; [unfold mbind, pk_mbind, pk_bind; cbn; by rewrite Hset|].
  apply quiet_leave. { destruct Hq as (? & ? & ?). unfold quiet. cbn. by rewrite Hcn. }
  destruct Hb as [(b & l & Hpk & Hl) ? ? ? ?]. split; [done|done|]. right. split; [done|]. intros (_ & Hio & _).
  split; [by exists r|]. intros H1 H2. rewrite Hio in Hl. apply suffix_nil_inv in Hl. rewrite Hpk in Hok.
  destruct (Hok Hl H1 H2) as [-> _]. rewrite decide_True in Hfl by done. by eapply flag_set.
Qed.

Lemma quiet_same s s' : get_db s' = get_db s -> quiet s -> quiet s'.
Proof. unfold quiet. by intros ->. Qed.

(** Leaving because something failed. *)
Lemma failure_ok {A} s :
  quiet s -> base s -> up_ret s = 1 -> ~ steady -> forall QQ : A -> uploading -> Prop,
  exists r s', (goto_bad () : pk uploading () A) s = Some (r, s') /\ match r with inl a => QQ a s' | inr e => leave e s' end.
Proof. intros Hq Hb Hret Hn QQ. eexists _, _. split; [done|]. apply quiet_leave; [done|]. by apply gives_up. Qed.

(** The chunks before [r] stay where they are. *)
Lemma past_kept path r past rest s s' :
  rows = past ++ r :: rest -> path_of r = Some path -> base s -> hoard_keeps (up_hoard s) (up_hoard s') ->
  (forall q, q <> path -> up_files s' !! q = up_files s !! q) -> Forall (uploaded s) past -> Forall (uploaded s') past.
Proof.
  intros Hrows Hpath Hb Hh Hfiles. rewrite !Forall_forall. intros Hpast r' Hr'. destruct (Hpast r' Hr') as (Hgd & Hhd & q & Hq & Hf).
  split; [done|]. split; [by eapply hoarded_later; [apply Hb|..]|]. exists q. split; [done|]. rewrite Hfiles; [done|]. intros ->.
  pose proof rows_nodup as Hnd. rewrite Hrows in Hnd. apply NoDup_app in Hnd as (_ & Hnd & _). apply (Hnd r' Hr').
  rewrite (path_different r' r path); [by left|..|done|done]; rewrite Hrows; apply elem_of_app; [by left|right; by left].
Qed.

Lemma write_chunk_file_ok r rest s :
  quiet s -> good r -> on_row (r :: rest) d1 s ->
  exists x s', write_chunk_file (parcel pk0) (dest_dir s0) (chunk_of r) (len_of r) (tag_of r) (slot_of r) s = Some (x, s') /\
    match x with inl _ => at_data fs d0 d1 (on_row rest d1) s' | inr e => leave e s' end.
Proof.
  intros Hq Hgood (_ & Hb & Hret & Hready & past & Hrows & Hpast). destruct (path_defined r) as [path Hpath].
  assert (r ∈ rows) as Hr by (rewrite Hrows; apply elem_of_app; right; by left).
  assert (length (slot_of r) = Z.to_nat (len_of r)) as Hlen by apply (gd_covered r Hgood).
  pose proof (gd_length r Hgood) as Hl. pose proof (g_chunksize pk0 Hg) as Hcs.
  unfold write_chunk_file. unfold path_of in Hpath. rewrite Hpath. fold (path_of r) in Hpath. fold (dir_of r).
  destruct (open_trunc_eval (R:=()) r path s Hb Hr Hpath) as (ok & s1 & H1 & Hb1 & Ha1 & Hst1). rewrite (bind_step _ _ _ _ _ H1).
  assert (quiet s1 /\ up_ret s1 = 1) as [Hq1 Hret1] by (destruct Ha1 as (? & ? & _); split; [by eapply quiet_same|congruence]).
  destruct ok; cbn [negb]. 2:{ apply failure_ok; try done. intros H. by specialize (Hst1 H). }
  destruct (write_file_eval (R:=()) r path (slot_of r) s1 Hb1 Hr Hpath) as (n & s2 & H2 & Hb2 & Ha2 & Hf2 & Hn & Hst2).
  rewrite (bind_step _ _ _ _ _ H2). apply (alike_trans _ _ _ _ Ha1) in Ha2.
  assert (quiet s2 /\ up_ret s2 = 1) as [Hq2 Hret2] by (destruct Ha2 as (? & ? & _); split; [by eapply quiet_same|congruence]).
  pose proof (s32_int (len_of r) ltac:(lia)) as Hs32. rewrite (u32_id (len_of r)) in Hs32 by (unfold is_u; lia).
  rewrite Hs32. destruct (decide (Z.of_nat n <> len_of r)) as [Hne|Heq].
  { apply failure_ok; try done. intros H. specialize (Hst2 H). lia. }
  apply dec_stable in Heq. specialize (Hf2 ltac:(lia)).
  destruct (up_io_ok_eval (R:=()) s2 Hb2) as (ok & s3 & H3 & Hb3 & Hs3 & Hst3). rewrite (bind_step _ _ _ _ _ H3).
  assert (up_files s3 !! path = Some (slot_of r)) as Hf3 by (destruct Hs3 as (_ & _ & _ & -> & _); done).
  apply (same_alike path), (alike_trans _ _ _ _ Ha2) in Hs3.
  assert (quiet s3 /\ up_ret s3 = 1) as [Hq3 Hret3] by (destruct Hs3 as (? & ? & _); split; [by eapply quiet_same|congruence]).
  destruct ok; cbn [negb]. 2:{ apply failure_ok; try done. intros H. by specialize (Hst3 H). }
  destruct Hs3 as (_ & _ & Hh3 & Hothers). rewrite bind_gets, Hh3.
  destruct (put_ready (length rows * length fs + length rest) (up_hoard s) (tag_of r) (slot_of r))
    as (err & h' & Hput & Hready' & Hkeep & Hhd).
  { rewrite <- Nat.add_succ_r. exact Hready. } { apply bytes_range, Hbytes. }
  { intros Hdir. rewrite Hlen, Z2Nat.id by lia. split; [lia|]. transitivity (chunksize (parcel pk0)); [lia|].
    destruct (b_hoard s Hb) as [(Hpar & Hdir0 & _) _]. rewrite <- Hparcel, <- Hpar. destruct (Hready Hdir) as ([] & _). lia. }
  { apply (gd_intact r Hgood). }
  rewrite Hput. eexists _, _. split; [done|]. split; [apply Hq3|]. split; [apply Hq3|].
  assert (base (set_up_hoard h' s3)) as Hb4.
  { destruct Hb3. split; try done. cbn. eapply hoard_keeps_trans; [apply Hb|exact Hkeep]. }
  split; [done|]. split; [done|]. split; [done|]. split; [exact Hready'|]. exists (past ++ [r]).
  split; [by rewrite <- app_assoc|]. apply Forall_app. split; [|apply Forall_singleton].
  - eapply past_kept; [done|exact Hpath|exact Hb|exact Hkeep|exact Hothers|exact Hpast].
  - split; [done|]. split; [by eapply hoarded_shift; [apply Hb|]|]. by exists path.
Qed.

(** Reading the chunk from the cache file. *)
Lemma read_row {R} r s :
  base s -> Z.of_nat (length (tag_of r)) = hashlen (parcel pk0) -> 0 < len_of r <= chunksize (parcel pk0) ->
  exists err buf s', (call (on_pk (_cache_read_chunk (chunk_of r) (chunksize (parcel pk0)) (len_of r) (Some (tag_of r)))) :
      pk uploading R _) s = Some (inl (err, buf), s') /\
    base s' /\ get_db s' = get_db s /\ up_ret s' = up_ret s /\ up_hoard s' = up_hoard s /\ up_files s' = up_files s /\
    (err = PK_SUCCESS /\ buf = slot_of r /\ covered pk0 (chunk_of r) (len_of r) /\ intact pk0 (chunk_of r) (len_of r) (tag_of r) \/
     err = PK_TAGFAIL /\ ~ intact pk0 (chunk_of r) (len_of r) (tag_of r) \/
     err = PK_IOERR /\ (io pk0 = [] -> ~ covered pk0 (chunk_of r) (len_of r))).
Proof.
  intros [(b & l & Hpk & Hl) ? ? ? ?] Htag Hlen. rewrite (g_hashlen pk0 Hg) in Htag.
  destruct (read_tagged (up_pk s) (chunk_of r) (len_of r) (tag_of r)) as (err & buf & rest & Hr & Hsuf & Hcase & Hio).
  { rewrite Hpk. by destruct Hg. } { rewrite Hpk. exact Hbytes. } { rewrite Hpk. cbn. lia. } { lia. }
  rewrite Hpk in Hr, Hsuf, Hcase, Hio. cbn [set_io set_pkdb parcel io] in Hr, Hsuf, Hio. eexists err, buf, _.
  split; [unfold call, on_pk; cbn [get_pk uploading_has_pk]; rewrite Hpk; rewrite Hr; done|].
  split. { split; try done. exists b, rest. split; [done|]. by etransitivity. }
  split; [cbn; by rewrite Hpk|]. split; [done|]. split; [done|]. split; [done|].
  destruct Hcase as [(-> & -> & ? & ?)|[(-> & _ & ?)| ->]]; [by left|by right; left|]. right. right. split; [done|].
  intros Hio0 Hcov. rewrite Hio0 in Hl. apply suffix_nil_inv in Hl. by apply Hio.
Qed.

Lemma upload_row_ok r rest d :
  triple (fun s => at_data fs d0 d (on_row (r :: rest) d) s /\ query_has_row (get_db s) = true) (upload_row r)
    (fun _ s => exists d', at_data fs d0 d' (on_row rest d') s) leave.
Proof.
  intros s ((Ha & Hw & Hon) & Hrow). pose proof Hon as (-> & Hb & Hret & Hready & past & Hrows & Hpast).
  assert (quiet s) as Hq by done. assert (r ∈ rows) as Hr by (rewrite Hrows; apply elem_of_app; right; by left).
  assert (parcel (up_pk s) = parcel pk0) as Hpar by (destruct (b_pk s Hb) as (b & l & -> & _); done).
  unfold upload_row. rewrite !bind_gets, Hpar, (b_dest s Hb). cbv zeta.
  destruct (decide (_ > _)) as [Hbad|Hnum]; [|destruct (decide (Z.of_nat _ <> _)) as [Hbad|Htag];
    [|destruct (decide (len_of r = 0)) as [Hbad|Hne]; [|destruct (decide (len_of r > _)) as [Hbad|Hmax]]]].
  1-4: destruct (damaged_ok r s) as (s' & Hd & Hl); [done..|intros []; lia|]; rewrite Hd; eauto.
  apply dec_stable in Htag.
  assert (0 < len_of r <= chunksize (parcel pk0)) as Hlen by (pose proof (Z.mod_pos_bound (default 0 r.2) (2 ^ 32)); unfold u32 in *; lia).
  destruct (read_row (R:=()) r s Hb Htag Hlen) as (err & buf & s1 & H1 & Hb1 & Hdb1 & Hret1 & Hh1 & Hf1 & Hcase).
  rewrite (bind_step _ _ _ _ _ H1). rewrite <- Hret1 in Hret. pose proof (quiet_same _ _ Hdb1 Hq) as Hq1.
  destruct Hcase as [(-> & -> & Hcov & Hint)|[(-> & Hbad)|(-> & Hbad)]].
  - rewrite decide_False, decide_False by (intros H; by try apply H).
    destruct (write_chunk_file_ok r rest s1) as (x & s2 & H2 & Hpost); [done|split; [lia|done..]| |].
    { split; [done|]. split; [done|]. split; [done|]. rewrite Hh1. split; [done|]. exists past. split; [done|].
      eapply Forall_impl; [exact Hpast|]. intros r' (? & Hhd & q & Hq' & Hf). split; [done|]. unfold hoarded. rewrite Hh1, Hf1. eauto. }
    rewrite H2. eexists _, _. split; [done|]. destruct x; [by eexists|done].
  - rewrite decide_True by done. destruct (damaged_ok r s1) as (s' & Hd & Hl); [done..|by intros []|]. rewrite Hd. eauto.
  - rewrite decide_False, decide_True by done. apply failure_ok; try done. intros (_ & Hio & _ & Hcov). by apply Hbad, Hcov.
Qed.

(** ** The transaction *)

Lemma not_steady : ~ Forall contention fs -> ~ steady.
Proof. intros Hn [Hcont _]. by eapply contention_suffix. Qed.

Lemma statement_failed n P s :
  (length rows * length fs <= n)%nat -> (forall s, P s -> base s /\ up_ret s = 1 /\ ready n (up_hoard s)) ->
  failed fs d0 P s -> leave (Goto_bad ()) s.
Proof.
  intros Hn HP (Hb & Hw & Hs & Hcont). destruct (HP s Hs) as (Hbase & Hret & Hready). split; [done|]. split; [done|]. split.
  - intros _ k Hk. split; [done|]. split; [done|]. eapply ready_less; [|exact Hready]. nia.
  - intros Hbusy. apply gives_up; [done|done|]. by apply not_steady, Hcont.
Qed.

Lemma upload_end s :
  rows_done fs d0 on_row s ->
  exists s', (ok ← gets (fun s => query_ok (get_db s)); _ ← (if ok : bool then modify (set_up_ret 0) else pk_ret ());
    (goto_bad () : pk uploading () ())) s = Some (inr (Goto_bad ()), s') /\ leave (Goto_bad ()) s'.
Proof.
  intros [Hw Hdone]. rewrite bind_gets. destruct (query_ok (get_db s)) eqn:Hok.
  - destruct Hdone as (d & Ha & _ & Hb & Hret & _ & past & Hrows & Hpast). eexists. split; [done|].
    rewrite app_nil_r in Hrows. subst past. split; [by eapply active_broken|]. split; [done|].
    change (get_db (set_up_ret 0 s)) with (get_db s).
    assert (query_busy (get_db s) = false) as ->.
    { unfold query_ok, query_busy in *. apply bool_decide_eq_true in Hok. by rewrite Hok. }
    split; [done|]. intros _. destruct Hb. split; [done|done|]. by left.
  - destruct Hdone as (Hb & (rest & d & _ & Hbase & Hret & Hready & _) & Hn). eexists. split; [done|].
    eapply (statement_failed _ (fun s => base s /\ up_ret s = 1 /\ ready _ (up_hoard s))); [|done|by split_and!]. lia.
Qed.

Lemma upload_body_ok :
  triple (fun s => idle d0 (get_db s) /\ within fs (get_db s) /\ at_start (length fs) s) upload_body copied leave.
Proof.
  assert (forall s, failed fs d0 (at_start (length fs)) s -> leave (Goto_bad ()) s) as Hfail.
  { intros s. apply (statement_failed (length rows * S (length fs))); [nia|done]. }
  unfold upload_body. apply (begin_step fs d0).
  - apply at_start_stable.
  - intros s Hi Hw (Hb & Hret & _) Hn. split; [done|]. split; [by eapply within_trans|]. apply gives_up; [done|done|]. by apply not_steady.
  - unfold upload_steps. apply (any_stmt_step fs d0 (Goto_bad ()) d0 d1 []); [|apply at_start_stable|done|].
    { unfold sql_create_to_upload, chunk_table. by rewrite Hnone, Hm, Hp, Hc. }
    eapply (one_row_step fs d0 (Goto_bad ()) d1 _ []); [done|apply at_start_stable|done|].
    eapply triple_bind.
    { eapply triple_pre; [apply (for_each_row fs d0 on_row on_row_stable sql_select_to_upload upload_row d1 d1 rows)|]; [done| |].
      - apply upload_row_ok.
      - intros s (Ha & Hw & Hb & Hret & Hready). split; [done|]. split; [done|]. split; [done|]. split; [done|]. split; [done|].
        split; [|by exists []]. eapply ready_less; [|exact Hready]. nia. }
    intros a s Hdone. destruct (upload_end s Hdone) as (s' & Hx & Hpost). rewrite Hx. eauto.
Qed.
End round.

Lemma upload_transaction_ok s :
  idle d0 (get_db s) -> faults (get_db s) = fs0 -> at_start (length fs0) s ->
  exists a s', transaction upload_body s = Some (a, s') /\ copied a s'.
Proof.
  intros Hi Hf Hs. destruct (transaction_rounds d0 at_start copied (fun _ : () => outcome) fs0 upload_body s) as (a & s' & Hr & Hpost).
  - intros fs Hfs. by apply upload_body_ok.
  - apply at_start_stable.
  - intros a. apply outcome_stable.
  - done.
  - rewrite <- Hf. apply within_refl.
  - by rewrite Hf.
  - exists a, s'. split; [done|]. by destruct Hpost as [?|?].
Qed.
End copy.

(** * The directories *)

Lemma fmt_4d_small n : n < 2 ^ 31 -> fmt_4d n = fmt_4u n.
Proof. intros Hn. unfold fmt_4d. by rewrite decide_True. Qed.

(** No directory has the name of the file of a chunk. *)
Lemma path_not_dir p dest c path :
  is_u 32 c -> is_u 32 (chunks_per_dir p) -> form_chunk_path p dest c = Some path ->
  path <> dest /\ forall d, 0 <= d < 2 ^ 31 -> path <> numbered_dir dest d.
Proof.
  intros Hc Hd Hpath. unfold form_chunk_path in Hpath. destruct (decide _) as [|Hz]; [done|]. injection Hpath as <-.
  unfold is_u in *. assert (is_u 32 (c / chunks_per_dir p)) as Hq.
  { split; [apply Z.div_pos; lia|]. apply Z.div_lt_upper_bound; nia. }
  split.
  - intros Heq. rewrite <- (string_app_nil dest) in Heq at 2. by apply string_app_inv in Heq.
  - intros d Hd' Heq. unfold numbered_dir in Heq. rewrite fmt_4d_small in Heq by lia.
    apply string_app_inv, (string_app_inv "/"), (f_equal (read_digits 0)) in Heq.
    rewrite <- (string_app_nil (fmt_4u d)) in Heq. rewrite !read_fmt_4u in Heq by (done || unfold is_u; lia). discriminate.
Qed.

(** A directory that make_upload_dirs makes. *)
Definition wanted_dir (p : pk_parcel) (dest path : string) : Prop :=
  path = dest \/ exists d, 0 <= d < numdirs p /\ path = numbered_dir dest d.

(** Only directories that are wanted are made; nothing else but the schedule changes. *)
Definition made (W : string -> Prop) (s s' : uploading) : Prop :=
  exists D l, s' = set_up_dirs D (set_up_pk (set_io l (up_pk s)) s) /\ l `suffix_of` io (up_pk s) /\
    up_dirs s ⊆ D /\ forall path, path ∈ D -> path ∈ up_dirs s \/ W path.

(** No operation fails, and no file is where a directory is wanted. *)
Definition clear (W : string -> Prop) (s : uploading) : Prop :=
  io (up_pk s) = [] /\ forall path, W path -> up_files s !! path = None.

Lemma made_refl W s : made W s s.
Proof. exists (up_dirs s), (io (up_pk s)). split; [by destruct s as [[]]|]. split; [done|]. split; [done|]. by left. Qed.

Lemma made_trans W s1 s2 s3 : made W s1 s2 -> made W s2 s3 -> made W s1 s3.
Proof.
  intros (D & l & -> & Hl & Hsub & HW) (D' & l' & -> & Hl' & Hsub' & HW'). exists D', l'. cbn in *.
  split; [done|]. split; [by etransitivity|]. split; [by etransitivity|]. intros path Hp.
  destruct (HW' path Hp) as [?|?]; [by apply HW|by right].
Qed.

Lemma made_clear W s s' : made W s s' -> clear W s -> clear W s'.
Proof.
  intros (D & l & -> & Hl & _) [Hio Hfiles]. split; [|exact Hfiles]. cbn. rewrite Hio in Hl. by apply suffix_nil_inv in Hl.
Qed.

Lemma make_dir_ok W path :
  W path -> forall s, exists x s', make_dir path s = Some (x, s') /\ made W s s' /\
    (if x is inl _ then path ∈ up_dirs s' else x = inr (Return PK_IOERR) /\ ~ clear W s).
Proof.
  intros HW s. unfold make_dir. rewrite bind_gets. case_decide as Hin.
  { eexists _, _. split; [done|]. split; [apply made_refl|done]. }
  unfold mkdir, up_io_ok, up_next_io, mbind, pk_mbind, pk_bind, gets, pk_ret, modify.
  destruct (io (up_pk s)) as [|o rest] eqn:Hio.
  - rewrite bool_decide_true by done. case_decide as Hbad.
    + eexists _, _. split; [done|]. split; [apply made_refl|]. split; [done|]. intros [_ Hf]. specialize (Hf path HW).
      destruct Hbad as [?|[?|[x Hx]]]; [done|done|congruence].
    + eexists _, _. split; [done|]. split; [|cbn; set_solver]. exists ({[path]} ∪ up_dirs s), []. split; [|split; [by rewrite Hio|]].
      * destruct s as [[] ]. cbn in *. by rewrite Hio.
      * split; [set_solver|]. intros q [->%elem_of_singleton|?]%elem_of_union; auto.
  - case_decide as Hbad.
    + eexists _, _. split; [done|]. split; [|by split; [|intros [? _]; congruence]].
      exists (up_dirs s), rest. split; [by destruct s|]. split; [rewrite Hio; by apply suffix_cons_r|]. split; [done|]. by left.
    + eexists _, _. split; [done|]. split; [|cbn; set_solver]. exists ({[path]} ∪ up_dirs s), rest. split; [by destruct s|].
      split; [rewrite Hio; by apply suffix_cons_r|]. split; [cbn; set_solver|].
      intros q [->%elem_of_singleton|?]%elem_of_union; auto.
Qed.

Lemma make_numbered_ok W n dest : forall dir,
  (forall d, dir <= d < dir + Z.of_nat n -> W (numbered_dir dest d)) ->
  forall s, exists x s', make_numbered n dest dir s = Some (x, s') /\ made W s s' /\
    (if x is inl _ then forall d, dir <= d < dir + Z.of_nat n -> numbered_dir dest d ∈ up_dirs s'
     else x = inr (Return PK_IOERR) /\ ~ clear W s).
Proof.
  induction n as [|n IH]; intros dir HW s.
  { eexists _, _. split; [done|]. split; [apply made_refl|]. intros d. lia. }
  cbn [make_numbered]. destruct (make_dir_ok W (numbered_dir dest dir)) with (s := s) as (x & s1 & H1 & Hm1 & Hx); [apply HW; lia|].
  destruct x as [a|e]; [|destruct Hx as [[= ->] Hn]; eexists _, _; split; [unfold mbind, pk_mbind, pk_bind; by rewrite H1|done]].
  rewrite (bind_step _ _ _ _ _ H1). destruct (IH (dir + 1)) with (s := s1) as (x & s2 & H2 & Hm2 & Hx2); [intros d Hd; apply HW; lia|].
  exists x, s2. split; [done|]. split; [by eapply made_trans|]. destruct x as [b|e].
  - intros d Hd. destruct (decide (d = dir)) as [->|Hne]; [|apply Hx2; lia].
    destruct Hm2 as (D & l & -> & _ & Hsub & _). by apply Hsub.
  - destruct Hx2 as [[= ->] Hn]. split; [done|]. intros Hc. by eapply Hn, made_clear.
Qed.

Lemma make_upload_dirs_ok s :
  let p := parcel (up_pk s) in let W := wanted_dir p (dest_dir s) in
  chunks_per_dir p <> 0 ->
  exists err s', make_upload_dirs s = Some (err, s') /\ made W s s' /\
    (if decide (err = PK_SUCCESS) then forall path, W path -> path ∈ up_dirs s' else ~ clear W s).
Proof.
  intros p W Hnz. unfold make_upload_dirs, body. rewrite bind_gets.
  destruct (make_dir_ok W (dest_dir s)) with (s := s) as (x & s1 & H1 & Hm1 & Hx); [by left|].
  destruct x as [a|e]; [|destruct Hx as [[= ->] Hn]; eexists _, _; split; [unfold mbind, pk_mbind, pk_bind; by rewrite H1|done]].
  rewrite (bind_step _ _ _ _ _ H1), bind_gets.
  assert (parcel (up_pk s1) = p) as -> by (destruct Hm1 as (D & l & -> & _); done).
  unfold defined. rewrite decide_True by done. rewrite bind_ret.
  destruct (make_numbered_ok W (Z.to_nat (numdirs p)) (dest_dir s) 0) with (s := s1) as (x & s2 & H2 & Hm2 & Hx2).
  { intros d Hd. right. exists d. split; [lia|done]. }
  pose proof (made_trans _ _ _ _ Hm1 Hm2) as Hm.
  destruct x as [b|e].
  - rewrite (bind_step _ _ _ _ _ H2). eexists _, _. split; [done|]. split; [done|]. rewrite decide_True by done.
    intros path [->|(d & Hd & ->)]; [|apply Hx2; lia]. destruct Hm2 as (D & l & -> & _ & Hsub & _). by apply Hsub.
  - destruct Hx2 as [[= ->] Hn]. eexists _, _. split; [unfold mbind, pk_mbind, pk_bind; by rewrite H2|]. split; [done|].
    intros Hc. by eapply Hn, made_clear.
Qed.

(** * The references and the vacuum *)

(** Nothing but the connection and the references of the hoard cache has changed. *)
(** The references in the hoard cache: those that were there, and perhaps, for this parcel, those to the
    chunks of its current keyring. *)
Definition refs_renewed (s : uploading) (refs : list (Z * list Z)) : Prop :=
  refs = hd_refs (hidx (up_hoard s)) \/
  forall p t, (p, t) ∈ refs <->
    (p, t) ∈ hd_refs (hidx (up_hoard s)) \/ p = hoard_ident s /\ t ∈ key_tags (main_keys (data (conn (up_pk s)))).

Definition renewed (s s' : uploading) : Prop :=
  exists b refs, s' = set_up_hoard (put_refs refs (up_hoard s)) (set_up_pk (set_pkdb b (up_pk s)) s) /\ refs_renewed s refs.

Lemma hoard_sync_refs_off ident new b : hoard_sync_refs false ident new b = Some (PK_SUCCESS, b).
Proof. done. Qed.

Lemma sync_refs_ok s :
  idle (data (conn (up_pk s))) (conn (up_pk s)) ->
  exists err s', sync_refs true s = Some (err, s') /\ renewed s s' /\ idle (data (conn (up_pk s))) (get_db s') /\
    within (faults (conn (up_pk s))) (get_db s') /\
    (err <> PK_SUCCESS -> ~ Forall contention (faults (conn (up_pk s)))).
Proof.
  intros (Hl & Hs & _). unfold sync_refs. set (b := conn (up_pk s)) in *. set (refs := hd_refs (data (hoard (up_hoard s)))).
  assert (forall err b', faults b' `suffix_of` faults b -> locked b' = false -> refs_renewed s (rd_refs (data b')) ->
    (err <> PK_SUCCESS -> ~ Forall contention (faults b)) ->
    exists err' s', (Some (err, set_up_hoard (put_refs (rd_refs (data b')) (up_hoard s))
      (set_up_pk (set_pkdb (back_conn b b') (up_pk s)) s))) = Some (err', s') /\ renewed s s' /\ idle (data b) (get_db s') /\
      within (faults b) (get_db s') /\ (err' <> PK_SUCCESS -> ~ Forall contention (faults b))) as Hend.
  { intros err b' Hf Hlk Hren Herr. eexists _, _. split; [done|]. split; [by eexists _, _|]. by split_and!. }
  destruct (hoard_dir (up_hoard s)).
  - destruct (sync_refs_spec (hoard_ident s) true (refs_view refs (data b)) (refs_conn refs b)) as (err & b' & -> & Hw & Hcase);
      [by split_and!; cbn; rewrite ?Hs|done|].
    cbn [mbind option_bind]. apply Hend; [exact Hw| | |].
    + by destruct Hcase as [(_ & d' & (? & _) & _)|(_ & (? & _) & _)].
    + destruct Hcase as [(_ & d' & Hi & (_ & _ & _ & _ & Hrefs))|(_ & Hi & _)]; rewrite (idle_data _ _ Hi); [right|by left].
      intros p t. rewrite Hrefs. cbn [wanted rd_keys rd_refs refs_view]. case_decide as Hc.
      * split; [intros [?|[_ ?]]; [by right|by left]|]. intros [?|[_ ?]]; [by right|by left].
      * split; [by left|]. by intros [?|[? _]].
    + by destruct Hcase as [(-> & _)|(_ & _ & Hn)].
  - rewrite hoard_sync_refs_off. cbn [mbind option_bind]. apply Hend; [done..|by left|done].
Qed.

Lemma upload_vacuum_ok s :
  idle (data (conn (up_pk s))) (conn (up_pk s)) ->
  exists ok b, upload_vacuum s = Some (ok, set_db b s) /\ idle (data (conn (up_pk s))) b /\ within (faults (conn (up_pk s))) b /\
    (ok = false -> ~ Forall contention (faults (conn (up_pk s)))).
Proof.
  intros Hi. unfold upload_vacuum.
  destruct (vacuum_spec (faults (conn (up_pk s))) _ _ Hi (within_refl _)) as (ok & b & -> & ? & ? & ?). by exists ok, b.
Qed.

(** * The whole of copy_for_upload *)

Definition dirs_wanted (s : uploading) : string -> Prop := wanted_dir (parcel (up_pk s)) (dest_dir s).

(** When the transaction begins: directories may have been made, and the references renewed. *)
Definition prepared (s s' : uploading) : Prop :=
  exists D l b refs,
    s' = set_up_ret 1 (set_up_dirs D (set_up_hoard (put_refs refs (up_hoard s)) (set_up_pk (set_pkdb b (set_io l (up_pk s))) s))) /\
    l `suffix_of` io (up_pk s) /\ (forall path, path ∈ D -> path ∈ up_dirs s \/ dirs_wanted s path) /\
    idle (data (conn (up_pk s))) b /\ within (faults (conn (up_pk s))) b /\ refs_renewed s refs.

Lemma put_refs_same h : put_refs (hd_refs (data (hoard h))) h = h.
Proof. by destruct h as [[] ? [[]]]. Qed.

Lemma made_prepared s s' :
  idle (data (conn (up_pk s))) (conn (up_pk s)) -> made (dirs_wanted s) (set_up_ret 1 s) s' -> prepared s s'.
Proof.
  intros Hi (D & l & -> & Hl & _ & HW). exists D, l, (conn (up_pk s)), (hd_refs (data (hoard (up_hoard s)))). rewrite put_refs_same.
  split; [by destruct s as [[]]|]. split; [done|]. split; [done|]. split; [done|]. split; [apply within_refl|by left].
Qed.

Lemma prepared_renewed s s1 s2 :
  prepared s s1 -> renewed s1 s2 -> idle (data (conn (up_pk s))) (get_db s2) -> within (faults (conn (up_pk s))) (get_db s2) ->
  prepared s s2.
Proof.
  intros (D & l & b & refs & -> & Hl & HD & Hi0 & _ & Hr) (b' & refs' & -> & Hr') Hi Hw. exists D, l, b', refs'.
  split_and!; try done. unfold refs_renewed in *. cbn in Hr'. rewrite (idle_data _ _ Hi0) in Hr'.
  destruct Hr' as [->|Hr']; [done|]. right. intros p t. rewrite Hr'. destruct Hr as [->|Hr]; [done|]. rewrite Hr. tauto.
Qed.

Lemma prepared_db s s1 b :
  prepared s s1 -> idle (data (conn (up_pk s))) b -> within (faults (conn (up_pk s))) b -> prepared s (set_db b s1).
Proof. intros (D & l & b0 & refs & -> & Hl & HD & _ & _ & Hr) Hi Hw. exists D, l, b, refs. by split_and!. Qed.

(** What comes before the transaction. *)
Lemma copy_prepares s :
  idle (data (conn (up_pk s))) (conn (up_pk s)) -> chunks_per_dir (parcel (up_pk s)) <> 0 ->
  cache_test_flag (up_pk s) CA_F_DAMAGED = false -> cache_test_flag (up_pk s) CA_F_DIRTY = false ->
  exists s', prepared s s' /\
    (copy_for_upload s = Some (1, s') /\ ~ (clear (dirs_wanted s) s /\ Forall contention (faults (conn (up_pk s)))) \/
     copy_for_upload s = ('(_, s2) ← transaction upload_body s'; Some (up_ret s2, s2)) /\
     forall path, dirs_wanted s path -> path ∈ up_dirs s').
Proof.
  intros Hi Hnz Hdam Hdir. unfold copy_for_upload. change (up_pk (set_up_ret 1 s)) with (up_pk s). rewrite Hdam, Hdir.
  destruct (make_upload_dirs_ok (set_up_ret 1 s) Hnz) as (err & s1 & -> & Hm & Herr). cbn [mbind option_bind].
  pose proof (made_prepared s s1 Hi Hm) as Hp1. destruct (decide (err = PK_SUCCESS)) as [->|Hne].
  2:{ rewrite decide_True by done. exists s1. split; [done|]. left. split; [done|]. by intros [? _]. }
  rewrite decide_False by (by intros H; apply H).
  assert (idle (data (conn (up_pk s))) (conn (up_pk s1)) /\ conn (up_pk s1) = conn (up_pk s)) as [Hi1 Hcn1]
    by (destruct Hm as (D & l & -> & _); done).
  destruct (sync_refs_ok s1) as (err & s2 & -> & Hren & Hi2 & Hw2 & Hn2); [by rewrite Hcn1|]. cbn [mbind option_bind].
  rewrite Hcn1 in Hi2, Hw2, Hn2. pose proof (prepared_renewed s s1 s2 Hp1 Hren Hi2 Hw2) as Hp2.
  destruct (decide (err <> PK_SUCCESS)) as [Hne|_].
  { exists s2. split; [done|]. left. split; [done|]. intros [_ ?]. by apply Hn2. }
  pose proof (idle_data _ _ Hi2) as Hd2. destruct (upload_vacuum_ok s2) as (ok & b & -> & Hib & Hwb & Hn3); [by rewrite <- Hd2 in Hi2|].
  cbn [mbind option_bind]. change (conn (up_pk s2)) with (get_db s2) in *. rewrite Hd2 in Hib.
  assert (prepared s (set_db b s2)) as Hp3 by (apply prepared_db; [done|done|by eapply within_trans]).
  destruct ok; cbn [negb].
  2:{ eexists. split; [done|]. left. split; [done|]. intros [_ Hcont]. apply Hn3; [done|]. by eapply within_contention. }
  eexists. split; [done|]. right. split; [done|]. intros path HW. destruct Hren as (b' & refs & -> & _). by apply Herr.
Qed.

(** What copy_for_upload is given: an open cache with its previous version, and, if there is a hoard cache,
    one with room for the modified chunks, however often the transaction is started again. *)
Record to_send (s : uploading) (m p : gmap Z key_row) (t : gmap Z Z) (ver : Z) : Prop := mk_to_send {
  ts_cache : to_check (up_pk s) m p t ver;
  ts_free : to_upload (data (conn (up_pk s))) = None;
  ts_parcel : h_parcel (up_hoard s) = parcel (up_pk s);
  ts_per_dir : 0 < chunks_per_dir (parcel (up_pk s));
  ts_dirs : chunks (parcel (up_pk s)) + chunks_per_dir (parcel (up_pk s)) < 2 ^ 32;
  ts_hoard : ready (length (modified_rows m p t) * S (length (faults (conn (up_pk s))))) (up_hoard s)
}.

(** A chunk whose tag is not that of the previous version. *)
Definition modified (m p : gmap Z key_row) (c : Z) (row : key_row) : Prop :=
  m !! c = Some row /\ tag_differs p (c, row) = true.

(** The cache has the chunk, and its data is that of its tag. *)
Definition sendable (s : pk_state) (t : gmap Z Z) (c : Z) (row : key_row) : Prop :=
  u32 c <= chunks (parcel s) /\ Z.of_nat (length (kr_tag row)) = hashlen (parcel s) /\
  exists n, t !! c = Some n /\ 0 < u32 n <= chunksize (parcel s) /\ covered s (u32 c) (u32 n) /\
    intact s (u32 c) (u32 n) (kr_tag row).

Definition file_of (s : uploading) (c : Z) : option string := form_chunk_path (parcel (up_pk s)) (dest_dir s) (u32 c).

(** Its data is in its file in the upload directory, and in the hoard cache. *)
Definition sent (s s' : uploading) (c : Z) (row : key_row) : Prop :=
  (exists path data, file_of s c = Some path /\ up_files s' !! path = Some data /\ Fips180.sha1 data = kr_tag row) /\
  hoarded (up_hoard s) (up_hoard s') (kr_tag row).

(** Nothing but contention gets in the way: no operation fails, nothing else has the name of a directory or
    of a chunk's file, and the numbers of the modified chunks are those of chunks, whose data can be read. *)
Definition undisturbed (s : uploading) (m p : gmap Z key_row) (t : gmap Z Z) : Prop :=
  Forall contention (faults (conn (up_pk s))) /\ clear (dirs_wanted s) s /\ all_covered (up_pk s) t /\
  forall c row, modified m p c row -> u32 c < chunks (parcel (up_pk s)) /\
    forall path, file_of s c = Some path -> ~ path ∈ up_dirs s.

Section whole.
Context (s : uploading) (m p : gmap Z key_row) (t : gmap Z Z) (ver : Z) (Hs : to_send s m p t ver).

Local Abbreviation row_of c row := (c, kr_tag row, t !! c).

Lemma row_of_modified c row : modified m p c row -> row_of c row ∈ modified_rows m p t.
Proof. intros [Hc Hd]. apply (elem_of_rows m p t (c, kr_tag row, t !! c)). by exists row. Qed.

Lemma modified_row_of r : r ∈ modified_rows m p t -> exists row, modified m p r.1.1 row /\ r = row_of r.1.1 row.
Proof.
  intros (row & Hc & Hd & Ht & Ho)%elem_of_rows. exists row. split; [done|]. destruct r as [[c tag] o]. simpl in *. by subst.
Qed.

Lemma good_sendable s0 c row :
  parcel (up_pk s0) = parcel (up_pk s) -> (forall c n, slot (up_pk s0) c n = slot (up_pk s) c n) ->
  good s0 (row_of c row) <-> sendable (up_pk s) t c row.
Proof.
  intros Hpar Hslot. split.
  - intros [Hn Ht Hl Hcov Hint]. unfold covered, intact in *. simpl in *. rewrite Hpar in *. rewrite Hslot in Hcov, Hint.
    split; [done|]. split; [done|]. destruct (t !! c) as [n|]; [|change (u32 (default 0 None)) with 0 in Hl; lia]. by exists n.
  - intros (? & ? & n & Hn & ? & ? & ?). split; unfold covered, intact in *; simpl; rewrite ?Hn, ?Hpar, ?Hslot; done.
Qed.

Definition refused_chunk : Prop := exists c row, modified m p c row /\ ~ sendable (up_pk s) t c row.

(** What is left behind, however it ends: the databases of the local cache as they were, the hoard cache in
    order and, if nothing but contention got in the way there, with all chunks that it had, the references of other
    parcels as they were and those of this one perhaps more; other files as they were. *)
Definition hoard_left (s' : uploading) : Prop :=
  (hoard_dir (up_hoard s) = true ->
     usable (up_hoard s') /\ sound (hidx (up_hoard s')) (hoard_file (up_hoard s')) /\
     (hoard_fair (up_hoard s) -> forall t, indexed (hidx (up_hoard s)) t -> indexed (hidx (up_hoard s')) t)) /\
  refs_renewed s (hd_refs (hidx (up_hoard s'))).

Definition left_behind (s' : uploading) : Prop :=
  idle (data (conn (up_pk s))) (get_db s') /\ hoard_left s' /\
  forall path, (forall c row, modified m p c row -> file_of s c <> Some path) -> up_files s' !! path = up_files s !! path.

Lemma chunk_dir_wanted c : 0 <= u32 c < chunks (parcel (up_pk s)) -> dirs_wanted s (chunk_dir (parcel (up_pk s)) (dest_dir s) (u32 c)).
Proof.
  intros Hc. right. pose proof (ts_per_dir _ _ _ _ _ Hs) as Hd. pose proof (ts_dirs _ _ _ _ _ Hs) as Hn.
  pose proof (tc_chunks _ _ _ _ _ (ts_cache _ _ _ _ _ Hs)) as Hmax.
  set (n := chunks (parcel (up_pk s))) in *. set (d := chunks_per_dir (parcel (up_pk s))) in *.
  assert (numdirs (parcel (up_pk s)) = (n + d - 1) / d) as Hnum.
  { unfold numdirs. fold n d. rewrite (u32_id (n + d)) by (unfold is_u; lia). by rewrite u32_id by (unfold is_u; lia). }
  exists (u32 c / d). split.
  - rewrite Hnum. split; [apply Z.div_pos; lia|]. apply Z.div_lt_upper_bound; [done|].
    pose proof (Z.div_mod (n + d - 1) d ltac:(lia)). pose proof (Z.mod_pos_bound (n + d - 1) d ltac:(lia)). nia.
  - unfold chunk_dir, numbered_dir. fold d. rewrite fmt_4d_small; [done|]. apply Z.div_lt_upper_bound; [done|]. nia.
Qed.

Lemma file_not_wanted c path : file_of s c = Some path -> ~ dirs_wanted s path.
Proof.
  pose proof (ts_per_dir _ _ _ _ _ Hs) as Hd. pose proof (ts_dirs _ _ _ _ _ Hs) as Hn.
  pose proof (tc_chunks _ _ _ _ _ (ts_cache _ _ _ _ _ Hs)) as Hmax. pose proof (g_chunks _ (tc_geometry _ _ _ _ _ (ts_cache _ _ _ _ _ Hs))) as Hu.
  unfold is_u in Hu. intros Hpath. destruct (path_not_dir (parcel (up_pk s)) (dest_dir s) (u32 c) path (is_u32_u32 c) ltac:(unfold is_u; lia) Hpath) as [H1 H2].
  intros [?|(d & Hd2 & ?)]; [done|]. apply (H2 d); [|done]. split; [lia|]. revert Hd2. unfold numdirs. rewrite !u32_id by (unfold is_u; rewrite ?u32_id by (unfold is_u; lia); lia).
  intros [_ Hlt]. eapply Z.lt_le_trans; [exact Hlt|]. apply Z.div_le_upper_bound; nia.
Qed.

(** ** From the transaction to the whole *)

Section prepared.
Context (s1 : uploading) (Hpre : prepared s s1) (Hdirs : forall path, dirs_wanted s path -> path ∈ up_dirs s1).
Local Abbreviation fs1 := (faults (get_db s1)).

Lemma undisturbed_steady : undisturbed s m p t -> steady s1 m p t fs1.
Proof.
  destruct Hpre as (D & l & b & refs & He & Hl & HD & Hi & Hw & _). intros (Hcont & [Hio _] & Hcov & Hmod).
  split; [|split; [|split]].
  - rewrite He. by eapply within_contention.
  - rewrite He. cbn. rewrite Hio in Hl. by apply suffix_nil_inv in Hl.
  - intros r (row & Hrow & ->)%modified_row_of. destruct (Hmod _ _ Hrow) as [Hc Hno].
    assert (dir_of s1 (row_of r.1.1 row) = chunk_dir (parcel (up_pk s)) (dest_dir s) (u32 r.1.1)) as -> by (rewrite He; done).
    assert (path_of s1 (row_of r.1.1 row) = file_of s r.1.1) as -> by (rewrite He; done).
    split; [apply Hdirs, chunk_dir_wanted; pose proof (is_u32_u32 r.1.1); unfold is_u in *; lia|].
    intros path Hpath Hin. rewrite He in Hin. destruct (HD path Hin) as [?|?]; [by eapply Hno|]. by eapply file_not_wanted.
  - intros r (row & Hrow & ->)%modified_row_of Hlen. cbn [fst snd] in *. rewrite He in Hlen |- *.
    destruct (t !! r.1.1) as [n|] eqn:Hn; [|change (u32 (default 0 None)) with 0 in Hlen; lia]. by apply Hcov.
Qed.

Lemma outcome_ok s2 :
  outcome s1 m p t fs1 s2 ->
  (forall path, (forall c row, modified m p c row -> file_of s c <> Some path) -> up_files s2 !! path = up_files s !! path) /\
  (up_ret s2 = 0 /\ (forall c row, modified m p c row -> sendable (up_pk s) t c row /\ sent s s2 c row) \/
   up_ret s2 = 1 /\ (undisturbed s m p t -> refused_chunk /\
     (writable (up_pk s) -> cache_test_flag (up_pk s2) CA_F_DAMAGED = true))).
Proof.
  pose proof undisturbed_steady as Hst. destruct Hpre as (D & l & b & refs & He & _).
  assert (parcel (up_pk s1) = parcel (up_pk s)) as Hpar by (by rewrite He).
  assert (forall c n, slot (up_pk s1) c n = slot (up_pk s) c n) as Hslot by (by rewrite He).
  intros [_ Hfiles Hres]. split.
  - intros path Hno. transitivity (up_files s1 !! path); [|by rewrite He]. apply Hfiles.
    intros (r & (row & Hrow & ->)%modified_row_of & Hpath). apply (Hno r.1.1 row Hrow). rewrite <- Hpath. by rewrite He.
  - destruct Hres as [[Hret Hall]|[Hret Hflag]]; [left|right]; (split; [done|]).
    + intros c row Hrow. rewrite Forall_forall in Hall. destruct (Hall _ (row_of_modified c row Hrow)) as (Hgood & Hh & path & Hpath & Hf).
      split; [by apply (good_sendable s1)|]. split.
      * exists path, (slot_of s1 (row_of c row)). split; [by rewrite <- Hpath, He|]. split; [done|]. apply (gd_intact _ _ Hgood).
      * eapply hoarded_shift; [|exact Hh]. rewrite He. cbn. apply (ready_refs refs _ _ (ts_hoard _ _ _ _ _ Hs)).
    + intros Hu. destruct (Hflag (Hst Hu)) as [(r & (row & Hrow & ->)%modified_row_of & Hbad) Hdam]. split.
      * exists r.1.1, row. split; [done|]. by rewrite <- (good_sendable s1).
      * intros (_ & Hfd & Hlock). apply Hdam; by rewrite He.
Qed.

Lemma prepared_left : hoard_left s1.
Proof.
  clear Hdirs. destruct Hpre as (D & l & b & refs & -> & _ & _ & _ & _ & Hr). split; [|exact Hr]. intros Hdir.
  destruct (ready_refs refs _ _ (ts_hoard _ _ _ _ _ Hs)) as [Hr1 (_ & _ & Hk)].
  destruct (Hr1 Hdir) as (? & ? & _). split; [done|]. split; [done|]. intros Hf. by apply Hk.
Qed.

Lemma outcome_left s2 : outcome s1 m p t fs1 s2 -> hoard_left s2.
Proof.
  clear Hdirs. intros [[(Hp & Hd & Hk) [Hr Hy]] _ _]. destruct prepared_left as [_ Hr1]. split; [|by rewrite Hr].
  destruct Hpre as (D & l & b & refs & He & _). rewrite He in *. intros Hdir.
  destruct (ready_refs refs _ _ (ts_hoard _ _ _ _ _ Hs)) as [Hr0 (_ & _ & Hk0)].
  assert (ready 0 (put_refs refs (up_hoard s))) as Hr2 by (eapply ready_less; [|exact Hr0]; lia).
  destruct (Hy Hr2) as (? & ? & _); [by rewrite Hd|]. split; [done|]. split; [done|]. intros Hf t' Ht'.
  destruct (Hk0 Hdir Hf) as [Hf1 Hi1]. apply Hk; [done|done|]. by apply Hi1.
Qed.

Lemma prepared_transaction :
  exists a s2, transaction upload_body s1 = Some (a, s2) /\ copied s1 m p t fs1 a s2.
Proof.
  destruct Hs as [[_ Hm Hp Hc Hmi _ Hg Hb _] Hfree Hpar Hper Hnum Hh]. pose proof (g_chunks _ Hg) as Hu. unfold is_u in Hu.
  destruct Hpre as (D & l & b & refs & He & Hl & HD & Hi & Hw & _). pose proof (idle_data _ _ Hi) as Hd.
  apply (upload_transaction_ok s1 m p t ver); try assumption; try (rewrite He; cbn [set_up_ret set_up_dirs set_up_hoard set_up_pk up_pk set_pkdb conn set_io parcel up_hoard put_refs h_parcel set_hoard]; by rewrite ?Hd).
  - rewrite He. by destruct Hg.
  - rewrite He. unfold is_u. cbn. lia.
  - rewrite He. cbn. lia.
  - split; [split|split]; try done.
    + exists (conn (up_pk s1)), (io (up_pk s1)). split; [by destruct (up_pk s1)|done].
    + by rewrite He.
    + rewrite He. apply ready_refs. eapply ready_less; [|exact Hh].
      apply Nat.mul_le_mono_l, le_n_S. cbn. destruct Hw as [k Hk]. rewrite Hk, length_app. lia.
Qed.
End prepared.

Lemma left_alone : left_behind (set_up_ret 1 s).
Proof.
  split; [apply (tc_idle _ _ _ _ _ (ts_cache _ _ _ _ _ Hs))|]. split; [|done]. split; [|by left]. intros Hdir.
  by destruct (ts_hoard _ _ _ _ _ Hs Hdir) as (? & ? & _).
Qed.

Lemma copy_for_upload_ok :
  cache_test_flag (up_pk s) CA_F_DAMAGED = false -> cache_test_flag (up_pk s) CA_F_DIRTY = false ->
  exists r s', copy_for_upload s = Some (r, s') /\ left_behind s' /\
    (r = 0 /\ (forall c row, modified m p c row -> sendable (up_pk s) t c row /\ sent s s' c row) \/
     r = 1 /\ (undisturbed s m p t -> refused_chunk /\
       (writable (up_pk s) -> cache_test_flag (up_pk s') CA_F_DAMAGED = true))).
Proof.
  intros Hdam Hdirty. pose proof (tc_idle _ _ _ _ _ (ts_cache _ _ _ _ _ Hs)) as Hi. pose proof (ts_per_dir _ _ _ _ _ Hs) as Hper.
  destruct (copy_prepares s Hi ltac:(lia) Hdam Hdirty) as (s1 & Hpre & [[Hr Hn]|[Hr Hdirs]]).
  - exists 1, s1. split; [done|]. pose proof (prepared_left s1 Hpre) as Hleft. destruct Hpre as (D & l & b & refs & -> & _ & _ & Hib & _).
    split; [split; [exact Hib|split; [exact Hleft|done]]|]. right. split; [done|].
    intros (Hcont & Hcl & _). by destruct Hn.
  - destruct (prepared_transaction s1 Hpre) as (a & s2 & Ht & Hi2 & _ & Ho). rewrite Hr, Ht. cbn [mbind option_bind].
    eexists _, _. split; [done|]. destruct (outcome_ok s1 Hpre Hdirs s2 Ho) as [Hfiles Hres]. split; [|done].
    split; [|split; [exact (outcome_left s1 Hpre s2 Ho)|done]].
    destruct Hpre as (D & l & b & refs & He & _ & _ & Hib & _). rewrite <- (idle_data _ _ Hib). rewrite He in Hi2. exact Hi2.
Qed.
End whole.

(** * Properties *)

(** C8: when copy_for_upload answers 0, the cache was not marked damaged or dirty, and every modified chunk is
    in its file in the upload directory with the data of its tag, and, if nothing but contention got in the
    way in the hoard cache, there too (a failure there is ignored).  Whatever fails, and however it ends, the
    databases of the local cache are as they were, and so is every file that is not one of a modified chunk;
    the hoard cache is in order, of its references none is lost and none is added but, for this parcel,
    those to the chunks of its keyring, and without other failures it has all chunks that it had. *)
Theorem copy_for_upload_sound s m p t ver :
  to_send s m p t ver ->
  exists r s', copy_for_upload s = Some (r, s') /\ left_behind s m p s' /\
    (r = 0 -> cache_test_flag (up_pk s) CA_F_DAMAGED = false /\ cache_test_flag (up_pk s) CA_F_DIRTY = false /\
       forall c row, modified m p c row -> sent s s' c row).
Proof.
  intros Hs. pose proof (tc_idle _ _ _ _ _ (ts_cache _ _ _ _ _ Hs)) as Hi.
  destruct (cache_test_flag (up_pk s) CA_F_DAMAGED) eqn:Hdam; [|destruct (cache_test_flag (up_pk s) CA_F_DIRTY) eqn:Hdirty].
  - exists 1, (set_up_ret 1 s). split; [|split; [|done]]. { unfold copy_for_upload. cbn. by rewrite Hdam. } exact (left_alone _ _ _ _ _ Hs).
  - exists 1, (set_up_ret 1 s). split; [|split; [|done]]. { unfold copy_for_upload. cbn. by rewrite Hdam, Hdirty. } exact (left_alone _ _ _ _ _ Hs).
  - destruct (copy_for_upload_ok s m p t ver Hs Hdam Hdirty) as (r & s' & Hr & Hl & Hcase). exists r, s'. split; [done|]. split; [done|].
    intros ->. split; [done|]. split; [done|]. intros c row Hrow. destruct Hcase as [[_ Hall]|[? _]]; [|done]. by apply Hall.
Qed.

(** C9: without other failures than contention, copy_for_upload answers 0 exactly if the cache has every modified
    chunk, with the data of its tag; if not, it marks the cache as damaged. *)
Theorem copy_for_upload_exact s m p t ver :
  to_send s m p t ver -> undisturbed s m p t ->
  cache_test_flag (up_pk s) CA_F_DAMAGED = false -> cache_test_flag (up_pk s) CA_F_DIRTY = false ->
  exists r s', copy_for_upload s = Some (r, s') /\
    (r = 0 <-> forall c row, modified m p c row -> sendable (up_pk s) t c row) /\
    (r <> 0 -> writable (up_pk s) -> cache_test_flag (up_pk s') CA_F_DAMAGED = true).
Proof.
  intros Hs Hu Hdam Hdirty. destruct (copy_for_upload_ok s m p t ver Hs Hdam Hdirty) as (r & s' & Hr & _ & Hcase).
  exists r, s'. split; [done|]. destruct Hcase as [[-> Hall]|[-> Hflag]].
  - split; [|done]. split; [|done]. intros _ c row Hrow. by apply Hall.
  - destruct (Hflag Hu) as [(c & row & Hrow & Hbad) Hdamaged]. split; [|done]. split; [done|]. intros Hall. by destruct Hbad; apply Hall.
Qed.

(** A cache in which keyring, index and data agree, as after a check that answers 0, is uploaded if nothing
    but contention gets in the way. *)
Theorem consistent_cache_uploads s m p t ver :
  to_send s m p t ver -> consistent (up_pk s) m p t -> Forall contention (faults (conn (up_pk s))) ->
  clear (dirs_wanted s) s -> all_covered (up_pk s) t -> (forall c path, file_of s c = Some path -> ~ path ∈ up_dirs s) ->
  cache_test_flag (up_pk s) CA_F_DAMAGED = false -> cache_test_flag (up_pk s) CA_F_DIRTY = false ->
  exists s', copy_for_upload s = Some (0, s') /\ forall c row, modified m p c row -> sent s s' c row.
Proof.
  intros Hs [Hk Hpres Hlen Htag Hdata] Hcont Hcl Hcov Hno Hdam Hdirty.
  assert (forall c row, modified m p c row -> 0 <= c < chunks (parcel (up_pk s)) /\ u32 c = c) as Hnum.
  { intros c row [Hc _]. pose proof (ko_range _ _ Hk c row Hc). pose proof (tc_chunks _ _ _ _ _ (ts_cache _ _ _ _ _ Hs)).
    split; [done|]. apply u32_id. unfold is_u. lia. }
  destruct (copy_for_upload_ok s m p t ver Hs Hdam Hdirty) as (r & s' & Hr & _ & Hcase).
  destruct Hcase as [[-> Hall]|[-> Hflag]]; [exists s'; split; [done|]; by apply Hall|]. exfalso.
  destruct Hflag as [(c & row & Hrow & Hbad) _].
  { split; [done|]. split; [done|]. split; [done|]. intros c row Hrow. destruct (Hnum c row Hrow) as [? ->]. split; [lia|by apply Hno]. }
  apply Hbad. destruct (Hnum c row Hrow) as [Hc Hu]. destruct Hrow as [Hrow Hd]. destruct (Hpres c row Hrow Hd) as [n Hn].
  destruct (Htag c n Hn) as (row' & Hrow' & Ht). assert (row' = row) as -> by congruence. unfold sendable. split; [rewrite Hu; lia|].
  split; [done|]. exists n. pose proof (Hcov c n Hn). split; [done|]. split; [by apply (Hlen c n)|]. split; [done|]. by eapply Hdata.
Qed.

(** * Witnesses *)

(** A parcel with two chunks, the first of which has been modified and is in the cache, and a hoard cache
    that holds another chunk. *)
Definition send_parcel : pk_parcel := mk_parcel IU_CHUNK_CRY_AES_SHA1 (required_compress (parcel demo)) 2 SLOT_SIZE 512 20.

Definition send_hoard : hoard_state :=
  mk_hstate send_parcel true (hoard (demo_hoard [Some (F_BUSY, false)] [])) (hoard_file (demo_hoard [] [])) [].

Definition send_pk (m p : gmap Z key_row) (t : gmap Z Z) : pk_state :=
  mk_state (mk_config (Z.lor WANT_LOCK (Z.lor WANT_CACHE WANT_PREV)) IU_CHUNK_COMP_LZF 1) send_parcel true None
    (mk_db (mk_dbs (Some m) (Some p) (Some (mk_index CA_INDEX_VERSION (Some t))) (Some true) None) None
       [Some (F_BUSY, false)] false SQLITE_OK false 0)
    64 0 (fun _ => 0) (mk_files ∅ (Some true) ∅ (Some (replicate 128 0)) None) [].

Definition one {A} (a : A) : gmap Z A := {[0 := a]}.

Definition to_send_demo : uploading := mk_uploading (send_pk (one good_row) (one demo_row) (one 64)) "/upload" send_hoard 1 ∅ ∅ 1.

Lemma one_lookup {A} (a : A) c x : one a !! c = Some x -> c = 0 /\ x = a.
Proof. unfold one. by intros [<- <-]%lookup_singleton_Some. Qed.

Lemma one_int {A} (a : A) : int_keys (one a).
Proof. by intros c [x [-> _]%one_lookup]. Qed.

Lemma send_hoard_ready : ready 2 send_hoard.
Proof.
  intros _. split; [|split].
  - destruct (demo_hoard_usable [Some (F_BUSY, false)] []) as [Hi Hwf _ _ Hb]. by split.
  - apply (demo_hoard_sound [Some (F_BUSY, false)] []).
  - exists 512. split; [done|]. split; [|done]. repeat constructor; simpl; lia.
Qed.

Lemma demo_to_send : to_send to_send_demo (one good_row) (one demo_row) (one 64) CA_INDEX_VERSION.
Proof.
  split; [|reflexivity|reflexivity|done|done|].
  - split; [done|done|done|done|apply one_int|apply one_int| |by apply Forall_replicate|done].
    split; try done. right. by eexists.
  - apply (ready_less 2); [|apply send_hoard_ready]. vm_compute. lia.
Qed.

Lemma demo_clear : clear (dirs_wanted to_send_demo) to_send_demo.
Proof. by split. Qed.

Lemma demo_sent_covered : all_covered (up_pk to_send_demo) (one 64).
Proof. intros c n [-> ->]%one_lookup. reflexivity. Qed.

Lemma demo_no_dir c path : file_of to_send_demo c = Some path -> ~ path ∈ up_dirs to_send_demo.
Proof. intros _. apply not_elem_of_empty. Qed.

Lemma demo_undisturbed : undisturbed to_send_demo (one good_row) (one demo_row) (one 64).
Proof.
  split; [apply contention_once|]. split; [apply demo_clear|]. split; [apply demo_sent_covered|].
  intros c row [[-> _]%one_lookup _]. split; [done|]. apply demo_no_dir.
Qed.

Lemma demo_sent_consistent : consistent (up_pk to_send_demo) (one good_row) (one demo_row) (one 64).
Proof.
  split.
  - split.
    + by intros c row [-> _]%one_lookup.
    + intros c row [_ ->]%one_lookup. split; [|split]; vm_compute; reflexivity.
    + intros c c' Hc [x [-> _]%one_lookup]. lia.
  - intros c row [-> _]%one_lookup _. by exists 64.
  - intros c n [-> ->]%one_lookup. done.
  - intros c n [-> ->]%one_lookup. exists good_row. split; [done|]. vm_compute. reflexivity.
  - intros c n row [-> ->]%one_lookup [_ ->]%one_lookup _. vm_compute. reflexivity.
Qed.

Lemma copy_for_upload_sound_witness : exists s',
  copy_for_upload to_send_demo = Some (0, s') /\ hoarded send_hoard (up_hoard s') (kr_tag good_row) /\
  usable (up_hoard s') /\ idle (data (conn (up_pk to_send_demo))) (get_db s').
Proof.
  destruct (copy_for_upload_sound to_send_demo (one good_row) (one demo_row) (one 64) CA_INDEX_VERSION) as (r & s' & Hr & Hleft & Hsent).
  - apply demo_to_send.
  - exists s'. assert (r = 0) as ->.
    { apply (f_equal (fmap fst)) in Hr. vm_compute in Hr. congruence. }
    split; [exact Hr|]. clear Hr. destruct Hleft as (Hi & [Hh _] & _). split; [|split; [|exact Hi]].
    + destruct (Hsent eq_refl) as (_ & _ & Hall). apply (Hall 0). split; [reflexivity|vm_compute; reflexivity].
    + apply Hh. reflexivity.
Defined.

Lemma copy_for_upload_exact_witness : exists r s',
  copy_for_upload to_send_demo = Some (r, s') /\
  (r = 0 <-> forall c row, modified (one good_row) (one demo_row) c row -> sendable (up_pk to_send_demo) (one 64) c row).
Proof.
  destruct (copy_for_upload_exact to_send_demo (one good_row) (one demo_row) (one 64) CA_INDEX_VERSION) as (r & s' & Hr & Hz & _).
  - apply demo_to_send.
  - apply demo_undisturbed.
  - reflexivity.
  - reflexivity.
  - exists r, s'. split; [exact Hr|exact Hz].
Defined.

Lemma consistent_cache_uploads_witness : exists s',
  copy_for_upload to_send_demo = Some (0, s') /\ sent to_send_demo s' 0 good_row.
Proof.
  destruct (consistent_cache_uploads to_send_demo (one good_row) (one demo_row) (one 64) CA_INDEX_VERSION) as (s' & Hr & Hall).
  - apply demo_to_send.
  - apply demo_sent_consistent.
  - apply contention_once.
  - apply demo_clear.
  - apply demo_sent_covered.
  - apply demo_no_dir.
  - reflexivity.
  - reflexivity.
  - exists s'. split; [exact Hr|]. apply Hall. split; [reflexivity|vm_compute; reflexivity].
Defined.
