(* ===== verification/HoardShared.v ===== *)
(** HoardShared: several processes that share a hoard cache (src/parcelkeeper/hoard.c).

    The file and the index are shared; every process has a slot cache of its own.  SQLite makes the
    transactions of the processes happen one after the other, so that a step of a process is one round of
    a transaction of hoard.c ("again:" to the return or to the jump back), which may end in a commit or be
    rolled back; a retry is another step, and other processes may come in between.  A process that lives
    has the read lock on the file, and the cleanup has the write lock: while it is held there is no other
    process, and none starts.  The steps are those of the transactions of hoard.c; compaction and the check
    (hoard_modes.c) are modes of their own, which HoardTruncate.v and HoardCheck.v verify for a process that is
    alone, and no steps here. *)

From stdpp Require Import strings gmap.
From S2P Require Import Prelude Cipher HashStream Sha1 Hash Compress LzfStream Chunk Effects Sql SqlConn Pk Hoard HoardProofs HoardChunks HoardAdmin.

Local Abbreviation idx s := (data (hoard s)).

(** * Processes *)

Record world := mk_world {
  w_chunks : list hchunk;
  w_refs : list (Z * list Z);
  w_parcels : list hparcel;
  w_file : list Z;
  w_live : gmap nat (list hslot);  (** the slot caches of the live processes *)
  w_lock : bool  (** the write lock is held *)
}.

(** The index as a process with these slots sees it. *)
Definition view (w : world) (slots : list hslot) : hoard_db := mk_hoard (w_chunks w) (w_refs w) slots (w_parcels w).

(** The transactions of hoard.c that a process performs while it lives. *)
Inductive op :=
  | Put (tag buf : list Z)  (** hoard_put_chunk *)
  | Find (tag : list Z)  (** the lookup of hoard_get_chunk *)
  | Drop_slot (offset : Z)  (** hoard_invalidate_slot_chunk *)
  | Drop_chunk (offset : Z) (tag : list Z)  (** hoard_invalidate_chunk *)
  | Flush  (** flush_slot_cache *)
  | Gc.  (** hoard_gc *)

Definition round {R} (m : pk hoard_state R R) (s : hoard_state) : option hoard_state := snd <$> attempt m s.

Definition run (o : op) : hoard_state -> option hoard_state :=
  match o with
  | Put tag buf => round (hoard_put_body tag buf)
  | Find tag => round (hoard_find_body tag)
  | Drop_slot offset => round (wrapper_body (_hoard_invalidate_slot_chunk offset))
  | Drop_chunk offset tag => round (wrapper_body (_hoard_invalidate_chunk offset tag))
  | Flush => round (wrapper_body _flush_slot_cache)
  | Gc => round hoard_gc_body
  end.

(** A chunk is put under its tag, and while there is room in the index. *)
Definition sensible (o : op) (w : world) : Prop :=
  match o with
  | Put tag buf =>
      bytes buf /\ 0 < Z.of_nat (length buf) <= SLOT_SIZE /\ Fips180.sha1 buf = tag /\ has_room (view w [])
  | _ => True
  end.

(** The state of a process with these slots, between transactions. *)
Record sees (w : world) (slots : list hslot) (s : hoard_state) : Prop := mk_sees {
  se_idle : idle (view w slots) (hoard s);
  se_file : hoard_file s = w_file w;
  se_chunksize : chunksize (h_parcel s) = SLOT_SIZE
}.

(** What the process leaves behind. *)
Definition share (p : nat) (s : hoard_state) (w : world) : world :=
  mk_world (hd_chunks (idx s)) (hd_refs (idx s)) (hd_parcels (idx s)) (hoard_file s)
    (<[p := hd_slots (idx s)]> (w_live w)) (w_lock w).

Definition set_live v w := mk_world (w_chunks w) (w_refs w) (w_parcels w) (w_file w) v (w_lock w).
Definition set_lock v w := mk_world (w_chunks w) (w_refs w) (w_parcels w) (w_file w) (w_live w) v.

(** get_parcel_ident gives every parcel a number of its own. *)
Definition numbered (t : list hparcel) : Prop := exists m, m < 2 ^ 31 /\ parcels_wf m t.

(** A step of the process in the label, or of one that is not among the live ones. *)
Inductive step : option nat -> world -> world -> Prop :=
  | step_start w p :  (** hoard_init *)
      w_lock w = false -> w_live w !! p = None -> step None w (set_live (<[p := []]> (w_live w)) w)
  | step_run w p slots o s s' :
      w_live w !! p = Some slots -> sees w slots s -> sensible o w -> run o s = Some s' -> step (Some p) w (share p s' w)
  | step_tables w refs parcels :  (** hoard_sync_refs and get_parcel_ident, of any process *)
      w_lock w = false -> numbered parcels ->
      step None w (mk_world (w_chunks w) refs parcels (w_file w) (w_live w) (w_lock w))
  | step_exit w p :  (** a process ends, whatever it had reserved *)
      step (Some p) w (set_live (delete p (w_live w)) w)
  | step_lock w p slots :  (** the last process gets the write lock in hoard_try_cleanup *)
      w_live w = {[p := slots]} -> step (Some p) w (set_lock true (set_live ∅ w))
  | step_cleanup w gc s s' :  (** the transaction of hoard_try_cleanup *)
      w_lock w = true -> sees w [] s -> round (cleanup_body gc) s = Some s' ->
      step None w (mk_world (hd_chunks (idx s')) (hd_refs (idx s')) (hd_parcels (idx s')) (hoard_file s') (w_live w) (w_lock w))
  | step_unlock w : w_lock w = true -> step None w (set_lock false w).

Inductive reachable (w0 : world) : world -> Prop :=
  | reach_start : reachable w0 w0
  | reach_step l w w' : reachable w0 w -> step l w w' -> reachable w0 w'.

(** Steps of other processes than [q]. *)
Inductive others (q : nat) (w : world) : world -> Prop :=
  | others_none : others q w w
  | others_step l w1 w2 : others q w w1 -> step l w1 w2 -> l <> Some q -> others q w w2.

(** * What a round does *)

(** The index stays well-formed, slots of other processes are left alone, and so is what the file has for
    them and for the chunks in the index. *)
Record harmless (s s' : hoard_state) : Prop := mk_harmless {
  hl_idle : idle (idx s') (hoard s');
  hl_wf : hoard_wf (idx s');
  hl_spared : spared (idx s) (idx s');
  hl_file : kept s (hoard_file s')
}.

Section rounds.
Context (s : hoard_state) (Hi : idle (idx s) (hoard s)) (Hwf : hoard_wf (idx s)).
Context (Hcs : chunksize (h_parcel s) = SLOT_SIZE) (Hb : bytes (hoard_file s)).

Lemma kept_refl f : untouched s f -> kept s f.
Proof. intros ->. by split. Qed.

Lemma harmless_same s' : idle (idx s) (hoard s') -> kept s (hoard_file s') -> harmless s s'.
Proof. intros Hi' Hk. pose proof (idle_data _ _ Hi') as Hd. split; by rewrite ?Hd. Qed.

Lemma round_ok {R} (J : list Z -> Prop) Q E (m : pk hoard_state R R) :
  tx_body_at (idx s) (frame s J) Q E m (faults (hoard s)) -> J (hoard_file s) -> (forall f, J f -> kept s f) ->
  (forall v s', Q v s' -> harmless s s') -> exists s', round m s = Some s' /\ harmless s s'.
Proof.
  intros Hm HJ HJk HQ.
  destruct (attempt_spec (faults (hoard s)) (idx s) (frame s J) Q E m s Hm) as (r & s' & Hr & Hout); try done.
  - intros b s1. apply frame_db.
  - apply within_refl.
  - exists s'. unfold round. rewrite Hr. split; [done|]. destruct Hout as [(v & _ & Hv)|[Hid Hfr]]; [by eapply HQ|].
    apply harmless_same; [done|]. by apply HJk, Hfr.
Qed.

Lemma wrapped_harmless Q s' : (forall d, Q d -> hoard_wf d /\ spared (idx s) d) -> wrapped s Q s' -> harmless s s'.
Proof.
  intros HQ (Hfr & _ & d & Hid & Hd). pose proof (idle_data _ _ Hid) as Hdd. subst d.
  assert (kept s (hoard_file s')) as Hk by apply kept_refl, Hfr. destruct Hd as [Hd|(Hd & _)].
  - destruct (HQ _ Hd). by split.
  - apply harmless_same; [by rewrite <- Hd|done].
Qed.

Lemma wrapper_round f Q :
  (forall fs, fs `suffix_of` faults (hoard s) -> forall X,
     triple (act s fs (untouched s) (fun d _ => d = idx s)) (call f : pk hoard_state () _)
       (result_is s fs (untouched s) False (fun d _ => Q d)) X) ->
  (forall d, Q d -> hoard_wf d /\ spared (idx s) d) ->
  exists s', round (wrapper_body f) s = Some s' /\ harmless s s'.
Proof.
  intros Hf HQ. eapply (round_ok (untouched s) (fun _ => wrapped s Q)); [by apply wrapper_body_ok; [|by apply Hf]|done|apply kept_refl|].
  intros _ s'. by apply wrapped_harmless.
Qed.

Lemma put_round tag buf :
  has_room (idx s) -> bytes buf -> 0 < Z.of_nat (length buf) <= SLOT_SIZE -> Fips180.sha1 buf = tag ->
  exists s', round (hoard_put_body tag buf) s = Some s' /\ harmless s s'.
Proof.
  intros Hroom Hbytes Hbuf Htag.
  apply (round_ok (kept s) (put_post s (kept s) tag buf) (fun r _ => put_error s r)); [|by apply kept_refl|done|].
  { apply (hoard_put_body_ok s (faults (hoard s)) (within_refl (hoard s)) (kept s) True); done. }
  intros err s' (Hfr & _ & d & Hid & Hd). pose proof (idle_data _ _ Hid) as <-. pose proof (fr_file _ _ _ Hfr) as Hk.
  case_decide; [|destruct Hd as [Hd _]; apply harmless_same; [by rewrite <- Hd|done]].
  destruct Hd as [[Hd _]|(o & (? & _ & _ & [? _] & _) & _)]; [apply harmless_same; [by rewrite <- Hd|done]|by split].
Qed.

Lemma run_harmless w slots o : sees w slots s -> sensible o w -> exists s', run o s = Some s' /\ harmless s s'.
Proof.
  intros [Hid _ _] Ho. pose proof (idle_data _ _ Hid) as Hv. destruct o as [tag buf|tag|o|o tag| |]; simpl.
  - destruct Ho as (? & ? & ? & ?). apply put_round; try done. by rewrite Hv.
  - eapply (round_ok (untouched s)); [by apply find_body_ok|done|apply kept_refl|].
    intros r s' (Hfr & _ & Hi' & _). apply harmless_same; [done|]. apply kept_refl, Hfr.
  - apply (wrapper_round _ (slot_dropped s o)); [intros; by apply invalidate_slot_triple|]. by intros d (? & _ & _ & ?).
  - apply (wrapper_round _ (chunk_dropped s o tag)); [intros; by apply invalidate_chunk_triple|]. by intros d (? & _ & _ & ? & _).
  - apply (wrapper_round _ (fun d => hoard_wf d /\ spared (idx s) d)); [|done]. intros fs Hfs X.
    eapply triple_weaken; [apply (flush_slot_cache_triple s fs Hfs (untouched s) False Hwf)|done| |done].
    intros err s1. unfold result_is. case_decide; [|done]. apply act_weaken. intros d _ ([? ?] & _). split; [done|]. by apply si_spared.
  - eapply (round_ok (untouched s)); [by apply gc_tx_ok|done|apply kept_refl|].
    intros err s' (Hfr & _ & d & Hi' & Hd). pose proof (idle_data _ _ Hi') as <-.
    pose proof (kept_refl _ (fr_file _ _ _ Hfr)) as Hk. case_decide.
    + destruct Hd as (? & _ & ? & _). by split.
    + destruct Hd as [Hd _]. apply harmless_same; [by rewrite <- Hd|done].
Qed.
End rounds.

(** * What holds in every reachable world *)

Record consistent (w : world) : Prop := mk_consistent {
  co_index : hoard_wf (view w []);
  co_file : bytes (w_file w);
  co_parcels : numbered (w_parcels w);
  co_live p slots : w_live w !! p = Some slots -> hoard_wf (view w slots);
  co_apart p q sp sq : p <> q -> w_live w !! p = Some sp -> w_live w !! q = Some sq ->
    forall a b, a ∈ sp -> b ∈ sq -> hs_offset a <> hs_offset b;
  co_lock : w_lock w = true -> w_live w = ∅
}.

(** Well-formedness is a matter of the chunks and the slots, and needs every slot to be reserved. *)
Lemma with_slots_wf d d' slots :
  hoard_wf d -> hoard_wf d' -> hd_slots d' = slots ->
  (forall sl, sl ∈ slots -> exists r, r ∈ hd_chunks d /\ hc_offset r = hs_offset sl /\ hc_allocated r = true /\ hc_tag r = None) ->
  hoard_wf (set_hslots slots d).
Proof. intros [] [] <- Hres. by split. Qed.

(** The slots of a process are reserved in the index, and foreign to the other processes. *)
Lemma foreign_slot w slots others sl :
  hoard_wf (view w others) -> (forall a b, a ∈ slots -> b ∈ others -> hs_offset a <> hs_offset b) -> sl ∈ others ->
  exists r, foreign (view w slots) r /\ hc_offset r = hs_offset sl.
Proof.
  intros Hwf Hap Hsl. destruct (wf_reserved _ Hwf sl Hsl) as (r & Hr & Ho & Ha & Ht). exists r. split; [|done]. split_and!; try done.
  intros (a & Hao & Ha')%list_elem_of_fmap. apply (Hap a sl); [done|done|congruence].
Qed.

Lemma view_idx w slots s : sees w slots s -> idx s = view w slots.
Proof. intros []. by apply idle_data. Qed.

Lemma consistent_start w p : consistent w -> w_lock w = false -> w_live w !! p = None -> consistent (set_live (<[p := []]> (w_live w)) w).
Proof.
  intros [Hix Hf Hpar Hl Hap Hlk] Hlock Hp. split; try done; cbn [w_live set_live].
  - intros q slots [[-> <-]|[Hne Hq]]%lookup_insert_Some; [done|by apply (Hl q)].
  - intros q r sq sr Hne [[-> <-]|[Hq1 Hq]]%lookup_insert_Some [[-> <-]|[Hr1 Hr]]%lookup_insert_Some a b Ha Hb;
      [done|by apply not_elem_of_nil in Ha|by apply not_elem_of_nil in Hb|by eapply (Hap q r)].
  - cbn [w_lock set_live]. congruence.
Qed.

(** A live process never gets stuck in a transaction. *)
Lemma run_step w p slots o s :
  consistent w -> w_live w !! p = Some slots -> sees w slots s -> sensible o w -> exists s', run o s = Some s' /\ harmless s s'.
Proof.
  intros [Hix Hf Hpar Hl Hap Hlk] Hp Hsee Ho. pose proof (view_idx _ _ _ Hsee) as Hv. pose proof Hsee as [Hi Hfile Hcs].
  rewrite <- Hv in Hi. apply (run_harmless s Hi) with (w := w) (slots := slots); try done.
  - rewrite Hv. by apply (Hl p).
  - by rewrite Hfile.
Qed.

Lemma consistent_run w p slots s s' :
  consistent w -> w_live w !! p = Some slots -> sees w slots s -> harmless s s' -> consistent (share p s' w).
Proof.
  intros [Hix Hf Hpar Hl Hap Hlk] Hp Hsee [Hi' Hwf' [Hfor [Hrefs Hpars]] [Hb' _]]. rewrite (view_idx _ _ _ Hsee) in *.
  assert (forall q sq, q <> p -> w_live w !! q = Some sq -> forall sl, sl ∈ sq -> exists r, foreign (idx s') r /\ hc_offset r = hs_offset sl)
    as Hforeign.
  { intros q sq Hne Hq sl Hsl. destruct (foreign_slot w slots sq sl (Hl q sq Hq)) as (r & Hr & Ho); [|done|].
    - intros a b. by apply (Hap p q).
    - exists r. split; [by apply Hfor|done]. }
  split; try done.
  - apply (closed_wf (idx s') Hwf').
  - simpl. by rewrite Hpars.
  - cbn [share w_live]. intros q sq [[-> <-]|[Hne Hq]]%lookup_insert_Some.
    { unfold view, share. cbn [w_chunks w_refs w_parcels]. by destruct (idx s'). }
    apply (with_slots_wf (idx s') (view w sq)); [done|by apply (Hl q)|done|]. intros sl Hsl.
    destruct (Hforeign q sq ltac:(done) Hq sl Hsl) as (r & (? & ? & ? & _) & ?). by exists r.
  - cbn [share w_live]. intros q r sq sr Hne [[-> <-]|[Hq1 Hq]]%lookup_insert_Some [[-> <-]|[Hr1 Hr]]%lookup_insert_Some a b Ha Hb; [done| | |by apply (Hap q r sq sr)].
    + destruct (Hforeign r sr ltac:(done) Hr b Hb) as (x & (_ & _ & _ & Hno) & Hx). rewrite Hx in Hno. intros He.
      apply Hno. rewrite <- He. apply list_elem_of_fmap. eauto.
    + destruct (Hforeign q sq ltac:(done) Hq a Ha) as (x & (_ & _ & _ & Hno) & Hx). rewrite Hx in Hno. intros He.
      apply Hno. rewrite He. apply list_elem_of_fmap. eauto.
  - cbn [share w_lock w_live]. intros Hlock. rewrite (Hlk Hlock) in Hp. by rewrite lookup_empty in Hp.
Qed.

(** The cleanup, when nobody else is there. *)
Lemma cleanup_round gc w s :
  consistent w -> sees w [] s ->
  exists s' d, round (cleanup_body gc) s = Some s' /\ idle d (hoard s') /\ hoard_file s' = w_file w /\
    (d = view w [] \/ exists b, d = cleaned b (view w [])).
Proof.
  intros [Hix Hf (m & Hm & Hpar) _ _ _] Hsee. pose proof (view_idx _ _ _ Hsee) as Hv. destruct Hsee as [Hi Hfile _].
  rewrite <- Hv in Hi. assert (parcels_wf m (hd_parcels (idx s))) as Hpw by (by rewrite Hv).
  destruct (attempt_spec (faults (hoard s)) (idx s) (frame s (untouched s)) (ended s (cleanup_post gc s) (fun err => err <> PK_SUCCESS /\ ~ hoard_fair s))
    (fun r _ => r <> PK_SUCCESS /\ ~ hoard_fair s) (cleanup_body gc) s) as (r & s' & Hr & Hout); try done.
  - apply hoard_tx_body; [by split|reflexivity|]. by apply (cleanup_tx_ok gc m).
  - intros b s1. apply frame_db.
  - apply within_refl.
  - exists s'. unfold round. rewrite Hr. rewrite <- Hfile, <- Hv.
    destruct Hout as [(v & _ & [(_ & Hun & _ & b & ? & _)|(Hun & _ & ? & _)])|[? Hun]];
      eexists; (split; [done|]; split; [done|]; split; [apply Hun|]); eauto.
Qed.

Lemma consistent_step l w w' : consistent w -> step l w w' -> consistent w'.
Proof.
  intros Hc Hstep. pose proof Hc as [Hix Hf Hpar Hl Hap Hlk].
  destruct Hstep as [w p Hlock Hp|w p slots o s s' Hp Hsee Ho Hr|w refs parcels Hlock Hn|w p|w p slots Hlive|w gc s s' Hlock Hsee Hr|w Hlock].
  - by apply consistent_start.
  - destruct (run_step w p slots o s Hc Hp Hsee Ho) as (s1 & Hr1 & Hh). rewrite Hr in Hr1. injection Hr1 as <-.
    by eapply consistent_run.
  - split; try done; [by destruct Hix; split|]. intros p slots Hp. destruct (Hl p slots Hp). by split.
  - split; try done; cbn [w_live set_live].
    + intros q slots [_ Hq]%lookup_delete_Some. by apply (Hl q).
    + intros q r sq sr Hne [_ Hq]%lookup_delete_Some [_ Hr]%lookup_delete_Some. by apply (Hap q r).
    + intros Hlock. rewrite (Hlk Hlock). apply delete_empty.
  - split; try done; cbn [w_live set_live set_lock]; intros *; by rewrite lookup_empty.
  - destruct (cleanup_round gc w s Hc Hsee) as (s1 & d & Hr1 & Hid & Hfile & Hd). rewrite Hr in Hr1. injection Hr1 as <-.
    rewrite (idle_data _ _ Hid). specialize (Hlk Hlock).
    assert (hoard_wf (closed d) /\ numbered (hd_parcels d)) as [Hwf Hnum].
    { destruct Hd as [->|(b & ->)]; [done|]. split; [by apply cleaned_wf|]. destruct Hpar as (m & Hm & Hpw). exists m. split; [done|].
      by apply filter_parcels_wf. }
    split; try done; cbn [w_live w_file]; [by rewrite Hfile|..]; rewrite Hlk; intros *; by rewrite lookup_empty.
  - split; try done.
Qed.

Lemma consistent_reachable w0 w : consistent w0 -> reachable w0 w -> consistent w.
Proof. intros H0. induction 1; [done|by eapply consistent_step]. Qed.

(** ** Slots of a process that does nothing *)

(** What the file has at a place, if it has all of it. *)
Definition holds (f : list Z) (o : Z) (data : list Z) : Prop :=
  0 < Z.of_nat (length data) <= SLOT_SIZE /\ content f o (Z.of_nat (length data)) = data.

Lemma kept_holds s f o data :
  kept s f -> guarded s o -> holds (hoard_file s) o data -> holds f o data.
Proof.
  intros [_ Hk] Hg [Hl Hc]. split; [done|]. rewrite (Hk o); [done|done|done|]. by rewrite Hc.
Qed.

Lemma step_leaves l w w' q sq :
  consistent w -> step l w w' -> l <> Some q -> w_live w !! q = Some sq ->
  w_live w' !! q = Some sq /\ forall sl data, sl ∈ sq -> holds (w_file w) (hs_offset sl) data -> holds (w_file w') (hs_offset sl) data.
Proof.
  intros Hc Hstep Hl Hq. pose proof Hc as [_ _ _ Hlive Hap Hlk].
  destruct Hstep as [w p Hlock Hp|w p slots o s s' Hp Hsee Ho Hr|w refs parcels Hlock Hn|w p|w p slots Hone|w gc s s' Hlock Hsee Hr|w Hlock];
    cbn [w_live w_file set_live set_lock share].
  - rewrite lookup_insert_ne by congruence. done.
  - assert (p <> q) as Hne by congruence. rewrite lookup_insert_ne by done. split; [done|]. intros sl data Hsl Hh.
    destruct (run_step w p slots o s Hc Hp Hsee Ho) as (s1 & Hr1 & Hh1). rewrite Hr in Hr1. injection Hr1 as <-.
    pose proof (view_idx _ _ _ Hsee) as Hv. destruct Hsee as [_ Hfile _].
    eapply kept_holds; [apply Hh1| |by rewrite Hfile]. right. rewrite Hv.
    destruct (foreign_slot w slots sq sl (Hlive q sq Hq)) as (r & ? & ?); [intros a b; by apply (Hap p q)|done|by exists r].
  - done.
  - rewrite lookup_delete_ne by congruence. done.
  - rewrite Hone in Hq. apply lookup_singleton_Some in Hq as [-> _]. done.
  - rewrite (Hlk Hlock) in Hq. by rewrite lookup_empty in Hq.
  - done.
Qed.

Lemma others_leave q w w' sq :
  consistent w -> others q w w' -> w_live w !! q = Some sq ->
  consistent w' /\ w_live w' !! q = Some sq /\
  forall sl data, sl ∈ sq -> holds (w_file w) (hs_offset sl) data -> holds (w_file w') (hs_offset sl) data.
Proof.
  intros Hc Hsteps Hq. induction Hsteps as [|l w1 w2 _ (Hc1 & Hq1 & Hh1) Hstep Hl]; [by split_and!|].
  destruct (step_leaves l w1 w2 q sq Hc1 Hstep Hl Hq1) as [Hq2 Hh2].
  split; [by eapply consistent_step|]. split; [done|]. eauto.
Qed.

(** * Properties *)

(** C22: whatever processes do with the hoard cache they share, in whatever order — start, store, look up and
    drop chunks, flush their slots, collect garbage, die with slots reserved, clean up when they are the
    last, and with every failure of SQLite and the disk on the way — the index stays well-formed in the
    eyes of each of them, and no place in the file is a slot of two processes. *)
Theorem hoard_processes_separate w0 w :
  hoard_wf (view w0 []) -> bytes (w_file w0) -> numbered (w_parcels w0) -> w_live w0 = ∅ -> reachable w0 w ->
  hoard_wf (view w []) /\ bytes (w_file w) /\
  (forall p slots, w_live w !! p = Some slots -> hoard_wf (view w slots)) /\
  (forall p q sp sq a b, p <> q -> w_live w !! p = Some sp -> w_live w !! q = Some sq -> a ∈ sp -> b ∈ sq ->
     hs_offset a <> hs_offset b) /\
  (w_lock w = true -> w_live w = ∅).
Proof.
  intros Hix Hf Hpar Hlive Hr.
  assert (consistent w0) as Hc0 by (split; try done; rewrite Hlive; intros *; by rewrite lookup_empty).
  destruct (consistent_reachable w0 w Hc0 Hr) as [? ? ? ? Hap ?]. split_and!; try done. intros p q sp sq a b Hne Hp Hq. by eapply Hap.
Qed.

(** C23: a process is never stuck in a round of a transaction, and it does no harm: the chunks in the index
    and those in the slots of the other processes are in the file as they were, and what the other
    processes have reserved stays reserved. *)
Theorem hoard_round_harmless w p slots o s :
  consistent w -> w_live w !! p = Some slots -> sees w slots s -> sensible o w ->
  exists s', run o s = Some s' /\ consistent (share p s' w) /\
    (forall t o' l data, chunk_entry (view w slots) t o' l -> holds (w_file w) o' data -> holds (hoard_file s') o' data) /\
    (forall q sq sl, q <> p -> w_live w !! q = Some sq -> sl ∈ sq ->
       (exists r, r ∈ hd_chunks (idx s') /\ hc_offset r = hs_offset sl /\ hc_allocated r = true /\ hc_tag r = None) /\
       forall data, holds (w_file w) (hs_offset sl) data -> holds (hoard_file s') (hs_offset sl) data).
Proof.
  intros Hc Hp Hsee Ho. destruct (run_step w p slots o s Hc Hp Hsee Ho) as (s' & Hr & Hh).
  pose proof (consistent_run w p slots s s' Hc Hp Hsee Hh) as Hc'. exists s'. split; [done|]. split; [done|]. split.
  - intros t o' l data He Hd. pose proof (view_idx _ _ _ Hsee) as Hv. destruct Hsee as [_ Hfile _].
    eapply kept_holds; [apply Hh| |by rewrite Hfile]. left. exists t, l. rewrite Hv. by left.
  - intros q sq sl Hne Hq Hsl.
    destruct (step_leaves (Some p) w (share p s' w) q sq Hc) as [Hq' Hkeep]; [by eapply step_run|congruence|done|].
    split; [|intros data; by apply Hkeep]. apply (wf_reserved (view (share p s' w) sq)); [by apply (co_live _ Hc' q)|done].
Qed.

(** C24: a process finds the chunks in its slot cache again, whatever the other processes have done since:
    with no failure but contention hoard_get_chunk gives data of the right SHA-1 for the tag of a slot that
    was filled. *)
Theorem hoard_own_chunk_readable w w' q slots sl t data s :
  consistent w -> w_live w !! q = Some slots -> sl ∈ slots -> hs_tag sl = Some t ->
  holds (w_file w) (hs_offset sl) data -> hs_length sl = Z.of_nat (length data) -> Fips180.sha1 data = t ->
  others q w w' -> sees w' slots s -> hoard_dir s = true -> crypto (h_parcel s) = IU_CHUNK_CRY_AES_SHA1 -> hoard_fair s ->
  exists buf s', hoard_get_chunk t s = Some ((PK_SUCCESS, buf), s') /\ Fips180.sha1 buf = t.
Proof.
  intros Hc Hq Hsl Ht Hdata Hlen Hsha Hoth Hsee Hdir Hcry Hfair.
  destruct (others_leave q w w' slots Hc Hoth Hq) as (Hc' & Hq' & Hkeep). specialize (Hkeep sl data Hsl Hdata) as [Hld Hcont].
  pose proof (view_idx _ _ _ Hsee) as Hv. destruct Hsee as [Hi Hfile Hcs]. rewrite <- Hv in Hi.
  assert (hoard_wf (idx s)) as Hwf by (rewrite Hv; by apply (co_live _ Hc' q)).
  assert (usable s) as Hu by (split; try done; rewrite Hfile; apply Hc').
  assert (slot_entry (idx s) t (hs_offset sl) (hs_length sl)) as Hent by (rewrite Hv; by exists sl).
  unfold hoard_get_chunk. rewrite Hdir. cbn [get_loop Nat.add].
  destruct (hoard_find_spec s Hi Hwf t) as (r & s1 & -> & Hun & Hsuf & Hi1 & Hfound). cbn [mbind option_bind].
  destruct r as [err|[[o l] [|]]].
  - destruct Hfound as [_ [[_ Hni]|?]]; [destruct Hni; exists (hs_offset sl), (hs_length sl); by left|done].
  - destruct Hfound as (l' & (sl' & Hsl' & Ht' & <- & <-) & ->).
    assert (sl' = sl) as ->.
    { apply (wf_slot_tags _ Hwf) with (t := t); try done. by rewrite Hv. }
    assert (usable s1) as Hu1 by (eapply usable_later; try done; rewrite (idle_data _ _ Hi1); done).
    destruct (hoard_read_spec s1 t (hs_offset sl) (hs_length sl) Hu1) as (err & buf & s2 & -> & _ & _ & Hgood & Hok).
    cbn [mbind option_bind].
    pose proof (fair_later _ _ Hun Hsuf Hfair) as [_ Hio]. pose proof (fr_file _ _ _ Hun) as Hf1. unfold untouched in Hf1.
    assert (err = PK_SUCCESS) as ->.
    { apply Hok; [done|]. rewrite Hf1, Hfile, Hlen. split; [by apply (slot_aligned (idx s) Hwf sl); rewrite Hv|]. by rewrite Hcont. }
    rewrite decide_False by (intros Hn; by apply Hn). exists buf, s2. split; [done|]. by apply Hgood.
  - destruct Hfound as [Hns _]. destruct Hns. by exists (hs_offset sl), (hs_length sl).
Qed.

(** ** Examples *)

(** Two processes; the first has a slot with the chunk [4; 5] at the beginning of the file, the second has
    none; another slot is free. *)
Definition demo_slot : hslot := mk_hslot (Some (Fips180.sha1 [4; 5])) 0 2 1.
Definition demo_chunks : list hchunk := [mk_hchunk None 0 0 0 true; mk_hchunk None 256 0 0 false].
Definition demo_parcels : list hparcel := [mk_hparcel 1 "u1" "server" "user" "name"].

Definition demo_world : world := mk_world demo_chunks [] demo_parcels [4; 5] {[0%nat := [demo_slot]; 1%nat := []]} false.
Definition demo_start : world := mk_world demo_chunks [] demo_parcels [4; 5] ∅ false.

Definition demo_process (w : world) (slots : list hslot) (fs : list (option (sqlite_fault * bool))) : hoard_state :=
  mk_hstate (mk_parcel IU_CHUNK_CRY_AES_SHA1 0 16 SLOT_SIZE 512 20) true (mk_db (view w slots) None fs false SQLITE_OK false 0) (w_file w) [].

Lemma demo_sees w slots fs : sees w slots (demo_process w slots fs).
Proof. by split. Qed.

Lemma demo_chunks_wf refs parcels slots :
  slots = [] \/ slots = [demo_slot] -> hoard_wf (mk_hoard demo_chunks refs slots parcels).
Proof.
  intros Hs. assert (forall sl, sl ∈ slots -> sl = demo_slot) as Hone.
  { destruct Hs as [->| ->]; [by intros sl Hsl%not_elem_of_nil|by intros sl ->%list_elem_of_singleton]. }
  unfold demo_chunks. split; cbn [hd_chunks hd_slots].
  - apply NoDup_cons; split; [by intros ?%list_elem_of_singleton|apply NoDup_singleton].
  - by intros r1 r2 t [->|[->|[]%not_elem_of_nil]%elem_of_cons]%elem_of_cons _.
  - destruct Hs as [->| ->]; [apply NoDup_nil_2|apply NoDup_singleton].
  - by intros r1 r2 t ->%Hone ->%Hone.
  - intros sl ->%Hone. exists (mk_hchunk None 0 0 0 true). split; [by left|done].
  - by intros r [->|[->|[]%not_elem_of_nil]%elem_of_cons]%elem_of_cons.
  - by intros r [->|[->|[]%not_elem_of_nil]%elem_of_cons]%elem_of_cons.
  - by intros sl ->%Hone.
Qed.

Lemma demo_numbered : numbered demo_parcels.
Proof. exists 1. split; [done|]. split; [apply NoDup_singleton|apply NoDup_singleton|by apply Forall_singleton]. Qed.

Lemma demo_consistent : consistent demo_world.
Proof.
  assert (forall p slots, w_live demo_world !! p = Some slots -> p = 0%nat /\ slots = [demo_slot] \/ slots = []) as Hlive.
  { cbn [demo_world w_live]. intros p slots [[<- <-]|[_ [_ <-]%lookup_singleton_Some]]%lookup_insert_Some; [by left|by right]. }
  split; [apply demo_chunks_wf; by left|by repeat constructor|apply demo_numbered| | |done].
  - intros p slots [[_ ->]| ->]%Hlive; apply demo_chunks_wf; auto.
  - intros p q sp sq Hne [[-> ->]| ->]%Hlive [[-> ->]| ->]%Hlive a b Ha Hb; try done;
      [by apply not_elem_of_nil in Hb|by apply not_elem_of_nil in Ha|by apply not_elem_of_nil in Ha].
Qed.

Lemma hoard_processes_separate_witness :
  let w := set_live (<[1%nat := []]> ∅) demo_start in hoard_wf (view w []) /\ bytes (w_file w).
Proof.
  intros w. destruct (hoard_processes_separate demo_start w) as (? & ? & _); [apply demo_chunks_wf; by left|by repeat constructor|
    apply demo_numbered|done| |by split].
  eapply reach_step; [apply reach_start|]. by apply (step_start demo_start 1%nat).
Defined.

(** The second process stores a chunk, while SQLite and the disk fail. *)
Definition demo_op : op := Put (Fips180.sha1 [6]) [6].

Lemma demo_sensible : sensible demo_op demo_world.
Proof.
  split_and!; [by repeat constructor|done|done|reflexivity|]. by apply Forall_cons; split; [|apply Forall_singleton].
Qed.

Lemma hoard_round_harmless_witness : exists s',
  run demo_op (demo_process demo_world [] [None; None; Some (F_IOERR, true)]) = Some s' /\ consistent (share 1%nat s' demo_world).
Proof.
  destruct (hoard_round_harmless demo_world 1%nat [] demo_op (demo_process demo_world [] [None; None; Some (F_IOERR, true)]))
    as (s' & Hr & Hc & _); [apply demo_consistent|done|apply demo_sees|apply demo_sensible|].
  exists s'. split; [exact Hr|exact Hc].
Defined.

Lemma demo_holds : holds [4; 5] 0 [4; 5].
Proof. split; [by unfold SLOT_SIZE|reflexivity]. Qed.

(** The second process has stored a chunk and died, and another process has started. *)
Lemma hoard_own_chunk_readable_witness : exists w' buf s', others 0%nat demo_world w' /\
  hoard_get_chunk (Fips180.sha1 [4; 5]) (demo_process w' [demo_slot] [Some (F_BUSY, false)]) = Some ((PK_SUCCESS, buf), s') /\
  Fips180.sha1 buf = Fips180.sha1 [4; 5].
Proof.
  destruct (run_step demo_world 1%nat [] demo_op (demo_process demo_world [] []) demo_consistent eq_refl (demo_sees _ _ _) demo_sensible)
    as (s1 & Hr & _).
  set (w1 := share 1%nat s1 demo_world). set (w2 := set_live (delete 1%nat (w_live w1)) w1).
  assert (others 0%nat demo_world w2) as Hoth.
  { eapply others_step; [eapply others_step; [apply others_none| |]| |].
    - eapply (step_run demo_world 1%nat [] demo_op); [done|apply demo_sees|apply demo_sensible|exact Hr].
    - done.
    - apply (step_exit w1 1%nat).
    - done. }
  exists w2.
  destruct (hoard_own_chunk_readable demo_world w2 0%nat [demo_slot] demo_slot (Fips180.sha1 [4; 5]) [4; 5]
    (demo_process w2 [demo_slot] [Some (F_BUSY, false)])) as (buf & s' & Hget & Hsha);
    [apply demo_consistent|reflexivity|by left|reflexivity|exact demo_holds|reflexivity|reflexivity|exact Hoth|apply demo_sees|
     reflexivity|reflexivity|split; [by apply Forall_singleton|reflexivity]|].
  exists buf, s'. split; [exact Hoth|]. split; [exact Hget|exact Hsha].
Defined.
