(* ===== verification/HoardIndex.v ===== *)
(** HoardIndex: opening the hoard cache (src/parcelkeeper/hoard.c) — the creation of the index, its
    upgrade from the older formats, and hoard_init.

    An index file is its format version, its schema, and the rows of its tables.  The schema maps the
    name of a table to the declarations of its columns, and that of an index to the columns it covers. *)

From stdpp Require Import strings gmap.
From S2P Require Import Prelude Cipher HashStream Sha1 Hash Compress LzfStream Chunk Effects Sql SqlConn Pk Hoard HoardProofs HoardChunks HoardAdmin.

Definition HOARD_INDEX_VERSION : Z := 9.

Inductive object :=
  | Table (columns : list (string * string))
  | Index (table : string) (columns : list string).

#[global] Instance object_eq_dec : EqDecision object.
Proof. solve_decision. Defined.

Definition schema : Type := gmap string object.

(** [hi_old] has the rows of chunks_old, whose column "referenced" is [hc_allocated].  The temporary
    table of slots is "temp.slots". *)
Record hoard_index := mk_index {
  hi_version : Z;
  hi_schema : schema;
  hi_old : list hchunk;
  hi_tables : hoard_db
}.

Definition set_hi_version v i := mk_index v (hi_schema i) (hi_old i) (hi_tables i).
Definition set_hi_schema v i := mk_index (hi_version i) v (hi_old i) (hi_tables i).

Definition iq (A : Type) : Type := hoard_index -> stmt_error + hoard_index * list A.

(** * Statements *)

(** PRAGMA user_version *)
Definition sql_get_version : iq Z := fun i => inr (i, [hi_version i]).

(** PRAGMA user_version = ... *)
Definition sql_set_version (v : Z) : iq () := fun i => inr (set_hi_version v i, []).

(** CREATE TABLE *)
Definition sql_create_table (name : string) (columns : list (string * string)) : iq () := fun i =>
  match hi_schema i !! name with
  | Some _ => inl E_ERROR
  | None => inr (set_hi_schema (<[name := Table columns]> (hi_schema i)) i, [])
  end.

(** CREATE INDEX *)
Definition sql_create_index (name table : string) (columns : list string) : iq () := fun i =>
  match hi_schema i !! name, hi_schema i !! table with
  | None, Some (Table cols) =>
      if decide (Forall (fun c => c ∈ cols.*1) columns)
      then inr (set_hi_schema (<[name := Index table columns]> (hi_schema i)) i, [])
      else inl E_ERROR
  | _, _ => inl E_ERROR
  end.

(** CREATE UNIQUE INDEX refs_constraint ON refs (parcel, tag), which fails if the rows are not unique. *)
Definition sql_create_refs_constraint : iq () := fun i =>
  if decide (NoDup (hd_refs (hi_tables i))) then sql_create_index "refs_constraint" "refs" ["parcel"; "tag"] i
  else inl E_CONSTRAINT.

(** DROP INDEX *)
Definition sql_drop_index (name : string) : iq () := fun i =>
  match hi_schema i !! name with
  | Some (Index _ _) => inr (set_hi_schema (delete name (hi_schema i)) i, [])
  | _ => inl E_ERROR
  end.

Definition has_column (s : schema) (table : string) (column : string) : Prop :=
  match s !! table with Some (Table cols) => column ∈ cols.*1 | _ => False end.

#[global] Instance has_column_dec s table column : Decision (has_column s table column).
Proof. unfold has_column. destruct (s !! table) as [[]|]; apply _. Defined.

Definition repoint (from to : string) (o : object) : object :=
  match o with
  | Index table cols => if decide (table = from) then Index to cols else o
  | Table _ => o
  end.

(** ALTER TABLE chunks RENAME TO chunks_old; the indices of the table go with it. *)
Definition sql_rename_chunks : iq () := fun i =>
  match hi_schema i !! "chunks", hi_schema i !! "chunks_old" with
  | Some (Table cols), None =>
      inr (mk_index (hi_version i)
             (<["chunks_old" := Table cols]> (delete "chunks" (repoint "chunks" "chunks_old" <$> hi_schema i)))
             (hd_chunks (hi_tables i)) (set_hchunks [] (hi_tables i)), [])
  | _, _ => inl E_ERROR
  end.

(** The UNIQUE columns of chunks, in which NULL does not count. *)
Definition unique_chunks (t : list hchunk) : Prop := NoDup (hc_offset <$> t) /\ NoDup (omap hc_tag t).

#[global] Instance unique_chunks_dec t : Decision (unique_chunks t).
Proof. unfold unique_chunks. apply _. Defined.

(** INSERT INTO chunks (tag, offset, length, crypto, allocated) SELECT tag, offset, length, crypto,
    referenced FROM chunks_old *)
Definition sql_copy_chunks : iq Z := fun i =>
  if decide (Forall (has_column (hi_schema i) "chunks") ["tag"; "offset"; "length"; "crypto"; "allocated"] /\
             Forall (has_column (hi_schema i) "chunks_old") ["tag"; "offset"; "length"; "crypto"; "referenced"])
  then
    let t := hd_chunks (hi_tables i) ++ hi_old i in
    if decide (unique_chunks t)
    then inr (mk_index (hi_version i) (hi_schema i) (hi_old i) (set_hchunks t (hi_tables i)), [Z.of_nat (length (hi_old i))])
    else inl E_CONSTRAINT
  else inl E_ERROR.

(** An object that is not the table, nor an index of it. *)
Definition not_of (table : string) (e : string * object) : Prop :=
  e.1 <> table /\ match e.2 with Index t _ => t <> table | Table _ => True end.

#[global] Instance not_of_dec table e : Decision (not_of table e).
Proof. unfold not_of. destruct e as [n [?|t ?]]; apply _. Defined.

(** DROP TABLE chunks_old; its indices go with it. *)
Definition sql_drop_old : iq () := fun i =>
  match hi_schema i !! "chunks_old" with
  | Some (Table _) =>
      inr (mk_index (hi_version i) (filter (not_of "chunks_old") (hi_schema i)) [] (hi_tables i), [])
  | _ => inl E_ERROR
  end.

(** A chunk that no parcel refers to, by the old reckoning. *)
Definition unallocated (r : hchunk) : Prop := hc_allocated r = false /\ is_Some (hc_tag r).

(** UPDATE chunks SET tag = NULL, length = 0, crypto = 0 WHERE allocated == 0 AND tag NOTNULL *)
Definition sql_clear_unallocated : iq Z := fun i =>
  let t := hd_chunks (hi_tables i) in
  inr (mk_index (hi_version i) (hi_schema i) (hi_old i)
         (set_hchunks (update unallocated (fun r => mk_hchunk None (hc_offset r) 0 0 (hc_allocated r)) t) (hi_tables i)),
       changes unallocated t).

(** * Creation and upgrade *)

(** A statement whose failure is PK_IOERR. *)
Definition must {A} (q : iq A) : pk (db hoard_index) pk_err () :=
  '(ok, _) ← on_db (query (Stmt q)); if negb ok then ret PK_IOERR else pk_ret ().

Definition parcels_columns : list (string * string) :=
  [("parcel", "INTEGER PRIMARY KEY NOT NULL"); ("uuid", "TEXT UNIQUE NOT NULL"); ("server", "TEXT NOT NULL");
   ("user", "TEXT NOT NULL"); ("name", "TEXT NOT NULL")].

Definition chunks_columns : list (string * string) :=
  [("tag", "BLOB UNIQUE"); ("offset", "INTEGER UNIQUE NOT NULL"); ("length", "INTEGER NOT NULL DEFAULT 0");
   ("crypto", "INTEGER NOT NULL DEFAULT 0"); ("allocated", "INTEGER NOT NULL DEFAULT 0")].

Definition refs_columns : list (string * string) := [("parcel", "INTEGER NOT NULL"); ("tag", "BLOB NOT NULL")].

Definition slots_columns : list (string * string) :=
  [("tag", "BLOB UNIQUE"); ("offset", "INTEGER UNIQUE NOT NULL"); ("length", "INTEGER NOT NULL DEFAULT 0");
   ("crypto", "INTEGER NOT NULL DEFAULT 0")].

Definition create_hoard_index : db hoard_index -> option (pk_err * db hoard_index) := body (
  _ ← must (sql_set_version HOARD_INDEX_VERSION);
  _ ← must (sql_create_table "parcels" parcels_columns);
  _ ← must (sql_create_table "chunks" chunks_columns);
  _ ← must (sql_create_index "chunks_allocated" "chunks" ["allocated"; "offset"]);
  _ ← must (sql_create_table "refs" refs_columns);
  _ ← must sql_create_refs_constraint;
  _ ← must (sql_create_index "refs_bytag" "refs" ["tag"; "parcel"]);
  ret PK_SUCCESS).

(** The cases of the switch, each of which falls through to the next. *)
Definition upgrade_5 : pk (db hoard_index) pk_err () :=
  _ ← must (sql_drop_index "chunks_lru");
  must (sql_create_index "chunks_lru" "chunks" ["referenced"; "last_access"]).

Definition upgrade_6 : pk (db hoard_index) pk_err () := must (sql_create_index "refs_bytag" "refs" ["tag"; "parcel"]).

Definition upgrade_7 : pk (db hoard_index) pk_err () :=
  _ ← must sql_rename_chunks;
  _ ← must (sql_create_table "chunks" chunks_columns);
  _ ← must sql_copy_chunks;
  _ ← must (sql_create_index "chunks_allocated" "chunks" ["allocated"]);
  _ ← must sql_drop_old;
  must sql_clear_unallocated.

Definition upgrade_8 : pk (db hoard_index) pk_err () :=
  _ ← must (sql_drop_index "chunks_allocated");
  must (sql_create_index "chunks_allocated" "chunks" ["allocated"; "offset"]).

Definition upgrade_hoard_index (ver : Z) : db hoard_index -> option (pk_err * db hoard_index) := body (
  if decide (ver < 5 \/ 8 < ver) then ret PK_BADFORMAT
  else
    _ ← (if decide (ver <= 5) then upgrade_5 else pk_ret ());
    _ ← (if decide (ver <= 6) then upgrade_6 else pk_ret ());
    _ ← (if decide (ver <= 7) then upgrade_7 else pk_ret ());
    _ ← upgrade_8;
    _ ← must (sql_set_version HOARD_INDEX_VERSION);
    ret PK_SUCCESS).

Definition create_slot_cache : db hoard_index -> option (pk_err * db hoard_index) := body (
  _ ← must (sql_create_table "temp.slots" slots_columns); ret PK_SUCCESS).

(** * Opening *)

(** The version decides. *)
Definition prepare_index (ver : Z) : pk (db hoard_index) pk_err pk_err :=
  if decide (ver = 0) then call create_hoard_index
  else if decide (ver < HOARD_INDEX_VERSION) then call (upgrade_hoard_index ver)
  else if decide (HOARD_INDEX_VERSION < ver) then pk_ret PK_BADFORMAT
  else pk_ret PK_SUCCESS.

Definition open_index_steps : pk (db hoard_index) pk_err pk_err :=
  '(_, rows) ← on_db (query (Stmt sql_get_version));
  has ← gets query_has_row;
  if negb has then goto_bad PK_IOERR
  else
    match rows with
    | [] => fault
    | v :: _ =>
        err ← prepare_index (s32 v);
        if decide (err <> PK_SUCCESS) then goto_bad err
        else
          err ← call create_slot_cache;
          if decide (err <> PK_SUCCESS) then goto_bad err
          else
            ok ← try_db commit;
            if ok : bool then ret PK_SUCCESS else goto_bad PK_IOERR
    end.

Definition open_index_body : pk (db hoard_index) pk_err pk_err :=
  ok ← try_db begin; if ok : bool then open_index_steps else ret PK_IOERR.

(** sql_conn_close: an open transaction is rolled back, and the temporary table goes. *)
Definition close_index (b : db hoard_index) : hoard_index :=
  let i := default (data b) (saved b) in
  mk_index (hi_version i) (delete "temp.slots" (hi_schema i)) (hi_old i) (set_hslots [] (hi_tables i)).

(** The result, the connection or else the file as it is left, and the main connection, to which
    [attach_to] makes the tables of the hoard cache visible. *)
Section open.
Context {M : Type} (attach_to detach : M -> M).

Definition open_hoard_index (i : hoard_index) (opened : bool) (fs : list (option (sqlite_fault * bool))) (main : db M) :
    option (pk_err * (db hoard_index + hoard_index) * db M) :=
  c ← sql_conn_open (if opened then Some i else None) fs;
  match c with
  | None => Some (PK_IOERR, inr i, main)
  | Some b =>
      '(err, b) ← transaction open_index_body b;
      if decide (err <> PK_SUCCESS) then Some (err, inr (close_index b), main)
      else
        '(ok, main) ← attach attach_to detach main;
        if ok : bool then Some (PK_SUCCESS, inl b, main) else Some (PK_IOERR, inr (close_index b), main)
  end.
End open.

(** * What the statements do together *)

Section must.
Context (fs : list (option (sqlite_fault * bool))) (i0 : hoard_index).

Definition at_index (i : hoard_index) (b : db hoard_index) : Prop := active i0 i b /\ within fs b.

Definition refused (b : db hoard_index) : Prop :=
  broken fs i0 b /\ within fs b /\ (query_busy b = false -> ~ Forall contention fs).

(** The result of a group of statements. *)
Definition prepared (i : hoard_index) (err : pk_err) (b : db hoard_index) : Prop :=
  err = PK_SUCCESS /\ at_index i b \/ err = PK_IOERR /\ refused b.

Lemma must_ok {A} (q : iq A) i i' rows Q (X : exit pk_err -> db hoard_index -> Prop) :
  q i = inr (i', rows) -> (forall b, at_index i' b -> Q () b) -> (forall b, refused b -> X (Return PK_IOERR) b) ->
  triple (at_index i) (must q) Q X.
Proof.
  intros Hq HQ HX b [Ha Hw]. unfold must.
  destruct (tx_query (S:=db hoard_index) (R:=pk_err) fs i0 i q (fun _ => True)) with (s := b) as (r & b' & Hr & Hpost);
    [done|by split_and!|].
  destruct r as [[ok rows']|]; [|done]. destruct Hpost as (Hw' & _ & Hout). rewrite (bind_step _ _ _ _ _ Hr). destruct ok; simpl.
  - destruct Hout as (d1 & Hd1 & Ha' & _). rewrite Hq in Hd1. injection Hd1 as -> ->. eexists _, _. split; [done|]. by apply HQ.
  - destruct Hout as (_ & Hb & _ & Hcase). eexists _, _. split; [done|]. apply HX. split_and!; try done. intros Hnb.
    destruct (Hcase Hnb) as [(e & He)|?]; [congruence|done].
Qed.

(** A group of statements that takes the index from [i] to [i']. *)
Definition group (i i' : hoard_index) (m : pk (db hoard_index) pk_err ()) : Prop :=
  triple (at_index i) m (fun _ => at_index i') (fun e b => e = Return PK_IOERR /\ refused b).

Lemma must_group {A} (q : iq A) i i' rows : q i = inr (i', rows) -> group i i' (must q).
Proof. intros Hq. by eapply must_ok. Qed.

Lemma group_bind i i1 i' m m' : group i i1 m -> group i1 i' m' -> group i i' (_ ← m; m').
Proof. intros Hm Hm'. eapply triple_bind; [exact Hm|]. intros a. exact Hm'. Qed.

Lemma group_skip (P : Prop) `{!Decision P} i i' m :
  (P -> group i i' m) -> (~ P -> i = i') -> group i i' (if decide P then m else pk_ret ()).
Proof. intros Hm Hn. destruct (decide P) as [HP|HP]; [by apply Hm|]. rewrite (Hn HP). by apply triple_ret. Qed.

Lemma group_step i i1 i' m (k : pk (db hoard_index) pk_err pk_err) :
  group i i1 m -> triple (at_index i1) k (prepared i') (fun e => prepared i' (exit_result e)) ->
  triple (at_index i) (_ ← m; k) (prepared i') (fun e => prepared i' (exit_result e)).
Proof.
  intros Hm Hk. eapply triple_bind with (Q := fun _ => at_index i1); [|done].
  eapply triple_weaken; [exact Hm|done..|]. intros e b [-> Hb]. right. by split.
Qed.

Lemma prepared_done i : triple (at_index i) (ret PK_SUCCESS) (prepared i) (fun e => prepared i (exit_result e)).
Proof. apply triple_return. intros b Hb. by left. Qed.

(** ** The formats *)

(** The tables of chunks of the old formats had these columns, declared in some way, and maybe more. *)
Context (decl : string -> string) (lru : list string) (more : list (string * string)).

Definition old_columns : list (string * string) :=
  ((fun c => (c, decl c)) <$> ["tag"; "offset"; "length"; "crypto"; "referenced"; "last_access"]) ++ more.

Definition common : schema :=
  {[ "parcels" := Table parcels_columns; "refs" := Table refs_columns; "refs_constraint" := Index "refs" ["parcel"; "tag"] ]}.

Definition bytag (s : schema) : schema := <["refs_bytag" := Index "refs" ["tag"; "parcel"]]> s.

Definition old_chunks (lru : list string) (s : schema) : schema :=
  <["chunks" := Table old_columns]> (<["chunks_lru" := Index "chunks" lru]> s).

Definition new_chunks (cols : list string) (s : schema) : schema :=
  <["chunks" := Table chunks_columns]> (<["chunks_allocated" := Index "chunks" cols]> s).

(** The schema of a version. *)
Definition format (ver : Z) : schema :=
  if decide (ver = 5) then old_chunks lru common
  else if decide (ver = 6) then old_chunks ["referenced"; "last_access"] common
  else if decide (ver = 7) then old_chunks ["referenced"; "last_access"] (bytag common)
  else if decide (ver = 8) then new_chunks ["allocated"] (bytag common)
  else if decide (ver = 9) then new_chunks ["allocated"; "offset"] (bytag common)
  else ∅.

(** The chunks that a parcel refers to are kept, and the places of the others are free. *)
Definition cleared (d : hoard_db) : hoard_db :=
  set_hchunks (update unallocated (fun r => mk_hchunk None (hc_offset r) 0 0 (hc_allocated r)) (hd_chunks d)) d.

Definition migrate (ver : Z) (d : hoard_db) : hoard_db := if decide (5 <= ver <= 7) then cleared d else d.

(** A file that says it is of version [ver], and has the schema of version [f]. *)
Definition file_as (ver f : Z) (d : hoard_db) : hoard_index := mk_index ver (format f) [] d.

Definition index_file (ver : Z) (d : hoard_db) : hoard_index := file_as ver ver d.

(** Evaluates a statement on the schema. *)
Local Ltac eval_stmt :=
  lazymatch goal with |- ?l = _ =>
    let r := eval vm_compute in l in transitivity r; [vm_compute; reflexivity|reflexivity]
  end.

Local Ltac run_stmt := eapply must_group; eval_stmt.

Definition empty_hoard : hoard_db := mk_hoard [] [] [] [].

Lemma create_ok : triple (at_index (index_file 0 empty_hoard))
  (call create_hoard_index : pk (db hoard_index) pk_err _) (prepared (index_file 9 empty_hoard)) (fun _ _ => False).
Proof. apply triple_call_body. do 7 (eapply group_step; [run_stmt|]). apply prepared_done. Qed.

Lemma upgrade_5_ok ver d : group (file_as ver 5 d) (file_as ver 6 d) upgrade_5.
Proof. eapply group_bind; run_stmt. Qed.

Lemma upgrade_6_ok ver d : group (file_as ver 6 d) (file_as ver 7 d) upgrade_6.
Proof. run_stmt. Qed.

(** During the upgrade there are the old table and the new one. *)
Definition both : schema :=
  <["chunks" := Table chunks_columns]> (<["chunks_old" := Table old_columns]>
    (<["chunks_lru" := Index "chunks_old" ["referenced"; "last_access"]]> (bytag common))).

Lemma copy_ok ver d : unique_chunks (hd_chunks d) ->
  group (mk_index ver both (hd_chunks d) (set_hchunks [] d)) (mk_index ver both (hd_chunks d) d) (must sql_copy_chunks).
Proof.
  intros Hu. eapply must_group. unfold sql_copy_chunks. rewrite decide_True by (split; vm_compute; repeat (constructor; try tauto)).
  cbn [hi_tables hi_old hd_chunks set_hchunks app]. rewrite decide_True by done. by destruct d.
Qed.

Lemma upgrade_7_ok ver d : unique_chunks (hd_chunks d) -> group (file_as ver 7 d) (file_as ver 8 (cleared d)) upgrade_7.
Proof.
  intros Hu. eapply group_bind; [run_stmt|]. eapply group_bind; [run_stmt|]. eapply group_bind; [by apply (copy_ok ver d)|].
  eapply group_bind; [run_stmt|]. eapply group_bind; run_stmt.
Qed.

Lemma upgrade_8_ok ver d : group (file_as ver 8 d) (file_as ver 9 d) upgrade_8.
Proof. eapply group_bind; run_stmt. Qed.

Lemma upgrade_ok ver d : 5 <= ver <= 8 -> (ver <= 7 -> unique_chunks (hd_chunks d)) ->
  triple (at_index (index_file ver d)) (call (upgrade_hoard_index ver) : pk (db hoard_index) pk_err _)
    (prepared (index_file 9 (migrate ver d))) (fun _ _ => False).
Proof.
  intros Hv Hu. apply triple_call_body. rewrite decide_False by lia.
  eapply group_step with (i1 := file_as ver (Z.max ver 6) d).
  { apply group_skip; intros Hle.
    - replace ver with 5 by lia. apply upgrade_5_ok.
    - unfold index_file. by rewrite Z.max_l by lia. }
  eapply group_step with (i1 := file_as ver (Z.max ver 7) d).
  { apply group_skip; intros Hle.
    - rewrite !Z.max_r by lia. apply upgrade_6_ok.
    - by rewrite !Z.max_l by lia. }
  eapply group_step with (i1 := file_as ver 8 (migrate ver d)).
  { apply group_skip; intros Hle; unfold migrate.
    - rewrite Z.max_r, decide_True by lia. by apply upgrade_7_ok, Hu.
    - rewrite Z.max_l, decide_False by lia. by replace ver with 8 by lia. }
  eapply group_step; [apply upgrade_8_ok|]. eapply group_step; [by eapply must_group|]. apply prepared_done.
Qed.

(** ** The whole transaction *)

(** A new file, or one of a format that can be upgraded. *)
Definition supported (ver : Z) (d : hoard_db) : Prop :=
  ver = 0 /\ d = empty_hoard \/ 5 <= ver <= 9 /\ (ver <= 7 -> unique_chunks (hd_chunks d)).

Lemma prepare_ok ver d : supported ver d ->
  triple (at_index (index_file ver d)) (prepare_index ver) (prepared (index_file 9 (migrate ver d))) (fun _ _ => False).
Proof.
  intros Hs. unfold prepare_index, HOARD_INDEX_VERSION. case_decide as H0.
  { destruct Hs as [[-> ->]|?]; [apply create_ok|lia]. }
  destruct Hs as [[? _]|[Hv Hu]]; [done|]. case_decide; [apply upgrade_ok; [lia|done]|]. rewrite decide_False by lia.
  assert (ver = 9) as -> by lia. apply triple_ret. intros b Hb. by left.
Qed.

Definition with_slots (i : hoard_index) : hoard_index :=
  set_hi_schema (<["temp.slots" := Table slots_columns]> (hi_schema i)) i.

Lemma slots_ok i : hi_schema i !! "temp.slots" = None ->
  triple (at_index i) (call create_slot_cache : pk (db hoard_index) pk_err _) (prepared (with_slots i)) (fun _ _ => False).
Proof.
  intros Hn. apply triple_call_body. eapply group_step; [|apply prepared_done]. eapply must_group.
  unfold sql_create_table. by rewrite Hn.
Qed.

Definition opened_as (i : hoard_index) (err : pk_err) (b : db hoard_index) : Prop :=
  err = PK_SUCCESS /\ idle i b /\ within fs b.

(** What fails without contention. *)
Definition open_failed (unsupported : bool) (err : pk_err) : Prop :=
  err = PK_IOERR /\ ~ Forall contention fs \/ unsupported = true /\ err = PK_BADFORMAT.

Local Abbreviation leave unsupported := (fun i => tx_exit fs i0 (fun _ : db hoard_index => True) (opened_as i) (open_failed unsupported)).

Lemma refused_leave i u b : refused b -> leave u i (Goto_bad PK_IOERR) b.
Proof. intros (Hb & Hw & Hn). split_and!; try done. intros Hnb. left. split; [done|]. by apply Hn. Qed.

Lemma prepared_step i i' u (f : pk (db hoard_index) pk_err pk_err) P (k : pk (db hoard_index) pk_err pk_err) :
  triple P f (prepared i) (fun _ _ => False) -> triple (at_index i) k (opened_as i') (leave u i') ->
  triple P (err ← f; if decide (err <> PK_SUCCESS) then goto_bad err else k) (opened_as i') (leave u i').
Proof.
  intros Hf Hk. eapply triple_bind with (Q := prepared i); [by eapply triple_weaken|].
  intros err b [[-> Hb]|[-> Hb]].
  - rewrite decide_False by (intros Hn; by apply Hn). by apply Hk.
  - rewrite decide_True by done. eexists _, _. split; [done|]. by apply refused_leave.
Qed.

(** The version is read. *)
Lemma version_step i Q X (k : Z -> pk (db hoard_index) pk_err pk_err) :
  triple (at_index i) (k (hi_version i)) Q X -> (forall b, refused b -> X (Goto_bad PK_IOERR) b) ->
  triple (at_index i)
    ('(_, rows) ← on_db (query (Stmt sql_get_version)); has ← gets query_has_row;
     if negb has then goto_bad PK_IOERR else match rows with [] => fault | v :: _ => k v end) Q X.
Proof.
  intros Hk HX b [Ha Hw].
  destruct (tx_query (S:=db hoard_index) (R:=pk_err) fs i0 i sql_get_version (fun _ => True)) with (s := b) as (r & b' & Hr & Hpost);
    [done|by split_and!|].
  destruct r as [[ok rows]|]; [|done]. destruct Hpost as (Hw' & _ & Hout). rewrite (bind_step _ _ _ _ _ Hr), bind_gets.
  unfold on_db in Hr. destruct (query (Stmt sql_get_version) (get_db b)) as [[ok1 rows1] b1] eqn:Hq. injection Hr as -> -> Hb1.
  apply query_flag in Hq. simpl in Hb1. subst b1. unfold query_has_row. destruct ok.
  - destruct Hout as (d1 & Hd1 & Ha' & Hres). injection Hd1 as <- <-. simpl in Hres. rewrite Hres. simpl. by apply Hk.
  - destruct Hout as (_ & Hb & _ & Hcase). destruct (result b') eqn:Hres; simpl in Hq; try done.
    all: rewrite bool_decide_false by done; eexists _, _; split; [done|]; apply HX; split_and!; try done.
    all: intros Hnb; destruct (Hcase Hnb) as [(e & He)|?]; [done|done].
Qed.

Lemma open_steps_ok ver d : supported ver d ->
  triple (at_index (index_file ver d)) open_index_steps (opened_as (with_slots (index_file 9 (migrate ver d))))
    (leave false (with_slots (index_file 9 (migrate ver d)))).
Proof.
  intros Hs. apply version_step; [|intros b; apply refused_leave].
  replace (s32 _) with ver by (symmetry; apply s32_id; destruct Hs as [[-> _]|[? _]]; simpl; lia).
  eapply prepared_step; [by apply prepare_ok|]. eapply prepared_step; [by apply slots_ok|].
  apply self_commit; [by intros; split_and!|]. intros Hc. left. by split.
Qed.

(** A file that is too old, or too new. *)
Lemma open_unsupported i j : s32 (hi_version i) <> 0 -> s32 (hi_version i) < 5 \/ 9 < s32 (hi_version i) ->
  triple (at_index i) open_index_steps (opened_as j) (leave true j).
Proof.
  intros H0 Hv. apply version_step; [|intros b; apply refused_leave].
  eapply triple_bind with (Q := fun err b => err = PK_BADFORMAT /\ at_index i b).
  { unfold prepare_index, HOARD_INDEX_VERSION. rewrite decide_False by done. case_decide.
    - apply triple_call_body. rewrite decide_True by lia. apply triple_return. by intros b Hb.
    - rewrite decide_True by lia. apply triple_ret. by intros b Hb. }
  intros err b [-> [Ha Hw]]. simpl. eexists _, _. split; [done|]. split_and!; try done.
  - destruct Ha as (? & ? & ? & ? & Hnb). split_and!; auto. intros Hq. by apply bool_decide_eq_true in Hq.
  - intros _. by right.
Qed.
End must.
