(* ===== verification/HoardInit.v ===== *)
(** HoardInit: the life of a hoard cache across processes (hoard_init and hoard_shutdown of
    src/parcelkeeper/hoard.c): a session opens the file and its index, which may need an upgrade, works
    with them, cleans up and closes them; what it stored is there for the next session. *)

From stdpp Require Import strings gmap.
From S2P Require Import Prelude Cipher HashStream Sha1 Hash Compress LzfStream Chunk Effects Sql SqlConn Pk Hoard HoardProofs HoardChunks HoardAdmin HoardIndex.

(** What hoard_init is given and finds. *)
Record hoard_conf := mk_hconf {
  hf_dir : bool;  (** conf->hoard_dir is set *)
  hf_dir_ok : bool;  (** the directory exists, or can be made *)
  hf_fd : bool;  (** the file can be opened *)
  hf_lock : pk_err;  (** get_file_lock for reading *)
  hf_index : bool;  (** sqlite3_open of the index succeeds *)
  hf_parcel_dir : bool;  (** conf->parcel_dir is set *)
  hf_parcel : pk_parcel;
  hf_uuid : string;
  hf_server : string;
  hf_user : string;
  hf_name : string;
  hf_faults : list (option (sqlite_fault * bool));
  hf_io : list (option nat)
}.

Record hoard_disk := mk_hdisk { hk_index : hoard_index; hk_file : list Z }.

(** A running session: the number of the parcel, what the session does not change of the index, and the
    state of hoard.c. *)
Record hoard_session := mk_hsession { se_ident : Z; se_index : hoard_index; se_state : hoard_state }.

Definition map_tables (b : db hoard_index) : db hoard_db :=
  mk_db (hi_tables (data b)) (hi_tables <$> saved b) (faults b) (locked b) (result b) (use_transaction b) (retries b).

Definition start_session (c : hoard_conf) (b : db hoard_index) (file : list Z) : hoard_state :=
  mk_hstate (hf_parcel c) (hf_dir c) (map_tables b) file (hf_io c).

(** What is on the disk when the connection is closed. *)
Definition left_on_disk (i : hoard_index) (s : hoard_state) : hoard_disk :=
  mk_hdisk
    (mk_index (hi_version i) (delete "temp.slots" (hi_schema i)) (hi_old i)
       (set_hslots [] (default (data (hoard s)) (saved (hoard s)))))
    (hoard_file s).

Section init.
Context {M : Type} (attach_to detach : M -> M).

Definition hoard_init (c : hoard_conf) (k : hoard_disk) (main : db M) :
    option (pk_err * (hoard_session + hoard_disk) * db M) :=
  if negb (hf_dir c) then Some (PK_INVALID, inr k, main)
  else if decide (chunksize (hf_parcel c) <> 131072) then Some (PK_INVALID, inr k, main)
  else if negb (hf_dir_ok c) then Some (PK_CALLFAIL, inr k, main)
  else if negb (hf_fd c) then Some (PK_IOERR, inr k, main)
  else if decide (hf_lock c <> PK_SUCCESS) then Some (hf_lock c, inr k, main)
  else
    '(err, r, main) ← open_hoard_index attach_to detach (hk_index k) (hf_index c) (hf_faults c) main;
    match r with
    | inr i => Some (err, inr (mk_hdisk i (hk_file k)), main)
    | inl b =>
        let s := start_session c b (hk_file k) in
        if hf_parcel_dir c then
          '(err, ident, s) ← get_parcel_ident (hf_uuid c) (hf_server c) (hf_user c) (hf_name c) s;
          if decide (err <> PK_SUCCESS) then Some (err, inr (left_on_disk (data b) s), main)
          else Some (PK_SUCCESS, inl (mk_hsession ident (data b) s), main)
        else Some (PK_SUCCESS, inl (mk_hsession 0 (data b) s), main)
    end.
End init.

(** hoard_shutdown, down to the disk. *)
Definition end_session (lock : pk_err) (gc : Z -> bool) (vac : bool) (e : hoard_session) : option hoard_disk :=
  s ← hoard_shutdown lock gc vac (se_state e); Some (left_on_disk (se_index e) s).

(** * Opening the index *)

(** The rows of a file that can be opened: of a known format, or new. *)
Record rows_ok (ver : Z) (d : hoard_db) : Prop := mk_rows_ok {
  ro_version : ver = 0 /\ d = empty_hoard \/ 5 <= ver <= 9;
  ro_slots : hd_slots d = [];
  ro_unique : unique_chunks (hd_chunks d);
  ro_aligned r : r ∈ hd_chunks d -> aligned (hc_offset r);
  ro_free r : 8 <= ver -> r ∈ hd_chunks d -> hc_allocated r = false -> hc_tag r = None
}.

Lemma rows_supported ver d : rows_ok ver d -> supported ver d.
Proof. intros [[?|Hv] _ Hu _ _]; [by left|right]. by split. Qed.

(** The upgrade makes the index a well-formed one. *)
Lemma migrate_wf ver d : rows_ok ver d -> hoard_wf (migrate ver d).
Proof.
  intros [Hv Hs [Ho Ht] Ha Hf].
  assert (forall r1 r2 t, r1 ∈ hd_chunks d -> r2 ∈ hd_chunks d -> hc_tag r1 = Some t -> hc_tag r2 = Some t -> r1 = r2) as Htag.
  { clear -Ht. induction (hd_chunks d) as [|r l IH]; intros r1 r2 t H1 H2 E1 E2; [by apply not_elem_of_nil in H1|].
    apply elem_of_cons in H1, H2. cbn [omap list_omap] in Ht.
    assert (NoDup (omap hc_tag l)) as Hnd by (destruct (hc_tag r); [by apply NoDup_cons in Ht as [_ ?]|done]).
    assert (forall q, q ∈ l -> hc_tag r = Some t -> hc_tag q = Some t -> False) as Hno.
    { intros q Hq Er Eq. rewrite Er in Ht. apply NoDup_cons in Ht as [Hni _]. apply Hni, list_elem_of_omap. eauto. }
    destruct H1 as [->|H1], H2 as [->|H2]; [done|by destruct (Hno r2)|by destruct (Hno r1)|by eapply IH]. }
  unfold migrate. case_decide as H57.
  - assert (forall r, r ∈ hd_chunks (cleared d) -> exists r0, r0 ∈ hd_chunks d /\
      (unallocated r0 /\ r = mk_hchunk None (hc_offset r0) 0 0 (hc_allocated r0) \/ ~ unallocated r0 /\ r = r0)) as Hel
      by (intros r; apply elem_of_update).
    split; try (cbn [hd_slots cleared set_hchunks]; rewrite Hs; try by intros ? ?%not_elem_of_nil).
    + cbn [cleared hd_chunks set_hchunks]. by rewrite update_fmap.
    + intros r1 r2 t (q1 & Hq1 & [[_ ->]|[_ ->]])%Hel (q2 & Hq2 & [[_ ->]|[_ ->]])%Hel E1 E2; try done. by eapply Htag.
    + by apply NoDup_nil_2.
    + by intros ? ? ? ?%not_elem_of_nil.
    + intros r (q & Hq & [[_ ->]|[Hn ->]])%Hel Hal; [done|]. destruct (hc_tag q) eqn:Hqt; [|done]. destruct Hn. by split; [|rewrite Hqt].
    + intros r (q & Hq & [[_ ->]|[Hn ->]])%Hel; by apply (Ha q).
  - assert (forall r, r ∈ hd_chunks d -> hc_allocated r = false -> hc_tag r = None) as Hfree.
    { destruct Hv as [[_ ->]|Hv]; [by intros r Hr%not_elem_of_nil|]. intros r. apply Hf. lia. }
    split; rewrite ?Hs; try done; [by apply NoDup_nil_2|by intros ? ? ? ?%not_elem_of_nil|by intros ? ?%not_elem_of_nil..].
Qed.

Lemma set_hslots_nil d : hd_slots d = [] -> set_hslots [] d = d.
Proof. intros Hs. destruct d. simpl in *. by subst. Qed.

Lemma migrate_slots ver d : hd_slots (migrate ver d) = hd_slots d.
Proof. unfold migrate. by case_decide. Qed.

Section open.
Context {M : Type} (attach_to detach : M -> M).
Context (decl : string -> string) (lru : list string) (more : list (string * string)).
Local Abbreviation index_file := (index_file decl lru more).

Lemma format_slots ver : format decl lru more ver !! "temp.slots" = None.
Proof. unfold format. repeat case_decide; reflexivity. Qed.

Lemma close_file ver d b : hd_slots d = [] -> idle (index_file ver d) b -> close_index b = index_file ver d.
Proof.
  intros Hs (_ & Hsv & Hd). unfold close_index. rewrite Hsv, Hd. cbn [default from_option id HoardIndex.index_file file_as hi_version hi_schema hi_old hi_tables].
  by rewrite set_hslots_nil, (delete_id _ _ (format_slots ver)).
Qed.

Lemma close_opened ver d b : hd_slots d = [] -> idle (with_slots (index_file ver d)) b -> close_index b = index_file ver d.
Proof.
  intros Hs (_ & Hsv & Hd). unfold close_index. rewrite Hsv, Hd. unfold with_slots, set_hi_schema.
  cbn [default from_option id HoardIndex.index_file file_as hi_version hi_schema hi_old hi_tables].
  by rewrite set_hslots_nil, (delete_insert_id _ _ _ (format_slots ver)).
Qed.

(** The transaction of open_hoard_index. *)
Lemma open_transaction ver d b fs : rows_ok ver d -> idle (index_file ver d) b -> within fs b ->
  exists err b', transaction open_index_body b = Some (err, b') /\
    if decide (err = PK_SUCCESS) then idle (with_slots (index_file 9 (migrate ver d))) b' /\ within fs b'
    else idle (index_file ver d) b' /\ ~ Forall contention fs.
Proof.
  intros Hok Hi Hw. pose proof (rows_supported _ _ Hok) as Hsup. unfold open_index_body.
  destruct (self_transaction fs (index_file ver d) (opened_as fs (with_slots (index_file 9 (migrate ver d))))
    (open_failed fs false) PK_IOERR open_index_steps b) as (err & b' & Hr & Hpost); try done.
  - intros Hc. left. by split.
  - intros fs' Hsuf. eapply triple_weaken; [apply (open_steps_ok fs' (index_file ver d) decl lru more ver d Hsup)|done| |].
    { intros err b' (? & ? & ?). split_and!; try done. by eapply within_trans. }
    intros [r|r] b'; simpl; [intros (? & ? & ?); split_and!; try done; by eapply within_trans|]. intros (? & ? & ? & Hf). split_and!; try done. intros Hq.
    destruct (Hf Hq) as [[-> Hc]|[? _]]; [left|done]. split; [done|]. intros Hc'. apply Hc.
    destruct Hsuf as [k ->]. by apply Forall_app in Hc' as [_ ?].
  - exists err, b'. split; [done|]. destruct Hpost as [(-> & Hid & ?)|(Hid & _ & [[-> Hc]|[? _]])]; [by rewrite decide_True|by rewrite decide_False|done].
Qed.

Lemma open_spec ver d fs opened m main : rows_ok ver d -> idle m main ->
  exists err r main', open_hoard_index attach_to detach (index_file ver d) opened fs main = Some (err, r, main') /\
    match r with
    | inl b => err = PK_SUCCESS /\ idle (with_slots (index_file 9 (migrate ver d))) b /\ within fs b /\ idle (attach_to m) main'
    | inr i => err <> PK_SUCCESS /\ (i = index_file ver d \/ i = index_file 9 (migrate ver d)) /\
        (opened = false \/ ~ Forall contention fs \/ ~ Forall contention (faults main))
    end.
Proof.
  intros Hok Hmain. pose proof (ro_slots _ _ Hok) as Hs. unfold open_hoard_index.
  destruct (sql_conn_open_spec (if opened then Some (index_file ver d) else None) fs) as (r & -> & Hr). cbn [mbind option_bind].
  destruct r as [b|].
  2:{ eexists _, _, _. split; [done|]. split; [done|]. split; [by left|]. destruct opened; [|by left].
      right. left. by destruct Hr as [?|?]. }
  destruct Hr as (i & Hi & Hid & Hw). destruct opened; [injection Hi as <-|done].
  destruct (open_transaction ver d b fs Hok Hid Hw) as (err & b1 & -> & Hout). cbn [mbind option_bind].
  destruct (decide (err = PK_SUCCESS)) as [->|He].
  2:{ rewrite decide_True by done. destruct Hout as [Hid1 Hc]. eexists _, _, _. split; [done|]. split; [done|].
      rewrite (close_file ver d) by done. split; [by left|]. by right; left. }
  rewrite decide_False by (intros Hn; by apply Hn).
  destruct (attach_spec (faults main) attach_to detach m main Hmain (within_refl _)) as (ok & main' & -> & _ & Hat).
  cbn [mbind option_bind]. destruct ok.
  - eexists _, _, _. split; [done|]. cbv beta iota. by destruct Hout.
  - destruct Hat as [_ Hc]. eexists _, _, _. split; [done|]. cbv beta iota. split; [done|]. split; [|by right; right].
    right. apply (close_opened 9); [by rewrite migrate_slots|apply Hout].
Qed.

(** ** hoard_init *)

(** Nothing is in the way but contention. *)
Record favourable (c : hoard_conf) (main : db M) : Prop := mk_favourable {
  fv_dir_ok : hf_dir_ok c = true;
  fv_fd : hf_fd c = true;
  fv_lock : hf_lock c = PK_SUCCESS;
  fv_index : hf_index c = true;
  fv_faults : Forall contention (hf_faults c);
  fv_main : Forall contention (faults main);
  fv_io : hf_io c = []
}.

(** The session that has started on a disk with the tables [d]. *)
Record started (c : hoard_conf) (ver : Z) (d : hoard_db) (file : list Z) (e : hoard_session) : Prop := mk_started {
  st_idle : idle (data (hoard (se_state e))) (hoard (se_state e));
  st_parcel : h_parcel (se_state e) = hf_parcel c;
  st_dir : hoard_dir (se_state e) = true;
  st_file : hoard_file (se_state e) = file;
  st_io : hoard_io (se_state e) `suffix_of` hf_io c;
  st_faults : faults (hoard (se_state e)) `suffix_of` hf_faults c;
  st_index : se_index e = with_slots (index_file 9 (migrate ver d));
  st_known : if hf_parcel_dir c
    then parcel_known (hf_uuid c) (hf_server c) (hf_user c) (hf_name c) (se_ident e) (migrate ver d) (data (hoard (se_state e)))
    else data (hoard (se_state e)) = migrate ver d
}.

Lemma map_idle i b : idle i b -> idle (hi_tables i) (map_tables b).
Proof. intros (Hl & Hs & Hd). split_and!; simpl; [done|by rewrite Hs|by rewrite Hd]. Qed.

Lemma hoard_init_spec c ver d file main m n :
  hf_dir c = true -> chunksize (hf_parcel c) = SLOT_SIZE ->
  rows_ok ver d -> 0 <= n < 2 ^ 31 - 1 -> parcels_wf n (hd_parcels d) -> idle m main ->
  exists err r main', hoard_init attach_to detach c (mk_hdisk (index_file ver d) file) main = Some (err, r, main') /\
    match r with
    | inl e => err = PK_SUCCESS /\ started c ver d file e /\ idle (attach_to m) main'
    | inr k => err <> PK_SUCCESS /\ ~ favourable c main /\
        (k = mk_hdisk (index_file ver d) file \/ k = mk_hdisk (index_file 9 (migrate ver d)) file)
    end.
Proof.
  intros Hdir Hcs Hok Hn Hpw Hmain. unfold hoard_init. rewrite Hdir. cbn [negb].
  rewrite decide_False by (rewrite Hcs; by intros Hne).
  destruct (hf_dir_ok c) eqn:Hdo; cbn [negb].
  2:{ eexists _, _, _. split; [done|]. split; [done|]. split; [by intros []; congruence|by left]. }
  destruct (hf_fd c) eqn:Hfd; cbn [negb].
  2:{ eexists _, _, _. split; [done|]. split; [done|]. split; [by intros []; congruence|by left]. }
  case_decide as Hlock.
  { eexists _, _, _. split; [done|]. split; [done|]. split; [by intros []|by left]. }
  cbn [hk_index hk_file].
  destruct (open_spec ver d (hf_faults c) (hf_index c) m main Hok Hmain) as (err & r & main' & -> & Hr). cbn [mbind option_bind].
  destruct r as [b|i].
  2:{ destruct Hr as (He & Hi & Hc). eexists _, _, _. split; [done|]. split; [done|]. split.
      - intros []. destruct Hc as [?|[?|?]]; congruence.
      - destruct Hi as [-> | ->]; auto. }
  destruct Hr as (-> & Hid & Hw & Hm'). set (s := start_session c b file).
  assert (idle (migrate ver d) (hoard s)) as Hids by apply (map_idle _ _ Hid).
  pose proof (proj2 (proj2 Hids)) as Hds. pose proof (proj2 (proj2 Hid)) as Hdb.
  destruct (hf_parcel_dir c) eqn:Hpd.
  2:{ eexists _, _, _. split; [done|]. cbv beta iota. split; [done|]. split; [|done].
      split; cbn [se_state se_index]; try done; [by rewrite Hds|by rewrite Hpd]. }
  destruct (get_parcel_ident_spec (hf_uuid c) (hf_server c) (hf_user c) (hf_name c) n s) as
    (err & ident & s' & Hr & [Hp Hd' Hio Hf] & Hsuf & d' & Hid' & Hout); [by rewrite Hds|done| |].
  { rewrite Hds. unfold migrate. by case_decide. }
  rewrite Hr. cbn [mbind option_bind]. pose proof (proj2 (proj2 Hid')) as Hds'. rewrite Hds in Hout.
  assert (faults (hoard s') `suffix_of` hf_faults c) as Hsf by (etrans; [exact Hsuf|exact Hw]).
  destruct (decide (err = PK_SUCCESS)) as [->|He].
  - rewrite decide_False by (intros Hx; by apply Hx). eexists _, _, _. split; [done|]. cbv beta iota. split; [done|]. split; [|done].
    split; cbn [se_state se_index se_ident]; try done; [by rewrite Hds'|by rewrite Hd'|by rewrite Hpd, Hds'].
  - rewrite decide_True by done. destruct Hout as [-> Hnf]. eexists _, _, _. split; [done|]. cbv beta iota. split; [done|].
    split.
    + intros [_ _ _ _ Hc _ Hi]. apply Hnf. split; [|done]. destruct Hw as [k Hk]. simpl. rewrite Hk in Hc. by apply Forall_app in Hc as [_ ?].
    + right. unfold left_on_disk. destruct Hid' as (_ & Hsv & _). rewrite Hsv, Hds', Hdb, Hf.
      cbn [default from_option id with_slots set_hi_schema HoardIndex.index_file file_as hi_version hi_schema hi_old].
      rewrite set_hslots_nil by (by rewrite migrate_slots, (ro_slots _ _ Hok)).
      by rewrite (delete_insert_id _ _ _ (format_slots 9)).
Qed.
End open.

(** * Closing *)

Local Abbreviation idx s := (data (hoard s)).

(** What the disk has after a session whose index was [d]. *)
Record closed_as (gc : Z -> bool) (m : Z) (d d' : hoard_db) (fair : Prop) : Prop := mk_closed_as {
  cl_wf : hoard_wf d';
  cl_slots : hd_slots d' = [];
  cl_refs : hd_refs d' = hd_refs d;
  cl_parcels : parcels_wf m (hd_parcels d');
  cl_entries t o l : chunk_entry d' t o l -> firm d t o l;
  cl_kept t o l : fair -> (forall n, gc n = false) \/ t ∈ (hd_refs d).*2 -> firm d t o l -> chunk_entry d' t o l
}.

(** The index that the cleanup leaves. *)
Lemma closed_ok gc m d d1 d2 (fair : Prop) :
  hoard_wf d -> parcels_wf m (hd_parcels d) ->
  hoard_wf d1 /\ same_index d d1 /\ hd_slots d1 = [] \/ d1 = d /\ ~ fair ->
  d2 = d1 \/ (exists b, d2 = cleaned b d1 /\ (exists n, gc n = b)) ->
  closed_as gc m d (closed d2) fair.
Proof.
  intros Hwf Hpw H1 H2.
  assert (hoard_wf d1 /\ hd_refs d1 = hd_refs d /\ hd_parcels d1 = hd_parcels d) as (Hwf1 & Hrefs & Hpars).
  { destruct H1 as [(? & [_ (_ & ? & ?)] & _)|[-> _]]; by split_and!. }
  assert (forall t o l, chunk_entry d1 t o l -> firm d t o l) as Hent.
  { intros t o l Hc. destruct H1 as [(_ & [Hs _] & _)|[-> _]]; [apply Hs; by left|by left]. }
  assert (forall t o l, fair -> firm d t o l -> chunk_entry d1 t o l) as Hkept.
  { intros t o l Hf Hfirm. destruct H1 as [(_ & [Hs _] & Hsl)|[_ ?]]; [|done]. apply Hs in Hfirm as [?|[(r & Hr & _) _]]; [done|].
    rewrite Hsl in Hr. by apply not_elem_of_nil in Hr. }
  pose proof (closed_wf d1 Hwf1) as Hc1. destruct H2 as [->|(b & -> & Hb)].
  - split; try done; [by rewrite <- Hpars in Hpw|by eauto].
  - split; try done.
    + by apply cleaned_wf.
    + cbn [closed set_hslots cleaned set_hchunks set_hparcels hd_parcels]. rewrite Hpars. by apply filter_parcels_wf.
    + intros t o l [Hc _]%cleaned_entry. by apply Hent.
    + intros t o l Hf Hgc Hfirm. apply cleaned_entry. split; [by apply Hkept|]. intros ->. rewrite Hrefs.
      destruct Hgc as [Hno|?]; [|done]. destruct Hb as [i Hb]. by rewrite Hno in Hb.
Qed.

Section closing.
Context (decl : string -> string) (lru : list string) (more : list (string * string)).
Local Abbreviation index_file := (index_file decl lru more).

Lemma end_session_spec lock gc vac m d0 e :
  idle (idx (se_state e)) (hoard (se_state e)) -> hoard_wf (idx (se_state e)) -> m < 2 ^ 31 ->
  parcels_wf m (hd_parcels (idx (se_state e))) -> se_index e = with_slots (index_file 9 d0) ->
  exists d', end_session lock gc vac e = Some (mk_hdisk (index_file 9 d') (hoard_file (se_state e))) /\
    closed_as gc m (idx (se_state e)) d' (hoard_fair (se_state e)).
Proof.
  intros Hi Hwf Hm Hpw Hix. unfold end_session, hoard_shutdown. set (s := se_state e) in *.
  destruct (flush_spec s Hi Hwf) as (s1 & -> & Hun1 & Hsuf1 & d1 & Hi1 & Hd1). cbn [mbind option_bind].
  pose proof (idle_data _ _ Hi1) as <-.
  assert (parcels_wf m (hd_parcels (idx s1))) as Hpw1.
  { destruct Hd1 as [(_ & [_ (_ & _ & ->)] & _)|[-> _]]; done. }
  destruct (hoard_try_cleanup_spec lock gc vac m s1 Hi1 Hm Hpw1) as (err & s2 & d2 & -> & Hun2 & Hsuf2 & Hi2 & Hd2).
  cbn [mbind option_bind]. pose proof (idle_data _ _ Hi2) as Hd2'. exists (closed d2). split.
  - unfold left_on_disk. rewrite Hix. cbn [hoard set_hoard set_conn data saved hoard_file default from_option id].
    rewrite (fr_file _ _ _ Hun2), (fr_file _ _ _ Hun1), Hd2'. fold s.
    cbn [with_slots set_hi_schema HoardIndex.index_file file_as hi_version hi_schema hi_old].
    by rewrite (delete_insert_id _ _ _ (format_slots decl lru more 9)).
  - apply (closed_ok gc m _ (idx s1)); try done.
    + destruct Hd1 as [?|(? & _ & ?)]; [by left|by right].
    + destruct Hd2 as [[-> _]|[_ ?]]; [by left|by right].
Qed.
End closing.

(** * Properties *)

Lemma started_index {M} decl lru more (main : db M) c ver d file e n :
  started decl lru more c ver d file e -> 0 <= n < 2 ^ 31 - 1 -> parcels_wf n (hd_parcels d) ->
  exists p, idx (se_state e) = set_hparcels p (migrate ver d) /\ parcels_wf (n + 1) p.
Proof.
  intros [_ _ _ _ _ _ _ Hk] Hn Hpw. assert (parcels_wf n (hd_parcels (migrate ver d))) as Hpw' by (unfold migrate; by case_decide).
  destruct (hf_parcel_dir c).
  - eexists. split; [apply (pk_rest _ _ _ _ _ _ _ Hk)|]. by eapply parcels_known_wf.
  - exists (hd_parcels (migrate ver d)). rewrite Hk. split; [by destruct (migrate ver d)|].
    destruct Hpw' as [? ? Hi]. split; try done. eapply Forall_impl; [exact Hi|]. intros i. simpl. lia.
Qed.

Lemma hparcels_wf p d : hoard_wf d -> hoard_wf (set_hparcels p d).
Proof. intros []. by split. Qed.

Lemma closed_sound gc m d d' fair f : closed_as gc m d d' fair -> sound d f -> sound d' f.
Proof.
  intros Hcl Hs t o l [Hc|[(r & Hr & _) _]]; [by apply Hs, (cl_entries _ _ _ _ _ Hcl)|].
  rewrite (cl_slots _ _ _ _ _ Hcl) in Hr. by apply not_elem_of_nil in Hr.
Qed.

(** A parcel whose chunks the hoard cache can hold. *)
Definition fits (c : hoard_conf) : Prop :=
  hf_dir c = true /\ chunksize (hf_parcel c) = SLOT_SIZE /\ crypto (hf_parcel c) = IU_CHUNK_CRY_AES_SHA1.

Lemma hoard_fair_suffix s s' : hoard_fair s -> faults (hoard s') `suffix_of` faults (hoard s) -> hoard_io s' `suffix_of` hoard_io s ->
  hoard_fair s'.
Proof.
  intros [Hc He] [k Hk] Hio. rewrite Hk in Hc. apply Forall_app in Hc as [_ ?]. split; [done|].
  rewrite He in Hio. by apply suffix_nil_inv in Hio.
Qed.

Lemma favourable_init {M} decl lru more (at_ dt : M -> M) c ver d file main m n :
  fits c -> rows_ok ver d -> 0 <= n < 2 ^ 31 - 1 -> parcels_wf n (hd_parcels d) -> idle m main -> favourable c main ->
  bytes file ->
  exists e main' p, hoard_init at_ dt c (mk_hdisk (index_file decl lru more ver d) file) main = Some (PK_SUCCESS, inl e, main') /\
    started decl lru more c ver d file e /\ usable (se_state e) /\ hoard_fair (se_state e) /\
    idx (se_state e) = set_hparcels p (migrate ver d) /\ parcels_wf (n + 1) p.
Proof.
  intros (Hd & Hcs & Hcry) Hok Hn Hpw Hmain Hfv Hb.
  destruct (hoard_init_spec at_ dt decl lru more c ver d file main m n) as (err & r & main' & Hr & Hout); try done.
  destruct r as [e|k]; [|by destruct Hout as (_ & [] & _)]. destruct Hout as (-> & Hst & _).
  destruct (started_index decl lru more main c ver d file e n Hst Hn Hpw) as (p & Hidx & Hp).
  exists e, main', p. split_and!; try done; destruct Hst as [Hi Hpar _ Hf Hio Hsf _ _].
  - split; rewrite ?Hpar, ?Hf; try done. rewrite Hidx. by apply hparcels_wf, migrate_wf.
  - apply (hoard_fair_suffix (mk_hstate (hf_parcel c) true (mk_db (migrate ver d) None (hf_faults c) false SQLITE_OK false 0) file (hf_io c)));
      [by split; apply Hfv|done|done].
Qed.

(** The file of the next session. *)
Lemma closed_rows gc m d d' fair : closed_as gc m d d' fair -> rows_ok 9 d'.
Proof.
  intros Hcl. pose proof (cl_wf _ _ _ _ _ Hcl) as [Ho Ht _ _ _ Hf Ha _]. split; [by right|apply Hcl| |done|by intros; auto].
  split; [done|]. clear -Ht Ho. induction (hd_chunks d') as [|r l IH]; [by apply NoDup_nil_2|]. apply NoDup_cons in Ho as [Hni Ho].
  assert (NoDup (omap hc_tag l)) as Hnd.
  { apply IH; [done|]. intros r1 r2 t H1 H2. apply Ht; by right. }
  cbn [omap list_omap]. destruct (hc_tag r) as [t|] eqn:Hr; [|done]. apply NoDup_cons. split; [|done].
  intros (q & Hq & Hqt)%list_elem_of_omap. apply Hni. rewrite (Ht r q t); [|by left|by right|done|done].
  apply list_elem_of_fmap. eauto.
Qed.

(** C17: what a session stored the next one finds: the hoard cache is opened, whatever supported format its
    index has, a chunk is put, and the session ends, with whatever cleanup; the next session gets data of
    the right SHA-1 for the tag of that chunk and of every chunk that was in the index as opened (upgraded
    if need be) before, unless garbage
    collection was asked for and no parcel refers to the chunk. *)
Theorem hoard_survives_restart {M} decl lru more (at_ dt : M -> M) ver d file c1 c2 main1 main2 m1 m2 n lock gc vac tag buf t :
  fits c1 -> fits c2 -> favourable c1 main1 -> favourable c2 main2 -> idle m1 main1 -> idle m2 main2 ->
  rows_ok ver d -> 0 <= n < 2 ^ 31 - 2 -> parcels_wf n (hd_parcels d) ->
  bytes file -> sound (migrate ver d) file -> has_room (migrate ver d) ->
  bytes buf -> 0 < Z.of_nat (length buf) <= SLOT_SIZE -> Fips180.sha1 buf = tag ->
  indexed (migrate ver d) t \/ t = tag -> (forall i, gc i = false) \/ t ∈ (hd_refs d).*2 ->
  exists e1 main1' s1 k e2 main2' buf' s2,
    hoard_init at_ dt c1 (mk_hdisk (index_file decl lru more ver d) file) main1 = Some (PK_SUCCESS, inl e1, main1') /\
    hoard_put_chunk tag buf (se_state e1) = Some (PK_SUCCESS, s1) /\
    end_session lock gc vac (mk_hsession (se_ident e1) (se_index e1) s1) = Some k /\
    hoard_init at_ dt c2 k main2 = Some (PK_SUCCESS, inl e2, main2') /\
    hoard_get_chunk t (se_state e2) = Some ((PK_SUCCESS, buf'), s2) /\ Fips180.sha1 buf' = t.
Proof.
  intros Hf1 Hf2 Hv1 Hv2 Hm1 Hm2 Hok Hn Hpw Hfile Hsound Hroom Hbuf Hlen Htag Ht Hgc.
  destruct (favourable_init decl lru more at_ dt c1 ver d file main1 m1 n) as (e1 & main1' & p1 & Hr1 & Hst1 & [Hi1 Hwf1 Hcs1 Hcry1 Hb1] & Hfair1 & Hidx1 & Hp1);
    try done; [lia|].
  assert (hoard_file (se_state e1) = file) as Hfe1 by apply Hst1.
  destruct (hoard_put_spec (se_state e1) tag buf) as (err & s1 & Hput & [Hpar1 _ Hio1 [Hbs1 _]] & Hsuf1 & d1 & Hid1 & Hwfd1 & Hsd1 & [_ [Hrefs Hpars]] & _ & Hout);
    try done; [apply Hst1|by rewrite Hidx1, Hfe1|by rewrite Hidx1|].
  case_decide as He; [subst err|by destruct Hout]. pose proof (idle_data _ _ Hid1) as <-.
  pose proof (hoard_fair_suffix _ _ Hfair1 Hsuf1 Hio1) as Hfs1.
  destruct (end_session_spec decl lru more lock gc vac (n + 1) (migrate ver d) (mk_hsession (se_ident e1) (se_index e1) s1))
    as (d' & Hend & Hcl); cbn [se_state se_index]; try done; [lia|by rewrite Hpars, Hidx1|apply Hst1|].
  cbn [se_state] in Hend, Hcl.
  destruct (favourable_init decl lru more at_ dt c2 9 d' (hoard_file s1) main2 m2 (n + 1)) as (e2 & main2' & p2 & Hr2 & Hst2 & Hu2 & Hfair2 & Hidx2 & _);
    try done; [by eapply closed_rows|lia|apply Hcl|].
  exists e1, main1', s1. do 3 eexists. unfold hoard_get_chunk. rewrite (st_dir _ _ _ _ _ _ _ _ Hst2).
  destruct (get_loop_spec (3 + length (faults (hoard (se_state e2)))) t (se_state e2) Hu2) as ([err buf'] & s2 & Hr & [_ _ _ _ _ _ Hg Hgf]).
  { apply rank_fuel. }
  assert (migrate 9 d' = d') as Hm9 by done. rewrite Hm9 in Hidx2.
  assert (sound (idx (se_state e2)) (hoard_file (se_state e2))) as Hs2.
  { rewrite Hidx2, (st_file _ _ _ _ _ _ _ _ Hst2). change (sound d' (hoard_file s1)). by eapply closed_sound. }
  destruct (Hgf Hfair2 Hs2) as [Hyes _]. assert (indexed (idx (se_state e2)) t) as Hit.
  { rewrite Hidx2. assert (indexed (idx s1) t) as (o & l & Hfirm)%indexed_firm by (apply Hout; by rewrite Hidx1).
    exists o, l. right. apply (cl_kept _ _ _ _ _ Hcl); [done| |done]. rewrite Hrefs, Hidx1. unfold migrate. by case_decide. }
  destruct (Hyes Hit) as [He _]. simpl in He. subst err.
  exists buf', s2. split_and!; try done. by apply Hg.
Qed.

(** The database after the upgrade from format [ver]: the references and the parcels are as they were, and so
    is every chunk, if the format is 8 or 9; in the formats 5 to 7 the flag of a row says whether a parcel
    refers to its chunk, and only such chunks are kept. *)
Record upgraded (ver : Z) (d d' : hoard_db) : Prop := mk_upgraded {
  ug_wf : hoard_wf d';
  ug_slots : hd_slots d' = [];
  ug_refs : hd_refs d' = hd_refs d;
  ug_parcels : hd_parcels d' = hd_parcels d;
  ug_entry t o l : entry d' t o l <->
    exists r, r ∈ hd_chunks d /\ hc_tag r = Some t /\ hc_offset r = o /\ hc_length r = l /\ (5 <= ver <= 7 -> hc_allocated r = true)
}.

Lemma migrate_upgraded ver d : rows_ok ver d -> upgraded ver d (migrate ver d).
Proof.
  intros Hok. pose proof (migrate_wf _ _ Hok) as Hwf. pose proof (ro_slots _ _ Hok) as Hs.
  split; try done; [by rewrite migrate_slots|unfold migrate; by case_decide..|]. intros t o l. unfold entry.
  assert (slot_entry (migrate ver d) t o l <-> False) as ->.
  { split; [|done]. intros (r & Hr' & _). rewrite migrate_slots, Hs in Hr'. by apply not_elem_of_nil in Hr'. }
  assert (chunk_entry (migrate ver d) t o l <-> exists r, r ∈ hd_chunks d /\ hc_tag r = Some t /\ hc_offset r = o /\
    hc_length r = l /\ (5 <= ver <= 7 -> hc_allocated r = true)) as ->; [|tauto].
  unfold migrate. case_decide as Hv; [|split; intros (r & ?); exists r; tauto].
  unfold chunk_entry, cleared. cbn [hd_chunks set_hchunks]. split.
  - intros (r & (q & Hq & [[_ ->]|[Hn ->]])%elem_of_update & Ht & Ho & Hl); [done|]. exists q. split_and!; try done.
    intros _. destruct (hc_allocated q) eqn:Ha; [done|]. destruct Hn. by split; [|rewrite Ht].
  - intros (r & Hr' & Ht & Ho & Hl & Ha). exists r. split_and!; try done. apply elem_of_update. exists r. split; [done|].
    right. split; [|done]. intros [Hna _]. by rewrite Ha in Hna.
Qed.

(** C25: opening always ends; it creates a new index, and upgrades one of format 5 to 9 in one transaction to
    format 9, with its tables, columns and indices: references and parcels
    stay, of the formats 8 and 9 every chunk is kept, and of 5 to 7 exactly those that a parcel refers to; it
    then has an empty slot cache. It fails only if SQLite refuses more than contention explains, and leaves
    the file as it was or upgraded in just that way. *)
Theorem hoard_index_opens {M} decl lru more (at_ dt : M -> M) ver d fs main m :
  rows_ok ver d -> idle m main ->
  exists err r main', open_hoard_index at_ dt (index_file decl lru more ver d) true fs main = Some (err, r, main') /\
    match r with
    | inl b => err = PK_SUCCESS /\ idle (at_ m) main' /\
        exists d', idle (with_slots (index_file decl lru more 9 d')) b /\ upgraded ver d d'
    | inr i => err <> PK_SUCCESS /\ (~ Forall contention fs \/ ~ Forall contention (faults main)) /\
        (i = index_file decl lru more ver d \/ exists d', i = index_file decl lru more 9 d' /\ upgraded ver d d')
    end.
Proof.
  intros Hok Hm. pose proof (migrate_upgraded ver d Hok) as Hup.
  destruct (open_spec at_ dt decl lru more ver d fs true m main Hok Hm) as (err & r & main' & Hr & Hout).
  exists err, r, main'. split; [done|]. destruct r as [b|i].
  - destruct Hout as (? & ? & _ & ?). split_and!; try done. by exists (migrate ver d).
  - destruct Hout as (? & Hi & [?|?]); [done|]. split_and!; try done. destruct Hi; eauto.
Qed.

(** ** Examples *)

(** A file of format 7, with a chunk that a parcel refers to, one that no parcel refers to, and a free
    place. *)
Definition demo_rows : hoard_db :=
  mk_hoard [mk_hchunk (Some (Fips180.sha1 [1; 2; 3])) 0 3 1 true; mk_hchunk (Some [7]) 256 5 1 false; mk_hchunk None 512 0 0 false]
    [(1, Fips180.sha1 [1; 2; 3])] [] [mk_hparcel 1 "u1" "server" "user" "name"].

Definition demo_decl : string -> string := fun _ => "BLOB".

Definition demo_conf (uuid : string) : hoard_conf :=
  mk_hconf true true true PK_SUCCESS true true (mk_parcel IU_CHUNK_CRY_AES_SHA1 0 16 SLOT_SIZE 512 20) uuid "server" "user" "name"
    [None; Some (F_BUSY, false)] [].

Definition demo_main : db bool := mk_db false None [] false SQLITE_OK false 0.

Ltac each_row := intros r [->|[->|[->|[]%not_elem_of_nil]%elem_of_cons]%elem_of_cons]%elem_of_cons.

Lemma demo_rows_ok : rows_ok 7 demo_rows.
Proof.
  assert (length (Fips180.sha1 [1; 2; 3]) = 20%nat) as Hlen by (vm_compute; reflexivity). revert Hlen. unfold demo_rows.
  generalize (Fips180.sha1 [1; 2; 3]). intros t Hlen. split; cbn [hd_slots hd_chunks]; [by right|done| | |by intros].
  - split; simpl.
    + apply NoDup_cons; split; [by intros [?|[?|[]%not_elem_of_nil]%elem_of_cons]%elem_of_cons|].
      apply NoDup_cons; split; [by intros [?|[]%not_elem_of_nil]%elem_of_cons|apply NoDup_singleton].
    + apply NoDup_cons; split; [|apply NoDup_singleton]. intros ->%list_elem_of_singleton. done.
  - by each_row.
Qed.

Lemma demo_rows_sound : sound (migrate 7 demo_rows) [1; 2; 3].
Proof.
  assert (content [1; 2; 3] 0 3 = [1; 2; 3] /\ length [1; 2; 3] = 3%nat) as Hc by done.
  change (migrate 7 demo_rows) with (cleared demo_rows). unfold demo_rows. revert Hc. generalize [1; 2; 3]. intros f [Hc Hl].
  intros t o len [He|[(r & Hr%not_elem_of_nil & _) _]]; [|done].
  destruct He as (r' & (q & Hq & Hor)%elem_of_update & Ht & <- & <-). revert q Hq Hor. each_row; intros [[Hu ->]|[Hn ->]]; try done.
  - injection Ht as <-. cbn [hc_offset hc_length]. rewrite Hc, Hl. by split_and!.
  - destruct Hn. by split.
Qed.

Lemma demo_rows_room : has_room (migrate 7 demo_rows).
Proof. repeat (apply Forall_cons; split; [done|]). by apply Forall_nil. Qed.

Lemma demo_favourable uuid : favourable (demo_conf uuid) demo_main.
Proof. split; try done. by repeat constructor. Qed.

Lemma demo_parcels : parcels_wf 1 (hd_parcels demo_rows).
Proof. split; [apply NoDup_singleton|apply NoDup_singleton|by apply Forall_singleton]. Qed.

Lemma hoard_index_opens_witness : exists b main' d',
  open_hoard_index (fun _ => true) (fun _ => false) (index_file demo_decl [] [] 7 demo_rows) true
    [None; Some (F_BUSY, false)] demo_main = Some (PK_SUCCESS, inl b, main') /\
  idle (with_slots (index_file demo_decl [] [] 9 d')) b /\ hd_refs d' = hd_refs demo_rows /\
  entry d' (Fips180.sha1 [1; 2; 3]) 0 3 /\ ~ entry d' [7] 256 5.
Proof.
  destruct (hoard_index_opens demo_decl [] [] (fun _ => true) (fun _ => false) 7 demo_rows [None; Some (F_BUSY, false)] demo_main false
    demo_rows_ok) as (err & r & main' & Hr & Hout); [done|]. destruct r as [b|i].
  - destruct Hout as (-> & _ & d' & Hi & [_ _ Hrefs _ Hent]). exists b, main', d'.
    split; [exact Hr|]. split; [exact Hi|]. split; [exact Hrefs|]. split.
    + apply Hent. exists (mk_hchunk (Some (Fips180.sha1 [1; 2; 3])) 0 3 1 true).
      split; [left|]. split; [reflexivity|]. split; [reflexivity|]. split; [reflexivity|]. intros _. reflexivity.
    + intros (r & Hin & _ & Ho & _ & Ha)%Hent. cbn [demo_rows hd_chunks] in Hin.
      apply elem_of_cons in Hin as [->|Hin]; [discriminate Ho|]. apply elem_of_cons in Hin as [->|Hin].
      * assert (5 <= 7 <= 7) as H7 by lia. discriminate (Ha H7).
      * apply list_elem_of_singleton in Hin as ->. discriminate Ho.
  - destruct Hout as (_ & [Hn|Hn] & _); exfalso; apply Hn; repeat constructor.
Defined.

(** The chunk [4; 5] is stored in a session of the parcel "u2", and read in one of "u1". *)
Lemma hoard_survives_restart_witness : exists e1 main1' s1 k e2 main2' buf' s2,
  hoard_init (fun _ => true) (fun _ => false) (demo_conf "u2")
    (mk_hdisk (index_file demo_decl [] [] 7 demo_rows) [1; 2; 3]) demo_main = Some (PK_SUCCESS, inl e1, main1') /\
  hoard_put_chunk (Fips180.sha1 [4; 5]) [4; 5] (se_state e1) = Some (PK_SUCCESS, s1) /\
  end_session PK_SUCCESS (fun _ => false) true (mk_hsession (se_ident e1) (se_index e1) s1) = Some k /\
  hoard_init (fun _ => true) (fun _ => false) (demo_conf "u1") k demo_main = Some (PK_SUCCESS, inl e2, main2') /\
  hoard_get_chunk (Fips180.sha1 [4; 5]) (se_state e2) = Some ((PK_SUCCESS, buf'), s2) /\
  Fips180.sha1 buf' = Fips180.sha1 [4; 5].
Proof.
  apply (hoard_survives_restart demo_decl [] [] (fun _ => true) (fun _ => false) 7 demo_rows [1; 2; 3] (demo_conf "u2") (demo_conf "u1")
    demo_main demo_main false false 1);
    [done|done|apply demo_favourable|apply demo_favourable|done|done|apply demo_rows_ok|done|apply demo_parcels| |
     apply demo_rows_sound|apply demo_rows_room| | |reflexivity|by right|by left].
  - by repeat constructor.
  - by repeat constructor.
  - by unfold SLOT_SIZE.
Defined.
