(* ===== verification/Cmdline.v ===== *)
(** Cmdline: the command line of the parcelkeeper (src/parcelkeeper/cmdline.c), with the lists of log
    types of log.c.

    [parse_cmdline] is the code's own option parser, over the table of modes and their options.  It is
    compared with a declarative reading of the command line: a mode followed by options, each of them
    allowed in the mode, given once and with an argument that is right for it. *)

From stdpp Require Import strings.
From Stdlib Require Import Ascii String.
From S2P Require Import Prelude Compress LzfStream Chunk Effects Sql Pk Util Config.

(** * Modes and options *)

(** The flags of enum mode_flags that are not in Pk. *)
Definition WANT_BACKGROUND : Z := 0x0008.
Definition WANT_TRANSPORT : Z := 0x0010.
Definition WANT_COMPACT : Z := 0x0200.
Definition WANT_GC : Z := 0x0400.
Definition WANT_ALLOW_ROOT : Z := 0x0800.
Definition WANT_SINGLE_THREAD : Z := 0x1000.

Inductive arg_type := REQUIRED | OPTIONAL | ANY.

#[global] Instance arg_type_eq_dec : EqDecision arg_type.
Proof. solve_decision. Defined.

(** enum option, whose END_OPTS is the [None] of an [option opt] *)
Inductive opt :=
  | OPT_PARCEL | OPT_HOARD | OPT_UUID | OPT_DESTDIR | OPT_COMPRESSION | OPT_LOG | OPT_MASK_FILE
  | OPT_MASK_STDERR | OPT_FOREGROUND | OPT_CHECK | OPT_FULL | OPT_SPLICE | OPT_COMPACT
  | OPT_ALLOW_ROOT | OPT_SINGLE_THREAD | OPT_MODE | OPT_CHUNK_CACHE.

#[global] Instance opt_eq_dec : EqDecision opt.
Proof. solve_decision. Defined.

Inductive mode :=
  | MODE_RUN | MODE_UPLOAD | MODE_HOARD | MODE_EXAMINE | MODE_VALIDATE | MODE_LISTHOARD
  | MODE_CHECKHOARD | MODE_RMHOARD | MODE_GCHOARD | MODE_REFRESH | MODE_HELP | MODE_VERSION.

#[global] Instance mode_eq_dec : EqDecision mode.
Proof. solve_decision. Defined.

(** The name of an option, and that of its argument if it has one. *)
Record pk_option := mk_option { po_name : string; po_opt : opt; po_arg : option string }.

Definition pk_options : list pk_option :=
  [mk_option "parcel" OPT_PARCEL (Some "parcel_dir"); mk_option "hoard" OPT_HOARD (Some "hoard_dir");
   mk_option "uuid" OPT_UUID (Some "uuid"); mk_option "destdir" OPT_DESTDIR (Some "dir");
   mk_option "chunk-cache" OPT_CHUNK_CACHE (Some "MB");
   mk_option "compression" OPT_COMPRESSION (Some "algorithm"); mk_option "log" OPT_LOG (Some "file");
   mk_option "log-filter" OPT_MASK_FILE (Some "comma_separated_list");
   mk_option "stderr-filter" OPT_MASK_STDERR (Some "comma_separated_list");
   mk_option "foreground" OPT_FOREGROUND None; mk_option "check" OPT_CHECK None;
   mk_option "full" OPT_FULL None; mk_option "splice" OPT_SPLICE None;
   mk_option "compact" OPT_COMPACT None; mk_option "allow-root" OPT_ALLOW_ROOT None;
   mk_option "single-thread" OPT_SINGLE_THREAD None; mk_option "mode" OPT_MODE (Some "mode")]%string.

(** The options of a mode, as in the tables [mode(RUN)] and so on, up to END_OPTS. *)
Definition log_opts : list (opt * arg_type) :=
  [(OPT_LOG, OPTIONAL); (OPT_MASK_FILE, OPTIONAL); (OPT_MASK_STDERR, OPTIONAL)].

Definition opts_of (m : mode) : list (opt * arg_type) :=
  match m with
  | MODE_RUN =>
      [(OPT_PARCEL, REQUIRED); (OPT_HOARD, OPTIONAL); (OPT_CHUNK_CACHE, OPTIONAL);
       (OPT_COMPRESSION, OPTIONAL)] ++ log_opts ++
      [(OPT_ALLOW_ROOT, OPTIONAL); (OPT_SINGLE_THREAD, OPTIONAL); (OPT_FOREGROUND, OPTIONAL)]
  | MODE_UPLOAD => [(OPT_PARCEL, REQUIRED); (OPT_DESTDIR, REQUIRED); (OPT_HOARD, OPTIONAL)] ++ log_opts
  | MODE_HOARD => [(OPT_PARCEL, REQUIRED); (OPT_HOARD, REQUIRED); (OPT_CHECK, OPTIONAL)] ++ log_opts
  | MODE_EXAMINE => [(OPT_PARCEL, REQUIRED); (OPT_HOARD, OPTIONAL)] ++ log_opts
  | MODE_VALIDATE =>
      [(OPT_PARCEL, REQUIRED); (OPT_FULL, OPTIONAL); (OPT_SPLICE, OPTIONAL); (OPT_CHECK, OPTIONAL)] ++
      log_opts
  | MODE_LISTHOARD => [(OPT_HOARD, REQUIRED)] ++ log_opts
  | MODE_CHECKHOARD => [(OPT_HOARD, REQUIRED); (OPT_FULL, OPTIONAL); (OPT_COMPACT, OPTIONAL)] ++ log_opts
  | MODE_RMHOARD => [(OPT_HOARD, REQUIRED); (OPT_UUID, REQUIRED)] ++ log_opts
  | MODE_GCHOARD => [(OPT_HOARD, REQUIRED)] ++ log_opts
  | MODE_REFRESH => [(OPT_PARCEL, REQUIRED); (OPT_HOARD, REQUIRED)] ++ log_opts
  | MODE_HELP => [(OPT_MODE, OPTIONAL)]
  | MODE_VERSION => []
  end.

Definition flags_of (m : mode) : Z :=
  match m with
  | MODE_RUN => Z.lor WANT_LOCK (Z.lor WANT_CACHE (Z.lor WANT_PREV (Z.lor WANT_BACKGROUND
                  (Z.lor WANT_TRANSPORT WANT_SHM))))
  | MODE_UPLOAD | MODE_VALIDATE => Z.lor WANT_LOCK (Z.lor WANT_CACHE WANT_PREV)
  | MODE_HOARD => Z.lor WANT_PREV WANT_TRANSPORT
  | MODE_EXAMINE => Z.lor WANT_CACHE WANT_PREV
  | MODE_REFRESH => Z.lor WANT_PREV WANT_GC
  | MODE_LISTHOARD | MODE_CHECKHOARD | MODE_RMHOARD | MODE_GCHOARD | MODE_HELP | MODE_VERSION => 0
  end.

(** The names and types of the table pk_modes. *)
Definition pk_modes : list (string * mode) :=
  [("run", MODE_RUN); ("upload", MODE_UPLOAD); ("hoard", MODE_HOARD); ("examine", MODE_EXAMINE);
   ("validate", MODE_VALIDATE); ("listhoard", MODE_LISTHOARD); ("checkhoard", MODE_CHECKHOARD);
   ("rmhoard", MODE_RMHOARD); ("gchoard", MODE_GCHOARD); ("refresh", MODE_REFRESH);
   ("help", MODE_HELP); ("version", MODE_VERSION)]%string.

Definition parse_mode (name : string) : option mode := assoc name pk_modes.

(** [None] is the "BUG" that no option of the enumeration can have. *)
Definition get_option (o : opt) : option pk_option := list_find (fun r => po_opt r = o) pk_options ≫= fun ir => Some ir.2.

(** * Log types *)

Definition LOG_INFO : Z := 0.
Definition LOG_CHUNK : Z := 1.
Definition LOG_FUSE : Z := 2.
Definition LOG_TRANSPORT : Z := 3.
Definition LOG_QUERY : Z := 4.
Definition LOG_SLOW_QUERY : Z := 5.
Definition LOG_WARNING : Z := 6.
Definition LOG_STATS : Z := 7.

Definition parse_logtype (name : string) : option Z :=
  if decide (name = "info"%string) then Some LOG_INFO
  else if decide (name = "chunk"%string) then Some LOG_CHUNK
  else if decide (name = "fuse"%string) then Some LOG_FUSE
  else if decide (name = "transport"%string) then Some LOG_TRANSPORT
  else if decide (name = "query"%string) then Some LOG_QUERY
  else if decide (name = "slow"%string) then Some LOG_SLOW_QUERY
  else if decide (name = "error"%string) then Some LOG_WARNING
  else if decide (name = "stats"%string) then Some LOG_STATS
  else None.

(** The loop of logtypes_to_mask. *)
Fixpoint mask_of (mask : Z) (types : list string) : pk_err * Z :=
  match types with
  | [] => (PK_SUCCESS, mask)
  | t :: types =>
      match parse_logtype t with
      | None => (PK_INVALID, mask)
      | Some type => mask_of (Z.lor mask (Z.shiftl 1 type)) types
      end
  end.

Definition logtypes_to_mask `{!GLib} (l : string) : pk_err * Z :=
  if decide (l <> "none"%string) then mask_of 0 (g_strsplit l "," 0) else (PK_SUCCESS, 0).

(** * The parser *)

(** struct pk_config; the flags, the compression and the size of the chunk cache are those of Pk.  A
    string that is not set is NULL. *)
Record config := mk_config {
  c_conf : pk_config;
  c_parcel_dir : option string;
  c_parcel_cfg : option string;
  c_keyring : option string;
  c_prev_keyring : option string;
  c_cache_file : option string;
  c_cache_index : option string;
  c_vfspath : option string;
  c_lockfile : option string;
  c_pidfile : option string;
  c_hoard_dir : option string;
  c_hoard_file : option string;
  c_hoard_index : option string;
  c_dest_dir : option string;
  c_log_file : option string;
  c_log_file_mask : Z;
  c_log_stderr_mask : Z;
  c_uuid : option string
}.

(** default_config, with the flags of the mode *)
Definition default_config (flags : Z) : config :=
  mk_config (Pk.mk_config flags IU_CHUNK_COMP_NONE 32) None None None None None None None None None None
    None None None None
    (Z.lor (Z.shiftl 1 LOG_INFO) (Z.lor (Z.shiftl 1 LOG_WARNING) (Z.shiftl 1 LOG_STATS)))
    (Z.shiftl 1 LOG_WARNING) None.

Definition set_conf f c := mk_config (f (c_conf c)) (c_parcel_dir c) (c_parcel_cfg c) (c_keyring c)
  (c_prev_keyring c) (c_cache_file c) (c_cache_index c) (c_vfspath c) (c_lockfile c) (c_pidfile c)
  (c_hoard_dir c) (c_hoard_file c) (c_hoard_index c) (c_dest_dir c) (c_log_file c) (c_log_file_mask c)
  (c_log_stderr_mask c) (c_uuid c).
Definition set_flags f := set_conf (fun p => Pk.mk_config (f (flags p)) (compress p) (chunk_cache p)).
Definition set_parcel dir cfg kr prev file idx vfs lock pid c := mk_config (c_conf c) (Some dir) (Some cfg)
  (Some kr) (Some prev) (Some file) (Some idx) (Some vfs) (Some lock) (Some pid) (c_hoard_dir c)
  (c_hoard_file c) (c_hoard_index c) (c_dest_dir c) (c_log_file c) (c_log_file_mask c)
  (c_log_stderr_mask c) (c_uuid c).
Definition set_hoard dir file idx c := mk_config (c_conf c) (c_parcel_dir c) (c_parcel_cfg c) (c_keyring c)
  (c_prev_keyring c) (c_cache_file c) (c_cache_index c) (c_vfspath c) (c_lockfile c) (c_pidfile c)
  (Some dir) (Some file) (Some idx) (c_dest_dir c) (c_log_file c) (c_log_file_mask c)
  (c_log_stderr_mask c) (c_uuid c).
Definition set_misc dest log fmask smask u c := mk_config (c_conf c) (c_parcel_dir c) (c_parcel_cfg c)
  (c_keyring c) (c_prev_keyring c) (c_cache_file c) (c_cache_index c) (c_vfspath c) (c_lockfile c)
  (c_pidfile c) (c_hoard_dir c) (c_hoard_file c) (c_hoard_index c) (dest (c_dest_dir c))
  (log (c_log_file c)) (fmask (c_log_file_mask c)) (smask (c_log_stderr_mask c)) (u (c_uuid c)).

(** The messages of PARSE_ERROR, which ends the program with status 1. *)
Inductive parse_error :=
  | No_mode | Unknown_mode (name : string) | Missing_required (name : string) | Not_an_option (arg : string)
  | Only_once (arg : string) | Wrong_arguments (arg : string) | Not_in_mode (arg : string)
  | Unknown_option (arg : string) | Not_a_directory (dir : string) | Does_not_exist (path : string)
  | Invalid_uuid (v : string) | Invalid_compression (v : string) | Invalid_log_types (v : string)
  | Invalid_integer (v : string).

(** struct pk_cmdline_parse_ctx; the mode is an argument of the functions. *)
Record parse_ctx := mk_pctx { optind : nat; optparam : option string; optseen : opt -> Z }.

Definition count_opt (o : opt) (ctx : parse_ctx) : parse_ctx :=
  mk_pctx (optind ctx) (optparam ctx)
    (fun o' => if decide (o' = o) then u32 (optseen ctx o + 1) else optseen ctx o').

(** The "optind" of the C library's getopt, which nothing changes. *)
Definition getopt_optind : nat := 1.

(** What follows the "--" at the start of an argument. *)
Definition option_element (arg : string) : option string :=
  match arg with String "-" (String "-" name) => Some name | _ => None end.

(** The loop over the options of the mode, for the option of name [arg].  argv[argc] is NULL, so that
    reading from it is a fault. *)
Fixpoint find_option (opts : list (opt * arg_type)) (argv : list string) (arg : string) (ctx : parse_ctx) :
    option (parse_error + opt * parse_ctx) :=
  match opts with
  | [] =>
      Some (inl (if existsb (fun r => bool_decide (po_name r = arg)) pk_options then Not_in_mode arg
                 else Unknown_option arg))
  | (o, type) :: opts =>
      curopt ← get_option o;
      if decide (po_name curopt <> arg) then find_option opts argv arg ctx
      else if decide (type <> ANY /\ optseen ctx o <> 0) then Some (inl (Only_once arg))
      else
        let ctx := count_opt o ctx in
        match po_arg curopt with
        | None => Some (inr (o, ctx))
        | Some _ =>
            if decide (getopt_optind = length argv) then Some (inl (Wrong_arguments arg))
            else
              v ← argv !! optind ctx;
              match option_element v with
              | Some _ => Some (inl (Wrong_arguments arg))
              | None => Some (inr (o, mk_pctx (S (optind ctx)) (Some v) (optseen ctx)))
              end
        end
  end.

(** The first required option that has not been seen. *)
Fixpoint check_required (opts : list (opt * arg_type)) (ctx : parse_ctx) : option (option parse_error) :=
  match opts with
  | [] => Some None
  | (o, type) :: opts =>
      if decide (type = REQUIRED /\ optseen ctx o = 0) then
        r ← get_option o; Some (Some (Missing_required (po_name r)))
      else check_required opts ctx
  end.

Definition pk_getopt (m : mode) (argv : list string) (ctx : parse_ctx) :
    option (parse_error + option opt * parse_ctx) :=
  if decide (optind ctx = length argv) then
    missing ← check_required (opts_of m) ctx;
    Some (match missing with Some e => inl e | None => inr (None, ctx) end)
  else
    arg ← argv !! optind ctx;
    match option_element arg with
    | None => Some (inl (Not_an_option arg))
    | Some name =>
        found ← find_option (opts_of m) argv name (mk_pctx (S (optind ctx)) (optparam ctx) (optseen ctx));
        Some (match found with inl e => inl e | inr (o, ctx) => inr (Some o, ctx) end)
    end.

(** [is_dir] and [is_regular] are g_file_test with G_FILE_TEST_IS_DIR and G_FILE_TEST_IS_REGULAR. *)
Section parse.
Context `{!GLib} `{!LibUuid} (is_dir is_regular : string -> bool).

Definition check_dir (dir : string) : parse_error + () :=
  if is_dir dir then inr () else inl (Not_a_directory dir).

Definition filepath (dir file : string) (must_exist : bool) : parse_error + string :=
  let path := dir +:+ "/" +:+ file in
  if must_exist && negb (is_regular path) then inl (Does_not_exist path) else inr path.

#[local] Instance sum_bind {E} : MBind (sum E) := fun A B f x => match x with inl e => inl e | inr a => f a end.

(** The switch of parse_cmdline, for an option with the argument [v] if it has one. *)
Definition handle_option (o : opt) (v : string) (hc : option mode * config) : parse_error + option mode * config :=
  let '(help, c) := hc in
  match o with
  | OPT_PARCEL =>
      _ ← check_dir v;
      cfg ← filepath v "parcel.cfg" true;
      keyring ← filepath v "keyring" (has_flag (flags (c_conf c)) WANT_CACHE);
      prev ← filepath v "prev-keyring" (has_flag (flags (c_conf c)) WANT_PREV);
      file ← filepath v "disk" false;
      idx ← filepath v "disk.idx" false;
      vfs ← filepath v "vfs" false;
      lock ← filepath v "parcelkeeper.lock" false;
      pid ← filepath v "parcelkeeper.pid" false;
      inr (help, set_parcel v cfg keyring prev file idx vfs lock pid c)
  | OPT_UUID =>
      match canonicalize_uuid v with
      | (PK_SUCCESS, Some u) => inr (help, set_misc id id id id (fun _ => Some u) c)
      | _ => inl (Invalid_uuid v)
      end
  | OPT_DESTDIR => inr (help, set_misc (fun _ => Some v) id id id id c)
  | OPT_COMPRESSION =>
      let type := iu_chunk_compress_parse v in
      if decide (type = IU_CHUNK_COMP_UNKNOWN) then inl (Invalid_compression v)
      else inr (help, set_conf (fun p => Pk.mk_config (flags p) type (chunk_cache p)) c)
  | OPT_HOARD =>
      file ← filepath v "hoard" false;
      idx ← filepath v "hoard.idx" false;
      inr (help, set_hoard v file idx c)
  | OPT_LOG => inr (help, set_misc id (fun _ => Some v) id id id c)
  | OPT_MASK_FILE =>
      match logtypes_to_mask v with
      | (PK_SUCCESS, mask) => inr (help, set_misc id id (fun _ => mask) id id c)
      | _ => inl (Invalid_log_types v)
      end
  | OPT_MASK_STDERR =>
      match logtypes_to_mask v with
      | (PK_SUCCESS, mask) => inr (help, set_misc id id id (fun _ => mask) id c)
      | _ => inl (Invalid_log_types v)
      end
  | OPT_FOREGROUND => inr (help, set_flags (fun f => Z.land f (u32 (Z.lnot WANT_BACKGROUND))) c)
  | OPT_CHECK => inr (help, set_flags (fun f => Z.lor f WANT_CHECK) c)
  | OPT_FULL => inr (help, set_flags (fun f => Z.lor f WANT_FULL_CHECK) c)
  | OPT_SPLICE => inr (help, set_flags (fun f => Z.lor f WANT_SPLICE) c)
  | OPT_COMPACT => inr (help, set_flags (fun f => Z.lor f WANT_COMPACT) c)
  | OPT_ALLOW_ROOT => inr (help, set_flags (fun f => Z.lor f WANT_ALLOW_ROOT) c)
  | OPT_SINGLE_THREAD => inr (help, set_flags (fun f => Z.lor f WANT_SINGLE_THREAD) c)
  | OPT_MODE =>
      match parse_mode v with
      | None => inl (Unknown_mode v)
      | Some m => inr (Some m, c)
      end
  | OPT_CHUNK_CACHE =>
      match parseuint v with
      | (PK_SUCCESS, Some n) => inr (help, set_conf (fun p => Pk.mk_config (flags p) (compress p) n) c)
      | _ => inl (Invalid_integer v)
      end
  end.

(** The loop; every pass takes an argument off the command line, or is the last. *)
Fixpoint parse_loop (n : nat) (m : mode) (argv : list string) (ctx : parse_ctx) (hc : option mode * config) :
    option (parse_error + option mode * config) :=
  match n with
  | O => None
  | S n =>
      next ← pk_getopt m argv ctx;
      match next with
      | inl e => Some (inl e)
      | inr (None, _) => Some (inr hc)
      | inr (Some o, ctx) =>
          match handle_option o (default EmptyString (optparam ctx)) hc with
          | inl e => Some (inl e)
          | inr hc => parse_loop n m argv ctx hc
          end
      end
  end.

(** What parse_cmdline does in the end: print the usage (and exit with 1), print the version (and exit
    with 0), or return the mode and the configuration. *)
Inductive parsed := Usage (help : option mode) | Version | Parsed (m : mode) (c : config).

(** [argv] is the command line without the name of the program; [None] is a NULL pointer dereferenced. *)
Definition parse_cmdline (argv : list string) : option (parse_error + parsed) :=
  match argv with
  | [] => Some (inl No_mode)
  | name :: _ =>
      match parse_mode name with
      | None => Some (inl (Unknown_mode name))
      | Some m =>
          res ← parse_loop (S (length argv)) m argv (mk_pctx 1 None (fun _ => 0))
                  (None, default_config (flags_of m));
          Some (match res with
                | inl e => inl e
                | inr (help, c) =>
                    inr (if decide (m = MODE_HELP) then Usage help
                         else if decide (m = MODE_VERSION) then Version else Parsed m c)
                end)
      end
  end.
End parse.

Arguments parse_loop {_ _} is_dir is_regular n m argv ctx hc.

(** * The command line as a list of options *)

Definition opt_name (o : opt) : string := match get_option o with Some r => po_name r | None => EmptyString end.
Definition takes_arg (o : opt) : Prop := is_Some (get_option o ≫= po_arg).

Definition mode_name (m : mode) : string :=
  match list_find (fun nm => nm.2 = m) pk_modes with Some (_, (n, _)) => n | None => EmptyString end.

(** An option with its argument, and the words that it is on the command line. *)
Definition words (it : opt * option string) : list string :=
  ("--" +:+ opt_name it.1) :: option_list it.2.

Section reference.
Context `{!GLib} `{!LibUuid} (is_dir is_regular : string -> bool).

Definition log_types_ok (v : string) : Prop :=
  v = "none"%string \/ Forall (fun t => is_Some (parse_logtype t)) (g_strsplit v "," 0).

(** What the argument of an option must be. *)
Definition value_ok (m : mode) (o : opt) (v : string) : Prop :=
  match o with
  | OPT_PARCEL =>
      is_dir v = true /\ is_regular (v +:+ "/parcel.cfg") = true /\
      (has_flag (flags_of m) WANT_CACHE = true -> is_regular (v +:+ "/keyring") = true) /\
      (has_flag (flags_of m) WANT_PREV = true -> is_regular (v +:+ "/prev-keyring") = true)
  | OPT_UUID => is_Some (uuid_canonical v)
  | OPT_COMPRESSION => v ∈ ["none"; "zlib"; "lzf"]%string
  | OPT_MASK_FILE | OPT_MASK_STDERR => log_types_ok v
  | OPT_MODE => is_Some (parse_mode v)
  | OPT_CHUNK_CACHE => is_Some (uint v)
  | OPT_HOARD | OPT_DESTDIR | OPT_LOG | OPT_FOREGROUND | OPT_CHECK | OPT_FULL | OPT_SPLICE | OPT_COMPACT
  | OPT_ALLOW_ROOT | OPT_SINGLE_THREAD => True
  end.

(** An option of the mode with an argument if it needs one, which does not look like an option. *)
Record item_ok (m : mode) (it : opt * option string) : Prop := mk_item_ok {
  it_allowed : it.1 ∈ (opts_of m).*1;
  it_arg : is_Some it.2 <-> takes_arg it.1;
  it_plain v : it.2 = Some v -> option_element v = None;
  it_value : value_ok m it.1 (default EmptyString it.2)
}.

Record options_ok (m : mode) (its : list (opt * option string)) : Prop := mk_options_ok {
  op_items : Forall (item_ok m) its;
  op_once : NoDup its.*1
}.

Definition required_ok (m : mode) (its : list (opt * option string)) : Prop :=
  forall o, (o, REQUIRED) ∈ opts_of m -> o ∈ its.*1.

(** The argument of an option; [None] if it is not given. *)
Definition arg_of (its : list (opt * option string)) (o : opt) : option string := mjoin (assoc o its).

Definition bit_if (its : list (opt * option string)) (o : opt) (bit : Z) : Z :=
  if decide (o ∈ its.*1) then bit else 0.

Definition flags_with (f : Z) (its : list (opt * option string)) : Z :=
  Z.lor (Z.land f (u32 (Z.lnot (bit_if its OPT_FOREGROUND WANT_BACKGROUND))))
    (Z.lor (bit_if its OPT_CHECK WANT_CHECK) (Z.lor (bit_if its OPT_FULL WANT_FULL_CHECK)
    (Z.lor (bit_if its OPT_SPLICE WANT_SPLICE) (Z.lor (bit_if its OPT_COMPACT WANT_COMPACT)
    (Z.lor (bit_if its OPT_ALLOW_ROOT WANT_ALLOW_ROOT) (bit_if its OPT_SINGLE_THREAD WANT_SINGLE_THREAD)))))).

(** The bits of a list of log types. *)
Definition log_mask (v : string) : Z :=
  if decide (v = "none"%string) then 0
  else foldl (fun m t => Z.lor m (Z.shiftl 1 (default 0 (parse_logtype t)))) 0 (g_strsplit v "," 0).

(** The configuration that the options describe. *)
Definition config_of (m : mode) (its : list (opt * option string)) : config :=
  let a := arg_of its in
  let in_dir o file := (fun dir => dir +:+ "/" +:+ file) <$> a o in
  let in_parcel := in_dir OPT_PARCEL in
  mk_config
    (Pk.mk_config (flags_with (flags_of m) its)
       (default IU_CHUNK_COMP_NONE (iu_chunk_compress_parse <$> a OPT_COMPRESSION))
       (default 32 (a OPT_CHUNK_CACHE ≫= uint)))
    (a OPT_PARCEL) (in_parcel "parcel.cfg") (in_parcel "keyring") (in_parcel "prev-keyring")
    (in_parcel "disk") (in_parcel "disk.idx") (in_parcel "vfs") (in_parcel "parcelkeeper.lock")
    (in_parcel "parcelkeeper.pid")
    (a OPT_HOARD) (in_dir OPT_HOARD "hoard") (in_dir OPT_HOARD "hoard.idx")
    (a OPT_DESTDIR) (a OPT_LOG)
    (default 0xc1 (log_mask <$> a OPT_MASK_FILE)) (default 0x40 (log_mask <$> a OPT_MASK_STDERR))
    (a OPT_UUID ≫= uuid_canonical).

(** What a command line asks for. *)
Definition request_of (m : mode) (its : list (opt * option string)) : parsed :=
  match m with
  | MODE_HELP => Usage (arg_of its OPT_MODE ≫= parse_mode)
  | MODE_VERSION => Version
  | _ => Parsed m (config_of m its)
  end.
End reference.

(** * Lemmas *)

Lemma opt_name_inj o o' : opt_name o = opt_name o' -> o = o'.
Proof. destruct o, o'; done. Qed.

Lemma get_option_name o : exists r, get_option o = Some r /\ po_name r = opt_name o /\ (is_Some (po_arg r) <-> takes_arg o).
Proof. destruct o; by eexists. Qed.

Lemma parse_mode_name name m : parse_mode name = Some m <-> name = mode_name m.
Proof.
  split; [|by intros ->; destruct m]. unfold parse_mode, pk_modes. simpl.
  repeat (destruct (decide _) as [->|_]; [by intros [= <-]|]). done.
Qed.

Lemma option_element_name arg name : option_element arg = Some name <-> arg = ("--" +:+ name)%string.
Proof.
  split; [|by intros ->]. destruct arg as [|[[][][][][][][][]] arg]; try done.
  destruct arg as [|[[][][][][][][][]] arg]; try done. by intros [= ->].
Qed.

#[global] Instance takes_arg_dec o : Decision (takes_arg o).
Proof. unfold takes_arg. apply _. Defined.
