(* ===== verification/CmdlineProofs.v ===== *)
(** CmdlineProofs: the option parser of Cmdline.v is equivalent to the reading of the command line as a
    list of options, apart from one kind of command line on which it crashes. *)

From stdpp Require Import strings.
From Stdlib Require Import Ascii String.
From S2P Require Import Prelude Compress LzfStream Chunk Effects Sql Pk Util Config Cmdline.

(** * Words *)

Definition shape_ok (it : opt * option string) : Prop :=
  (is_Some it.2 <-> takes_arg it.1) /\ forall v, it.2 = Some v -> option_element v = None.

Lemma opts_not_any m o t : (o, t) ∈ opts_of m -> t <> ANY.
Proof.
  intros Hin. assert (Forall (fun ot => ot.2 <> ANY) (opts_of m)) as Hall by (destruct m; by repeat constructor).
  by apply (proj1 (Forall_forall _ _) Hall (o, t)).
Qed.

Lemma opts_once m : NoDup (opts_of m).*1.
Proof. apply (bool_decide_unpack _). by destruct m. Qed.

(** The words of an option, and what follows, tell which option it is. *)
Lemma words_inj it it' rest rest' :
  shape_ok it -> shape_ok it' -> words it ++ rest = words it' ++ rest' -> it = it' /\ rest = rest'.
Proof.
  destruct it as [o a], it' as [o' a']. intros [Ha _] [Ha' _]. unfold words. simpl in *. intros [= Hn Hr].
  apply opt_name_inj in Hn as <-. destruct a, a'; simpl in *; simplify_eq; try done.
  - destruct Ha as [Ha _], Ha' as [_ Ha']. destruct Ha'; [by apply Ha|done].
  - destruct Ha' as [Ha' _], Ha as [_ Ha]. destruct Ha; [by apply Ha'|done].
Qed.

Lemma all_words_prefix its its' rest :
  Forall shape_ok its -> Forall shape_ok its' -> its ≫= words = (its' ≫= words) ++ rest ->
  exists more, its = its' ++ more /\ rest = more ≫= words.
Proof.
  intros Hs. revert its Hs. induction its' as [|it' its' IH]; intros its Hs Hs' Heq; [by exists its|].
  apply Forall_cons in Hs' as [Hit' Hs']. destruct its as [|it its]; [done|].
  apply Forall_cons in Hs as [Hit Hs]. rewrite !bind_cons, <- app_assoc in Heq.
  destruct (words_inj it it' _ _ Hit Hit' Heq) as [<- Hr].
  destruct (IH its Hs Hs' Hr) as (more & -> & ->). by exists more.
Qed.

Lemma all_words_inj its its' :
  Forall shape_ok its -> Forall shape_ok its' -> its ≫= words = its' ≫= words -> its = its'.
Proof.
  intros Hs Hs' Heq. rewrite <- (app_nil_r (its' ≫= words)) in Heq.
  destruct (all_words_prefix its its' [] Hs Hs' Heq) as ([|it more] & -> & Hm); [by rewrite app_nil_r|done].
Qed.

Lemma item_shape `{!GLib} `{!LibUuid} is_dir is_regular m it : item_ok is_dir is_regular m it -> shape_ok it.
Proof. by intros []. Qed.

(** * One option *)

(** The option can come next, after those in [seen]. *)
Record fits (m : mode) (seen : list opt) (it : opt * option string) : Prop := mk_fits {
  fi_allowed : it.1 ∈ (opts_of m).*1;
  fi_new : it.1 ∉ seen;
  fi_shape : shape_ok it
}.

(** An option at the end of the command line that lacks its argument. *)
Record dangling (m : mode) (seen : list opt) (o : opt) : Prop := mk_dangling {
  da_allowed : o ∈ (opts_of m).*1;
  da_new : o ∉ seen;
  da_arg : takes_arg o
}.

Definition ctx_ok (its : list (opt * option string)) (ctx : parse_ctx) : Prop :=
  optind ctx = S (length (its ≫= words)) /\
  forall o, optseen ctx o = if decide (o ∈ its.*1) then 1 else 0.

Lemma ctx_seen its ctx o : ctx_ok its ctx -> optseen ctx o <> 0 <-> o ∈ its.*1.
Proof. intros [_ Hs]. rewrite Hs. by case_decide. Qed.

(** What the loop over the options finds. *)
Lemma find_option_spec opts argv name ctx :
  Forall (fun ot => ot.2 <> ANY) opts ->
  (exists o, o ∈ opts.*1 /\ opt_name o = name /\
     find_option opts argv name ctx =
       if decide (optseen ctx o <> 0) then Some (inl (Only_once name))
       else if decide (takes_arg o) then
         if decide (getopt_optind = length argv) then Some (inl (Wrong_arguments name))
         else v ← argv !! optind ctx;
              match option_element v with
              | Some _ => Some (inl (Wrong_arguments name))
              | None => Some (inr (o, mk_pctx (S (optind ctx)) (Some v) (optseen (count_opt o ctx))))
              end
       else Some (inr (o, count_opt o ctx))) \/
  (forall o, o ∈ opts.*1 -> opt_name o <> name) /\ exists e, find_option opts argv name ctx = Some (inl e).
Proof.
  induction opts as [|[o t] opts IH]; intros Hany; simpl.
  { right. split; [by intros o ?%not_elem_of_nil|]. by eexists. }
  apply Forall_cons in Hany as [Ht Hany]. destruct (get_option_name o) as (r & -> & Hn & Ha). simpl. rewrite Hn.
  destruct (decide (opt_name o <> name)) as [Hne|Heq].
  - destruct (IH Hany) as [(o' & Hin & Hn' & Hf)|[Hno Hf]].
    + left. exists o'. split_and!; [by right|done|done].
    + right. split; [|done]. intros o' [->|Hin]%elem_of_cons; auto.
  - apply dec_stable in Heq. left. exists o. split_and!; [by left|done|].
    destruct (decide (optseen ctx o <> 0)); [by rewrite decide_True|]. rewrite decide_False by (by intros []).
    destruct (decide (takes_arg o)) as [Hta|Hta].
    + apply Ha in Hta as [a ->]. done.
    + destruct (po_arg r); [|done]. destruct Hta. apply Ha. by eexists.
Qed.

Lemma lookup_words name its rest :
  (name :: (its ≫= words) ++ rest) !! S (length (its ≫= words)) = head rest.
Proof. simpl. rewrite lookup_app_r, Nat.sub_diag by lia. by destruct rest. Qed.

Lemma ctx_snoc its ctx o a p :
  ctx_ok its ctx -> o ∉ its.*1 ->
  ctx_ok (its ++ [(o, a)]) (mk_pctx (length (words (o, a)) + optind ctx) p (optseen (count_opt o ctx))).
Proof.
  intros [Hi Hs] Hnew. split.
  - rewrite bind_app, length_app, Hi. simpl. rewrite app_nil_r. lia.
  - intros o'. simpl. rewrite !Hs, fmap_app. destruct (decide (o' = o)) as [->|Hne].
    + rewrite decide_False by done. by rewrite decide_True by (rewrite elem_of_app; right; by left).
    + apply decide_ext. rewrite elem_of_app. simpl. rewrite elem_of_cons, elem_of_nil. tauto.
Qed.

(** One call of the option parser, when there is something left. *)
Lemma getopt_step m name its rest ctx :
  ctx_ok its ctx -> rest <> [] ->
  match pk_getopt m (name :: (its ≫= words) ++ rest) ctx with
  | Some (inr (Some o, ctx')) =>
      exists a rest', rest = words (o, a) ++ rest' /\ fits m its.*1 (o, a) /\
        ctx_ok (its ++ [(o, a)]) ctx' /\ forall v, a = Some v -> optparam ctx' = Some v
  | Some (inr (None, _)) => False
  | Some (inl e) =>
      (forall it rest', fits m its.*1 it -> rest <> words it ++ rest') /\
      (forall o, dangling m its.*1 o -> rest <> ["--" +:+ opt_name o])
  | None => exists o, rest = ["--" +:+ opt_name o] /\ dangling m its.*1 o
  end.
Proof.
  intros Hctx Hrest. destruct rest as [|arg rest]; [done|]. pose proof Hctx as [Hi _].
  unfold pk_getopt. rewrite decide_False by (rewrite Hi; simpl; rewrite length_app; simpl; lia).
  rewrite Hi, lookup_words. cbn [head mbind option_bind].
  destruct (option_element arg) as [n|] eqn:Harg.
  2:{ split; [intros [o a] rest' _|intros o _]; intros [= -> _]; by rewrite (proj2 (option_element_name _ _) eq_refl) in Harg. }
  apply option_element_name in Harg as ->.
  assert (forall it rest', ("--" +:+ n)%string :: rest = words it ++ rest' -> n = opt_name it.1) as Hname.
  { intros [o a] rest' Hw. injection Hw as Hw _. exact Hw. }
  set (ctx1 := mk_pctx _ _ _). set (argv := name :: _).
  destruct (find_option_spec (opts_of m) argv n ctx1) as [(o & Hin & <- & ->)|(Hno & e & ->)].
  { apply Forall_forall. intros [o t]. apply opts_not_any. }
  2:{ simpl. split.
      - intros it rest' Hf Hw. destruct (Hno it.1); [apply Hf|]. by rewrite (Hname it rest' Hw).
      - intros o Hd [= Hw _]. destruct (Hno o); [apply Hd|done]. }
  assert (optseen ctx1 = optseen ctx) as Hseen by done. rewrite Hseen.
  destruct (decide (optseen ctx o <> 0)) as [Hold|Hnew].
  { apply (ctx_seen its) in Hold; [|done]. simpl. split.
    - intros [o' a] rest' [_ Hn _] Hw. apply (Hname (o', a) rest'), opt_name_inj in Hw. simpl in *. by subst o'.
    - intros o' [_ Hn _] Hw. injection Hw as Hw%opt_name_inj _. by subst o'. }
  assert (o ∉ its.*1) as Hn by (intros Hx; apply Hnew; by apply (ctx_seen its)). clear Hnew.
  destruct (decide (takes_arg o)) as [Ha|Ha].
  2:{ exists None, rest. split_and!; [done| | |done].
      { split; [done..|]. split; simpl; [|done]. split; [by intros []|done]. }
      apply (ctx_snoc its ctx o None (optparam ctx)) in Hctx; [|done]. simpl in Hctx. by rewrite Hi in Hctx. }
  rewrite decide_False by (unfold getopt_optind, argv; simpl; rewrite length_app; simpl; lia).
  assert (argv !! optind ctx1 = head rest) as ->.
  { subst argv ctx1. simpl. rewrite lookup_app_r by lia.
    replace (_ - _)%nat with 1%nat by lia. simpl. by destruct rest. }
  destruct rest as [|v rest]; simpl; [by exists o|].
  destruct (option_element v) as [x|] eqn:Hv; simpl.
  - split.
    + intros [o' a] rest' [_ _ [Hs Hp]] Hw. simpl in *.
      pose proof (Hname (o', a) rest' Hw) as ->%opt_name_inj. simpl in *.
      apply Hs in Ha as [v' ->]. simpl in Hw. injection Hw as <- _. by rewrite (Hp v eq_refl) in Hv.
    + intros o' _ [=].
  - exists (Some v), rest. split_and!; try done.
    + split; [done..|]. split; [done|]. by intros ? [= <-].
    + apply (ctx_snoc its ctx o (Some v) (Some v)) in Hctx; [|done]. simpl in Hctx. by rewrite Hi in Hctx.
Qed.

(** * What the options do to the configuration *)

Section handle.
Context `{!GLib} `{!LibUuid} (is_dir is_regular : string -> bool).

(** The state of the loop after the options [its]. *)
Definition state_of (m : mode) (its : list (opt * option string)) : option mode * config :=
  (arg_of its OPT_MODE ≫= parse_mode, config_of m its).

Lemma arg_of_snoc its o a o' :
  o ∉ its.*1 -> arg_of (its ++ [(o, a)]) o' = if decide (o' = o) then a else arg_of its o'.
Proof.
  intros Hn. unfold arg_of. induction its as [|[o1 a1] its IH]; simpl.
  - by destruct (decide (o' = o)).
  - apply not_elem_of_cons in Hn as [Hne Hn]. simpl in Hne. destruct (decide (o' = o1)) as [->|]; [|by apply IH].
    by rewrite decide_False.
Qed.

Lemma bit_if_snoc its o a o' bit :
  o ∉ its.*1 -> bit_if (its ++ [(o, a)]) o' bit = if decide (o' = o) then bit else bit_if its o' bit.
Proof.
  intros Hn. unfold bit_if. rewrite fmap_app. destruct (decide (o' = o)) as [->|Hne].
  - by rewrite decide_True by (rewrite elem_of_app; right; by left).
  - apply decide_ext. rewrite elem_of_app. simpl. rewrite elem_of_cons, elem_of_nil. tauto.
Qed.

Lemma bit_if_new its o bit : o ∉ its.*1 -> bit_if its o bit = 0.
Proof. intros. unfold bit_if. by rewrite decide_False. Qed.

(** The value of the flags is computed for every mode and any of the options. *)
Ltac all_flags :=
  unfold flags_with; repeat match goal with |- context [bit_if ?its ?o ?b] =>
    let x := fresh in set (x := bit_if its o b); unfold bit_if in x; destruct (decide (o ∈ its.*1)); subst x end.

Lemma flags_with_snoc m its o a :
  o ∉ its.*1 ->
  flags_with (flags_of m) (its ++ [(o, a)]) =
    let f := flags_with (flags_of m) its in
    match o with
    | OPT_FOREGROUND => Z.land f (u32 (Z.lnot WANT_BACKGROUND))
    | OPT_CHECK => Z.lor f WANT_CHECK | OPT_FULL => Z.lor f WANT_FULL_CHECK
    | OPT_SPLICE => Z.lor f WANT_SPLICE | OPT_COMPACT => Z.lor f WANT_COMPACT
    | OPT_ALLOW_ROOT => Z.lor f WANT_ALLOW_ROOT | OPT_SINGLE_THREAD => Z.lor f WANT_SINGLE_THREAD
    | _ => f
    end.
Proof.
  intros Hn. unfold flags_with at 1. rewrite !bit_if_snoc by done.
  destruct o; cbn [decide opt_eq_dec]; try done; all_flags; by destruct m.
Qed.

Lemma has_cache_flags m its want :
  want = WANT_CACHE \/ want = WANT_PREV ->
  has_flag (flags_with (flags_of m) its) want = has_flag (flags_of m) want.
Proof. intros [-> | ->]; all_flags; by destruct m. Qed.

Lemma mask_of_spec mask types :
  mask_of mask types = (PK_SUCCESS, foldl (fun m t => Z.lor m (Z.shiftl 1 (default 0 (parse_logtype t)))) mask types) /\
    Forall (fun t => is_Some (parse_logtype t)) types \/
  fst (mask_of mask types) = PK_INVALID /\ ~ Forall (fun t => is_Some (parse_logtype t)) types.
Proof.
  revert mask. induction types as [|t types IH]; intros mask; simpl; [by left|].
  destruct (parse_logtype t) as [x|] eqn:Ht; simpl.
  - destruct (IH (Z.lor mask (Z.shiftl 1 x))) as [[-> Hf]|[-> Hf]].
    + left. split; [done|]. constructor; [by rewrite Ht|done].
    + right. split; [done|]. by intros [_ ?]%Forall_cons.
  - right. split; [done|]. intros [Hs _]%Forall_cons. rewrite Ht in Hs. by destruct Hs.
Qed.

Lemma logtypes_spec v :
  logtypes_to_mask v = (PK_SUCCESS, log_mask v) /\ log_types_ok v \/
  fst (logtypes_to_mask v) = PK_INVALID /\ ~ log_types_ok v.
Proof.
  unfold logtypes_to_mask, log_mask, log_types_ok. destruct (decide (v = "none"%string)) as [->|Hne].
  - rewrite decide_False by auto. left. auto.
  - rewrite decide_True by done. destruct (mask_of_spec 0 (g_strsplit v "," 0)) as [[-> ?]|[-> ?]]; [left|right]; tauto.
Qed.

Lemma compress_spec v :
  iu_chunk_compress_parse v = IU_CHUNK_COMP_UNKNOWN <-> ~ v ∈ ["none"; "zlib"; "lzf"]%string.
Proof.
  unfold iu_chunk_compress_parse. rewrite !elem_of_cons, elem_of_nil.
  repeat case_decide; split; intros Hx; try done; tauto.
Qed.

(** An option changes the configuration as it should, or is refused. *)
Lemma handle_option_spec m its o a :
  o ∉ its.*1 -> (is_Some a <-> takes_arg o) ->
  (value_ok is_dir is_regular m o (default EmptyString a) /\
   handle_option is_dir is_regular o (default EmptyString a) (state_of m its) = inr (state_of m (its ++ [(o, a)]))) \/
  (~ value_ok is_dir is_regular m o (default EmptyString a) /\
   exists e, handle_option is_dir is_regular o (default EmptyString a) (state_of m its) = inl e).
Proof.
  intros Hn Ha. set (v := default EmptyString a).
  assert (takes_arg o -> a = Some v) as Hv by (intros [x ->]%Ha; done).
  assert (state_of m (its ++ [(o, a)]) = state_of m (its ++ [(o, a)])) as Hst by done.
  unfold state_of at 2, config_of in Hst. rewrite flags_with_snoc in Hst by done.
  rewrite !arg_of_snoc in Hst by done.
  destruct o; rewrite Hst; try rewrite Hv by (by eexists); clear Hst Hv; clearbody v.
  all: try (left; split; [exact I|reflexivity]).
  - cbn [value_ok handle_option state_of]. unfold check_dir, filepath. cbn [c_conf config_of flags].
    rewrite !has_cache_flags by tauto. destruct (is_dir v); [|right; split; [by intros []|by eexists]].
    cbn [mbind sum_bind andb]. change ("/" +:+ "parcel.cfg")%string with "/parcel.cfg"%string.
    change ("/" +:+ "keyring")%string with "/keyring"%string.
    change ("/" +:+ "prev-keyring")%string with "/prev-keyring"%string.
    destruct (is_regular (v +:+ "/parcel.cfg")); cbn [negb];
      [|right; split; [by intros (_ & ? & _)|by eexists]].
    destruct (has_flag (flags_of m) WANT_CACHE), (is_regular (v +:+ "/keyring")); cbn [andb negb];
      try (right; split; [by (intros (_ & _ & Hk & _); specialize (Hk eq_refl))|by eexists]);
    (destruct (has_flag (flags_of m) WANT_PREV), (is_regular (v +:+ "/prev-keyring")); cbn [andb negb];
      try (right; split; [by (intros (_ & _ & _ & Hk); specialize (Hk eq_refl))|by eexists]);
      (left; split; [by split_and!|reflexivity])).
  - cbn [value_ok handle_option state_of]. unfold canonicalize_uuid. destruct (uuid_canonical v) as [u|] eqn:Hu.
    + left. split; [by eexists|]. rewrite <- Hu. reflexivity.
    + right. split; [by intros []|by eexists].
  - cbn [value_ok handle_option state_of]. destruct (decide _) as [Hu|Hu]; rewrite compress_spec in Hu.
    + right. split; [done|by eexists].
    + left. split; [by apply dec_stable|reflexivity].
  - cbn [value_ok handle_option state_of]. destruct (logtypes_spec v) as [[-> ?]|[Hi ?]].
    + left. split; [done|reflexivity].
    + right. split; [done|]. destruct (logtypes_to_mask v) as [[] ?]; try done; by eexists.
  - cbn [value_ok handle_option state_of]. destruct (logtypes_spec v) as [[-> ?]|[Hi ?]].
    + left. split; [done|reflexivity].
    + right. split; [done|]. destruct (logtypes_to_mask v) as [[] ?]; try done; by eexists.
  - cbn [value_ok handle_option state_of]. destruct (parse_mode v) as [u|] eqn:Hu.
    + left. split; [by eexists|]. rewrite <- Hu. reflexivity.
    + right. split; [by intros []|by eexists].
  - cbn [value_ok handle_option state_of]. rewrite parseuint_uint. destruct (uint v) as [u|] eqn:Hu.
    + left. split; [by eexists|]. assert (u = default 32 (uint v)) as -> by (by rewrite Hu). reflexivity.
    + right. split; [by intros []|by eexists].
Qed.
(** * The loop *)

Lemma check_required_spec its ctx opts :
  ctx_ok its ctx ->
  (check_required opts ctx = Some None /\ forall o, (o, REQUIRED) ∈ opts -> o ∈ its.*1) \/
  ((exists e, check_required opts ctx = Some (Some e)) /\ ~ forall o, (o, REQUIRED) ∈ opts -> o ∈ its.*1).
Proof.
  intros Hctx. induction opts as [|[o t] opts IH]; simpl.
  { left. split; [done|]. by intros o ?%not_elem_of_nil. }
  destruct (decide _) as [[-> Hz]|Hn].
  - right. destruct (get_option_name o) as (r & -> & _). split; [by eexists|].
    intros Hall. assert (o ∈ its.*1) as Hin by (apply Hall; by left). by apply (ctx_seen its ctx) in Hin.
  - destruct IH as [[-> Hall]|[He Hno]]; [left|right]; (split; [done|]).
    + intros o' [[= -> <-]|Hin]%elem_of_cons; [|by apply Hall].
      apply (ctx_seen its ctx); [done|]. intros Hz. by apply Hn.
    + intros Hall. apply Hno. intros o' Hin. apply Hall. by right.
Qed.

Local Abbreviation options_ok := (options_ok is_dir is_regular).

Lemma options_ok_snoc m its it :
  options_ok m (its ++ [it]) <-> options_ok m its /\ fits m its.*1 it /\ value_ok is_dir is_regular m it.1 (default EmptyString it.2).
Proof.
  split.
  - intros [Hi Hn]. rewrite fmap_app in Hn. apply NoDup_app in Hn as (Hn & Hd & _).
    apply Forall_app in Hi as [Hi Hit]. apply Forall_singleton in Hit as [Ha Hs Hp Hv].
    split_and!; try done. split; [done| |done]. intros Hin. apply (Hd _ Hin). by left.
  - intros ([Hi Hn] & [Ha Hnew [Hs Hp]] & Hv). split.
    + apply Forall_app. split; [done|]. by apply Forall_singleton.
    + rewrite fmap_app. apply NoDup_app. split_and!; [done| |apply NoDup_singleton].
      by intros o Ho ->%list_elem_of_singleton.
Qed.

Lemma options_ok_prefix m its more : options_ok m (its ++ more) -> options_ok m its.
Proof.
  intros [Hi Hn]. split.
  - by apply Forall_app in Hi as [? _].
  - rewrite fmap_app in Hn. by apply NoDup_app in Hn as (? & _).
Qed.

Lemma options_ok_next m its it more :
  options_ok m (its ++ it :: more) -> fits m its.*1 it /\ value_ok is_dir is_regular m it.1 (default EmptyString it.2).
Proof.
  rewrite cons_middle, app_assoc. intros Ho%options_ok_prefix%options_ok_snoc. tauto.
Qed.

Lemma handle_no_arg o v v' hc :
  ~ takes_arg o -> handle_option is_dir is_regular o v hc = handle_option is_dir is_regular o v' hc.
Proof. intros Hn. destruct o; try reflexivity; destruct Hn; by eexists. Qed.

(** What begins with the words of an option is read as that option first. *)
Lemma next_words it rest more :
  shape_ok it -> Forall shape_ok more -> words it ++ rest = more ≫= words ->
  exists more', more = it :: more' /\ rest = more' ≫= words.
Proof.
  intros Hit Hs. destruct more as [|it' more]; [done|]. apply Forall_cons in Hs as [Hit' Hs].
  rewrite bind_cons. intros Hw. destruct (words_inj it it' _ _ Hit Hit' Hw) as [<- ->]. by exists more.
Qed.

Lemma next_words_dangling m its it rest more o :
  shape_ok it -> Forall shape_ok more -> dangling m its o ->
  words it ++ rest = (more ≫= words) ++ ["--" +:+ opt_name o] ->
  exists more', more = it :: more' /\ rest = (more' ≫= words) ++ ["--" +:+ opt_name o].
Proof.
  intros Hit Hs [_ _ Ha]. destruct more as [|it' more].
  - destruct it as [o' a]. unfold words. simpl. intros Hw. injection Hw as Hw%opt_name_inj Hr. subst o'.
    apply Hit in Ha as [v Ha]. simpl in Ha. by subst a.
  - apply Forall_cons in Hs as [Hit' Hs]. rewrite bind_cons, <- app_assoc. intros Hw.
    destruct (words_inj it it' _ _ Hit Hit' Hw) as [<- ->]. by exists more.
Qed.

Lemma options_shape m its more : options_ok m (its ++ more) -> Forall shape_ok more.
Proof. intros [[_ Hi]%Forall_app _]. eapply Forall_impl; [done|]. intros it. apply item_shape. Qed.

(** [its] is what has been read; the rest is read to its end, or to where it goes wrong. *)
Lemma parse_loop_spec n m name its rest ctx :
  (length rest < n)%nat -> ctx_ok its ctx -> options_ok m its ->
  match parse_loop is_dir is_regular n m (name :: (its ≫= words) ++ rest) ctx (state_of m its) with
  | Some (inr hc) =>
      exists more, rest = more ≫= words /\ options_ok m (its ++ more) /\ required_ok m (its ++ more) /\
        hc = state_of m (its ++ more)
  | Some (inl e) =>
      (forall more, rest = more ≫= words -> options_ok m (its ++ more) -> ~ required_ok m (its ++ more)) /\
      (forall more o, rest = (more ≫= words) ++ ["--" +:+ opt_name o] -> options_ok m (its ++ more) ->
        ~ dangling m (its ++ more).*1 o)
  | None =>
      exists more o, rest = (more ≫= words) ++ ["--" +:+ opt_name o] /\ options_ok m (its ++ more) /\
        dangling m (its ++ more).*1 o
  end.
Proof.
  revert its rest ctx. induction n as [|n IH]; intros its rest ctx Hn Hctx Hok; [lia|]. cbn [parse_loop].
  destruct rest as [|arg rest'].
  { pose proof Hctx as [Hi _]. unfold pk_getopt. rewrite app_nil_r, decide_True by (rewrite Hi; done).
    destruct (check_required_spec its ctx (opts_of m) Hctx) as [[-> Hreq]|[[e ->] Hreq]]; simpl.
    - exists []. rewrite app_nil_r. by split_and!.
    - split; [|by intros [|[]]]. intros [|[o a] more] Hm; [|done]. by rewrite app_nil_r. }
  set (rest := arg :: rest') in *. assert (rest <> []) as Hne by done. clearbody rest. clear arg rest'.
  pose proof (getopt_step m name its rest ctx Hctx Hne) as Hstep.
  destruct (pk_getopt _ _ _) as [[e|[[o|] ctx']]|]; cbn [mbind option_bind]; [| |done|].
  - destruct Hstep as [Hit Hda]. split.
    + intros [|it more] Hr Ho; [done|]. apply options_ok_next in Ho as [Hf _]. by destruct (Hit it (more ≫= words) Hf).
    + intros [|it more] o Hr Ho Hd; [rewrite app_nil_r in Hd; by destruct (Hda o Hd)|].
      apply options_ok_next in Ho as [Hf _]. rewrite bind_cons, <- app_assoc in Hr. by destruct (Hit it _ Hf Hr).
  - destruct Hstep as (a & rest' & -> & Hf & Hctx' & Hp). pose proof Hf as [_ Hnew Hs]. simpl in Hnew.
    assert (handle_option is_dir is_regular o (default EmptyString (optparam ctx')) (state_of m its) =
            handle_option is_dir is_regular o (default EmptyString a) (state_of m its)) as ->.
    { destruct a as [v|]; [by rewrite (Hp v eq_refl)|]. apply handle_no_arg. intros Ha. by apply Hs in Ha as [? [=]]. }
    destruct (handle_option_spec m its o a Hnew) as [[Hv ->]|[Hv [e ->]]]; [apply Hs| |].
    + assert (options_ok m (its ++ [(o, a)])) as Hok' by (by apply options_ok_snoc).
      assert (name :: (its ≫= words) ++ words (o, a) ++ rest' = name :: ((its ++ [(o, a)]) ≫= words) ++ rest') as ->.
      { rewrite bind_app, bind_cons. change ([] ≫= words) with (@nil string). by rewrite app_nil_r, app_assoc. }
      assert (length rest' < n)%nat as Hn' by (rewrite length_app in Hn; simpl in Hn; lia).
      specialize (IH (its ++ [(o, a)]) rest' ctx' Hn' Hctx' Hok').
      assert (forall more, (its ++ [(o, a)]) ++ more = its ++ (o, a) :: more) as Happ by (intros; by rewrite <- app_assoc).
      destruct (parse_loop _ _ _ _ _ _ _) as [[e|hc]|].
      * destruct IH as [IH1 IH2]. split.
        -- intros more Hr Ho. destruct (next_words (o, a) rest' more Hs (options_shape _ _ _ Ho) Hr) as (more' & -> & Hr').
           rewrite <- (Happ more') in Ho |- *. by apply IH1.
        -- intros more o' Hr Ho Hd.
           destruct (next_words_dangling _ _ (o, a) rest' more o' Hs (options_shape _ _ _ Ho) Hd Hr) as (more' & -> & Hr').
           rewrite <- (Happ more') in Ho, Hd. by apply (IH2 more' o').
      * destruct IH as (more & -> & IH). exists ((o, a) :: more). by rewrite <- (Happ more), bind_cons.
      * destruct IH as (more & o' & -> & IH). exists ((o, a) :: more), o'. by rewrite <- (Happ more), bind_cons, app_assoc.
    + split.
      * intros more Hr Ho. destruct (next_words (o, a) rest' more Hs (options_shape _ _ _ Ho) Hr) as (more' & -> & _).
        by apply options_ok_next in Ho as [_ ?].
      * intros more o' Hr Ho Hd.
        destruct (next_words_dangling _ _ (o, a) rest' more o' Hs (options_shape _ _ _ Ho) Hd Hr) as (more' & -> & _).
        by apply options_ok_next in Ho as [_ ?].
  - destruct Hstep as (o & -> & Hd). exists [], o. by rewrite app_nil_r.
Qed.
End handle.

(** * Properties *)

Section properties.
Context `{!GLib} `{!LibUuid} (is_dir is_regular : string -> bool).

Lemma request_of_state m its help c :
  (help, c) = state_of m its ->
  (if decide (m = MODE_HELP) then Usage help else if decide (m = MODE_VERSION) then Version else Parsed m c) =
  request_of m its.
Proof. intros [= -> ->]. by destruct m. Qed.

Lemma start_ok m : ctx_ok [] (mk_pctx 1 None (fun _ => 0)) /\ options_ok is_dir is_regular m [] /\
  (None, default_config (flags_of m)) = state_of m [].
Proof. split_and!; [done|by split; [|apply NoDup_nil_2]|by destruct m]. Qed.

(** The words of accepted options determine them. *)
Lemma options_unique m its its' :
  options_ok is_dir is_regular m its -> options_ok is_dir is_regular m its' ->
  its ≫= words = its' ≫= words -> its = its'.
Proof.
  intros Ho Ho'. apply all_words_inj; by apply (options_shape is_dir is_regular m []).
Qed.

(** A command line with an option that lacks its argument is not one of complete options. *)
Lemma dangling_not_ok m its its' o :
  options_ok is_dir is_regular m its -> options_ok is_dir is_regular m its' -> dangling m its'.*1 o ->
  its ≫= words <> (its' ≫= words) ++ ["--" +:+ opt_name o].
Proof.
  intros Ho Ho' Hd Hw.
  destruct (all_words_prefix its its' ["--" +:+ opt_name o]) as (more & -> & Hm);
    [by apply (options_shape is_dir is_regular m [])..|done|].
  pose proof (options_shape _ _ _ _ _ Ho) as Hs. destruct more as [|it more]; [done|].
  apply Forall_cons in Hs as [Hs _].
  destruct (next_words_dangling m its'.*1 it (more ≫= words) [] o Hs) as (? & ? & _); try done.
Qed.

(** The parser is run on what follows the mode. *)
Lemma parse_cmdline_loop m rest :
  parse_cmdline is_dir is_regular (mode_name m :: rest) =
    res ← parse_loop is_dir is_regular (S (S (length rest))) m (mode_name m :: ([] ≫= words) ++ rest)
            (mk_pctx 1 None (fun _ => 0)) (state_of m []);
    Some (match res with
          | inl e => inl e
          | inr (help, c) => inr (if decide (m = MODE_HELP) then Usage help
                                  else if decide (m = MODE_VERSION) then Version else Parsed m c)
          end).
Proof.
  unfold parse_cmdline. rewrite (proj2 (parse_mode_name (mode_name m) m) eq_refl).
  by destruct (start_ok m) as (_ & _ & <-).
Qed.

Lemma parse_cmdline_mode argv :
  (exists e, parse_cmdline is_dir is_regular argv = Some (inl e)) /\ (forall m rest, argv <> mode_name m :: rest) \/
  exists m rest, argv = mode_name m :: rest.
Proof.
  destruct argv as [|name rest]; [left; split; [by eexists|done]|]. unfold parse_cmdline.
  destruct (parse_mode name) as [m|] eqn:Hm.
  - right. apply parse_mode_name in Hm as ->. by exists m, rest.
  - left. split; [by eexists|]. intros m rest' [= -> _].
    by rewrite (proj2 (parse_mode_name (mode_name m) m) eq_refl) in Hm.
Qed.

Lemma mode_name_inj m m' : mode_name m = mode_name m' -> m = m'.
Proof. by destruct m, m'. Qed.
End properties.

(** C30: the command line is read as it is meant.  The option parser accepts a command line exactly if
    it is a mode followed by options of that mode, in any order, each given once, with an argument if
    and only if it takes one, the arguments being right for it (directories and files that exist, a
    UUID, an algorithm, log types, a number), and the options that the mode requires among them; and
    then it gives the mode and the configuration that these options describe, or the usage or the
    version that they ask for. *)
Theorem parse_cmdline_exact (gl : GLib) (lu : LibUuid) is_dir is_regular argv r :
  parse_cmdline is_dir is_regular argv = Some (inr r) <->
  exists m its, argv = mode_name m :: (its ≫= words) /\ options_ok is_dir is_regular m its /\
    required_ok m its /\ r = request_of m its.
Proof.
  destruct (parse_cmdline_mode is_dir is_regular argv) as [[[e He] Hno]|(m & rest & ->)].
  { rewrite He. split; [done|]. intros (m & its & Hm & _). by destruct (Hno m (its ≫= words)). }
  rewrite parse_cmdline_loop. destruct (start_ok is_dir is_regular m) as (Hctx & Hok & _).
  pose proof (parse_loop_spec is_dir is_regular (S (S (length rest))) m (mode_name m) [] rest _
    ltac:(lia) Hctx Hok) as Hl.
  destruct (parse_loop _ _ _ _ _ _ _) as [[e|[help c]]|]; simpl; split; try done.
  - destruct Hl as [Hl _]. intros (m' & its & [= <-%mode_name_inj ->] & Ho & Hr & _). by destruct (Hl its).
  - destruct Hl as (its & -> & Ho & Hr & Hst). rewrite (request_of_state m its help c Hst). intros [= <-]. by exists m, its.
  - destruct Hl as (its & Hw & Ho & Hr & Hst). rewrite (request_of_state m its help c Hst).
    intros (m' & its' & [= <-%mode_name_inj ->] & Ho' & Hr' & ->).
    by rewrite (options_unique is_dir is_regular m its its' Ho Ho').
  - destruct Hl as (its & o & Hw & Ho & Hd). intros (m' & its' & [= <-%mode_name_inj ->] & Ho' & _).
    by destruct (dangling_not_ok is_dir is_regular m its' its o Ho' Ho Hd).
Qed.

(** pk_getopt means to report an option at the end of the command line that lacks its argument, but
    compares the "optind" of the C library with the number of arguments instead of its own.  So the
    program reads the NULL after the last argument and crashes, and it does so on exactly these command
    lines: a mode, options that are all right, and an option that takes an argument but is the last
    word. *)
Theorem parse_cmdline_crash (gl : GLib) (lu : LibUuid) is_dir is_regular argv :
  parse_cmdline is_dir is_regular argv = None <->
  exists m its o, argv = mode_name m :: (its ≫= words) ++ ["--" +:+ opt_name o] /\
    options_ok is_dir is_regular m its /\ dangling m its.*1 o.
Proof.
  destruct (parse_cmdline_mode is_dir is_regular argv) as [[[e He] Hno]|(m & rest & ->)].
  { rewrite He. split; [done|]. intros (m & its & o & Hm & _). by destruct (Hno m _ Hm). }
  rewrite parse_cmdline_loop. destruct (start_ok is_dir is_regular m) as (Hctx & Hok & _).
  pose proof (parse_loop_spec is_dir is_regular (S (S (length rest))) m (mode_name m) [] rest _
    ltac:(lia) Hctx Hok) as Hl.
  destruct (parse_loop _ _ _ _ _ _ _) as [[e|[help c]]|]; simpl; split; try done.
  - destruct Hl as [_ Hl]. intros (m' & its & o & [= <-%mode_name_inj ->] & Ho & Hd). by destruct (Hl its o).
  - destruct Hl as (its' & -> & Ho' & _). intros (m' & its & o & [= <-%mode_name_inj Hw] & Ho & Hd).
    by destruct (dangling_not_ok is_dir is_regular m its' its o Ho' Ho Hd).
  - destruct Hl as (its & o & -> & Ho & Hd). by exists m, its, o.
Qed.

(** "parcelkeeper run --parcel" crashes. *)
Example parcel_without_directory (gl : GLib) (lu : LibUuid) is_dir is_regular :
  parse_cmdline is_dir is_regular ["run"; "--parcel"]%string = None.
Proof. reflexivity. Qed.

Definition demo_uuid_arg : string := "01234567-89ab-cdef-0123-456789abcdef".

Example rmhoard_parsed :
  @parse_cmdline demo_glib demo_uuid (fun _ => true) (fun _ => false)
    ["rmhoard"; "--log-filter"; "error,stats"; "--uuid"; demo_uuid_arg; "--hoard"; "/h"]%string =
  Some (inr (@request_of demo_glib demo_uuid MODE_RMHOARD
    [(OPT_MASK_FILE, Some "error,stats"); (OPT_UUID, Some demo_uuid_arg); (OPT_HOARD, Some "/h")]))%string.
Proof. vm_compute. reflexivity. Qed.

Example required_option_missing (gl : GLib) (lu : LibUuid) is_dir is_regular :
  parse_cmdline is_dir is_regular ["listhoard"]%string = Some (inl (Missing_required "hoard")).
Proof. reflexivity. Qed.
