(* ===== verification/Frame.v ===== *)
(** Frame: what the stateful functions leave alone, whatever fails.

    [preserves ok rel m]: from a state with [ok], every end of [m] has [ok] again and is related to the
    beginning by the preorder [rel].  The rules follow the structure of the code, and the tactic
    [frame] applies them with the lemmas of the hint database of that name; [cache_frame] and
    [image_frame] are about the local cache and the virtual disk: the header of the cache file is
    written by none of their operations. *)

From S2P Require Import Prelude Compress LzfStream Chunk Effects Sql Pk Cache Image.

Section frames.
Context {S : Type} (ok : S -> Prop) (rel : S -> S -> Prop) `{!PreOrder rel}.

Definition preserves {R A} (m : pk S R A) : Prop :=
  forall s r s', ok s -> m s = Some (r, s') -> ok s' /\ rel s s'.

Definition preserves_fun {A} (f : S -> option (A * S)) : Prop :=
  forall s a s', ok s -> f s = Some (a, s') -> ok s' /\ rel s s'.

Lemma preserves_bind {R A B} (m : pk S R A) (f : A -> pk S R B) :
  preserves m -> (forall a, preserves (f a)) -> preserves (m ≫= f).
Proof.
  intros Hm Hf s r s' Hs. unfold mbind, pk_mbind, pk_bind.
  destruct (m s) as [[[a|e] s1]|] eqn:Hr; [| |done].
  - intros Hrun. destruct (Hm _ _ _ Hs Hr) as [H1 Hr1]. destruct (Hf a _ _ _ H1 Hrun) as [H2 Hr2].
    split; [done|]. by etrans.
  - intros [= <- <-]. by apply (Hm _ _ _ Hs Hr).
Qed.

(** What was read is what it is in some state with [ok]. *)
Lemma preserves_gets_bind {R A B} (g : S -> A) (f : A -> pk S R B) :
  (forall s0, ok s0 -> preserves (f (g s0))) -> preserves (gets g ≫= f).
Proof. intros Hf s r s' Hs. rewrite bind_gets. by apply Hf. Qed.

Lemma preserves_same {R A} (r : A + exit R) : preserves (fun s => Some (r, s)).
Proof. intros s r' s' Hs [= <- <-]. by split. Qed.

Lemma preserves_gets {R A} (f : S -> A) : preserves (gets f : pk S R A).
Proof. intros s r' s' Hs [= <- <-]. by split. Qed.

Lemma preserves_fault {R A} : preserves (fault : pk S R A).
Proof. by intros s r s' _. Qed.

Lemma preserves_modify {R} (f : S -> S) :
  (forall s, ok s -> ok (f s) /\ rel s (f s)) -> preserves (modify f : pk S R ()).
Proof. intros Hf s r s' Hs [= <- <-]. by apply Hf. Qed.

Lemma preserves_defined {R} (P : Prop) `{Decision P} : preserves (defined P : pk S R ()).
Proof. unfold defined. destruct (decide P); [apply preserves_same|apply preserves_fault]. Qed.

Lemma preserves_call {R A} (f : S -> option (A * S)) : preserves_fun f -> preserves (call f : pk S R A).
Proof.
  intros Hf s r s' Hs. unfold call. destruct (f s) as [[a s1]|] eqn:Hr; [|done].
  intros [= <- <-]. by apply (Hf _ _ _ Hs Hr).
Qed.

Lemma preserves_body {R} (m : pk S R R) : preserves m -> preserves_fun (body m).
Proof.
  intros Hm s r s' Hs. unfold body. destruct (m s) as [[x s1]|] eqn:Hr; [|done].
  destruct (Hm _ _ _ Hs Hr). destruct x as [?|[?|?]]; by intros [= <- <-].
Qed.

(** ** With a connection *)

Section db.
Context {D : Type} `{!HasDb S D} (Hdb : forall b s, ok s -> ok (set_db b s) /\ rel s (set_db b s)).

Lemma preserves_on_db {R A} (f : db D -> A * db D) : preserves (on_db f : pk S R A).
Proof. intros s r s' Hs. unfold on_db. destruct (f _). intros [= <- <-]. by apply Hdb. Qed.

Lemma preserves_try_db {R A} (f : db D -> option (A * db D)) : preserves (try_db f : pk S R A).
Proof. intros s r s' Hs. unfold try_db. destruct (f _) as [[? ?]|]; [|done]. intros [= <- <-]. by apply Hdb. Qed.

Lemma preserves_transaction {R} (m : pk S R R) : preserves m -> preserves_fun (transaction m).
Proof.
  intros Hm s r s'. unfold transaction. generalize (rounds (get_db s)) as n. intros n. revert s.
  induction n as [|n IH]; intros s Hs; [done|]. simpl. destruct (m s) as [[x s1]|] eqn:Hr; [|done].
  destruct (Hm _ _ _ Hs Hr) as [H1 Hr1]. destruct x as [?|[?|?]]; [by intros [= <- <-]..|].
  destruct (rollback _) as [[? b]|]; [|done]. simpl. destruct (query_busy _).
  - intros Hrun. destruct (Hdb (query_backoff b) s1 H1) as [H2 Hr2]. destruct (IH _ H2 Hrun) as [H3 Hr3].
    split; [done|]. etrans; [done|]. by etrans.
  - intros [= <- <-]. destruct (Hdb b s1 H1). split; [done|]. by etrans.
Qed.
End db.
End frames.

Create HintDb frame discriminated.

(** Follows the structure of a function body to its single steps. *)
Ltac frame_step :=
  match goal with
  | |- forall _, _ => intros
  | |- preserves_fun _ _ (body _) => apply preserves_body
  | |- preserves _ _ (call _) => apply preserves_call
  | |- preserves _ _ (_ ≫= _) => apply preserves_bind; [apply _|..]
  | |- preserves _ _ (gets _) => apply preserves_gets; apply _
  | |- preserves _ _ (pk_ret _) => apply preserves_same; apply _
  | |- preserves _ _ (ret _) => apply preserves_same; apply _
  | |- preserves _ _ (goto_bad _) => apply preserves_same; apply _
  | |- preserves _ _ fault => apply preserves_fault
  | |- preserves _ _ (defined _) => apply preserves_defined; apply _
  | |- preserves _ _ (match ?x with _ => _ end) => destruct x
  | |- preserves_fun _ _ (match ?x with _ => _ end) => destruct x
  end.

(** The rule for transactions, which the state provides. *)
Ltac frame_transaction := fail.

Ltac frame := repeat (frame_step || solve [auto with frame] || frame_transaction).

(** * The local cache *)

(** The slots of the cache file are behind its header. *)
Record behind_header (p : pk_state) : Prop := mk_behind {
  bh_offset : 16 <= offset p;
  bh_chunksize : 0 <= chunksize (parcel p);
  bh_length : (16 <= length (cache_content p))%nat
}.

(** The first words of the file, of which the fourth are the flags. *)
Definition header_of (p : pk_state) : list Z := take 16 (cache_content p).

Record same_header (p p' : pk_state) : Prop := mk_same_header {
  sh_conf : conf p' = conf p;
  sh_parcel : parcel p' = parcel p;
  sh_fd : cache_fd p' = cache_fd p;
  sh_offset : offset p' = offset p;
  sh_flags : cache_flags p' = cache_flags p;
  sh_disk : header_of p' = header_of p
}.

#[global] Instance same_header_preorder : PreOrder same_header.
Proof. split; [by split|]. intros p1 p2 p3 [] []. split; congruence. Qed.

Local Abbreviation cpreserves := (preserves behind_header same_header).
Local Abbreviation cpreserves_fun := (preserves_fun behind_header same_header).

(** A change to other fields. *)
Lemma behind_same p p' :
  behind_header p -> conf p' = conf p -> parcel p' = parcel p -> cache_fd p' = cache_fd p -> offset p' = offset p ->
  cache_flags p' = cache_flags p -> disk p' = disk p -> behind_header p' /\ same_header p p'.
Proof.
  intros [] ? Hp ? Ho ? Hd. assert (cache_content p' = cache_content p) as Hc by (unfold cache_content; by rewrite Hd).
  split; split; unfold header_of; rewrite ?Hp, ?Ho, ?Hc; done.
Qed.

Lemma cp_db b p : behind_header p -> behind_header (set_db b p) /\ same_header p (set_db b p).
Proof. intros. by apply behind_same. Qed.

Lemma cp_try_db {R A} (f : db dbs -> option (A * db dbs)) : cpreserves (try_db f : pk pk_state R A).
Proof. apply preserves_try_db. apply cp_db. Qed.

Lemma cp_run {R A} (f : dbq A) : cpreserves (run f : pk pk_state R _).
Proof. apply preserves_on_db. apply cp_db. Qed.

Lemma cp_transaction {R} (m : pk pk_state R R) : cpreserves m -> cpreserves_fun (transaction m).
Proof. apply preserves_transaction; [apply _|]. apply cp_db. Qed.

Lemma cp_next_io {R} : cpreserves (next_io : pk pk_state R _).
Proof.
  intros s r s' Hs. unfold next_io. destruct (io s); intros [= <- <-]; [by split|by apply behind_same].
Qed.

Lemma cp_stats {R} f n : cpreserves (modify (stats_increment f n) : pk pk_state R ()).
Proof. apply preserves_modify. intros. by apply behind_same. Qed.

Lemma cp_shm {R} f : cpreserves (modify (set_shm f) : pk pk_state R ()).
Proof. apply preserves_modify. intros. by apply behind_same. Qed.

#[export] Hint Resolve cp_try_db cp_run cp_next_io cp_stats cp_shm : frame.

Ltac frame_transaction ::=
  match goal with |- preserves_fun _ _ (transaction _) => apply cp_transaction end.

Lemma cp_pread {R} n off : cpreserves (pread n off : pk pk_state R _).
Proof. unfold pread. frame. Qed.

(** What is written at an offset of the data leaves the header. *)
Lemma header_file_write f off data :
  (16 <= length f)%nat -> (16 <= off)%nat -> take 16 (file_write f off data) = take 16 f.
Proof.
  intros Hl Ho. change (take 16 ?l) with (range l 0 16). apply range_file_write_other; lia.
Qed.

Lemma cp_write {R} data off :
  16 <= off ->
  cpreserves (modify (fun s => set_disk (set_f_cache (Some (file_write (cache_content s) (Z.to_nat off) data)) (disk s)) s)
    : pk pk_state R ()).
Proof.
  intros Hoff. apply preserves_modify. intros p [].
  set (p' := set_disk _ p). assert (cache_content p' = file_write (cache_content p) (Z.to_nat off) data) as Hc by done.
  split; split; try done.
  - rewrite Hc. destruct data as [|x data]; [done|]. rewrite length_file_write by done. lia.
  - unfold header_of. rewrite Hc. apply header_file_write; lia.
Qed.

Lemma cp_pwrite {R} data off : 16 <= off -> cpreserves (pwrite data off : pk pk_state R Z).
Proof. intros. unfold pwrite. frame. by apply cp_write. Qed.

Lemma cp_write_chunk chunk buf : 0 <= chunk -> cpreserves_fun (_cache_write_chunk chunk buf).
Proof.
  intros Hc. unfold _cache_write_chunk. do 2 frame_step; [frame_step|]. intros cs.
  destruct (decide _); [frame|]. apply preserves_gets_bind. intros s0 Hs0.
  assert (16 <= cache_chunk_to_offset s0 chunk).
  { destruct Hs0. unfold cache_chunk_to_offset. nia. }
  apply preserves_bind; [apply _|by apply cp_pwrite|]. frame.
Qed.

Lemma cp_read_chunk chunk room len tag : cpreserves_fun (_cache_read_chunk chunk room len tag).
Proof. unfold _cache_read_chunk. pose proof @cp_pread. frame. Qed.

Lemma cp_shm_update {R} chunk set clear : cpreserves (shm_update chunk set clear : pk pk_state R ()).
Proof. unfold shm_update. frame. Qed.

#[export] Hint Resolve cp_pread cp_write_chunk cp_read_chunk cp_shm_update : frame.

Section local_cache.
Context (env : compress_env) `{!ChunkSource}.

Lemma cp_fetch chunk tag len : cpreserves_fun (cache_fetch chunk tag len).
Proof.
  intros s r s' Hs. unfold cache_fetch. destruct (decide (len <> 0)); [by apply cp_read_chunk|].
  destruct (hoard_get_chunk tag) as [err buf]. destruct (decide _); intros [= _ <-]; by split.
Qed.

Lemma cp_get_row chunk : cpreserves_fun (cache_get_row chunk).
Proof. unfold cache_get_row, cache_get_body, cache_get_length. frame. Qed.

Lemma cp_get chunk : cpreserves_fun (cache_get env chunk).
Proof. unfold cache_get. pose proof cp_fetch. pose proof cp_get_row. frame. Qed.

Lemma cp_update chunk buf : 0 <= chunk -> cpreserves_fun (cache_update env chunk buf).
Proof. intros. unfold cache_update, cache_update_tx, cache_update_body, cache_shm_set_dirty. frame. Qed.

Lemma cp_count valid dirty : cpreserves_fun (cache_count_chunks valid dirty).
Proof. unfold cache_count_chunks. frame. Qed.
End local_cache.

#[export] Hint Resolve cp_get cp_update cp_count : frame.

(** * The virtual disk *)

(** Moreover only chunks of the disk are in the queues. *)
Record image_fine (s : fuse_state) : Prop := mk_image_fine {
  if_header : behind_header (pks s);
  if_dirty : Forall (fun c => 0 <= c) (im_dirty (im s));
  if_reclaimable : Forall (fun c => 0 <= c) (im_reclaimable (im s))
}.

Record image_framed (s s' : fuse_state) : Prop := mk_image_framed {
  fr_header : same_header (pks s) (pks s');
  fr_leave_dirty : leave_dirty (im s) = true -> leave_dirty (im s') = true
}.

#[global] Instance image_framed_preorder : PreOrder image_framed.
Proof. split; [by split|]. intros s1 s2 s3 [] []. split; [by etrans|auto]. Qed.

Local Abbreviation ipreserves := (preserves image_fine image_framed).
Local Abbreviation ipreserves_fun := (preserves_fun image_fine image_framed).

Section image.
Context {R : Type}.

Lemma ip_pks p s : image_fine s -> behind_header p -> same_header (pks s) p -> image_fine (set_pks p s) /\ image_framed s (set_pks p s).
Proof. intros [] ? ?. by split; split. Qed.

Lemma ip_on_cache {A} (f : pk_fun A) : cpreserves_fun f -> ipreserves (on_cache f : pk fuse_state R A).
Proof.
  intros Hf s r s' Hs. unfold on_cache. destruct (f (pks s)) as [[a p]|] eqn:Hr; [|done]. intros [= <- <-].
  destruct (Hf _ _ _ (if_header s Hs) Hr). by apply ip_pks.
Qed.

Lemma ip_on_shm (m : pk pk_state () ()) : cpreserves m -> ipreserves (on_shm m : pk fuse_state R ()).
Proof.
  intros Hm s r s' Hs. unfold on_shm. destruct (m (pks s)) as [[[a|e] p]|] eqn:Hr; [|done..]. intros [= <- <-].
  destruct (Hm _ _ _ (if_header s Hs) Hr). by apply ip_pks.
Qed.

Lemma ip_on_stats f n : ipreserves (on_stats f n : pk fuse_state R ()).
Proof.
  unfold on_stats. apply preserves_modify. intros s Hs.
  destruct (behind_same (pks s) (stats_increment f n (pks s)) (if_header s Hs)); try done. by apply ip_pks.
Qed.

Lemma ip_on_image f :
  (forall i, (leave_dirty i = true -> leave_dirty (f i) = true) /\
     (Forall (fun c => 0 <= c) (im_dirty i) -> Forall (fun c => 0 <= c) (im_dirty (f i))) /\
     (Forall (fun c => 0 <= c) (im_reclaimable i) -> Forall (fun c => 0 <= c) (im_reclaimable (f i)))) ->
  ipreserves (on_image f : pk fuse_state R ()).
Proof.
  intros Hf. unfold on_image. apply preserves_modify. intros s [Hh Hd Hr]. destruct (Hf (im s)) as (Hl & Hd' & Hr').
  split; split; simpl; auto. reflexivity.
Qed.

Lemma ip_entry c : ipreserves (entry c : pk fuse_state R _).
Proof. intros s r s' Hs. unfold entry. destruct (_ !! c); [|done]. intros [= <- <-]. by split. Qed.

Lemma ip_put_entry c e : ipreserves (put_entry c e : pk fuse_state R ()).
Proof. by apply ip_on_image. Qed.

Lemma ip_push_dirty c : 0 <= c -> ipreserves (push_dirty c : pk fuse_state R ()).
Proof.
  intros Hc. unfold push_dirty. apply preserves_gets_bind. intros s0 [_ Hd _]. frame.
  apply ip_on_image. intros i. split_and!; try done. intros _. simpl. apply Forall_app. split; [done|]. by apply Forall_singleton.
Qed.

Lemma ip_push_reclaimable c : 0 <= c -> ipreserves (push_reclaimable c : pk fuse_state R ()).
Proof.
  intros Hc. unfold push_reclaimable. apply preserves_gets_bind. intros s0 [_ _ Hd]. frame.
  apply ip_on_image. intros i. split_and!; try done. intros _. simpl. apply Forall_app. split; [done|]. by apply Forall_singleton.
Qed.

Lemma Forall_queue_delete (P : Z -> Prop) c q : Forall P q -> Forall P (queue_delete c q).
Proof. rewrite !Forall_forall. intros Hq x Hx. apply Hq. by apply list_elem_of_filter in Hx as [_ ?]. Qed.

Lemma ip_delete_dirty c : ipreserves (delete_dirty c : pk fuse_state R ()).
Proof. apply ip_on_image. intros i. split_and!; try done. simpl. apply Forall_queue_delete. Qed.

Lemma ip_delete_reclaimable c : ipreserves (delete_reclaimable c : pk fuse_state R ()).
Proof. apply ip_on_image. intros i. split_and!; try done. simpl. apply Forall_queue_delete. Qed.

Lemma ip_set_allocatable n : ipreserves (on_image (set_allocatable n) : pk fuse_state R ()).
Proof. by apply ip_on_image. Qed.

Lemma ip_set_leave_dirty : ipreserves (on_image (set_leave_dirty true) : pk fuse_state R ()).
Proof. by apply ip_on_image. Qed.

Lemma ip_drop c : ipreserves (on_image (fun i => set_chunks (delete c (im_chunks i)) i) : pk fuse_state R ()).
Proof. by apply ip_on_image. Qed.

Lemma ip_set_stopping : ipreserves (on_image (set_stopping true) : pk fuse_state R ()).
Proof. by apply ip_on_image. Qed.
End image.

#[export] Hint Resolve ip_on_cache ip_on_shm ip_on_stats ip_entry ip_put_entry ip_push_dirty ip_push_reclaimable
  ip_delete_dirty ip_delete_reclaimable ip_set_allocatable ip_set_leave_dirty ip_drop ip_set_stopping : frame.

Section disk.
Context (env : compress_env) `{!ChunkSource} {R : Type}.

Lemma ip_set_error c : ipreserves (entry_set_error c : pk fuse_state R ()).
Proof. unfold entry_set_error. frame. Qed.
Hint Resolve ip_set_error : frame.

Lemma ip_clean c : 0 <= c -> ipreserves (entry_clean env c : pk fuse_state R ()).
Proof. intros. unfold entry_clean, cache_shm_set_cache_dirty. frame. Qed.
Hint Resolve ip_clean : frame.

Lemma ip_acquire0 c : ipreserves (_entry_acquire c : pk fuse_state R ()).
Proof. unfold _entry_acquire. frame. Qed.

Lemma ip_release0 c : 0 <= c -> ipreserves (_entry_release c : pk fuse_state R ()).
Proof. intros. unfold _entry_release. frame. Qed.
Hint Resolve ip_acquire0 ip_release0 : frame.

(** The chunk at the head of a queue is one of the disk. *)
Lemma ip_head {A} (q : image -> list Z) (m : pk fuse_state R A) (k : Z -> list Z -> pk fuse_state R A) :
  (forall s, image_fine s -> Forall (fun c => 0 <= c) (q (im s))) ->
  ipreserves m -> (forall c rest, 0 <= c -> ipreserves (k c rest)) ->
  ipreserves (l ← gets (fun s => q (im s)); match l with [] => m | c :: rest => k c rest end).
Proof.
  intros Hq Hm Hk. apply preserves_gets_bind. intros s Hs. specialize (Hq s Hs).
  destruct (q (im s)) as [|c rest]; [done|]. apply Forall_cons in Hq as [? _]. by apply Hk.
Qed.

Lemma ip_take_buffer c : 0 <= c -> ipreserves (take_buffer env c : pk fuse_state R ()).
Proof.
  intros Hc. unfold take_buffer, cache_shm_set_cached. do 2 (frame_step; [frame_step|intros ?]).
  destruct (decide _); [frame|]. apply (ip_head im_reclaimable); [by intros s []|frame|]. intros r _ Hr. frame.
Qed.

Lemma ip_populate c b : ipreserves (populate env c b : pk fuse_state R ()).
Proof. unfold populate. frame. Qed.
Hint Resolve ip_take_buffer ip_populate : frame.

Lemma ip_acquire c b : 0 <= c -> ipreserves (entry_acquire env c b : pk fuse_state R ()).
Proof. intros. unfold entry_acquire, cache_shm_set_cached. frame. Qed.

Lemma ip_release c b : 0 <= c -> ipreserves (entry_release c b : pk fuse_state R ()).
Proof. intros. unfold entry_release, cache_shm_set_dirty, cache_shm_set_cache_dirty. frame. Qed.

Lemma ip_clean_loop n force : ipreserves (clean_loop env n force : pk fuse_state R ()).
Proof.
  induction n as [|n IH]; cbn [clean_loop]; [frame|].
  apply (ip_head im_dirty); [by intros s []|frame|]. intros c _ Hc. frame.
Qed.

Lemma ip_clean_all force : ipreserves (entry_clean_all env force : pk fuse_state R ()).
Proof. unfold entry_clean_all. pose proof ip_clean_loop. frame. Qed.
End disk.

#[export] Hint Resolve ip_set_error ip_clean ip_acquire0 ip_release0 ip_acquire ip_release ip_clean_all : frame.

Section requests.
Context (env : compress_env) `{!ChunkSource}.

Lemma ip_free_loop n : ipreserves (free_loop n).
Proof.
  induction n as [|n IH]; cbn [free_loop]; [frame|].
  apply (ip_head im_reclaimable); [by intros s []|frame|]. intros c _ Hc. unfold cache_shm_set_cached. frame.
Qed.

Lemma io_chunk_nonneg p cur cur' : io_chunk p cur = (true, cur') -> 0 <= cur_chunk cur'.
Proof.
  unfold io_chunk. destruct (decide _); [done|]. destruct (decide _); [done|]. intros [= <-]. simpl. apply is_u32_u32.
Qed.

Lemma ip_read_loop n cur buf : ipreserves (read_loop env n cur buf).
Proof.
  revert cur buf. induction n as [|n IH]; intros cur buf; cbn [read_loop]; [frame|].
  frame_step; [frame_step|]. intros p. destruct (io_chunk p cur) as [[] cur'] eqn:Hio; [|frame].
  apply io_chunk_nonneg in Hio. frame.
Qed.

Lemma ip_write_loop n cur buf : ipreserves (write_loop env n cur buf).
Proof.
  revert cur. induction n as [|n IH]; intros cur; cbn [write_loop]; [frame|].
  frame_step; [frame_step|]. intros p. destruct (io_chunk p cur) as [[] cur'] eqn:Hio; [|frame].
  apply io_chunk_nonneg in Hio. frame.
Qed.

Lemma ip_image_read start count : ipreserves_fun (image_read env start count).
Proof. apply preserves_body, ip_read_loop. Qed.

Lemma ip_image_write buf start count : ipreserves_fun (image_write env buf start count).
Proof. apply preserves_body, ip_write_loop. Qed.

Lemma ip_image_sync : ipreserves_fun (image_sync env).
Proof. apply preserves_body. frame. Qed.

Lemma ip_cleaner : ipreserves_fun (entry_cleaner env).
Proof. apply preserves_body. frame. Qed.

Lemma ip_shutdown : ipreserves_fun (image_shutdown env).
Proof. unfold image_shutdown. pose proof ip_free_loop. frame. Qed.
End requests.
