(* ===== verification/Fuse.v ===== *)
(** Fuse: the file system of the parcelkeeper (src/parcelkeeper/fuse.c) with its statistics files
    (fuse_stats.c), over the virtual disk of Image.v.

    Every request of the kernel is a function on the state of the file system; [fuse_init],
    [fuse_run] and [fuse_shutdown] are the life of the mount.  What the operating system and libfuse
    answer is an argument. *)

From stdpp Require Import strings.
From Stdlib Require Import Ascii String.
From S2P Require Import Prelude Compress LzfStream Chunk Effects Sql Pk Cache Image Util.

Definition EPERM : Z := 1.
Definition ENOENT : Z := 2.
Definition EBADF : Z := 9.
Definition EISDIR : Z := 21.
Definition EINVAL : Z := 22.

(** The flags that these functions look at. *)
Definition WANT_ALLOW_ROOT : Z := 0x0800.

(** * Statistics files *)

(** g_strdup_printf of "%.1f\n", for 100.0 times a number divided by another. *)
Class Printf := { fmt_percent : Z -> Z -> string }.

Definition newline : string := String (ascii_of_nat 10) EmptyString.

(** "%u\n" and, since an unsigned 64-bit number has at most twenty digits, "%PRIu64\n" *)
Definition fmt_u64 (n : Z) : string := dec_digits 20 n EmptyString.

Section statistics.
Context `{!Printf}.

(** The tests of _statistic in their order: a name, and the text made under the lock. *)
Definition counter_text (f : stat) (s : fuse_state) : string := fmt_u64 (stats (pks s) f) +:+ newline.

Definition dirty_text (s : fuse_state) : string := fmt_u (Z.of_nat (length (im_dirty (im s)))) +:+ newline.

Definition ratio_text (s : fuse_state) : string :=
  let p := pks s in
  if decide (stats p chunk_writes <> 0) then
    fmt_percent (stats p data_bytes_written) (u64 (stats p chunk_writes * chunksize (parcel p)))
  else "n/a" +:+ newline.

Definition statistics : list (string * (fuse_state -> string)) :=
  [("bytes_read", counter_text bytes_read); ("bytes_written", counter_text bytes_written);
   ("chunk_reads", counter_text chunk_reads); ("chunk_writes", counter_text chunk_writes);
   ("chunk_errors", counter_text chunk_errors); ("cache_hits", counter_text cache_hits);
   ("cache_misses", counter_text cache_misses); ("cache_evictions", counter_text cache_evictions);
   ("cache_evictions_dirty", counter_text cache_evictions_dirty); ("cache_dirty", dirty_text);
   ("compression_ratio_pct", ratio_text); ("whole_chunk_updates", counter_text whole_chunk_updates)]%string.

(** _statistic: the handler is called with [data] and each name until it answers TRUE. *)
Fixpoint statistic_from {A} (l : list (string * (fuse_state -> string))) (handle : A -> string -> bool * A)
    (data : A) (s : fuse_state) : option string * A :=
  match l with
  | [] => (None, data)
  | (name, text) :: l =>
      let '(found, data) := handle data name in
      if found : bool then (Some (text s), data) else statistic_from l handle data s
  end.

Definition _statistic {A} (handle : A -> string -> bool * A) (data : A) (s : fuse_state) : option string * A :=
  statistic_from statistics handle data s.

Definition _stat_enumerate (arr : list string) (name : string) : bool * list string := (false, arr ++ [name]).

Definition stat_list (s : fuse_state) : list string := snd (_statistic _stat_enumerate [] s).

Definition _stat_compare (data name : string) : bool * string := (bool_decide (data = name), data).

Definition stat_get (s : fuse_state) (name : string) : option string := fst (_statistic _stat_compare name s).
End statistics.

(** * The state *)

(** What the operating system has of the file system: the directory under /var/tmp, the link to it in
    the parcel directory, the mount, the session of libfuse, sigstate.fuse, and that it is to exit. *)
Record mount := mk_mount {
  m_dir : bool;
  m_link : bool;
  m_mounted : bool;
  m_session : bool;
  m_sigstate : bool;
  m_exit : bool
}.

Definition set_dir v m := mk_mount v (m_link m) (m_mounted m) (m_session m) (m_sigstate m) (m_exit m).
Definition set_link v m := mk_mount (m_dir m) v (m_mounted m) (m_session m) (m_sigstate m) (m_exit m).
Definition set_mounted v m := mk_mount (m_dir m) (m_link m) v (m_session m) (m_sigstate m) (m_exit m).
Definition set_session v m := mk_mount (m_dir m) (m_link m) (m_mounted m) v (m_sigstate m) (m_exit m).
Definition set_sigstate v m := mk_mount (m_dir m) (m_link m) (m_mounted m) (m_session m) v (m_exit m).
Definition set_exit v m := mk_mount (m_dir m) (m_link m) (m_mounted m) (m_session m) (m_sigstate m) v.

(** [buffers] is stat_buffers: the texts of the open statistics files by handle. *)
Record vfs := mk_vfs { fsys : fuse_state; buffers : gmap Z string; mnt : mount }.

Definition set_fsys f v := mk_vfs f (buffers v) (mnt v).
Definition set_buffers b v := mk_vfs (fsys v) b (mnt v).
Definition set_mnt m v := mk_vfs (fsys v) (buffers v) m.

(** ** Opening and reading statistics files *)

(** "Find the next available file handle" *)
Fixpoint next_fh (n : nat) (fh : Z) (m : gmap Z string) : option Z :=
  match n with
  | O => None
  | S n => match m !! fh with None => Some fh | Some _ => next_fh n (fh + 1) m end
  end.

Definition stat_open `{!Printf} (name : string) (v : vfs) : option (Z * vfs) :=
  match stat_get (fsys v) name with
  | None => Some (- ENOENT, v)
  | Some buf =>
      fh ← next_fh (S (size (buffers v))) 1 (buffers v);
      Some (fh, set_buffers (<[fh := buf]> (buffers v)) v)
  end.

(** The bytes of a text. *)
Fixpoint text_bytes (s : string) : list Z :=
  match s with EmptyString => [] | String c s => Z.of_nat (nat_of_ascii c) :: text_bytes s end.

Definition stat_read (fh start count : Z) (v : vfs) : Z * list Z :=
  match buffers v !! fh with
  | None => (- EBADF, [])
  | Some src =>
      let len := Z.max 0 (Z.min (s32 count) (Z.of_nat (String.length src) - start)) in
      (len, range (text_bytes src) (Z.to_nat start) (Z.to_nat len))
  end.

Definition stat_release (fh : Z) (v : vfs) : vfs := set_buffers (delete fh (buffers v)) v.

(** stat_shutdown: what is logged (with the newline at the end of each text, which g_strchomp strips there),
    and the state without the buffers. *)
Definition stat_shutdown `{!Printf} (normal : bool) (v : vfs) : list (string * option string) * vfs :=
  (if normal then (fun name => (name, stat_get (fsys v) name)) <$> stat_list (fsys v) else [],
   set_buffers ∅ v).

(** * Requests *)

(** st_mode *)
Definition S_IFDIR : Z := 0x4000.
Definition S_IFREG : Z := 0x8000.

(** struct stat without the owner and the times *)
Record attributes := mk_attr { st_nlink : Z; st_mode : Z; st_size : Z; st_blocks : Z }.

Definition attr (nlink mode size : Z) : attributes := mk_attr nlink mode size (Z.quot (size + 511) 512).

(** struct statvfs *)
Record statvfs := mk_statvfs { f_bsize : Z; f_blocks : Z; f_bfree : Z; f_bavail : Z; f_namemax : Z }.

(** g_str_has_prefix with "/stats/", and what follows. *)
Definition strip_prefix (prefix path : string) : option string :=
  if String.prefix prefix path
  then Some (String.substring (String.length prefix) (String.length path - String.length prefix) path) else None.

(** enum fuse_directory *)
Definition DIR_ROOT : Z := 0.
Definition DIR_STATS : Z := 1.

Section requests.
Context (env : compress_env) `{!ChunkSource} `{!Printf}.

Definition do_getattr (path : string) (v : vfs) : Z + attributes :=
  let p := parcel (pks (fsys v)) in
  if decide (path = "/"%string) then inr (attr 3 (Z.lor S_IFDIR 320) 0)
  else if decide (path = "/stats"%string) then inr (attr 2 (Z.lor S_IFDIR 320) 0)
  else if decide (path = "/image"%string) then inr (attr 1 (Z.lor S_IFREG 384) (chunks p * chunksize p))
  else
    match strip_prefix "/stats/" path with
    | Some name =>
        match stat_get (fsys v) name with
        | None => inl (- ENOENT)
        | Some value => inr (attr 1 (Z.lor S_IFREG 256) (Z.of_nat (String.length value)))
        end
    | None => inl (- ENOENT)
    end.

Definition S_ISDIR (mode : Z) : bool := bool_decide (Z.land mode 0xf000 = S_IFDIR).

Definition do_truncate (path : string) (len : Z) (v : vfs) : Z :=
  match do_getattr path v with
  | inl ret => ret
  | inr st =>
      if S_ISDIR (st_mode st) then - EISDIR
      else if decide (path = "/image"%string) then 0
      else - EPERM
  end.

(** The result and fi->fh, which is 0 at first. *)
Definition do_open (path : string) (v : vfs) : option (Z * Z * vfs) :=
  match strip_prefix "/stats/" path with
  | Some name =>
      '(fh, v) ← stat_open name v;
      Some (if decide (fh < 0) then (fh, 0, v) else (0, fh, v))
  | None => Some (if decide (path <> "/image"%string) then - ENOENT else 0, 0, v)
  end.

Definition do_read (fh start count : Z) (v : vfs) : option ((Z * list Z) * vfs) :=
  if decide (fh <> 0) then Some (stat_read fh start count v, v)
  else '(r, f) ← image_read env start count (fsys v); Some (r, set_fsys f v).

(** The assertion fails on a statistics file. *)
Definition do_write (fh start : Z) (buf : list Z) (v : vfs) : option (Z * vfs) :=
  if decide (fh = 0) then '(n, f) ← image_write env buf start (Z.of_nat (length buf)) (fsys v); Some (n, set_fsys f v)
  else None.

Definition do_statfs (v : vfs) : option ((Z + statvfs) * vfs) :=
  '((err, valid, _), p) ← cache_count_chunks true false (pks (fsys v));
  let v := set_fsys (set_pks p (fsys v)) v in
  if decide (err <> PK_SUCCESS) then Some (inl (- EIO), v)
  else
    let free := u32 (chunks (parcel p) - valid) in
    Some (inr (mk_statvfs (chunksize (parcel p)) (chunks (parcel p)) free free 256), v).

Definition do_release (fh : Z) (v : vfs) : Z * vfs := (0, if decide (fh <> 0) then stat_release fh v else v).

(** fsync and fdatasync; [errno] is the error that a failure gives. *)
Definition do_fsync (errno fh : Z) (v : vfs) : option (Z * vfs) :=
  if decide (fh <> 0) then Some (- EINVAL, v)
  else
    '(_, f) ← image_sync env (fsys v);
    '(ok, f) ← body (R:=bool) (on_cache (body io_ok)) f;
    Some (if ok : bool then 0 else - errno, set_fsys f v).

(** The result and fi->fh. *)
Definition do_opendir (path : string) : Z * Z :=
  if decide (path = "/"%string) then (0, DIR_ROOT)
  else if decide (path = "/stats"%string) then (0, DIR_STATS)
  else (- ENOENT, 0).

(** The result and the names given to the filler. *)
Definition do_readdir (fh : Z) (v : vfs) : Z * list string :=
  if decide (fh = DIR_ROOT) then (0, ["image"; "stats"]%string)
  else if decide (fh = DIR_STATS) then (0, stat_list (fsys v))
  else (- EIO, []).
End requests.

(** * The life of the mount *)

(** util.c: the handlers are set one by one; [sigaction] says for which signals that works. *)
Definition setup_signal_handlers (sigaction : Z -> bool) (caught ignored : list Z) : pk_err :=
  if forallb sigaction caught && forallb sigaction ignored then PK_SUCCESS else PK_CALLFAIL.

Definition caught_signals : list Z := [3; 1].
Definition ignored_signals : list Z := [2; 15; 10; 12; 20; 22].

(** What the operating system and libfuse answer. *)
Record fuse_env := mk_fuse_env {
  fe_pages : Z;
  fe_page_size : Z;
  fe_thread : bool;
  fe_mkdtemp : bool;
  fe_symlink : bool;
  fe_mount : list string -> bool;
  fe_new : bool;
  fe_sigaction : Z -> bool;
  fe_pending : bool;
  fe_unlink : bool;
  fe_rmdir : bool
}.

(** The arguments for libfuse; [big_writes] is FUSE_CAP_BIG_WRITES. *)
Definition fuse_argv (big_writes : bool) (flags : Z) (uuid : string) : list string :=
  (["-odefault_permissions"; ("-ofsname=openisr#" +:+ uuid)%string; "-osubtype=openisr"] ++
   (if big_writes then ["-obig_writes"] else []) ++
   (if has_flag flags WANT_ALLOW_ROOT then ["-oallow_root"] else []))%list.

(** fuse_init returns an error, with nothing of struct pk_fuse left, or the file system. *)
Inductive started := Failed (err : pk_err) (p : pk_state) (m : mount) | Started (v : vfs).

Section life.
Context (env : compress_env) `{!ChunkSource} `{!Printf} (e : fuse_env).

Definition do_unlink (m : mount) : mount := if fe_unlink e then set_link false m else m.
Definition do_rmdir (m : mount) : mount := if fe_rmdir e then set_dir false m else m.

(** The labels at the end of fuse_init, from the last to the first. *)
Definition bad_dealloc (ret : pk_err) (f : fuse_state) (m : mount) : option started := Some (Failed ret (pks f) m).
Definition bad_dealloc_mountpoint ret f m : option started :=
  '(_, f) ← image_shutdown env f; bad_dealloc ret f m.
Definition bad_rmdir ret f m : option started := bad_dealloc_mountpoint ret f (do_rmdir m).
Definition bad_unlink ret f m : option started := bad_rmdir ret f (do_unlink m).
Definition bad_unflag ret f m : option started :=
  '(_, p) ← cache_clear_flag CA_F_DIRTY (pks f); bad_unlink ret (set_pks p f) m.
Definition bad_unmount ret f m : option started := bad_unflag ret f (set_mounted false m).
Definition bad_destroy_fuse ret f m : option started := bad_unmount ret f (set_session false (set_sigstate false m)).

(** From "Build FUSE command line" on. *)
Definition fuse_start (big_writes : bool) (uuid : string) (f : fuse_state) (m : mount) : option started :=
  if negb (fe_mount e (fuse_argv big_writes (flags (conf (pks f))) uuid)) then bad_unflag PK_IOERR f m
  else
    let m := set_mounted true m in
    if negb (fe_new e) then bad_unmount PK_CALLFAIL f m
    else
      let m := set_sigstate true (set_session true m) in
      let ret := setup_signal_handlers (fe_sigaction e) caught_signals ignored_signals in
      if decide (ret <> PK_SUCCESS) then bad_destroy_fuse ret f m
      else Some (Started (mk_vfs f ∅ (if fe_pending e then set_exit true m else m))).

Definition fuse_init (big_writes : bool) (uuid : string) (p : pk_state) (t : Z) (m : mount) : option started :=
  if cache_test_flag p CA_F_DIRTY then Some (Failed PK_BADFORMAT p m)
  else
    let '(ret, f) := image_init (fe_pages e) (fe_page_size e) (fe_thread e) p t in
    if decide (ret <> PK_SUCCESS) then bad_dealloc ret f m
    else if negb (fe_mkdtemp e) then bad_dealloc_mountpoint PK_CALLFAIL f m
    else
      let m := do_unlink (set_dir true m) in
      if negb (fe_symlink e && negb (m_link m)) then bad_rmdir PK_CALLFAIL f m
      else
        let m := set_link true m in
        if cache_test_flag (pks f) CA_F_DAMAGED then fuse_start big_writes uuid f m
        else
          '(ret, p) ← cache_set_flag CA_F_DIRTY (pks f);
          let f := set_pks p f in
          if decide (ret <> PK_SUCCESS) then bad_unlink ret f m else fuse_start big_writes uuid f m.

(** fuse_run, after its loop has ended. *)
Definition fuse_run_end (v : vfs) : vfs := set_mnt (do_rmdir (set_mounted false (do_unlink (mnt v)))) v.

(** What is logged, and the parcelkeeper's state.  The fsync at the end does not matter. *)
Definition fuse_shutdown (v : vfs) : option (list (string * option string) * pk_state * mount) :=
  let m := set_session false (set_sigstate false (mnt v)) in
  '(_, f) ← image_shutdown env (fsys v);
  let '(log, v) := stat_shutdown true (set_fsys f v) in
  '(_, p) ← (if leave_dirty (im f) then Some (PK_SUCCESS, pks f) else cache_clear_flag CA_F_DIRTY (pks f));
  '(_, p) ← body (R:=bool) io_ok p;
  Some (log, p, m).
End life.

(** * Requests as data *)

Inductive request :=
  | R_getattr (path : string)
  | R_truncate (path : string) (len : Z)
  | R_open (path : string)
  | R_read (fh start count : Z)
  | R_write (fh start : Z) (buf : list Z)
  | R_statfs
  | R_release (fh : Z)
  | R_fsync (fh : Z)
  | R_opendir (path : string)
  | R_readdir (fh : Z)
  | R_clean
  | R_tick (t : Z).

Inductive answer :=
  | A_attr (r : Z + attributes)
  | A_code (ret : Z)
  | A_handle (ret fh : Z)
  | A_data (n : Z) (buf : list Z)
  | A_statvfs (r : Z + statvfs)
  | A_names (ret : Z) (names : list string).

Section serve.
Context (env : compress_env) `{!ChunkSource} `{!Printf} (errno : Z).

(** A request, a round of the cleaner thread, or the passing of time. *)
Definition serve (r : request) (v : vfs) : option (answer * vfs) :=
  match r with
  | R_getattr path => Some (A_attr (do_getattr path v), v)
  | R_truncate path len => Some (A_code (do_truncate path len v), v)
  | R_open path => '(ret, fh, v) ← do_open path v; Some (A_handle ret fh, v)
  | R_read fh start count => '((n, buf), v) ← do_read env fh start count v; Some (A_data n buf, v)
  | R_write fh start buf => '(n, v) ← do_write env fh start buf v; Some (A_code n, v)
  | R_statfs => '(r, v) ← do_statfs v; Some (A_statvfs r, v)
  | R_release fh => let '(ret, v) := do_release fh v in Some (A_code ret, v)
  | R_fsync fh => '(ret, v) ← do_fsync env errno fh v; Some (A_code ret, v)
  | R_opendir path => let '(ret, fh) := do_opendir path in Some (A_handle ret fh, v)
  | R_readdir fh => let '(ret, names) := do_readdir fh v in Some (A_names ret names, v)
  | R_clean => '(_, f) ← entry_cleaner env (fsys v); Some (A_code 0, set_fsys f v)
  | R_tick t => Some (A_code 0, set_fsys (mk_fuse (pks (fsys v)) (im (fsys v)) t) v)
  end.

Fixpoint serve_all (rs : list request) (v : vfs) : option (list answer * vfs) :=
  match rs with
  | [] => Some ([], v)
  | r :: rs =>
      '(a, v) ← serve r v;
      '(as_, v) ← serve_all rs v;
      Some (a :: as_, v)
  end.
End serve.
