(* ===== verification/FuseProofs.v ===== *)
(** FuseProofs: the file system of Fuse.v does what its users expect.

    An abstract file system is a flat disk and the texts of the open statistics files;
    [allows] says what each request may answer and do.  [serve] refines it, and so does the whole life of
    the mount, from fuse_init to fuse_shutdown. *)

From stdpp Require Import strings.
From Stdlib Require Import Ascii String.
From S2P Require Import Prelude Compress LzfStream Chunk Effects Sql SqlConn SqlRows Pk Cache CacheProofs CacheVerdict Image ImageProofs Disk Util Frame Fuse.

(** * The abstract file system *)

Inductive node := N_root | N_stats | N_image | N_stat (name : string).

Definition stat_names : list string :=
  ["bytes_read"; "bytes_written"; "chunk_reads"; "chunk_writes"; "chunk_errors"; "cache_hits";
   "cache_misses"; "cache_evictions"; "cache_evictions_dirty"; "cache_dirty"; "compression_ratio_pct";
   "whole_chunk_updates"]%string.

(** Which node a path names. *)
Inductive at_path : string -> node -> Prop :=
  | At_root : at_path "/" N_root
  | At_stats : at_path "/stats" N_stats
  | At_image : at_path "/image" N_image
  | At_stat name : name ∈ stat_names -> at_path ("/stats/" +:+ name) (N_stat name).

Definition absent (path : string) : Prop := forall n, ~ at_path path n.

(** The flat disk, and the open statistics files by handle. *)
Record fs := mk_fs { fs_flat : list Z; fs_open : gmap Z string }.

Definition set_flat f a := mk_fs f (fs_open a).
Definition set_open o a := mk_fs (fs_flat a) o.

Definition attributes_ok (p : pk_parcel) (n : node) (st : attributes) : Prop :=
  st_blocks st = (st_size st + 511) / 512 /\
  match n with
  | N_root | N_stats => S_ISDIR (st_mode st) = true /\ st_size st = 0
  | N_image => S_ISDIR (st_mode st) = false /\ st_size st = total p
  | N_stat _ => S_ISDIR (st_mode st) = false /\ 0 <= st_size st
  end.

(** What a request may answer, and what it does. *)
Definition allows (p : pk_parcel) (r : request) (a : fs) (ans : answer) (a' : fs) : Prop :=
  match r with
  | R_getattr path =>
      a' = a /\
      ((exists n st, at_path path n /\ ans = A_attr (inr st) /\ attributes_ok p n st) \/
       absent path /\ ans = A_attr (inl (- ENOENT)))
  | R_truncate path _ =>
      a' = a /\
      ((exists n, at_path path n /\
          ans = A_code match n with N_root | N_stats => - EISDIR | N_image => 0 | N_stat _ => - EPERM end) \/
       absent path /\ ans = A_code (- ENOENT))
  | R_open path =>
      (exists name fh text, at_path path (N_stat name) /\ 0 < fh /\ fs_open a !! fh = None /\
         ans = A_handle 0 fh /\ a' = set_open (<[fh := text]> (fs_open a)) a) \/
      at_path path N_image /\ ans = A_handle 0 0 /\ a' = a \/
      ~ (exists name, at_path path (N_stat name)) /\ ~ at_path path N_image /\ ans = A_handle (- ENOENT) 0 /\ a' = a
  | R_read fh start count =>
      a' = a /\
      (fh = 0 /\ (let buf := range (fs_flat a) (Z.to_nat start) (Z.to_nat count) in
                  ans = A_data (Z.of_nat (length buf)) buf) \/
       fh <> 0 /\ match fs_open a !! fh with
                  | Some text => let buf := range (text_bytes text) (Z.to_nat start) (Z.to_nat count) in
                                 ans = A_data (Z.of_nat (length buf)) buf
                  | None => ans = A_data (- EBADF) []
                  end)
  | R_write _ start buf =>
      let count := Z.of_nat (length buf) in
      ans = A_code (write_result p start count) /\ a' = set_flat (disk_write p (fs_flat a) buf start count) a
  | R_statfs =>
      a' = a /\ exists free, is_u 32 free /\ ans = A_statvfs (inr (mk_statvfs (chunksize p) (chunks p) free free 256))
  | R_release fh => ans = A_code 0 /\ a' = if decide (fh <> 0) then set_open (delete fh (fs_open a)) a else a
  | R_fsync fh => a' = a /\ ans = A_code (if decide (fh = 0) then 0 else - EINVAL)
  | R_opendir path =>
      a' = a /\
      (at_path path N_root /\ ans = A_handle 0 DIR_ROOT \/ at_path path N_stats /\ ans = A_handle 0 DIR_STATS \/
       ~ at_path path N_root /\ ~ at_path path N_stats /\ ans = A_handle (- ENOENT) 0)
  | R_readdir fh =>
      a' = a /\ ans = if decide (fh = DIR_ROOT) then A_names 0 ["image"; "stats"]%string
                      else if decide (fh = DIR_STATS) then A_names 0 stat_names else A_names (- EIO) []
  | R_clean | R_tick _ => a' = a /\ ans = A_code 0
  end.

(** A run of it. *)
Inductive fs_run (p : pk_parcel) : list request -> fs -> list answer -> fs -> Prop :=
  | Run_nil a : fs_run p [] a [] a
  | Run_cons r rs a ans a' anss a'' :
      allows p r a ans a' -> fs_run p rs a' anss a'' -> fs_run p (r :: rs) a (ans :: anss) a''.

(** The requests that the kernel makes: offsets and sizes within the bounds of the types, and no write
    on the handle of a statistics file. *)
Definition request_fine (p : pk_parcel) (r : request) : Prop :=
  match r with
  | R_read fh start count => if decide (fh = 0) then request_ok p start count else 0 <= start /\ 0 <= count < 2 ^ 31
  | R_write fh start buf => fh = 0 /\ request_ok p start (Z.of_nat (length buf)) /\ bytes buf
  | R_tick t => 0 < t
  | _ => True
  end.

(** * Paths and statistics *)

Lemma substring_all s : String.substring 0 (String.length s) s = s.
Proof. induction s as [|c s IH]; simpl; [done|]. by rewrite IH. Qed.

Lemma strip_prefix_spec pre path name : strip_prefix pre path = Some name <-> path = (pre +:+ name)%string.
Proof.
  unfold strip_prefix. revert path. induction pre as [|c pre IH]; intros path.
  - change ("" +:+ name)%string with name. simpl. rewrite Nat.sub_0_r, substring_all. destruct path; simpl; split; congruence.
  - destruct path as [|d path]; simpl; [done|]. destruct (Ascii.ascii_dec c d) as [->|Hne].
    + specialize (IH path). rewrite IH. split; [by intros ->|by intros [= ->]].
    + split; [done|]. by intros [= -> _].
Qed.

Section statistics.
Context `{!Printf}.

Lemma stat_list_names s : stat_list s = stat_names.
Proof. reflexivity. Qed.

Lemma stat_get_spec s name : is_Some (stat_get s name) <-> name ∈ stat_names.
Proof.
  unfold stat_get, _statistic, statistics, stat_names. cbn [statistic_from _stat_compare].
  rewrite !elem_of_cons, elem_of_nil.
  repeat (match goal with |- context [bool_decide (name = ?n)] =>
    destruct (decide (name = n)); [rewrite (bool_decide_true (name = n)) by done; simpl; split; [by auto 20|by eexists]
                                  |rewrite (bool_decide_false (name = n)) by done] end).
  simpl. split; [by intros []|tauto].
Qed.
End statistics.

(** Only the paths under "/stats/" name statistics. *)
Lemma at_stat path name : at_path path (N_stat name) <-> strip_prefix "/stats/" path = Some name /\ name ∈ stat_names.
Proof.
  rewrite strip_prefix_spec. split; [inversion 1; by subst|]. intros [-> ?]. by constructor.
Qed.

Lemma at_simple path :
  (at_path path N_root <-> path = "/"%string) /\ (at_path path N_stats <-> path = "/stats"%string) /\
  (at_path path N_image <-> path = "/image"%string).
Proof. split_and!; (split; [by inversion 1|intros ->; constructor]). Qed.

(** A handle that is free is found. *)
Lemma next_fh_spec n fh (m : gmap Z string) :
  0 < fh -> (forall i, 0 < i < fh -> is_Some (m !! i)) -> (size m < n + Z.to_nat (fh - 1))%nat ->
  exists fh', next_fh n fh m = Some fh' /\ fh <= fh' /\ m !! fh' = None.
Proof.
  revert fh. induction n as [|n IH]; intros fh Hfh Hused Hsz; simpl.
  - exfalso. set (ks := (fun i => Z.of_nat i + 1) <$> seq 0 (Z.to_nat (fh - 1))).
    assert (length ks <= size m)%nat; [|subst ks; rewrite length_fmap, length_seq in *; lia].
    rewrite <- size_dom. rewrite <- (size_list_to_set (C:=gset Z) ks).
    + apply subseteq_size. intros i. rewrite elem_of_list_to_set. subst ks.
      rewrite list_elem_of_fmap. intros (j & -> & Hj%elem_of_seq). apply elem_of_dom, Hused. lia.
    + subst ks. apply NoDup_fmap_2; [intros x y; lia|apply NoDup_seq].
  - destruct (m !! fh) as [t|] eqn:Ht; [|by exists fh].
    destruct (IH (fh + 1)) as (fh' & Hn & Hle & Hf); [lia| |lia|exists fh'; split_and!; [done|lia|done]].
    intros i Hi. destruct (decide (i = fh)) as [->|]; [by rewrite Ht|]. apply Hused. lia.
Qed.

(** * The local cache behind it *)

Section counting.
Context (s0 : pk_state) (fs0 : list (option (sqlite_fault * bool))).
Local Abbreviation d0 := (data (conn s0)).

Definition counted (t : gmap Z Z) (r : pk_err * Z * Z) (s : pk_state) : Prop :=
  idle d0 (conn s) /\ within fs0 (conn s) /\ reads_only s0 s /\
  (Forall contention fs0 -> r = (PK_SUCCESS, u32 (Z.of_nat (size t)), 0)).

Lemma count_body t fs :
  chunk_table d0 = Some t -> fs `suffix_of` fs0 ->
  tx_body d0 (reads_only s0) (counted t) (fun _ => ~ Forall contention fs0)
    (ok ← try_db begin;
     if ok : bool then
       v ← (if true then
              '(_, rows) ← run sql_count_chunks;
              has_row ← gets (fun s => query_has_row (conn s));
              if negb has_row then goto_bad (PK_IOERR, 0, 0) else pk_ret (u32 (get rows 0))
            else pk_ret 0);
       d ← (if false then
              '(_, rows) ← run sql_count_modified;
              has_row ← gets (fun s => query_has_row (conn s));
              if negb has_row then goto_bad (PK_IOERR, 0, 0) else pk_ret (u32 (get rows 0))
            else pk_ret 0);
       _ ← try_db rollback;
       ret (PK_SUCCESS, v, d)
     else ret (PK_IOERR, 0, 0)) fs.
Proof.
  intros Ht Hfs.
  assert (stable (reads_only s0)) as HP by (intros b s; apply reads_only_db).
  assert (~ Forall contention fs -> ~ Forall contention fs0) as Hnc by (by apply contention_suffix).
  apply (tx_start fs d0 _ _ (reads_only s0)); [done| |].
  { intros s Hi Hw Hr Hn. split_and!; try done; [by eapply within_trans|]. intros Hc. by apply Hnc in Hn. }
  eapply triple_bind with (Q := fun v s => v = u32 (Z.of_nat (size t)) /\ at_data fs d0 d0 (reads_only s0) s).
  { assert (forall P Q : Prop, P = Q -> P -> Q) as Heq by (by intros ? ? ->).
    eapply Heq; [|apply (tx_row_step fs d0 (counted t) (fun _ => ~ Forall contention fs0) (reads_only s0) d0
      (Z.of_nat (size t)) [] sql_count_chunks (reads_only s0) (PK_IOERR, 0, 0)
      (fun rows => pk_ret (u32 (get rows 0))) (fun v s => v = u32 (Z.of_nat (size t)) /\ at_data fs d0 d0 (reads_only s0) s))];
      [f_equal|..]; try done.
    - unfold sql_count_chunks. by rewrite Ht.
    - apply triple_ret. by intros s Hs. }
  intros v. apply triple_pure. intros ->.
  intros s Hs. rewrite bind_ret.
  destruct (rollback_ok (R:=pk_err * Z * Z) fs d0 d0 (reads_only s0) s HP Hs) as (s' & Hrb & Hi & Hw & Hro).
  rewrite (bind_step _ _ _ _ _ Hrb). eexists _, _. split; [done|]. split_and!; try done. by eapply within_trans.
Qed.
End counting.

Section local_cache.
Context (env : compress_env) `{!ChunkSource}.

Lemma same_cache_keeps s s' : healthy s -> same_cache s s' -> fair_after s s' -> keeps env (fun _ => False) s s'.
Proof.
  intros [Hw Hf Hk] Hs Hfa. pose proof Hs as (Hw' & _ & Hp & Ho & Hd & Hcc). split_and!; try done.
  - split; [done|by apply (fair_after_fair s)|]. intros c Hc. rewrite Hp in Hc. unfold in_keyring. rewrite Hd. by apply Hk.
  - intros c b _ _ (tag & key & comp & len & enc & Hrow & Hft & Hl & Hdec).
    exists tag, key, comp, len, enc. rewrite Hp, Hd. split_and!; try done. revert Hft.
    unfold fetched, slot, cache_chunk_to_offset. by rewrite Hp, Ho, Hcc.
Qed.

Lemma count_chunks_ok s :
  healthy s ->
  exists valid s', cache_count_chunks true false s = Some ((PK_SUCCESS, valid, 0), s') /\ is_u 32 valid /\
    keeps env (fun _ => False) s s'.
Proof.
  intros Hh. pose proof (h_wf s Hh) as Hw. destruct (h_fair s Hh) as [Hc Hio].
  destruct (wf_tables s Hw) as [_ [t Ht]].
  destruct (transaction_spec (faults (conn s)) (data (conn s)) (reads_only s) (counted s (faults (conn s)) t)
    (fun _ => ~ Forall contention (faults (conn s))) _ s (fun fs' => count_body s (faults (conn s)) t fs' Ht))
    as (r & s' & Hr & Hx).
  - intros b s1. apply reads_only_db.
  - apply (wf_idle s Hw).
  - apply within_refl.
  - exists (conn s). by destruct s.
  - destruct Hx as [(Hi & Hwi & [b ->] & Hok)|(_ & _ & _ & Hn)]; [|done]. specialize (Hok Hc). subst r.
    exists (u32 (Z.of_nat (size t))), (set_db b s). split_and!; [exact Hr|apply is_u32_u32|].
    apply same_cache_keeps; [done|by apply same_cache_read|]. by split.
Qed.
End local_cache.

(** * Simulation *)

Section simulation.
Context (env : compress_env) `{!ChunkSource} `{!ChunkStore env} `{!Printf}.
Context (junk_byte : is_u 8 (e_junk env)) (errno : Z).

(** The file system is the abstract one. *)
Record related (p : pk_parcel) (a : fs) (v : vfs) : Prop := mk_related {
  re_inv : inv env [] (fs_flat a) (fsys v);
  re_room : room (fsys v);
  re_open : buffers v = fs_open a;
  re_parcel : parcel (pks (fsys v)) = p
}.

Lemma related_fsys p a v f flat :
  related p a v -> inv env [] flat f -> room f -> parcel (pks f) = parcel (pks (fsys v)) ->
  related p (set_flat flat a) (set_fsys f v).
Proof. intros [] Hi Hr Hp. split; try done. simpl. by rewrite Hp. Qed.

Lemma set_flat_id a : set_flat (fs_flat a) a = a.
Proof. by destruct a. Qed.

Lemma related_same p a v f :
  related p a v -> inv env [] (fs_flat a) f -> room f -> parcel (pks f) = parcel (pks (fsys v)) ->
  related p a (set_fsys f v).
Proof. intros. rewrite <- (set_flat_id a). by apply related_fsys. Qed.

Lemma total_nonneg p a v : related p a v -> 0 <= total p /\ is_u 32 (chunks p) /\ 16 <= chunksize p < 2 ^ 31.
Proof.
  intros [Hi _ _ <-]. pose proof (h_wf _ (i_healthy _ _ _ _ Hi)) as Hw.
  destruct (wf_geometry _ Hw) as [_ _ ? _ ? _ _ _ _ _]. unfold total, is_u in *. split_and!; try done; nia.
Qed.

Lemma quot_div n : 0 <= n -> Z.quot (n + 511) 512 = (n + 511) / 512.
Proof. intros. apply Z.quot_div_nonneg; lia. Qed.

Lemma getattr_ok p a v path :
  related p a v ->
  (exists n st, at_path path n /\ do_getattr path v = inr st /\ attributes_ok p n st) \/
  absent path /\ do_getattr path v = inl (- ENOENT).
Proof.
  intros Hr. pose proof (total_nonneg p a v Hr) as (Ht & _). destruct Hr as [_ _ _ Hp].
  unfold do_getattr. rewrite Hp.
  destruct (decide (path = "/"%string)) as [->|H1].
  { left. exists N_root. eexists. split; [constructor|]. split; [reflexivity|]. done. }
  destruct (decide (path = "/stats"%string)) as [->|H2].
  { left. exists N_stats. eexists. split; [constructor|]. split; [reflexivity|]. done. }
  destruct (decide (path = "/image"%string)) as [->|H3].
  { left. exists N_image. eexists. split; [constructor|]. split; [reflexivity|]. split; [|done]. simpl. by apply quot_div. }
  assert (forall name, strip_prefix "/stats/" path = Some name -> is_Some (stat_get (fsys v) name) ->
    at_path path (N_stat name)) as Hat.
  { intros name Hn Hs%stat_get_spec. by apply at_stat. }
  assert ((forall name, ~ (strip_prefix "/stats/" path = Some name /\ name ∈ stat_names)) -> absent path) as Hab.
  { intros Hno n Hn. destruct n; try (apply at_simple in Hn; done). apply at_stat in Hn. by apply (Hno name). }
  destruct (strip_prefix "/stats/" path) as [name|] eqn:Hpre.
  - destruct (stat_get (fsys v) name) as [text|] eqn:Hg.
    + left. exists (N_stat name). eexists. split; [by apply Hat; [|eexists]|]. split; [reflexivity|].
      split; [simpl; apply quot_div; lia|]. split; [done|]. simpl. lia.
    + right. split; [|done]. apply Hab. intros name' [[= <-] Hin%(stat_get_spec (fsys v))]. rewrite Hg in Hin. by destruct Hin.
  - right. split; [|done]. apply Hab. by intros name' [[=] _].
Qed.

Lemma length_text s : length (text_bytes s) = String.length s.
Proof. induction s; simpl; congruence. Qed.

Lemma stat_read_ok fh start count v :
  0 <= start -> 0 <= count < 2 ^ 31 ->
  stat_read fh start count v =
    match buffers v !! fh with
    | Some text => let buf := range (text_bytes text) (Z.to_nat start) (Z.to_nat count) in (Z.of_nat (length buf), buf)
    | None => (- EBADF, [])
    end.
Proof.
  intros Hs Hc. unfold stat_read. destruct (buffers v !! fh) as [text|]; [|done].
  rewrite s32_id by done. set (L := Z.of_nat (String.length text)).
  assert (range (text_bytes text) (Z.to_nat start) (Z.to_nat count) =
          range (text_bytes text) (Z.to_nat start) (Z.to_nat (Z.max 0 (Z.min count (L - start))))) as Hr.
  { unfold range. destruct (decide (count <= L - start)) as [Hle|Hgt].
    - f_equal. lia.
    - rewrite !take_ge; [done|rewrite length_drop, length_text; lia..]. }
  cbv zeta. rewrite Hr. f_equal. rewrite length_range, length_text. lia.
Qed.

Lemma io_ok_healthy f : healthy (pks f) -> body (R:=bool) (on_cache (body io_ok)) f = Some (true, f).
Proof.
  intros Hh. destruct (h_fair _ Hh) as [_ Hio]. unfold body, on_cache, io_ok, mbind, pk_mbind, pk_bind, next_io. cbn.
  rewrite Hio. cbn. by destruct f.
Qed.

Lemma opened_ok p a v path :
  related p a v ->
  exists ret fh v' a', do_open path v = Some (ret, fh, v') /\ allows p (R_open path) a (A_handle ret fh) a' /\ related p a' v'.
Proof.
  intros Hr. pose proof Hr as [_ _ Ho _]. unfold do_open. destruct (strip_prefix "/stats/" path) as [name|] eqn:Hpre.
  - assert (path <> "/image"%string) as Hni by (by intros ->).
    unfold stat_open. destruct (stat_get (fsys v) name) as [text|] eqn:Hg.
    + destruct (next_fh_spec (S (size (buffers v))) 1 (buffers v)) as (fh & -> & Hle & Hfree); [lia..|].
      cbn [mbind option_bind]. rewrite decide_False by lia. eexists _, _, _, _. split; [done|]. split.
      * left. exists name, fh, text. rewrite <- Ho. split_and!; [|lia|done..].
        apply at_stat. split; [done|]. apply (stat_get_spec (fsys v)). by rewrite Hg.
      * destruct Hr. split; simpl; by rewrite ?Ho.
    + exists (- ENOENT), 0, v, a. split; [done|]. split; [|done]. right. right. split_and!; try done.
      * intros (name' & [Hn Hin%(stat_get_spec (fsys v))]%at_stat). rewrite Hpre in Hn. injection Hn as <-. rewrite Hg in Hin. by destruct Hin.
      * by intros ?%at_simple.
  - exists (if decide (path <> "/image"%string) then - ENOENT else 0), 0, v, a. split; [done|]. split; [|done].
    destruct (decide (path <> "/image"%string)) as [Hne|Heq]; right; [right|left].
    + split_and!; try done; [|by intros ?%at_simple]. by intros (name' & [Hn _]%at_stat); rewrite Hpre in Hn.
    + apply dec_stable in Heq as ->. split; [constructor|done].
Qed.

(** Every request is answered, as the abstract file system allows it. *)
Lemma serve_ok p r a v :
  related p a v -> request_fine p r ->
  exists ans v' a', serve env errno r v = Some (ans, v') /\ allows p r a ans a' /\ related p a' v'.
Proof.
  intros Hrel Hfine. pose proof Hrel as [Hi Hroom Ho Hp].
  destruct r as [path|path len|path|fh start count|fh start buf| |fh|fh|path|fh| |t]; cbn [serve].
  - eexists _, v, a. split; [done|]. split; [|done]. split; [done|].
    destruct (getattr_ok p a v path Hrel) as [(n & st & Hn & -> & Hst)|[Hab ->]]; [left; eauto|by right].
  - eexists _, v, a. split; [done|]. split; [|done]. split; [done|]. unfold do_truncate.
    destruct (getattr_ok p a v path Hrel) as [(n & st & Hn & -> & _ & Hst)|[Hab ->]]; [left|by right].
    exists n. split; [done|]. destruct n as [| | |name]; destruct Hst as [-> _]; try done.
    + by apply at_simple in Hn as ->.
    + rewrite decide_False; [done|]. intros ->. by apply at_stat in Hn as [? _].
  - destruct (opened_ok p a v path Hrel) as (ret & fh & v' & a' & -> & Hal & Hr'). by eexists _, v', a'.
  - cbn [request_fine] in Hfine. unfold do_read. destruct (decide (fh = 0)) as [->|Hfh].
    + rewrite <- Hp in Hfine. destruct (image_read_ok env junk_byte _ _ start count Hi Hroom Hfine) as (f & Hf & Hi' & Hr' & Hp').
      rewrite Hf. eexists _, _, a. split; [done|]. split; [by split; [|left]|]. by apply related_same.
    + destruct Hfine as [Hs Hc]. rewrite decide_True by done. rewrite (stat_read_ok fh start count v Hs Hc), Ho.
      destruct (fs_open a !! fh) as [text|] eqn:Ht; (eexists _, v, a; split; [done|]; split; [|done]; split; [done|]; right; by rewrite Ht).
  - destruct Hfine as (-> & Hreq & Hb). unfold do_write. rewrite decide_True by done. rewrite <- Hp in Hreq.
    destruct (image_write_ok env junk_byte _ _ buf start _ Hi Hroom Hreq eq_refl Hb) as (f & Hf & Hi' & Hr' & Hp').
    rewrite Hf. eexists _, _, (set_flat _ a). split; [done|]. split; [rewrite Hp; done|]. rewrite <- Hp at 2.
    by apply related_fsys.
  - unfold do_statfs. destruct (count_chunks_ok env (pks (fsys v)) (i_healthy _ _ _ _ Hi)) as (n & s' & -> & Hn & Hk).
    cbn [mbind option_bind]. rewrite decide_False by auto. pose proof Hk as (_ & Hp' & _).
    eexists _, _, a. split; [done|]. split.
    + split; [done|]. eexists. split; [|by rewrite Hp', Hp]. apply is_u32_u32.
    + apply related_same; try done. by eapply inv_keeps.
  - eexists _, _, _. split; [done|]. split; [done|]. destruct (decide (fh <> 0)); [|done].
    split; try done. simpl. by rewrite Ho.
  - unfold do_fsync. destruct (decide (fh = 0)) as [->|Hfh].
    + rewrite decide_False by auto. unfold image_sync.
      destruct (clean_all_ok env true _ _ Hi) as (f & -> & Hi' & Hr' & Hp' & _). cbn [mbind option_bind].
      rewrite (io_ok_healthy f (i_healthy _ _ _ _ Hi')). eexists _, _, a. split; [done|]. split; [done|]. apply related_same; auto.
    + rewrite decide_True by done. eexists _, v, a. split; [done|]. split; [|done]. split; [done|]. by rewrite decide_False.
  - unfold do_opendir. destruct (decide (path = "/"%string)) as [->|H1]; [|destruct (decide (path = "/stats"%string)) as [->|H2]];
      (eexists _, v, a; split; [done|]; split; [|done]; split; [done|]).
    + left. split; [constructor|done].
    + right. left. split; [constructor|done].
    + right. right. split_and!; [by intros ?%at_simple..|done].
  - unfold do_readdir. destruct (decide (fh = DIR_ROOT)) as [->|H1]; [|destruct (decide (fh = DIR_STATS)) as [->|H2]];
      (eexists _, v, a; split; [done|]; split; [|done]; split; [done|]); [done..|]. by rewrite !decide_False.
  - unfold entry_cleaner. destruct (clean_all_ok env false _ _ Hi) as (f & -> & Hi' & Hr' & Hp' & _).
    eexists _, _, a. split; [done|]. split; [done|]. apply related_same; auto.
  - eexists _, _, a. split; [done|]. split; [done|]. apply related_same; try done. by destruct Hi.
Qed.

Lemma serve_all_ok p rs a v :
  related p a v -> Forall (request_fine p) rs ->
  exists anss v' a', serve_all env errno rs v = Some (anss, v') /\ fs_run p rs a anss a' /\ related p a' v'.
Proof.
  revert a v. induction rs as [|r rs IH]; intros a v Hrel Hfine; simpl.
  { exists [], v, a. split_and!; [done|constructor|done]. }
  apply Forall_cons in Hfine as [Hr Hrs].
  destruct (serve_ok p r a v Hrel Hr) as (ans & v1 & a1 & -> & Hal & Hrel1). simpl.
  destruct (IH a1 v1 Hrel1 Hrs) as (anss & v2 & a2 & -> & Hrun & Hrel2). simpl.
  exists (ans :: anss), v2, a2. split_and!; [done|by econstructor|done].
Qed.
End simulation.

(** * The flags of the cache file *)

(** The cache file is open for writing, and its data begin behind its header. *)
Record opened (p : pk_state) : Prop := mk_opened {
  op_fd : cache_fd p = true;
  op_lock : has_flag (flags (conf p)) WANT_LOCK = true;
  op_offset : 16 <= offset p;
  op_header : (16 <= length (cache_content p))%nat
}.

(** The flags in the header, as another process will read them. *)
Definition disk_flags (p : pk_state) : Z := LOAD32H (cache_content p) 12.

Definition with_flags (f : Z) (p : pk_state) : pk_state :=
  set_cache_flags f (set_disk (set_f_cache (Some (file_write (cache_content p) (Z.to_nat offsetof_flags) (STORE32H f))) (disk p)) p).

Lemma range_flags f x off n :
  (16 <= length f)%nat -> (16 <= off)%nat -> range (file_write f (Z.to_nat offsetof_flags) (STORE32H x)) off n = range f off n.
Proof.
  intros Hl Ho. apply range_ext. intros i _. unfold file_write, STORE32H.
  change (Z.to_nat offsetof_flags) with 12%nat. rewrite lookup_blit by (rewrite length_app; lia).
  rewrite decide_False by (simpl; lia). destruct (decide (off + i < length f)%nat).
  - by rewrite lookup_app_l.
  - rewrite lookup_app_r by lia. replace (12 - length f)%nat with 0%nat by lia. simpl.
    rewrite lookup_nil. symmetry. apply lookup_ge_None. lia.
Qed.

Lemma set_flags_run f p : opened p -> io p = [] -> cache_set_flags f p = Some (PK_SUCCESS, with_flags f p).
Proof.
  intros [Hfd Hlock _ _] Hio. unfold cache_set_flags, body. rewrite !bind_gets, Hlock, Hfd. simpl negb. cbv iota.
  unfold pwrite, io_ok, mbind, pk_mbind, pk_bind, next_io, modify, ret, pk_ret.
  cbn -[STORE32H file_write Z.to_nat]. rewrite Hio. cbn -[STORE32H file_write Z.to_nat].
  rewrite take_ge, decide_False by (rewrite ?length_STORE32H; lia).
  cbn -[STORE32H file_write Z.to_nat]. rewrite Hio. cbn -[STORE32H file_write Z.to_nat].
  reflexivity.
Qed.

Section flags.
Context (env : compress_env) `{!ChunkSource}.

Lemma with_flags_keeps f p : opened p -> healthy p -> keeps env (fun _ => False) p (with_flags f p).
Proof.
  intros [_ _ Ho Hl] [[Hg Hi Ht Hby Hle Hks] [Hc0 Hio] Hk]. split_and!; [|done|].
  - split; [|by split|done]. split; try done; [by destruct Hg|].
    apply bytes_file_write; [done|]. apply bytes_STORE32H.
  - intros c b Hc _ (tag & key & comp & len & enc & Hrow & Hft & Hlen & Hdec).
    exists tag, key, comp, len, enc. split_and!; try done. rewrite <- Hft. unfold fetched.
    assert (forall n, slot (with_flags f p) c n = slot p c n) as Hslot; [|by rewrite Hslot].
    intros n. unfold slot. change (cache_chunk_to_offset (with_flags f p) c) with (cache_chunk_to_offset p c).
    apply range_flags; [done|]. unfold cache_chunk_to_offset. destruct Hg. nia.
Qed.

Lemma with_flags_opened f p : opened p -> opened (with_flags f p).
Proof.
  intros [? ? ? Hl]. split; try done.
  change (cache_content (with_flags f p)) with (file_write (cache_content p) (Z.to_nat offsetof_flags) (STORE32H f)).
  rewrite length_file_write by done. lia.
Qed.

Lemma keeps_holds p p' flat : holds env p flat -> keeps env (fun _ => False) p p' -> holds env p' flat.
Proof.
  intros [Hl Hb Hc] (_ & Hp & Hk). split; rewrite ?Hp; [done|done|]. intros c Hr. apply Hk; auto.
Qed.
End flags.

Lemma LOAD32H_range l off : LOAD32H l off = LOAD32H (range l off 4) 0.
Proof.
  unfold LOAD32H, get, range. rewrite !lookup_take_lt, !lookup_drop by lia. by rewrite Nat.add_0_r.
Qed.

Lemma disk_flags_with f p : is_u 32 f -> disk_flags (with_flags f p) = f.
Proof.
  intros Hf. unfold disk_flags.
  change (cache_content (with_flags f p)) with (file_write (cache_content p) (Z.to_nat offsetof_flags) (STORE32H f)).
  rewrite LOAD32H_range. change 12%nat with (Z.to_nat offsetof_flags).
  rewrite range_file_write_same by done. by rewrite take_ge, LOAD32H_STORE32H.
Qed.

(** ** Whatever fails *)

(** Flags that were written are in the file. *)
Lemma set_flags_written f p p' :
  cache_set_flags f p = Some (PK_SUCCESS, p') -> exists rest, p' = set_io rest (with_flags f p).
Proof.
  unfold cache_set_flags, body. rewrite !bind_gets. destruct (has_flag _ _); simpl negb; cbv iota; [|done].
  destruct (cache_fd p); simpl negb; cbv iota; [|done].
  unfold pwrite, io_ok, mbind, pk_mbind, pk_bind, next_io, modify, ret, pk_ret.
  assert (forall o, Z.of_nat (length (take (limit (length (STORE32H f)) o) (STORE32H f))) = 4 ->
    take (limit (length (STORE32H f)) o) (STORE32H f) = STORE32H f) as Hfull.
  { intros o Hl. apply take_ge. rewrite length_take, length_STORE32H in *. lia. }
  cbn -[STORE32H file_write Z.to_nat take].
  destruct (io p) as [|o rest] eqn:Hio; cbn -[STORE32H file_write Z.to_nat take].
  - specialize (Hfull None). cbn -[STORE32H file_write Z.to_nat take] in Hfull.
    destruct (decide (Z.of_nat _ <> 4)) as [|Hl]; [done|]. apply dec_stable in Hl. rewrite (Hfull Hl).
    cbn -[STORE32H file_write Z.to_nat take]. rewrite Hio. cbn -[STORE32H file_write Z.to_nat take].
    intros [= <-]. exists (io p). by destruct p.
  - specialize (Hfull o). destruct (decide (Z.of_nat _ <> 4)) as [|Hl]; [done|]. apply dec_stable in Hl. rewrite (Hfull Hl).
    cbn -[STORE32H file_write Z.to_nat take].
    destruct rest as [|[k|] rest]; cbn -[STORE32H file_write Z.to_nat take]; [|done|]; intros [= <-]; by eexists.
Qed.

Lemma disk_flags_header p p' :
  (16 <= length (cache_content p))%nat -> (16 <= length (cache_content p'))%nat ->
  header_of p' = header_of p -> disk_flags p' = disk_flags p.
Proof.
  intros Hl Hl' Hh. unfold disk_flags. rewrite (LOAD32H_range (cache_content p') 12), (LOAD32H_range (cache_content p) 12).
  assert (forall q, range (cache_content q) 12 4 = drop 12 (header_of q)) as Hr.
  { intros q. unfold range, header_of. by rewrite take_drop_commute. }
  by rewrite !Hr, Hh.
Qed.

(** What a process that opens the cache file finds in the header. *)
Lemma open_cache_file_flags p p' :
  open_cache_file p = Some (PK_SUCCESS, p') -> cache_flags p' = disk_flags p.
Proof.
  unfold open_cache_file, body, io_ok, pread, mbind, pk_mbind, pk_bind, gets, modify, ret, pk_ret.
  assert (forall s, exists (o : option nat) s1, (next_io : pk pk_state pk_err _) s = Some (inl o, s1) /\ disk s1 = disk s) as Hdisk.
  { intros s. unfold next_io. destruct (io s); by eexists _, _. }
  destruct (Hdisk p) as (o & p1 & -> & H1). destruct (decide _); [done|].
  destruct (Hdisk p1) as (o2 & p2 & -> & H2).
  assert (cache_content p2 = cache_content p) as Hcc by (unfold cache_content; by rewrite H2, H1).
  destruct (decide (length _ <> _)) as [|Hl]; [done|]. apply dec_stable in Hl.
  repeat (destruct (decide _); [done|]). intros [= <-]. unfold cache_flags, set_cache_fd, set_offset, set_cache_flags, get_header, hdr_flags, disk_flags.
  unfold LOAD32H, get. change (Z.to_nat 0) with 0%nat in *. rewrite drop_0, Hcc in *.
  rewrite length_take in Hl. unfold sizeof_ca_header in *.
  rewrite !lookup_take_lt by lia. done.
Qed.

Section starting.
Context (env : compress_env) `{!ChunkSource} (e : fuse_env).

Lemma not_started ret f m v :
  bad_dealloc_mountpoint env ret f m <> Some (Started v) /\ bad_unlink env e ret f m <> Some (Started v) /\
  bad_unflag env e ret f m <> Some (Started v).
Proof.
  assert (forall ret f m, bad_dealloc_mountpoint env ret f m <> Some (Started v)) as Hd.
  { intros ret' f' m'. unfold bad_dealloc_mountpoint. by destruct (image_shutdown env f') as [[[] f1]|]. }
  split_and!; [apply Hd..|]. unfold bad_unflag. destruct (cache_clear_flag _ _) as [[err p]|]; [apply Hd|done].
Qed.

(** The ends of fuse_init that give an error. *)
Ltac failed_start := intros; exfalso; edestruct not_started as (H1 & H2 & H3);
  first [by eapply H1 | by eapply H2 | by eapply H3].

Lemma fuse_start_started bw uuid f m v :
  fuse_start env e bw uuid f m = Some (Started v) -> fsys v = f /\ buffers v = ∅.
Proof.
  unfold fuse_start. destruct (negb _); [failed_start|]. destruct (negb _); [failed_start|].
  destruct (decide _); [failed_start|]. by intros [= <-].
Qed.

(** A file system that has started is one whose cache was clean and has been marked. *)
Lemma fuse_init_started bw uuid p t m v :
  fuse_init env e bw uuid p t m = Some (Started v) ->
  cache_test_flag p CA_F_DIRTY = false /\
  exists q f, image_init (fe_pages e) (fe_page_size e) (fe_thread e) p t = (PK_SUCCESS, f) /\
    fsys v = set_pks q f /\ buffers v = ∅ /\
    (cache_test_flag p CA_F_DAMAGED = true /\ q = p \/
     cache_test_flag p CA_F_DAMAGED = false /\ cache_set_flag CA_F_DIRTY p = Some (PK_SUCCESS, q)).
Proof.
  unfold fuse_init. destruct (cache_test_flag p CA_F_DIRTY); [done|]. intros Hs. split; [done|]. revert Hs.
  destruct (image_init _ _ _ _ _) as [ret f] eqn:Hinit.
  assert (pks f = p) as Hp.
  { revert Hinit. unfold image_init. destruct (decide _); [by intros [= _ <-]|]. destruct (decide _); by intros [= _ <-]. }
  destruct (decide (ret <> PK_SUCCESS)) as [|Hret]; [done|]. apply dec_stable in Hret as ->.
  destruct (negb _); [failed_start|]. destruct (negb _); [failed_start|]. rewrite Hp.
  destruct (cache_test_flag p CA_F_DAMAGED).
  - intros [-> ?]%fuse_start_started. exists p, f. split_and!; try done; [by destruct f; simpl in *; subst|by left].
  - destruct (cache_set_flag _ _) as [[ret q]|] eqn:Hset; [|done]. cbn [mbind option_bind].
    destruct (decide (ret <> PK_SUCCESS)) as [|Hret]; [failed_start|]. apply dec_stable in Hret as ->.
    intros [-> ?]%fuse_start_started. exists q, f. split_and!; try done. by right.
Qed.
End starting.

(** ** The flag of an unclean shutdown *)

Section dirty_flag.
Context (env : compress_env) `{!ChunkSource} `{!Printf} (errno : Z).

Lemma io_ok_frame : preserves_fun image_fine image_framed (body (R:=bool) (on_cache (body io_ok))).
Proof. unfold io_ok. frame. apply ip_on_cache. frame. Qed.

(** No request touches the header of the cache file, and what has gone wrong stays known. *)
Lemma serve_frame r v ans v' :
  image_fine (fsys v) -> serve env errno r v = Some (ans, v') -> image_fine (fsys v') /\ image_framed (fsys v) (fsys v').
Proof.
  intros Hf. assert (image_fine (fsys v) /\ image_framed (fsys v) (fsys v)) as Hsame by (by split).
  destruct r as [path|path len|path|fh start count|fh start buf| |fh|fh|path|fh| |t]; cbn [serve].
  - by intros [= _ <-].
  - by intros [= _ <-].
  - unfold do_open, stat_open. destruct (strip_prefix _ _); [|cbn; by intros [= _ <-]].
    destruct (stat_get _ _); [|cbn; by intros [= _ <-]].
    destruct (next_fh _ _ _); [|done]. cbn. destruct (decide _); by intros [= _ <-].
  - unfold do_read. destruct (decide _); [cbn; destruct (stat_read _ _ _ _); by intros [= _ <-]|].
    destruct (image_read _ _ _ _) as [[[k buf] f]|] eqn:Hr; [|done]. cbn. intros [= _ <-]. by apply (ip_image_read env) in Hr.
  - unfold do_write. destruct (decide _); [|done].
    destruct (image_write _ _ _ _ _) as [[k f]|] eqn:Hr; [|done]. cbn. intros [= _ <-]. by apply (ip_image_write env) in Hr.
  - unfold do_statfs. destruct (cache_count_chunks _ _ _) as [[[[err n] ?] p]|] eqn:Hr; [|done].
    apply cp_count in Hr as [? ?]; [|apply Hf]. cbn [mbind option_bind].
    destruct (decide _); intros [= _ <-]; by apply ip_pks.
  - unfold do_release. intros [= _ <-]. by destruct (decide _).
  - unfold do_fsync. destruct (decide _); [cbn; by intros [= _ <-]|].
    destruct (image_sync _ _) as [[[] f]|] eqn:Hr; [|done]. apply ip_image_sync in Hr as [Hf1 Hr1]; [|done]. cbn [mbind option_bind].
    destruct (body _ f) as [[ok f2]|] eqn:Hr2; [|done]. apply io_ok_frame in Hr2 as [Hf2 Hr2]; [|done].
    intros [= _ <-]. split; [done|]. by etrans.
  - unfold do_opendir. destruct (decide _); [|destruct (decide _)]; by intros [= _ <-].
  - unfold do_readdir. destruct (decide _); [|destruct (decide _)]; by intros [= _ <-].
  - destruct (entry_cleaner _ _) as [[[] f]|] eqn:Hr; [|done]. apply ip_cleaner in Hr; [|done]. by intros [= _ <-].
  - intros [= _ <-]. destruct Hf as [? ? ?]. split; by split.
Qed.

Lemma serve_all_frame rs v anss v' :
  image_fine (fsys v) -> serve_all env errno rs v = Some (anss, v') ->
  image_fine (fsys v') /\ image_framed (fsys v) (fsys v').
Proof.
  revert v anss. induction rs as [|r rs IH]; intros v anss Hf; simpl; [by intros [= _ <-]|].
  destruct (serve _ _ _ _) as [[ans v1]|] eqn:H1; [|done]. cbn [mbind option_bind].
  destruct (serve_all _ _ rs v1) as [[anss2 v2]|] eqn:H2; [|done]. intros [= _ <-].
  destruct (serve_frame _ _ _ _ Hf H1) as [Hf1 Hr1]. destruct (IH _ _ Hf1 H2) as [Hf2 Hr2]. split; [done|]. by etrans.
Qed.

(** The flag is set in the file. *)
Definition marked_dirty (p : pk_state) : Prop := Z.land (disk_flags p) CA_F_DIRTY = CA_F_DIRTY.

Lemma started_marked e bw uuid p t m v :
  behind_header p -> is_u 32 (cache_flags p) -> cache_test_flag p CA_F_DAMAGED = false ->
  fuse_init env e bw uuid p t m = Some (Started v) ->
  image_fine (fsys v) /\ marked_dirty (pks (fsys v)).
Proof.
  intros [Ho Hcs Hl] Hu Hdam Hinit. apply fuse_init_started in Hinit as (_ & q & f & Him & Hfs & _ & Hcase).
  destruct Hcase as [[Hdam' _]|[_ Hset]]; [by rewrite Hdam in Hdam'|].
  apply set_flags_written in Hset as [rest ->]. rewrite Hfs.
  assert (im_dirty (im f) = [] /\ im_reclaimable (im f) = []) as [Hd Hr].
  { revert Him. unfold image_init. destruct (decide _); [done|]. destruct (decide _); [done|]. by intros [= _ <-]. }
  set (fl := Z.lor (cache_flags p) CA_F_DIRTY).
  assert (cache_content (set_io rest (with_flags fl p)) = file_write (cache_content p) (Z.to_nat offsetof_flags) (STORE32H fl)) as Hc by done.
  split.
  - split; simpl; rewrite ?Hd, ?Hr; [|apply Forall_nil_2..]. split; [done|done|].
    rewrite Hc, length_file_write by done. lia.
  - unfold marked_dirty. simpl. change (disk_flags (set_io rest (with_flags fl p))) with (disk_flags (with_flags fl p)).
    rewrite disk_flags_with by (by apply is_u_lor). subst fl.
    rewrite Z.land_lor_distr_l. change (Z.land CA_F_DIRTY CA_F_DIRTY) with 1. apply Z.bits_inj'. intros i Hi.
    rewrite Z.lor_spec, Z.land_spec. change CA_F_DIRTY with 1. by destruct (Z.testbit _ i), (Z.testbit 1 i).
Qed.

Lemma marked_kept p p' : behind_header p -> behind_header p' -> same_header p p' -> marked_dirty p -> marked_dirty p'.
Proof.
  intros [] [] [] Hm. assert (disk_flags p' = disk_flags p) as Hd by (by apply disk_flags_header).
  unfold marked_dirty. by rewrite Hd.
Qed.

(** No parcelkeeper will serve the disk from this cache file, until it has been checked. *)
Definition refused (c : option (list Z)) : Prop :=
  forall p1 p2 e bw uuid t m, f_cache (disk p1) = c -> open_cache_file p1 = Some (PK_SUCCESS, p2) ->
    fuse_init env e bw uuid p2 t m = Some (Failed PK_BADFORMAT p2 m).

Lemma marked_refused p : marked_dirty p -> refused (f_cache (disk p)).
Proof.
  intros Hm p1 p2 e bw uuid t m Hc Ho. apply open_cache_file_flags in Ho.
  assert (disk_flags p1 = disk_flags p) as Hd by (unfold disk_flags, cache_content; by rewrite Hc).
  unfold fuse_init. assert (cache_test_flag p2 CA_F_DIRTY = true) as ->; [|done].
  unfold cache_test_flag. apply bool_decide_eq_true. by rewrite Ho, Hd.
Qed.
End dirty_flag.

(** ** A session in which nothing fails for good *)

Section session.
Context (env : compress_env) `{!ChunkSource} `{!ChunkStore env} `{!Printf}.
Context (junk_byte : is_u 8 (e_junk env)) (errno : Z).

Lemma healthy_io p : healthy p -> io p = [].
Proof. by intros [_ [_ ?] _]. Qed.

Lemma opened_header p : opened p -> healthy p -> behind_header p.
Proof. intros [? ? ? ?] [[[? ? Hcs ? ? ? ? ? ? ?] ? ? ? ? ?] ? ?]. split; [done|lia|done]. Qed.

Lemma opened_framed p p' : opened p -> behind_header p' -> same_header p p' -> opened p'.
Proof. intros [] [] []. split; congruence. Qed.

Lemma fuse_started e bw uuid p t m v flat :
  fuse_init env e bw uuid p t m = Some (Started v) -> healthy p -> opened p -> holds env p flat ->
  cache_size_ok p -> 0 < t -> related env (parcel p) (mk_fs flat ∅) v /\ opened (pks (fsys v)).
Proof.
  intros Hinit Hh Hop Hho Hsz Ht. apply fuse_init_started in Hinit as (_ & q & f & Him & Hfs & Hbuf & Hcase).
  assert (healthy q /\ opened q /\ holds env q flat /\ cache_size_ok q /\ parcel q = parcel p) as (Hh' & Hop' & Hho' & _ & Hp').
  { destruct Hcase as [[_ ->]|[_ Hset]]; [done|]. unfold cache_set_flag in Hset.
    rewrite (set_flags_run _ p Hop (healthy_io p Hh)) in Hset. injection Hset as <-.
    pose proof (with_flags_keeps env (Z.lor (cache_flags p) CA_F_DIRTY) p Hop Hh) as Hk.
    split_and!; [apply Hk|by apply with_flags_opened|by eapply keeps_holds|done|done]. }
  destruct (image_init_ok env _ _ _ _ _ _ _ Him Hh Hho Hsz Ht) as (Hi & Hroom & Hpf).
  revert Him. unfold image_init. destruct (decide _); [done|]. destruct (decide _); [done|]. intros [= _ <-].
  split; [|by rewrite Hfs]. rewrite <- Hp'. split; rewrite ?Hfs; try done. by apply fresh_inv.
Qed.

(** The chunks in the queues are those of entries. *)
Lemma inv_fine flat s : inv env [] flat s -> opened (pks s) -> image_fine s.
Proof.
  intros Hi Hop. split; [by apply opened_header; [|apply Hi]|..]; apply Forall_forall.
  - intros c (e1 & He & _)%(i_dirty _ _ _ _ Hi). by apply (i_entries _ _ _ _ Hi) in He as [[? _] _ _ _ _].
  - intros c [[e1 He] _]%(i_recl _ _ _ _ Hi). by apply (i_entries _ _ _ _ Hi) in He as [[? _] _ _ _ _].
Qed.

Lemma fuse_stopped p a v e :
  related env p a v -> opened (pks (fsys v)) ->
  exists log p' m', fuse_shutdown env (fuse_run_end e v) = Some (log, p', m') /\ healthy p' /\ parcel p' = p /\
    holds env p' (fs_flat a) /\ cache_test_flag p' CA_F_DIRTY = false.
Proof.
  intros [Hi _ _ Hp] Hop. destruct (image_shutdown_ok env _ _ Hi) as (f & Hsd & Hif & Hpf & Hempty).
  destruct (ip_shutdown env (fsys v) () f (inv_fine _ _ Hi Hop) Hsd) as [Hff Hfr].
  unfold fuse_shutdown, fuse_run_end. cbn [fsys set_mnt mnt]. rewrite Hsd. cbn [mbind option_bind stat_shutdown].
  cbn [fst snd fsys set_fsys set_buffers]. rewrite (i_leave _ _ _ _ Hif).
  assert (opened (pks f)) as Hopf by (eapply opened_framed; [exact Hop|apply Hff|apply Hfr]).
  pose proof (i_healthy _ _ _ _ Hif) as Hhf. unfold cache_clear_flag.
  rewrite (set_flags_run _ (pks f) Hopf (healthy_io _ Hhf)). cbn [mbind option_bind].
  set (fl := Z.land _ _). pose proof (with_flags_keeps env fl (pks f) Hopf Hhf) as Hk.
  assert (body (R:=bool) io_ok (with_flags fl (pks f)) = Some (true, with_flags fl (pks f))) as ->.
  { unfold body, io_ok, mbind, pk_mbind, pk_bind, next_io. change (io (with_flags fl (pks f))) with (io (pks f)).
    by rewrite (healthy_io _ Hhf). }
  eexists _, _, _. split; [done|]. pose proof Hk as (Hh' & Hp' & _). split_and!; [done|congruence| |].
  - eapply keeps_holds; [|done]. by apply inv_empty_holds.
  - by apply (dirty_cleared (cache_flags (pks f))).
Qed.

Lemma fuse_session_ok e bw uuid p t m v rs flat :
  fuse_init env e bw uuid p t m = Some (Started v) -> healthy p -> opened p -> holds env p flat ->
  cache_size_ok p -> 0 < t -> Forall (request_fine (parcel p)) rs ->
  exists anss v' a' log p' m', serve_all env errno rs v = Some (anss, v') /\
    fs_run (parcel p) rs (mk_fs flat ∅) anss a' /\ fuse_shutdown env (fuse_run_end e v') = Some (log, p', m') /\
    healthy p' /\ parcel p' = parcel p /\ holds env p' (fs_flat a') /\ cache_test_flag p' CA_F_DIRTY = false.
Proof.
  intros Hinit Hh Hop Hho Hsz Ht Hrs.
  destruct (fuse_started e bw uuid p t m v flat Hinit Hh Hop Hho Hsz Ht) as [Hrel Hopv].
  destruct (serve_all_ok env junk_byte errno _ rs _ v Hrel Hrs) as (anss & v' & a' & Hserve & Hrun & Hrel').
  assert (opened (pks (fsys v'))) as Hop'.
  { destruct (serve_all_frame env errno rs v anss v') as [Hf Hfr]; [|done|].
    - eapply inv_fine; [apply Hrel|done].
    - eapply opened_framed; [exact Hopv|apply Hf|apply Hfr]. }
  destruct (fuse_stopped _ a' v' e Hrel' Hop') as (log & p' & m' & Hsd & ? & ? & ? & ?).
  exists anss, v', a', log, p', m'. by split_and!.
Qed.
End session.

(** * Properties *)

(** C10: the parcelkeeper's file system.  From fuse_init to fuse_shutdown, whatever requests the kernel
    makes on it (attributes, truncation, opening, reading, writing, closing, syncing and listing, on any
    paths and handles, but no write to a statistics file, and reads and writes of the image that end within
    2^32 chunks, with rounds of the cleaner in between) and however often SQLite reports contention, while
    nothing else fails: every request is answered, without a fault, as the file system of a flat image and of
    statistics files allows, where an open statistics file keeps the text that it had when it was opened
    and has a handle of its own; and after the shutdown the local cache is marked clean and gives back
    exactly the final contents of the image.  What a statistic says, and how many blocks are free, is left
    open. *)
Theorem fuse_session_refines env (src : ChunkSource) (pf : Printf) errno e bw uuid p t m v rs flat :
  zlib_ok (e_zlib env) -> is_u 8 (e_junk env) ->
  healthy p -> opened p -> holds env p flat -> cache_size_ok p -> 0 < t -> Forall (request_fine (parcel p)) rs ->
  fuse_init env e bw uuid p t m = Some (Started v) ->
  exists anss v' a' log p' m', serve_all env errno rs v = Some (anss, v') /\
    fs_run (parcel p) rs (mk_fs flat ∅) anss a' /\
    fuse_shutdown env (fuse_run_end e v') = Some (log, p', m') /\ cache_test_flag p' CA_F_DIRTY = false /\
    forall c, 0 <= c < chunks (parcel p) -> exists p'',
      cache_get env c p' = Some ((PK_SUCCESS, chunk_of (parcel p) (fs_flat a') c), p'').
Proof.
  intros Hz Hj Hh Hop Hho Hsz Ht Hrs Hinit. pose proof (@cache_store env (chunk_codec env Hz Hj) src) as Hcs.
  destruct (fuse_session_ok env Hj errno e bw uuid p t m v rs flat) as (anss & v' & a' & log & p' & m' & Hs & Hrun & Hsd & Hh' & Hp & [_ _ Hc] & Hcl);
    try done.
  exists anss, v', a', log, p', m'. split_and!; try done. rewrite Hp in Hc. intros c Hcr.
  destruct (store_get p' c _ Hh' ltac:(by rewrite Hp) (Hc c Hcr)) as (p'' & Hg & _). by exists p''.
Qed.


(** ** Witnesses *)

(** Everything the operating system is asked for succeeds. *)
Definition all_well : fuse_env := mk_fuse_env (2 ^ 20) 4096 true true true (fun _ => true) true (fun _ => true) false true true.
Definition unmounted : mount := mk_mount false false false false false false.
#[local] Existing Instance no_source.
#[local] Instance demo_printf : Printf := {| fmt_percent _ _ := "50.0"%string |}.

Definition demo_requests : list request :=
  [R_getattr "/image"; R_open "/image"; R_write 0 60 (replicate 8 1); R_read 0 56 16; R_open "/stats/bytes_read";
   R_write 0 64 (replicate 64 2); R_read 1 0 100; R_statfs; R_release 1; R_read 1 0 100; R_opendir "/"; R_readdir DIR_ROOT;
   R_tick 110; R_clean; R_fsync 0; R_truncate "/image" 0; R_write 0 128 [1]; R_getattr "/nothing"].

Lemma demo_requests_fine : Forall (request_fine (parcel demo)) demo_requests.
Proof. repeat apply Forall_cons_2; try apply Forall_nil_2; repeat split; by repeat constructor. Qed.

Lemma filled_opened : opened filled.
Proof.
  split; [vm_compute; reflexivity|vm_compute; reflexivity|vm_compute; congruence|].
  apply (bool_decide_unpack _). vm_compute. exact I.
Qed.

Definition has_started (x : option started) : bool := match x with Some (Started _) => true | _ => false end.

Lemma fuse_session_refines_witness : exists v anss v' a' log p' m',
  fuse_init stored_env all_well true "uuid" filled 100 unmounted = Some (Started v) /\
  serve_all stored_env EIO demo_requests v = Some (anss, v') /\
  fs_run (parcel filled) demo_requests (mk_fs filled_flat ∅) anss a' /\
  fuse_shutdown stored_env (fuse_run_end all_well v') = Some (log, p', m') /\ cache_test_flag p' CA_F_DIRTY = false.
Proof.
  destruct filled_ok as (Hh & Hho & Hp).
  assert (has_started (fuse_init stored_env all_well true "uuid" filled 100 unmounted) = true) as Hst
    by (vm_compute; reflexivity).
  destruct (fuse_init stored_env all_well true "uuid" filled 100 unmounted) as [[err q n|v]|] eqn:Hinit;
    [discriminate Hst| |discriminate Hst].
  destruct (fuse_session_refines stored_env no_source demo_printf EIO all_well true "uuid" filled 100 unmounted v demo_requests filled_flat)
    as (anss & v' & a' & log & p' & m' & Hs & Hrun & Hsd & Hcl & _).
  - apply stored_zlib_ok.
  - apply junk_byte_0.
  - exact Hh.
  - apply filled_opened.
  - exact Hho.
  - unfold cache_size_ok. clear. vm_compute. split; reflexivity.
  - clear. lia.
  - rewrite Hp. apply demo_requests_fine.
  - exact Hinit.
  - exists v, anss, v', a', log, p', m'. split; [reflexivity|]. split; [exact Hs|]. split; [exact Hrun|]. split; [exact Hsd|exact Hcl].
Defined.

(** A cache file with a header, and a schedule in which the chunk's data cannot be written. *)
Definition headed : pk_state :=
  mk_state (conf demo) (parcel demo) true (shm demo) (conn demo) 512 0 (stats demo)
    (mk_files ∅ (Some true) ∅ (Some (put_header (mk_ca_header CA_MAGIC 2 1 0 CA_VERSION) ++ replicate 624 0)) None)
    [None; None; Some 0%nat].

Definition lost_write : list request := [R_write 0 0 (replicate 64 9); R_fsync 0].

(** The file system is started and used, and its process killed; the file can be opened. *)
Definition killed_at : option (vfs * list answer * vfs * pk_state) :=
  match fuse_init stored_env all_well true "uuid" headed 100 unmounted with
  | Some (Started v) =>
      '(anss, v') ← serve_all stored_env EIO lost_write v;
      match open_cache_file (pks (fsys v')) with
      | Some (PK_SUCCESS, p2) => Some (v, anss, v', p2)
      | _ => None
      end
  | _ => None
  end.

